(* ===== verification/_CoqProject ===== *)
-Q . S2P
Prelude.v
Socket.v
Utf8.v
Text.v
Plist.v
Opack.v
Tlv.v
XpcMessage.v
DtxTypes.v
DtxCodec.v
DtxConn.v
Archive.v
ArchiveSpec.v
H2Framer.v
H2Read.v
H2Inv.v
H2Conn.v
H2Recv.v
H2Mark.v
H2Live.v
XpcPending.v
XpcConn.v
XpcConnSpec.v
Rsd.v
Afc.v
AfcSpec.v
ActivityTrace.v
Gdb.v
Tunnel.v
TunnelSpec.v
Json.v
CdTunnel.v
Frames.v
PlistClients.v
Mbdb.v
Fs.v
BackupPath.v
BackupDir.v
Backup.v
BackupSpec.v
BackupTransfer.v
BackupReturns.v
Slices.v
OsTrace.v
OsTraceSpec.v
Capture.v
Pasteboard.v
PasteboardSpec.v
FileService.v
TestResults.v
TestResultsSpec.v
