(* ===== verification/Prelude.v ===== *)
(** Verification of [rust-ios-device], the library that talks to iOS devices
    (crate [ios-core], under [src/crates/ios-core/src]).

    The program is a stack of protocols. At the bottom a byte stream (usbmux, TLS or a
    tunnel). On it, three families of clients: those that frame messages by hand
    (lockdown and its plist services, AFC, the GDB remote, DTX), and those that speak
    XPC messages over a private HTTP/2 framer. Below and beside them are the codecs:
    OPACK, TLV8, UTF-8, JSON, property lists, keyed archives, XPC values, the index of a
    backup. Above them are the clients of services, of which the backup is the largest: it
    serves the device the files of a directory on the host. Everything is read from a device
    that need not be well behaved, so that every decoder has limits, every client must
    survive a read that fails or is dropped half-way, and what the device names on the host
    must stay inside the directory it was given.

    *** How the code is modelled

    Pure code is a function; code that can fail returns an [outcome], whose [Panic] is an
    index, slice or arithmetic check that Rust would abort on, whose [Pending] is an
    [async fn] dropped while it waits for its socket and whose [OutOfFuel] marks a loop
    bound that was too small. A method with [&mut self] is a state transformer [st S E A]:
    the state survives an error or a dropped call, as it does in Rust, and is what the
    next call starts from. [wp] and [wpx] are the triples the proofs use: [wp] for code
    that must return, [wpx] with a postcondition for each of return, error and drop; none of
    them allows a panic or spent fuel. Machine integers are [Z] with their wrapping or
    their checks written out; [usize] has 64 bits. Bytes are [Byte.byte]; a Rust string is
    its UTF-8 bytes; a [HashMap] is a [gmap], or the list of its entries where the order
    of an iteration matters; where the code builds one, any order is possible ([Dtx.HashOrder]).

    A socket is a schedule ([Socket.v], module [Net]): what each read meets (a chunk, end
    of file, a failure, a stall at which the caller drops the future) and what each write
    meets. So a statement over all schedules is a statement over every way to cut the
    bytes up and every place to fail or to be dropped.

    Loops whose recursion is not structural carry fuel, and the fuel is computed from the
    state: the number of bytes or events that are left, plus one, where every round uses one
    (reads, writes, frame loops, the DTX receive loop, the trace decoder, the messages of a
    backup); the number of tries the code itself allows (the RSD handshake); the nodes of the
    file system, or the components of a path, for a walk of it. That this is enough is proved: no
    theorem admits [OutOfFuel], and those of kind termination say so for any input. Recursive
    decoders count the nesting levels that remain, from the code's own depth limit.

    *** The files

    - [Prelude.v] (this file): [outcome], the state monad and its triples, bytes and
      endianness, slices, [bytes::Buf], insertion-ordered maps, sums over containers.
    - [Socket.v]: the schedule and tokio's [read_exact], [write_all], [flush].
    - [Utf8.v], [Text.v], [Plist.v]: what the code uses of the standard library's text
      functions and of [plist::Value]; the plist encodings are a class.
    - [Opack.v], [Tlv.v]: [proto/opack.rs], [proto/tlv.rs], the serialisations of the
      pairing exchange. Round trips, totality, the exact refusals of the encoder.
    - [XpcMessage.v]: [xpc/message.rs]. The decoder accepts only well-formed messages within
      the limits and never panics; encoding round trips; the incremental buffer reassembles
      a sequence of messages however it is cut.
    - [H2Framer.v] ([xpc/h2_raw.rs], every method of [H2Framer]), [H2Read.v], [H2Inv.v],
      [H2Conn.v], [H2Recv.v], [H2Mark.v], [H2Live.v]: the framer as a transition system whose steps are
      public calls against any schedule. Memory stays accounted and bounded, what is on the
      wire is whole frames, a read returns exactly a stream's payloads in order, a write sends
      exactly its data within the flow-control windows, dropped calls lose nothing, errors
      stick, and a read of bytes that come returns them.
    - [XpcPending.v], [XpcConn.v], [XpcConnSpec.v]: [xpc/rsd.rs] (the message reader,
      [XpcConnection], its parked replies) and [xpc/client.rs]. Built on the framer's theorems:
      a stream is a byte queue from which calls take whole messages; a reply is the one asked
      for, and messages before it are parked; what a connection sends a peer in order receives.
    - [Rsd.v]: the RSD handshake and the service registry of [xpc/rsd.rs].
    - [DtxTypes.v], [DtxCodec.v], [DtxConn.v]: [services/dtx]. Frames and auxiliary sections
      round trip; fragments reassemble in any order of arrival; the memory budget is exact in
      every reachable state; a call gets the reply to its own identifier.
    - [Archive.v], [ArchiveSpec.v]: [proto/nskeyedarchiver.rs] and [nskeyedarchiver_encode.rs].
      The codec that DTX uses through the class [Dtx.Archiver], of which [keyed_archiver] is the
      instance. Archives decode to what was archived, have references in range and proper
      classes, and decoding is bounded in depth. Dictionaries are equal up to the order of
      their entries.
    - [Afc.v], [AfcSpec.v]: [services/afc/mod.rs], [proto/afc.rs]. The transcript of every
      operation; reads and writes transfer exactly the file.
    - [Tunnel.v], [TunnelSpec.v]: [tunnel/forward.rs]; the packet relay as two tasks that a
      scheduler interleaves. The TUN device takes exactly the packets of the stream, and the
      queue between the tasks is bounded and drains.
    - [Json.v], [CdTunnel.v]: [tunnel/handshake.rs], with the part of JSON it needs as a class
      of codecs and a concrete instance.
    - [Frames.v], [PlistClients.v]: [services/plist_frame.rs], [lockdown/protocol.rs] and
      [client.rs], [mux/], [services/device_link.rs]. Three framings are instances of one
      class [Channel.Channel], against which the clients' calls are proved exact.
    - [Mbdb.v]: [services/backup2/mbdb.rs]; reading and writing an index loses nothing.
    - [Fs.v]: the host's file system as the backup sees it: paths, directories, files and
      symbolic links, the calls of [std::fs] with a schedule of failures, reads and
      writes that take only a part, so that a write that fails may leave a part behind.
    - [BackupPath.v], [BackupDir.v], [Backup.v]: [services/backup2/mod.rs] on Unix: the filters
      and the path policy, the set-up of the directory, the transfers, the message loop and
      every call of the client. [BackupSpec.v]: whatever the device sends, nothing outside the
      directory of the backup is changed. [BackupTransfer.v]: uploads are stored byte for byte,
      with tokio's files, which report a failed write at the next write or at [flush].
      [BackupReturns.v]: every call ends.
    - [Slices.v]: parsers of fixed layouts. [OsTrace.v], [OsTraceSpec.v]:
      [services/ostrace/mod.rs], the log stream and the stored archive. Records are parsed
      exactly, the stream gives them out in order, an archive is copied byte for byte.
    - [Capture.v]: [services/pcap/mod.rs], [services/bt_packet_logger.rs]. The search for the
      device's addresses is bounded and right; the files written read back.
    - [Pasteboard.v], [PasteboardSpec.v]: [services/pasteboard/mod.rs], a client on the
      connection of [XpcConn.v]. A reply is the first message with a body after the request;
      what is set reads back; snapshots and the queue of a subscription keep their limits.
    - [FileService.v]: [services/fileservice/mod.rs]. A download writes exactly the bytes
      behind the header; what an upload sends is what a download reads.
    - [TestResults.v], [TestResultsSpec.v]: [services/testmanager/results.rs]. The recorder holds
      what a run did, with nested suites; the JUnit report is well-formed and reads back.
    - [ActivityTrace.v]: the stack-machine decoder of [services/instruments/activity_trace.rs];
      cutting a message in pieces does not change what is decoded.
    - [Gdb.v]: [services/debugserver/mod.rs]; the remote protocol's packets and client.

    *** Interfaces

    Code outside the repository is a parameter, with what the source relies on as a law where
    a theorem needs one: [Plist.PlistCodec] with [Plist.BinaryCodec] (the plist crate, with the
    concrete [Plist.tree_codec] for runs), [Dtx.Archiver] (which [Archive.v] implements),
    [Dtx.Alloc] and [Pending.Allocation] (capacities and type sizes that the memory accounting
    adds up), [FromPlist] and [XmlCodec] (deserialisation into Rust types), [Json.JsonCodec],
    [Fs.Platform] (what differs between hosts), the SHA-1 digest of [Mbdb], the regular
    expressions and case folding of [RegexEngine] and [TextEngine], the host's free space, its
    local time and its error texts in [Backup], the deadline of [Pcap.find_ip],
    the order in which a [HashMap] iterates ([Dtx.HashOrder]), [Socket.IoError] (an error type's [From<io::Error>]).

    *** Not modelled

    - Third-party code: TLS and PSK-TLS, SRP and the other cryptography of pairing and backups,
      certificates, the plist and semver crates, the smoltcp user-space TCP stack, mDNS,
      SQLite. Where modelled code calls it, it is a parameter.
    - Plain input and output: opening sockets, timers and task spawning (a task that ends or is
      dropped is a schedule), the kernel's TUN device and the table of live tunnels, logging, [Display] and [Debug] texts
      (a message is its template and numbers).
    - Branches for Windows; hard links, permissions and other processes in [Fs.v].
    - The rewriting of a backup's manifest in SQLite ([services/backup2/manifest.rs]) and its key
      bag ([crypto.rs]); the temporary files, the extraction and the installation of a log archive
      (the tar crate), of which the check of the tar frame is modelled.
    - The command-line tool and the C and Python bindings, which print and convert what the library
      returns.
    - The other service clients. Most build a request and pick fields out of the reply over
      layers that are modelled. Those with state of their own that are left out are the web
      inspector, the installation coordinator, the instruments and the test manager, of which only
      the results are modelled, without the atomic replacement of the report's file.
    - The stored credentials and the choice of a transport for a device.

    *** Where the code falls short

    The manifest lists the findings. Those with a theorem: a DTX receive that is dropped leaks
    budget, ended HTTP/2 streams can become unreadable, TLV8 merges items that are not adjacent,
    AFC shifts pairs after an empty value, leaks a handle after a failed read and accepts a
    stale reply, the archive decoder misreads inline integers and can be made to do exponential
    work, the trace decoder carries bytes without a limit, a stray [#] blocks the GDB client, a
    backup can lose a file that it keeps when it is moved onto a filtered one, a pasteboard
    request that is dropped leaves its reply to the next, a dropped [next_push] loses events,
    a download takes only 32 bits of the size of a file, the counts of a test run can
    overflow their sum, and line ends in the names of tests do not survive the report. *)

From Stdlib Require Export ZArith Lia ZifyBool ZifyNat.
From Stdlib Require Export Strings.Byte.
From stdpp Require Export base tactics option list numbers strings gmap fin_maps.

#[global] Open Scope Z_scope.

(** ** Results of Rust code

    [Ok]/[Err] are the values of a Rust [Result]; [Panic] is a slice, index or
    [bytes::Buf] access out of range (the code would abort the task); [Pending]
    is an [async fn] that was dropped while it awaited its socket; [OutOfFuel]
    only arises from a loop whose iteration bound was too small. *)
Inductive outcome (E A : Type) : Type :=
| Ok (a : A)
| Err (e : E)
| Panic
| Pending
| OutOfFuel.
Arguments Ok {E A} a.
Arguments Err {E A} e.
Arguments Panic {E A}.
Arguments Pending {E A}.
Arguments OutOfFuel {E A}.

#[global] Instance outcome_bind E : MBind (outcome E) := fun A B f o =>
  match o with
  | Ok a => f a
  | Err e => Err e
  | Panic => Panic
  | Pending => Pending
  | OutOfFuel => OutOfFuel
  end.
#[global] Instance outcome_fmap E : FMap (outcome E) := fun A B f o =>
  match o with
  | Ok a => Ok (f a)
  | Err e => Err e
  | Panic => Panic
  | Pending => Pending
  | OutOfFuel => OutOfFuel
  end.
#[global] Instance outcome_ret E : MRet (outcome E) := fun A a => Ok a.

(** The call came back with a value or with an error of the code's own. *)
Definition returns {E A} (o : outcome E A) : Prop :=
  match o with Ok _ | Err _ => True | _ => False end.

Lemma returns_bind {E A B} (o : outcome E A) (f : A -> outcome E B) :
  returns o -> (forall a, o = Ok a -> returns (f a)) -> returns (o ≫= f).
Proof. destruct o; simpl; auto. Qed.

(** A message of [format!]: its template and the numbers it interpolates. *)
Record msg := Msg { msg_text : string; msg_args : list Z }.
#[global] Instance msg_eq_dec : EqDecision msg.
Proof. solve_decision. Defined.

(** ** State passing

    [st S E A] is a method with a [&mut self] of type [S]: the state it leaves
    behind survives an error, a panic or a cancellation. *)
Definition st (S E A : Type) : Type := S -> S * outcome E A.

#[global] Instance st_ret {S E} : MRet (st S E) := fun A a s => (s, Ok a).
#[global] Instance st_bind {S E} : MBind (st S E) := fun A B f m s =>
  match m s with
  | (s', Ok a) => f a s'
  | (s', Err e) => (s', Err e)
  | (s', Panic) => (s', Panic)
  | (s', Pending) => (s', Pending)
  | (s', OutOfFuel) => (s', OutOfFuel)
  end.

Definition st_fail {S E A} (e : E) : st S E A := fun s => (s, Err e).
Definition st_get {S E} : st S E S := fun s => (s, Ok s).
Definition st_gets {S E A} (f : S -> A) : st S E A := fun s => (s, Ok (f s)).
Definition st_mod {S E} (f : S -> S) : st S E unit := fun s => (f s, Ok tt).
Definition st_lift {S E A} (o : outcome E A) : st S E A := fun s => (s, o).
(** [debug_assert!(b)] in a build that checks it. *)
Definition debug_assert {S E} (b : bool) : st S E unit := if b then mret tt else st_lift Panic.

Lemma st_bind_ok {S E A B} (m : st S E A) (f : A -> st S E B) s s' a :
  m s = (s', Ok a) -> (m ≫= f) s = f a s'.
Proof. unfold mbind, st_bind. by intros ->. Qed.

Lemma st_bind_get {S E B} (f : S -> st S E B) s : (st_get ≫= f) s = f s s.
Proof. done. Qed.

(** Hoare-style triple for invariants that hold whatever the outcome is. *)
Definition preserves {S E A} (I : S -> Prop) (m : st S E A) : Prop :=
  forall s, I s -> I (fst (m s)).

Lemma preserves_ret {S E A} (I : S -> Prop) (a : A) :
  preserves I (mret a : st S E A).
Proof. by intros s Hs. Qed.
Lemma preserves_fail {S E A} (I : S -> Prop) (e : E) :
  preserves I (st_fail e : st S E A).
Proof. by intros s Hs. Qed.
Lemma preserves_get {S E} (I : S -> Prop) : preserves I (st_get : st S E S).
Proof. by intros s Hs. Qed.
Lemma preserves_gets {S E A} (I : S -> Prop) (f : S -> A) :
  preserves I (st_gets f : st S E A).
Proof. by intros s Hs. Qed.
Lemma preserves_lift {S E A} (I : S -> Prop) (o : outcome E A) :
  preserves I (st_lift o : st S E A).
Proof. by intros s Hs. Qed.
Lemma preserves_bind {S E A B} (I : S -> Prop) (m : st S E A) (f : A -> st S E B) :
  preserves I m -> (forall a, preserves I (f a)) -> preserves I (m ≫= f).
Proof.
  intros Hm Hf s Hs. specialize (Hm s Hs). unfold mbind, st_bind.
  destruct (m s) as [s' [a| | | |]]; simpl in *; auto. by apply Hf.
Qed.

(** Weakest precondition for code that must return: a value that satisfies [Q],
    or one of its own errors; a panic, a pending await or spent fuel fails it. *)
Definition wp {S E A} (m : st S E A) (Q : A -> S -> Prop) (s : S) : Prop :=
  match m s with
  | (s', Ok a) => Q a s'
  | (_, Err _) => True
  | _ => False
  end.

Lemma wp_bind {S E A B} (m : st S E A) (f : A -> st S E B) Q s :
  wp m (fun a s' => wp (f a) Q s') s -> wp (m ≫= f) Q s.
Proof. unfold wp, mbind, st_bind. destruct (m s) as [s' [a| | | |]]; auto. Qed.
Lemma wp_ret {S E A} (a : A) Q (s : S) : Q a s -> wp (mret a : st S E A) Q s.
Proof. done. Qed.
Lemma wp_fail {S E A} (e : E) (Q : A -> S -> Prop) s : wp (st_fail e) Q s.
Proof. done. Qed.
Lemma wp_mono {S E A} (m : st S E A) (Q R : A -> S -> Prop) s :
  (forall a s', Q a s' -> R a s') -> wp m Q s -> wp m R s.
Proof. unfold wp. destruct (m s) as [s' [a| | | |]]; auto. Qed.
Lemma wp_get {S E} Q (s : S) : Q s s -> wp (st_get : st S E S) Q s.
Proof. done. Qed.

(** The same with a postcondition for each way the code can come back: [Q] for
    a value, [R] for an error, [T] for a future dropped while it waited. *)
Definition wpx {S E A} (m : st S E A) (Q : A -> S -> Prop) (R T : S -> Prop) (s : S) : Prop :=
  match m s with
  | (s', Ok a) => Q a s'
  | (s', Err _) => R s'
  | (s', Pending) => T s'
  | _ => False
  end.

Section wpx_rules.
Context {S E : Type}.
Implicit Types (R T : S -> Prop) (s : S).

Lemma wpx_bind {A B} (m : st S E A) (f : A -> st S E B) Q R T s :
  wpx m (fun a s' => wpx (f a) Q R T s') R T s -> wpx (m ≫= f) Q R T s.
Proof. unfold wpx, mbind, st_bind. destruct (m s) as [s' [a| | | |]]; auto. Qed.
Lemma wpx_ret {A} (a : A) (Q : A -> S -> Prop) R T s : Q a s -> wpx (mret a : st S E A) Q R T s.
Proof. done. Qed.
Lemma wpx_fail {A} (e : E) (Q : A -> S -> Prop) R T s : R s -> wpx (st_fail e) Q R T s.
Proof. done. Qed.
Lemma wpx_get (Q : S -> S -> Prop) R T s : Q s s -> wpx (st_get : st S E S) Q R T s.
Proof. done. Qed.
Lemma wpx_gets {A} (f : S -> A) Q R T s : Q (f s) s -> wpx (st_gets f : st S E A) Q R T s.
Proof. done. Qed.
Lemma wpx_mod (f : S -> S) (Q : unit -> S -> Prop) R T s :
  Q tt (f s) -> wpx (st_mod f : st S E unit) Q R T s.
Proof. done. Qed.
Lemma wpx_lift {A} (o : outcome E A) (Q : A -> S -> Prop) R T s :
  returns o -> (forall a, o = Ok a -> Q a s) -> R s -> wpx (st_lift o) Q R T s.
Proof. unfold wpx, st_lift. destruct o; simpl; auto; tauto. Qed.
Lemma wpx_mono {A} (m : st S E A) (Q Q' : A -> S -> Prop) (R R' T T' : S -> Prop) s :
  wpx m Q R T s -> (forall a s', Q a s' -> Q' a s') -> (forall s', R s' -> R' s') ->
  (forall s', T s' -> T' s') -> wpx m Q' R' T' s.
Proof. unfold wpx. destruct (m s) as [s' [a| | | |]]; auto. Qed.
End wpx_rules.

(** Steps through the code, one primitive at a time. *)
Ltac wpx_step :=
  lazymatch goal with
  | |- wpx (mbind _ _) _ _ _ _ => apply wpx_bind
  | |- wpx (mret _) _ _ _ _ => apply wpx_ret
  | |- wpx (st_fail _) _ _ _ _ => apply wpx_fail
  | |- wpx st_get _ _ _ _ => apply wpx_get
  | |- wpx (st_gets _) _ _ _ _ => apply wpx_gets
  | |- wpx (st_mod _) _ _ _ _ => apply wpx_mod
  | |- wpx (if ?c then _ else _) _ _ _ _ => let H := fresh "Hif" in destruct c eqn:H
  end.
Ltac wpx_steps := repeat (cbv beta; wpx_step).

(** ** Bytes and machine integers *)
Abbreviation bytes := (list byte).

Definition Zb (b : byte) : Z := Z.of_N (Byte.to_N b).
Definition bZ (z : Z) : byte := default x00 (Byte.of_N (Z.to_N (z mod 256))).

Lemma Zb_range b : 0 <= Zb b < 256.
Proof. unfold Zb. pose proof (Byte.to_N_bounded b). lia. Qed.

Lemma Zb_bZ z : Zb (bZ z) = z mod 256.
Proof.
  unfold Zb, bZ. pose proof (Z.mod_pos_bound z 256 eq_refl) as Hb.
  destruct (Byte.of_N (Z.to_N (z mod 256))) as [b|] eqn:E; simpl.
  - apply Byte.to_of_N in E. rewrite E. lia.
  - apply Byte.of_N_None_iff in E. lia.
Qed.

Lemma bZ_Zb b : bZ (Zb b) = b.
Proof.
  unfold bZ. rewrite Z.mod_small by apply Zb_range.
  unfold Zb. rewrite N2Z.id, Byte.of_to_N. done.
Qed.

Lemma Zb_inj b c : Zb b = Zb c -> b = c.
Proof. intros H. rewrite <- (bZ_Zb b), <- (bZ_Zb c). by rewrite H. Qed.

#[global] Instance byte_eq_dec : EqDecision byte.
Proof. intros x y. destruct (Byte.byte_eq_dec x y); [left|right]; done. Defined.
#[global] Instance byte_countable : Countable byte.
Proof.
  refine (inj_countable' Byte.to_N (fun n => default x00 (Byte.of_N n)) _).
  intros b. by rewrite Byte.of_to_N.
Defined.

(** [x.to_le_bytes()] of an [n]-byte integer (a negative [z] is written in
    two's complement) and [from_le_bytes] of an unsigned one. *)
Fixpoint le_bytes (n : nat) (z : Z) : bytes :=
  match n with
  | O => []
  | S n => bZ z :: le_bytes n (z / 256)
  end.
Fixpoint le_Z (l : bytes) : Z :=
  match l with
  | [] => 0
  | b :: l => Zb b + 256 * le_Z l
  end.
Definition be_bytes (n : nat) (z : Z) : bytes := rev (le_bytes n z).
Definition be_Z (l : bytes) : Z := le_Z (rev l).

(** Reinterpret the low [w] bits as a signed integer ([as iN]). *)
Definition signed (w z : Z) : Z :=
  let m := z mod 2 ^ w in if m <? 2 ^ (w - 1) then m else m - 2 ^ w.

Definition usize_max : Z := 2 ^ 64 - 1.
Definition u32_max : Z := 2 ^ 32 - 1.
Definition i32_min : Z := - 2 ^ 31.
Definition i32_max : Z := 2 ^ 31 - 1.
Definition in_u (w z : Z) : Prop := 0 <= z < 2 ^ w.
Definition in_i (w z : Z) : Prop := - 2 ^ (w - 1) <= z < 2 ^ (w - 1).

(** [a.saturating_sub(b)] on an unsigned integer. *)
Definition sat_sub (a b : Z) : Z := Z.max 0 (a - b).

(** Length of a buffer as a [usize]. *)
Definition len {A} (l : list A) : Z := Z.of_nat (length l).

Lemma length_le_bytes n z : length (le_bytes n z) = n.
Proof. revert z; induction n; intros; simpl; auto. Qed.
Lemma length_be_bytes n z : length (be_bytes n z) = n.
Proof. unfold be_bytes. by rewrite length_rev, length_le_bytes. Qed.

Lemma len_app {A} (l1 l2 : list A) : len (l1 ++ l2) = len l1 + len l2.
Proof. unfold len. rewrite length_app. lia. Qed.
Lemma len_nonneg {A} (l : list A) : 0 <= len l.
Proof. unfold len. lia. Qed.
Lemma len_le_bytes n z : len (le_bytes n z) = Z.of_nat n.
Proof. unfold len. by rewrite length_le_bytes. Qed.

Lemma le_Z_le_bytes n z : le_Z (le_bytes n z) = z mod 256 ^ Z.of_nat n.
Proof.
  revert z; induction n as [|n IH]; intros z.
  - simpl. by rewrite Z.mod_1_r.
  - cbn [le_bytes le_Z]. rewrite IH, Zb_bZ, Nat2Z.inj_succ, Z.pow_succ_r by lia.
    rewrite Z.rem_mul_r; lia.
Qed.

Lemma le_Z_bound l : 0 <= le_Z l < 256 ^ len l.
Proof.
  induction l as [|b l IH]; [done|].
  unfold len in *. cbn [le_Z length]. rewrite Nat2Z.inj_succ, Z.pow_succ_r by lia.
  pose proof (Zb_range b). lia.
Qed.

Lemma le_bytes_le_Z l : le_bytes (length l) (le_Z l) = l.
Proof.
  induction l as [|b l IH]; [done|]. cbn [length le_Z le_bytes].
  pose proof (Zb_range b).
  f_equal.
  - rewrite <- (bZ_Zb b) at 2. apply Zb_inj. rewrite !Zb_bZ. Z.div_mod_to_equations. lia.
  - etrans; [|exact IH]. f_equal. Z.div_mod_to_equations. lia.
Qed.

Lemma be_Z_be_bytes n z : be_Z (be_bytes n z) = z mod 256 ^ Z.of_nat n.
Proof. unfold be_Z, be_bytes. by rewrite rev_involutive, le_Z_le_bytes. Qed.

Lemma be_Z_bound l : 0 <= be_Z l < 256 ^ len l.
Proof.
  unfold be_Z. pose proof (le_Z_bound (rev l)) as H.
  unfold len in *. by rewrite length_rev in H.
Qed.

Lemma signed_mod w z : 0 < w -> in_i w z -> signed w (z mod 2 ^ w) = z.
Proof.
  intros Hw Hz. unfold signed, in_i in *.
  assert (2 ^ w = 2 * 2 ^ (w - 1)) as Hp.
  { rewrite <- Z.pow_succ_r by lia. f_equal. lia. }
  rewrite Zmod_mod. assert (0 < 2 ^ (w - 1)) by (apply Z.pow_pos_nonneg; lia).
  destruct (Z_le_gt_dec 0 z).
  - rewrite Z.mod_small by lia.
    destruct (z <? 2 ^ (w - 1)) eqn:E; lia.
  - replace (z mod 2 ^ w) with (z + 2 ^ w).
    + destruct (z + 2 ^ w <? 2 ^ (w - 1)) eqn:E; lia.
    + apply (Z.mod_unique_pos _ _ (-1)); lia.
Qed.

Lemma signed_bound w z : 0 < w -> in_i w (signed w z).
Proof.
  intros Hw. unfold signed, in_i.
  assert (2 ^ w = 2 * 2 ^ (w - 1)) as Hp.
  { rewrite <- Z.pow_succ_r by lia. f_equal. lia. }
  assert (0 < 2 ^ (w - 1)) by (apply Z.pow_pos_nonneg; lia).
  pose proof (Z.mod_pos_bound z (2 ^ w)).
  destruct (z mod 2 ^ w <? 2 ^ (w - 1)) eqn:E; lia.
Qed.

#[global] Arguments le_bytes : simpl never.
#[global] Arguments le_Z : simpl never.
#[global] Arguments be_bytes : simpl never.
#[global] Arguments be_Z : simpl never.
#[global] Arguments len : simpl never.

(** Writing an in-range integer and reading it back. *)
Lemma le_Z_le_bytes_u (n : nat) (w z : Z) :
  w = 8 * Z.of_nat n -> in_u w z -> le_Z (le_bytes n z) = z.
Proof.
  intros -> Hz. rewrite le_Z_le_bytes. apply Z.mod_small.
  unfold in_u in Hz. by rewrite Z.pow_mul_r in Hz by lia.
Qed.
Lemma be_Z_be_bytes_u (n : nat) (w z : Z) :
  w = 8 * Z.of_nat n -> in_u w z -> be_Z (be_bytes n z) = z.
Proof.
  intros -> Hz. rewrite be_Z_be_bytes. apply Z.mod_small.
  unfold in_u in Hz. by rewrite Z.pow_mul_r in Hz by lia.
Qed.
Lemma signed_le_Z_le_bytes (n : nat) (w z : Z) :
  w = 8 * Z.of_nat n -> (0 < n)%nat -> in_i w z -> signed w (le_Z (le_bytes n z)) = z.
Proof.
  intros -> Hn Hz. rewrite le_Z_le_bytes.
  replace (256 ^ Z.of_nat n) with (2 ^ (8 * Z.of_nat n)) by (by rewrite Z.pow_mul_r by lia).
  apply signed_mod; [lia|done].
Qed.
Lemma signed_be_Z_be_bytes (n : nat) (w z : Z) :
  w = 8 * Z.of_nat n -> (0 < n)%nat -> in_i w z -> signed w (be_Z (be_bytes n z)) = z.
Proof.
  intros -> Hn Hz. rewrite be_Z_be_bytes.
  replace (256 ^ Z.of_nat n) with (2 ^ (8 * Z.of_nat n)) by (by rewrite Z.pow_mul_r by lia).
  apply signed_mod; [lia|done].
Qed.

(** ** Slices, indexing and appending

    [index] and [slice] panic out of range, as [buf[i]] and [&buf[a..b]] do. *)
Definition index {E A} (l : list A) (i : nat) : outcome E A :=
  match l !! i with Some a => Ok a | None => Panic end.
Definition slice {E A} (l : list A) (a b : nat) : outcome E (list A) :=
  if (a <=? b)%nat && (b <=? length l)%nat then Ok (take (b - a) (drop a l)) else Panic.
(** [out[pos .. pos + bs.len()].copy_from_slice(bs)] *)
Definition copy_at {E} (out : bytes) (pos : nat) (bs : bytes) : outcome E bytes :=
  if (pos + length bs <=? length out)%nat
  then Ok (take pos out ++ bs ++ drop (pos + length bs) out) else Panic.

Lemma index_ok {E A} (l : list A) i : (i < length l)%nat ->
  exists a, index l i = Ok (E := E) a /\ l !! i = Some a.
Proof.
  intros Hi. unfold index. destruct (lookup_lt_is_Some_2 l i Hi) as [a Ha].
  rewrite Ha. eauto.
Qed.
Lemma slice_ok {E A} (l : list A) a b : (a <= b <= length l)%nat ->
  slice l a b = Ok (E := E) (take (b - a) (drop a l)).
Proof.
  intros [H1 H2]. unfold slice.
  apply Nat.leb_le in H1. apply Nat.leb_le in H2. by rewrite H1, H2.
Qed.
Lemma slice_app {E A} (l1 l2 l3 : list A) :
  slice (l1 ++ l2 ++ l3) (length l1) (length l1 + length l2) = Ok (E := E) l2.
Proof.
  rewrite slice_ok by (rewrite !length_app; lia).
  rewrite drop_app_length, Nat.add_comm, Nat.add_sub, take_app_length. done.
Qed.
Lemma copy_at_app {E} (l1 l2 l3 bs : bytes) :
  length bs = length l2 ->
  copy_at (l1 ++ l2 ++ l3) (length l1) bs = Ok (E := E) (l1 ++ bs ++ l3).
Proof.
  intros Hl. unfold copy_at.
  rewrite (proj2 (Nat.leb_le _ _)) by (rewrite !length_app; lia).
  rewrite take_app_length, (app_assoc l1 l2 l3).
  by rewrite (drop_app_length' (l1 ++ l2)) by (rewrite length_app; lia).
Qed.

(** ** The cursor of [bytes::Buf]

    The state is what remains to be read. Every read panics when too little
    remains, which is what the callers' [remaining()] guards rule out. *)
Section cursor.
Context {E : Type}.

Definition buf_take (n : nat) : st bytes E bytes := fun buf =>
  if (n <=? length buf)%nat then (drop n buf, Ok (take n buf)) else (buf, Panic).
Definition buf_advance (n : nat) : st bytes E unit := buf_take n ≫= fun _ => mret tt.
Definition get_u8 : st bytes E Z := bs ← buf_take 1; mret (le_Z bs).
Definition get_u32_le : st bytes E Z := bs ← buf_take 4; mret (le_Z bs).
Definition get_u64_le : st bytes E Z := bs ← buf_take 8; mret (le_Z bs).
Definition get_i64_le : st bytes E Z := bs ← buf_take 8; mret (signed 64 (le_Z bs)).

Lemma buf_take_app n (bs rest : bytes) :
  length bs = n -> buf_take n (bs ++ rest) = (rest, Ok bs).
Proof.
  intros <-. unfold buf_take.
  rewrite (proj2 (Nat.leb_le _ _)) by (rewrite length_app; lia).
  by rewrite drop_app_length, take_app_length.
Qed.
Lemma buf_take_ok n (buf : bytes) :
  (n <= length buf)%nat -> buf_take n buf = (drop n buf, Ok (take n buf)).
Proof. intros H. unfold buf_take. by rewrite (proj2 (Nat.leb_le _ _)). Qed.
Lemma get_u32_le_app v (rest : bytes) :
  in_u 32 v -> get_u32_le (le_bytes 4 v ++ rest) = (rest, Ok v).
Proof.
  intros Hv. unfold get_u32_le, mbind, st_bind.
  rewrite buf_take_app by apply length_le_bytes. simpl.
  by rewrite (le_Z_le_bytes_u 4 32).
Qed.
Lemma get_u64_le_app v (rest : bytes) :
  in_u 64 v -> get_u64_le (le_bytes 8 v ++ rest) = (rest, Ok v).
Proof.
  intros Hv. unfold get_u64_le, mbind, st_bind.
  rewrite buf_take_app by apply length_le_bytes. simpl.
  by rewrite (le_Z_le_bytes_u 8 64).
Qed.
Lemma get_i64_le_app v (rest : bytes) :
  in_i 64 v -> get_i64_le (le_bytes 8 v ++ rest) = (rest, Ok v).
Proof.
  intros Hv. unfold get_i64_le, mbind, st_bind.
  rewrite buf_take_app by apply length_le_bytes.
  cbn [mret st_ret]. by rewrite (signed_le_Z_le_bytes 8 64) by (done || lia).
Qed.
End cursor.

(** [l.chunks(k)]: consecutive pieces of [k] elements, the last one shorter. *)
Fixpoint chunks_n {A} (fuel k : nat) (l : list A) : list (list A) :=
  match fuel, l with
  | _, [] => []
  | O, _ => []
  | S fuel, _ => take k l :: chunks_n fuel k (drop k l)
  end.
Definition chunks {A} (k : nat) (l : list A) : list (list A) := chunks_n (length l) k l.

Lemma chunks_n_spec {A} (fuel k : nat) (l : list A) :
  (0 < k)%nat -> (length l <= fuel)%nat ->
  concat (chunks_n fuel k l) = l /\
  Forall (fun c => (0 < length c <= k)%nat) (chunks_n fuel k l).
Proof.
  intros Hk. revert l. induction fuel as [|fuel IH]; intros [|a l] Hl; simpl in *; try (split; [done|constructor]).
  - lia.
  - destruct (IH (drop k (a :: l))) as [Hc Hf].
    { rewrite length_drop. simpl. lia. }
    rewrite Hc. split; [apply take_drop|]. constructor; [|done].
    rewrite length_take. simpl. lia.
Qed.
Lemma chunks_spec {A} (k : nat) (l : list A) :
  (0 < k)%nat -> concat (chunks k l) = l /\ Forall (fun c => (0 < length c <= k)%nat) (chunks k l).
Proof. intros Hk. by apply chunks_n_spec. Qed.

(** A [for] loop that threads an accumulator and stops at the first error. *)
Definition foldM {E A B} (f : A -> B -> outcome E B) : list A -> B -> outcome E B :=
  fix go (l : list A) (acc : B) : outcome E B :=
    match l with
    | [] => Ok acc
    | a :: l => acc ← f a acc; go l acc
    end.

(** [for _ in 0..n { items.push(f()?) }] over a state. *)
Fixpoint repeatM {S E A} (n : nat) (f : st S E A) : st S E (list A) :=
  match n with
  | O => mret []
  | Datatypes.S n => a ← f; l ← repeatM n f; mret (a :: l)
  end.

(** ** [IndexMap]

    An association list in insertion order; inserting an existing key replaces
    its value in place. *)
Section indexmap.
Context {K V : Type} `{!EqDecision K}.

Fixpoint imap_insert (k : K) (v : V) (m : list (K * V)) : list (K * V) :=
  match m with
  | [] => [(k, v)]
  | (k', v') :: m => if decide (k = k') then (k, v) :: m else (k', v') :: imap_insert k v m
  end.
Fixpoint imap_lookup (k : K) (m : list (K * V)) : option V :=
  match m with
  | [] => None
  | (k', v') :: m => if decide (k = k') then Some v' else imap_lookup k m
  end.

Lemma imap_insert_fresh k v m : k ∉ m.*1 -> imap_insert k v m = m ++ [(k, v)].
Proof.
  induction m as [|[k' v'] m IH]; [done|]. rewrite fmap_cons, not_elem_of_cons. simpl.
  intros [Hk Hm]. rewrite decide_False by done. by rewrite IH.
Qed.
Lemma imap_insert_keys k v m :
  (imap_insert k v m).*1 = if decide (k ∈ m.*1) then m.*1 else m.*1 ++ [k].
Proof.
  induction m as [|[k' v'] m IH]; [done|]. cbn [imap_insert].
  destruct (decide (k = k')) as [->|Hk]; rewrite !fmap_cons; cbn [fst].
  - destruct (decide (k' ∈ k' :: m.*1)) as [|[]]; [done|]. by left.
  - rewrite IH. destruct (decide (k ∈ m.*1)), (decide (k ∈ k' :: m.*1)); set_solver.
Qed.
Lemma imap_insert_NoDup k v m : NoDup m.*1 -> NoDup (imap_insert k v m).*1.
Proof.
  intros H. rewrite imap_insert_keys. case_decide; [done|].
  apply NoDup_app. split; [done|]. split; [|apply NoDup_singleton].
  intros x Hx. rewrite list_elem_of_singleton. by intros ->.
Qed.
Lemma imap_insert_Forall (P : K * V -> Prop) k v m :
  P (k, v) -> Forall P m -> Forall P (imap_insert k v m).
Proof.
  intros Hkv. induction 1 as [|[k' v'] m Hx Hm IH]; simpl; [by constructor|].
  case_decide; by constructor.
Qed.
Lemma imap_insert_length k v m : (length (imap_insert k v m) <= S (length m))%nat.
Proof. induction m as [|[k' v'] m IH]; simpl; [lia|]. case_decide; simpl; lia. Qed.
End indexmap.

(** ** Sums over containers *)
Definition lsum {A} (f : A -> Z) (l : list A) : Z := foldr (fun a s => f a + s) 0 l.
Definition msum {A} (f : A -> Z) (m : gmap Z A) : Z := map_fold (fun _ a s => f a + s) 0 m.

Lemma lsum_app {A} (f : A -> Z) l1 l2 : lsum f (l1 ++ l2) = lsum f l1 + lsum f l2.
Proof. induction l1 as [|a l1 IH]; simpl; [done|]. rewrite IH. lia. Qed.
Lemma lsum_nonneg {A} (f : A -> Z) l : Forall (fun a => 0 <= f a) l -> 0 <= lsum f l.
Proof. induction 1; simpl; lia. Qed.
Lemma lsum_insert {A} (f : A -> Z) l i a b :
  l !! i = Some a -> lsum f (<[i := b]> l) = lsum f l - f a + f b.
Proof.
  revert i. induction l as [|c l IH]; intros [|i] Hi; simplify_eq/=; [lia|]. rewrite (IH i Hi). lia.
Qed.
Lemma lsum_lookup {A} (f : A -> Z) l i a :
  Forall (fun a => 0 <= f a) l -> l !! i = Some a -> f a <= lsum f l.
Proof.
  intros Hl. revert i. induction Hl as [|c l Hc Hl IH]; intros [|i] Hi; simplify_eq/=.
  - pose proof (lsum_nonneg f l Hl). lia.
  - specialize (IH i Hi). lia.
Qed.

Lemma msum_list {A} (f : A -> Z) m : msum f m = lsum f (snd <$> map_to_list m).
Proof.
  unfold msum. rewrite map_fold_foldr. unfold lsum. by induction (map_to_list m) as [|[k a] l IH]; simpl; f_equal.
Qed.
Lemma msum_empty {A} (f : A -> Z) : msum f ∅ = 0.
Proof. apply map_fold_empty. Qed.
Lemma msum_insert {A} (f : A -> Z) m k a :
  m !! k = None -> msum f (<[k := a]> m) = f a + msum f m.
Proof. intros Hk. unfold msum. rewrite map_fold_insert_L; [done|intros; lia|done]. Qed.
Lemma msum_delete {A} (f : A -> Z) m k a :
  m !! k = Some a -> msum f (delete k m) = msum f m - f a.
Proof. intros Hk. rewrite <- (insert_delete_id m k a Hk) at 2. rewrite msum_insert by apply lookup_delete_eq. lia. Qed.
Lemma msum_replace {A} (f : A -> Z) m k a :
  msum f (<[k := a]> m) = msum f m - from_option f 0 (m !! k) + f a.
Proof.
  rewrite <- insert_delete_eq, msum_insert by apply lookup_delete_eq.
  destruct (m !! k) as [b|] eqn:Hk; simpl.
  - rewrite (msum_delete f m k b Hk). lia.
  - rewrite delete_id by done. lia.
Qed.
Lemma msum_ext {A} (f g : A -> Z) m : map_Forall (fun _ a => f a = g a) m -> msum f m = msum g m.
Proof.
  induction m as [|k a m Hk IH] using map_ind; intros Hm; [by rewrite !msum_empty|].
  apply map_Forall_insert in Hm as [Ha Hm]; [|done]. rewrite !msum_insert by done. by rewrite Ha, IH.
Qed.
Lemma msum_nonneg {A} (f : A -> Z) m : map_Forall (fun _ a => 0 <= f a) m -> 0 <= msum f m.
Proof.
  induction m as [|k a m Hk IH] using map_ind; intros Hm; [by rewrite msum_empty|].
  apply map_Forall_insert in Hm as [Ha Hm]; [|done]. rewrite msum_insert by done.
  specialize (IH Hm). lia.
Qed.
Lemma msum_lookup {A} (f : A -> Z) m k a :
  map_Forall (fun _ a => 0 <= f a) m -> m !! k = Some a -> f a <= msum f m.
Proof.
  intros Hm Hk. pose proof (msum_delete f m k a Hk).
  pose proof (msum_nonneg f (delete k m) (map_Forall_delete _ _ _ Hm)). lia.
Qed.

(** ** Automation

    [split_ifs] follows the code's conditions, dropping the branches the
    arithmetic in context rules out. *)
Ltac split_if :=
  match goal with
  | |- context [if ?c then _ else _] =>
      let H := fresh "Hif" in destruct c eqn:H; try (exfalso; lia)
  end.
Ltac split_ifs := repeat split_if.

(** [a | n] when [n] only has bits below those of [a]. *)
Lemma lor_low (k a n : Z) : 0 <= k -> 0 <= n < 2 ^ k -> Z.lor (a * 2 ^ k) n = a * 2 ^ k + n.
Proof.
  intros Hk Hn. rewrite <- Z.add_nocarry_lor; [done|].
  apply Z.bits_inj'. intros i Hi. rewrite Z.land_spec, Z.bits_0.
  destruct (Z.lt_ge_cases i k).
  - by rewrite Z.mul_pow2_bits_low.
  - rewrite andb_comm. destruct (Z.eq_dec n 0) as [->|]; [by rewrite Z.bits_0|].
    rewrite Z.bits_above_log2; [done|lia|]. apply Z.log2_lt_pow2; [lia|].
    pose proof (Z.pow_le_mono_r 2 k i). lia.
Qed.
