(* ===== verification/Socket.v ===== *)
(** Byte streams: what the clients see of a socket.

    The socket is a schedule. A list of [rx_event]s says what successive reads meet:
    a chunk of bytes, end of file (an empty chunk), a failure, or a stall during
    which the caller drops the future; an exhausted schedule stalls. A list of
    [wr_event]s does the same for writes and flushes; an exhausted one accepts
    everything. [Net] has the events, which the HTTP/2 framer uses directly;
    [Socket] has tokio's [read_exact], [write_all] and [flush] over them for the
    clients that frame their messages by hand. *)

From S2P Require Import Prelude.

Module Net.

Inductive rx_event : Type :=
| Chunk (bs : bytes)
| RxStall
| RxFail.
Inductive wr_event : Type :=
| Accept (n : nat)
| WrStall
| WrFail.

Definition event_bytes (e : rx_event) : nat := match e with Chunk bs => length bs | _ => 0%nat end.
Definition event_data (e : rx_event) : bytes := match e with Chunk bs => bs | _ => [] end.
(** The bytes that will arrive. *)
Definition data (l : list rx_event) : bytes := concat (map event_data l).

(** A socket that neither fails nor ends; it may stall. *)
Definition event_ok (e : rx_event) : Prop := match e with Chunk bs => bs <> [] | RxStall => True | RxFail => False end.
Definition is_stall (e : rx_event) : nat := match e with RxStall => 1%nat | _ => 0%nat end.
Definition stalls (l : list rx_event) : nat := sum_list_with is_stall l.

(** A read into [k] bytes of room, on the schedule: what is left of it and what the
    read met. *)
Definition rx_read {E} (eio : E) (k : nat) (l : list rx_event) : list rx_event * outcome E bytes :=
  match l with
  | [] => ([], Pending)
  | RxStall :: r => (r, Pending)
  | RxFail :: r => (r, Err eio)
  | Chunk [] :: _ => (l, Ok [])
  | Chunk bs :: r =>
      if (length bs <=? k)%nat then (r, Ok bs) else (Chunk (drop k bs) :: r, Ok (take k bs))
  end.

Lemma rx_read_spec {E} (eio : E) k l :
  (0 < k)%nat ->
  match rx_read eio k l with
  | (l', Ok bs) => (length bs <= k)%nat /\ data l = bs ++ data l'
  | (l', Err _) | (l', Pending) => data l' = data l
  | _ => False
  end.
Proof.
  intros Hk. unfold rx_read. destruct l as [|[[|b bs]| |] r]; try done.
  - split; [simpl; lia|done].
  - set (c := b :: bs). destruct (length c <=? k)%nat eqn:El; [apply Nat.leb_le in El; done|].
    split; [rewrite length_take; lia|]. unfold data. cbn [map concat event_data]. by rewrite app_assoc, take_drop.
Qed.

End Net.

Module Socket.
Import Net.

Record Socket := mkSocket { rx : list rx_event; wr : list wr_event; tx : bytes }.
Definition set_rx v (s : Socket) : Socket := mkSocket v (wr s) (tx s).

(** [From<std::io::Error>] of an error type. *)
Class IoError (E : Type) := io_error : E.

Section ops.
Context {E : Type} `{!IoError E}.

Definition read (k : nat) : st Socket E bytes := fun s =>
  let '(l, o) := rx_read io_error k (rx s) in (set_rx l s, o).
Definition write (bs : bytes) : st Socket E nat := fun s =>
  match wr s with
  | [] => (mkSocket (rx s) [] (tx s ++ bs), Ok (length bs))
  | WrStall :: w => (mkSocket (rx s) w (tx s), Pending)
  | WrFail :: w => (mkSocket (rx s) w (tx s), Err io_error)
  | Accept n :: w => (mkSocket (rx s) w (tx s ++ take n bs), Ok (length (take n bs)))
  end.
Definition flush : st Socket E unit := fun s =>
  match wr s with
  | WrStall :: w => (mkSocket (rx s) w (tx s), Pending)
  | WrFail :: w => (mkSocket (rx s) w (tx s), Err io_error)
  | _ => (s, Ok tt)
  end.

(** [read_exact]: what a dropped or failed read has taken is gone. *)
Fixpoint fill (fuel : nat) (n : Z) (acc : bytes) : st Socket E bytes :=
  if n <=? len acc then mret acc else
  match fuel with
  | O => st_lift OutOfFuel
  | S fuel =>
      bs ← read (Z.to_nat (n - len acc));
      match bs with [] => st_fail io_error | _ => fill fuel n (acc ++ bs) end
  end.
(** Every round takes at least one byte. *)
Definition rx_bytes (s : Socket) : nat := length (data (rx s)).
Definition read_exact (n : Z) : st Socket E bytes :=
  s ← st_get; fill (S (rx_bytes s)) n [].

Fixpoint write_loop (fuel : nat) (bs : bytes) : st Socket E unit :=
  match bs with
  | [] => mret tt
  | _ =>
      match fuel with
      | O => st_lift OutOfFuel
      | S fuel =>
          n ← write bs;
          match n with O => st_fail io_error | _ => write_loop fuel (drop n bs) end
      end
  end.
Definition write_all (bs : bytes) : st Socket E unit := write_loop (length bs) bs.
End ops.

(** ** What the operations do *)

(** From [s] to [s'] the bytes [i] were read and the bytes [o] were written. *)
Definition traffic (i o : bytes) (s s' : Socket) : Prop :=
  data (rx s) = i ++ data (rx s') /\ tx s' = tx s ++ o.
(** Some prefix of [o] was written, and nothing read. *)
Definition wrote_part (o : bytes) (s s' : Socket) : Prop := exists o', o' `prefix_of` o /\ traffic [] o' s s'.
(** Something was read, and nothing written. *)
Definition read_part (s s' : Socket) : Prop := exists i, traffic i [] s s'.
(** No more than [n] bytes were read, and nothing written. *)
Definition read_upto (n : Z) (s s' : Socket) : Prop := exists i, len i <= n /\ traffic i [] s s'.

Lemma traffic_refl s : traffic [] [] s s.
Proof. split; [done|by rewrite app_nil_r]. Qed.
Lemma traffic_trans i1 o1 i2 o2 s1 s2 s3 :
  traffic i1 o1 s1 s2 -> traffic i2 o2 s2 s3 -> traffic (i1 ++ i2) (o1 ++ o2) s1 s3.
Proof. intros [H1 T1] [H2 T2]. split; [by rewrite H1, H2, app_assoc|by rewrite T2, T1, app_assoc]. Qed.
Lemma traffic_rx_le i o s s' : traffic i o s s' -> (length i + rx_bytes s' = rx_bytes s)%nat.
Proof. intros [H _]. unfold rx_bytes. rewrite H, length_app. done. Qed.

(** A socket with everything to come, in nonempty pieces and without a stall, and that
    takes what is written. *)
Definition flowing (s : Socket) : Prop :=
  wr s = [] /\ Forall (fun e => exists bs, e = Chunk bs /\ bs <> []) (rx s).

Section specs.
Context {E : Type} `{!IoError E}.

Lemma fill_spec fuel n acc s :
  (rx_bytes s < fuel)%nat -> len acc <= n ->
  wpx (fill (E := E) fuel n acc)
    (fun r s' => exists bs, r = acc ++ bs /\ traffic bs [] s s' /\ len r = n)
    (read_upto (n - len acc) s) (read_upto (n - len acc) s) s.
Proof.
  revert acc s. induction fuel as [|fuel IH]; intros acc s Hf Ha; [lia|]. cbn [fill]. wpx_step.
  { apply wpx_ret. exists []. rewrite app_nil_r. split; [done|]. split; [apply traffic_refl|lia]. }
  wpx_step. pose proof (rx_read_spec (io_error (E := E)) (Z.to_nat (n - len acc)) (rx s) ltac:(lia)) as Hr.
  unfold wpx at 1, read. destruct (rx_read io_error _ (rx s)) as [l [bs|e| | |]] eqn:Er; try done.
  - destruct Hr as [Hl Hd]. assert (traffic bs [] s (set_rx l s)) as Ht by (split; [done|by rewrite app_nil_r]).
    assert (len (acc ++ bs) <= n) as Ha' by (rewrite len_app; unfold len in *; lia).
    destruct bs as [|b bs]; [apply wpx_fail; exists []; split; [unfold len in *; cbn; lia|done]|]. set (c := b :: bs) in *.
    pose proof (traffic_rx_le _ _ _ _ Ht). assert (0 < length c)%nat by (simpl; lia).
    assert (forall s', read_upto (n - len (acc ++ c)) (set_rx l s) s' -> read_upto (n - len acc) s s') as Hpart.
    { intros s' [i [Hi Hi']]. exists (c ++ i). rewrite len_app in *. split; [lia|]. exact (traffic_trans _ _ _ _ _ _ _ Ht Hi'). }
    eapply wpx_mono; [apply IH; [lia|done]| |exact Hpart|exact Hpart]; cbv beta.
    intros r s' (bs' & -> & Ht' & Hn). exists (c ++ bs'). split; [by rewrite app_assoc|].
    split; [exact (traffic_trans _ _ _ _ _ _ _ Ht Ht')|done].
  - exists []. split; [unfold len in *; cbn; lia|]. split; [done|by rewrite app_nil_r].
  - exists []. split; [unfold len in *; cbn; lia|]. split; [done|by rewrite app_nil_r].
Qed.
(** A failed or dropped [read_exact] has taken no more than it was to read. *)
Lemma read_exact_upto n s :
  0 <= n -> wpx (read_exact (E := E) n) (fun bs s' => len bs = n /\ traffic bs [] s s') (read_upto n s) (read_upto n s) s.
Proof.
  intros Hn. unfold read_exact. wpx_step. apply wpx_get. eapply wpx_mono; [apply fill_spec; [lia|done]|..]; cbv beta.
  - intros r s' (bs & -> & Ht & Hl). done.
  - intros s'. by rewrite Z.sub_0_r.
  - intros s'. by rewrite Z.sub_0_r.
Qed.
Lemma read_exact_traffic n s :
  0 <= n -> wpx (read_exact (E := E) n) (fun bs s' => len bs = n /\ traffic bs [] s s') (read_part s) (read_part s) s.
Proof. intros Hn. eapply wpx_mono; [by apply read_exact_upto|done|intros s' (i & _ & Hi); by exists i..]. Qed.

Lemma write_loop_spec' fuel bs s :
  (length bs <= fuel)%nat ->
  wpx (write_loop (E := E) fuel bs) (fun _ s' => traffic [] bs s s') (wrote_part bs s) (wrote_part bs s) s.
Proof.
  revert bs s. induction fuel as [|fuel IH]; intros [|b bs] s Hf; try (simpl in Hf; lia);
    cbn [write_loop]; try (apply wpx_ret, traffic_refl).
  set (c := b :: bs) in *. wpx_step. unfold wpx at 1, write.
  assert (forall n s1, (0 < n)%nat -> traffic [] (take n c) s s1 ->
    wpx (write_loop fuel (drop n c)) (fun _ s' => traffic [] c s s') (wrote_part c s) (wrote_part c s) s1) as Hnext.
  { intros n s1 Hn Ht. assert (forall s', wrote_part (drop n c) s1 s' -> wrote_part c s s') as Hpart.
    { intros s' (o & Ho & Ht'). exists (take n c ++ o). split; [rewrite <- (take_drop n c) at 2; by apply prefix_app|].
      exact (traffic_trans _ _ _ _ _ _ _ Ht Ht'). }
    eapply wpx_mono; [apply IH; rewrite length_drop; change (length c <= S fuel)%nat in Hf; lia| |exact Hpart|exact Hpart].
    cbv beta. intros _ s' Ht'. rewrite <- (take_drop n c). exact (traffic_trans _ _ _ _ _ _ _ Ht Ht'). }
  destruct (wr s) as [|[n| |] w].
  - apply (Hnext (length c)); [simpl; lia|]. rewrite take_ge by lia. done.
  - destruct (length (take n c)) as [|k] eqn:Ek.
    + exists []. split; [apply prefix_nil|]. apply length_zero_iff_nil in Ek. cbn. rewrite Ek. split; [done|by rewrite app_nil_r].
    + rewrite <- Ek. apply Hnext; [lia|]. split; [done|]. cbn. f_equal.
      rewrite length_take, <- take_take. by rewrite (take_ge c (length c)) by lia.
  - exists []. split; [apply prefix_nil|]. split; [done|by rewrite app_nil_r].
  - exists []. split; [apply prefix_nil|]. split; [done|by rewrite app_nil_r].
Qed.
Lemma write_all_traffic bs s :
  wpx (write_all (E := E) bs) (fun _ s' => traffic [] bs s s') (wrote_part bs s) (wrote_part bs s) s.
Proof. by apply write_loop_spec'. Qed.
Lemma flush_traffic s :
  wpx (flush (E := E)) (fun _ s' => traffic [] [] s s') (traffic [] [] s) (traffic [] [] s) s.
Proof.
  unfold wpx, flush. destruct (wr s) as [|[n| |] w]; try apply traffic_refl; (split; [done|by rewrite app_nil_r]).
Qed.

(** On a flowing socket reads and writes complete. *)
Lemma flowing_read k bs rest s :
  flowing s -> (0 < k)%nat -> data (rx s) = bs ++ rest -> (k <= length bs)%nat ->
  exists c bs' s', read (E := E) k s = (s', Ok c) /\ c <> [] /\ bs = c ++ bs' /\ flowing s' /\ data (rx s') = bs' ++ rest /\ tx s' = tx s.
Proof.
  intros [Hw Hr] Hk Hd Hle. unfold read. destruct Hr as [|e r (c & -> & Hc) Hr].
  { destruct bs; [simpl in Hle; lia|done]. }
  unfold data in Hd. cbn [map concat event_data] in Hd. fold (data r) in Hd.
  assert (rx_read (io_error (E := E)) k (Chunk c :: r) =
    if (length c <=? k)%nat then (r, Ok c) else (Chunk (drop k c) :: r, Ok (take k c))) as -> by (by destruct c).
  destruct (length c <=? k)%nat eqn:El.
  - apply Nat.leb_le in El. apply app_eq_inv in Hd as [(t & E1 & E2)|(t & E1 & E2)].
    + subst c. rewrite length_app in El. assert (t = []) as -> by (destruct t; [done|simpl in *; lia]). rewrite app_nil_r in *.
      exists bs, [], (set_rx r s). rewrite app_nil_r. by split_and!.
    + exists c, t, (set_rx r s). by split_and!.
  - apply Nat.leb_gt in El. assert (take k c = take k bs) as Etk.
    { apply (f_equal (take k)) in Hd. by rewrite !take_app_le in Hd by lia. }
    exists (take k c), (drop k bs), (set_rx (Chunk (drop k c) :: r) s). split_and!.
    + done.
    + intros E0%(f_equal length). rewrite length_take in E0. change (length (@nil byte)) with 0%nat in E0. lia.
    + by rewrite Etk, take_drop.
    + split; [done|]. constructor; [|done]. eexists. split; [done|]. intros E0%(f_equal length). rewrite length_drop in E0.
      change (length (@nil byte)) with 0%nat in E0. lia.
    + unfold data. cbn [set_rx rx map concat event_data]. fold (data r). apply (f_equal (drop k)) in Hd. by rewrite !drop_app_le in Hd by lia.
    + done.
Qed.
Lemma flowing_read_some k s :
  flowing s -> (0 < k)%nat -> data (rx s) <> [] ->
  exists c s', read (E := E) k s = (s', Ok c) /\ c <> [] /\ flowing s' /\ data (rx s) = c ++ data (rx s') /\ tx s' = tx s.
Proof.
  intros [Hw Hr] Hk Hd. unfold read. destruct Hr as [|e r (c & -> & Hc) Hr]; [done|].
  assert (rx_read (io_error (E := E)) k (Chunk c :: r) =
    if (length c <=? k)%nat then (r, Ok c) else (Chunk (drop k c) :: r, Ok (take k c))) as -> by (by destruct c).
  destruct (length c <=? k)%nat eqn:El; [by exists c, (set_rx r s)|]. apply Nat.leb_gt in El.
  exists (take k c), (set_rx (Chunk (drop k c) :: r) s). split; [done|]. split.
  { intros E0%(f_equal length). rewrite length_take in E0. change (length (@nil byte)) with 0%nat in E0. lia. }
  split.
  - split; [done|]. constructor; [|done]. eexists. split; [done|]. intros E0%(f_equal length). rewrite length_drop in E0.
    change (length (@nil byte)) with 0%nat in E0. lia.
  - split; [|done]. unfold data. cbn [set_rx rx map concat event_data]. by rewrite app_assoc, take_drop.
Qed.
Lemma fill_flows fuel n acc s bs rest :
  (rx_bytes s < fuel)%nat -> flowing s -> data (rx s) = bs ++ rest -> len (acc ++ bs) = n ->
  exists s', fill (E := E) fuel n acc s = (s', Ok (acc ++ bs)) /\ flowing s' /\ data (rx s') = rest /\ tx s' = tx s.
Proof.
  revert acc s bs. induction fuel as [|fuel IH]; intros acc s bs Hf Hfl Hd Hn; [lia|]. cbn [fill].
  rewrite len_app in Hn. destruct (n <=? len acc) eqn:El.
  { exists s. assert (bs = []) as -> by (destruct bs; [done|unfold len in *; simpl in *; lia]). rewrite app_nil_r. by split_and!. }
  apply Z.leb_gt in El. destruct (flowing_read (Z.to_nat (n - len acc)) bs rest s Hfl) as (c & bs' & s1 & Hr & Hc & -> & Hfl1 & Hd1 & Ht1);
    [lia|done|unfold len in *; lia|].
  unfold mbind, st_bind. rewrite Hr. destruct c as [|b c]; [done|]. set (ch := b :: c) in *.
  destruct (IH (acc ++ ch) s1 bs') as (s' & Hs' & ?); [|done|done| |].
  - unfold rx_bytes in *. rewrite Hd, Hd1 in *. rewrite !length_app in *. unfold ch in *. simpl in *. lia.
  - rewrite <- app_assoc, len_app. lia.
  - exists s'. rewrite <- app_assoc in Hs'. split; [exact Hs'|]. destruct_and?. split_and!; try done. congruence.
Qed.
Lemma read_exact_flows s bs rest :
  flowing s -> data (rx s) = bs ++ rest ->
  exists s', read_exact (E := E) (len bs) s = (s', Ok bs) /\ flowing s' /\ data (rx s') = rest /\ tx s' = tx s.
Proof. intros Hfl Hd. unfold read_exact, mbind, st_bind, st_get. apply (fill_flows _ _ [] s bs rest); [lia|done|done|done]. Qed.
Lemma write_all_open s bs :
  wr s = [] -> write_all (E := E) bs s = (mkSocket (rx s) [] (tx s ++ bs), Ok tt).
Proof.
  intros Hw. unfold write_all. destruct bs as [|b bs].
  - destruct s. cbn in *. by rewrite Hw, app_nil_r.
  - cbn [write_loop length]. unfold mbind, st_bind, write. rewrite Hw. cbn [length drop].
    replace (drop (length bs) bs) with (@nil byte) by (symmetry; by apply drop_ge). by destruct (length bs).
Qed.
Lemma flush_open s : wr s = [] -> flush (E := E) s = (s, Ok tt).
Proof. intros Hw. unfold flush. by rewrite Hw. Qed.
End specs.

End Socket.
