(* ===== verification/Utf8.v ===== *)
(** UTF-8 as the standard library checks it.

    A Rust [String] is modelled by its bytes; [from_utf8] is the test of
    [std::str::from_utf8] and [utf8_lossy] the conversion of
    [String::from_utf8_lossy]. Both scan with [utf8_step], which follows the
    well-formedness table of the Unicode standard (the one [Utf8Chunks] uses):
    it says whether the buffer starts with a well-formed scalar value and how
    many bytes that scalar, or the maximal ill-formed prefix, takes. *)

From S2P Require Import Prelude.

Definition byte_at (l : bytes) (i : nat) : Z := from_option Zb 0 (l !! i).
Definition in_range (lo hi z : Z) : bool := (lo <=? z) && (z <=? hi).

Definition utf8_step (l : bytes) : bool * nat :=
  let b0 := byte_at l 0 in
  let cont i := in_range 0x80 0xBF (byte_at l i) in
  if b0 <? 0x80 then (true, 1%nat)
  else if in_range 0xC2 0xDF b0 then
    if cont 1%nat then (true, 2%nat) else (false, 1%nat)
  else if in_range 0xE0 0xEF b0 then
    let lo := if b0 =? 0xE0 then 0xA0 else 0x80 in
    let hi := if b0 =? 0xED then 0x9F else 0xBF in
    if negb (in_range lo hi (byte_at l 1)) then (false, 1%nat)
    else if cont 2%nat then (true, 3%nat) else (false, 2%nat)
  else if in_range 0xF0 0xF4 b0 then
    let lo := if b0 =? 0xF0 then 0x90 else 0x80 in
    let hi := if b0 =? 0xF4 then 0x8F else 0xBF in
    if negb (in_range lo hi (byte_at l 1)) then (false, 1%nat)
    else if negb (cont 2%nat) then (false, 2%nat)
    else if cont 3%nat then (true, 4%nat) else (false, 3%nat)
  else (false, 1%nat).

(** U+FFFD, the replacement character. *)
Definition replacement : bytes := map bZ [0xEF; 0xBF; 0xBD].

Fixpoint utf8_valid_n (fuel : nat) (l : bytes) : bool :=
  match l, fuel with
  | [], _ => true
  | _, O => false
  | _, S fuel => let '(ok, n) := utf8_step l in ok && utf8_valid_n fuel (drop n l)
  end.
Fixpoint utf8_lossy_n (fuel : nat) (l : bytes) : bytes :=
  match l, fuel with
  | [], _ => []
  | _, O => []
  | _, S fuel =>
      let '(ok, n) := utf8_step l in
      (if ok then take n l else replacement) ++ utf8_lossy_n fuel (drop n l)
  end.

Definition from_utf8 (l : bytes) : bool := utf8_valid_n (length l) l.
Definition utf8_lossy (l : bytes) : bytes := utf8_lossy_n (length l) l.

Lemma utf8_lossy_valid l : from_utf8 l = true -> utf8_lossy l = l.
Proof.
  unfold from_utf8, utf8_lossy. generalize (length l) as n. intros n. revert l.
  induction n as [|n IH]; intros [|b l] H; try done.
  cbn [utf8_valid_n utf8_lossy_n] in *.
  destruct (utf8_step (b :: l)) as [ok k].
  apply andb_prop in H as [-> H]. rewrite (IH _ H). apply take_drop.
Qed.

(** *** Cutting at an ASCII character *)
Ltac utf8_cases H := repeat (match type of H with context [if ?c then _ else _] => destruct c eqn:?; try discriminate H end).
Lemma utf8_step_tail l n i : utf8_step l = (true, n) -> (1 <= i < n)%nat -> 0x80 <= byte_at l i.
Proof.
  unfold utf8_step. cbv zeta. intros H Hi. utf8_cases H; injection H as <-;
    destruct i as [|[|[|[|i]]]]; try lia; unfold in_range in *;
    repeat match goal with H : context [if ?c then _ else _] |- _ => destruct c eqn:? end; lia.
Qed.
Lemma utf8_step_pos l n : utf8_step l = (true, n) -> (1 <= n)%nat.
Proof. unfold utf8_step. cbv zeta. intros H. utf8_cases H; injection H as <-; lia. Qed.
Lemma utf8_step_local l l' n : utf8_step l = (true, n) -> (forall i, (i < n)%nat -> byte_at l' i = byte_at l i) -> utf8_step l' = (true, n).
Proof.
  intros H Hl. pose proof (utf8_step_pos l n H). unfold utf8_step in *. cbv zeta in *. rewrite (Hl 0%nat) by lia.
  utf8_cases H; injection H as <-; try rewrite (Hl 1%nat) by lia; try rewrite (Hl 2%nat) by lia; try rewrite (Hl 3%nat) by lia;
    repeat match goal with H : ?c = _ |- context [?c] => rewrite H end; done.
Qed.
Lemma utf8_valid_fuel k k' l : utf8_valid_n k l = true -> (length l <= k')%nat -> utf8_valid_n k' l = true.
Proof.
  revert k' l. induction k as [|k IH]; intros k' [|b l] H Hl; try done; destruct k' as [|k']; try (by cbn in Hl; lia); try done.
  cbn [utf8_valid_n] in *. destruct (utf8_step (b :: l)) as [ok n] eqn:E. apply andb_prop in H as [-> H]. cbn.
  apply IH; [done|]. rewrite length_drop. pose proof (utf8_step_pos _ _ E). cbn in *. lia.
Qed.
Lemma utf8_cut a l1 l2 : Zb a < 0x80 -> from_utf8 (l1 ++ a :: l2) = true -> from_utf8 l1 = true /\ from_utf8 l2 = true.
Proof.
  intros Ha. unfold from_utf8 at 1. generalize (length (l1 ++ a :: l2)) as k. intros k. revert l1.
  induction k as [|k IH]; intros l1 H; [by destruct l1|]. destruct l1 as [|b l1].
  { split; [done|]. cbn [app utf8_valid_n] in H. destruct (utf8_step (a :: l2)) as [ok n] eqn:E.
    assert (byte_at (a :: l2) 0 = Zb a) as Eb by done. unfold utf8_step in E. cbv zeta in E. rewrite Eb, (proj2 (Z.ltb_lt _ _) Ha) in E.
    simplify_eq. by eapply utf8_valid_fuel. }
  change ((b :: l1) ++ a :: l2) with (b :: l1 ++ a :: l2) in H. cbn [utf8_valid_n] in H.
  destruct (utf8_step (b :: l1 ++ a :: l2)) as [ok n] eqn:E. apply andb_prop in H as [-> H].
  change (b :: l1 ++ a :: l2) with ((b :: l1) ++ a :: l2) in *. set (l := b :: l1) in *. pose proof (utf8_step_pos _ _ E) as Hn.
  assert (n <= length l)%nat as Hle.
  { destruct (decide (n <= length l)%nat) as [|Hgt]; [done|]. exfalso.
    pose proof (utf8_step_tail _ _ (length l) E ltac:(unfold l in *; cbn in *; lia)) as Ht.
    unfold byte_at in Ht. rewrite (list_lookup_middle l l2 a (length l)) in Ht by done. cbn in Ht. lia. }
  rewrite drop_app_le in H by done. destruct (IH _ H) as [H1 H2]. split; [|done].
  unfold from_utf8, l. cbn [length utf8_valid_n]. fold l.
  rewrite (utf8_step_local _ l n E); [cbn; eapply utf8_valid_fuel; [exact H1|rewrite length_drop; unfold l; cbn; lia]|].
  intros i Hi. unfold byte_at. by rewrite lookup_app_l by lia.
Qed.

(** [str::is_char_boundary] *)
Definition is_char_boundary (s : bytes) (n : nat) : bool :=
  (n =? 0)%nat || (n =? length s)%nat || ((n <? length s)%nat && negb (in_range 0x80 0xBF (byte_at s n))).
(** The last boundary that is at most [n]. *)
Fixpoint boundary_below (s : bytes) (n : nat) : nat :=
  match n with O => O | S k => if is_char_boundary s n then n else boundary_below s k end.

Example utf8_ok : from_utf8 (map bZ [0x68; 0xC3; 0xA9; 0xF0; 0x9F; 0x98; 0x80]) = true.
Proof. vm_compute. reflexivity. Qed.
Example utf8_surrogate : from_utf8 (map bZ [0xED; 0xA0; 0x80]) = false.
Proof. vm_compute. reflexivity. Qed.
Example utf8_lossy_ex :
  utf8_lossy (map bZ [0x61; 0xE2; 0x82; 0x62]) = map bZ [0x61; 0xEF; 0xBF; 0xBD; 0x62].
Proof. vm_compute. reflexivity. Qed.
