(* ===== verification/Text.v ===== *)
(** Text as the standard library handles it: byte strings of string literals,
    [FromStr] of the unsigned integers, splitting and searching. *)

From S2P Require Import Prelude.

Module Text.

Definition str (s : string) : bytes := Stdlib.Strings.String.list_byte_of_string s.

(** [from_str_radix] of an unsigned integer type with maximum [max], for a radix of
    at most ten: an optional plus sign and digits, without overflow. *)
Fixpoint digits (radix max : Z) (l : bytes) (acc : Z) : option Z :=
  match l with
  | [] => Some acc
  | b :: l =>
      let d := Zb b - 48 in
      if (0 <=? d) && (d <? radix) then
        let acc := acc * radix + d in
        if max <? acc then None else digits radix max l acc
      else None
  end.
Definition parse_uint (radix max : Z) (s : bytes) : option Z :=
  match s with
  | [] => None
  | b :: l =>
      if Zb b =? 43 then match l with [] => None | _ => digits radix max l 0 end
      else digits radix max s 0
  end.

(** [to_string] of an integer. *)
Fixpoint print_digits (fuel : nat) (n : Z) : bytes :=
  match fuel with
  | O => []
  | S fuel => if n <? 10 then [bZ (48 + n)] else print_digits fuel (n / 10) ++ [bZ (48 + n mod 10)]
  end.
(** A 64-bit integer has at most twenty digits. *)
Definition print_int (n : Z) : bytes := if n <? 0 then str "-" ++ print_digits 20 (- n) else print_digits 20 n.
Definition print_bool (b : bool) : bytes := if b then str "true" else str "false".

(** [{:x}], [{:X}] of an integer and [{:02x}] of a byte. *)
Definition hex_digit (upper : bool) (d : Z) : byte := bZ (if d <? 10 then 48 + d else (if upper then 55 else 87) + d).
Fixpoint print_hex_digits (upper : bool) (fuel : nat) (n : Z) : bytes :=
  match fuel with
  | O => []
  | S fuel => if n <? 16 then [hex_digit upper n] else print_hex_digits upper fuel (n / 16) ++ [hex_digit upper (n mod 16)]
  end.
Definition print_hex (upper : bool) (n : Z) : bytes := print_hex_digits upper 16 n.
Definition hex_byte (b : byte) : bytes := [hex_digit false (Zb b / 16); hex_digit false (Zb b mod 16)].

(** [starts_with] and [contains] of a string. *)
Fixpoint starts_with (p s : bytes) : bool :=
  match p, s with
  | [], _ => true
  | a :: p, b :: s => bool_decide (a = b) && starts_with p s
  | _, [] => false
  end.
Fixpoint contains (p s : bytes) : bool := starts_with p s || match s with [] => false | _ :: s => contains p s end.

(** [to_ascii_lowercase] of a string. *)
Definition ascii_lower (b : byte) : byte := if (65 <=? Zb b) && (Zb b <=? 90) then bZ (Zb b + 32) else b.
Definition to_ascii_lowercase (s : bytes) : bytes := map ascii_lower s.
(** [chars().count()]: the bytes that are not continuation bytes. *)
Definition char_count (s : bytes) : Z := len (filter (fun b => ~ (0x80 <= Zb b < 0xC0)) s).

(** The length of the White_Space character a text starts with, or zero. *)
Definition whitespace_at (s : bytes) : nat :=
  let within (lo hi z : Z) : bool := (lo <=? z) && (z <=? hi) in
  match map Zb s with
  | a :: l =>
      if within 9 13 a || (a =? 32) then 1%nat else
      match l with
      | b :: l' =>
          if (a =? 0xC2) && ((b =? 0x85) || (b =? 0xA0)) then 2%nat else
          match l' with
          | c :: _ =>
              if (a =? 0xE1) && (b =? 0x9A) && (c =? 0x80)
                 || (a =? 0xE2) && (b =? 0x80) && (within 0x80 0x8A c || (c =? 0xA8) || (c =? 0xA9) || (c =? 0xAF))
                 || (a =? 0xE2) && (b =? 0x81) && (c =? 0x9F)
                 || (a =? 0xE3) && (b =? 0x80) && (c =? 0x80)
              then 3%nat else O
          | [] => O
          end
      | [] => O
      end
  | [] => O
  end.
Fixpoint trim_start_n (fuel : nat) (s : bytes) : bytes :=
  match fuel, whitespace_at s with
  | S fuel, S n => trim_start_n fuel (drop (S n) s)
  | _, _ => s
  end.
Fixpoint trim_end_n (fuel : nat) (s : bytes) : bytes :=
  let ends (n : nat) := (n <=? length s)%nat && (whitespace_at (drop (length s - n) s) =? n)%nat in
  match fuel, find ends [1; 2; 3]%nat with
  | S fuel, Some n => trim_end_n fuel (take (length s - n) s)
  | _, _ => s
  end.
(** [str::trim_start], [str::trim] *)
Definition trim_start (s : bytes) : bytes := trim_start_n (length s) s.
Definition trim (s : bytes) : bytes := let s := trim_start s in trim_end_n (length s) s.
Example trim_both : trim (map bZ [32; 0xC2; 0xA0; 97; 32; 98; 0xE3; 0x80; 0x80; 10]) = map bZ [97; 32; 98].
Proof. vm_compute. reflexivity. Qed.

(** [slice::split(|b| b == sep)]: the pieces between separators. *)
Fixpoint split_on (sep : byte) (l : bytes) : list bytes :=
  match l with
  | [] => [[]]
  | b :: l =>
      match split_on sep l with
      | piece :: pieces => if decide (b = sep) then [] :: piece :: pieces else (b :: piece) :: pieces
      | [] => [[b]]
      end
  end.

(** [str::split_once] of a character. *)
Fixpoint split_once (c : byte) (l : bytes) : option (bytes * bytes) :=
  match l with
  | [] => None
  | b :: l =>
      if decide (b = c) then Some ([], l) else
      match split_once c l with Some (l1, l2) => Some (b :: l1, l2) | None => None end
  end.

(** [str::rfind] of a character. *)
Fixpoint rfind (c : byte) (l : bytes) : option nat :=
  match l with
  | [] => None
  | b :: l =>
      match rfind c l with
      | Some i => Some (S i)
      | None => if decide (b = c) then Some O else None
      end
  end.

Lemma starts_with_prefix p s : starts_with p s = true <-> p `prefix_of` s.
Proof.
  split.
  - revert s. induction p as [|a p IH]; intros [|b s] H; try done; [apply prefix_nil..|]. cbn in H.
    apply andb_prop in H as [->%bool_decide_eq_true H]. by apply prefix_cons, IH.
  - intros [k ->]. induction p as [|a p IH]; cbn; [by destruct k|]. by rewrite bool_decide_true, IH.
Qed.
Lemma digits_bound radix max l acc n : 0 <= acc <= max -> 0 < radix -> digits radix max l acc = Some n -> 0 <= n <= max.
Proof.
  intros Ha Hr. revert acc Ha. induction l as [|b l IH]; intros acc Ha; cbn [digits]; [intros [= <-]; lia|].
  cbv zeta. destruct (_ && _) eqn:Ed; [|done]. destruct (max <? _) eqn:El; [done|]. apply IH. nia.
Qed.
Lemma parse_uint_bound radix max s n : 0 <= max -> 0 < radix -> parse_uint radix max s = Some n -> 0 <= n <= max.
Proof.
  intros Hm Hr. destruct s as [|b l]; [done|]. cbn [parse_uint]. destruct (Zb b =? 43); [destruct l; [done|]|]; by apply digits_bound.
Qed.

Lemma split_on_nonempty sep l : split_on sep l <> [].
Proof. destruct l as [|b l]; cbn; [done|]. destruct (split_on sep l); [done|]. by case_decide. Qed.
Lemma split_on_app sep l1 l2 :
  sep ∉ l1 -> split_on sep (l1 ++ sep :: l2) = l1 :: split_on sep l2.
Proof.
  induction l1 as [|b l1 IH]; intros Hs; cbn [app split_on].
  - destruct (split_on sep l2) eqn:E; [by destruct (split_on_nonempty sep l2)|]. by rewrite decide_True.
  - apply not_elem_of_cons in Hs as [Hb Hs]. rewrite (IH Hs). by rewrite decide_False.
Qed.

End Text.
