(* ===== verification/Plist.v ===== *)
(** Property lists, as the program sees them through the plist crate.

    [Value] has the constructors of [plist::Value]; an integer is a 64-bit one, signed
    or unsigned, a real is its IEEE bits, a string its UTF-8 bytes and a dictionary the
    list of its entries in insertion order. The encodings are the crate's: the class
    [PlistCodec] has them as parameters, [BinaryCodec] the round trip the archives rely
    on, and [tree_codec] is a concrete codec for concrete runs. *)

From stdpp Require Import countable.
From S2P Require Import Prelude Utf8.
#[local] Open Scope Z_scope.

Module Plist.

Inductive Value : Type :=
| Array (l : list Value)
| Dictionary (m : list (bytes * Value))
| Boolean (b : bool)
| Data (d : bytes)
| Date (t : Z)
| Real (bits : Z)
| Integer (n : Z)
| String (s : bytes)
| Uid (n : Z).

Section value_ind'.
Context (P : Value -> Prop).
Context (Harr : forall l, Forall P l -> P (Array l)) (Hdict : forall m, Forall (fun kv => P kv.2) m -> P (Dictionary m)).
Context (Hbool : forall b, P (Boolean b)) (Hdata : forall d, P (Data d)) (Hdate : forall t, P (Date t)).
Context (Hreal : forall r, P (Real r)) (Hint : forall n, P (Integer n)) (Hstr : forall s, P (String s)) (Huid : forall n, P (Uid n)).
Fixpoint value_ind' (v : Value) : P v :=
  match v with
  | Array l => Harr l ((fix go l : Forall P l := match l with [] => Forall_nil_2 _ | v :: l => Forall_cons_2 _ _ _ (value_ind' v) (go l) end) l)
  | Dictionary m => Hdict m ((fix go m : Forall (fun kv : bytes * Value => P kv.2) m :=
      match m with [] => Forall_nil_2 _ | kv :: m => Forall_cons_2 _ _ _ (value_ind' kv.2) (go m) end) m)
  | Boolean b => Hbool b
  | Data d => Hdata d
  | Date t => Hdate t
  | Real r => Hreal r
  | Integer n => Hint n
  | String s => Hstr s
  | Uid n => Huid n
  end.
End value_ind'.

(** ** Observers *)

Definition as_array (v : Value) : option (list Value) := match v with Array l => Some l | _ => None end.
Definition as_dictionary (v : Value) : option (list (bytes * Value)) := match v with Dictionary m => Some m | _ => None end.
Definition as_boolean (v : Value) : option bool := match v with Boolean b => Some b | _ => None end.
Definition as_data (v : Value) : option bytes := match v with Data d => Some d | _ => None end.
Definition as_real (v : Value) : option Z := match v with Real r => Some r | _ => None end.
Definition as_string (v : Value) : option bytes := match v with String s => Some s | _ => None end.
Definition as_unsigned_integer (v : Value) : option Z :=
  match v with Integer n => if (0 <=? n) && (n <? 2 ^ 64) then Some n else None | _ => None end.
Definition as_signed_integer (v : Value) : option Z :=
  match v with Integer n => if (- 2 ^ 63 <=? n) && (n <? 2 ^ 63) then Some n else None | _ => None end.

(** [dict.get(key)], [dict.insert(key, v)] *)
Definition get (k : bytes) (m : list (bytes * Value)) : option Value := imap_lookup k m.

(** [Option::and_then], from left to right *)
Definition and_then {A B} (o : option A) (f : A -> option B) : option B := match o with Some a => f a | None => None end.
#[global] Arguments and_then {A B} !o f /.
Declare Scope plist_scope.
Delimit Scope plist_scope with plist.
Notation "o ?> f" := (and_then o f) (at level 58, left associativity) : plist_scope.

(** What a plist can hold: UTF-8 text, 64-bit integers, each key once; no date, whose
    text form is not exact. *)
Fixpoint wf (v : Value) : Prop :=
  match v with
  | Array l => foldr (fun v => and (wf v)) True l
  | Dictionary m => NoDup m.*1 /\ foldr (fun kv => and (from_utf8 kv.1 = true /\ wf kv.2)) True m
  | Boolean _ | Data _ => True
  | Date _ => False
  | Real r => in_u 64 r
  | Integer n => - 2 ^ 63 <= n < 2 ^ 64
  | String s => from_utf8 s = true
  | Uid n => in_u 64 n
  end.
Lemma foldr_and {A} (P : A -> Prop) l : foldr (fun a => and (P a)) True l <-> Forall P l.
Proof.
  induction l as [|a l IH]; [done|]. cbn [foldr]. split.
  - intros [Ha Hl]. constructor; [done|by apply IH].
  - intros [Ha Hl]%Forall_cons. split; [done|by apply IH].
Qed.
Lemma plist_wf_array l : wf (Array l) <-> Forall wf l.
Proof. apply foldr_and. Qed.
Lemma plist_wf_dictionary m : wf (Dictionary m) <-> NoDup m.*1 /\ Forall (fun kv => from_utf8 kv.1 = true /\ wf kv.2) m.
Proof. cbn [wf]. by rewrite foldr_and. Qed.

(** ** The encodings *)

Class PlistCodec := {
  from_bytes : bytes -> option Value;
  to_writer_binary : Value -> option bytes;
  to_writer_xml : Value -> option bytes;
}.
Class BinaryCodec (PC : PlistCodec) := binary_roundtrip :
  forall v, wf v -> exists bs, to_writer_binary v = Some bs /\ from_bytes bs = Some v.

(** *** A concrete codec *)

Fixpoint to_tree (v : Value) : gen_tree (Z + bytes) :=
  match v with
  | Array l => GenNode 0 (map to_tree l)
  | Dictionary m => GenNode 1 (map (fun kv => GenNode 0 [GenLeaf (inr kv.1); to_tree kv.2]) m)
  | Boolean b => GenNode 2 [GenLeaf (inl (Z.b2z b))]
  | Data d => GenNode 3 [GenLeaf (inr d)]
  | Date t => GenNode 4 [GenLeaf (inl t)]
  | Real r => GenNode 5 [GenLeaf (inl r)]
  | Integer n => GenNode 6 [GenLeaf (inl n)]
  | String s => GenNode 7 [GenLeaf (inr s)]
  | Uid n => GenNode 8 [GenLeaf (inl n)]
  end.
Fixpoint of_tree (t : gen_tree (Z + bytes)) : Value :=
  match t with
  | GenNode 0 ts => Array (map of_tree ts)
  | GenNode 1 ts => Dictionary (map (fun t => match t with GenNode _ [GenLeaf (inr k); t] => (k, of_tree t) | _ => ([], Boolean false) end) ts)
  | GenNode 2 [GenLeaf (inl b)] => Boolean (Z.odd b)
  | GenNode 3 [GenLeaf (inr d)] => Data d
  | GenNode 4 [GenLeaf (inl t)] => Date t
  | GenNode 5 [GenLeaf (inl r)] => Real r
  | GenNode 6 [GenLeaf (inl n)] => Integer n
  | GenNode 7 [GenLeaf (inr s)] => String s
  | GenNode 8 [GenLeaf (inl n)] => Uid n
  | _ => Boolean false
  end.
Lemma of_to_tree v : of_tree (to_tree v) = v.
Proof.
  induction v as [l IH|m IH|b| | | | | |] using value_ind'; try done.
  - cbn. f_equal. rewrite map_map. induction IH as [|v l Hv Hl IHl]; [done|]. cbn. by rewrite Hv, IHl.
  - cbn. f_equal. rewrite map_map. induction IH as [|[k v] m Hv Hl IHl]; [done|]. cbn in *. by rewrite Hv, IHl.
  - by destruct b.
Qed.
#[export] Instance value_eq_dec : EqDecision Value.
Proof.
  refine (inj_eq_dec to_tree). intros v w H. rewrite <- (of_to_tree v), <- (of_to_tree w). by rewrite H.
Defined.
#[export] Instance value_countable : Countable Value := inj_countable' to_tree of_tree of_to_tree.

Fixpoint bits_of (p : positive) : bytes := match p with xH => [] | xO p => x00 :: bits_of p | xI p => x01 :: bits_of p end.
Fixpoint of_bits (l : bytes) : positive := match l with [] => 1%positive | b :: l => if decide (b = x00) then xO (of_bits l) else xI (of_bits l) end.
Lemma of_bits_of p : of_bits (bits_of p) = p.
Proof. induction p as [p IH|p IH|]; cbn; [by rewrite IH|by rewrite IH|done]. Qed.

Definition tree_codec : PlistCodec := {|
  from_bytes := fun bs => decode (of_bits bs);
  to_writer_binary := fun v => Some (bits_of (encode v));
  to_writer_xml := fun v => Some (bits_of (encode v));
|}.
Lemma tree_decode v : from_bytes (PlistCodec := tree_codec) (bits_of (encode v)) = Some v.
Proof. cbn. by rewrite of_bits_of, decode_encode. Qed.
#[export] Instance tree_binary : BinaryCodec tree_codec.
Proof. intros v _. eexists. split; [done|apply tree_decode]. Qed.

End Plist.
