(* ===== verification/Opack.v ===== *)
(** OPACK, the compact serialisation used by the SRP pairing exchange
    ([crates/ios-core/src/proto/opack.rs]).

    The decoder's [pos] and [depth] arguments are kept; [depth] is counted down
    as the number of nesting levels still allowed ([MAX_OPACK_DEPTH + 1 - depth]),
    which makes the recursion structural. [decode_at_eq] restates the decoder
    with the source's own [depth] guard. *)

From S2P Require Import Prelude Utf8.

Module Opack.

Inductive OpackValue : Type :=
| Null
| Bool (b : bool)
| Int (n : Z)
| String (s : bytes)
| Bytes (b : bytes)
| Array (arr : list OpackValue)
| Dict (pairs : list (OpackValue * OpackValue)).

Inductive OpackError : Type :=
| UnexpectedEof
| UnknownTag (tag : Z)
| TooDeep (limit : Z)
| InvalidUtf8
| Encode (m : msg).

Definition MAX_OPACK_DEPTH : nat := 64.

(** ** Encoder *)

Definition encode_int (n : Z) (out : bytes) : bytes :=
  if (0 <=? n) && (n <? 8) then out ++ [bZ (0x08 + n)]
  else if (- 2 ^ 7 <=? n) && (n <=? 2 ^ 7 - 1) then out ++ [bZ 0x30] ++ le_bytes 1 n
  else if (- 2 ^ 15 <=? n) && (n <=? 2 ^ 15 - 1) then out ++ [bZ 0x31] ++ le_bytes 2 n
  else out ++ [bZ 0x33] ++ le_bytes 8 n.

Definition encode_string (s : bytes) (out : bytes) : outcome OpackError bytes :=
  if len s <? 0x20 then Ok (out ++ [bZ (Z.lor 0x40 (len s))] ++ s)
  else if len s <=? 0xFF then Ok (out ++ [bZ 0x61; bZ (len s)] ++ s)
  else if 2 ^ 16 - 1 <? len s
  then Err (Encode (Msg "string too long: {} bytes (max {})" [len s; 2 ^ 16 - 1]))
  else Ok (out ++ [bZ 0x62] ++ le_bytes 2 (len s) ++ s).

Definition encode_bytes (b : bytes) (out : bytes) : outcome OpackError bytes :=
  if len b <=? 0x0F then Ok (out ++ [bZ (Z.lor 0x70 (len b))] ++ b)
  else if len b <? 0x20 then Ok (out ++ [bZ (Z.lor 0x80 (Z.land (len b) 0x0F))] ++ b)
  else if len b <=? 0xFF then Ok (out ++ [bZ 0x91; bZ (len b)] ++ b)
  else Err (Encode (Msg "bytes too long: {len} bytes (max {})" [len b; 255])).

Fixpoint encode_value (value : OpackValue) (out : bytes) {struct value}
  : outcome OpackError bytes :=
  match value with
  | Null => Ok (out ++ [bZ 0x04])
  | Bool true => Ok (out ++ [bZ 0x01])
  | Bool false => Ok (out ++ [bZ 0x02])
  | Int n => Ok (encode_int n out)
  | String s => encode_string s out
  | Bytes b => encode_bytes b out
  | Array arr =>
      if 0x0F <? len arr
      then Err (Encode (Msg "array too large: {} elements (max 15)" [len arr]))
      else foldM (fun v out => encode_value v out) arr (out ++ [bZ (Z.lor 0xD0 (len arr))])
  | Dict pairs =>
      if 0x0F <? len pairs
      then Err (Encode (Msg "dict too large: {} entries (max 15)" [len pairs]))
      else foldM (fun '(k, v) out => out ← encode_value k out; encode_value v out)
             pairs (out ++ [bZ (Z.lor 0xE0 (len pairs))])
  end.

Definition encode (value : OpackValue) : outcome OpackError bytes := encode_value value [].

(** ** Decoder *)

(** [std::str::from_utf8(&buf[a..b]).map_err(|_| InvalidUtf8)?.to_string()] *)
Definition utf8_slice (buf : bytes) (a b : nat) : outcome OpackError bytes :=
  s ← slice buf a b; if from_utf8 s then Ok s else Err InvalidUtf8.

(** [for _ in 0..count { let (v, next) = f(cur)?; items.push(v); cur = next; }] *)
Definition decode_n {A} (f : nat -> outcome OpackError (A * nat))
  : nat -> nat -> outcome OpackError (list A * nat) :=
  fix go (count cur : nat) : outcome OpackError (list A * nat) :=
    match count with
    | O => Ok ([], cur)
    | S count =>
        '(v, next) ← f cur;
        '(items, cur) ← go count next;
        Ok (v :: items, cur)
    end.

Definition decode_pair (f : nat -> outcome OpackError (OpackValue * nat)) (cur : nat)
  : outcome OpackError (OpackValue * OpackValue * nat) :=
  '(k, next) ← f cur;
  '(v, next) ← f next;
  Ok ((k, v), next).

(** The body of [decode_at] once the depth guard has passed; [rec] is the
    recursive call at [depth + 1]. *)
Definition decode_body (rec : nat -> outcome OpackError (OpackValue * nat))
  (buf : bytes) (pos : nat) : outcome OpackError (OpackValue * nat) :=
  if (length buf <=? pos)%nat then Err UnexpectedEof else
  tag ← index buf pos;
  let tag := Zb tag in
  if tag =? 0x04 then Ok (Null, (pos + 1)%nat)
  else if tag =? 0x01 then Ok (Bool true, (pos + 1)%nat)
  else if tag =? 0x02 then Ok (Bool false, (pos + 1)%nat)
  else if in_range 0x08 0x2F tag then Ok (Int (tag - 0x08), (pos + 1)%nat)
  else if tag =? 0x30 then
    if (length buf <? pos + 2)%nat then Err UnexpectedEof else
    b ← slice buf (pos + 1) (pos + 2); Ok (Int (signed 8 (le_Z b)), (pos + 2)%nat)
  else if tag =? 0x31 then
    if (length buf <? pos + 3)%nat then Err UnexpectedEof else
    b ← slice buf (pos + 1) (pos + 3); Ok (Int (signed 16 (le_Z b)), (pos + 3)%nat)
  else if tag =? 0x32 then
    if (length buf <? pos + 5)%nat then Err UnexpectedEof else
    b ← slice buf (pos + 1) (pos + 5); Ok (Int (signed 32 (le_Z b)), (pos + 5)%nat)
  else if tag =? 0x33 then
    if (length buf <? pos + 9)%nat then Err UnexpectedEof else
    b ← slice buf (pos + 1) (pos + 9); Ok (Int (signed 64 (le_Z b)), (pos + 9)%nat)
  else if in_range 0x40 0x60 tag then
    let n := Z.to_nat (tag - 0x40) in
    if (length buf <? pos + 1 + n)%nat then Err UnexpectedEof else
    s ← utf8_slice buf (pos + 1) (pos + 1 + n); Ok (String s, (pos + 1 + n)%nat)
  else if tag =? 0x61 then
    if (length buf <? pos + 2)%nat then Err UnexpectedEof else
    b ← index buf (pos + 1);
    let n := Z.to_nat (Zb b) in
    if (length buf <? pos + 2 + n)%nat then Err UnexpectedEof else
    s ← utf8_slice buf (pos + 2) (pos + 2 + n); Ok (String s, (pos + 2 + n)%nat)
  else if tag =? 0x62 then
    if (length buf <? pos + 3)%nat then Err UnexpectedEof else
    b ← slice buf (pos + 1) (pos + 3);
    let n := Z.to_nat (le_Z b) in
    if (length buf <? pos + 3 + n)%nat then Err UnexpectedEof else
    s ← utf8_slice buf (pos + 3) (pos + 3 + n); Ok (String s, (pos + 3 + n)%nat)
  else if in_range 0x70 0x90 tag then
    let n := Z.to_nat (tag - 0x70) in
    if (length buf <? pos + 1 + n)%nat then Err UnexpectedEof else
    b ← slice buf (pos + 1) (pos + 1 + n); Ok (Bytes b, (pos + 1 + n)%nat)
  else if tag =? 0x91 then
    if (length buf <? pos + 2)%nat then Err UnexpectedEof else
    b ← index buf (pos + 1);
    let n := Z.to_nat (Zb b) in
    if (length buf <? pos + 2 + n)%nat then Err UnexpectedEof else
    b ← slice buf (pos + 2) (pos + 2 + n); Ok (Bytes b, (pos + 2 + n)%nat)
  else if in_range 0xD0 0xDF tag then
    '(items, cur) ← decode_n (rec) (Z.to_nat (tag - 0xD0)) (pos + 1)%nat;
    Ok (Array items, cur)
  else if in_range 0xE0 0xEF tag then
    '(pairs, cur) ← decode_n (decode_pair (rec))
                      (Z.to_nat (tag - 0xE0)) (pos + 1)%nat;
    Ok (Dict pairs, cur)
  else Err (UnknownTag tag).

Fixpoint decode_levels (levels : nat) (buf : bytes) (pos : nat) {struct levels}
  : outcome OpackError (OpackValue * nat) :=
  match levels with
  | O => Err (TooDeep (Z.of_nat MAX_OPACK_DEPTH))
  | S levels => decode_body (fun cur => decode_levels levels buf cur) buf pos
  end.

Definition decode_at (buf : bytes) (pos depth : nat) : outcome OpackError (OpackValue * nat) :=
  decode_levels (MAX_OPACK_DEPTH + 1 - depth) buf pos.

Definition decode (buf : bytes) : outcome OpackError (OpackValue * nat) := decode_at buf 0 0.

(** ** Well-formedness

    What the Rust types guarantee (an [i64], a UTF-8 [String]), the nesting
    height, and the size limits of the format. *)
Section value_ind.
Variable P : OpackValue -> Prop.
Hypotheses (HNull : P Null) (HBool : forall b, P (Bool b)) (HInt : forall n, P (Int n))
  (HString : forall s, P (String s)) (HBytes : forall b, P (Bytes b))
  (HArray : forall arr, Forall P arr -> P (Array arr))
  (HDict : forall pairs, Forall (fun kv => P kv.1 /\ P kv.2) pairs -> P (Dict pairs)).

Fixpoint OpackValue_nested_ind (v : OpackValue) : P v :=
  match v with
  | Null => HNull
  | Bool b => HBool b
  | Int n => HInt n
  | String s => HString s
  | Bytes b => HBytes b
  | Array arr => HArray arr
      ((fix go l : Forall P l :=
          match l with
          | [] => Forall_nil_2 P
          | v :: l => Forall_cons_2 _ _ _ (OpackValue_nested_ind v) (go l)
          end) arr)
  | Dict pairs => HDict pairs
      ((fix go l : Forall (fun kv => P kv.1 /\ P kv.2) l :=
          match l with
          | [] => Forall_nil_2 _
          | kv :: l =>
              Forall_cons_2 (fun kv => P kv.1 /\ P kv.2) kv l
                (conj (OpackValue_nested_ind kv.1) (OpackValue_nested_ind kv.2)) (go l)
          end) pairs)
  end.
End value_ind.

Fixpoint wf (v : OpackValue) : Prop :=
  match v with
  | Int n => in_i 64 n
  | String s => from_utf8 s = true
  | Array arr => foldr (fun v P => wf v /\ P) True arr
  | Dict pairs => foldr (fun kv P => wf kv.1 /\ wf kv.2 /\ P) True pairs
  | _ => True
  end.

Fixpoint height (v : OpackValue) : nat :=
  match v with
  | Array arr => S (foldr (fun v n => Nat.max (height v) n) 0%nat arr)
  | Dict pairs => S (foldr (fun kv n => Nat.max (Nat.max (height kv.1) (height kv.2)) n) 0%nat pairs)
  | _ => 1%nat
  end.

(** The values the encoder accepts. *)
Fixpoint encodable (v : OpackValue) : bool :=
  match v with
  | String s => len s <=? 2 ^ 16 - 1
  | Bytes b => len b <=? 0xFF
  | Array arr => (len arr <=? 15) && forallb encodable arr
  | Dict pairs => (len pairs <=? 15) && forallb (fun kv => encodable kv.1 && encodable kv.2) pairs
  | _ => true
  end.

Lemma decode_at_eq buf pos depth :
  decode_at buf pos depth =
  if (MAX_OPACK_DEPTH <? depth)%nat then Err (TooDeep (Z.of_nat MAX_OPACK_DEPTH))
  else decode_body (fun cur => decode_at buf cur (depth + 1)) buf pos.
Proof.
  unfold decode_at, MAX_OPACK_DEPTH. destruct (64 <? depth)%nat eqn:Hd.
  - replace (64 + 1 - depth)%nat with 0%nat by lia. done.
  - replace (64 + 1 - depth)%nat with (S (64 + 1 - (depth + 1))) by lia. done.
Qed.

(** ** Soundness of the decoder *)

(** What a successful call at [pos] guarantees. *)
Definition decoded (levels : nat) (buf : bytes) (pos : nat) (v : OpackValue) (next : nat) : Prop :=
  (pos < next <= length buf)%nat /\ wf v /\ (height v <= levels)%nat.

Definition post {A} (Q : A -> nat -> Prop) (o : outcome OpackError (A * nat)) : Prop :=
  match o with Ok (a, next) => Q a next | Err _ => True | _ => False end.

Lemma post_bind {A B} (Q : A -> nat -> Prop) (R : B -> nat -> Prop) o (f : A * nat -> _) :
  post Q o -> (forall a next, Q a next -> post R (f (a, next))) -> post R (o ≫= f).
Proof. destruct o as [[a next]| | | |]; simpl; auto. Qed.

Lemma decode_n_post {A} (P : A -> Prop) (f : nat -> outcome OpackError (A * nat)) (L count cur : nat) :
  (forall pos, post (fun v next => (pos < next <= L)%nat /\ P v) (f pos)) ->
  (cur <= L)%nat ->
  post (fun items next => (cur <= next <= L)%nat /\ length items = count /\ Forall P items)
    (decode_n f count cur).
Proof.
  intros Hf. revert cur. induction count as [|count IH]; intros cur Hcur; cbn [decode_n].
  - simpl. repeat split; [lia..|constructor].
  - eapply post_bind; [apply Hf|]. intros v next [Hn Hv].
    eapply post_bind; [apply (IH next); lia|]. intros items next' (Hn' & Hl & Hi).
    simpl. repeat split; [lia..|by constructor].
Qed.

Lemma decode_pair_post (P : OpackValue -> Prop) f (L pos : nat) :
  (forall pos, post (fun v next => (pos < next <= L)%nat /\ P v) (f pos)) ->
  post (fun kv next => (pos < next <= L)%nat /\ P kv.1 /\ P kv.2) (decode_pair f pos).
Proof.
  intros Hf. unfold decode_pair. eapply post_bind; [apply Hf|]. intros k next [Hn Hk].
  eapply post_bind; [apply Hf|]. intros v next' [Hn' Hv]. simpl. repeat split; lia || done.
Qed.

Lemma wf_array levels (arr : list OpackValue) :
  Forall (fun v => wf v /\ (height v <= levels)%nat) arr ->
  wf (Array arr) /\ (height (Array arr) <= S levels)%nat.
Proof.
  intros H. cbn [wf height]. induction H as [|v arr [Hw Hh] _ [IHw IHh]]; simpl in *; [split; [done|lia]|].
  split; [done|lia].
Qed.

Lemma wf_dict levels (pairs : list (OpackValue * OpackValue)) :
  Forall (fun kv => (wf kv.1 /\ (height kv.1 <= levels)%nat) /\
                    (wf kv.2 /\ (height kv.2 <= levels)%nat)) pairs ->
  wf (Dict pairs) /\ (height (Dict pairs) <= S levels)%nat.
Proof.
  intros H. cbn [wf height].
  induction H as [|[k v] pairs [[Hw Hh] [Hw' Hh']] _ [IHw IHh]]; simpl in *; [split; [done|lia]|].
  split; [done|lia].
Qed.

Lemma utf8_slice_post levels (buf : bytes) pos a b :
  (pos < a <= b)%nat -> (b <= length buf)%nat ->
  post (decoded (S levels) buf pos) (s ← utf8_slice buf a b; Ok (String s, b)).
Proof.
  intros Ha Hb. unfold utf8_slice. rewrite slice_ok by lia. simpl.
  destruct (from_utf8 _) eqn:E; simpl; [|done].
  split; [lia|]. split; [done|simpl; lia].
Qed.

Lemma decode_body_post levels rec buf pos :
  (forall p, post (decoded levels buf p) (rec p)) ->
  post (decoded (S levels) buf pos) (decode_body rec buf pos).
Proof.
  intros Hrec. unfold decode_body. split_if; [done|].
  destruct (index_ok (E := OpackError) buf pos) as (t & -> & _); [lia|]. simpl.
  pose proof (Zb_range t) as Ht. unfold in_range.
  assert (forall n (v : OpackValue), (pos < n <= length buf)%nat -> wf v -> height v = 1%nat ->
            decoded (S levels) buf pos v n) as Hscalar.
  { intros n v Hn Hv Hh. split; [done|]. split; [done|lia]. }
  assert (forall w z, 8 <= w <= 64 -> wf (Int (signed w z))) as Hint.
  { intros w z Hw. simpl. pose proof (signed_bound w z ltac:(lia)) as Hs.
    unfold in_i in *. assert (2 ^ (w - 1) <= 2 ^ (64 - 1)) by (apply Z.pow_le_mono_r; lia). lia. }
  repeat match goal with
    | |- post _ (if Zb t =? _ then _ else _) => split_if
    | |- post _ (if _ && _ then _ else _) => split_if
    | |- post _ (if (_ <? _)%nat then _ else _) => split_if; [done|]
    | |- post _ (Err _) => done
    | |- post _ (Ok _) => simpl; apply Hscalar; [lia| |done]; simpl; try (unfold in_i; lia)
    | |- post _ (index buf ?i ≫= _) =>
        let b := fresh "b" in
        destruct (index_ok (E := OpackError) buf i) as (b & -> & _); [lia|]; simpl
    | |- post _ (_ ← slice _ _ _; _) => rewrite slice_ok by lia; simpl
    | |- post _ (_ ← utf8_slice _ _ _; _) => apply utf8_slice_post; lia
    | |- decoded _ _ _ _ _ => apply Hscalar; [lia|first [exact I|apply Hint; lia]|done]
    end.
  - eapply post_bind.
    + eapply (decode_n_post (fun v => wf v /\ (height v <= levels)%nat) _ (length buf)); [|lia].
      intros p. apply Hrec.
    + intros items next (Hn & _ & Hi). simpl. split; [lia|]. by apply wf_array.
  - eapply post_bind.
    + eapply (decode_n_post (fun kv => (wf kv.1 /\ (height kv.1 <= levels)%nat) /\
                    (wf kv.2 /\ (height kv.2 <= levels)%nat)) _ (length buf)); [|lia].
      intros p. apply (decode_pair_post (fun v => wf v /\ (height v <= levels)%nat)). apply Hrec.
    + intros items next (Hn & _ & Hi). simpl. split; [lia|]. by apply wf_dict.
Qed.

Lemma decode_levels_post levels buf pos :
  post (decoded levels buf pos) (decode_levels levels buf pos).
Proof.
  revert pos. induction levels as [|levels IH]; intros pos; [done|].
  apply decode_body_post. apply IH.
Qed.

(** ** The encoder appends, and accepts exactly the encodable values *)

Lemma encode_int_app n out : encode_int n out = out ++ encode_int n [].
Proof. unfold encode_int. split_ifs; done. Qed.
Lemma encode_string_app s out : encode_string s out = (out ++.) <$> encode_string s [].
Proof. unfold encode_string. split_ifs; done. Qed.
Lemma encode_bytes_app s out : encode_bytes s out = (out ++.) <$> encode_bytes s [].
Proof. unfold encode_bytes. split_ifs; done. Qed.

(** The elements of a container are written one after the other. *)
Lemma foldM_append {A} (f : A -> bytes -> outcome OpackError bytes) (l : list A) out :
  Forall (fun a => forall out, f a out = (out ++.) <$> f a []) l ->
  foldM f l out = (out ++.) <$> foldM f l [].
Proof.
  intros H. revert out. induction H as [|a l Ha _ IH]; intros out; simpl.
  - by rewrite app_nil_r.
  - rewrite (Ha out). destruct (f a []) as [bs| | | |]; simpl; try done.
    rewrite (IH (out ++ bs)), (IH bs). destruct (foldM f l []); simpl; try done.
    by rewrite app_assoc.
Qed.

Lemma encode_value_app v out : encode_value v out = (out ++.) <$> encode_value v [].
Proof.
  revert out. induction v as [|[]|n|s|b|arr IH|pairs IH] using OpackValue_nested_ind;
    intros out; try done; cbn [encode_value].
  - by rewrite encode_int_app.
  - apply encode_string_app.
  - apply encode_bytes_app.
  - split_if; [done|]. rewrite (foldM_append _ _ (out ++ _)), (foldM_append _ _ ([] ++ _)) by done.
    destruct (foldM _ arr []); simpl; try done. by rewrite <- app_assoc.
  - assert (Forall (fun kv : OpackValue * OpackValue => forall out,
      (let '(k, v) := kv in fun out => out ← encode_value k out; encode_value v out) out =
      (out ++.) <$> (let '(k, v) := kv in fun out => out ← encode_value k out; encode_value v out) [])
      pairs) as Hp.
    { eapply Forall_impl; [exact IH|]. intros [k v] [Hk Hv] o. simpl in *.
      rewrite (Hk o). destruct (encode_value k []) as [bs| | | |]; simpl; try done.
      rewrite (Hv (o ++ bs)), (Hv bs). destruct (encode_value v []); simpl; try done.
      by rewrite app_assoc. }
    split_if; [done|].
    rewrite (foldM_append _ _ (out ++ _)), (foldM_append _ _ ([] ++ _)) by exact Hp.
    destruct (foldM _ pairs []); simpl; try done. by rewrite <- app_assoc.
Qed.

(** A container's encoding is its header byte followed by its elements'. *)
Lemma encode_elements {A} (f : A -> bytes -> outcome OpackError bytes) (l : list A) out bs :
  (forall a out, f a out = (out ++.) <$> f a []) ->
  foldM f l out = Ok bs ->
  exists bss, Forall2 (fun a e => f a [] = Ok e) l bss /\ bs = out ++ concat bss.
Proof.
  intros Hf. revert out. induction l as [|a l IH]; intros out H; simpl in *.
  - injection H as <-. exists []. by rewrite app_nil_r.
  - rewrite (Hf a out) in H. destruct (f a []) as [e| | | |] eqn:Ea; simpl in H; try done.
    destruct (IH _ H) as (bss & Hb & ->). exists (e :: bss).
    split; [by constructor|]. simpl. by rewrite app_assoc.
Qed.

Lemma encode_array_inv arr bs :
  encode (Array arr) = Ok bs ->
  len arr <= 15 /\ exists bss, Forall2 (fun v e => encode v = Ok e) arr bss /\
    bs = bZ (Z.lor 0xD0 (len arr)) :: concat bss.
Proof.
  unfold encode. cbn [encode_value]. split_if; [done|]. intros H.
  split; [lia|]. apply (encode_elements _ _ _ _ encode_value_app H).
Qed.

Lemma encode_dict_inv pairs bs :
  encode (Dict pairs) = Ok bs ->
  len pairs <= 15 /\ exists bss,
    Forall2 (fun kv e => exists ek ev, encode kv.1 = Ok ek /\ encode kv.2 = Ok ev /\ e = ek ++ ev)
      pairs bss /\
    bs = bZ (Z.lor 0xE0 (len pairs)) :: concat bss.
Proof.
  unfold encode. cbn [encode_value]. split_if; [done|]. intros H.
  split; [lia|].
  apply encode_elements in H as (bss & Hb & ->).
  - exists bss. split; [|done]. eapply Forall2_impl; [exact Hb|]. intros [k v] e He. simpl in *.
    destruct (encode_value k []) as [ek| | | |]; simpl in He; try done.
    rewrite encode_value_app in He. destruct (encode_value v []) as [ev| | | |]; try done.
    injection He as <-. eauto.
  - intros [k v] out'. rewrite (encode_value_app k out').
    destruct (encode_value k []) as [ek| | | |]; simpl; try done.
    rewrite (encode_value_app v (out' ++ ek)), (encode_value_app v ek).
    destruct (encode_value v []); simpl; try done. by rewrite app_assoc.
Qed.

(** [parses f buf e ok a bs]: wherever [bs] stands in [buf], [f] reads [a] off
    it, or stops with [e] when [a] is not [ok]. *)
Definition parses {A} (f : nat -> outcome OpackError (A * nat)) (buf : bytes) (e : OpackError)
  (ok : bool) (a : A) (bs : bytes) : Prop :=
  forall pre rest, buf = pre ++ bs ++ rest ->
    f (length pre) = if ok then Ok (a, (length pre + length bs)%nat) else Err e.

Lemma decode_n_parses {A} f buf e (ok : A -> bool) l bss :
  Forall2 (fun a bs => parses f buf e (ok a) a bs) l bss ->
  parses (decode_n f (length l)) buf e (forallb ok l) l (concat bss).
Proof.
  induction 1 as [|a bs l bss Ha _ IH]; intros pre rest Hbuf; simpl in *.
  - by rewrite Nat.add_0_r.
  - rewrite (Ha pre (concat bss ++ rest)) by (by rewrite Hbuf, <- app_assoc).
    destruct (ok a); simpl; [|done].
    rewrite <- length_app, (IH (pre ++ bs) rest) by (by rewrite Hbuf, <- !app_assoc).
    destruct (forallb ok l); simpl; [|done]. do 2 f_equal. rewrite !length_app. lia.
Qed.

Lemma decode_pair_parses f buf e oka okb a b bsa bsb :
  parses f buf e oka a bsa -> parses f buf e okb b bsb ->
  parses (decode_pair f) buf e (oka && okb) (a, b) (bsa ++ bsb).
Proof.
  intros Ha Hb pre rest Hbuf. unfold decode_pair.
  rewrite (Ha pre (bsb ++ rest)) by (by rewrite Hbuf, <- !app_assoc).
  destruct oka; simpl; [|done].
  rewrite <- length_app, (Hb (pre ++ bsa) rest) by (by rewrite Hbuf, <- !app_assoc).
  destruct okb; simpl; [|done]. do 2 f_equal. rewrite !length_app. lia.
Qed.

(** ** Round trip *)

Lemma index_app {E} (pre rest : bytes) b : index (E := E) (pre ++ b :: rest) (length pre) = Ok b.
Proof. unfold index. by rewrite list_lookup_middle. Qed.

Lemma index_app_2 {E} (pre rest : bytes) a b :
  index (E := E) (pre ++ a :: b :: rest) (length pre + 1) = Ok b.
Proof.
  rewrite cons_middle, app_assoc. replace (length pre + 1)%nat with (length (pre ++ [a])).
  - apply index_app.
  - rewrite length_app. simpl. lia.
Qed.

(** Evaluating [decode_body] at an encoding: the tag is read, then a slice. *)
Lemma slice_after {E} (buf pre hd bs rest : bytes) a b :
  buf = pre ++ hd ++ bs ++ rest -> a = (length pre + length hd)%nat -> b = (a + length bs)%nat ->
  slice (E := E) buf a b = Ok bs.
Proof.
  intros -> -> ->. rewrite app_assoc, <- length_app. apply slice_app.
Qed.

Ltac at_slice pre hd bs rest :=
  rewrite (slice_after _ pre hd bs rest);
  [ |simpl; rewrite <- ?app_assoc; reflexivity
    |simpl; rewrite ?length_le_bytes; lia|rewrite ?length_le_bytes; unfold len in *; lia];
  simpl.

Ltac at_tag :=
  intros pre rest ->; unfold decode_body; simpl;
  rewrite (proj2 (Nat.leb_gt _ _)) by (rewrite !length_app; simpl; lia);
  rewrite index_app; cbn [mbind outcome_bind]; rewrite Zb_bZ; rewrite Z.mod_small by lia;
  unfold in_range; repeat (rewrite ?length_app, ?length_le_bytes; cbn [length]).

Lemma decode_body_int rec buf e n :
  in_i 64 n -> parses (decode_body rec buf) buf e true (Int n) (encode_int n []).
Proof.
  intros Hn. unfold encode_int, in_i in *. split_ifs; at_tag; split_ifs; simpl.
  - do 3 f_equal; lia.
  - at_slice pre [bZ 0x30] (le_bytes 1 n) rest.
    by rewrite (signed_le_Z_le_bytes 1 8) by (done || unfold in_i; lia).
  - at_slice pre [bZ 0x31] (le_bytes 2 n) rest.
    by rewrite (signed_le_Z_le_bytes 2 16) by (done || unfold in_i; lia).
  - at_slice pre [bZ 0x33] (le_bytes 8 n) rest.
    by rewrite (signed_le_Z_le_bytes 8 64) by (done || unfold in_i; lia).
Qed.

Lemma decode_body_string rec buf e s bs :
  from_utf8 s = true -> encode_string s [] = Ok bs ->
  parses (decode_body rec buf) buf e true (String s) bs.
Proof.
  intros Hs. unfold encode_string. pose proof (Nat2Z.is_nonneg (length s)) as H0. fold (len s) in H0.
  split_ifs; intros [= <-]; [rewrite (lor_low 5 2) by lia|..]; at_tag; unfold len in *; split_ifs.
  - unfold utf8_slice. at_slice pre [bZ (2 * 2 ^ 5 + Z.of_nat (length s))] s rest.
    rewrite Hs. simpl. do 2 f_equal. lia.
  - rewrite index_app_2. cbn [mbind outcome_bind]. rewrite Zb_bZ, Z.mod_small by lia. split_ifs.
    unfold utf8_slice. at_slice pre [bZ 0x61; bZ (Z.of_nat (length s))] s rest.
    rewrite Hs. simpl. do 2 f_equal. lia.
  - at_slice pre [bZ 0x62] (le_bytes 2 (Z.of_nat (length s))) (s ++ rest).
    rewrite (le_Z_le_bytes_u 2 16) by (done || unfold in_u; lia). split_ifs.
    unfold utf8_slice. at_slice pre (bZ 0x62 :: le_bytes 2 (Z.of_nat (length s))) s rest.
    rewrite Hs. simpl. do 2 f_equal. lia.
Qed.

Lemma decode_body_bytes rec buf e b bs :
  encode_bytes b [] = Ok bs ->
  parses (decode_body rec buf) buf e true (Bytes b) bs.
Proof.
  unfold encode_bytes. pose proof (Nat2Z.is_nonneg (length b)) as H0. fold (len b) in H0.
  split_ifs; intros [= <-].
  - rewrite (lor_low 4 7) by lia. at_tag. unfold len in *. split_ifs.
    at_slice pre [bZ (7 * 2 ^ 4 + Z.of_nat (length b))] b rest. do 2 f_equal. lia.
  - change 0x0F with (Z.ones 4). rewrite Z.land_ones by lia.
    replace (len b mod 2 ^ 4) with (len b - 16) by (apply (Z.mod_unique_pos _ _ 1); lia).
    rewrite (lor_low 4 8) by lia. at_tag. unfold len in *. split_ifs.
    at_slice pre [bZ (8 * 2 ^ 4 + (Z.of_nat (length b) - 16))] b rest. do 2 f_equal. lia.
  - at_tag. unfold len in *. split_ifs.
    rewrite index_app_2. cbn [mbind outcome_bind]. rewrite Zb_bZ, Z.mod_small by lia. split_ifs.
    at_slice pre [bZ 0x91; bZ (Z.of_nat (length b))] b rest. do 2 f_equal. lia.
Qed.

Lemma height_pos v : (1 <= height v)%nat.
Proof. destruct v; simpl; lia. Qed.

(** The elements of a list are all low enough exactly when the maximum is. *)
Lemma forallb_max {A} (h : A -> nat) (n : nat) (l : list A) :
  forallb (fun a => (h a <=? n)%nat) l = (foldr (fun a m => Nat.max (h a) m) 0 l <=? n)%nat.
Proof. induction l as [|a l IH]; simpl; [done|]. rewrite IH. lia. Qed.

Lemma wf_array_inv arr : wf (Array arr) -> Forall wf arr.
Proof. cbn [wf]. induction arr; simpl; [done|]. intros [? ?]; constructor; auto. Qed.
Lemma wf_dict_inv pairs : wf (Dict pairs) -> Forall (fun kv => wf kv.1 /\ wf kv.2) pairs.
Proof. cbn [wf]. induction pairs; simpl; [done|]. intros (? & ? & ?); constructor; auto. Qed.

Definition too_deep : OpackError := TooDeep (Z.of_nat MAX_OPACK_DEPTH).

(** Containers: a header byte [16 * d + count], then [count] elements read by [f]. *)
Lemma decode_body_container {A} rec buf (f : nat -> outcome OpackError (A * nat))
  (mk : list A -> OpackValue) (d : Z) (items : list A) bss (ok : A -> bool) :
  0 <= d < 16 -> len items <= 15 ->
  (forall pos n, 0 <= n < 16 -> buf !! pos = Some (bZ (d * 2 ^ 4 + n)) ->
     decode_body rec buf pos =
     ('(items, cur) ← decode_n f (Z.to_nat n) (pos + 1); Ok (mk items, cur))) ->
  Forall2 (fun v bs => parses f buf too_deep (ok v) v bs) items bss ->
  parses (decode_body rec buf) buf too_deep (forallb ok items) (mk items)
    (bZ (Z.lor (d * 2 ^ 4) (len items)) :: concat bss).
Proof.
  intros Hd Hl Hbody Hall%decode_n_parses pre rest Hbuf. assert (0 <= len items) by (unfold len; lia).
  rewrite lor_low in Hbuf |- * by lia.
  rewrite (Hbody _ (len items)) by (lia || (rewrite Hbuf; by apply list_lookup_middle)).
  replace (Z.to_nat (len items)) with (length items) by (unfold len in *; lia).
  replace (length pre + 1)%nat with (length (pre ++ [bZ (d * 2 ^ 4 + len items)]))
    by (rewrite length_app; simpl; lia).
  rewrite (Hall _ rest) by (by rewrite Hbuf, <- app_assoc).
  destruct (forallb ok items); simpl; [|done]. do 2 f_equal. rewrite length_app. simpl. lia.
Qed.

Ltac container :=
  intros pos n Hn Hpos; unfold decode_body;
  rewrite (proj2 (Nat.leb_gt _ _)) by (by eapply lookup_lt_Some);
  unfold index; rewrite Hpos; cbn [mbind outcome_bind];
  rewrite Zb_bZ, Z.mod_small by lia; unfold in_range; split_ifs;
  do 2 f_equal; lia.

Lemma decode_levels_parses v bs levels buf :
  wf v -> encode v = Ok bs ->
  parses (decode_levels levels buf) buf too_deep (height v <=? levels)%nat v bs.
Proof.
  revert bs levels. induction v as [|b|n|s|b|arr IH|pairs IH] using OpackValue_nested_ind;
    intros bs [|levels] Hwf Henc;
    match goal with |- parses _ _ _ (height ?v <=? 0)%nat _ _ =>
      rewrite (proj2 (Nat.leb_gt (height v) 0)) by (pose proof (height_pos v); lia); done | _ => idtac end;
    cbn [decode_levels].
  - injection Henc as <-. by at_tag.
  - destruct b; injection Henc as <-; by at_tag.
  - injection Henc as <-. by apply decode_body_int.
  - by apply decode_body_string.
  - by apply decode_body_bytes.
  - apply encode_array_inv in Henc as (Hl & bss & Hb & ->). apply wf_array_inv in Hwf.
    cbn [height]. change (S ?a <=? S ?b)%nat with (a <=? b)%nat.
    rewrite <- (forallb_max height).
    apply (decode_body_container _ _ (fun cur => decode_levels levels buf cur) Array 13); [lia|done|container|].
    apply Forall2_same_length_lookup_2; [by eapply Forall2_length|].
    intros i v e Hv He. rewrite Forall_lookup in IH, Hwf.
    apply (IH i v Hv); [by eapply Hwf|]. eapply Forall2_lookup_lr in Hb; eauto.
  - apply encode_dict_inv in Henc as (Hl & bss & Hb & ->). apply wf_dict_inv in Hwf.
    cbn [height]. change (S ?a <=? S ?b)%nat with (a <=? b)%nat.
    rewrite <- (forallb_max (fun kv => Nat.max (height kv.1) (height kv.2))).
    apply (decode_body_container _ _ (decode_pair (fun cur => decode_levels levels buf cur)) Dict 14); [lia|done|container|].
    apply Forall2_same_length_lookup_2; [by eapply Forall2_length|].
    intros i [k v] e Hv He. rewrite Forall_lookup in IH, Hwf.
    destruct (IH i _ Hv) as [IHk IHv], (Hwf i _ Hv) as [Hk Hwv].
    destruct (Forall2_lookup_lr _ _ _ _ _ _ Hb Hv He) as (ek & ev & Hek & Hev & ->). simpl in *.
    replace (Nat.max (height k) (height v) <=? levels)%nat
      with ((height k <=? levels)%nat && (height v <=? levels)%nat) by lia.
    apply decode_pair_parses; auto.
Qed.

Lemma foldM_total {A} (f : A -> bytes -> outcome OpackError bytes) (ok : A -> bool) l out :
  Forall (fun a => forall out, if ok a then exists bs, f a out = Ok bs
                               else exists m, f a out = Err (Encode m)) l ->
  if forallb ok l then exists bs, foldM f l out = Ok bs
  else exists m, foldM f l out = Err (Encode m).
Proof.
  intros H. revert out. induction H as [|a l Ha _ IH]; intros out; simpl; [eauto|].
  specialize (Ha out). destruct (ok a); destruct Ha as [x Ha]; rewrite Ha; simpl; eauto. apply IH.
Qed.

Lemma encode_value_total v out :
  if encodable v then exists bs, encode_value v out = Ok bs
  else exists m, encode_value v out = Err (Encode m).
Proof.
  revert out. induction v as [|[]|n|s|b|arr IH|pairs IH] using OpackValue_nested_ind;
    intros out; cbn [encodable encode_value]; eauto.
  - unfold encode_string. split_ifs; eauto.
  - unfold encode_bytes. split_ifs; eauto.
  - rewrite Z.leb_antisym. destruct (15 <? len arr); simpl; [eauto|]. by apply foldM_total.
  - rewrite Z.leb_antisym. destruct (15 <? len pairs); simpl; [eauto|].
    apply foldM_total. eapply Forall_impl; [exact IH|]. intros [k v] [Hk Hv] o. simpl in *.
    specialize (Hk o). destruct (encodable k); destruct Hk as [x Hk]; rewrite Hk; simpl;
      [apply Hv|eauto].
Qed.

(** Round trip of the OPACK codec. Every value the encoder accepts decodes,
    from any buffer that starts with its encoding, to itself, consuming exactly
    the encoding; a value nested deeper than the decoder allows is refused with
    [TooDeep], never mis-read. *)
Theorem opack_roundtrip v bs rest :
  wf v -> encode v = Ok bs ->
  decode (bs ++ rest) =
  if (height v <=? MAX_OPACK_DEPTH + 1)%nat then Ok (v, length bs)
  else Err (TooDeep (Z.of_nat MAX_OPACK_DEPTH)).
Proof.
  intros Hwf Henc. exact (decode_levels_parses v bs _ (bs ++ rest) Hwf Henc [] rest eq_refl).
Qed.

(** The decoder is total on hostile input: for every buffer it returns a
    value or an error, never an out-of-range access. A value it returns
    consumes at least one and at most all bytes, is well-formed (64-bit
    integers, valid UTF-8), and nests at most 65 levels. *)
Theorem opack_decode_sound buf :
  match decode buf with
  | Ok (v, used) =>
      (0 < used <= length buf)%nat /\ wf v /\ (height v <= MAX_OPACK_DEPTH + 1)%nat
  | Err _ => True
  | _ => False
  end.
Proof. exact (decode_levels_post _ buf 0). Qed.

(** The encoder refuses exactly the values that exceed the format's limits
    (strings over 65535 bytes, data over 255 bytes, containers over 15
    entries, at any depth), and always with an [Encode] error. *)
Theorem opack_encode_accepts v :
  if encodable v then exists bs, encode v = Ok bs else exists m, encode v = Err (Encode m).
Proof. apply encode_value_total. Qed.

Definition sample : OpackValue :=
  Dict [(String (map bZ [0x61; 0x6C; 0x74]), Int (-300));
        (Bytes (map bZ [1; 2; 3]), Array [Null; Bool true; Int 39])].

Lemma opack_roundtrip_witness :
  exists bs, encode sample = Ok bs /\ decode (bs ++ [x00]) = Ok (sample, length bs).
Proof.
  eexists. split; [vm_compute; reflexivity|].
  refine (opack_roundtrip sample _ [x00] _ _); [|vm_compute; reflexivity].
  vm_compute. repeat split; congruence.
Defined.

End Opack.
