(* ===== verification/Tlv.v ===== *)
(** TLV8 buffers of the pairing exchange ([crates/ios-core/src/proto/tlv.rs]).

    [TlvBuffer] is the byte vector under construction; the [HashMap<u8, Bytes>]
    that [decode] returns is a [gmap]. *)

From S2P Require Import Prelude.

Module Tlv.

Definition TlvBuffer : Type := bytes.
Definition new : TlvBuffer := [].

Definition push_u8 (self : TlvBuffer) (tag value : byte) : TlvBuffer :=
  self ++ [tag; bZ 1; value].

Definition push_bytes (self : TlvBuffer) (tag : byte) (value : bytes) : TlvBuffer :=
  match value with
  | [] => self ++ [tag; bZ 0]
  | _ => foldl (fun self chunk => self ++ [tag; bZ (len chunk)] ++ chunk) self (chunks 255 value)
  end.

(** [map.entry(tag).or_default().extend_from_slice(chunk)] *)
Definition extend (map : gmap byte bytes) (tag : byte) (chunk : bytes) : gmap byte bytes :=
  <[tag := default [] (map !! tag) ++ chunk]> map.

(** The [while i + 2 <= buf.len()] loop; it advances by at least two bytes, so
    [length buf] iterations are more than enough. *)
Fixpoint decode_loop (fuel : nat) (buf : bytes) (i : nat) (map : gmap byte bytes)
  : outcome Empty_set (gmap byte bytes) :=
  match fuel with
  | O => OutOfFuel
  | S fuel =>
      if (i + 2 <=? length buf)%nat then
        tag ← index buf i;
        b ← index buf (i + 1);
        let n := Z.to_nat (Zb b) in
        let i := (i + 2)%nat in
        if (length buf <? i + n)%nat then Ok map
        else
          chunk ← slice buf i (i + n);
          decode_loop fuel buf (i + n) (extend map tag chunk)
      else Ok map
  end.

Definition decode (buf : bytes) : outcome Empty_set (gmap byte bytes) :=
  decode_loop (S (length buf)) buf 0 ∅.

(** ** Specification *)

(** Pushing a list of items, and what a receiver should see: every tag maps to
    the concatenation of the values pushed under it, in order. *)
Definition push_all (items : list (byte * bytes)) : TlvBuffer :=
  foldl (fun self '(tag, value) => push_bytes self tag value) new items.
Definition coalesce (items : list (byte * bytes)) : gmap byte bytes :=
  foldl (fun map '(tag, value) => extend map tag value) ∅ items.

(** The records one push writes. *)
Definition records (tag : byte) (value : bytes) : list (byte * bytes) :=
  match value with [] => [(tag, [])] | _ => (fun c => (tag, c)) <$> chunks 255 value end.
Definition wire (rs : list (byte * bytes)) : bytes :=
  concat ((fun '(tag, c) => [tag; bZ (len c)] ++ c) <$> rs).

Lemma push_bytes_wire self tag value :
  push_bytes self tag value = self ++ wire (records tag value).
Proof.
  unfold push_bytes, records, wire. destruct value as [|b value]; [done|].
  generalize (chunks 255 (b :: value)) as cs. intros cs. revert self.
  induction cs as [|c cs IH]; intros self; simpl; [by rewrite app_nil_r|].
  rewrite IH. rewrite <- !app_assoc. simpl. done.
Qed.

Lemma records_short tag value : Forall (fun r => (length r.2 <= 255)%nat) (records tag value).
Proof.
  unfold records. destruct value as [|b value].
  - constructor; [simpl; lia|constructor].
  - apply Forall_fmap. eapply Forall_impl; [apply chunks_spec; lia|]. simpl. lia.
Qed.

Lemma extend_app map tag a b : extend (extend map tag a) tag b = extend map tag (a ++ b).
Proof. unfold extend. rewrite lookup_insert_eq, insert_insert_eq. simpl. by rewrite app_assoc. Qed.

Lemma extend_records map tag value :
  foldl (fun map '(tag, c) => extend map tag c) map (records tag value) = extend map tag value.
Proof.
  unfold records. destruct value as [|b value]; [done|].
  destruct (chunks_spec 255 (b :: value)) as [Hc _]; [lia|].
  rewrite <- Hc at 2. destruct (chunks 255 (b :: value)) as [|c cs]; [done|].
  clear Hc. simpl. revert c. induction cs as [|c' cs IH]; intros c; simpl; [by rewrite app_nil_r|].
  rewrite extend_app, IH. by rewrite app_assoc.
Qed.

Lemma wire_cons t c rs : wire ((t, c) :: rs) = t :: bZ (len c) :: c ++ wire rs.
Proof. done. Qed.
Lemma wire_app rs rs' : wire (rs ++ rs') = wire rs ++ wire rs'.
Proof. unfold wire. by rewrite fmap_app, concat_app. Qed.
#[local] Arguments wire : simpl never.

(** One iteration over a complete record. *)
Lemma decode_loop_record fuel pre t c rest map :
  (length c <= 255)%nat ->
  decode_loop (S fuel) (pre ++ t :: bZ (len c) :: c ++ rest) (length pre) map =
  decode_loop fuel (pre ++ t :: bZ (len c) :: c ++ rest) (length pre + 2 + length c) (extend map t c).
Proof.
  intros Hc. cbn [decode_loop]. set (buf := pre ++ _).
  assert (length buf = length pre + S (S (length c + length rest)))%nat as Hbuf.
  { unfold buf. rewrite length_app. simpl. rewrite length_app. lia. }
  rewrite (proj2 (Nat.leb_le _ _)) by lia.
  assert (index (E := Empty_set) buf (length pre) = Ok t) as ->.
  { unfold index, buf. by rewrite list_lookup_middle. }
  assert (index (E := Empty_set) buf (length pre + 1) = Ok (bZ (len c))) as ->.
  { unfold index, buf. rewrite cons_middle, app_assoc.
    by rewrite list_lookup_middle by (rewrite length_app; simpl; lia). }
  cbn [mbind outcome_bind]. rewrite Zb_bZ, Z.mod_small by (unfold len; lia).
  replace (Z.to_nat (len c)) with (length c) by (unfold len; lia).
  rewrite (proj2 (Nat.ltb_ge _ _)) by lia.
  assert (buf = (pre ++ [t; bZ (len c)]) ++ c ++ rest) as -> by (unfold buf; by rewrite <- app_assoc).
  replace (length pre + 2)%nat with (length (pre ++ [t; bZ (len c)])) by (rewrite length_app; simpl; lia).
  by rewrite slice_app.
Qed.

Lemma decode_loop_wire rs pre rest map fuel :
  Forall (fun r => (length r.2 <= 255)%nat) rs ->
  (length rs <= fuel)%nat ->
  decode_loop fuel (pre ++ wire rs ++ rest) (length pre) map =
  decode_loop (fuel - length rs) (pre ++ wire rs ++ rest) (length pre + length (wire rs))
    (foldl (fun map '(tag, c) => extend map tag c) map rs).
Proof.
  intros Hrs. revert pre map fuel. induction Hrs as [|[t c] rs Hc _ IH]; intros pre map fuel Hf.
  - simpl. by rewrite Nat.add_0_r, Nat.sub_0_r.
  - simpl in Hf, Hc. destruct fuel as [|fuel]; [lia|]. rewrite wire_cons. cbn [app length foldl].
    rewrite <- app_assoc, decode_loop_record by done.
    replace (pre ++ t :: bZ (len c) :: c ++ wire rs ++ rest)
      with ((pre ++ t :: bZ (len c) :: c) ++ wire rs ++ rest) by (by rewrite <- app_assoc).
    replace (length pre + 2 + length c)%nat with (length (pre ++ t :: bZ (len c) :: c))
      by (rewrite !length_app; simpl; lia).
    rewrite IH by lia. f_equal. rewrite !length_app. simpl. rewrite ?length_app. lia.
Qed.

Lemma push_all_wire items :
  push_all items = wire (concat ((fun '(tag, value) => records tag value) <$> items)).
Proof.
  unfold push_all, new. rewrite <- (app_nil_l (wire _)). generalize (@nil byte) as pre.
  induction items as [|[t v] items IH]; intros pre; simpl; [by rewrite app_nil_r|].
  rewrite IH, push_bytes_wire, <- app_assoc, <- wire_app. done.
Qed.

Lemma wire_length rs : (2 * length rs <= length (wire rs))%nat.
Proof. induction rs as [|[t c] rs IH]; [simpl; lia|]. rewrite wire_cons. simpl. rewrite length_app. lia. Qed.

(** The loop stops, without a panic, whatever bytes it is given. *)
Lemma decode_loop_total fuel buf i map :
  (0 < fuel)%nat -> (length buf < i + fuel)%nat -> exists m, decode_loop fuel buf i map = Ok m.
Proof.
  revert i map. induction fuel as [|fuel IH]; intros i map H0 Hf; [lia|]. cbn [decode_loop].
  destruct (i + 2 <=? length buf)%nat eqn:Hi; [|eauto].
  destruct (index_ok (E := Empty_set) buf i) as (t & -> & _); [lia|].
  destruct (index_ok (E := Empty_set) buf (i + 1)) as (b & -> & _); [lia|]. cbn [mbind outcome_bind].
  split_if; [eauto|]. rewrite slice_ok by lia. cbn [mbind outcome_bind]. apply IH; lia.
Qed.

Lemma decode_push_all items tail :
  (length tail < 2)%nat -> decode (push_all items ++ tail) = Ok (coalesce items).
Proof.
  intros Htail. rewrite push_all_wire. set (rs := concat _).
  assert (Forall (fun r => (length r.2 <= 255)%nat) rs) as Hrs.
  { apply Forall_concat, Forall_fmap, Forall_true. intros [t v]. apply records_short. }
  pose proof (wire_length rs) as Hl.
  assert (length (wire rs ++ tail) = length (wire rs) + length tail)%nat as Hlen by apply length_app.
  unfold decode. rewrite (decode_loop_wire rs [] tail ∅) by (done || lia).
  replace (S _ - _)%nat with (S (length (wire rs) + length tail - length rs)) by lia.
  cbn [decode_loop app]. rewrite (proj2 (Nat.leb_gt _ _)) by (simpl; lia).
  f_equal. unfold coalesce, rs. generalize (∅ : gmap byte bytes) as m. clear.
  induction items as [|[t v] items IH]; intros m; simpl; [done|].
  by rewrite foldl_app, extend_records, IH.
Qed.

(** TLV8 round trip: decoding what any sequence of [push_bytes] wrote gives,
    for every tag, the concatenation of the values pushed under it (values of
    more than 255 bytes are split into fragments and rejoined). A truncated
    final record is ignored. *)
Theorem tlv_roundtrip items tail :
  (length tail < 2)%nat ->
  decode (push_all items ++ tail) = Ok (coalesce items).
Proof. apply decode_push_all. Qed.

(** [TlvBuffer::decode] returns a map for every input: the loop terminates
    within its bound and no malformed length makes it read out of range. *)
Theorem tlv_decode_total buf : exists m, decode buf = Ok m.
Proof. apply decode_loop_total; lia. Qed.

(** Items of one tag are merged even when items of another tag stand
    between them: the decoder cannot tell [a; b; a'] from [a ++ a'; b]. *)
Theorem tlv_merges_nonadjacent t u a b a' :
  t <> u ->
  decode (push_all [(t, a); (u, b); (t, a')]) = decode (push_all [(t, a ++ a'); (u, b)]).
Proof.
  intros Htu. rewrite <- (app_nil_r (push_all [_; _; _])), <- (app_nil_r (push_all [_; _])).
  rewrite !decode_push_all by (simpl; lia). f_equal. apply map_eq. intros i.
  unfold coalesce, extend. simpl.
  destruct (decide (i = t)) as [->|]; [|destruct (decide (i = u)) as [->|]]; by simplify_map_eq.
Qed.

Lemma tlv_roundtrip_witness :
  decode (push_all [(x01, [x2a]); (x02, replicate 300 x07)] ++ [x05]) =
  Ok (coalesce [(x01, [x2a]); (x02, replicate 300 x07)]).
Proof. apply tlv_roundtrip. simpl. lia. Defined.

Lemma tlv_merges_nonadjacent_witness :
  decode (push_all [(x01, [x61]); (x02, [x62]); (x01, [x63])]) =
  decode (push_all [(x01, [x61; x63]); (x02, [x62])]).
Proof. apply (tlv_merges_nonadjacent x01 x02 [x61] [x62] [x63]). discriminate. Defined.

End Tlv.
