(* ===== verification/XpcMessage.v ===== *)
(** XPC wire messages ([crates/ios-core/src/xpc/message.rs]).

    The encoder is translated as it is written: it appends to [out] and patches
    the length word of a container once its elements are written. The decoder
    is a state-passing function over the [Bytes] cursor; as in [Opack], the
    [depth] argument is counted down from [MAX_XPC_NESTING_DEPTH]. An [f64] is
    its 64-bit pattern, a [String] its UTF-8 bytes, an [IndexMap] an
    association list in insertion order. [usize] has 64 bits. *)

From S2P Require Import Prelude Utf8.

Module Xpc.

Definition WRAPPER_MAGIC : Z := 0x29B00B92.
Definition OBJECT_MAGIC : Z := 0x42133742.
Definition BODY_VERSION : Z := 0x00000005.

Definition XPC_CONTROL_BODY_LIMIT : Z := 8 * 1024 * 1024.
Definition XPC_DATA_STREAM_BODY_LIMIT : Z := 64 * 1024 * 1024.
Definition XPC_PENDING_BUFFER_LIMIT : Z := XPC_DATA_STREAM_BODY_LIMIT + 24.

Definition ALWAYS_SET : Z := 0x00000001.
Definition DATA : Z := 0x00000100.
Definition HEARTBEAT_REQUEST : Z := 0x00010000.
Definition HEARTBEAT_REPLY : Z := 0x00020000.
Definition FILE_TX_STREAM_REQUEST : Z := 0x00100000.
Definition FILE_TX_STREAM_RESPONSE : Z := 0x00200000.
Definition INIT_HANDSHAKE : Z := 0x00400000.

Inductive XpcError : Type :=
| XpcIo (m : msg)
| NotConnected
| ServiceNotFound (name : bytes)
| Tls (m : msg).

Definition xpc_body_limit_for_flags (message_flags : Z) : Z :=
  if negb (Z.land message_flags (Z.lor FILE_TX_STREAM_REQUEST FILE_TX_STREAM_RESPONSE) =? 0)
  then XPC_DATA_STREAM_BODY_LIMIT else XPC_CONTROL_BODY_LIMIT.

Definition checked_xpc_body_len (declared limit : Z) : outcome msg Z :=
  if usize_max <? declared
  then Err (Msg "XPC body length {declared} exceeds usize::MAX" [declared])
  else if limit <? declared
  then Err (Msg "XPC body length {declared} exceeds limit {limit}" [declared; limit])
  else Ok declared.

(** [.map_err(XpcError::Tls)] *)
Definition map_err_tls {A} (o : outcome msg A) : outcome XpcError A :=
  match o with
  | Ok a => Ok a
  | Err m => Err (Tls m)
  | Panic => Panic
  | Pending => Pending
  | OutOfFuel => OutOfFuel
  end.

Inductive XpcValue : Type :=
| Null
| Bool (b : bool)
| Int64 (n : Z)
| Uint64 (n : Z)
| Double (bits : Z)
| Date (n : Z)
| Data (d : bytes)
| String (s : bytes)
| Uuid (u : bytes)
| Array (arr : list XpcValue)
| Dictionary (map : list (bytes * XpcValue))
| FileTransfer (msg_id : Z) (data : XpcValue).

Record XpcMessage := mkMessage { flags : Z; msg_id : Z; body : option XpcValue }.

Definition as_str (v : XpcValue) : option bytes := match v with String s => Some s | _ => None end.
Definition as_dict (v : XpcValue) : option (list (bytes * XpcValue)) := match v with Dictionary d => Some d | _ => None end.
Definition as_uint64 (v : XpcValue) : option Z := match v with Uint64 n => Some n | _ => None end.
Definition as_file_transfer (v : XpcValue) : option (Z * XpcValue) :=
  match v with FileTransfer id data => Some (id, data) | _ => None end.

Definition TYPE_NULL : Z := 0x00001000.
Definition TYPE_BOOL : Z := 0x00002000.
Definition TYPE_INT64 : Z := 0x00003000.
Definition TYPE_UINT64 : Z := 0x00004000.
Definition TYPE_DOUBLE : Z := 0x00005000.
Definition TYPE_DATE : Z := 0x00007000.
Definition TYPE_DATA : Z := 0x00008000.
Definition TYPE_STRING : Z := 0x00009000.
Definition TYPE_UUID : Z := 0x0000A000.
Definition TYPE_ARRAY : Z := 0x0000E000.
Definition TYPE_DICTIONARY : Z := 0x0000F000.
Definition TYPE_FILE_TRANSFER : Z := 0x0001A000.

(** ** Encoder *)

Definition checked_collection_len (kind : string) (len : Z) : outcome XpcError Z :=
  if u32_max <? len
  then Err (Tls (Msg ("XPC " +:+ kind +:+ " encoded size exceeds u32::MAX: {len}") [len])) else Ok len.
Definition checked_u32_len (kind : string) (len : Z) : outcome XpcError Z :=
  if u32_max <? len
  then Err (Tls (Msg ("XPC " +:+ kind +:+ " length exceeds u32::MAX: {len}") [len])) else Ok len.
Definition checked_u64_len (kind : string) (len : Z) : outcome XpcError Z :=
  if 2 ^ 64 - 1 <? len
  then Err (Tls (Msg ("XPC " +:+ kind +:+ " length exceeds u64::MAX: {len}") [len])) else Ok len.
Definition checked_align4 (kind : string) (len : Z) : outcome XpcError Z :=
  if usize_max <? len + 3
  then Err (Tls (Msg ("XPC " +:+ kind +:+ " padded length overflow: {len}") [len]))
  else Ok (Z.land (len + 3) (Z.lnot 3)).
(** [len.checked_add(1).ok_or_else(..)] *)
Definition checked_succ (len : Z) (text : string) : outcome XpcError Z :=
  if usize_max <? len + 1 then Err (Tls (Msg text [])) else Ok (len + 1).

Definition zeros (n : Z) : bytes := replicate (Z.to_nat n) x00.

Definition encode_dict_key (key : bytes) (out : bytes) : outcome XpcError bytes :=
  let out := out ++ key ++ [bZ 0] in
  total ← checked_succ (len key) "XPC dict key length overflow";
  padded ← checked_align4 "dict key" total;
  Ok (out ++ zeros (padded - total)).

Fixpoint encode_value (val : XpcValue) (out : bytes) {struct val} : outcome XpcError bytes :=
  match val with
  | Null => Ok (out ++ le_bytes 4 TYPE_NULL)
  | Bool b => Ok (out ++ le_bytes 4 TYPE_BOOL ++ [bZ (if b then 1 else 0); bZ 0; bZ 0; bZ 0])
  | Int64 n => Ok (out ++ le_bytes 4 TYPE_INT64 ++ le_bytes 8 n)
  | Uint64 n => Ok (out ++ le_bytes 4 TYPE_UINT64 ++ le_bytes 8 n)
  | Double f => Ok (out ++ le_bytes 4 TYPE_DOUBLE ++ le_bytes 8 f)
  | Date n => Ok (out ++ le_bytes 4 TYPE_DATE ++ le_bytes 8 n)
  | Data d =>
      let out := out ++ le_bytes 4 TYPE_DATA in
      n ← checked_u32_len "data" (len d);
      let out := out ++ le_bytes 4 n ++ d in
      padded ← checked_align4 "data" (len d);
      Ok (out ++ zeros (padded - len d))
  | String s =>
      let out := out ++ le_bytes 4 TYPE_STRING in
      total ← checked_succ (len s) "XPC string length overflow";
      n ← checked_u32_len "string" total;
      let out := out ++ le_bytes 4 n ++ s in
      padded ← checked_align4 "string" total;
      Ok (out ++ zeros (padded - len s))
  | Uuid u => Ok (out ++ le_bytes 4 TYPE_UUID ++ u)
  | Array arr =>
      let out := out ++ le_bytes 4 TYPE_ARRAY in
      let len_pos := length out in
      let out := out ++ le_bytes 4 0 in
      let start := length out in
      count ← checked_u32_len "array count" (len arr);
      let out := out ++ le_bytes 4 count in
      out ← foldM (fun v out => encode_value v out) arr out;
      n ← checked_collection_len "array" (len out - Z.of_nat start);
      copy_at out len_pos (le_bytes 4 n)
  | Dictionary map =>
      let out := out ++ le_bytes 4 TYPE_DICTIONARY in
      let len_pos := length out in
      let out := out ++ le_bytes 4 0 in
      let start := length out in
      count ← checked_u32_len "dict count" (len map);
      let out := out ++ le_bytes 4 count in
      out ← foldM (fun '(k, v) out => out ← encode_dict_key k out; encode_value v out) map out;
      n ← checked_collection_len "dict" (len out - Z.of_nat start);
      copy_at out len_pos (le_bytes 4 n)
  | FileTransfer id data =>
      encode_value data (out ++ le_bytes 4 TYPE_FILE_TRANSFER ++ le_bytes 8 id)
  end.

Definition encode_message (m : XpcMessage) : outcome XpcError bytes :=
  body_buf ← match body m with
             | Some v => encode_value v (le_bytes 4 OBJECT_MAGIC ++ le_bytes 4 BODY_VERSION)
             | None => Ok []
             end;
  n ← checked_u64_len "body" (len body_buf);
  Ok (le_bytes 4 WRAPPER_MAGIC ++ le_bytes 4 (flags m) ++ le_bytes 8 n ++
      le_bytes 8 (msg_id m) ++ body_buf).

(** ** Decoder *)

Definition MAX_XPC_NESTING_DEPTH : nat := 64.
Definition MAX_XPC_COLLECTION_SIZE : Z := 65536.

(** [if buf.remaining() < n { return Err(..) }] *)
Definition need (n : nat) (text : string) : st bytes XpcError unit := fun buf =>
  if (length buf <? n)%nat then (buf, Err (Tls (Msg text []))) else (buf, Ok tt).

(** [iter().position(|&b| b == 0)] *)
Fixpoint nul_position (buf : bytes) : option nat :=
  match buf with
  | [] => None
  | b :: buf => if Zb b =? 0 then Some O else S <$> nul_position buf
  end.

Definition utf8 (raw : bytes) (text : string) : st bytes XpcError bytes :=
  if from_utf8 raw then mret raw else st_fail (Tls (Msg text [])).

Definition decode_dict_key : st bytes XpcError bytes :=
  buf ← st_get;
  match nul_position buf with
  | None => st_fail (Tls (Msg "XPC: unterminated dictionary key" []))
  | Some nul_pos =>
      raw ← buf_take nul_pos;
      need 1 "XPC: dict key terminator truncated" ;;
      buf_advance 1 ;;
      let total := Z.of_nat nul_pos + 1 in
      padded ← st_lift (checked_align4 "dict key" total);
      let pad := Z.to_nat (padded - total) in
      need pad "XPC: dict key padding truncated" ;;
      buf_advance pad ;;
      utf8 raw "XPC: invalid UTF-8 in dict key"
  end.

(** The length-prefixed, zero-padded payload of [TYPE_DATA] and [TYPE_STRING]. *)
Definition decode_padded (kind : string) : st bytes XpcError bytes :=
  need 4 ("XPC: " +:+ kind +:+ " length truncated") ;;
  data_len ← get_u32_le;
  padded ← st_lift (checked_align4 kind data_len);
  need (Z.to_nat padded) ("XPC: " +:+ kind +:+ " truncated") ;;
  data ← buf_take (Z.to_nat data_len);
  buf_advance (Z.to_nat (padded - data_len)) ;;
  mret data.

(** The header of [TYPE_ARRAY] and [TYPE_DICTIONARY]; the recorded byte length
    is skipped, the entry count is bounded. *)
Definition decode_count (header count_text : string) : st bytes XpcError nat :=
  need 8 header ;;
  get_u32_le ;;
  need 4 count_text ;;
  count ← get_u32_le;
  if MAX_XPC_COLLECTION_SIZE <? count
  then st_fail (Tls (Msg "XPC collection too large: {count}" [count]))
  else mret (Z.to_nat count).

(** [for _ in 0..count { let key = ..; let val = ..; map.insert(key, val); }] *)
Fixpoint decode_entries (rec : st bytes XpcError XpcValue) (count : nat)
  (map : list (bytes * XpcValue)) : st bytes XpcError (list (bytes * XpcValue)) :=
  match count with
  | O => mret map
  | S count =>
      key ← decode_dict_key;
      val ← rec;
      decode_entries rec count (imap_insert key val map)
  end.

(** The body of [decode_value_at_depth] after the depth guard. *)
Definition decode_value_body (rec : st bytes XpcError XpcValue) : st bytes XpcError XpcValue :=
  need 4 "XPC: value too short" ;;
  type_tag ← get_u32_le;
  if type_tag =? TYPE_NULL then mret Null
  else if type_tag =? TYPE_BOOL then
    need 4 "XPC: bool truncated" ;;
    value ← get_u8; buf_advance 3 ;; mret (Bool (negb (value =? 0)))
  else if type_tag =? TYPE_INT64 then
    need 8 "XPC: i64 truncated" ;; n ← get_i64_le; mret (Int64 n)
  else if type_tag =? TYPE_UINT64 then
    need 8 "XPC: u64 truncated" ;; n ← get_u64_le; mret (Uint64 n)
  else if type_tag =? TYPE_DOUBLE then
    need 8 "XPC: f64 truncated" ;; n ← get_u64_le; mret (Double n)
  else if type_tag =? TYPE_DATE then
    need 8 "XPC: date truncated" ;; n ← get_i64_le; mret (Date n)
  else if type_tag =? TYPE_DATA then
    data ← decode_padded "data"; mret (Data data)
  else if type_tag =? TYPE_STRING then
    raw ← decode_padded "string";
    let end_ := default (length raw) (nul_position raw) in
    s ← utf8 (take end_ raw) "XPC: invalid UTF-8 in string";
    mret (String s)
  else if type_tag =? TYPE_UUID then
    need 16 "XPC: uuid truncated" ;; u ← buf_take 16; mret (Uuid u)
  else if type_tag =? TYPE_ARRAY then
    count ← decode_count "XPC: array header truncated" "XPC: array count truncated";
    arr ← repeatM count rec; mret (Array arr)
  else if type_tag =? TYPE_DICTIONARY then
    count ← decode_count "XPC: dict header truncated" "XPC: dict count truncated";
    map ← decode_entries rec count []; mret (Dictionary map)
  else if type_tag =? TYPE_FILE_TRANSFER then
    need 8 "XPC: file transfer truncated" ;;
    id ← get_u64_le; data ← rec; mret (FileTransfer id data)
  else st_fail (Tls (Msg "XPC: unknown type 0x{other:08X}" [type_tag])).

Definition nesting_error : XpcError :=
  Tls (Msg "XPC: nesting exceeds {MAX_XPC_NESTING_DEPTH} levels" [Z.of_nat MAX_XPC_NESTING_DEPTH]).

Fixpoint decode_value_levels (levels : nat) : st bytes XpcError XpcValue :=
  match levels with
  | O => st_fail nesting_error
  | S levels => decode_value_body (decode_value_levels levels)
  end.

Definition decode_value_at_depth (depth : nat) : st bytes XpcError XpcValue :=
  decode_value_levels (MAX_XPC_NESTING_DEPTH + 1 - depth).
Definition decode_value : st bytes XpcError XpcValue := decode_value_at_depth 0.

(** Object magic, protocol version and the value. *)
Definition decode_object : st bytes XpcError XpcValue :=
  obj_magic ← get_u32_le;
  if negb (obj_magic =? OBJECT_MAGIC)
  then st_fail (Tls (Msg "XPC: bad object magic 0x{obj_magic:08X}" [obj_magic])) else
  version ← get_u32_le;
  if negb (version =? BODY_VERSION)
  then st_fail (Tls (Msg "XPC: bad body version 0x{version:08X}" [version])) else
  decode_value.

Definition decode_body (body_len : Z) : st bytes XpcError XpcValue :=
  buf ← st_get;
  if len buf <? body_len
  then st_fail (Tls (Msg "XPC: body truncated: header declares {} bytes, {} available"
                      [body_len; len buf])) else
  body_buf ← buf_take (Z.to_nat body_len);
  if len body_buf <? 8
  then st_fail (Tls (Msg "XPC: body header truncated: {body_len} bytes, need at least 8"
                      [body_len])) else
  st_lift (snd (decode_object body_buf)).

Definition decode_message_st : st bytes XpcError XpcMessage :=
  need 4 "XPC: buffer too short for magic" ;;
  magic ← get_u32_le;
  if negb (magic =? WRAPPER_MAGIC)
  then st_fail (Tls (Msg "XPC: bad magic 0x{magic:08X}" [magic])) else
  need 20 "XPC: buffer too short for header" ;;
  flags ← get_u32_le;
  declared_body_len ← get_u64_le;
  msg_id ← get_u64_le;
  body_len ← st_lift (map_err_tls
    (checked_xpc_body_len declared_body_len (xpc_body_limit_for_flags flags)));
  body ← (if 0 <? body_len then v ← decode_body body_len; mret (Some v) else mret None);
  mret (mkMessage flags msg_id body).
Definition decode_message (buf : bytes) : outcome XpcError XpcMessage := snd (decode_message_st buf).

(** ** Incremental reassembly: [XpcMessageBuffer] *)

Record XpcMessageBuffer := mkBuffer { pending : bytes }.
Definition buffer_new : XpcMessageBuffer := mkBuffer [].

Definition push (bs : bytes) : st XpcMessageBuffer XpcError unit := fun self =>
  let new_len := len (pending self) + len bs in
  if usize_max <? new_len
  then (self, Err (Tls (Msg "XPC pending buffer length overflow: current {}, incoming {}"
                          [len (pending self); len bs])))
  else if XPC_PENDING_BUFFER_LIMIT <? new_len
  then (self, Err (Tls (Msg "XPC pending buffer length {new_len} exceeds limit {}"
                          [new_len; XPC_PENDING_BUFFER_LIMIT])))
  else (mkBuffer (pending self ++ bs), Ok tt).

Definition try_next : st XpcMessageBuffer XpcError (option XpcMessage) := fun self =>
  let pending := pending self in
  if len pending <? 24 then (self, Ok None) else
  match declared ← slice pending 8 16;
        flags ← slice pending 4 8;
        map_err_tls (checked_xpc_body_len (le_Z declared) (xpc_body_limit_for_flags (le_Z flags))) with
  | Ok body_len =>
      let total_len := 24 + body_len in
      if usize_max <? total_len
      then (self, Err (Tls (Msg "XPC: message length overflow" [])))
      else if len pending <? total_len then (self, Ok None)
      else (mkBuffer (drop (Z.to_nat total_len) pending),
            Some <$> decode_message (take (Z.to_nat total_len) pending))
  | Err e => (self, Err e)
  | Panic => (self, Panic)
  | Pending => (self, Pending)
  | OutOfFuel => (self, OutOfFuel)
  end.

(** ** Well-formed values

    [wf] is what the Rust types and the decoder establish; strings and keys
    hold no NUL, because the wire format terminates them with one. [fits] is
    the width and nesting the decoder accepts. *)
Section value_ind.
Variable P : XpcValue -> Prop.
Hypotheses (HNull : P Null) (HBool : forall b, P (Bool b)) (HInt64 : forall n, P (Int64 n))
  (HUint64 : forall n, P (Uint64 n)) (HDouble : forall n, P (Double n))
  (HDate : forall n, P (Date n)) (HData : forall d, P (Data d))
  (HString : forall s, P (String s)) (HUuid : forall u, P (Uuid u))
  (HArray : forall arr, Forall P arr -> P (Array arr))
  (HDict : forall map, Forall (fun kv => P kv.2) map -> P (Dictionary map))
  (HFile : forall id v, P v -> P (FileTransfer id v)).

Fixpoint XpcValue_nested_ind (v : XpcValue) : P v :=
  match v with
  | Null => HNull
  | Bool b => HBool b
  | Int64 n => HInt64 n
  | Uint64 n => HUint64 n
  | Double n => HDouble n
  | Date n => HDate n
  | Data d => HData d
  | String s => HString s
  | Uuid u => HUuid u
  | Array arr => HArray arr
      ((fix go l : Forall P l :=
          match l with
          | [] => Forall_nil_2 P
          | v :: l => Forall_cons_2 _ _ _ (XpcValue_nested_ind v) (go l)
          end) arr)
  | Dictionary map => HDict map
      ((fix go l : Forall (fun kv => P kv.2) l :=
          match l with
          | [] => Forall_nil_2 _
          | kv :: l =>
              Forall_cons_2 (fun kv => P kv.2) kv l (XpcValue_nested_ind kv.2) (go l)
          end) map)
  | FileTransfer id v => HFile id v (XpcValue_nested_ind v)
  end.
End value_ind.

Definition cstring (s : bytes) : Prop := from_utf8 s = true /\ nul_position s = None.

Fixpoint wf (v : XpcValue) : Prop :=
  match v with
  | Int64 n | Date n => in_i 64 n
  | Uint64 n | Double n => in_u 64 n
  | String s => cstring s
  | Uuid u => length u = 16%nat
  | Array arr => foldr (fun v P => wf v /\ P) True arr
  | Dictionary map => NoDup map.*1 /\ foldr (fun kv P => (cstring kv.1 /\ wf kv.2) /\ P) True map
  | FileTransfer id v => in_u 64 id /\ wf v
  | _ => True
  end.

Fixpoint fits (levels : nat) (v : XpcValue) {struct v} : Prop :=
  (0 < levels)%nat /\
  match v with
  | Array arr =>
      len arr <= MAX_XPC_COLLECTION_SIZE /\ foldr (fun v P => fits (pred levels) v /\ P) True arr
  | Dictionary map =>
      len map <= MAX_XPC_COLLECTION_SIZE /\ foldr (fun kv P => fits (pred levels) kv.2 /\ P) True map
  | FileTransfer _ v => fits (pred levels) v
  | _ => True
  end.

Lemma foldr_Forall {A} (Q : A -> Prop) (l : list A) :
  foldr (fun a P => Q a /\ P) True l <-> Forall Q l.
Proof.
  induction l as [|a l IH]; simpl; [split; [constructor|done]|].
  rewrite IH, Forall_cons. done.
Qed.

(** ** The decoder returns on every input, and returns well-formed values *)

(** Nothing but the remaining bytes, which only shrink, changes. *)
Definition shrinks {A} (P : A -> Prop) (buf : bytes) (a : A) (buf' : bytes) : Prop :=
  (length buf' <= length buf)%nat /\ P a.

Lemma wp_need n text (Q : unit -> bytes -> Prop) buf :
  ((n <= length buf)%nat -> Q tt buf) -> wp (need n text) Q buf.
Proof. intros H. unfold wp, need. split_if; [done|]. apply H. lia. Qed.
Lemma wp_take n (Q : bytes -> bytes -> Prop) buf :
  (n <= length buf)%nat -> Q (take n buf) (drop n buf) -> wp (E := XpcError) (buf_take n) Q buf.
Proof. intros H HQ. unfold wp. by rewrite buf_take_ok. Qed.
Lemma align4_eq n : Z.land (n + 3) (Z.lnot 3) = n + (- n) mod 4.
Proof.
  replace (Z.lnot 3) with (Z.lnot (Z.ones 2)) by reflexivity.
  rewrite <- Z.ldiff_land, Z.ldiff_ones_r by lia.
  rewrite Z.shiftr_div_pow2, Z.shiftl_mul_pow2 by lia. change (2 ^ 2) with 4.
  Z.div_mod_to_equations. lia.
Qed.
Lemma wp_align kind n (Q : Z -> bytes -> Prop) buf :
  (forall p, n <= p <= n + 3 -> Q p buf) -> wp (st_lift (checked_align4 kind n)) Q buf.
Proof.
  intros H. unfold wp, st_lift, checked_align4. split_if; [done|]. apply H.
  rewrite align4_eq. pose proof (Z.mod_pos_bound (- n) 4). lia.
Qed.

(** [wps] runs the decoder's primitive steps, keeping length facts in context. *)
Ltac wps :=
  repeat match goal with
    | |- wp (mbind _ _) _ _ => apply wp_bind
    | |- wp (need _ _) _ _ => apply wp_need; intros
    | |- wp (st_fail _) _ _ => apply wp_fail
    | |- wp (buf_take _) _ _ => apply wp_take; [rewrite ?length_drop in *; lia|]
    | |- wp (st_lift (checked_align4 _ _)) _ _ => apply wp_align; intros
    | |- wp (mret _) _ _ => apply wp_ret
    | |- _ => progress cbn beta
    end.

Lemma le_Z_take_u32 buf : (4 <= length buf)%nat -> in_u 32 (le_Z (take 4 buf)).
Proof.
  intros H. pose proof (le_Z_bound (take 4 buf)) as Hb. unfold len in Hb.
  rewrite length_take_le in Hb by done. exact Hb.
Qed.
Lemma le_Z_take_u64 buf : (8 <= length buf)%nat -> in_u 64 (le_Z (take 8 buf)).
Proof.
  intros H. pose proof (le_Z_bound (take 8 buf)) as Hb. unfold len in Hb.
  rewrite length_take_le in Hb by done. exact Hb.
Qed.

Lemma nul_position_take l : nul_position (take (default (length l) (nul_position l)) l) = None.
Proof.
  induction l as [|b l IH]; [done|]. cbn [nul_position]. destruct (Zb b =? 0) eqn:E; [done|].
  destruct (nul_position l) as [n|]; simpl in *; rewrite E, IH; done.
Qed.
Lemma nul_position_Some l n : nul_position l = Some n ->
  (n < length l)%nat /\ nul_position (take n l) = None.
Proof.
  intros H. pose proof (nul_position_take l) as Ht. rewrite H in Ht. split; [|done]. clear Ht.
  revert n H. induction l as [|b l IH]; intros n H; [done|]. cbn [nul_position] in H.
  destruct (Zb b =? 0); [injection H as <-; simpl; lia|].
  destruct (nul_position l) as [k|]; [|done]. injection H as <-. simpl. specialize (IH k eq_refl). lia.
Qed.

Lemma decode_padded_wp kind buf :
  wp (decode_padded kind) (shrinks (fun _ => True) buf) buf.
Proof.
  unfold decode_padded, get_u32_le, buf_advance. wps.
  pose proof (le_Z_take_u32 buf ltac:(lia)) as Hu. unfold in_u in Hu.
  rewrite length_drop in *. wps. split; [|done]. rewrite !length_drop. lia.
Qed.

Lemma decode_dict_key_wp buf :
  wp decode_dict_key (shrinks cstring buf) buf.
Proof.
  unfold decode_dict_key, buf_advance. apply wp_bind, wp_get.
  destruct (nul_position buf) as [n|] eqn:Hn; [|apply wp_fail].
  destruct (nul_position_Some _ _ Hn) as [Hlt Hnone]. wps.
  unfold utf8. destruct (from_utf8 (take n buf)) eqn:Hu; [|apply wp_fail].
  apply wp_ret. split; [rewrite ?length_drop in *; lia|done].
Qed.

Lemma decode_count_wp h t buf :
  wp (decode_count h t) (shrinks (fun n => Z.of_nat n <= MAX_XPC_COLLECTION_SIZE) buf) buf.
Proof.
  unfold decode_count, get_u32_le. wps. rewrite length_drop in *.
  pose proof (le_Z_take_u32 (drop 4 buf) ltac:(rewrite length_drop; lia)) as Hu. unfold in_u in Hu.
  split_if; [apply wp_fail|]. apply wp_ret. split; [rewrite !length_drop; lia|lia].
Qed.

Definition good (levels : nat) (v : XpcValue) : Prop := wf v /\ fits levels v.

Lemma repeatM_wp (rec : st bytes XpcError XpcValue) (P : XpcValue -> Prop) count buf :
  (forall buf, wp rec (shrinks P buf) buf) ->
  wp (repeatM count rec) (shrinks (fun l => length l = count /\ Forall P l) buf) buf.
Proof.
  intros Hrec. revert buf. induction count as [|count IH]; intros buf; cbn [repeatM].
  - apply wp_ret. split; [lia|]. by split; [|constructor].
  - apply wp_bind. eapply wp_mono; [|apply Hrec]. intros v b1 [H1 Hv].
    apply wp_bind. eapply wp_mono; [|apply IH]. intros l b2 (H2 & Hl & HP).
    apply wp_ret. split; [lia|]. split; [simpl; lia|by constructor].
Qed.

Lemma decode_entries_wp (rec : st bytes XpcError XpcValue) (P : XpcValue -> Prop) count map buf :
  (forall buf, wp rec (shrinks P buf) buf) ->
  NoDup map.*1 -> Forall (fun kv => cstring kv.1 /\ P kv.2) map ->
  wp (decode_entries rec count map)
    (shrinks (fun m => NoDup m.*1 /\ Forall (fun kv => cstring kv.1 /\ P kv.2) m /\
                       (length m <= length map + count)%nat) buf) buf.
Proof.
  intros Hrec. revert buf map. induction count as [|count IH]; intros buf map Hd Hf;
    cbn [decode_entries].
  - apply wp_ret. split; [lia|]. repeat split; auto; lia.
  - apply wp_bind. eapply wp_mono; [|apply decode_dict_key_wp]. intros k b1 [H1 Hk].
    apply wp_bind. eapply wp_mono; [|apply Hrec]. intros v b2 [H2 Hv].
    eapply wp_mono; [|apply IH; [by apply imap_insert_NoDup|by apply imap_insert_Forall]].
    intros m b3 (H3 & HN & HF & HL). split; [lia|]. repeat split; auto.
    pose proof (imap_insert_length k v map). lia.
Qed.

Lemma decode_value_body_wp levels rec buf :
  (forall buf, wp rec (shrinks (good levels) buf) buf) ->
  wp (decode_value_body rec) (shrinks (good (S levels)) buf) buf.
Proof.
  intros Hrec. unfold decode_value_body, get_u32_le, get_u64_le, get_i64_le, get_u8, buf_advance. wps.
  assert (length (drop 4 buf) <= length buf)%nat by (rewrite length_drop; lia).
  assert (forall (v : XpcValue) buf', (length buf' <= length (drop 4 buf))%nat -> wf v ->
            match v with Array _ | Dictionary _ | FileTransfer _ _ => fits (S levels) v | _ => True end ->
            shrinks (good (S levels)) buf v buf') as Hok.
  { intros v buf' Hl Hw Hf. split; [lia|]. split; [done|]. destruct v; try done; simpl; split; lia || done. }
  revert Hok. generalize (le_Z (take 4 buf)) as tag. generalize dependent (drop 4 buf).
  intros buf4 Hb tag Hok.
  split_ifs; wps; try (apply Hok; [rewrite ?length_drop in *; lia|simpl; auto|done]).
  - by apply signed_bound.
  - by apply le_Z_take_u64.
  - by apply le_Z_take_u64.
  - by apply signed_bound.
  - eapply wp_mono; [|apply decode_padded_wp]. intros d b1 [H1 _]. by apply wp_ret, Hok.
  - eapply wp_mono; [|apply decode_padded_wp]. intros d b1 [H1 _]. wps.
    unfold utf8. destruct (from_utf8 _) eqn:Hu; [|apply wp_fail].
    apply wp_ret, wp_ret, Hok; [done| |done]. split; [done|]. apply nul_position_take.
  - apply length_take_le. lia.
  - eapply wp_mono; [|apply decode_count_wp]. intros count b1 [H1 Hc]. wps.
    eapply wp_mono; [|by apply repeatM_wp]. intros l b2 (H2 & Hl & HP).
    apply wp_ret, Hok; [lia| |].
    + apply foldr_Forall. eapply Forall_impl; [exact HP|]. by intros v [Hw _].
    + split; [lia|]. split; [unfold len; lia|]. simpl. apply foldr_Forall.
      eapply Forall_impl; [exact HP|]. by intros v [_ Hf].
  - eapply wp_mono; [|apply decode_count_wp]. intros count b1 [H1 Hc]. wps.
    eapply wp_mono; [|by apply decode_entries_wp; [|apply NoDup_nil_2|constructor]].
    intros m b2 (H2 & HN & HP & Hl). apply wp_ret, Hok; [lia| |].
    + split; [done|]. apply foldr_Forall. eapply Forall_impl; [exact HP|]. by intros kv (Hk & Hw & _).
    + split; [lia|]. split; [unfold len; simpl in Hl; lia|]. simpl. apply foldr_Forall.
      eapply Forall_impl; [exact HP|]. by intros kv (_ & _ & Hf).
  - eapply wp_mono; [|apply Hrec]. intros v b1 (H1 & Hw & Hf).
    apply wp_ret, Hok; [rewrite length_drop in H1; lia| |].
    + split; [by apply le_Z_take_u64|done].
    + split; [lia|done].
Qed.

Lemma decode_value_levels_wp levels buf :
  wp (decode_value_levels levels) (shrinks (good levels) buf) buf.
Proof.
  revert buf. induction levels as [|levels IH]; intros buf; [apply wp_fail|].
  by apply decode_value_body_wp.
Qed.

Lemma decode_object_wp buf : (8 <= length buf)%nat ->
  wp decode_object (fun v _ => good (MAX_XPC_NESTING_DEPTH + 1) v) buf.
Proof.
  intros Hl. unfold decode_object, get_u32_le. wps. split_if; [apply wp_fail|]. wps.
  split_if; [apply wp_fail|].
  eapply wp_mono; [|apply decode_value_levels_wp]. by intros v b' [_ Hg].
Qed.

Lemma decode_body_wp n buf :
  wp (decode_body n) (fun v _ => good (MAX_XPC_NESTING_DEPTH + 1) v /\ n <= len buf) buf.
Proof.
  unfold decode_body. apply wp_bind, wp_get. split_if; [apply wp_fail|]. unfold len in *. wps.
  split_if; [apply wp_fail|]. unfold wp, st_lift.
  pose proof (decode_object_wp (take (Z.to_nat n) buf) ltac:(unfold len in *; lia)) as H.
  unfold wp in H. destruct (decode_object _) as [b' [v| | | |]]; try done. split; [done|unfold len; lia].
Qed.

Lemma wp_body_len declared limit (Q : Z -> bytes -> Prop) buf :
  (declared <= limit -> Q declared buf) ->
  wp (st_lift (map_err_tls (checked_xpc_body_len declared limit))) Q buf.
Proof.
  intros H. unfold wp, st_lift, checked_xpc_body_len. split_ifs; simpl; try done. apply H. lia.
Qed.

Definition message_wf (m : XpcMessage) : Prop :=
  in_u 32 (flags m) /\ in_u 64 (msg_id m) /\
  match body m with Some v => good (MAX_XPC_NESTING_DEPTH + 1) v | None => True end.

(** How deep a value is nested: the values inside a container are one level below it. *)
Fixpoint nesting (v : XpcValue) : nat :=
  match v with
  | Array arr => foldr (fun v n => max (S (nesting v)) n) O arr
  | Dictionary map => foldr (fun kv n => max (S (nesting kv.2)) n) O map
  | FileTransfer _ v => S (nesting v)
  | _ => O
  end.
Lemma fits_nesting v n : fits (S n) v -> (nesting v <= n)%nat.
Proof.
  revert n. induction v as [| | | | | |d|s|u|arr IH|m IH|id v IH] using XpcValue_nested_ind; intros levels; cbn [fits nesting pred]; try lia.
  - intros (_ & _ & H). induction IH as [|v arr Hv _ IHl]; cbn [foldr] in *; [lia|]. destruct H as [Hf H]. specialize (IHl H).
    destruct levels; [destruct v; cbn in Hf; lia|]. apply Hv in Hf. lia.
  - intros (_ & _ & H). induction IH as [|v arr Hv _ IHl]; cbn [foldr] in *; [lia|]. destruct H as [Hf H]. specialize (IHl H).
    destruct levels; [destruct (v.2); cbn in Hf; lia|]. apply Hv in Hf. lia.
  - intros (_ & H). destruct levels; [destruct v; cbn in H; lia|]. apply IH in H. lia.
Qed.

(** The fields of the 24-byte header. *)
Definition header_flags (buf : bytes) : Z := le_Z (take 4 (drop 4 buf)).
Definition header_body_len (buf : bytes) : Z := le_Z (take 8 (drop 8 buf)).
Definition header_msg_id (buf : bytes) : Z := le_Z (take 8 (drop 16 buf)).
(** The message is the one the header announces: it has a body just when the length is not
    zero, the length is within the limit for the flags, and the whole body is there. *)
Definition announced (buf : bytes) (m : XpcMessage) : Prop :=
  take 4 buf = le_bytes 4 WRAPPER_MAGIC /\ flags m = header_flags buf /\ msg_id m = header_msg_id buf /\
  header_body_len buf <= xpc_body_limit_for_flags (flags m) /\ 24 + header_body_len buf <= len buf /\
  (body m = None <-> header_body_len buf = 0).

Lemma decode_message_wp buf : wp decode_message_st (fun m _ => message_wf m /\ announced buf m) buf.
Proof.
  unfold decode_message_st, get_u32_le, get_u64_le. wps. split_if; [apply wp_fail|]. wps.
  rewrite length_drop in *.
  pose proof (le_Z_take_u32 (drop 4 buf) ltac:(rewrite length_drop; lia)) as Hf.
  pose proof (le_Z_take_u64 (drop 8 (drop 4 (drop 4 buf))) ltac:(rewrite !length_drop; lia)) as Hi.
  assert (take 4 buf = le_bytes 4 WRAPPER_MAGIC) as Hmagic.
  { assert (le_Z (take 4 buf) = WRAPPER_MAGIC) as <- by lia. symmetry. rewrite <- (le_bytes_le_Z (take 4 buf)) at 2. by rewrite length_take, Nat.min_l by lia. }
  assert (le_Z (take 8 (drop 4 (drop 4 buf))) = header_body_len buf) as -> by (by rewrite drop_drop).
  assert (le_Z (take 8 (drop 8 (drop 4 (drop 4 buf)))) = header_msg_id buf) as Eid by (by rewrite !drop_drop). rewrite Eid in *.
  fold (header_flags buf) in *. assert (0 <= header_body_len buf) as Hn by apply le_Z_bound.
  assert (len (drop 8 (drop 8 (drop 4 (drop 4 buf)))) = len buf - 24) as Hr by (rewrite !drop_drop; unfold len; rewrite length_drop; lia).
  revert Hr. generalize (drop 8 (drop 8 (drop 4 (drop 4 buf)))). intros rest Hr.
  apply wp_body_len. intros Hlim. wps. split_if; wps.
  - eapply wp_mono; [|apply decode_body_wp]. intros v b' [Hg Hl]. wps. split; [done|]. split_and!; try done; [lia|split; [done|cbn; lia]].
  - split; [done|]. pose proof (len_nonneg rest). split_and!; try done; [lia|split; [intros _; lia|done]].
Qed.

(** C22. [decode_message] is safe on hostile input. Every byte string gives a message or a
    protocol error, never an out-of-range read. A message it accepts is the one the header
    announces, with a body of the announced length within the limit for its flags; the body is
    well-formed (64-bit integers, UTF-8 strings without NUL, distinct keys), no collection in
    it has more than 65536 entries, and no value is more than 64 levels inside it. *)
Theorem xpc_decode_sound buf :
  match decode_message buf with
  | Ok m => message_wf m /\ announced buf m /\ (from_option nesting O (body m) <= MAX_XPC_NESTING_DEPTH)%nat
  | Err _ => True
  | _ => False
  end.
Proof.
  pose proof (decode_message_wp buf) as H. unfold decode_message. unfold wp in H. destruct (decode_message_st buf) as [b' [m| | | |]]; try done.
  destruct H as [Hm Ha]. split; [done|]. split; [done|]. destruct Hm as (_ & _ & Hb), (body m) as [v|]; cbn; [|lia].
  apply fits_nesting, Hb.
Qed.

(** ** Specification of the encoding

    The wire image of a value, written compositionally: no output buffer and no
    patching of length words. *)
Definition enc_key (k : bytes) : bytes := k ++ [bZ 0] ++ zeros ((- (len k + 1)) mod 4).

Fixpoint enc (v : XpcValue) : bytes :=
  match v with
  | Null => le_bytes 4 TYPE_NULL
  | Bool b => le_bytes 4 TYPE_BOOL ++ [bZ (if b then 1 else 0); bZ 0; bZ 0; bZ 0]
  | Int64 n => le_bytes 4 TYPE_INT64 ++ le_bytes 8 n
  | Uint64 n => le_bytes 4 TYPE_UINT64 ++ le_bytes 8 n
  | Double f => le_bytes 4 TYPE_DOUBLE ++ le_bytes 8 f
  | Date n => le_bytes 4 TYPE_DATE ++ le_bytes 8 n
  | Data d => le_bytes 4 TYPE_DATA ++ le_bytes 4 (len d) ++ d ++ zeros ((- len d) mod 4)
  | String s => le_bytes 4 TYPE_STRING ++ le_bytes 4 (len s + 1) ++ s ++
                zeros (1 + (- (len s + 1)) mod 4)
  | Uuid u => le_bytes 4 TYPE_UUID ++ u
  | Array arr =>
      let elems := le_bytes 4 (len arr) ++ concat (map enc arr) in
      le_bytes 4 TYPE_ARRAY ++ le_bytes 4 (len elems) ++ elems
  | Dictionary m =>
      let elems := le_bytes 4 (len m) ++ concat (map (fun kv => enc_key kv.1 ++ enc kv.2) m) in
      le_bytes 4 TYPE_DICTIONARY ++ le_bytes 4 (len elems) ++ elems
  | FileTransfer id v => le_bytes 4 TYPE_FILE_TRANSFER ++ le_bytes 8 id ++ enc v
  end.

Lemma len_zeros n : 0 <= n -> len (zeros n) = n.
Proof. intros H. unfold len, zeros. rewrite length_replicate. lia. Qed.

Lemma checked_align4_ok kind n :
  0 <= n -> n + 3 <= usize_max -> checked_align4 kind n = Ok (n + (- n) mod 4).
Proof. intros H0 H. unfold checked_align4. split_ifs. by rewrite align4_eq. Qed.

Lemma encode_dict_key_spec k out :
  len k + 4 <= usize_max -> encode_dict_key k out = Ok (out ++ enc_key k).
Proof.
  intros H. pose proof (len_nonneg k). unfold encode_dict_key, checked_succ. split_ifs. simpl.
  rewrite checked_align4_ok by lia. simpl. unfold enc_key.
  rewrite <- !app_assoc. simpl. do 5 f_equal. lia.
Qed.

Lemma foldM_concat {A} (f : A -> bytes -> outcome XpcError bytes) (g : A -> bytes) l out :
  Forall (fun a => forall out, f a out = Ok (out ++ g a)) l ->
  foldM f l out = Ok (out ++ concat (map g l)).
Proof.
  intros H. revert out. induction H as [|a l Ha _ IH]; intros out; simpl; [by rewrite app_nil_r|].
  rewrite Ha. simpl. rewrite IH. by rewrite <- app_assoc.
Qed.

(** Writing a container: the elements are appended and the length word patched. *)
Lemma patched_container {A} kind1 kind2 (ty : Z) (f : A -> bytes -> outcome XpcError bytes)
  (g : A -> bytes) (l : list A) out :
  Forall (fun a => forall out, f a out = Ok (out ++ g a)) l ->
  len l <= u32_max -> len (le_bytes 4 (len l) ++ concat (map g l)) <= u32_max ->
  (let out := out ++ le_bytes 4 ty in
   let len_pos := length out in
   let out := out ++ le_bytes 4 0 in
   let start := length out in
   count ← checked_u32_len kind1 (len l);
   let out := out ++ le_bytes 4 count in
   out ← foldM f l out;
   n ← checked_collection_len kind2 (len out - Z.of_nat start);
   copy_at out len_pos (le_bytes 4 n)) =
  Ok (out ++ le_bytes 4 ty ++
      le_bytes 4 (len (le_bytes 4 (len l) ++ concat (map g l))) ++
      le_bytes 4 (len l) ++ concat (map g l)).
Proof.
  intros Hf Hl Hn. cbv zeta. unfold checked_u32_len, checked_collection_len. split_if.
  cbn [mbind outcome_bind]. rewrite (foldM_concat _ g) by done. cbn [mbind outcome_bind].
  set (elems := le_bytes 4 (len l) ++ concat (map g l)) in *.
  replace (len ((((out ++ le_bytes 4 ty) ++ le_bytes 4 0) ++ le_bytes 4 (len l)) ++ concat (map g l))
           - Z.of_nat (length ((out ++ le_bytes 4 ty) ++ le_bytes 4 0))) with (len elems)
    by (unfold elems, len; rewrite !length_app, !length_le_bytes; lia).
  split_if. cbn [mbind outcome_bind].
  rewrite <- (app_assoc _ _ (concat _)). fold elems. rewrite <- (app_assoc (out ++ le_bytes 4 ty)).
  rewrite copy_at_app by (by rewrite !length_le_bytes). by rewrite <- app_assoc.
Qed.

Lemma len_concat_ge {A} (g : A -> bytes) (n : Z) (l : list A) :
  Forall (fun a => n <= len (g a)) l -> n * len l <= len (concat (map g l)).
Proof.
  induction 1 as [|a l Ha _ IH]; simpl; [unfold len; simpl; lia|].
  rewrite len_app. unfold len in *. simpl. lia.
Qed.
Lemma len_concat_in {A} (g : A -> bytes) (l : list A) (n : Z) :
  len (concat (map g l)) <= n -> Forall (fun a => len (g a) <= n) l.
Proof.
  induction l as [|a l IH]; simpl; [constructor|]. rewrite len_app.
  pose proof (len_nonneg (g a)). pose proof (len_nonneg (concat (map g l))).
  intros H1. constructor; [lia|]. apply IH. lia.
Qed.

Lemma enc_ge v : 4 <= len (enc v).
Proof.
  assert (forall ty rest, 4 <= len (le_bytes 4 ty ++ rest)) as H.
  { intros ty rest. rewrite len_app, len_le_bytes. pose proof (len_nonneg rest). lia. }
  destruct v; cbn [enc]; apply H || by rewrite len_le_bytes.
Qed.

(** The encoder writes the specified image, whatever the buffer already holds,
    as long as the image itself is below 4 GiB. *)
Lemma encode_value_spec v out : len (enc v) <= u32_max -> encode_value v out = Ok (out ++ enc v).
Proof.
  assert (u32_max + 8 <= usize_max) by done.
  revert out. induction v as [| | | | | |d|s|u|arr IH|m IH|id v IH] using XpcValue_nested_ind;
    intros out Hl; try done; cbn [enc encode_value] in *.
  - rewrite !len_app, !len_le_bytes in Hl. pose proof (len_nonneg d). pose proof (len_nonneg (zeros ((- len d) mod 4))).
    unfold checked_u32_len. split_if. cbn [mbind outcome_bind]. rewrite checked_align4_ok by lia.
    cbn [mbind outcome_bind]. rewrite <- !app_assoc. do 6 f_equal. lia.
  - rewrite !len_app, !len_le_bytes, len_zeros in Hl by (pose proof (Z.mod_pos_bound (- (len s + 1)) 4); lia).
    pose proof (len_nonneg s). pose proof (Z.mod_pos_bound (- (len s + 1)) 4).
    unfold checked_succ, checked_u32_len. do 2 (split_if; cbn [mbind outcome_bind]).
    rewrite checked_align4_ok by lia. cbn [mbind outcome_bind]. rewrite <- !app_assoc. do 6 f_equal. lia.
  - assert (len (le_bytes 4 (len arr) ++ concat (map enc arr)) <= u32_max) as Hb.
    { rewrite !len_app, !len_le_bytes in Hl. rewrite !len_app, !len_le_bytes. lia. }
    assert (Forall (fun v => 4 <= len (enc v)) arr) as H4 by (apply Forall_true, enc_ge).
    apply len_concat_ge in H4. rewrite len_app, len_le_bytes in Hb. pose proof (len_nonneg arr).
    apply (patched_container "array count" "array"); [|lia|by rewrite len_app, len_le_bytes].
    assert (len (concat (map enc arr)) <= u32_max) as Hc%len_concat_in by lia.
    eapply Forall_impl; [apply Forall_and; exact (conj IH Hc)|]. intros v [Hv Hv4] o. by apply Hv.
  - set (g := fun kv : bytes * XpcValue => enc_key kv.1 ++ enc kv.2) in *.
    assert (len (le_bytes 4 (len m) ++ concat (map g m)) <= u32_max) as Hb.
    { rewrite !len_app, !len_le_bytes in Hl. rewrite !len_app, !len_le_bytes. lia. }
    assert (Forall (fun kv => 4 <= len (g kv)) m) as H4.
    { apply Forall_true. intros kv. unfold g. rewrite len_app.
      pose proof (enc_ge kv.2). pose proof (len_nonneg (enc_key kv.1)). lia. }
    apply len_concat_ge in H4. rewrite len_app, len_le_bytes in Hb. pose proof (len_nonneg m).
    apply (patched_container "dict count" "dict"); [|lia|by rewrite len_app, len_le_bytes].
    assert (len (concat (map g m)) <= u32_max) as Hc%len_concat_in by lia.
    eapply Forall_impl; [apply Forall_and; exact (conj IH Hc)|]. intros [k v] [Hv Hkv] o. unfold g in Hkv. simpl in *.
    rewrite len_app in Hkv. pose proof (len_nonneg (enc v)). pose proof (len_nonneg (enc_key k)).
    rewrite encode_dict_key_spec by (unfold enc_key in Hkv; rewrite !len_app in Hkv;
      pose proof (len_nonneg (zeros ((- (len k + 1)) mod 4))); unfold len at 2 in Hkv; simpl in Hkv; lia).
    simpl. rewrite Hv by lia. by rewrite <- app_assoc.
  - rewrite !len_app, !len_le_bytes in Hl. rewrite IH by lia. by rewrite <- !app_assoc.
Qed.

(** ** Round trip *)

(** [p] reads [a] off the bytes [bs], leaving whatever follows. *)
Definition reads {A} (p : st bytes XpcError A) (bs : bytes) (a : A) : Prop :=
  forall rest, p (bs ++ rest) = (rest, Ok a).

Lemma reads_ret {A} (a : A) : reads (mret a) [] a.
Proof. done. Qed.
Lemma reads_bind {A B} (p : st bytes XpcError A) (f : A -> st bytes XpcError B) bs bs' a b :
  reads p bs a -> reads (f a) bs' b -> reads (p ≫= f) (bs ++ bs') b.
Proof. intros Hp Hf rest. rewrite <- app_assoc. by rewrite (st_bind_ok _ _ _ _ _ (Hp _)). Qed.
Lemma reads_map {A B} (p : st bytes XpcError A) (f : A -> B) bs a :
  reads p bs a -> reads (a ← p; mret (f a)) bs (f a).
Proof. intros Hp rest. by rewrite (st_bind_ok _ _ _ _ _ (Hp _)). Qed.
Lemma reads_map_eq {A B} (p : st bytes XpcError A) (f : A -> B) bs a b :
  reads p bs a -> f a = b -> reads (a ← p; mret (f a)) bs b.
Proof. intros Hp <-. by apply reads_map. Qed.
Lemma reads_need {A} n text (k : st bytes XpcError A) bs a :
  (n <= length bs)%nat -> reads k bs a -> reads (need n text ;; k) bs a.
Proof.
  intros Hn Hk rest. rewrite (st_bind_ok _ _ _ (bs ++ rest) tt); [apply Hk|].
  unfold need. rewrite (proj2 (Nat.ltb_ge _ _)); [done|]. rewrite length_app. lia.
Qed.
Lemma reads_take n bs : length bs = n -> reads (buf_take n) bs bs.
Proof. intros H rest. by apply buf_take_app. Qed.
Lemma reads_advance n bs : length bs = n -> reads (buf_advance n) bs tt.
Proof. intros H. unfold buf_advance. by eapply (reads_map _ (fun _ => tt)), reads_take. Qed.
Lemma reads_u32 v : in_u 32 v -> reads get_u32_le (le_bytes 4 v) v.
Proof. intros H rest. by apply get_u32_le_app. Qed.
Lemma reads_u64 v : in_u 64 v -> reads get_u64_le (le_bytes 8 v) v.
Proof. intros H rest. by apply get_u64_le_app. Qed.
Lemma reads_i64 v : in_i 64 v -> reads get_i64_le (le_bytes 8 v) v.
Proof. intros H rest. by apply get_i64_le_app. Qed.
Lemma reads_lift {A B} (o : outcome XpcError A) (f : A -> st bytes XpcError B) bs a b :
  o = Ok a -> reads (f a) bs b -> reads (st_lift o ≫= f) bs b.
Proof. intros -> Hf rest. exact (Hf rest). Qed.

Lemma reads_padded kind d : len d <= u32_max ->
  reads (decode_padded kind) (le_bytes 4 (len d) ++ d ++ zeros ((- len d) mod 4)) d.
Proof.
  intros Hd. pose proof (len_nonneg d). pose proof (Z.mod_pos_bound (- len d) 4 ltac:(lia)) as Hm.
  unfold decode_padded. apply reads_need; [rewrite length_app, length_le_bytes; lia|].
  eapply reads_bind; [apply reads_u32; unfold in_u, u32_max in *; lia|].
  eapply reads_lift; [apply checked_align4_ok; [done|unfold u32_max, usize_max in *; lia]|].
  assert (length d + length (zeros ((- len d) mod 4)) = Z.to_nat (len d + (- len d) mod 4))%nat as Hl.
  { unfold zeros. rewrite length_replicate. unfold len in *. lia. }
  apply reads_need; [rewrite length_app; lia|].
  eapply reads_bind; [apply reads_take; unfold len; lia|].
  rewrite <- (app_nil_r (zeros _)). eapply reads_bind; [apply reads_advance|apply reads_ret].
  unfold zeros. rewrite length_replicate. f_equal. lia.
Qed.

Lemma nul_position_app s rest : nul_position s = None -> nul_position (s ++ x00 :: rest) = Some (length s).
Proof.
  induction s as [|b s IH]; [done|]. cbn [nul_position app length].
  destruct (Zb b =? 0); [done|]. destruct (nul_position s); [done|]. intros _. by rewrite IH.
Qed.

Lemma reads_dict_key k : cstring k -> len k + 4 <= usize_max -> reads decode_dict_key (enc_key k) k.
Proof.
  intros [Hu Hn] Hl rest. pose proof (len_nonneg k). unfold enc_key, decode_dict_key.
  pose proof (Z.mod_pos_bound (- (len k + 1)) 4 ltac:(lia)) as Hm.
  rewrite st_bind_get. rewrite <- !app_assoc. change (bZ 0) with x00.
  cbn [app]. rewrite nul_position_app by done.
  change (x00 :: zeros ?z ++ ?r) with ([x00] ++ zeros z ++ r).
  rewrite (st_bind_ok _ _ _ _ _ (buf_take_app _ k _ eq_refl)).
  cut (reads (need 1 "XPC: dict key terminator truncated";; buf_advance 1;;
    padded ← st_lift (checked_align4 "dict key" (Z.of_nat (length k) + 1));
    need (Z.to_nat (padded - (Z.of_nat (length k) + 1))) "XPC: dict key padding truncated";;
    buf_advance (Z.to_nat (padded - (Z.of_nat (length k) + 1)));;
    utf8 k "XPC: invalid UTF-8 in dict key") ([x00] ++ zeros ((- (len k + 1)) mod 4)) k).
  { intros H'. specialize (H' rest). rewrite <- app_assoc in H'. exact H'. }
  apply reads_need; [simpl; lia|]. eapply reads_bind; [by apply reads_advance|].
  eapply reads_lift; [apply checked_align4_ok; unfold len in *; lia|]. fold (len k).
  replace (len k + 1 + (- (len k + 1)) mod 4 - (len k + 1)) with ((- (len k + 1)) mod 4) by lia.
  apply reads_need; [unfold zeros; rewrite length_replicate; lia|].
  rewrite <- (app_nil_r (zeros _)).
  eapply reads_bind; [apply reads_advance; unfold zeros; by rewrite length_replicate|].
  unfold utf8. rewrite Hu. apply reads_ret.
Qed.

Lemma reads_repeatM {A} (rec : st bytes XpcError A) (g : A -> bytes) (l : list A) :
  Forall (fun a => reads rec (g a) a) l -> reads (repeatM (length l) rec) (concat (map g l)) l.
Proof.
  induction 1 as [|a l Ha _ IH]; [apply reads_ret|]. cbn [length repeatM map concat].
  eapply reads_bind; [exact Ha|]. by apply (reads_map _ (fun l => a :: l)).
Qed.

Lemma reads_entries rec (m acc : list (bytes * XpcValue)) :
  Forall (fun kv => cstring kv.1 /\ len kv.1 + 4 <= usize_max /\ reads rec (enc kv.2) kv.2) m ->
  NoDup (acc ++ m).*1 ->
  reads (decode_entries rec (length m) acc) (concat (map (fun kv => enc_key kv.1 ++ enc kv.2) m)) (acc ++ m).
Proof.
  intros Hm. revert acc. induction Hm as [|[k v] m (Hk & Hl & Hv) _ IH]; intros acc Hd.
  - rewrite app_nil_r. apply reads_ret.
  - cbn [length decode_entries map concat]. rewrite <- app_assoc.
    eapply reads_bind; [by apply reads_dict_key|]. eapply reads_bind; [exact Hv|].
    assert (acc ++ (k, v) :: m = (acc ++ [(k, v)]) ++ m) as Heq by (by rewrite <- app_assoc).
    rewrite Heq in *. rewrite imap_insert_fresh; [by apply IH|].
    rewrite fmap_app, fmap_app, <- app_assoc in Hd. apply NoDup_app in Hd as (_ & Hd & _).
    intros Hin. apply (Hd k Hin). simpl. by left.
Qed.

(** Selects the branch of a type tag known by its constant. *)
Ltac eval_tags :=
  cbv beta;
  repeat match goal with
    | |- context [if ?a =? ?b then ?x else ?y] =>
        let r := eval vm_compute in (a =? b) in
        lazymatch r with
        | true => change (if a =? b then x else y) with x
        | false => change (if a =? b then x else y) with y
        end
    end.
Ltac tag_branch :=
  unfold decode_value_body; apply reads_need;
  [rewrite ?length_app, length_le_bytes; lia|];
  eapply reads_bind; [apply reads_u32; done|]; eval_tags.

Lemma reads_count h t n count rest_len :
  Z.of_nat n = count -> in_u 32 count -> count <= MAX_XPC_COLLECTION_SIZE -> in_u 32 rest_len ->
  reads (decode_count h t) (le_bytes 4 rest_len ++ le_bytes 4 count) n.
Proof.
  intros Hn Hu Hc Hr. unfold decode_count.
  apply reads_need; [rewrite length_app, !length_le_bytes; lia|].
  eapply reads_bind; [by apply reads_u32|]. apply reads_need; [by rewrite length_le_bytes|].
  rewrite <- (app_nil_r (le_bytes 4 count)). eapply reads_bind; [by apply reads_u32|].
  cbv beta. split_if. subst count. rewrite Nat2Z.id. apply reads_ret.
Qed.

Lemma decode_value_levels_reads v levels :
  wf v -> fits levels v -> len (enc v) <= u32_max -> reads (decode_value_levels levels) (enc v) v.
Proof.
  assert (u32_max + 8 <= usize_max) as Hmax by done.
  revert levels. induction v as [|b| | | | |d|s|u|arr IH|m IH|id v IH] using XpcValue_nested_ind;
    intros [|levels] Hw Hf Hl; try (destruct Hf; lia); cbn [decode_value_levels enc] in *;
    [rewrite <- (app_nil_r (le_bytes 4 TYPE_NULL))|..]; tag_branch.
  - apply reads_ret.
  - apply reads_need; [simpl; lia|]. by destruct b.
  - apply reads_need; [by rewrite length_le_bytes|]. by apply (reads_map _ Int64), reads_i64.
  - apply reads_need; [by rewrite length_le_bytes|]. by apply (reads_map _ Uint64), reads_u64.
  - apply reads_need; [by rewrite length_le_bytes|]. by apply (reads_map _ Double), reads_u64.
  - apply reads_need; [by rewrite length_le_bytes|]. by apply (reads_map _ Date), reads_i64.
  - rewrite !len_app, !len_le_bytes in Hl. pose proof (len_nonneg (zeros ((- len d) mod 4))).
    apply (reads_map _ Data), reads_padded. lia.
  - destruct Hw as [Hu Hn]. pose proof (Z.mod_pos_bound (- (len s + 1)) 4 ltac:(lia)).
    assert (len (s ++ [x00]) = len s + 1) as Hlen by (by rewrite len_app).
    rewrite !len_app, !len_le_bytes, len_zeros in Hl by lia.
    replace (le_bytes 4 (len s + 1) ++ s ++ zeros (1 + (- (len s + 1)) mod 4))
      with ((le_bytes 4 (len (s ++ [x00])) ++ (s ++ [x00]) ++ zeros ((- len (s ++ [x00])) mod 4)) ++ []).
    + eapply reads_bind; [apply reads_padded; lia|]. cbv zeta.
      rewrite nul_position_app by done. simpl. rewrite take_app_length. unfold utf8. rewrite Hu.
      apply reads_ret.
    + rewrite app_nil_r, Hlen, <- !app_assoc. do 2 f_equal. unfold zeros.
      rewrite Z2Nat.inj_add by lia. done.
  - apply reads_need; [by rewrite Hw|]. by apply (reads_map _ Uuid), reads_take.
  - destruct Hf as (_ & Hc & Hf). apply foldr_Forall in Hf, Hw.
    rewrite !len_app, !len_le_bytes in Hl. pose proof (len_nonneg arr).
    pose proof (len_nonneg (concat (map enc arr))).
    assert (len (concat (map enc arr)) <= u32_max) as Hcat%len_concat_in by lia.
    rewrite app_assoc. eapply reads_bind.
    + apply reads_count; unfold in_u, MAX_XPC_COLLECTION_SIZE, u32_max in *; try done; [lia|].
      rewrite len_app, len_le_bytes. lia.
    + apply (reads_map _ Array), reads_repeatM. rewrite Forall_forall in IH, Hf, Hw, Hcat.
      apply Forall_forall. intros v Hv. apply IH; [done|by apply Hw|by apply Hf|by apply Hcat].
  - destruct Hf as (_ & Hc & Hf), Hw as [Hd Hw]. apply foldr_Forall in Hf, Hw.
    rewrite !len_app, !len_le_bytes in Hl. pose proof (len_nonneg m).
    set (g := fun kv : bytes * XpcValue => enc_key kv.1 ++ enc kv.2) in *.
    pose proof (len_nonneg (concat (map g m))).
    assert (len (concat (map g m)) <= u32_max) as Hcat%len_concat_in by lia.
    rewrite app_assoc. eapply reads_bind.
    + apply reads_count; unfold in_u, MAX_XPC_COLLECTION_SIZE, u32_max in *; try done; [lia|].
      rewrite len_app, len_le_bytes. lia.
    + apply (reads_map _ Dictionary), (reads_entries _ m []); [|done].
      rewrite Forall_forall in IH, Hf, Hw, Hcat. apply Forall_forall. intros kv Hkv.
      destruct (Hw kv Hkv) as [Hk Hv].
      pose proof (Hcat kv Hkv) as Hg. unfold g, enc_key in Hg. rewrite !len_app in Hg.
      pose proof (len_nonneg (zeros ((- (len kv.1 + 1)) mod 4))). pose proof (len_nonneg (enc kv.2)).
      pose proof (len_nonneg kv.1). unfold len in Hg at 2. simpl length in Hg.
      repeat split; try apply Hk; [lia|]. apply IH; [done..|by apply Hf|lia].
  - rewrite !len_app, !len_le_bytes in Hl. destruct Hw as [Hi Hw], Hf as [_ Hf].
    apply reads_need; [rewrite length_app, length_le_bytes; lia|].
    eapply reads_bind; [by apply reads_u64|]. apply (reads_map _ (FileTransfer id)), IH; auto. lia.
Qed.

(** ** Messages *)

Definition body_bytes (m : XpcMessage) : bytes :=
  match body m with
  | Some v => le_bytes 4 OBJECT_MAGIC ++ le_bytes 4 BODY_VERSION ++ enc v
  | None => []
  end.
Definition wire (m : XpcMessage) : bytes :=
  le_bytes 4 WRAPPER_MAGIC ++ le_bytes 4 (flags m) ++ le_bytes 8 (len (body_bytes m)) ++
  le_bytes 8 (msg_id m) ++ body_bytes m.

(** A message a peer running this code accepts. *)
Definition sendable (m : XpcMessage) : Prop :=
  message_wf m /\ len (body_bytes m) <= xpc_body_limit_for_flags (flags m).

Lemma body_limit_le f : xpc_body_limit_for_flags f <= XPC_DATA_STREAM_BODY_LIMIT.
Proof. unfold xpc_body_limit_for_flags. by destruct (negb _). Qed.

Lemma encode_message_wire m : sendable m -> encode_message m = Ok (wire m).
Proof.
  intros [Hw Hl]. pose proof (body_limit_le (flags m)). unfold encode_message, wire, body_bytes in *.
  unfold XPC_DATA_STREAM_BODY_LIMIT in *.
  destruct (body m) as [v|].
  - rewrite !len_app, !len_le_bytes in Hl.
    rewrite encode_value_spec by (unfold u32_max; lia). cbn [mbind outcome_bind].
    rewrite <- app_assoc. unfold checked_u64_len. rewrite !len_app, !len_le_bytes. split_if. done.
  - cbn [mbind outcome_bind]. unfold checked_u64_len. split_if. done.
Qed.

Lemma reads_message m : sendable m -> reads decode_message_st (wire m) m.
Proof.
  intros [(Hf & Hi & Hb) Hl]. pose proof (body_limit_le (flags m)) as Hlim.
  assert (XPC_DATA_STREAM_BODY_LIMIT + 24 <= u32_max) as Hmax by done.
  assert (u32_max < usize_max) as Hmax2 by done. assert (u32_max < 2 ^ 64) as Hmax3 by done.
  pose proof (len_nonneg (body_bytes m)) as H0.
  unfold decode_message_st, wire. apply reads_need; [rewrite !length_app, !length_le_bytes; lia|].
  eapply reads_bind; [by apply reads_u32|]. cbv beta. rewrite Z.eqb_refl. cbn [negb].
  apply reads_need; [rewrite !length_app, !length_le_bytes; lia|].
  eapply reads_bind; [by apply reads_u32|].
  eapply reads_bind; [apply reads_u64; unfold in_u; lia|].
  eapply reads_bind; [by apply reads_u64|].
  eapply reads_lift; [unfold checked_xpc_body_len; split_ifs; reflexivity|].
  apply (reads_map_eq _ _ _ (body m)); [|by destruct m].
  unfold body_bytes in *. destruct (body m) as [v|] eqn:Hbody; cbn [body]; [|by apply reads_ret].
  rewrite !len_app, !len_le_bytes in *. pose proof (enc_ge v). split_if. apply (reads_map _ Some).
  intros rest. unfold decode_body. rewrite st_bind_get.
  rewrite !len_app, !len_le_bytes. pose proof (len_nonneg rest). split_if.
  erewrite st_bind_ok; [|apply buf_take_app; rewrite !length_app, !length_le_bytes; unfold len; lia].
  rewrite !len_app, !len_le_bytes. split_if. unfold st_lift. f_equal.
  assert (reads decode_object (le_bytes 4 OBJECT_MAGIC ++ le_bytes 4 BODY_VERSION ++ enc v) v) as Ho.
  { unfold decode_object. eapply reads_bind; [by apply reads_u32|]. cbv beta.
    rewrite Z.eqb_refl. cbn [negb]. eapply reads_bind; [by apply reads_u32|]. cbv beta.
    rewrite Z.eqb_refl. cbn [negb]. destruct Hb as [Hw Hfit].
    apply decode_value_levels_reads; [done..|lia]. }
  specialize (Ho []). rewrite app_nil_r in Ho. by rewrite Ho.
Qed.

(** ** Reassembly of a chunked stream *)

Lemma wire_len m : len (wire m) = 24 + len (body_bytes m).
Proof. unfold wire. rewrite !len_app, !len_le_bytes. lia. Qed.

Lemma wire_ge m : (24 <= length (wire m))%nat.
Proof. pose proof (wire_len m). pose proof (len_nonneg (body_bytes m)). unfold len in *. lia. Qed.

(** The header fields [try_next] looks at, read off any buffer that starts with
    the 24 header bytes of [m]. *)
Lemma wire_header m (q : bytes) :
  sendable m -> (24 <= length q)%nat -> (exists r, wire m = q ++ r \/ q = wire m ++ r) ->
  (declared ← slice q 8 16;
   fl ← slice q 4 8;
   map_err_tls (checked_xpc_body_len (le_Z declared) (xpc_body_limit_for_flags (le_Z fl)))) =
  Ok (len (body_bytes m)).
Proof.
  intros [(Hf & Hi & Hb) Hl] Hq [r Hr]. pose proof (body_limit_le (flags m)) as Hlim.
  pose proof (len_nonneg (body_bytes m)) as H0.
  assert (XPC_DATA_STREAM_BODY_LIMIT < usize_max) as Hmax by done.
  set (hdr := le_bytes 4 WRAPPER_MAGIC ++ le_bytes 4 (flags m) ++ le_bytes 8 (len (body_bytes m)) ++
              le_bytes 8 (msg_id m)).
  assert (length hdr = 24%nat) as Hh by (unfold hdr; by rewrite !length_app, !length_le_bytes).
  assert (exists t, q = hdr ++ t) as [t ->].
  { destruct Hr as [Hr| ->].
    - exists (drop 24 q). rewrite <- (take_drop 24 q) at 1. f_equal.
      apply (f_equal (take 24)) in Hr. rewrite take_app_le in Hr by lia. rewrite <- Hr.
      unfold wire. rewrite !app_assoc. rewrite take_app_le by (rewrite <- !app_assoc; fold hdr; lia).
      rewrite <- !app_assoc. fold hdr. by rewrite take_ge by lia.
    - exists (body_bytes m ++ r). unfold wire, hdr. by rewrite <- !app_assoc. }
  assert (slice (E := XpcError) (hdr ++ t) 8 16 = Ok (le_bytes 8 (len (body_bytes m)))) as ->.
  { unfold hdr. rewrite <- !app_assoc. rewrite (app_assoc (le_bytes 4 _)).
    exact (slice_app (le_bytes 4 WRAPPER_MAGIC ++ le_bytes 4 (flags m)) (le_bytes 8 _) _). }
  assert (slice (E := XpcError) (hdr ++ t) 4 8 = Ok (le_bytes 4 (flags m))) as ->.
  { unfold hdr. rewrite <- !app_assoc. exact (slice_app (le_bytes 4 WRAPPER_MAGIC) (le_bytes 4 _) _). }
  cbn [mbind outcome_bind].
  rewrite (le_Z_le_bytes_u 4 32), (le_Z_le_bytes_u 8 64) by
    (done || (unfold in_u, XPC_DATA_STREAM_BODY_LIMIT in *; lia)).
  unfold checked_xpc_body_len. by split_ifs.
Qed.

Lemma try_next_complete m rest :
  sendable m -> try_next (mkBuffer (wire m ++ rest)) = (mkBuffer rest, Ok (Some m)).
Proof.
  intros Hm. pose proof (wire_ge m) as Hge. pose proof (wire_len m) as Hwl. unfold try_next. cbn [pending].
  rewrite (wire_header m) by (eauto || rewrite length_app; lia).
  pose proof (len_nonneg rest). pose proof (len_nonneg (body_bytes m)).
  pose proof (body_limit_le (flags m)) as Hlim. destruct Hm as [Hw Hl].
  assert (XPC_DATA_STREAM_BODY_LIMIT + 24 <= usize_max) as Hmax by done.
  rewrite len_app. split_ifs.
  replace (Z.to_nat (24 + len (body_bytes m))) with (length (wire m)) by (unfold len in *; lia).
  rewrite drop_app_length, take_app_length. do 2 f_equal. unfold decode_message.
  pose proof (reads_message m (conj Hw Hl) []) as Hr. rewrite app_nil_r in Hr. by rewrite Hr.
Qed.

Lemma try_next_incomplete m q r :
  sendable m -> wire m = q ++ r -> r <> [] -> try_next (mkBuffer q) = (mkBuffer q, Ok None).
Proof.
  intros Hm Hq Hr. unfold try_next. cbn [pending]. split_if; [done|].
  pose proof (wire_len m) as Hwl. rewrite Hq, len_app in Hwl.
  assert (0 < len r) by (destruct r; [done|unfold len; simpl; lia]).
  rewrite (wire_header m) by (eauto || (unfold len in *; lia)).
  pose proof (len_nonneg q). pose proof (len_nonneg (body_bytes m)).
  split_ifs; try done. destruct Hm as [_ Hl]. pose proof (body_limit_le (flags m)).
  unfold XPC_DATA_STREAM_BODY_LIMIT, usize_max in *. lia.
Qed.

(** The receive loop of the callers: push a DATA payload, then take every
    complete message. *)
Fixpoint drain (fuel : nat) : st XpcMessageBuffer XpcError (list XpcMessage) :=
  match fuel with
  | O => st_lift OutOfFuel
  | S fuel =>
      r ← try_next;
      match r with
      | None => mret []
      | Some m => ms ← drain fuel; mret (m :: ms)
      end
  end.
Fixpoint feed (cs : list bytes) : st XpcMessageBuffer XpcError (list XpcMessage) :=
  match cs with
  | [] => mret []
  | c :: cs =>
      push c ;;
      self ← st_get;
      ms ← drain (S (length (pending self)));
      ms' ← feed cs;
      mret (ms ++ ms')
  end.

(** [q] is what a reader holds of [ms] that is not yet a whole message. *)
Definition partial (q : bytes) (ms : list XpcMessage) : Prop :=
  match ms with
  | [] => q = []
  | m :: _ => exists r, r <> [] /\ wire m = q ++ r
  end.

Lemma drain_spec ms1 ms2 q fuel :
  Forall sendable (ms1 ++ ms2) -> partial q ms2 -> (length ms1 < fuel)%nat ->
  drain fuel (mkBuffer (concat (map wire ms1) ++ q)) = (mkBuffer q, Ok ms1).
Proof.
  revert fuel. induction ms1 as [|m ms1 IH]; intros [|fuel] Hs Hp Hf; simpl in Hf; try lia.
  - simpl. unfold mbind, st_bind. destruct ms2 as [|m ms2]; simpl in *.
    + by subst q.
    + destruct Hp as (r & Hr & Hw). inversion Hs; subst. by rewrite (try_next_incomplete m q r).
  - inversion Hs; subst. cbn [drain map concat app]. rewrite <- app_assoc.
    rewrite (st_bind_ok _ _ _ _ _ (try_next_complete m _ H1)).
    by rewrite (st_bind_ok _ _ _ _ _ (IH fuel H2 Hp ltac:(lia))).
Qed.

Lemma split_prefix ms x y :
  x ++ y = concat (map wire ms) ->
  exists ms1 ms2 q, ms = ms1 ++ ms2 /\ x = concat (map wire ms1) ++ q /\
    partial q ms2 /\ q ++ y = concat (map wire ms2).
Proof.
  revert x. induction ms as [|m ms IH]; intros x Hx; cbn [map concat] in Hx.
  - apply app_eq_nil in Hx as [-> ->]. by exists [], [], [].
  - destruct (decide (length (wire m) <= length x)%nat) as [Hge|Hlt].
    + assert (exists x', x = wire m ++ x') as [x' ->].
      { exists (drop (length (wire m)) x). rewrite <- (take_drop (length (wire m)) x) at 1. f_equal.
        apply (f_equal (take (length (wire m)))) in Hx.
        rewrite (take_app_le x y) in Hx by done. by rewrite take_app_length in Hx. }
      rewrite <- app_assoc in Hx. apply app_inv_head in Hx.
      destruct (IH x' Hx) as (ms1 & ms2 & q & -> & -> & Hp & Hq).
      exists (m :: ms1), ms2, q. simpl. by rewrite <- app_assoc.
    + exists [], (m :: ms), x. repeat split; [|done].
      exists (drop (length x) (wire m)). split.
      * intros Hn. apply (f_equal length) in Hn. rewrite length_drop in Hn. cbn [length] in Hn. lia.
      * rewrite <- (take_drop (length x) (wire m)) at 1. f_equal.
        apply (f_equal (take (length x))) in Hx. rewrite take_app_length in Hx.
        by rewrite (take_app_le (wire m)) in Hx by lia.
Qed.

Lemma partial_short ms q K :
  partial q ms -> Forall (fun m => len (wire m) + K <= XPC_PENDING_BUFFER_LIMIT) ms ->
  K <= XPC_PENDING_BUFFER_LIMIT -> len q + K <= XPC_PENDING_BUFFER_LIMIT.
Proof.
  destruct ms as [|m ms]; simpl; [by intros ->|].
  intros (r & _ & Hw) Hf _. inversion Hf; subst. rewrite Hw, len_app in *. pose proof (len_nonneg r). lia.
Qed.

Lemma feed_spec K cs ms q :
  Forall sendable ms ->
  Forall (fun m => len (wire m) + K <= XPC_PENDING_BUFFER_LIMIT) ms ->
  0 <= K <= XPC_PENDING_BUFFER_LIMIT -> Forall (fun c => len c <= K) cs ->
  partial q ms -> q ++ concat cs = concat (map wire ms) ->
  feed cs (mkBuffer q) = (buffer_new, Ok ms).
Proof.
  intros Hs Hsz HK Hcs. revert ms q Hs Hsz. induction Hcs as [|c cs Hc _ IH]; intros ms q Hs Hsz Hp Hq.
  - cbn [concat] in *. rewrite app_nil_r in Hq. destruct ms as [|m ms].
    + by rewrite Hp.
    + destruct Hp as (r & Hr & Hw). cbn [map concat] in Hq. rewrite Hw, <- app_assoc in Hq.
      rewrite <- (app_nil_r q) in Hq at 1. apply app_inv_head in Hq. symmetry in Hq.
      apply app_eq_nil in Hq as [? _]. done.
  - cbn [feed concat] in *. rewrite app_assoc in Hq.
    destruct (split_prefix _ _ _ Hq) as (ms1 & ms2 & q' & -> & Hx & Hp' & Hq').
    assert (push c (mkBuffer q) = (mkBuffer (q ++ c), Ok tt)) as Hpush.
    { pose proof (partial_short _ _ _ Hp Hsz ltac:(lia)). unfold push. cbn [pending].
      assert (XPC_PENDING_BUFFER_LIMIT <= usize_max) by done. by split_ifs. }
    rewrite (st_bind_ok _ _ _ _ _ Hpush), st_bind_get. cbn [pending]. rewrite Hx.
    assert (length ms1 <= length (concat (map wire ms1)))%nat as Hlen.
    { clear. induction ms1 as [|m ms1 IH]; simpl; [lia|]. rewrite length_app. pose proof (wire_ge m). lia. }
    erewrite st_bind_ok; [|apply (drain_spec ms1 ms2 q'); [done..|rewrite length_app; lia]].
    apply Forall_app in Hs as [_ Hs], Hsz as [_ Hsz].
    by rewrite (st_bind_ok _ _ _ _ _ (IH ms2 q' Hs Hsz Hp' Hq')).
Qed.

(** C25. Round trip of XPC messages. A well-formed message whose body is within
    the limit its flags select is encoded, in spite of the placeholder length
    words that are patched afterwards, to a string that decodes to the same
    message; bytes after it are left alone. *)
Theorem xpc_roundtrip m :
  sendable m -> exists bs, encode_message m = Ok bs /\ forall rest, decode_message (bs ++ rest) = Ok m.
Proof.
  intros Hm. exists (wire m). split; [by apply encode_message_wire|].
  intros rest. unfold decode_message. by rewrite (reads_message m Hm rest).
Qed.

(** [XpcMessageBuffer] reassembles a stream. However the concatenated
    encodings of [ms] are cut into DATA payloads (of at most [K] bytes, with [K]
    bytes of headroom below the pending limit), pushing the payloads and taking
    the complete messages after each yields exactly [ms], in order, with
    nothing left over. *)
Theorem xpc_buffer_reassembles K ms bss cs :
  Forall sendable ms ->
  Forall2 (fun m bs => encode_message m = Ok bs /\ len bs + K <= XPC_PENDING_BUFFER_LIMIT) ms bss ->
  0 <= K <= XPC_PENDING_BUFFER_LIMIT -> Forall (fun c => len c <= K) cs ->
  concat cs = concat bss ->
  feed cs buffer_new = (buffer_new, Ok ms).
Proof.
  intros Hs Hb HK Hcs Hq.
  assert (bss = map wire ms /\ Forall (fun m => len (wire m) + K <= XPC_PENDING_BUFFER_LIMIT) ms) as [-> Hsz].
  { clear -Hs Hb. induction Hb as [|m bs ms bss [Hm Hl] _ IH]; [by split; [|constructor]|].
    inversion Hs; subst. destruct IH as [-> Hsz]; [done|]. rewrite encode_message_wire in Hm by done.
    injection Hm as <-. split; [done|]. by constructor. }
  apply (feed_spec K); try done.
  destruct ms as [|m ms]; [done|]. exists (wire m). split; [|done].
  intros Hn. pose proof (wire_ge m). rewrite Hn in *. simpl in *. lia.
Qed.

(** ** Encoding always comes back *)

Definition grows (out : bytes) (r : outcome XpcError bytes) : Prop :=
  match r with Ok out' => (length out <= length out')%nat | Err _ => True | _ => False end.
Lemma grows_bind {A} (r : outcome XpcError A) f out : returns r -> (forall a, grows out (f a)) -> grows out (r ≫= f).
Proof. destruct r; cbn; naive_solver. Qed.
Lemma grows_trans out out' r f : grows out r -> (length out' <= length out)%nat ->
  (forall o, (length out <= length o)%nat -> grows out' (f o)) -> grows out' (r ≫= f).
Proof. destruct r; try done. cbn [grows mbind outcome_bind]. intros H1 H2 Hf. apply Hf. lia. Qed.
Lemma grows_fold {A} (f : A -> bytes -> outcome XpcError bytes) l out :
  Forall (fun a => forall out, grows out (f a out)) l -> grows out (foldM f l out).
Proof.
  intros Hl. revert out. induction Hl as [|a l Ha _ IH]; intros out; cbn [foldM]; [cbn; lia|].
  eapply (grows_trans out); [apply Ha|done|]. intros o Ho. specialize (IH o). unfold grows in *. destruct (foldM f l o); try done. lia.
Qed.
Lemma grows_container out n kind1 kind2 ty (f : bytes -> outcome XpcError bytes) :
  (forall out, grows out (f out)) ->
  grows out (count ← checked_u32_len kind1 n;
    out' ← f (((out ++ le_bytes 4 ty) ++ le_bytes 4 0) ++ le_bytes 4 count);
    k ← checked_collection_len kind2 (len out' - Z.of_nat (length ((out ++ le_bytes 4 ty) ++ le_bytes 4 0)));
    copy_at out' (length (out ++ le_bytes 4 ty)) (le_bytes 4 k)).
Proof.
  intros Hf. apply grows_bind; [unfold checked_u32_len; by split_ifs|]. intros count.
  eapply grows_trans; [apply Hf|rewrite !length_app; lia|]. intros o Ho. rewrite !length_app, !length_le_bytes in *.
  apply grows_bind; [unfold checked_collection_len; by split_ifs|]. intros k. unfold copy_at. rewrite length_le_bytes.
  rewrite (proj2 (Nat.leb_le _ _)) by lia. cbn. rewrite !length_app, length_take, length_drop, length_le_bytes. lia.
Qed.
Lemma grows_pad kind n out (f : Z -> bytes) : (forall p, (length out <= length (f p))%nat) ->
  grows out (padded ← checked_align4 kind n; Ok (f padded)).
Proof. intros Hf. apply grows_bind; [unfold checked_align4; by split_ifs|]. intros p. apply Hf. Qed.
Lemma encode_value_grows v out : grows out (encode_value v out).
Proof.
  revert out. induction v using XpcValue_nested_ind; intros out; cbn [encode_value];
    try (cbn; rewrite ?length_app; lia).
  - apply grows_bind; [unfold checked_u32_len; by split_ifs|]. intros n. apply grows_pad. intros p. rewrite !length_app. lia.
  - apply grows_bind; [unfold checked_succ; by split_ifs|]. intros total.
    apply grows_bind; [unfold checked_u32_len; by split_ifs|]. intros n. apply grows_pad. intros p. rewrite !length_app. lia.
  - apply (grows_container out (len arr) "array count" "array" TYPE_ARRAY (foldM (fun v out => encode_value v out) arr)).
    intros o. by apply grows_fold.
  - apply (grows_container out (len map) "dict count" "dict" TYPE_DICTIONARY
      (foldM (fun '(k, v) out => out ← encode_dict_key k out; encode_value v out) map)).
    intros o. apply grows_fold. eapply Forall_impl; [exact H|]. intros [k v] Hv o'. cbn [fst snd] in *.
    eapply (grows_trans o'); [|done|].
    + unfold encode_dict_key. apply grows_bind; [unfold checked_succ; by split_ifs|]. intros total.
      apply grows_pad. intros p. rewrite !length_app. lia.
    + intros o2 Ho2. specialize (Hv o2). unfold grows in *. destruct (encode_value v o2); try done. lia.
  - specialize (IHv (out ++ le_bytes 4 TYPE_FILE_TRANSFER ++ le_bytes 8 id)). unfold grows in *.
    destruct (encode_value _ _); try done. rewrite !length_app in IHv. lia.
Qed.
Lemma encode_returns m : returns (encode_message m).
Proof.
  unfold encode_message. apply returns_bind.
  - destruct (body m) as [v|]; [|done]. pose proof (encode_value_grows v (le_bytes 4 OBJECT_MAGIC ++ le_bytes 4 BODY_VERSION)) as H.
    unfold grows in H. by destruct (encode_value _ _).
  - intros bs _. apply returns_bind; [unfold checked_u64_len; by split_ifs|done].
Qed.

Lemma decode_returns bs : returns (decode_message bs).
Proof.
  pose proof (decode_message_wp bs) as H. unfold decode_message. unfold wp in H. by destruct (decode_message_st bs) as [b [m| | | |]].
Qed.

Definition sample_message : XpcMessage :=
  mkMessage (ALWAYS_SET + DATA) 7
    (Some (Dictionary [(map bZ [0x6B], String (map bZ [0x76; 0x31])); (map bZ [0x61; 0x62], Array [Int64 (-1); Bool true])])).

Lemma sample_sendable : sendable sample_message.
Proof.
  split; [split; [|split; [|split]]|]; try (vm_compute; intuition congruence).
  - split; [|by repeat split].
    apply NoDup_cons. split; [|apply NoDup_singleton]. vm_compute. intros H. inversion H; subst. inversion H2.
  - vm_compute. repeat split; lia || congruence.
Qed.

Lemma xpc_roundtrip_witness :
  exists bs, encode_message sample_message = Ok bs /\
             forall rest, decode_message (bs ++ rest) = Ok sample_message.
Proof. apply (xpc_roundtrip sample_message). exact sample_sendable. Defined.

Lemma xpc_buffer_reassembles_witness :
  feed [take 30 (wire sample_message); drop 30 (wire sample_message)] buffer_new =
  (buffer_new, Ok [sample_message]).
Proof.
  apply (xpc_buffer_reassembles 1000 [sample_message] [wire sample_message]).
  - constructor; [exact sample_sendable|constructor].
  - constructor; [|constructor]. split; [vm_compute; reflexivity|vm_compute; congruence].
  - vm_compute. split; congruence.
  - repeat constructor; vm_compute; congruence.
  - vm_compute. reflexivity.
Defined.

End Xpc.
