(* ===== verification/DtxTypes.v ===== *)
(** DTX values and the primitive dictionary of the auxiliary section
    ([crates/ios-core/src/services/dtx/types.rs], [primitive.rs],
    [primitive_enc.rs]) with the archive values of
    [crates/ios-core/src/proto/nskeyedarchiver.rs].

    The DTX layer uses the NSKeyedArchiver codec through two calls; the class
    [Archiver] is that interface. A [HashMap] inside an archive value is the list
    of its entries in the order it iterates them, which Rust leaves open: the class
    [HashOrder] is that order, and [same] the equivalence of values that differ in
    it. *)

From S2P Require Import Prelude Utf8.

Module Dtx.

(** ** Values *)

(** The entries of a dictionary are listed in the order in which its [HashMap] iterates. *)
Inductive ArchiveValue : Type :=
| AvNull
| AvBool (b : bool)
| AvInt (n : Z)
| AvUint (n : Z)
| AvFloat (bits : Z)
| AvString (s : bytes)
| AvData (d : bytes)
| AvArray (l : list ArchiveValue)
| AvDict (m : list (bytes * ArchiveValue))
| AvUnknown (class : bytes).

(** The order in which a [HashMap] filled with these entries iterates them. *)
Class HashOrder := {
  hash_order : list (bytes * ArchiveValue) -> list (bytes * ArchiveValue);
  hash_order_entries : forall m, hash_order m ≡ₚ m;
}.
Definition hash_map `{HashOrder} (m : list (bytes * ArchiveValue)) : ArchiveValue := AvDict (hash_order m).
Definition insertion_order : HashOrder := {| hash_order := fun m => m; hash_order_entries := fun m => Permutation_refl m |}.
(** Another one, that iterates backwards. *)
Definition reverse_order : HashOrder := {| hash_order := fun m => rev m; hash_order_entries := fun m => Permutation_sym (Permutation_rev m) |}.

(** The values are the same but for the order of the entries of dictionaries. *)
Inductive same : ArchiveValue -> ArchiveValue -> Prop :=
| same_refl v : same v v
| same_array l l' : Forall2 same l l' -> same (AvArray l) (AvArray l')
| same_dict m m1 m' : m ≡ₚ m1 -> Forall2 (fun kv kv' => kv.1 = kv'.1 /\ same kv.2 kv'.2) m1 m' -> same (AvDict m) (AvDict m').
Infix "≃" := same (at level 70).

Lemma archive_value_ind' (P : ArchiveValue -> Prop) :
  P AvNull -> (forall b, P (AvBool b)) -> (forall n, P (AvInt n)) -> (forall n, P (AvUint n)) -> (forall f, P (AvFloat f)) ->
  (forall s, P (AvString s)) -> (forall d, P (AvData d)) -> (forall c, P (AvUnknown c)) ->
  (forall l, Forall P l -> P (AvArray l)) -> (forall m, Forall (fun kv => P kv.2) m -> P (AvDict m)) -> forall v, P v.
Proof.
  intros H1 H2 H3 H4 H5 H6 H7 H8 Ha Hd. fix IH 1. intros [|b|n|n|f|s|d|l|m|c]; [apply H1|apply H2|apply H3|apply H4|apply H5|apply H6|apply H7| | |apply H8].
  - apply Ha. induction l; constructor; [apply IH|done].
  - apply Hd. induction m as [|[k v] m IHm]; constructor; [apply IH|done].
Qed.
(** Related entries can be reordered on either side. *)
Lemma Forall2_reorder {A B} (R : A -> B -> Prop) l1 l2 l2' : Forall2 R l1 l2 -> l2 ≡ₚ l2' -> exists l1', l1 ≡ₚ l1' /\ Forall2 R l1' l2'.
Proof.
  intros HR Hp. revert l1 HR. induction Hp as [|x l l' Hp IH|x y l|l l' l'' _ IH1 _ IH2]; intros l1 HR.
  - exists l1. split; [done|]. by inversion HR.
  - inversion HR as [|a ? l1' ? Ha Hl]; subst. destruct (IH _ Hl) as (r & ? & ?). exists (a :: r). split; [by apply Permutation_skip|by constructor].
  - inversion HR as [|a ? r ? Ha Hr]; subst. inversion Hr as [|b ? r' ? Hb Hr']; subst.
    exists (b :: a :: r'). split; [apply Permutation_swap|]. by repeat constructor.
  - destruct (IH1 _ HR) as (r & ? & Hr). destruct (IH2 _ Hr) as (r' & ? & ?). exists r'. split; [by etrans|done].
Qed.
Lemma same_arrays l w : AvArray l ≃ w <-> exists l', w = AvArray l' /\ Forall2 same l l'.
Proof.
  split; [|intros (l' & -> & H); by constructor]. intros H. inversion H; subst; eexists; (split; [done|]); [|done].
  clear. induction l; constructor; [apply same_refl|done].
Qed.
Lemma same_dicts m w : AvDict m ≃ w <-> exists m1 m', w = AvDict m' /\ m ≡ₚ m1 /\ Forall2 (fun kv kv' => kv.1 = kv'.1 /\ kv.2 ≃ kv'.2) m1 m'.
Proof.
  split; [|intros (m1 & m' & -> & ? & ?); by econstructor]. intros H. inversion H; subst; [|by eexists _, _].
  exists m, m. split_and!; [done|done|]. clear. induction m as [|kv m IH]; constructor; [split; [done|apply same_refl]|done].
Qed.
Lemma same_sym v : forall w, v ≃ w -> w ≃ v.
Proof.
  induction v as [| | | | | | | |l IH|m IH] using archive_value_ind'; intros w H; try (inversion H; by constructor).
  - apply same_arrays in H as (l' & -> & H). constructor.
    induction H as [|x y l l' Hx H IHl]; [constructor|]. apply Forall_cons in IH as [IHx IH]. constructor; [by apply IHx|by apply IHl].
  - apply same_dicts in H as (m1 & m' & -> & Hp & H).
    destruct (Forall2_reorder (fun kv' kv => kv'.1 = kv.1 /\ kv'.2 ≃ kv.2) m' m1 m) as (m2 & ? & ?); [|done|by econstructor].
    rewrite Hp in IH. clear Hp. induction H as [|x y l l' [Ek Hv] H IHl]; [constructor|]. apply Forall_cons in IH as [Hx IH].
    constructor; [split; [done|by apply Hx]|by apply IHl].
Qed.
Lemma same_transitive v : forall w u, v ≃ w -> w ≃ u -> v ≃ u.
Proof.
  induction v as [| | | | | | | |l IH|m IH] using archive_value_ind'; intros w u H1 H2; try (by inversion H1; subst).
  - apply same_arrays in H1 as (l1 & -> & H1). apply same_arrays in H2 as (l2 & -> & H2). constructor.
    revert l2 H2. induction H1 as [|x y l l1 Hx H1 IHl]; intros l2 H2; inversion H2; subst; [constructor|]. apply Forall_cons in IH as [IHx IH]. constructor; [by eapply IHx|by apply IHl].
  - apply same_dicts in H1 as (m1 & m' & -> & Hp1 & H1). apply same_dicts in H2 as (m2 & m'' & -> & Hp2 & H2).
    destruct (Forall2_reorder _ _ _ _ H1 Hp2) as (m3 & Hp3 & H3). apply (same_dict _ m3); [by etrans|].
    rewrite Hp1, Hp3 in IH. clear H1 Hp1 Hp2 Hp3. revert m'' H2. induction H3 as [|x y l l1 [Ek Hx] H1 IHl]; intros m'' H2; inversion H2 as [|? z ? ? [Ek' Hz]]; subst; [constructor|].
    apply Forall_cons in IH as [IHx IH]. constructor; [split; [by etrans|by eapply IHx]|by apply IHl].
Qed.
#[export] Instance same_equivalence : Equivalence same.
Proof. split; [exact same_refl|exact same_sym|exact same_transitive]. Qed.
#[export] Instance AvArray_proper : Proper (Forall2 same ==> same) AvArray.
Proof. intros l l' H. by constructor. Qed.
#[export] Instance AvDict_proper : Proper (Permutation ==> same) AvDict.
Proof. intros m m' Hp. apply same_dicts. exists m', m'. split_and!; [done|done|]. clear. induction m'; by constructor. Qed.
Lemma hash_map_same `{HashOrder} m : hash_map m ≃ AvDict m.
Proof. unfold hash_map. by rewrite hash_order_entries. Qed.

(** With each key once, [get] of a key does not depend on the order. *)
Lemma imap_lookup_perm {V} (k : bytes) (m m' : list (bytes * V)) : NoDup m.*1 -> m ≡ₚ m' -> imap_lookup k m = imap_lookup k m'.
Proof.
  intros Hnd Hp. induction Hp as [|[k' v] l l' Hp IH|[k1 v1] [k2 v2] l|l l' l'' Hp1 IH1 Hp2 IH2]; [done|..].
  - cbn. apply NoDup_cons in Hnd as [_ Hnd]. case_decide; [done|by apply IH].
  - cbn in *. apply NoDup_cons in Hnd as [Hn _]. repeat case_decide; subst; try done. exfalso. apply Hn. by left.
  - rewrite IH1 by done. apply IH2. by rewrite <- Hp1.
Qed.
Lemma same_get k m m' : NoDup m.*1 -> AvDict m ≃ AvDict m' -> option_Forall2 same (imap_lookup k m) (imap_lookup k m').
Proof.
  intros Hnd (m1 & ? & [= <-] & Hp & H)%same_dicts. rewrite (imap_lookup_perm k m m1 Hnd Hp). clear Hnd Hp.
  induction H as [|[k1 v] [k2 v'] l l' [Ek Hv] H IH]; [constructor|]. cbn in *. subst k2. case_decide; [by constructor|done].
Qed.

Inductive NSObject : Type :=
| Int (n : Z)
| Uint (n : Z)
| Double (bits : Z)
| Bool (b : bool)
| String (s : bytes)
| Data (d : bytes)
| Array (l : list NSObject)
| Dict (m : list (bytes * NSObject))
| Null.

Inductive DtxPayload : Type :=
| MethodInvocation (selector : bytes) (args : list NSObject)
| Response (o : NSObject)
| Notification (name : bytes) (object : NSObject)
| Raw (b : bytes)
| RawWithAux (payload : bytes) (aux : list NSObject)
| Empty.

Record DtxMessage := mkMessage {
  identifier : Z;
  conversation_idx : Z;
  channel_code : Z;
  expects_reply : bool;
  payload : DtxPayload;
}.

(** The NSKeyedArchiver codec, as the DTX layer calls it: [unarchive] returns
    [None] for [Err]. *)
Class Archiver := {
  unarchive : bytes -> option ArchiveValue;
  archive_string : bytes -> bytes;
}.

Definition as_str (v : ArchiveValue) : option bytes :=
  match v with AvString s => Some s | _ => None end.

Fixpoint archive_to_ns (v : ArchiveValue) : NSObject :=
  match v with
  | AvNull => Null
  | AvBool b => Bool b
  | AvInt n => Int n
  | AvUint n => Uint n
  | AvFloat f => Double f
  | AvString s => String s
  | AvData d => Data d
  | AvArray l => Array (map archive_to_ns l)
  | AvDict m => Dict (map (fun '(k, v) => (k, archive_to_ns v)) m)
  | AvUnknown s => String ([bZ 0x3C] ++ s ++ [bZ 0x3E])
  end.

(** ** Primitive dictionary encoder *)

Inductive PrimArg : Type :=
| Int32 (v : Z)
| Int64 (v : Z)
| PDouble (bits : Z)
| PBytes (b : bytes).

Definition T_NULL : Z := 0x0000000A.
Definition T_STRING : Z := 0x00000001.
Definition T_BYTEARRAY : Z := 0x00000002.
Definition T_UINT32 : Z := 0x00000003.
Definition T_INT64 : Z := 0x00000006.
Definition T_DOUBLE : Z := 0x00000009.

Definition encode_prim (arg : PrimArg) : bytes :=
  le_bytes 4 T_NULL ++
  match arg with
  | Int32 v => le_bytes 4 T_UINT32 ++ le_bytes 4 v
  | Int64 v => le_bytes 4 T_INT64 ++ le_bytes 8 v
  | PDouble v => le_bytes 4 T_DOUBLE ++ le_bytes 8 v
  | PBytes b => le_bytes 4 T_BYTEARRAY ++ le_bytes 4 (len b) ++ b
  end.
Definition encode_primitive_dict (args : list PrimArg) : bytes :=
  foldl (fun out arg => out ++ encode_prim arg) [] args.

(** ** Primitive dictionary decoder *)

(** [read_entry] returns [None] on a truncated or unknown entry, here [Err tt];
    the state is the [Bytes] that remain. *)
Definition need (n : nat) : st bytes unit unit := fun data =>
  if (length data <? n)%nat then (data, Err tt) else (data, Ok tt).

Definition read_entry : st bytes unit (Z * bytes) :=
  need 4 ;;
  type_tag ← get_u32_le;
  if type_tag =? T_NULL then mret (type_tag, [])
  else if type_tag =? T_UINT32 then
    need 4 ;; v ← buf_take 4; mret (type_tag, v)
  else if (type_tag =? T_INT64) || (type_tag =? T_DOUBLE) then
    need 8 ;; v ← buf_take 8; mret (type_tag, v)
  else if (type_tag =? T_STRING) || (type_tag =? T_BYTEARRAY) then
    need 4 ;;
    n ← get_u32_le;
    need (Z.to_nat n) ;;
    v ← buf_take (Z.to_nat n); mret (type_tag, v)
  else st_fail tt.

Section with_archiver.
Context {AR : Archiver}.

Definition entry_to_nsobject (type_tag : Z) (value : bytes) : NSObject :=
  if type_tag =? T_STRING then String (utf8_lossy value)
  else if (type_tag =? T_UINT32) && (4 <=? len value) then Int (signed 32 (le_Z (take 4 value)))
  else if (type_tag =? T_INT64) && (8 <=? len value) then Int (signed 64 (le_Z (take 8 value)))
  else if (type_tag =? T_DOUBLE) && (8 <=? len value) then Double (le_Z (take 8 value))
  else if type_tag =? T_BYTEARRAY then
    match unarchive value with Some v => archive_to_ns v | None => Data value end
  else Null.

(** The [while data.remaining() >= 4] loop. Each round consumes at least eight
    bytes or stops. *)
Fixpoint decode_auxiliary_n (fuel : nat) (data : bytes) (result : list NSObject)
  : outcome Empty_set (list NSObject) :=
  match fuel with
  | O => OutOfFuel
  | S fuel =>
      if (length data <? 4)%nat then Ok result else
      match read_entry data with
      | (data, Ok (key_type, _)) =>
          if negb (key_type =? T_NULL) || (length data <? 4)%nat then Ok result else
          match read_entry data with
          | (data, Ok (value_type, value)) =>
              decode_auxiliary_n fuel data (result ++ [entry_to_nsobject value_type value])
          | (_, Err _) => Ok result
          | _ => Panic
          end
      | (_, Err _) => Ok result
      | _ => Panic
      end
  end.
Definition decode_auxiliary (data : bytes) : outcome Empty_set (list NSObject) :=
  decode_auxiliary_n (S (length data)) data [].

(** What a receiver makes of an argument. *)
Definition prim_to_ns (arg : PrimArg) : NSObject :=
  match arg with
  | Int32 v | Int64 v => Int v
  | PDouble bits => Double bits
  | PBytes b => match unarchive b with Some v => archive_to_ns v | None => Data b end
  end.
Definition prim_wf (arg : PrimArg) : Prop :=
  match arg with
  | Int32 v => in_i 32 v
  | Int64 v => in_i 64 v
  | PDouble bits => in_u 64 bits
  | PBytes b => len b <= u32_max
  end.

(** ** Proofs *)

Lemma dtx_wp_need n (Q : unit -> bytes -> Prop) buf :
  ((n <= length buf)%nat -> Q tt buf) -> wp (need n) Q buf.
Proof. intros H. unfold wp, need. split_if; [done|]. apply H. lia. Qed.
Lemma dtx_wp_take n (Q : bytes -> bytes -> Prop) buf :
  (n <= length buf)%nat -> Q (take n buf) (drop n buf) -> wp (E := unit) (buf_take n) Q buf.
Proof. intros H HQ. unfold wp. by rewrite buf_take_ok. Qed.

Ltac dtx_wps :=
  repeat match goal with
    | |- wp (mbind _ _) _ _ => apply wp_bind
    | |- wp (need _) _ _ => apply dtx_wp_need; intros
    | |- wp (st_fail _) _ _ => apply wp_fail
    | |- wp (buf_take _) _ _ => apply dtx_wp_take; [rewrite ?length_drop in *; lia|]
    | |- wp (mret _) _ _ => apply wp_ret
    | |- _ => progress cbn beta
    end.

Lemma read_entry_wp data :
  wp read_entry (fun _ rest => (length rest + 4 <= length data)%nat) data.
Proof.
  unfold read_entry, get_u32_le. dtx_wps.
  split_ifs; dtx_wps; rewrite ?length_drop in *; lia.
Qed.

Lemma decode_auxiliary_total fuel data result :
  (length data < fuel)%nat -> exists l, decode_auxiliary_n fuel data result = Ok l.
Proof.
  revert data result. induction fuel as [|fuel IH]; intros data result Hf; [lia|].
  cbn [decode_auxiliary_n]. split_if; [eauto|].
  pose proof (read_entry_wp data) as H1. unfold wp in H1.
  destruct (read_entry data) as [d1 [[k kv]| | | |]]; try done; [|eauto].
  split_if; [eauto|].
  pose proof (read_entry_wp d1) as H2. unfold wp in H2.
  destruct (read_entry d1) as [d2 [[t v]| | | |]]; try done; [|eauto].
  apply IH. lia.
Qed.

Lemma need_ok n (data : bytes) : (n <= length data)%nat -> need n data = (data, Ok tt).
Proof. intros H. unfold need. by rewrite (proj2 (Nat.ltb_ge _ _)). Qed.

(** A truncated or unknown entry stops the loop; a complete one is pushed. *)
Lemma read_key_null rest : read_entry (le_bytes 4 T_NULL ++ rest) = (rest, Ok (T_NULL, [])).
Proof.
  unfold read_entry. erewrite st_bind_ok; [|apply need_ok; rewrite length_app, length_le_bytes; lia].
  by rewrite (st_bind_ok _ _ _ _ _ (get_u32_le_app T_NULL rest ltac:(done))).
Qed.

(** Reading the value part of an encoded argument. *)
Lemma read_value arg rest :
  prim_wf arg ->
  exists t v, read_entry (drop 4 (encode_prim arg) ++ rest) = (rest, Ok (t, v)) /\
              entry_to_nsobject t v = prim_to_ns arg.
Proof.
  intros Hw. unfold encode_prim. rewrite drop_app_length' by (by rewrite length_le_bytes).
  assert (forall ty bs, in_u 32 ty ->
    read_entry ((le_bytes 4 ty ++ bs) ++ rest) =
    (if ty =? T_NULL then mret (ty, [])
     else if ty =? T_UINT32 then need 4 ;; v ← buf_take 4; mret (ty, v)
     else if (ty =? T_INT64) || (ty =? T_DOUBLE) then need 8 ;; v ← buf_take 8; mret (ty, v)
     else if (ty =? T_STRING) || (ty =? T_BYTEARRAY) then
       need 4 ;; n ← get_u32_le; need (Z.to_nat n) ;; v ← buf_take (Z.to_nat n); mret (ty, v)
     else st_fail tt) (bs ++ rest)) as Hty.
  { intros ty bs Hty. unfold read_entry. rewrite <- app_assoc.
    erewrite st_bind_ok; [|apply need_ok; rewrite length_app, length_le_bytes; lia].
    by rewrite (st_bind_ok _ _ _ _ _ (get_u32_le_app ty _ Hty)). }
  assert (forall (ty : Z) (n : nat) (bs : bytes), length bs = n ->
    (need n ;; v ← buf_take n; mret (ty, v)) (bs ++ rest) = (rest, Ok (ty, bs))) as Hfix.
  { intros ty n bs Hn. erewrite st_bind_ok; [|apply need_ok; rewrite length_app; lia].
    by rewrite (st_bind_ok _ _ _ _ _ (buf_take_app n bs rest Hn)). }
  destruct arg as [v|v|v|b]; simpl in Hw; rewrite Hty by done.
  - exists T_UINT32, (le_bytes 4 v). split; [apply Hfix, length_le_bytes|].
    unfold entry_to_nsobject, len. rewrite length_le_bytes. cbn -[le_bytes le_Z signed take].
    rewrite take_ge by (by rewrite length_le_bytes). by rewrite (signed_le_Z_le_bytes 4 32) by (done || lia).
  - exists T_INT64, (le_bytes 8 v). split; [apply Hfix, length_le_bytes|].
    unfold entry_to_nsobject, len. rewrite length_le_bytes. cbn -[le_bytes le_Z signed take].
    rewrite take_ge by (by rewrite length_le_bytes). by rewrite (signed_le_Z_le_bytes 8 64) by (done || lia).
  - exists T_DOUBLE, (le_bytes 8 v). split; [apply Hfix, length_le_bytes|].
    unfold entry_to_nsobject, len. rewrite length_le_bytes. cbn -[le_bytes le_Z signed take].
    rewrite take_ge by (by rewrite length_le_bytes). by rewrite (le_Z_le_bytes_u 8 64) by done.
  - exists T_BYTEARRAY, b. split; [|done]. cbn [Z.eqb orb]. rewrite <- app_assoc.
    change (((need 4 ;; n ← get_u32_le; need (Z.to_nat n) ;; v ← buf_take (Z.to_nat n);
              mret (T_BYTEARRAY, v)) : st bytes unit (Z * bytes))
            (le_bytes 4 (len b) ++ b ++ rest) = (rest, Ok (T_BYTEARRAY, b))).
    erewrite st_bind_ok; [|apply need_ok; rewrite length_app, length_le_bytes; lia].
    erewrite st_bind_ok; [|apply get_u32_le_app; unfold in_u, u32_max, len in *; lia].
    apply Hfix. unfold len. lia.
Qed.

Lemma decode_auxiliary_app args fuel rest result :
  Forall prim_wf args -> (length args <= fuel)%nat ->
  decode_auxiliary_n fuel (foldr (fun arg out => encode_prim arg ++ out) rest args) result =
  decode_auxiliary_n (fuel - length args) rest (result ++ map prim_to_ns args).
Proof.
  intros Hw. revert fuel result. induction Hw as [|arg args Ha _ IH]; intros fuel result Hf.
  - simpl. by rewrite app_nil_r, Nat.sub_0_r.
  - cbn [foldr length] in *. destruct fuel as [|fuel]; [lia|]. cbn [decode_auxiliary_n].
    set (tail := foldr _ rest args) in *.
    assert (encode_prim arg = le_bytes 4 T_NULL ++ drop 4 (encode_prim arg)) as Henc.
    { unfold encode_prim. by rewrite drop_app_length' by (by rewrite length_le_bytes). }
    assert (4 <= length (drop 4 (encode_prim arg)))%nat as H4.
    { unfold encode_prim. rewrite drop_app_length' by (by rewrite length_le_bytes).
      destruct arg; rewrite length_app, length_le_bytes; lia. }
    rewrite Henc, <- app_assoc. set (value := drop 4 (encode_prim arg)) in *.
    rewrite (proj2 (Nat.ltb_ge _ _)) by (rewrite length_app, length_le_bytes; lia).
    rewrite read_key_null. cbn [negb orb]. rewrite Z.eqb_refl. cbn [negb orb].
    rewrite (proj2 (Nat.ltb_ge _ _)) by (rewrite length_app; lia).
    destruct (read_value arg tail Ha) as (t & v & Hr & Hv). fold value in Hr. rewrite Hr, Hv.
    rewrite IH by lia. cbn [map]. by rewrite <- app_assoc.
Qed.

Lemma encode_primitive_dict_foldr args rest :
  encode_primitive_dict args ++ rest = foldr (fun arg out => encode_prim arg ++ out) rest args.
Proof.
  unfold encode_primitive_dict. change (foldr ?f ?x ?y) with ([] ++ foldr f x y).
  generalize (@nil byte) as acc. induction args as [|a args IH]; intros acc; simpl; [done|].
  rewrite IH. by rewrite <- app_assoc.
Qed.

(** Round trip of the auxiliary section: decoding an encoded argument list
    gives back every argument, in order, archived blobs unarchived. *)
Theorem dtx_aux_roundtrip args :
  Forall prim_wf args -> decode_auxiliary (encode_primitive_dict args) = Ok (map prim_to_ns args).
Proof.
  intros Hw. rewrite <- (app_nil_r (encode_primitive_dict args)).
  unfold decode_auxiliary. rewrite encode_primitive_dict_foldr.
  assert (length args <= length (foldr (fun arg out => encode_prim arg ++ out) [] args))%nat as Hl.
  { clear. induction args as [|a args IH]; cbn [foldr length]; [lia|]. rewrite length_app.
    assert (4 <= length (encode_prim a))%nat by
      (unfold encode_prim; rewrite length_app, length_le_bytes; lia). lia. }
  rewrite decode_auxiliary_app by (done || lia).
  match goal with |- context [decode_auxiliary_n ?n] => destruct n eqn:E end; [lia|done].
Qed.

(** The auxiliary decoder terminates without a panic on every input. *)
Theorem dtx_aux_total data : exists l, decode_auxiliary data = Ok l.
Proof. apply decode_auxiliary_total. lia. Qed.

End with_archiver.

(** An archiver that archives a string as its bytes, for concrete runs. *)
Definition plain_archiver : Archiver :=
  {| unarchive := fun b => match b with [] => None | _ => Some (AvString b) end;
     archive_string := fun s => s |}.

Lemma dtx_aux_roundtrip_witness :
  decode_auxiliary (AR := plain_archiver)
    (encode_primitive_dict [Int32 (-2); PBytes [x68; x69]; PDouble 5; Int64 36]) =
  Ok [Int (-2); String [x68; x69]; Double 5; Int 36].
Proof.
  refine (dtx_aux_roundtrip (AR := plain_archiver) [Int32 (-2); PBytes [x68; x69]; PDouble 5; Int64 36] _).
  repeat constructor; vm_compute; congruence.
Defined.

End Dtx.
