(* ===== verification/DtxCodec.v ===== *)
(** DTX frames and the DTX connection
    ([crates/ios-core/src/services/dtx/codec.rs]).

    [encode_dtx] and the decoders work on byte strings. The connection is a
    record with the fields of [DtxConnection]; its socket is [rx], the bytes
    that arrive, [closed], whether the peer then closes the stream (otherwise
    the read stays pending until its future is dropped), and [tx], the bytes
    written; [wr] is the schedule of the writes, as in [Socket]. Loops that wait for the peer
    carry fuel; [length rx + 1] rounds are enough because every round reads at
    least a 32-byte header. The [capacity()] of Rust's containers, which the
    memory accounting adds up, is the class [Alloc]. *)

From S2P Require Import Prelude Utf8 Socket DtxTypes.

Module DtxCodec.
Import Dtx.

Definition DTX_MAGIC : Z := 0x795B3D1F.
Definition MAX_DTX_MESSAGE_SIZE : Z := 128 * 1024 * 1024.
Definition MAX_DTX_FRAGMENTS : Z := 1024.
Definition MAX_DTX_HEADER_SIZE : Z := 64 * 1024.
Definition DEFAULT_DTX_MEMORY_BUDGET : Z := 512 * 1024 * 1024.
Definition MAX_IN_FLIGHT_FRAGMENTED_MESSAGES : nat := 64.
Definition MAX_QUEUED_MESSAGES : nat := 1024.
Definition MAX_PENDING_REPLIES : nat := 1024.

Definition MSG_OK : Z := 0.
Definition MSG_UNKNOWN_TYPE_ONE : Z := 1.
Definition MSG_METHOD_INVOCATION : Z := 2.
Definition MSG_RESPONSE : Z := 3.
Definition MSG_ERROR : Z := 4.
Definition MSG_BARRIER : Z := 5.

Inductive DtxError : Type :=
| Io
| BadMagic (magic : Z)
| Protocol (m : msg).
#[export] Instance dtx_io_error : Socket.IoError DtxError := Io.

(** ** Memory budget *)

Record DtxMemoryBudget := mkBudget { limit : Z; used : Z }.

Definition budget_new (limit : Z) : DtxMemoryBudget := mkBudget limit 0.

Definition budget_try_reserve (b : DtxMemoryBudget) (n : Z) : outcome DtxError DtxMemoryBudget :=
  let new_used := used b + n in
  if usize_max <? new_used
  then Err (Protocol (Msg "DTX memory accounting overflow reserving {bytes} bytes" [n; used b; limit b]))
  else if limit b <? new_used
  then Err (Protocol (Msg "DTX memory budget exceeded reserving {bytes} bytes" [n; used b; limit b]))
  else Ok (mkBudget (limit b) new_used).

(** [saturating_sub] *)
Definition budget_release (b : DtxMemoryBudget) (n : Z) : DtxMemoryBudget :=
  mkBudget (limit b) (sat_sub (used b) n).

Definition checked_size_add (total n : Z) : outcome DtxError Z :=
  if usize_max <? total + n
  then Err (Protocol (Msg "DTX memory size overflow while measuring" [total; n])) else Ok (total + n).
Definition checked_size_mul (l r : Z) : outcome DtxError Z :=
  if usize_max <? l * r
  then Err (Protocol (Msg "DTX memory size overflow while measuring" [l; r])) else Ok (l * r).

(** Capacities of the containers a value is held in, and the size of a slot. *)
Class Alloc := {
  string_capacity : bytes -> Z;
  vec_capacity : list NSObject -> Z;
  map_capacity : list (bytes * NSObject) -> Z;
  size_of_NSObject : Z;
  size_of_entry : Z;
  string_capacity_ge : forall s, len s <= string_capacity s;
  vec_capacity_ge : forall l, len l <= vec_capacity l;
  map_capacity_ge : forall m, len m <= map_capacity m;
  size_of_NSObject_pos : 0 < size_of_NSObject;
  size_of_entry_pos : 0 < size_of_entry;
}.

Section codec.
Context {AR : Archiver} {AL : Alloc}.

Fixpoint ns_object_memory_size (value : NSObject) : outcome DtxError Z :=
  match value with
  | String s => checked_size_add 0 (string_capacity s)
  | Data d => checked_size_add 0 (len d)
  | Array values =>
      slots ← checked_size_mul (vec_capacity values) size_of_NSObject;
      size ← checked_size_add 0 slots;
      foldM (fun v size => n ← ns_object_memory_size v; checked_size_add size n) values size
  | Dict values =>
      slots ← checked_size_mul (map_capacity values) size_of_entry;
      size ← checked_size_add 0 slots;
      foldM (fun '(k, v) size =>
               size ← checked_size_add size (string_capacity k);
               n ← ns_object_memory_size v;
               checked_size_add size n) values size
  | _ => Ok 0
  end.

Definition ns_objects_memory_size (l : list NSObject) (size : Z) : outcome DtxError Z :=
  slots ← checked_size_mul (vec_capacity l) size_of_NSObject;
  size ← checked_size_add size slots;
  foldM (fun v size => n ← ns_object_memory_size v; checked_size_add size n) l size.

Definition dtx_message_memory_size (message : DtxMessage) : outcome DtxError Z :=
  match payload message with
  | MethodInvocation selector args =>
      size ← checked_size_add 0 (string_capacity selector);
      ns_objects_memory_size args size
  | Response value => n ← ns_object_memory_size value; checked_size_add 0 n
  | Notification name object =>
      size ← checked_size_add 0 (string_capacity name);
      n ← ns_object_memory_size object; checked_size_add size n
  | Raw b => checked_size_add 0 (len b)
  | RawWithAux b aux =>
      size ← checked_size_add 0 (len b);
      ns_objects_memory_size aux size
  | Empty => Ok 0
  end.

(** ** Frame encoder *)

Definition encode_dtx (identifier conv_idx channel_code : Z) (expects_reply : bool)
  (msg_type : Z) (payload aux_bytes : bytes) : bytes :=
  let aux_len := len aux_bytes in
  let payload_len := len payload in
  let aux_with_hdr := if 0 <? aux_len then aux_len + 16 else 0 in
  let total_payload := aux_with_hdr + payload_len in
  let msg_len := 16 + aux_with_hdr + payload_len in
  be_bytes 4 DTX_MAGIC ++ le_bytes 4 32 ++ le_bytes 2 0 ++ le_bytes 2 1 ++
  le_bytes 4 msg_len ++ le_bytes 4 identifier ++ le_bytes 4 conv_idx ++
  le_bytes 4 channel_code ++ le_bytes 4 (if expects_reply then 1 else 0) ++
  le_bytes 4 msg_type ++ le_bytes 4 aux_with_hdr ++ le_bytes 4 total_payload ++ le_bytes 4 0 ++
  (if 0 <? aux_len
   then le_bytes 4 496 ++ le_bytes 4 0 ++ le_bytes 4 aux_len ++ le_bytes 4 0 ++ aux_bytes
   else []) ++
  payload.

(** [i32::saturating_neg], [u32::saturating_add(1)] *)
Definition saturating_neg (z : Z) : Z := if z =? i32_min then i32_max else - z.
Definition saturating_succ (z : Z) : Z := if z =? u32_max then u32_max else z + 1.

Definition encode_ack (m : DtxMessage) : bytes :=
  let conv := saturating_succ (conversation_idx m) in
  let wire_channel_code := if conv mod 2 =? 0 then channel_code m else saturating_neg (channel_code m) in
  be_bytes 4 DTX_MAGIC ++ le_bytes 4 32 ++ le_bytes 2 0 ++ le_bytes 2 1 ++
  le_bytes 4 16 ++ le_bytes 4 (identifier m) ++ le_bytes 4 conv ++
  le_bytes 4 wire_channel_code ++ le_bytes 4 0 ++
  le_bytes 4 MSG_OK ++ le_bytes 4 0 ++ le_bytes 4 0 ++ le_bytes 4 0.

(** ** Frame decoder *)

Record DtxHeader := mkHeader {
  header_len : Z;
  frag_idx : Z;
  frag_cnt : Z;
  msg_len : Z;
  h_identifier : Z;
  h_conv_idx : Z;
  h_channel_code : Z;
  h_expects_reply : bool;
}.

Definition parse_dtx_header (hdr : bytes) : outcome DtxError DtxHeader :=
  b ← slice hdr 0 4;
  let magic := be_Z b in
  if negb (magic =? DTX_MAGIC) then Err (BadMagic magic) else
  b ← slice hdr 4 8;
  let header_len := le_Z b in
  if negb ((32 <=? header_len) && (header_len <=? MAX_DTX_HEADER_SIZE))
  then Err (Protocol (Msg "invalid DTX header length: {header_len}" [header_len])) else
  b ← slice hdr 8 10;
  let frag_idx := le_Z b in
  b ← slice hdr 10 12;
  let frag_cnt := le_Z b in
  if frag_cnt =? 0 then Err (Protocol (Msg "invalid DTX fragment count: 0" [])) else
  if MAX_DTX_FRAGMENTS <? frag_cnt
  then Err (Protocol (Msg "DTX message has too many fragments: {} exceeds {}" [frag_cnt; MAX_DTX_FRAGMENTS])) else
  if frag_cnt <=? frag_idx
  then Err (Protocol (Msg "invalid DTX fragment index {frag_idx} for count {frag_cnt}" [frag_idx; frag_cnt])) else
  b ← slice hdr 12 16;
  let msg_len := le_Z b in
  if MAX_DTX_MESSAGE_SIZE <? msg_len
  then Err (Protocol (Msg "DTX message length {msg_len} exceeds max {}" [msg_len; MAX_DTX_MESSAGE_SIZE])) else
  if (1 <? frag_cnt) && (frag_idx =? 0) && (msg_len =? 0)
  then Err (Protocol (Msg "multi-fragment first header declares zero total size" [])) else
  id ← slice hdr 16 20;
  conv ← slice hdr 20 24;
  ch ← slice hdr 24 28;
  er ← slice hdr 28 32;
  Ok (mkHeader header_len frag_idx frag_cnt msg_len (le_Z id) (le_Z conv)
        (signed 32 (le_Z ch)) (negb (le_Z er =? 0))).

(** [decode_auxiliary] returns for every input ([dtx_aux_total]); its value. *)
Definition aux_args (aux : bytes) : list NSObject :=
  match decode_auxiliary aux with Ok l => l | _ => [] end.

Definition decode_payload (msg_type : Z) (payload : bytes) (aux : option bytes) : DtxPayload :=
  if msg_type =? MSG_OK then Empty
  else if msg_type =? MSG_METHOD_INVOCATION then
    let args := from_option aux_args [] aux in
    match payload with
    | [] => MethodInvocation [] args
    | _ => match unarchive payload ≫= as_str with
           | Some selector => MethodInvocation selector args
           | None => MethodInvocation [] (Data payload :: args)
           end
    end
  else if (msg_type =? MSG_RESPONSE) || (msg_type =? MSG_ERROR) then
    match payload with
    | [] => Response Null
    | _ => Response (from_option archive_to_ns (Data payload) (unarchive payload))
    end
  else if msg_type =? MSG_BARRIER then Empty
  else if msg_type =? MSG_UNKNOWN_TYPE_ONE then
    match aux with
    | Some aux => RawWithAux payload (aux_args aux)
    | None => Raw payload
    end
  else match payload with [] => Empty | _ => Raw payload end.

Definition decode_dtx_body_from_slice (h : DtxHeader) (body_slice : bytes) : outcome DtxError DtxMessage :=
  if len body_slice <? 16
  then Err (Protocol (Msg "DTX payload header truncated: got {} bytes, need at least 16" [len body_slice])) else
  if negb (len body_slice =? msg_len h)
  then Err (Protocol (Msg "DTX body size mismatch: got {} bytes, header declares {}" [len body_slice; msg_len h])) else
  ph ← slice body_slice 0 16;
  b ← slice ph 0 4; let msg_type := le_Z b in
  b ← slice ph 4 8; let aux_len := le_Z b in
  b ← slice ph 8 12; let total_pay := le_Z b in
  if total_pay <? aux_len
  then Err (Protocol (Msg "aux_len ({aux_len}) exceeds total_pay ({total_pay})" [aux_len; total_pay])) else
  if (0 <? aux_len) && (aux_len <? 16)
  then Err (Protocol (Msg "auxiliary section is too short for its header: {aux_len} bytes" [aux_len])) else
  let pay_len := total_pay - aux_len in
  rest ← slice body_slice 16 (length body_slice);
  if negb (total_pay =? len rest)
  then Err (Protocol (Msg "DTX payload length mismatch: header declares {total_pay} bytes, body has {}" [total_pay; len rest])) else
  aux_data ←
    (if 0 <? aux_len then
       b ← slice rest 8 12;
       let actual_aux := le_Z b in
       if sat_sub aux_len 16 <? actual_aux
       then Err (Protocol (Msg "auxiliary data size ({actual_aux}) exceeds available space ({})" [actual_aux; sat_sub aux_len 16])) else
       let aux_end := 16 + actual_aux in
       if len rest <? aux_end then Err (Protocol (Msg "aux data truncated" [])) else
       a ← slice rest 16 (Z.to_nat aux_end); Ok (Some a)
     else Ok None);
  let pay_start := aux_len in
  let pay_end := pay_start + pay_len in
  if usize_max <? pay_end then Err (Protocol (Msg "DTX payload length overflow" [])) else
  if len rest <? pay_end
  then Err (Protocol (Msg "DTX payload extends beyond body: end={pay_end}, body={}" [pay_end; len rest])) else
  payload_bytes ← (if 0 <? pay_len then slice rest (Z.to_nat pay_start) (Z.to_nat pay_end) else Ok []);
  Ok (mkMessage (h_identifier h) (h_conv_idx h) (h_channel_code h) (h_expects_reply h)
        (decode_payload msg_type payload_bytes aux_data)).

Definition decode_dtx_message_from_bytes (data : bytes) : outcome DtxError (option (DtxMessage * Z)) :=
  if len data <? 32 then Ok None else
  header_bytes ← slice data 0 32;
  header ← parse_dtx_header header_bytes;
  let total_len := header_len header + msg_len header in
  if usize_max <? total_len then Err (Protocol (Msg "DTX frame length overflow" [])) else
  if len data <? total_len then Ok None else
  body ← slice data (Z.to_nat (header_len header)) (Z.to_nat total_len);
  message ← decode_dtx_body_from_slice header body;
  Ok (Some (message, total_len)).

Definition normalize_incoming_channel_code (channel_code conversation_idx : Z) : outcome DtxError Z :=
  if conversation_idx mod 2 =? 0 then
    if channel_code =? i32_min
    then Err (Protocol (Msg "cannot normalize incoming channel code" [channel_code; conversation_idx]))
    else Ok (- channel_code)
  else Ok channel_code.

(** ** The connection *)

Record FragmentAccum := mkAccum {
  header : DtxHeader;
  fragments : list (option bytes);
  remaining : Z;
  received : Z;
  reserved_bytes : Z;
}.

Record BufferedMessage := mkBuffered { message : DtxMessage; b_reserved : Z }.

Record DtxConnection := mkConn {
  rx : bytes;
  closed : bool;
  tx : bytes;
  wr : list Net.wr_event;
  next_identifier : Z;
  channel_counter : Z;
  pending_replies : gmap Z BufferedMessage;
  outstanding_reply_ids : gset Z;
  queued_messages : list BufferedMessage;
  conn_fragments : gmap Z FragmentAccum;
  memory_budget : DtxMemoryBudget;
}.

Definition with_memory_limit (rx : bytes) (closed : bool) (wr : list Net.wr_event) (memory_limit : Z) : DtxConnection :=
  mkConn rx closed [] wr 5 1 ∅ ∅ [] ∅ (budget_new memory_limit).
Definition new (rx : bytes) (closed : bool) (wr : list Net.wr_event) : DtxConnection :=
  with_memory_limit rx closed wr DEFAULT_DTX_MEMORY_BUDGET.

Definition memory_bytes_used (c : DtxConnection) : Z := used (memory_budget c).
Definition memory_limit (c : DtxConnection) : Z := limit (memory_budget c).

Definition set_rx v c := mkConn v (closed c) (tx c) (wr c) (next_identifier c) (channel_counter c)
  (pending_replies c) (outstanding_reply_ids c) (queued_messages c) (conn_fragments c) (memory_budget c).
Definition set_tx v f c := mkConn (rx c) (closed c) v f (next_identifier c) (channel_counter c)
  (pending_replies c) (outstanding_reply_ids c) (queued_messages c) (conn_fragments c) (memory_budget c).
Definition set_identifier v c := mkConn (rx c) (closed c) (tx c) (wr c) v (channel_counter c)
  (pending_replies c) (outstanding_reply_ids c) (queued_messages c) (conn_fragments c) (memory_budget c).
Definition set_channel_counter v c := mkConn (rx c) (closed c) (tx c) (wr c) (next_identifier c) v
  (pending_replies c) (outstanding_reply_ids c) (queued_messages c) (conn_fragments c) (memory_budget c).
Definition set_pending v c := mkConn (rx c) (closed c) (tx c) (wr c) (next_identifier c) (channel_counter c)
  v (outstanding_reply_ids c) (queued_messages c) (conn_fragments c) (memory_budget c).
Definition set_outstanding v c := mkConn (rx c) (closed c) (tx c) (wr c) (next_identifier c) (channel_counter c)
  (pending_replies c) v (queued_messages c) (conn_fragments c) (memory_budget c).
Definition set_queued v c := mkConn (rx c) (closed c) (tx c) (wr c) (next_identifier c) (channel_counter c)
  (pending_replies c) (outstanding_reply_ids c) v (conn_fragments c) (memory_budget c).
Definition set_fragments v c := mkConn (rx c) (closed c) (tx c) (wr c) (next_identifier c) (channel_counter c)
  (pending_replies c) (outstanding_reply_ids c) (queued_messages c) v (memory_budget c).
Definition set_budget v c := mkConn (rx c) (closed c) (tx c) (wr c) (next_identifier c) (channel_counter c)
  (pending_replies c) (outstanding_reply_ids c) (queued_messages c) (conn_fragments c) v.

Abbreviation conn := (st DtxConnection DtxError).

(** [read_exact]: when too few bytes arrive they are consumed all the same, and
    the read fails or, on an open stream, is dropped by the caller. *)
Definition read_exact (n : Z) : conn bytes := fun c =>
  if len (rx c) <? n then (set_rx [] c, if closed c then Err Io else Pending)
  else (set_rx (drop (Z.to_nat n) (rx c)) c, Ok (take (Z.to_nat n) (rx c))).

(** [write_all] and [flush] on the stream: a call that fails or is dropped while it
    sends may have written a part of [data]. *)
Definition send_raw (data : bytes) : conn unit := fun c =>
  let '(s, o) := (Socket.write_all data ;; Socket.flush) (Socket.mkSocket [] (wr c) (tx c)) in
  (set_tx (Socket.tx s) (Socket.wr s) c, o).

Definition next_id : conn Z :=
  id ← st_gets next_identifier;
  if u32_max <? id + 1 then st_fail (Protocol (Msg "DTX message identifier exhausted" []))
  else st_mod (set_identifier (id + 1)) ;; mret id.

Definition next_channel_code : conn Z :=
  code ← st_gets channel_counter;
  if i32_max <? code + 1 then st_fail (Protocol (Msg "DTX channel code exhausted" []))
  else st_mod (set_channel_counter (code + 1)) ;; mret code.

Definition send_ack (m : DtxMessage) : conn unit := send_raw (encode_ack m).

Definition try_reserve (n : Z) : conn unit :=
  c ← st_get;
  b ← st_lift (budget_try_reserve (memory_budget c) n);
  st_mod (set_budget b).
Definition release (n : Z) : conn unit :=
  st_mod (fun c => set_budget (budget_release (memory_budget c) n) c).

(** [checked_sub(a).checked_add(b)] against the limit, shared by the two checks
    below: the projected use. *)
Definition projected_budget (b : DtxMemoryBudget) (old_bytes new_bytes : Z) : outcome DtxError Z :=
  if used b <? old_bytes
  then Err (Protocol (Msg "DTX memory accounting underflow" [used b; old_bytes; new_bytes])) else
  let current := used b - old_bytes in
  let projected := current + new_bytes in
  if usize_max <? projected
  then Err (Protocol (Msg "DTX memory accounting overflow" [current; old_bytes; new_bytes; limit b]))
  else if limit b <? projected
  then Err (Protocol (Msg "DTX memory budget exceeded" [current; old_bytes; new_bytes; limit b]))
  else Ok projected.

Definition adjust_replacement_budget (old_bytes new_bytes : Z) : conn unit :=
  c ← st_get;
  projected ← st_lift (projected_budget (memory_budget c) old_bytes new_bytes);
  st_mod (set_budget (mkBudget (limit (memory_budget c)) projected)).

Definition ensure_budget_after_release (released_bytes added_bytes : Z) : conn unit :=
  c ← st_get;
  st_lift (projected_budget (memory_budget c) released_bytes added_bytes) ;;
  mret tt.

Definition buffer_reply (m : DtxMessage) : conn unit :=
  c ← st_get;
  let id := identifier m in
  if bool_decide (pending_replies c !! id = None) && (MAX_PENDING_REPLIES <=? size (pending_replies c))%nat
  then st_fail (Protocol (Msg "DTX pending reply backlog full: {} entries exceeds {}"
                  [Z.of_nat (size (pending_replies c)); Z.of_nat MAX_PENDING_REPLIES])) else
  reserved ← st_lift (dtx_message_memory_size m);
  let old_bytes := from_option b_reserved 0 (pending_replies c !! id) in
  adjust_replacement_budget old_bytes reserved ;;
  st_mod (fun c => set_pending (<[id := mkBuffered m reserved]> (pending_replies c)) c).

Definition queue_message (m : DtxMessage) : conn unit :=
  reserved ← st_lift (dtx_message_memory_size m);
  c ← st_get;
  let full := (MAX_QUEUED_MESSAGES <=? length (queued_messages c))%nat in
  let dropped_bytes := if full then from_option b_reserved 0 (head (queued_messages c)) else 0 in
  ensure_budget_after_release dropped_bytes reserved ;;
  (if full then
     match queued_messages c with
     | dropped :: q => st_mod (set_queued q) ;; release (b_reserved dropped)
     | [] => mret tt
     end
   else mret tt) ;;
  try_reserve reserved ;;
  st_mod (fun c => set_queued (queued_messages c ++ [mkBuffered m reserved]) c).

Definition remove_pending_reply (id : Z) : conn (option DtxMessage) :=
  c ← st_get;
  match pending_replies c !! id with
  | Some buffered =>
      st_mod (fun c => set_pending (delete id (pending_replies c)) c) ;;
      release (b_reserved buffered) ;;
      mret (Some (message buffered))
  | None => mret None
  end.

Definition pop_queued_message : conn (option DtxMessage) :=
  c ← st_get;
  match queued_messages c with
  | buffered :: q =>
      st_mod (set_queued q) ;; release (b_reserved buffered) ;; mret (Some (message buffered))
  | [] => mret None
  end.

Definition clear_fragments : conn unit :=
  c ← st_get;
  st_mod (set_fragments ∅) ;;
  st_mod (fun c' => foldr (fun a c' => set_budget (budget_release (memory_budget c') (reserved_bytes a)) c')
                      c' (snd <$> map_to_list (conn_fragments c))).

Definition is_reply_message (c : DtxConnection) (m : DtxMessage) : bool :=
  (0 <? conversation_idx m) && bool_decide (identifier m ∈ outstanding_reply_ids c).

Definition read_dtx_header : conn DtxHeader :=
  hdr ← read_exact 32;
  h ← st_lift (parse_dtx_header hdr);
  (if 32 <? header_len h then read_exact (header_len h - 32) ;; mret tt else mret tt) ;;
  mret h.

Definition read_dtx_body (h : DtxHeader) (body : bytes) : conn DtxMessage :=
  body_slice ← (match body with
                | [] => if 0 <? msg_len h then read_exact (msg_len h) else mret body
                | _ => mret body
                end);
  st_lift (decode_dtx_body_from_slice h body_slice).

(** One frame without reassembly; the reader is the connection's stream. *)
Definition read_dtx_frame : conn DtxMessage :=
  h ← read_dtx_header;
  let bare := mkMessage (h_identifier h) (h_conv_idx h) (h_channel_code h) (h_expects_reply h) Empty in
  if (1 <? frag_cnt h) && (frag_idx h =? 0) then mret bare
  else if msg_len h =? 0 then mret bare
  else read_dtx_body h [].

(** [msg.channel_code = normalize_incoming_channel_code(..)?] *)
Definition normalized (m : DtxMessage) : conn DtxMessage :=
  code ← st_lift (normalize_incoming_channel_code (channel_code m) (conversation_idx m));
  mret (mkMessage (identifier m) (conversation_idx m) code (expects_reply m) (payload m)).

(** [let r = m.await; k; r?]: the clean-up runs when [m] returns, with a value
    or an error; a dropped future never gets to it. *)
Definition finally {A} (m : conn A) (k : conn unit) : conn A := fun c =>
  match m c with
  | (c', Ok a) => (k ;; mret a) c'
  | (c', Err e) => (k ;; st_fail e) c'
  | r => r
  end.

(** [let r = m.await; if r.is_err() { k }; r] *)
Definition on_err {A} (m : conn A) (k : conn unit) : conn A := fun c =>
  match m c with
  | (c', Err e) => (k ;; st_fail e) c'
  | r => r
  end.

Definition recv_single (h : DtxHeader) : conn DtxMessage :=
  if msg_len h =? 0 then
    code ← st_lift (normalize_incoming_channel_code (h_channel_code h) (h_conv_idx h));
    mret (mkMessage (h_identifier h) (h_conv_idx h) code (h_expects_reply h) Empty)
  else
    try_reserve (msg_len h) ;;
    m ← finally (read_dtx_body h []) (release (msg_len h));
    normalized m.

Definition recv_first_fragment (h : DtxHeader) : conn unit :=
  c ← st_get;
  if bool_decide (is_Some (conn_fragments c !! h_identifier h))
  then st_fail (Protocol (Msg "duplicate first fragment for id={}" [h_identifier h])) else
  if (MAX_IN_FLIGHT_FRAGMENTED_MESSAGES <=? size (conn_fragments c))%nat
  then st_fail (Protocol (Msg "too many in-flight fragmented DTX messages: {} exceeds {}"
                  [Z.of_nat (size (conn_fragments c)); Z.of_nat MAX_IN_FLIGHT_FRAGMENTED_MESSAGES])) else
  st_mod (fun c => set_fragments
    (<[h_identifier h := mkAccum h (replicate (Z.to_nat (frag_cnt h - 1)) None) (frag_cnt h - 1) 0 0]>
       (conn_fragments c)) c).

(** The checks on a body fragment before its bytes are read. *)
Definition check_fragment (h : DtxHeader) (slot_idx : nat) (accum : FragmentAccum)
  : conn unit :=
  let id := h_identifier h in
  if negb (frag_cnt h =? frag_cnt (header accum))
  then st_fail (Protocol (Msg "fragment count mismatch for id={id}: got={} expected={}" [id; frag_cnt h; frag_cnt (header accum)])) else
  if negb (h_conv_idx h =? h_conv_idx (header accum))
     || negb (h_channel_code h =? h_channel_code (header accum))
     || negb (Bool.eqb (h_expects_reply h) (h_expects_reply (header accum)))
  then st_fail (Protocol (Msg "fragment metadata mismatch for id={id}" [id])) else
  match fragments accum !! slot_idx with
  | None => st_fail (Protocol (Msg "fragment index {} out of range for id={id}" [frag_idx h; id]))
  | Some (Some _) => st_fail (Protocol (Msg "duplicate fragment {} for id={id}" [frag_idx h; id]))
  | Some None =>
      if sat_sub (msg_len (header accum)) (received accum) <? msg_len h
      then st_fail (Protocol (Msg "fragmented body for id={id} exceeds announced size {announced}" [id; msg_len (header accum)]))
      else mret tt
  end.

(** [for (index, fragment) in accum.fragments { body.extend_from_slice(&fragment?) }] *)
Fixpoint assemble (l : list (option bytes)) : option bytes :=
  match l with
  | [] => Some []
  | Some f :: l => b ← assemble l; Some (f ++ b)
  | None :: _ => None
  end.

(** All fragments are there: reassemble, decode and hand the message out. *)
Definition finish_fragments (accum : FragmentAccum) : conn DtxMessage :=
  let id := h_identifier (header accum) in
  let total := msg_len (header accum) in
  if negb (received accum =? total)
  then release (reserved_bytes accum) ;;
       st_fail (Protocol (Msg "fragmented body size mismatch for id={id}" [id; received accum; total])) else
  c ← st_get;
  match budget_try_reserve (memory_budget c) total with
  | Ok b =>
      st_mod (set_budget b) ;;
      match assemble (fragments accum) with
      | None =>
          release (reserved_bytes accum) ;; release total ;;
          st_fail (Protocol (Msg "missing fragment for id={id}" [id]))
      | Some body =>
          if negb (len body =? total)
          then release (reserved_bytes accum) ;; release total ;;
               st_fail (Protocol (Msg "fragmented body size mismatch for id={id}" [id; len body; total])) else
          release (reserved_bytes accum) ;;
          m ← finally (read_dtx_body (header accum) body) (release total);
          normalized m
      end
  | Err e => release (reserved_bytes accum) ;; st_fail e
  | _ => st_lift Panic
  end.

(** A later fragment; [Some m] when it completes the message, [None] to go on. *)
Definition recv_fragment (h : DtxHeader) : conn (option DtxMessage) :=
  let id := h_identifier h in
  let slot_idx := Z.to_nat (frag_idx h - 1) in
  c ← st_get;
  match conn_fragments c !! id with
  | None => st_fail (Protocol (Msg "fragment id={id} frag_idx={} without first fragment" [id; frag_idx h]))
  | Some accum =>
      check_fragment h slot_idx accum ;;
      try_reserve (msg_len h) ;;
      frag_body ← on_err (read_exact (msg_len h)) (release (msg_len h));
      let received' := received accum + len frag_body in
      if usize_max <? received'
      then release (msg_len h) ;; st_fail (Protocol (Msg "fragmented body byte count overflow for id={id}" [id])) else
      let reserved' := reserved_bytes accum + msg_len h in
      if usize_max <? reserved'
      then release (msg_len h) ;; st_fail (Protocol (Msg "fragment memory accounting overflow for id={id}" [id])) else
      (* [accum.remaining -= 1] on a [u16] *)
      if remaining accum =? 0 then st_lift Panic else
      let accum' := mkAccum (header accum) (<[slot_idx := Some frag_body]> (fragments accum))
                      (remaining accum - 1) received' reserved' in
      if remaining accum' =? 0 then
        st_mod (fun c => set_fragments (delete id (conn_fragments c)) c) ;;
        m ← finish_fragments accum'; mret (Some m)
      else
        st_mod (fun c => set_fragments (<[id := accum']> (conn_fragments c)) c) ;;
        mret None
  end.

(** One round of the receive loop. *)
Definition recv_round : conn (option DtxMessage) :=
  h ← read_dtx_header;
  if frag_cnt h <=? 1 then m ← recv_single h; mret (Some m)
  else if frag_idx h =? 0 then recv_first_fragment h ;; mret None
  else recv_fragment h.

Fixpoint recv_from_stream_inner (fuel : nat) : conn DtxMessage :=
  match fuel with
  | O => st_lift OutOfFuel
  | S fuel =>
      r ← recv_round;
      match r with
      | Some m => mret m
      | None => recv_from_stream_inner fuel
      end
  end.

Definition recv_from_stream (fuel : nat) : conn DtxMessage :=
  on_err (recv_from_stream_inner fuel) clear_fragments.

Definition forget_reply (id : Z) : conn unit :=
  st_mod (fun c => set_outstanding (outstanding_reply_ids c ∖ {[id]}) c).

Fixpoint wait_loop (fuel : nat) (id : Z) : conn DtxMessage :=
  match fuel with
  | O => st_lift OutOfFuel
  | S fuel' =>
      m ← recv_from_stream fuel;
      c ← st_get;
      if is_reply_message c m then
        if identifier m =? id then forget_reply id ;; mret m
        else buffer_reply m ;; wait_loop fuel' id
      else
        (if expects_reply m then send_ack m else mret tt) ;;
        queue_message m ;;
        wait_loop fuel' id
  end.

Definition wait_for_reply (id : Z) : conn DtxMessage :=
  r ← remove_pending_reply id;
  match r with
  | Some m => forget_reply id ;; mret m
  | None => c ← st_get; wait_loop (S (length (rx c))) id
  end.

Fixpoint recv_loop (fuel : nat) : conn DtxMessage :=
  match fuel with
  | O => st_lift OutOfFuel
  | S fuel' =>
      m ← recv_from_stream fuel;
      c ← st_get;
      if is_reply_message c m then buffer_reply m ;; recv_loop fuel' else mret m
  end.

Definition recv : conn DtxMessage :=
  r ← pop_queued_message;
  match r with
  | Some m => mret m
  | None => c ← st_get; recv_loop (S (length (rx c)))
  end.

(** [let result = wait_for_reply(id).await; if result.is_err() { .. }; result?] *)
Definition await_reply (id : Z) : conn DtxMessage :=
  st_mod (fun c => set_outstanding ({[id]} ∪ outstanding_reply_ids c) c) ;;
  on_err (wait_for_reply id) (forget_reply id).

Definition request_channel_selector : bytes :=
  Stdlib.Strings.String.list_byte_of_string "_requestChannelWithCode:identifier:".

Definition request_channel (service_name : bytes) : conn Z :=
  code ← next_channel_code;
  id ← next_id;
  let aux := encode_primitive_dict [Int32 code; PBytes (archive_string service_name)] in
  send_raw (encode_dtx id 0 0 true MSG_METHOD_INVOCATION (archive_string request_channel_selector) aux) ;;
  await_reply id ;;
  mret code.

Definition call_aux (args : list PrimArg) : bytes :=
  match args with [] => [] | _ => encode_primitive_dict args end.

Definition method_call (channel_code : Z) (selector : bytes) (args : list PrimArg)
  : conn DtxMessage :=
  id ← next_id;
  send_raw (encode_dtx id 0 channel_code true MSG_METHOD_INVOCATION (archive_string selector) (call_aux args)) ;;
  await_reply id.

Definition method_call_async (channel_code : Z) (selector : bytes) (args : list PrimArg)
  : conn unit :=
  id ← next_id;
  send_raw (encode_dtx id 0 channel_code false MSG_METHOD_INVOCATION (archive_string selector) (call_aux args)).

(** [Drop] *)
Definition drop_connection : conn unit :=
  st_mod (fun c => set_budget (mkBudget (limit (memory_budget c)) 0)
    (set_fragments ∅ (set_outstanding ∅ (set_queued [] (set_pending ∅ c))))).

(** ** Headers on the wire *)

Definition header_ok (h : DtxHeader) : Prop :=
  32 <= header_len h <= MAX_DTX_HEADER_SIZE /\
  0 <= frag_idx h < frag_cnt h /\ frag_cnt h <= MAX_DTX_FRAGMENTS /\
  0 <= msg_len h <= MAX_DTX_MESSAGE_SIZE /\
  (1 < frag_cnt h -> frag_idx h = 0 -> msg_len h <> 0) /\
  in_u 32 (h_identifier h) /\ in_u 32 (h_conv_idx h) /\ in_i 32 (h_channel_code h).

(** The layout of the 32-byte header. *)
Definition wire_header (h : DtxHeader) : bytes :=
  be_bytes 4 DTX_MAGIC ++ le_bytes 4 (header_len h) ++ le_bytes 2 (frag_idx h) ++
  le_bytes 2 (frag_cnt h) ++ le_bytes 4 (msg_len h) ++ le_bytes 4 (h_identifier h) ++
  le_bytes 4 (h_conv_idx h) ++ le_bytes 4 (h_channel_code h) ++
  le_bytes 4 (if h_expects_reply h then 1 else 0).

Lemma length_wire_header h : length (wire_header h) = 32%nat.
Proof. reflexivity. Qed.

Lemma parse_wire_header h : header_ok h -> parse_dtx_header (wire_header h) = Ok h.
Proof.
  intros (Hl & Hf & Hc & Hm & H0 & Hid & Hcv & Hch).
  unfold in_u, MAX_DTX_FRAGMENTS, MAX_DTX_MESSAGE_SIZE, MAX_DTX_HEADER_SIZE in *.
  unfold parse_dtx_header.
  assert (forall a b bs, slice (wire_header h) a b = Ok (E := DtxError) bs ->
    slice (wire_header h) a b = Ok (E := DtxError) bs) as HS by done.
  rewrite (HS 0%nat 4%nat (be_bytes 4 DTX_MAGIC) eq_refl).
  rewrite (HS 4%nat 8%nat (le_bytes 4 (header_len h)) eq_refl).
  rewrite (HS 8%nat 10%nat (le_bytes 2 (frag_idx h)) eq_refl).
  rewrite (HS 10%nat 12%nat (le_bytes 2 (frag_cnt h)) eq_refl).
  rewrite (HS 12%nat 16%nat (le_bytes 4 (msg_len h)) eq_refl).
  rewrite (HS 16%nat 20%nat (le_bytes 4 (h_identifier h)) eq_refl).
  rewrite (HS 20%nat 24%nat (le_bytes 4 (h_conv_idx h)) eq_refl).
  rewrite (HS 24%nat 28%nat (le_bytes 4 (h_channel_code h)) eq_refl).
  rewrite (HS 28%nat 32%nat (le_bytes 4 (if h_expects_reply h then 1 else 0)) eq_refl).
  cbn [mbind outcome_bind].
  rewrite (signed_le_Z_le_bytes 4 32) by (done || lia).
  rewrite (be_Z_be_bytes_u 4 32), !(le_Z_le_bytes_u 4 32), !(le_Z_le_bytes_u 2 16)
    by (done || (unfold in_u, DTX_MAGIC; try destruct (h_expects_reply h); lia)).
  unfold MAX_DTX_FRAGMENTS, MAX_DTX_MESSAGE_SIZE, MAX_DTX_HEADER_SIZE.
  rewrite Z.eqb_refl. cbn [negb]. 
  split_ifs; destruct h as [? ? ? ? ? ? ? []]; done || (exfalso; simpl in *; lia).
Qed.

Lemma parse_header_sound hdr :
  length hdr = 32%nat ->
  match parse_dtx_header hdr with
  | Ok h => header_ok h
  | Err _ => True
  | _ => False
  end.
Proof.
  intros Hlen. unfold parse_dtx_header. rewrite !slice_ok by lia. cbn [mbind outcome_bind].
  assert (forall n m, (n + m <= 32)%nat -> 0 <= le_Z (take m (drop n hdr)) < 256 ^ Z.of_nat m) as Hb.
  { intros n m Hnm. pose proof (le_Z_bound (take m (drop n hdr))) as H. unfold len in H.
    rewrite length_take, length_drop in H. by replace (m `min` (length hdr - n))%nat with m in H by lia. }
  pose proof (Hb 8 2)%nat. pose proof (Hb 10 2)%nat. pose proof (Hb 12 4)%nat.
  pose proof (Hb 16 4)%nat. pose proof (Hb 20 4)%nat.
  pose proof (signed_bound 32 (le_Z (take (28 - 24) (drop 24 hdr)))).
  split_ifs; try done.
  unfold header_ok; cbn [header_len frag_idx frag_cnt msg_len h_identifier h_conv_idx h_channel_code].
  cbn [Nat.sub] in *. unfold in_u. repeat split; try lia; apply signed_bound; lia.
Qed.

Lemma decode_body_returns h body : returns (decode_dtx_body_from_slice h body).
Proof.
  unfold decode_dtx_body_from_slice.
  destruct (len body <? 16) eqn:Hl; [done|]. destruct (negb _) eqn:Hm; [done|].
  unfold len in *. rewrite (slice_ok body 0 16) by lia. cbn [mbind outcome_bind].
  rewrite (slice_ok _ 0 4), (slice_ok _ 4 8), (slice_ok _ 8 12), (slice_ok body 16 (length body))
    by (rewrite ?length_take, ?length_drop; lia).
  cbn [mbind outcome_bind].
  set (aux_len := le_Z (take (8 - 4) _)). set (total_pay := le_Z (take (12 - 8) _)).
  set (rest := take (length body - 16) _).
  assert (0 <= aux_len /\ 0 <= total_pay) as [Ha Ht] by (split; apply le_Z_bound).
  destruct (total_pay <? aux_len) eqn:H1; [done|].
  destruct ((0 <? aux_len) && (aux_len <? 16)) eqn:H2; [done|].
  destruct (negb (total_pay =? Z.of_nat (length rest))) eqn:H3; [done|].
  apply returns_bind.
  - destruct (0 <? aux_len) eqn:H4; [|done].
    rewrite slice_ok by lia. cbn [mbind outcome_bind].
    set (actual := le_Z _). assert (0 <= actual) by apply le_Z_bound.
    unfold sat_sub. split_ifs; try done. by rewrite slice_ok by lia.
  - intros aux _. split_ifs; try done. all: by rewrite slice_ok by lia.
Qed.

Lemma slice_prefix {E} (l more : bytes) a b :
  (a <= b <= length l)%nat -> slice (l ++ more) a b = slice (E := E) l a b.
Proof.
  intros H. rewrite !slice_ok by (rewrite ?length_app; lia). f_equal.
  rewrite drop_app_le, take_app_le by (rewrite ?length_drop; lia). done.
Qed.

Lemma decode_dtx_extend data more :
  decode_dtx_message_from_bytes data <> Ok None ->
  decode_dtx_message_from_bytes (data ++ more) = decode_dtx_message_from_bytes data.
Proof.
  unfold decode_dtx_message_from_bytes, len.
  destruct (Z.of_nat (length data) <? 32) eqn:Hlen; [done|].
  replace (Z.of_nat (length (data ++ more)) <? 32) with false by (rewrite length_app; lia).
  rewrite slice_prefix by lia. rewrite slice_ok by lia. cbn [mbind outcome_bind].
  pose proof (parse_header_sound (take (32 - 0) (drop 0 data))) as Hp.
  destruct (parse_dtx_header _) as [h|e| | |]; cbn [mbind outcome_bind]; try done.
  destruct Hp as (Hh & _ & _ & Hm & _); [rewrite length_take, length_drop; lia|].
  destruct (usize_max <? _) eqn:Hu; [done|].
  destruct (Z.of_nat (length data) <? header_len h + msg_len h) eqn:Ht; [done|].
   replace (Z.of_nat (length (data ++ more)) <? header_len h + msg_len h) with false
    by (rewrite length_app; lia).
  by rewrite slice_prefix by lia.
Qed.

Lemma decode_dtx_bounds data :
  match decode_dtx_message_from_bytes data with
  | Ok None | Err _ => True
  | Ok (Some (_, n)) => 32 <= n <= len data
  | _ => False
  end.
Proof.
  unfold decode_dtx_message_from_bytes, len.
  destruct (Z.of_nat (length data) <? 32) eqn:Hlen; [done|].
  rewrite slice_ok by lia. cbn [mbind outcome_bind].
  pose proof (parse_header_sound (take (32 - 0) (drop 0 data))) as Hp.
  assert (length (take (32 - 0) (drop 0 data)) = 32%nat) as Hl
    by (rewrite length_take, length_drop; lia).
  specialize (Hp Hl). destruct (parse_dtx_header _) as [h|e| | |]; cbn [mbind outcome_bind]; try done.
  destruct Hp as (Hh & _ & _ & Hm & _).
  destruct (usize_max <? _) eqn:Hu; [done|].
  destruct (Z.of_nat (length data) <? header_len h + msg_len h) eqn:Ht; [done|].
  rewrite slice_ok by lia. cbn [mbind outcome_bind].
  match goal with |- context [decode_dtx_body_from_slice ?h ?b] =>
    pose proof (decode_body_returns h b) as Hr; destruct (decode_dtx_body_from_slice h b) end;
    cbn [mbind outcome_bind]; try done. lia.
Qed.

(** [decode_dtx_message_from_bytes] never panics. The length it reports
    for a message covers at least the header and at most the input, and the
    answer is stable: bytes that arrive later change neither a decoded message
    nor an error, so a caller may decode as soon as it has enough. *)
Theorem dtx_decode_stable data :
  match decode_dtx_message_from_bytes data with
  | Ok None => True
  | Ok (Some (m, n)) => 32 <= n <= len data /\
      forall more, decode_dtx_message_from_bytes (data ++ more) = Ok (Some (m, n))
  | Err e => forall more, decode_dtx_message_from_bytes (data ++ more) = Err e
  | _ => False
  end.
Proof.
  pose proof (decode_dtx_bounds data) as Hb. pose proof (decode_dtx_extend data) as He.
  destruct (decode_dtx_message_from_bytes data) as [[[m n]|]|e| | |]; try done.
  - split; [done|]. intros more. by apply He.
  - intros more. by apply He.
Qed.

(** The part of a frame after its 32-byte header. *)
Definition aux_section (aux : bytes) : bytes :=
  if 0 <? len aux
  then le_bytes 4 496 ++ le_bytes 4 0 ++ le_bytes 4 (len aux) ++ le_bytes 4 0 ++ aux
  else [].
Definition wire_body (msg_type : Z) (payload aux : bytes) : bytes :=
  le_bytes 4 msg_type ++ le_bytes 4 (len (aux_section aux)) ++
  le_bytes 4 (len (aux_section aux) + len payload) ++ le_bytes 4 0 ++ aux_section aux ++ payload.

Lemma len_aux_section aux :
  len (aux_section aux) = if 0 <? len aux then len aux + 16 else 0.
Proof.
  unfold aux_section. destruct (0 <? len aux); [|done]. rewrite !len_app, !len_le_bytes. lia.
Qed.
Lemma len_wire_body t payload aux :
  len (wire_body t payload aux) = 16 + len (aux_section aux) + len payload.
Proof. unfold wire_body. rewrite !len_app, !len_le_bytes. lia. Qed.

Lemma encode_dtx_wire id conv ch er t payload aux :
  encode_dtx id conv ch er t payload aux =
  wire_header (mkHeader 32 0 1 (len (wire_body t payload aux)) id conv ch er) ++ wire_body t payload aux.
Proof.
  unfold encode_dtx. rewrite <- len_aux_section, len_wire_body.
  change (if 0 <? len aux then le_bytes 4 496 ++ _ else []) with (aux_section aux). reflexivity.
Qed.

Definition aux_of (aux : bytes) : option bytes := match aux with [] => None | _ => Some aux end.

Lemma decode_wire_body h t payload aux :
  in_u 32 t -> len (wire_body t payload aux) <= MAX_DTX_MESSAGE_SIZE ->
  msg_len h = len (wire_body t payload aux) ->
  decode_dtx_body_from_slice h (wire_body t payload aux) =
  Ok (mkMessage (h_identifier h) (h_conv_idx h) (h_channel_code h) (h_expects_reply h)
        (decode_payload t payload (aux_of aux))).
Proof.
  intros Ht Hmax Hm. unfold decode_dtx_body_from_slice. rewrite Hm, Z.eqb_refl.
  rewrite len_wire_body in *. unfold MAX_DTX_MESSAGE_SIZE in Hmax.
  pose proof (len_aux_section aux) as Ha.
  assert (0 <= len aux /\ 0 <= len payload) as [H0 H1] by (unfold len; lia).
  set (b := wire_body t payload aux). 
  assert (slice b 0 16 = Ok (E := DtxError) (le_bytes 4 t ++ le_bytes 4 (len (aux_section aux)) ++
    le_bytes 4 (len (aux_section aux) + len payload) ++ le_bytes 4 0)) as -> by reflexivity.
  assert (slice b 16 (length b) = Ok (E := DtxError) (aux_section aux ++ payload)) as ->.
  { rewrite slice_ok by (pose proof (len_wire_body t payload aux); unfold b, len in *; lia).
    f_equal. rewrite take_ge by (rewrite length_drop; lia). done. }
  cbn [mbind outcome_bind].
  set (ph := le_bytes 4 t ++ _).
  assert (slice ph 0 4 = Ok (E := DtxError) (le_bytes 4 t)) as -> by reflexivity.
  assert (slice ph 4 8 = Ok (E := DtxError) (le_bytes 4 (len (aux_section aux)))) as -> by reflexivity.
  assert (slice ph 8 12 = Ok (E := DtxError) (le_bytes 4 (len (aux_section aux) + len payload))) as -> by reflexivity.
  cbn [mbind outcome_bind]. clear ph.
  rewrite !(le_Z_le_bytes_u 4 32) by (done || (unfold in_u; destruct (0 <? len aux); lia)).
  rewrite len_app, Z.eqb_refl. cbn [negb].
  destruct (16 + _ + _ <? 16) eqn:E1; [destruct (0 <? len aux); lia|].
  destruct (_ + _ <? _) eqn:E2 at 1; [lia|].
  destruct ((0 <? _) && _) eqn:E3 at 1; [destruct (0 <? len aux) eqn:?; lia|].
  clear E1 E2 E3.
  match goal with |- (?x ≫= ?k) = _ => assert (x = Ok (aux_of aux)) as -> end.
  { destruct aux as [|a0 aux']; [done|]. set (aux := a0 :: aux') in *.
    assert (0 < len aux) as Hp by (unfold aux, len; simpl; lia).
    replace (0 <? len aux) with true in Ha by lia. rewrite Ha.
    replace (0 <? len aux + 16) with true by lia.
    unfold aux_section. replace (0 <? len aux) with true by lia.
    match goal with |- context [slice ?l 8 12] =>
      assert (slice l 8 12 = Ok (E := DtxError) (le_bytes 4 (len aux))) as -> by reflexivity end.
    cbn [mbind outcome_bind]. rewrite (le_Z_le_bytes_u 4 32) by (done || (unfold in_u; lia)).
    unfold sat_sub. split_ifs.
    replace (Z.to_nat (16 + len aux)) with (16 + length aux)%nat by (unfold len; lia).
    pose proof (slice_app (E := DtxError) (le_bytes 4 496 ++ le_bytes 4 0 ++ le_bytes 4 (len aux) ++ le_bytes 4 0)
      aux payload) as Hs.
    rewrite <- !app_assoc in *. rewrite !length_app, !length_le_bytes in Hs.
    change (4 + (4 + (4 + 4)))%nat with 16%nat in Hs. by rewrite Hs. }
  cbn [mbind outcome_bind]. unfold usize_max.
  replace (len (aux_section aux) + (len (aux_section aux) + len payload - len (aux_section aux)))
    with (len (aux_section aux) + len payload) by lia.
  destruct (_ <? len (aux_section aux) + len payload) eqn:E1 at 1; [destruct (0 <? len aux); lia|].
  rewrite Z.ltb_irrefl.
  replace (len (aux_section aux) + len payload - len (aux_section aux)) with (len payload) by lia.
  destruct (0 <? len payload) eqn:E2.
  - replace (Z.to_nat (len (aux_section aux))) with (length (aux_section aux)) by (unfold len; lia).
    replace (Z.to_nat (len (aux_section aux) + len payload))
      with (length (aux_section aux) + length payload)%nat by (unfold len; lia).
    rewrite <- (app_nil_r payload) at 1. by rewrite slice_app.
  - destruct payload; [done|]. unfold len in E2. simpl in E2. lia.
Qed.

Lemma decode_wire_frame h t payload aux rest :
  header_ok h -> header_len h = 32 -> in_u 32 t -> msg_len h = len (wire_body t payload aux) ->
  decode_dtx_message_from_bytes (wire_header h ++ wire_body t payload aux ++ rest) =
  Ok (Some (mkMessage (h_identifier h) (h_conv_idx h) (h_channel_code h) (h_expects_reply h)
              (decode_payload t payload (aux_of aux)), 32 + msg_len h)).
Proof.
  intros Hh Hl Ht Hm. pose proof Hh as (_ & _ & _ & Hmax & _).
  unfold decode_dtx_message_from_bytes.
  rewrite !len_app, <- Hm. change (len (wire_header h)) with 32.
  unfold MAX_DTX_MESSAGE_SIZE in Hmax. assert (0 <= len rest) by (unfold len; lia).
  replace (32 + (msg_len h + len rest) <? 32) with false by lia.
  assert (slice (wire_header h ++ wire_body t payload aux ++ rest) 0 32 = Ok (E := DtxError) (wire_header h))
    as -> by reflexivity.
  cbn [mbind outcome_bind]. rewrite parse_wire_header by done. cbn [mbind outcome_bind].
  rewrite Hl. unfold usize_max.
  replace (2 ^ 64 - 1 <? 32 + msg_len h) with false by lia.
  replace (32 + (msg_len h + len rest) <? 32 + msg_len h) with false by lia.
  replace (Z.to_nat 32) with (length (wire_header h)) by done.
  replace (Z.to_nat (32 + msg_len h)) with (length (wire_header h) + length (wire_body t payload aux))%nat
    by (rewrite length_wire_header; unfold len in Hm; lia).
  rewrite slice_app. cbn [mbind outcome_bind].
  rewrite decode_wire_body by (done || (unfold MAX_DTX_MESSAGE_SIZE; lia)). done.
Qed.

(** Frames round trip: what [encode_dtx] writes is decoded to the same
    identifier, conversation, channel and reply flag with the payload and the
    auxiliary section it was given, whatever follows on the stream, and the
    reported length is the length of the frame. *)
Theorem dtx_frame_roundtrip id conv ch er t payload aux rest :
  in_u 32 id -> in_u 32 conv -> in_i 32 ch -> in_u 32 t ->
  len payload + len aux + 32 <= MAX_DTX_MESSAGE_SIZE ->
  decode_dtx_message_from_bytes (encode_dtx id conv ch er t payload aux ++ rest) =
  Ok (Some (mkMessage id conv ch er (decode_payload t payload (aux_of aux)),
            len (encode_dtx id conv ch er t payload aux))).
Proof.
  intros Hid Hcv Hch Ht Hmax. rewrite encode_dtx_wire, <- app_assoc, len_app.
  rewrite decode_wire_frame; try done.
  assert (0 <= len payload /\ 0 <= len aux) as [] by (unfold len; lia).
  pose proof (len_wire_body t payload aux) as Hw. rewrite len_aux_section in Hw.
  unfold header_ok, MAX_DTX_HEADER_SIZE, MAX_DTX_FRAGMENTS, MAX_DTX_MESSAGE_SIZE in *.
  cbn [header_len frag_idx frag_cnt msg_len h_identifier h_conv_idx h_channel_code].
  rewrite Hw. destruct (0 <? len aux); repeat split; try lia; apply Hch || apply Hid || apply Hcv.
Qed.

Lemma encode_ack_frame m :
  encode_ack m = encode_dtx (identifier m) (saturating_succ (conversation_idx m))
    (if saturating_succ (conversation_idx m) mod 2 =? 0 then channel_code m
     else saturating_neg (channel_code m)) false MSG_OK [] [].
Proof. reflexivity. Qed.

(** An acknowledgement goes back to where the message came from: for a
    message that arrived with channel code [wire] and conversation [conv] and
    whose code [recv] normalized, [encode_ack] writes a frame that carries the
    same identifier and channel code, the next conversation index, no payload
    and no reply request. *)
Theorem dtx_ack_targets_sender id conv wire logical er pl rest :
  in_u 32 id -> 0 <= conv < u32_max -> in_i 32 wire ->
  normalize_incoming_channel_code wire conv = Ok logical ->
  decode_dtx_message_from_bytes (encode_ack (mkMessage id conv logical er pl) ++ rest) =
  Ok (Some (mkMessage id (conv + 1) wire false Empty, 48)).
Proof.
  unfold u32_max. intros Hid Hcv Hch Hn. rewrite encode_ack_frame. cbn [identifier conversation_idx channel_code].
  assert (saturating_succ conv = conv + 1) as -> by (unfold saturating_succ, u32_max; split_ifs; lia).
  assert ((if (conv + 1) mod 2 =? 0 then logical else saturating_neg logical) = wire) as ->.
  { unfold normalize_incoming_channel_code, saturating_neg, in_i, i32_min, i32_max in *.
    destruct (conv mod 2 =? 0) eqn:E; [destruct (wire =? _) eqn:E'; [done|]|]; simplify_eq;
      destruct ((conv + 1) mod 2 =? 0) eqn:E1; try (Z.div_mod_to_equations; lia).
    destruct (- wire =? _) eqn:E2; lia. }
  rewrite encode_dtx_wire, <- app_assoc. rewrite decode_wire_frame; try done.
  unfold header_ok. cbn [header_len frag_idx frag_cnt msg_len h_identifier h_conv_idx h_channel_code].
  unfold in_u. repeat split; try done; try lia; apply Hid || apply Hch.
Qed.

End codec.

Lemma dtx_frame_roundtrip_witness :
  decode_dtx_message_from_bytes (AR := plain_archiver)
    (encode_dtx 7 0 (-3) true 2 [x68; x69] (encode_primitive_dict [Int32 9]) ++ [x1f]) =
  Ok (Some (mkMessage 7 0 (-3) true (MethodInvocation [x68; x69] [Int 9]), 78)).
Proof.
  refine (dtx_frame_roundtrip (AR := plain_archiver) 7 0 (-3) true 2 [x68; x69]
    (encode_primitive_dict [Int32 9]) [x1f] _ _ _ _ _); vm_compute; try split; congruence.
Defined.

Lemma dtx_ack_targets_sender_witness :
  decode_dtx_message_from_bytes (AR := plain_archiver)
    (encode_ack (mkMessage 7 4 3 true Empty) ++ []) =
  Ok (Some (mkMessage 7 5 (-3) false Empty, 48)).
Proof.
  refine (dtx_ack_targets_sender (AR := plain_archiver) 7 4 (-3) 3 true Empty [] _ _ _ eq_refl);
    vm_compute; split; congruence.
Defined.

End DtxCodec.
