(* ===== verification/DtxConn.v ===== *)
(** Invariants of the DTX connection
    ([crates/ios-core/src/services/dtx/codec.rs], [impl DtxConnection]).

    The receive side retains replies, queued messages and fragments, all
    charged to one memory budget. [Inv x] says that the budget is exactly what
    the three containers hold plus [x] bytes in flight, that every container is
    within its limit and that every fragment accumulator is consistent. The
    operations are stepped through with the [wpx] rules, one lemma per method;
    [step] is one call of a public method (or the peer sending more bytes). *)

From S2P Require Import Prelude Utf8 Socket DtxTypes DtxCodec.

Module DtxConn.
Import Dtx DtxCodec.
Abbreviation conn := (st DtxConnection DtxError).

(** ** The invariant *)

Definition frag_len (o : option bytes) : Z := from_option len 0 o.
Definition is_missing (o : option bytes) : Z := match o with None => 1 | Some _ => 0 end.

Definition accum_ok (id : Z) (a : FragmentAccum) : Prop :=
  header_ok (header a) /\ 2 <= frag_cnt (header a) /\ h_identifier (header a) = id /\
  len (fragments a) = frag_cnt (header a) - 1 /\
  remaining a = lsum is_missing (fragments a) /\ 0 < remaining a /\
  received a = lsum frag_len (fragments a) /\
  reserved_bytes a = received a /\ received a <= msg_len (header a).

Definition retained (c : DtxConnection) : Z :=
  msum b_reserved (pending_replies c) + lsum b_reserved (queued_messages c) +
  msum reserved_bytes (conn_fragments c).

(** A buffered reply is stored under its own identifier. *)
Definition buffered_ok (id : Z) (b : BufferedMessage) : Prop :=
  0 <= b_reserved b /\ identifier (message b) = id.

Definition Inv (x : Z) (c : DtxConnection) : Prop :=
  (0 <= x /\ used (memory_budget c) = retained c + x) /\
  used (memory_budget c) <= limit (memory_budget c) <= usize_max /\
  (size (pending_replies c) <= MAX_PENDING_REPLIES)%nat /\
  (length (queued_messages c) <= MAX_QUEUED_MESSAGES)%nat /\
  (size (conn_fragments c) <= MAX_IN_FLIGHT_FRAGMENTED_MESSAGES)%nat /\
  map_Forall buffered_ok (pending_replies c) /\
  Forall (fun b => 0 <= b_reserved b) (queued_messages c) /\
  map_Forall accum_ok (conn_fragments c).

Lemma frag_len_nonneg l : Forall (fun o => 0 <= frag_len o) l.
Proof. apply Forall_forall. intros [b|] _; unfold frag_len, len; simpl; lia. Qed.
Lemma is_missing_nonneg l : Forall (fun o => 0 <= is_missing o) l.
Proof. apply Forall_forall. intros [b|] _; simpl; lia. Qed.

Lemma accum_reserved_nonneg id a : accum_ok id a -> 0 <= reserved_bytes a.
Proof.
  intros (_ & _ & _ & _ & _ & _ & Hr & -> & _). rewrite Hr. apply lsum_nonneg, frag_len_nonneg.
Qed.
Lemma accums_nonneg (m : gmap Z FragmentAccum) : map_Forall accum_ok m -> map_Forall (fun _ a => 0 <= reserved_bytes a) m.
Proof. intros H k a Hk. eapply accum_reserved_nonneg, H, Hk. Qed.

Lemma buffered_nonneg (m : gmap Z BufferedMessage) :
  map_Forall buffered_ok m -> map_Forall (fun _ b => 0 <= b_reserved b) m.
Proof. intros H k b Hk. apply (H _ _ Hk). Qed.

Lemma lsum_replicate_0 {A} (f : A -> Z) n a : f a = 0 -> lsum f (replicate n a) = 0.
Proof. intros Ha. induction n; simpl; lia. Qed.
Lemma lsum_missing_replicate n : lsum is_missing (replicate n None) = Z.of_nat n.
Proof. induction n as [|n IH]; [done|]. rewrite replicate_S. cbn [lsum foldr is_missing]. fold (lsum is_missing (replicate n None)). lia. Qed.

(** Nothing missing: the fragments concatenate to a body of the received size. *)
Lemma assemble_complete l :
  lsum is_missing l = 0 -> exists body, assemble l = Some body /\ len body = lsum frag_len l.
Proof.
  induction l as [|[b|] l IH]; intros H; simpl in *.
  - by exists [].
  - destruct IH as (body & -> & Hl); [lia|]. exists (b ++ body). split; [done|].
    rewrite len_app. lia.
  - pose proof (lsum_nonneg _ _ (is_missing_nonneg l)). lia.
Qed.

Section conn_inv.
Context {AR : Archiver} {AL : Alloc}.

(** ** Memory sizes are total and non-negative *)

Definition size_ok (o : outcome DtxError Z) : Prop :=
  match o with Ok n => 0 <= n | Err _ => True | _ => False end.

Lemma size_ok_add a b : 0 <= a -> 0 <= b -> size_ok (checked_size_add a b).
Proof. intros. unfold checked_size_add. split_ifs; simpl; lia || done. Qed.
Lemma size_ok_mul a b : 0 <= a -> 0 <= b -> size_ok (checked_size_mul a b).
Proof. intros. unfold checked_size_mul. split_ifs; simpl; nia || done. Qed.
Lemma size_ok_bind o (f : Z -> outcome DtxError Z) :
  size_ok o -> (forall n, 0 <= n -> size_ok (f n)) -> size_ok (o ≫= f).
Proof. destruct o; simpl; auto. Qed.
Lemma size_ok_foldM {A} (f : A -> Z -> outcome DtxError Z) l n :
  Forall (fun a => forall m, 0 <= m -> size_ok (f a m)) l -> 0 <= n -> size_ok (foldM f l n).
Proof.
  intros Hl. revert n. induction Hl as [|a l Ha Hl IH]; intros n Hn; simpl; [done|].
  apply size_ok_bind; auto.
Qed.
Lemma string_capacity_nonneg s : 0 <= string_capacity s.
Proof. pose proof (string_capacity_ge s). unfold len in *. lia. Qed.
Lemma vec_capacity_nonneg l : 0 <= vec_capacity l.
Proof. pose proof (vec_capacity_ge l). unfold len in *. lia. Qed.
Lemma map_capacity_nonneg m : 0 <= map_capacity m.
Proof. pose proof (map_capacity_ge m). unfold len in *. lia. Qed.

Lemma ns_size_ok : forall v, size_ok (ns_object_memory_size v).
Proof.
  fix IH 1. pose proof size_of_NSObject_pos. pose proof size_of_entry_pos.
  intros [n|n|n|b|s|d|l|m|]; cbn [ns_object_memory_size]; try (simpl; lia).
  - apply size_ok_add; [lia|apply string_capacity_nonneg].
  - apply size_ok_add; [lia|apply len_nonneg].
  - apply size_ok_bind; [apply size_ok_mul; [apply vec_capacity_nonneg|lia]|]. intros n Hn.
    apply size_ok_bind; [by apply size_ok_add|]. intros k Hk. apply size_ok_foldM; [|done].
    clear - IH. induction l as [|v l IHl]; constructor; [|done].
    intros m Hm. apply size_ok_bind; [apply IH|]. intros. by apply size_ok_add.
  - apply size_ok_bind; [apply size_ok_mul; [apply map_capacity_nonneg|lia]|]. intros n Hn.
    apply size_ok_bind; [by apply size_ok_add|]. intros k Hk. apply size_ok_foldM; [|done].
    clear - IH. induction m as [|[key v] m IHl]; constructor; [|done].
    intros j Hj. apply size_ok_bind; [apply size_ok_add; [done|apply string_capacity_nonneg]|].
    intros. apply size_ok_bind; [apply IH|]. intros. by apply size_ok_add.
Qed.

Lemma ns_list_size_ok l n : 0 <= n -> size_ok (ns_objects_memory_size l n).
Proof.
  intros Hn. unfold ns_objects_memory_size. pose proof size_of_NSObject_pos.
  apply size_ok_bind; [apply size_ok_mul; [apply vec_capacity_nonneg|lia]|]. intros k Hk.
  apply size_ok_bind; [by apply size_ok_add|]. intros j Hj. apply size_ok_foldM; [|done].
  apply Forall_forall. intros v _ m Hm. apply size_ok_bind; [apply ns_size_ok|]. intros. by apply size_ok_add.
Qed.

Lemma message_size_ok m : size_ok (dtx_message_memory_size m).
Proof.
  unfold dtx_message_memory_size. pose proof (fun l => ns_list_size_ok l).
  destruct (payload m); try (simpl; lia);
    repeat (apply size_ok_bind || apply size_ok_add || apply ns_size_ok || apply ns_list_size_ok ||
            apply string_capacity_nonneg || apply len_nonneg || intros); lia || done.
Qed.

(** ** Budget operations *)

Lemma retained_nonneg x c : Inv x c -> 0 <= retained c.
Proof.
  intros (_ & _ & _ & _ & _ & Hp & Hq & Hf). unfold retained.
  pose proof (msum_nonneg _ _ (buffered_nonneg _ Hp)). pose proof (lsum_nonneg _ _ Hq).
  pose proof (msum_nonneg _ _ (accums_nonneg _ Hf)). lia.
Qed.

(** Only the four retained fields matter to the invariant. *)
Lemma Inv_budget x y u c :
  Inv x c -> 0 <= y -> u = retained c + y -> u <= limit (memory_budget c) ->
  Inv y (set_budget (mkBudget (limit (memory_budget c)) u) c).
Proof.
  intros (_ & [_ Hl] & Hrest) Hy -> Hu. split; [done|]. split; [done|]. exact Hrest.
Qed.

Lemma try_reserve_spec x n c (Q : unit -> DtxConnection -> Prop) (R T : DtxConnection -> Prop) :
  0 <= n -> Inv x c ->
  (forall b, Inv (x + n) (set_budget b c) -> Q tt (set_budget b c)) -> R c ->
  wpx (try_reserve n) Q R T c.
Proof.
  intros Hn Hi HQ HR. unfold try_reserve. wpx_steps. unfold budget_try_reserve.
  pose proof Hi as ([Hx Hu] & Hl & _).
  destruct (usize_max <? _) eqn:E1; [done|]. destruct (limit _ <? _) eqn:E2; [done|].
  apply HQ. apply (Inv_budget x); [done|lia|lia|lia].
Qed.

Lemma release_spec x n c (Q : unit -> DtxConnection -> Prop) (R T : DtxConnection -> Prop) :
  0 <= x -> 0 <= n -> Inv (x + n) c ->
  (forall b, Inv x (set_budget b c) -> Q tt (set_budget b c)) ->
  wpx (release n) Q R T c.
Proof.
  intros Hx Hn Hi HQ. unfold release. wpx_steps. unfold budget_release.
  pose proof (retained_nonneg _ _ Hi). pose proof Hi as ([_ Hu] & Hl & _).
  apply HQ. unfold sat_sub. apply (Inv_budget (x + n)); [done|lia|lia|lia].
Qed.

Lemma finally_spec {A} (m : conn A) (k : conn unit) Q R T c :
  wpx m (fun a c' => wpx k (fun _ c'' => Q a c'') R T c')
        (fun c' => wpx k (fun _ c'' => R c'') R T c') T c ->
  wpx (finally m k) Q R T c.
Proof.
  unfold wpx, finally, mbind, st_bind, mret, st_ret, st_fail.
  destruct (m c) as [c' [a|e| | |]]; try done; destruct (k c') as [c'' [u|e'| | |]]; done.
Qed.
Lemma on_err_spec {A} (m : conn A) (k : conn unit) (Q : A -> DtxConnection -> Prop) R T c :
  wpx m Q (fun c' => wpx k (fun _ c'' => R c'') R T c') T c ->
  wpx (on_err m k) Q R T c.
Proof.
  unfold wpx, on_err, mbind, st_bind, mret, st_ret, st_fail.
  destruct (m c) as [c' [a|e| | |]]; try done; destruct (k c') as [c'' [u|e'| | |]]; done.
Qed.

(** [read_exact] touches the stream only. *)
Lemma read_exact_spec n c (Q : bytes -> DtxConnection -> Prop) (R T : DtxConnection -> Prop) :
  0 <= n ->
  (forall bs rest, rx c = bs ++ rest -> len bs = n -> Q bs (set_rx rest c)) ->
  R (set_rx [] c) -> T (set_rx [] c) ->
  wpx (read_exact n) Q R T c.
Proof.
  intros Hn HQ HR HT. unfold read_exact, wpx. destruct (len (rx c) <? n) eqn:E.
  - destruct (closed c); auto.
  - apply HQ; [by rewrite take_drop|]. unfold len in *. rewrite length_take. lia.
Qed.

(** The postconditions every receive operation shares: [x] bytes in flight when
    it returns, possibly more when it is dropped, and no byte put back. *)
Definition fewer (k : nat) (c c' : DtxConnection) : Prop := (length (rx c') + k <= length (rx c))%nat.
Definition leak (x : Z) (c : DtxConnection) : Prop :=
  exists y, x <= y /\ Inv y c.

Lemma Inv_leak x c : Inv x c -> leak x c.
Proof. intros Hi. exists x. split; [lia|done]. Qed.

Lemma read_dtx_header_spec x c (Q : DtxHeader -> DtxConnection -> Prop) :
  Inv x c ->
  (forall h rest, header_ok h -> fewer 32 c (set_rx rest c) -> Inv x (set_rx rest c) -> Q h (set_rx rest c)) ->
  wpx read_dtx_header Q (Inv x) (leak x) c.
Proof.
  intros Hi HQ. unfold read_dtx_header. wpx_steps. apply read_exact_spec; [lia| |done|by apply Inv_leak].
  intros hdr rest Hrx Hl. wpx_steps.
  pose proof (parse_header_sound hdr) as Hp. specialize (Hp ltac:(unfold len in Hl; lia)).
  assert (forall l, (length l <= length rest)%nat -> fewer 32 c (set_rx l c)) as Hf.
  { intros l Hll. unfold fewer. cbn [rx set_rx]. rewrite Hrx, length_app. unfold len in Hl. lia. }
  unfold wpx at 1, st_lift. destruct (parse_dtx_header hdr) as [h|e| | |]; try done.
  wpx_steps.
  - apply read_exact_spec; [lia| |done|by apply Inv_leak]. intros b rest' Hr' _. wpx_steps.
    apply HQ; [done| |done]. apply Hf. cbn [rx set_rx] in Hr'. rewrite Hr', length_app. lia.
  - apply HQ; [done| |done]. by apply Hf.
Qed.

Lemma read_dtx_body_spec x h body c (Q : DtxMessage -> DtxConnection -> Prop) :
  Inv x c -> 0 <= msg_len h ->
  (forall m rest, Inv x (set_rx rest c) -> fewer 0 c (set_rx rest c) -> Q m (set_rx rest c)) ->
  wpx (read_dtx_body h body) Q (Inv x) (leak x) c.
Proof.
  intros Hi Hm HQ. unfold read_dtx_body. wpx_step.
  assert (forall b rest, fewer 0 c (set_rx rest c) ->
    wpx (st_lift (decode_dtx_body_from_slice h b)) Q (Inv x) (leak x) (set_rx rest c)) as Hd.
  { intros b rest Hf. apply wpx_lift; [apply decode_body_returns| |done]. intros m _. by apply HQ. }
  assert (c = set_rx (rx c) c) as Hc by (by destruct c).
  destruct body as [|b0 body].
  - destruct (0 <? msg_len h).
    + apply read_exact_spec; [done| |done|by apply Inv_leak]. intros bs rest Hrx _. apply Hd.
      unfold fewer. cbn [rx set_rx]. rewrite Hrx, length_app. lia.
    + wpx_steps. rewrite Hc. apply Hd. unfold fewer. simpl. lia.
  - wpx_steps. rewrite Hc. apply Hd. unfold fewer. simpl. lia.
Qed.

(** ** Receiving *)

Lemma normalize_returns ch conv : returns (normalize_incoming_channel_code ch conv).
Proof. unfold normalize_incoming_channel_code. by split_ifs. Qed.

Lemma normalized_spec m c (Q : DtxMessage -> DtxConnection -> Prop) (R T : DtxConnection -> Prop) :
  (forall m', Q m' c) -> R c -> wpx (normalized m) Q R T c.
Proof.
  intros HQ HR. unfold normalized. wpx_steps. apply wpx_lift; [apply normalize_returns| |done].
  intros. wpx_steps. apply HQ.
Qed.

Lemma recv_single_spec x h c (Q : DtxMessage -> DtxConnection -> Prop) :
  Inv x c -> header_ok h ->
  (forall m c', Inv x c' -> fewer 0 c c' -> Q m c') ->
  wpx (recv_single h) Q (Inv x) (leak x) c.
Proof.
  intros Hi Hh HQ. pose proof Hi as ([Hx _] & _). unfold recv_single. wpx_step.
  - wpx_steps. apply wpx_lift; [apply normalize_returns| |done]. intros code _. wpx_steps.
    apply HQ; [done|]. unfold fewer. lia.
  - destruct Hh as (_ & _ & _ & Hm & _). wpx_step. eapply try_reserve_spec; [lia|done| |done].
    intros b Hb. wpx_step. apply finally_spec.
    eapply wpx_mono; [apply (read_dtx_body_spec (x + msg_len h)
      h [] _ (fun m c' => Inv (x + msg_len h) c' /\ fewer 0 c c')); [done|lia|]| | |].
    + intros m rest Hr Hf. by split.
    + intros m c' [Hr Hf]. apply (release_spec x); [lia|lia|done|]. intros b' Hb'.
      apply normalized_spec; [|done]. intros m'. by apply HQ.
    + intros c' Hr. by apply (release_spec x); [lia|lia|done|].
    + intros c' (y & Hy & Hr). exists y. split; [lia|done].
Qed.

Lemma recv_first_fragment_spec x h c (Q : unit -> DtxConnection -> Prop) (T : DtxConnection -> Prop) :
  Inv x c -> header_ok h -> 2 <= frag_cnt h ->
  (forall c', Inv x c' -> fewer 0 c c' -> Q tt c') ->
  wpx (recv_first_fragment h) Q (Inv x) T c.
Proof.
  intros Hi Hh Hc HQ. unfold recv_first_fragment. wpx_steps; [done|done|].
  apply HQ; [|unfold fewer; simpl; lia].
  apply bool_decide_eq_false in Hif. assert (conn_fragments c !! h_identifier h = None) as Hn
    by (by apply eq_None_not_Some).
  destruct Hi as ([Hx Hu] & Hl & Hp & Hq & Hs & Hp' & Hq' & Hf).
  split; [split; [done|]|].
  { unfold retained in *. cbn [memory_budget pending_replies queued_messages conn_fragments set_fragments].
    rewrite msum_insert by done. simpl. lia. }
  do 3 (split; [done|]). split; [|do 2 (split; [done|])].
  - cbn [conn_fragments set_fragments]. rewrite map_size_insert_None by done. lia.
  - apply map_Forall_insert_2; [|done].
    pose proof Hh as (_ & _ & _ & Hm & _).
    unfold accum_ok. cbn [header fragments remaining received reserved_bytes].
    rewrite lsum_missing_replicate, lsum_replicate_0 by done.
    unfold len. rewrite length_replicate. repeat split; try apply Hh; lia.
Qed.

Lemma Inv_accum_delete x c id a :
  Inv x c -> conn_fragments c !! id = Some a ->
  Inv (x + reserved_bytes a) (set_fragments (delete id (conn_fragments c)) c).
Proof.
  intros ([Hx Hu] & Hl & Hp & Hq & Hs & Hp' & Hq' & Hf) Ha.
  pose proof (accum_reserved_nonneg _ _ (Hf _ _ Ha)).
  split; [split; [lia|]|].
  { unfold retained in *. cbn [memory_budget pending_replies queued_messages conn_fragments set_fragments].
    rewrite (msum_delete _ _ _ _ Ha). lia. }
  do 3 (split; [done|]). split; [|do 2 (split; [done|])].
  - cbn [conn_fragments set_fragments]. etrans; [|exact Hs].
    pose proof (map_size_delete id (conn_fragments c)) as ->. rewrite Ha. lia.
  - by apply map_Forall_delete.
Qed.

Lemma finish_fragments_spec x n a c (Q : DtxMessage -> DtxConnection -> Prop) :
  0 <= x -> n = reserved_bytes a -> Inv (x + n) c -> header_ok (header a) ->
  received a = lsum frag_len (fragments a) -> reserved_bytes a = received a ->
  lsum is_missing (fragments a) = 0 ->
  (forall m c', Inv x c' -> fewer 0 c c' -> Q m c') ->
  wpx (finish_fragments a) Q (Inv x) (leak x) c.
Proof.
  intros Hx -> Hi Hh Hr Hb Hm HQ. unfold finish_fragments.
  assert (0 <= reserved_bytes a) by (rewrite Hb, Hr; apply lsum_nonneg, frag_len_nonneg).
  pose proof Hh as (_ & _ & _ & Hml & _).
  wpx_step; [wpx_steps; by apply (release_spec x)|].
  wpx_steps. pose proof Hi as ([_ Hu] & Hl & _). unfold budget_try_reserve.
  destruct (usize_max <? _) eqn:E1; [lia || (wpx_steps; by apply (release_spec x))|].
  destruct (limit _ <? _) eqn:E2; [wpx_steps; by apply (release_spec x)|].
  wpx_steps. destruct (assemble_complete _ Hm) as (body & -> & Hbody).
  replace (len body =? msg_len (header a)) with true by lia. cbn [negb]. wpx_steps.
  set (c1 := set_budget _ c).
  assert (Inv (x + msg_len (header a) + reserved_bytes a) c1) as H1
    by (apply (Inv_budget (x + reserved_bytes a)); [done|lia|lia|lia]).
  apply (release_spec (x + msg_len (header a))); [lia|done|done|]. intros b Hb1. wpx_steps.
  apply finally_spec. eapply wpx_mono; [apply (read_dtx_body_spec (x + msg_len (header a))
    (header a) body _ (fun m c' => Inv (x + msg_len (header a)) c' /\ fewer 0 c c')); [done|lia|]| | |].
  - intros m rest Hi' Hf. by split.
  - intros m c' [Hi' Hf]. apply (release_spec x); [lia|lia|done|]. intros b' Hb'.
    apply normalized_spec; [|done]. intros m'. by apply HQ.
  - intros c' Hi'. by apply (release_spec x); [lia|lia|done|].
  - intros c' (y & Hy & Hi'). exists y. split; [lia|done].
Qed.

Lemma check_fragment_spec h slot a c (Q : unit -> DtxConnection -> Prop) (R T : DtxConnection -> Prop) :
  (fragments a !! slot = Some None -> msg_len h <= sat_sub (msg_len (header a)) (received a) -> Q tt c) ->
  R c -> wpx (check_fragment h slot a) Q R T c.
Proof.
  intros HQ HR. unfold check_fragment. wpx_steps; try done.
  destruct (fragments a !! slot) as [[b|]|] eqn:E; try done. wpx_steps; [done|]. apply HQ; [done|lia].
Qed.

(** Storing a fragment keeps the accumulator consistent. *)
Lemma accum_store id a slot body :
  accum_ok id a -> fragments a !! slot = Some None ->
  len body <= msg_len (header a) - received a ->
  let a' := mkAccum (header a) (<[slot := Some body]> (fragments a)) (remaining a - 1)
              (received a + len body) (reserved_bytes a + len body) in
  remaining a' = lsum is_missing (fragments a') /\ received a' = lsum frag_len (fragments a') /\
  reserved_bytes a' = received a' /\ (remaining a' <> 0 -> accum_ok id a').
Proof.
  intros (Hh & Hc & Hid & Hl & Hm & Hp & Hr & Hb & Ht) Hs Hle a'.
  unfold a'; cbn [remaining fragments received reserved_bytes].
  rewrite (lsum_insert _ _ _ _ _ Hs), (lsum_insert _ _ _ _ _ Hs).
  assert (frag_len (Some body) = len body) as -> by done.
  pose proof (lsum_nonneg is_missing (<[slot := Some body]> (fragments a)) (is_missing_nonneg _)) as Hn.
  rewrite (lsum_insert _ _ _ _ _ Hs) in Hn. simpl in Hn.
  assert (is_missing None = 1 /\ is_missing (Some body) = 0 /\ frag_len None = 0) as (-> & -> & ->) by done.
  split_and!; try lia. intros Hne. unfold accum_ok. cbn [header remaining fragments received reserved_bytes].
  rewrite (lsum_insert _ _ _ _ _ Hs), (lsum_insert _ _ _ _ _ Hs).
  assert (is_missing None = 1 /\ is_missing (Some body) = 0 /\ frag_len None = 0 /\
    frag_len (Some body) = len body) as (-> & -> & -> & ->) by done.
  unfold len in *. rewrite length_insert. split_and!; try done; lia.
Qed.

Lemma Inv_accum_insert x c id a a' :
  Inv x c -> conn_fragments c !! id = Some a -> accum_ok id a' ->
  0 <= x - (reserved_bytes a' - reserved_bytes a) ->
  Inv (x - (reserved_bytes a' - reserved_bytes a)) (set_fragments (<[id := a']> (conn_fragments c)) c).
Proof.
  intros ([Hx Hu] & Hl & Hp & Hq & Hs & Hp' & Hq' & Hf) Ha Ha' Hge.
  split; [split; [lia|]|].
  { unfold retained in *. cbn [memory_budget pending_replies queued_messages conn_fragments set_fragments].
    rewrite msum_replace, Ha. simpl. lia. }
  do 3 (split; [done|]). split; [|do 2 (split; [done|])].
  - cbn [conn_fragments set_fragments]. by rewrite map_size_insert_Some by eauto.
  - by apply map_Forall_insert_2.
Qed.

Lemma recv_fragment_spec x h c (Q : option DtxMessage -> DtxConnection -> Prop) :
  Inv x c -> header_ok h -> frag_idx h <> 0 ->
  (forall m c', Inv x c' -> fewer 0 c c' -> Q m c') ->
  wpx (recv_fragment h) Q (Inv x) (leak x) c.
Proof.
  intros Hi Hh Hne HQ. pose proof Hi as ([Hx _] & _). unfold recv_fragment. wpx_steps.
  destruct (conn_fragments c !! h_identifier h) as [a|] eqn:Ha; [|wpx_steps; done].
  pose proof Hi as (_ & _ & _ & _ & _ & _ & _ & Hf). specialize (Hf _ _ Ha) as Hok.
  pose proof Hh as (_ & _ & _ & Hm & _). pose proof Hok as ((_ & _ & _ & Hma & _) & Hok').
  destruct Hok' as (_ & _ & _ & Hrem & Hpos & Hrec & Hres & Hle).
  wpx_step. apply check_fragment_spec; [|done]. intros Hs Hfit. unfold sat_sub in Hfit.
  assert (0 <= received a) by (rewrite Hrec; apply lsum_nonneg, frag_len_nonneg).
  unfold MAX_DTX_MESSAGE_SIZE in *.
  wpx_step. eapply try_reserve_spec; [lia|done| |done]. intros b Hb. wpx_step.
  apply on_err_spec. apply read_exact_spec; [lia| | |].
  2:{ apply (release_spec x); [lia|lia|done|]. done. }
  2:{ exists (x + msg_len h). split; [lia|done]. }
  intros body rest Hrx Hlen. unfold usize_max. rewrite Hlen. wpx_step; [lia|]. wpx_step; [lia|].
  wpx_step; [lia|].
  destruct (accum_store (h_identifier h) a (Z.to_nat (frag_idx h - 1)) body Hok Hs) as (H1 & H2 & H3 & H4); [lia|].
  rewrite Hlen in *. set (a' := mkAccum (header a) _ _ _ _) in *.
  assert (forall rest' : bytes, (length rest' <= length rest)%nat -> (length rest' + 0 <= length (rx c))%nat) as Hfew.
  { cbn [rx set_budget] in Hrx. rewrite Hrx, length_app. lia. }
  wpx_steps.
  - set (c1 := set_rx rest (set_budget b c)).
    apply (finish_fragments_spec x (reserved_bytes a')); try done.
    + assert (reserved_bytes a' = reserved_bytes a + msg_len h) as -> by done.
      replace (x + (reserved_bytes a + msg_len h)) with (x + msg_len h + reserved_bytes a) by lia.
      by apply (Inv_accum_delete (x + msg_len h) c1 (h_identifier h) a).
    + apply Hok.
    + rewrite <- H1. lia.
    + intros m c' Hi' Hf'. wpx_steps. apply HQ; [done|]. unfold fewer in *. cbn [rx set_fragments set_rx] in Hf'.
      by specialize (Hfew (rx c') ltac:(unfold c1 in Hf'; simpl in Hf'; lia)).
  - apply HQ.
    + pose proof (Inv_accum_insert (x + msg_len h) (set_rx rest (set_budget b c)) (h_identifier h) a a' Hb Ha) as Hins.
      replace (x + msg_len h - (reserved_bytes a' - reserved_bytes a)) with x in Hins by (unfold a'; simpl; lia).
      apply Hins; [|done]. apply H4. lia.
    + unfold fewer. apply Hfew. simpl. lia.
Qed.

Lemma recv_round_spec x c (Q : option DtxMessage -> DtxConnection -> Prop) :
  Inv x c -> (forall r c', Inv x c' -> fewer 32 c c' -> Q r c') ->
  wpx recv_round Q (Inv x) (leak x) c.
Proof.
  intros Hi HQ. unfold recv_round. wpx_step. apply (read_dtx_header_spec x); [done|].
  intros h rest Hh Hf Hr.
  assert (forall r c', Inv x c' -> fewer 0 (set_rx rest c) c' -> Q r c') as HQ'.
  { intros r c' Hi' Hf'. apply HQ; [done|]. unfold fewer in *. lia. }
  wpx_step; [|wpx_step].
  - wpx_step. apply recv_single_spec; [done|done|]. intros. wpx_steps. by apply HQ'.
  - wpx_step. apply recv_first_fragment_spec; [done|done|lia|]. intros. wpx_steps. by apply HQ'.
  - apply recv_fragment_spec; [done|done|lia|]. intros. by apply HQ'.
Qed.

Lemma recv_inner_spec fuel x c (Q : DtxMessage -> DtxConnection -> Prop) :
  (length (rx c) < fuel)%nat ->
  Inv x c -> (forall m c', Inv x c' -> fewer 32 c c' -> Q m c') ->
  wpx (recv_from_stream_inner fuel) Q (Inv x) (leak x) c.
Proof.
  revert c. induction fuel as [|fuel IH]; intros c Hfuel Hi HQ; [lia|]. cbn [recv_from_stream_inner].
  wpx_step. apply recv_round_spec; [done|]. intros [m|] c' Hi' Hf.
  - wpx_steps. by apply HQ.
  - unfold fewer in Hf. apply IH; [lia|done|]. intros m c'' Hi'' Hf''. apply HQ; [done|]. unfold fewer in *. lia.
Qed.

Lemma clear_fold x l c :
  0 <= x -> Forall (fun a => 0 <= reserved_bytes a) l -> Inv (x + lsum reserved_bytes l) c ->
  let c' := foldr (fun a c' => set_budget (budget_release (memory_budget c') (reserved_bytes a)) c') c l in
  Inv x c' /\ rx c' = rx c.
Proof.
  intros Hx Hl. revert x Hx. induction Hl as [|a l Ha Hl IH]; intros x Hx Hi; simpl in *.
  - split; [|done]. by replace (x + 0) with x in Hi by lia.
  - destruct (IH (x + reserved_bytes a)) as [H1 H2]; [lia|by rewrite <- Z.add_assoc|].
    split; [|done].
    apply (release_spec x (reserved_bytes a) _ (fun _ => Inv x) (fun _ => True) (fun _ => True)); try done.
Qed.

Lemma clear_fragments_spec x c (Q : unit -> DtxConnection -> Prop) (R T : DtxConnection -> Prop) :
  Inv x c -> (forall c', Inv x c' -> fewer 0 c c' -> conn_fragments c' = ∅ -> Q tt c') ->
  wpx clear_fragments Q R T c.
Proof.
  intros Hi HQ. pose proof Hi as ([Hx Hu] & Hl & Hp & Hq & Hs & Hp' & Hq' & Hf).
  unfold clear_fragments. wpx_steps.
  assert (Forall (fun a => 0 <= reserved_bytes a) (snd <$> map_to_list (conn_fragments c))) as Hall.
  { apply Forall_fmap, Forall_forall. intros [k a] Hin. apply elem_of_map_to_list in Hin.
    eapply accum_reserved_nonneg, Hf, Hin. }
  destruct (clear_fold x (snd <$> map_to_list (conn_fragments c)) (set_fragments ∅ c) Hx Hall) as [H1 H2].
  { split; [split|].
    - pose proof (lsum_nonneg _ _ Hall). lia.
    - unfold retained in *. cbn [memory_budget pending_replies queued_messages conn_fragments set_fragments].
      rewrite msum_empty, <- msum_list. lia.
    - do 3 (split; [done|]). split; [|split_and!; [done|done|apply map_Forall_empty]].
      cbn [conn_fragments set_fragments]. rewrite map_size_empty. lia. }
  apply HQ; [done| |].
  - unfold fewer. rewrite H2. simpl. lia.
  - clear. induction (snd <$> map_to_list (conn_fragments c)) as [|a l IH]; simpl; done.
Qed.

Lemma recv_from_stream_spec fuel x c (Q : DtxMessage -> DtxConnection -> Prop) :
  (length (rx c) < fuel)%nat ->
  Inv x c -> (forall m c', Inv x c' -> fewer 32 c c' -> Q m c') ->
  wpx (recv_from_stream fuel) Q (Inv x) (leak x) c.
Proof.
  intros Hfuel Hi HQ. unfold recv_from_stream. apply on_err_spec.
  eapply wpx_mono; [by apply (recv_inner_spec fuel x c Q)|done| |done].
  intros c' Hi'. apply (clear_fragments_spec x); [done|]. by intros.
Qed.

(** ** Buffering *)

Lemma projected_spec b old new :
  match projected_budget b old new with
  | Ok p => p = used b - old + new /\ p <= limit b
  | Err _ => True
  | _ => False
  end.
Proof. unfold projected_budget. split_ifs; lia || done. Qed.

Lemma buffer_reply_spec x m c (Q : unit -> DtxConnection -> Prop) (T : DtxConnection -> Prop) :
  Inv x c -> (forall c', Inv x c' -> rx c' = rx c -> Q tt c') ->
  wpx (buffer_reply m) Q (Inv x) T c.
Proof.
  intros Hi HQ. pose proof Hi as ([Hx Hu] & Hl & Hp & Hq & Hs & Hp' & Hq' & Hf).
  unfold buffer_reply. wpx_steps; [done|]. pose proof (message_size_ok m) as Hsz.
  apply wpx_lift; [destruct (dtx_message_memory_size m); done| |done]. intros n Hn. rewrite Hn in Hsz. simpl in Hsz.
  unfold adjust_replacement_budget. wpx_steps.
  match goal with |- context [projected_budget ?b ?o ?n] => pose proof (projected_spec b o n) as Hpr end.
  apply wpx_lift; [destruct (projected_budget _ _ _); done| |done]. intros p Hp1. rewrite Hp1 in Hpr.
  destruct Hpr as [-> Hlim]. wpx_steps. apply HQ; [|done].
  split; [split; [done|]|split; [split; [exact Hlim|apply Hl]|]].
  - unfold retained in *.
    cbn [memory_budget used pending_replies queued_messages conn_fragments set_pending set_budget].
    rewrite msum_replace. simpl. lia.
  - split; [|split_and!; try done].
    + cbn [pending_replies set_pending set_budget].
      destruct (pending_replies c !! identifier m) eqn:E.
      * rewrite map_size_insert_Some by eauto. lia.
      * rewrite map_size_insert_None by done. rewrite bool_decide_eq_true_2 in Hif by done. cbn [andb] in Hif. apply Nat.leb_gt in Hif. lia.
    + by apply map_Forall_insert_2.
Qed.

Lemma Inv_pop x c b q :
  Inv x c -> queued_messages c = b :: q -> 0 <= b_reserved b /\ Inv (x + b_reserved b) (set_queued q c).
Proof.
  intros ([Hx Hu] & Hl & Hp & Hq & Hs & Hp' & Hq' & Hf) E.
  rewrite E in Hq, Hq'. inversion Hq'; subst. split; [done|].
  split; [split; [lia|]|].
  - unfold retained in *. cbn [memory_budget pending_replies queued_messages conn_fragments set_queued].
    rewrite E in Hu. simpl in Hu. lia.
  - split_and!; try done; try apply Hl. simpl in *. lia.
Qed.

Lemma Inv_push x n c b :
  Inv (x + b_reserved b) c -> 0 <= x -> n = b_reserved b -> 0 <= n ->
  (length (queued_messages c) < MAX_QUEUED_MESSAGES)%nat ->
  Inv x (set_queued (queued_messages c ++ [b]) c).
Proof.
  intros ([Hx Hu] & Hl & Hp & Hq & Hs & Hp' & Hq' & Hf) Hx' -> Hb Hlt.
  split; [split; [lia|]|].
  - unfold retained in *. cbn [memory_budget pending_replies queued_messages conn_fragments set_queued].
    rewrite lsum_app. simpl. lia.
  - do 2 (split; [done|]). split; [|split; [done|split; [done|split; [|done]]]].
    + cbn [queued_messages set_queued]. rewrite length_app. simpl. lia.
    + apply Forall_app_2; [done|]. by repeat constructor.
Qed.

Lemma queue_message_spec x m c (Q : unit -> DtxConnection -> Prop) (T : DtxConnection -> Prop) :
  Inv x c -> (forall c', Inv x c' -> rx c' = rx c -> Q tt c') ->
  wpx (queue_message m) Q (Inv x) T c.
Proof.
  intros Hi HQ. pose proof Hi as ([Hx _] & _). unfold queue_message. wpx_step. pose proof (message_size_ok m) as Hsz.
  apply wpx_lift; [destruct (dtx_message_memory_size m); done| |done]. intros n Hn. rewrite Hn in Hsz. simpl in Hsz.
  wpx_steps. unfold ensure_budget_after_release. wpx_steps.
  match goal with |- context [projected_budget ?b ?o ?n] => pose proof (projected_spec b o n) as Hpr end.
  apply wpx_lift; [destruct (projected_budget _ _ _); done| |done]. intros p Hp1. wpx_steps.
  - destruct (queued_messages c) as [|b q] eqn:E; [done|].
    destruct (Inv_pop x c b q Hi E) as [Hb Hpop]. wpx_steps. apply (release_spec x); [done|done|done|].
    intros bud Hi'. wpx_steps. eapply try_reserve_spec; [exact Hsz|exact Hi'| |exact Hi']. intros bud' Hi2.
    wpx_steps. apply HQ; [|done]. apply (Inv_push x n); [exact Hi2|done|done|done|].
    pose proof Hi as (_ & _ & _ & Hq & _). rewrite E in Hq. cbn [queued_messages set_budget set_queued].
    simpl in Hq. lia.
  - wpx_steps. eapply try_reserve_spec; [exact Hsz|exact Hi| |exact Hi]. intros bud' Hi2.
    wpx_steps. apply HQ; [|done]. apply (Inv_push x n); [exact Hi2|done|done|done|].
    apply Nat.leb_gt in Hif. exact Hif.
Qed.

Lemma remove_pending_spec x id c (Q : option DtxMessage -> DtxConnection -> Prop) (R T : DtxConnection -> Prop) :
  Inv x c ->
  (forall r c', Inv x c' -> rx c' = rx c -> (forall m, r = Some m -> identifier m = id) -> Q r c') ->
  wpx (remove_pending_reply id) Q R T c.
Proof.
  intros Hi HQ. unfold remove_pending_reply. wpx_steps.
  destruct (pending_replies c !! id) as [b|] eqn:E; [|wpx_steps; by apply HQ].
  pose proof Hi as ([Hx Hu] & Hl & Hp & Hq & Hs & Hp' & Hq' & Hf). wpx_steps.
  pose proof (Hp' _ _ E) as [Hb Hbid]. simpl in Hb.
  apply (release_spec x); [done|done| |intros bud Hi'; wpx_steps; apply HQ; [done|done|naive_solver]].
  split; [split; [lia|]|].
  - unfold retained in *. cbn [memory_budget pending_replies queued_messages conn_fragments set_pending].
    rewrite (msum_delete _ _ _ _ E). lia.
  - do 1 (split; [done|]). split; [|split; [done|split; [done|split; [|done]]]].
    + cbn [pending_replies set_pending]. pose proof (map_size_delete id (pending_replies c)) as ->. rewrite E. lia.
    + by apply map_Forall_delete.
Qed.

Lemma pop_queued_spec x c (Q : option DtxMessage -> DtxConnection -> Prop) (R T : DtxConnection -> Prop) :
  Inv x c -> (forall r c', Inv x c' -> rx c' = rx c -> Q r c') ->
  wpx pop_queued_message Q R T c.
Proof.
  intros Hi HQ. pose proof Hi as ([Hx _] & _). unfold pop_queued_message. wpx_steps.
  destruct (queued_messages c) as [|b q] eqn:E; [wpx_steps; by apply HQ|].
  destruct (Inv_pop x c b q Hi E) as [Hb Hpop]. wpx_steps.
  apply (release_spec x); [done|done|done|]. intros bud Hi'. wpx_steps. by apply HQ.
Qed.

Lemma send_raw_spec x data c (Q : unit -> DtxConnection -> Prop) :
  Inv x c -> (forall c', Inv x c' -> rx c' = rx c -> Q tt c') -> wpx (send_raw data) Q (Inv x) (leak x) c.
Proof.
  intros Hi HQ. unfold send_raw. set (s := Socket.mkSocket [] (wr c) (tx c)).
  assert (forall s' : Socket.Socket, Inv x (set_tx (Socket.tx s') (Socket.wr s') c)) as Hi' by done.
  pose proof (fun s' => Inv_leak x _ (Hi' s')) as Hk.
  enough (wpx (Socket.write_all data ;; Socket.flush) (fun _ _ => True) (fun _ => True) (fun _ => True) s) as H.
  { unfold wpx in *. fold s. destruct ((Socket.write_all data ≫= λ _ : (), Socket.flush) s) as [s' [[]| | | |]]; [by apply HQ|apply Hi'|done|apply Hk|done]. }
  wpx_step. eapply wpx_mono; [apply Socket.write_all_traffic| |done|done]. cbv beta. intros _ s' _.
  by eapply wpx_mono; [apply Socket.flush_traffic| | |].
Qed.

(** ** Public operations *)

(** What a synchronous call gets: the reply to its own identifier, which is no
    longer outstanding. *)
Definition replied (id : Z) (m : DtxMessage) (c : DtxConnection) : Prop :=
  identifier m = id /\ id ∉ outstanding_reply_ids c.

Lemma forget_replied id m c :
  identifier m = id -> replied id m (set_outstanding (outstanding_reply_ids c ∖ {[id]}) c).
Proof. intros <-. split; [done|]. simpl. set_solver. Qed.

Lemma wait_loop_spec fuel id x c (Q : DtxMessage -> DtxConnection -> Prop) :
  (length (rx c) < fuel)%nat ->
  Inv x c -> (forall m c', Inv x c' -> replied id m c' -> Q m c') ->
  wpx (wait_loop fuel id) Q (Inv x) (leak x) c.
Proof.
  revert c. induction fuel as [|fuel IH]; intros c Hfuel Hi HQ; [lia|]. cbn [wait_loop].
  wpx_step. apply recv_from_stream_spec; [done|done|]. intros m c' Hi' Hf. unfold fewer in Hf. wpx_steps.
  - apply HQ; [done|]. apply forget_replied. lia.
  - apply buffer_reply_spec; [done|]. intros c2 Hi2 Hrx. apply IH; [rewrite Hrx; lia|done|done].
  - apply send_raw_spec; [done|]. intros c2 Hi2 Hrx. wpx_steps. apply queue_message_spec; [done|].
    intros c3 Hi3 Hrx3. apply IH; [rewrite Hrx3, Hrx; lia|done|done].
  - apply queue_message_spec; [done|]. intros c3 Hi3 Hrx3. apply IH; [rewrite Hrx3; lia|done|done].
Qed.

Lemma wait_for_reply_spec id x c (Q : DtxMessage -> DtxConnection -> Prop) :
  Inv x c -> (forall m c', Inv x c' -> replied id m c' -> Q m c') -> wpx (wait_for_reply id) Q (Inv x) (leak x) c.
Proof.
  intros Hi HQ. unfold wait_for_reply. wpx_step. apply (remove_pending_spec x); [done|].
  intros [m|] c' Hi' Hrx Hid; wpx_steps; [apply HQ; [done|by apply forget_replied, Hid]|]. apply wait_loop_spec; [lia|done|done].
Qed.

Lemma recv_loop_spec fuel x c (Q : DtxMessage -> DtxConnection -> Prop) :
  (length (rx c) < fuel)%nat ->
  Inv x c -> (forall m c', Inv x c' -> Q m c') ->
  wpx (recv_loop fuel) Q (Inv x) (leak x) c.
Proof.
  revert c. induction fuel as [|fuel IH]; intros c Hfuel Hi HQ; [lia|]. cbn [recv_loop].
  wpx_step. apply recv_from_stream_spec; [done|done|]. intros m c' Hi' Hf. unfold fewer in Hf. wpx_steps.
  - apply buffer_reply_spec; [done|]. intros c2 Hi2 Hrx. apply IH; [rewrite Hrx; lia|done|done].
  - by apply HQ.
Qed.

Lemma recv_spec x c (Q : DtxMessage -> DtxConnection -> Prop) :
  Inv x c -> (forall m c', Inv x c' -> Q m c') -> wpx recv Q (Inv x) (leak x) c.
Proof.
  intros Hi HQ. unfold recv. wpx_step. apply (pop_queued_spec x); [done|].
  intros [m|] c' Hi' Hrx; wpx_steps; [by apply HQ|]. apply recv_loop_spec; [lia|done|done].
Qed.

Lemma await_reply_spec id x c (Q : DtxMessage -> DtxConnection -> Prop) :
  Inv x c -> (forall m c', Inv x c' -> replied id m c' -> Q m c') -> wpx (await_reply id) Q (Inv x) (leak x) c.
Proof.
  intros Hi HQ. unfold await_reply. wpx_steps. apply on_err_spec.
  eapply wpx_mono; [apply (wait_for_reply_spec id x _ (fun m c' => Inv x c' /\ replied id m c')); [done|by split]| | |].
  - intros m c' [Hi' Hr]. by apply HQ.
  - intros c' Hi'. unfold forget_reply. by wpx_steps.
  - done.
Qed.

Lemma next_id_spec x c (Q : Z -> DtxConnection -> Prop) (T : DtxConnection -> Prop) :
  Inv x c -> (forall c', Inv x c' -> Q (next_identifier c) c') -> wpx next_id Q (Inv x) T c.
Proof. intros Hi HQ. unfold next_id. wpx_steps; [done|]. by apply HQ. Qed.
Lemma next_channel_code_spec x c (Q : Z -> DtxConnection -> Prop) (T : DtxConnection -> Prop) :
  Inv x c -> (forall c', Inv x c' -> next_identifier c' = next_identifier c -> Q (channel_counter c) c') ->
  wpx next_channel_code Q (Inv x) T c.
Proof. intros Hi HQ. unfold next_channel_code. wpx_steps; [done|]. by apply HQ. Qed.

Lemma method_call_spec ch sel args x c :
  Inv x c ->
  wpx (method_call ch sel args) (fun m c' => Inv x c' /\ replied (next_identifier c) m c') (Inv x) (leak x) c.
Proof.
  intros Hi. unfold method_call. wpx_step. apply next_id_spec; [done|]. intros c1 Hi1.
  wpx_step. apply send_raw_spec; [done|]. intros c2 Hi2 _. apply await_reply_spec; [done|]. by split.
Qed.
Lemma request_channel_spec name x c :
  Inv x c ->
  wpx (request_channel name) (fun code c' => Inv x c' /\ code = channel_counter c) (Inv x) (leak x) c.
Proof.
  intros Hi. unfold request_channel. wpx_step. apply next_channel_code_spec; [done|]. intros c1 Hi1 _.
  wpx_step. apply next_id_spec; [done|]. intros c2 Hi2.
  wpx_step. apply send_raw_spec; [done|]. intros c3 Hi3 _. wpx_step.
  apply await_reply_spec; [done|]. intros m c4 Hi4 _. by wpx_steps.
Qed.
Lemma method_call_async_spec ch sel args x c :
  Inv x c -> wpx (method_call_async ch sel args) (fun _ c' => Inv x c') (Inv x) (leak x) c.
Proof.
  intros Hi. unfold method_call_async. wpx_step. apply next_id_spec; [done|]. intros c1 Hi1.
  apply send_raw_spec; [done|]. by intros.
Qed.

(** ** The connection as a transition system *)

Inductive call : Type :=
| Recv
| SendRaw (data : bytes)
| SendAck (m : DtxMessage)
| RequestChannel (service_name : bytes)
| MethodCall (channel_code : Z) (selector : bytes) (args : list PrimArg)
| MethodCallAsync (channel_code : Z) (selector : bytes) (args : list PrimArg).

Definition run (k : call) : conn unit :=
  match k with
  | Recv => recv ;; mret tt
  | SendRaw data => send_raw data
  | SendAck m => send_ack m
  | RequestChannel name => request_channel name ;; mret tt
  | MethodCall ch sel args => method_call ch sel args ;; mret tt
  | MethodCallAsync ch sel args => method_call_async ch sel args
  end.

(** A public call, whatever its outcome (a call that stays pending is dropped),
    or the peer sending more bytes or closing the stream. *)
Inductive step : DtxConnection -> DtxConnection -> Prop :=
| step_call k c : step c (fst (run k c))
| step_arrive c bs : closed c = false -> step c (set_rx (rx c ++ bs) c)
| step_close c : step c (mkConn (rx c) true (tx c) (wr c) (next_identifier c) (channel_counter c)
    (pending_replies c) (outstanding_reply_ids c) (queued_messages c) (conn_fragments c) (memory_budget c)).

Lemma run_spec k x c : Inv x c -> wpx (run k) (fun _ => Inv x) (Inv x) (leak x) c.
Proof.
  intros Hi. destruct k as [|data|m|name|ch sel args|ch sel args]; cbn [run].
  - wpx_step. apply recv_spec; [done|]. intros. by wpx_steps.
  - apply send_raw_spec; [done|]. by intros.
  - apply send_raw_spec; [done|]. by intros.
  - wpx_step. eapply wpx_mono; [by apply request_channel_spec| |done|done].
    intros code c' [Hi' _]. by wpx_steps.
  - wpx_step. eapply wpx_mono; [by apply method_call_spec| |done|done].
    intros m c' [Hi' _]. by wpx_steps.
  - by apply method_call_async_spec.
Qed.

Lemma step_Inv c c' : step c c' -> (exists x, Inv x c) -> exists x, Inv x c'.
Proof.
  intros [k c0|c0 bs _|c0] [x Hi]; [|by exists x..].
  pose proof (run_spec k x c0 Hi) as Hr. unfold wpx in Hr.
  destruct (run k c0) as [c1 [u|e| | |]]; simpl; try done; try (by exists x).
  destruct Hr as (y & _ & Hy). by exists y.
Qed.

Lemma Inv_initial rx0 cl f lim : 0 <= lim <= usize_max -> Inv 0 (with_memory_limit rx0 cl f lim).
Proof.
  intros Hl. unfold Inv, retained. cbn [with_memory_limit budget_new memory_budget used limit
    pending_replies queued_messages conn_fragments].
  rewrite !msum_empty, !map_size_empty. cbn [lsum foldr length].
  split_and!; try lia; try apply map_Forall_empty. constructor.
Qed.

Lemma run_balanced k x c :
  Inv x c ->
  match run k c with
  | (c', Ok _) | (c', Err _) => Inv x c'
  | (c', Pending) => exists y, x <= y /\ Inv y c'
  | _ => False
  end.
Proof.
  intros Hi. pose proof (run_spec k x c Hi) as Hr. unfold wpx in Hr.
  by destruct (run k c) as [c' [u|e| | |]].
Qed.

(** C8. Memory of a connection is bounded by its configured limit in every
    reachable state, whatever the peer sends and however calls fail or are
    dropped: the bytes charged to the budget cover all that the pending replies,
    the queue and the fragment accumulators retain and never exceed the limit,
    and the containers hold at most 1024, 1024 and 64 entries. *)
Theorem dtx_memory_bounded rx0 cl f lim c :
  0 <= lim <= usize_max ->
  rtc step (with_memory_limit rx0 cl f lim) c ->
  0 <= retained c <= memory_bytes_used c /\ memory_bytes_used c <= memory_limit c /\
  (size (pending_replies c) <= 1024)%nat /\ (length (queued_messages c) <= 1024)%nat /\
  (size (conn_fragments c) <= 64)%nat.
Proof.
  intros Hl Hr. assert (exists x, Inv x c) as [x Hi].
  { assert (exists x, Inv x (with_memory_limit rx0 cl f lim)) as H0
      by (exists 0; by apply Inv_initial).
    clear Hl. induction Hr as [c|c1 c2 c3 Hs _ IH]; [done|]. apply IH. by apply (step_Inv c1). }
  pose proof (retained_nonneg x c Hi). destruct Hi as ([Hx Hu] & Hl' & Hp & Hq & Hs & _).
  unfold memory_bytes_used, memory_limit. split_and!; try done; lia.
Qed.

(** Every public call on a consistent connection comes back with a value
    or an error, without a panic, unless it is left waiting for the peer, which
    keeps the stream open without sending or does not take what is sent. A call that comes back leaves the budget exactly
    balanced: every reservation it made is released or owned by a retained
    message. The state [Inv 0] is the one a new connection starts in. *)
Theorem dtx_calls_balanced k c :
  Inv 0 c ->
  match run k c with
  | (c', Ok _) | (c', Err _) => Inv 0 c' /\ memory_bytes_used c' = retained c'
  | (c', Pending) => retained c' <= memory_bytes_used c'
  | _ => False
  end.
Proof.
  intros Hi. pose proof (run_balanced k 0 c Hi) as Hr.
  destruct (run k c) as [c' [u|e| | |]]; try done.
  - split; [done|]. destruct Hr as ([_ Hu] & _). unfold memory_bytes_used. lia.
  - split; [done|]. destruct Hr as ([_ Hu] & _). unfold memory_bytes_used. lia.
  - destruct Hr as (y & Hy & ([_ Hu] & _)). unfold memory_bytes_used. lia.
Qed.

(** A synchronous call gets its own reply: a [method_call] that succeeds
    returns the message that carries the identifier it allocated, whatever
    other replies, notifications or fragments arrived in between, and that
    identifier is no longer outstanding. *)
Theorem dtx_method_call_own_reply ch sel args c c' m :
  Inv 0 c -> method_call ch sel args c = (c', Ok m) ->
  identifier m = next_identifier c /\ next_identifier c ∉ outstanding_reply_ids c'.
Proof.
  intros Hi Hr. pose proof (method_call_spec ch sel args 0 c Hi) as H. unfold wpx in H.
  rewrite Hr in H. apply H.
Qed.

(** ** Reassembly *)

Lemma read_exact_ok bs rest c :
  rx c = bs ++ rest -> read_exact (len bs) c = (set_rx rest c, Ok bs).
Proof.
  intros Hrx. unfold read_exact. rewrite Hrx, len_app.
  replace (len bs + len rest <? len bs) with false by (unfold len; lia).
  replace (Z.to_nat (len bs)) with (length bs) by (unfold len; lia).
  by rewrite drop_app_length, take_app_length.
Qed.

Lemma read_header_ok h rest c :
  header_ok h -> header_len h = 32 -> rx c = wire_header h ++ rest ->
  read_dtx_header c = (set_rx rest c, Ok h).
Proof.
  intros Hh Hl Hrx. unfold read_dtx_header.
  erewrite st_bind_ok; [|exact (read_exact_ok (wire_header h) rest c Hrx)].
  erewrite st_bind_ok; [|unfold st_lift; by rewrite parse_wire_header].
  by rewrite Hl.
Qed.

Lemma try_reserve_ok n c :
  used (memory_budget c) + n <= limit (memory_budget c) <= usize_max ->
  try_reserve n c = (set_budget (mkBudget (limit (memory_budget c)) (used (memory_budget c) + n)) c, Ok tt).
Proof.
  intros H. unfold try_reserve, mbind, st_bind, st_get, st_lift, budget_try_reserve, st_mod.
  by rewrite !(proj2 (Z.ltb_ge _ _)) by lia.
Qed.

Lemma recv_round_fragment h body rest c a :
  header_ok h -> header_len h = 32 -> frag_idx h <> 0 -> msg_len h = len body ->
  rx c = wire_header h ++ body ++ rest ->
  conn_fragments c !! h_identifier h = Some a ->
  frag_cnt h = frag_cnt (header a) -> h_conv_idx h = h_conv_idx (header a) ->
  h_channel_code h = h_channel_code (header a) -> h_expects_reply h = h_expects_reply (header a) ->
  fragments a !! Z.to_nat (frag_idx h - 1) = Some None ->
  0 <= received a -> reserved_bytes a = received a -> remaining a <> 0 ->
  received a + len body <= msg_len (header a) <= MAX_DTX_MESSAGE_SIZE ->
  used (memory_budget c) + len body <= limit (memory_budget c) <= usize_max ->
  recv_round c =
  let c1 := set_rx rest (set_budget (mkBudget (limit (memory_budget c)) (used (memory_budget c) + len body)) c) in
  let a' := mkAccum (header a) (<[Z.to_nat (frag_idx h - 1) := Some body]> (fragments a)) (remaining a - 1)
              (received a + len body) (received a + len body) in
  if remaining a - 1 =? 0 then
    (m ← finish_fragments a'; mret (Some m)) (set_fragments (delete (h_identifier h) (conn_fragments c)) c1)
  else (set_fragments (<[h_identifier h := a']> (conn_fragments c)) c1, Ok None).
Proof.
  intros Hh Hl Hi Hm Hrx Ha Hcnt Hcv Hch Her Hs Hr0 Hres Hrem Hfit Hbud.
  unfold MAX_DTX_MESSAGE_SIZE in Hfit. unfold recv_round.
  pose proof Hh as (_ & Hidx & _). 
  erewrite st_bind_ok; [|by apply read_header_ok].
  replace (frag_cnt h <=? 1) with false by lia. replace (frag_idx h =? 0) with false by lia.
  unfold recv_fragment. rewrite st_bind_get. cbn [conn_fragments set_rx]. rewrite Ha.
  erewrite st_bind_ok.
  2:{ unfold check_fragment. rewrite Hcnt, Hcv, Hch, Her, !Z.eqb_refl, Bool.eqb_reflx, Hs. cbn [negb orb].
      unfold sat_sub. by rewrite (proj2 (Z.ltb_ge _ _)) by lia. }
  rewrite Hm. erewrite st_bind_ok; [|by apply try_reserve_ok].
  erewrite st_bind_ok; [|unfold on_err; erewrite read_exact_ok; reflexivity].
  unfold usize_max. rewrite Hres, !(proj2 (Z.ltb_ge _ _)) by lia.
  replace (remaining a =? 0) with false by lia. cbn [remaining].
  by destruct (remaining a - 1 =? 0).
Qed.

Lemma release_ok n c :
  release n c = (set_budget (mkBudget (limit (memory_budget c)) (sat_sub (used (memory_budget c)) n)) c, Ok tt).
Proof. done. Qed.

(** Decoding of a reassembled body, as a computation on the connection. *)
Definition decode_assembled (h : DtxHeader) (body : bytes) : conn DtxMessage :=
  m ← st_lift (decode_dtx_body_from_slice h body); normalized m.

Lemma finish_fragments_ok a body c :
  assemble (fragments a) = Some body -> body <> [] ->
  len body = msg_len (header a) -> received a = len body -> reserved_bytes a = len body ->
  len body <= used (memory_budget c) ->
  used (memory_budget c) + len body <= limit (memory_budget c) <= usize_max ->
  finish_fragments a c =
  decode_assembled (header a) body
    (set_budget (mkBudget (limit (memory_budget c)) (used (memory_budget c) - len body)) c).
Proof.
  intros Has Hne Hl Hr Hb Hu Hbud. unfold finish_fragments. rewrite Hr, <- Hl, Z.eqb_refl. cbn [negb].
  rewrite st_bind_get. unfold budget_try_reserve. rewrite !(proj2 (Z.ltb_ge _ _)) by lia.
  erewrite st_bind_ok; [|reflexivity]. rewrite Has, Z.eqb_refl. cbn [negb].
  erewrite st_bind_ok; [|apply release_ok]. rewrite Hb. unfold decode_assembled.
  pose proof (decode_body_returns (header a) body) as Hd.
  pose proof (len_nonneg body). 
  cbn [memory_budget set_budget used limit]. unfold sat_sub.
  replace (0 `max` (used (memory_budget c) + len body - len body)) with (used (memory_budget c)) by lia.
  match goal with |- (finally ?m ?k ≫= ?f) ?s = _ => assert (m s = st_lift (decode_dtx_body_from_slice (header a) body) s) as Hm end.
  { unfold read_dtx_body. by destruct body. }
  unfold finally, mbind, st_bind in *. rewrite Hm. unfold st_lift.
  destruct (decode_dtx_body_from_slice (header a) body); try done; rewrite release_ok; 
    cbn [memory_budget set_budget used limit]; unfold sat_sub;
    replace (0 `max` (used (memory_budget c) - len body)) with (used (memory_budget c) - len body) by lia; done.
Qed.

(** The fragment headers that belong to a first header. *)
Definition fragment_header (hd : DtxHeader) (i : nat) (body : bytes) : DtxHeader :=
  mkHeader 32 (Z.of_nat i + 1) (frag_cnt hd) (len body) (h_identifier hd) (h_conv_idx hd)
    (h_channel_code hd) (h_expects_reply hd).
Definition fragment_wire (hd : DtxHeader) (i : nat) (body : bytes) : bytes :=
  wire_header (fragment_header hd i body) ++ body.

(** The slots once every fragment outside [todo] has arrived. *)
Definition slots (bodies : list bytes) (todo : list nat) : list (option bytes) :=
  imap (fun i b => if decide (i ∈ todo) then None else Some b) bodies.

Lemma slots_lookup bodies todo i b :
  bodies !! i = Some b -> slots bodies todo !! i = Some (if decide (i ∈ todo) then None else Some b).
Proof. intros Hi. unfold slots. by rewrite list_lookup_imap, Hi. Qed.

Lemma slots_store bodies i todo b :
  i ∉ todo -> bodies !! i = Some b -> <[i := Some b]> (slots bodies (i :: todo)) = slots bodies todo.
Proof.
  intros Hi Hb. apply list_eq. intros j. destruct (decide (i = j)) as [<-|Hne].
  - rewrite list_lookup_insert_eq by (unfold slots; rewrite length_imap; by eapply lookup_lt_Some).
    rewrite (slots_lookup _ _ _ _ Hb). by rewrite decide_False.
  - rewrite list_lookup_insert_ne by done. unfold slots. rewrite !list_lookup_imap.
    destruct (bodies !! j); [|done]. simpl. do 2 case_decide; set_solver.
Qed.

Lemma assemble_slots bodies : assemble (slots bodies []) = Some (concat bodies).
Proof.
  assert (slots bodies [] = Some <$> bodies) as ->.
  { unfold slots. rewrite <- (imap_const Some). apply imap_ext. intros i b _. by rewrite decide_False by set_solver. }
  induction bodies as [|b bodies IH]; [done|]. cbn. by rewrite IH.
Qed.

Lemma lsum_imap_le (f : nat -> bytes -> option bytes) bodies :
  (forall i b, frag_len (f i b) <= len b) -> lsum frag_len (imap f bodies) <= len (concat bodies).
Proof.
  revert f. induction bodies as [|b bodies IH]; intros f Hf; [done|].
  rewrite imap_cons. cbn [lsum foldr concat]. fold (lsum frag_len (imap (f ∘ S) bodies)).
  rewrite len_app. specialize (IH (f ∘ S) (fun i => Hf (S i))). specialize (Hf O b). lia.
Qed.

Section reassembly.
Context (hd : DtxHeader) (bodies : list bytes) (c : DtxConnection) (rest : bytes).
Context (Hhd : header_ok hd) (Hidx : frag_idx hd = 0) (Hmany : 2 <= frag_cnt hd)
  (Hcnt : frag_cnt hd = len bodies + 1)
  (Htotal : msg_len hd = len (concat bodies))
  (Hnew : conn_fragments c !! h_identifier hd = None)
  (Hbud : 0 <= used (memory_budget c) /\
          used (memory_budget c) + 2 * msg_len hd <= limit (memory_budget c) <= usize_max).

Definition got (todo : list nat) : Z := lsum frag_len (slots bodies todo).
Definition pending_wire (todo : list nat) : bytes :=
  concat (map (fun i => fragment_wire hd i (bodies !!! i)) todo).
(** The connection while the fragments in [todo] are still to come. *)
Definition midway (todo : list nat) : DtxConnection :=
  set_rx (pending_wire todo ++ rest)
    (set_fragments (<[h_identifier hd := mkAccum hd (slots bodies todo) (len todo) (got todo) (got todo)]> (conn_fragments c))
      (set_budget (mkBudget (limit (memory_budget c)) (used (memory_budget c) + got todo)) c)).

Lemma got_store i todo b :
  i ∉ todo -> bodies !! i = Some b -> got todo = got (i :: todo) + len b.
Proof.
  intros Hi Hb. unfold got. rewrite <- (slots_store bodies i todo b Hi Hb).
  erewrite lsum_insert; [|by apply slots_lookup]. rewrite decide_True by set_solver.
  assert (frag_len None = 0 /\ frag_len (Some b) = len b) as [-> ->] by done. lia.
Qed.

Lemma got_le todo : 0 <= got todo <= msg_len hd.
Proof.
  split; [apply lsum_nonneg, frag_len_nonneg|]. rewrite Htotal. apply lsum_imap_le.
  intros i b. case_decide; unfold frag_len; simpl; unfold len; lia.
Qed.

Lemma fragment_header_ok i b : bodies !! i = Some b -> header_ok (fragment_header hd i b).
Proof.
  intros Hb. pose proof (lookup_lt_Some _ _ _ Hb) as Hi.
  pose proof Hhd as (_ & _ & Hc & Hm & _ & Hu).
  assert (len b <= msg_len hd).
  { pose proof (got_le []) as Hg. unfold got in Hg.
    pose proof (lsum_lookup frag_len (slots bodies []) i _ (frag_len_nonneg _) (slots_lookup _ [] _ _ Hb)) as Hl.
    unfold frag_len at 1 in Hl. simpl in Hl. lia. }
  unfold header_ok, fragment_header, MAX_DTX_HEADER_SIZE in *.
  cbn [header_len frag_idx frag_cnt msg_len h_identifier h_conv_idx h_channel_code].
  unfold len in *. split_and!; try lia; apply Hu.
Qed.

Lemma midway_round i todo b :
  i ∉ todo -> bodies !! i = Some b ->
  recv_round (midway (i :: todo)) =
  if len todo =? 0 then (m ← decode_assembled hd (concat bodies); mret (Some m)) (set_rx rest c)
  else (midway todo, Ok None).
Proof.
  intros Hi Hb. pose proof (lookup_lt_Some _ _ _ Hb) as Hlt.
  pose proof (got_store i todo b Hi Hb) as Hg. pose proof (got_le todo). pose proof (got_le (i :: todo)).
  pose proof Hhd as (_ & _ & _ & Hm & Hnz & _). pose proof (len_nonneg b).
  rewrite (recv_round_fragment (fragment_header hd i b) b (pending_wire todo ++ rest) (midway (i :: todo))
    (mkAccum hd (slots bodies (i :: todo)) (len (i :: todo)) (got (i :: todo)) (got (i :: todo)))).
  all: cbn [midway rx set_rx memory_budget set_fragments set_budget conn_fragments used limit header fragments
    remaining received reserved_bytes fragment_header header_len frag_idx frag_cnt msg_len h_identifier h_conv_idx
    h_channel_code h_expects_reply]; try done; try lia.
  - replace (Z.to_nat (Z.of_nat i + 1 - 1)) with i by lia. rewrite (slots_store bodies i todo b Hi Hb).
    replace (len (i :: todo) - 1) with (len todo) by (unfold len; simpl; lia).
    replace (used (memory_budget c) + got (i :: todo) + len b) with (used (memory_budget c) + got todo) by lia.
    rewrite <- Hg. destruct (len todo =? 0) eqn:E.
    + destruct todo as [|j todo]; [|unfold len in E; simpl in E; lia].
      assert (got [] = len (concat bodies)) as Hgot.
      { pose proof (assemble_complete (slots bodies [])) as Hc. rewrite assemble_slots in Hc.
        destruct Hc as (body & Hbd & Hl); [|unfold got; by simplify_eq].
        unfold slots. clear. assert (forall f : nat -> bytes -> option bytes, (forall i b, is_missing (f i b) = 0) ->
          lsum is_missing (imap f bodies) = 0) as Hz.
        { induction bodies as [|b l IH]; intros f Hf; [done|]. rewrite imap_cons. cbn [lsum foldr].
          rewrite Hf. apply (IH (f ∘ S)). intros. apply Hf. }
        apply Hz. intros i b. by rewrite decide_False by set_solver. }
      unfold mbind, st_bind. rewrite (finish_fragments_ok _ (concat bodies)); try done.
      all: cbn [memory_budget set_fragments set_rx set_budget used limit header fragments received reserved_bytes]; try lia.
      * rewrite Hgot. unfold midway. destruct c as [? ? ? ? ? ? ? ? ? ? [lim us]].
        cbn [memory_budget set_fragments set_rx set_budget used limit closed tx wr next_identifier channel_counter
           pending_replies outstanding_reply_ids queued_messages conn_fragments pending_wire map concat app] in *.
        rewrite delete_insert_id, Z.add_simpl_r by done. reflexivity.
      * apply assemble_slots.
      * intros Hn. rewrite Hn in Htotal. specialize (Hnz ltac:(lia) Hidx). by rewrite Htotal in Hnz.
    + unfold midway. f_equal. cbn [set_fragments set_rx set_budget rx closed tx wr next_identifier channel_counter
           pending_replies outstanding_reply_ids queued_messages conn_fragments memory_budget].
      by rewrite insert_insert_eq.
  - by apply fragment_header_ok.
  - unfold pending_wire. cbn [map concat]. rewrite (list_lookup_total_correct _ _ _ Hb). unfold fragment_wire.
    by rewrite <- !app_assoc.
  - by rewrite lookup_insert_eq.
  - replace (Z.to_nat (Z.of_nat i + 1 - 1)) with i by lia. rewrite (slots_lookup _ _ _ _ Hb).
    by rewrite decide_True by set_solver.
Qed.

Lemma slots_all order :
  order ≡ₚ seq 0 (length bodies) -> slots bodies order = replicate (length bodies) None.
Proof.
  intros Hp. unfold slots. clear -Hp.
  assert (forall (f : nat -> bytes -> option bytes) l, (forall i, (i < length l)%nat -> forall b, f i b = None) ->
    imap f l = replicate (length l) None) as Hr.
  { intros f l. revert f. induction l as [|b l IH]; intros f Hf; [done|]. rewrite imap_cons. cbn [length replicate].
    rewrite Hf by (simpl; lia). f_equal. apply (IH (f ∘ S)). intros i Hi. apply Hf. simpl. lia. }
  apply Hr. intros i Hi b. rewrite decide_True; [done|]. rewrite Hp. apply elem_of_seq. lia.
Qed.

Lemma midway_start order :
  order ≡ₚ seq 0 (length bodies) -> header_len hd = 32 ->
  rx c = wire_header hd ++ pending_wire order ++ rest ->
  (size (conn_fragments c) < MAX_IN_FLIGHT_FRAGMENTED_MESSAGES)%nat ->
  recv_round c = (midway order, Ok None).
Proof.
  intros Hp Hl Hrx Hs. unfold recv_round. erewrite st_bind_ok; [|by apply read_header_ok].
  replace (frag_cnt hd <=? 1) with false by lia. rewrite Hidx. cbn [Z.eqb].
  erewrite st_bind_ok; [reflexivity|]. unfold recv_first_fragment. rewrite st_bind_get.
  cbn [conn_fragments set_rx]. rewrite bool_decide_eq_false_2 by (rewrite Hnew; by intros [? ?]).
  rewrite (proj2 (Nat.leb_gt _ _)) by lia. unfold st_mod, midway. f_equal.
  rewrite (slots_all order Hp). unfold got. rewrite (slots_all order Hp), lsum_replicate_0 by done.
  unfold len at 1. rewrite (Permutation_length Hp), length_seq.
  replace (frag_cnt hd - 1) with (Z.of_nat (length bodies)) by (unfold len in Hcnt; lia).
  rewrite Nat2Z.id, Z.add_0_r. by destruct c as [? ? ? ? ? ? ? ? ? ? [lim us]].
Qed.

Lemma midway_loop todo fuel :
  NoDup todo -> todo <> [] -> (forall i, i ∈ todo -> (i < length bodies)%nat) ->
  (length todo <= fuel)%nat ->
  recv_from_stream_inner fuel (midway todo) = decode_assembled hd (concat bodies) (set_rx rest c).
Proof.
  revert fuel. induction todo as [|i todo IH]; intros fuel Hnd Hne Hin Hf; [done|].
  destruct fuel as [|fuel]; [simpl in Hf; lia|]. cbn [recv_from_stream_inner].
  apply NoDup_cons in Hnd as [Hi Hnd].
  destruct (lookup_lt_is_Some_2 bodies i) as [b Hb]; [apply Hin; set_solver|].
  unfold mbind at 1, st_bind at 1. rewrite (midway_round i todo b Hi Hb).
  destruct todo as [|j todo].
  - cbn [len length Z.of_nat Z.eqb]. unfold mbind, st_bind.
    destruct (decode_assembled hd (concat bodies) (set_rx rest c)) as [c' [m|e| | |]]; done.
  - replace (len (j :: todo) =? 0) with false by (unfold len; simpl; lia).
    apply IH; [done|done| |simpl in *; lia]. intros k Hk. apply Hin. set_solver.
Qed.

End reassembly.

(** C9. Fragment reassembly does not depend on the order of arrival. When the
    first header of a fragmented message is followed by its body fragments in
    any order, the receive loop consumes exactly these frames, restores the
    budget and the accumulator table, and decodes the message from the bodies
    concatenated in index order. *)
Theorem dtx_reassembly_any_order hd bodies order c rest fuel :
  header_ok hd -> header_len hd = 32 -> frag_idx hd = 0 -> frag_cnt hd = len bodies + 1 ->
  bodies <> [] -> msg_len hd = len (concat bodies) ->
  order ≡ₚ seq 0 (length bodies) ->
  rx c = wire_header hd ++ pending_wire hd bodies order ++ rest ->
  conn_fragments c !! h_identifier hd = None ->
  (size (conn_fragments c) < MAX_IN_FLIGHT_FRAGMENTED_MESSAGES)%nat ->
  0 <= used (memory_budget c) ->
  used (memory_budget c) + 2 * msg_len hd <= limit (memory_budget c) <= usize_max ->
  (length bodies < fuel)%nat ->
  recv_from_stream_inner fuel c =
  (m ← st_lift (decode_dtx_body_from_slice hd (concat bodies)); normalized m) (set_rx rest c).
Proof.
  intros Hh Hl Hi Hc Hne Ht Hp Hrx Hn Hs Hu Hb Hf.
  assert (2 <= frag_cnt hd) as H2 by (destruct bodies; [done|]; rewrite Hc; unfold len; simpl; lia).
  destruct fuel as [|fuel]; [lia|]. cbn [recv_from_stream_inner].
  erewrite st_bind_ok; [|by apply (midway_start hd bodies c rest)].
  apply midway_loop; try done.
  - rewrite Hp. apply NoDup_seq.
  - intros ->. symmetry in Hp. apply Permutation_nil_r in Hp. by destruct bodies.
  - intros i. rewrite Hp, elem_of_seq. lia.
  - rewrite (Permutation_length Hp), length_seq. lia.
Qed.

(** A receive that is dropped while it waits for the body of a message
    does not give its reservation back: the connection stays charged with the
    announced length although it retains nothing for it. *)
Theorem dtx_cancelled_recv_leaks h part c :
  header_ok h -> header_len h = 32 -> frag_cnt h = 1 -> closed c = false ->
  queued_messages c = [] -> rx c = wire_header h ++ part -> len part < msg_len h ->
  used (memory_budget c) + msg_len h <= limit (memory_budget c) <= usize_max ->
  exists c', recv c = (c', Pending) /\
    memory_bytes_used c' = memory_bytes_used c + msg_len h /\ retained c' = retained c.
Proof.
  intros Hh Hl Hc Hcl Hq Hrx Hp Hb. pose proof (len_nonneg part).
  exists (set_rx [] (set_budget (mkBudget (limit (memory_budget c)) (used (memory_budget c) + msg_len h)) c)).
  split; [|done].
  unfold recv. erewrite st_bind_ok; [|unfold pop_queued_message; rewrite st_bind_get, Hq; reflexivity].
  cbv beta iota. rewrite st_bind_get. cbn [recv_loop].
  unfold recv_from_stream, on_err. cbn [recv_from_stream_inner].
  assert (recv_round c = (set_rx [] (set_budget (mkBudget (limit (memory_budget c)) (used (memory_budget c) + msg_len h)) c),
    Pending)) as Hr.
  { unfold recv_round. erewrite st_bind_ok; [|by apply read_header_ok]. rewrite Hc. cbn [Z.leb Z.compare Pos.compare Pos.compare_cont].
    unfold recv_single. replace (msg_len h =? 0) with false by lia.
    unfold mbind at 1 2, st_bind at 1 2. rewrite try_reserve_ok by done.
    unfold finally, read_dtx_body. replace (0 <? msg_len h) with true by lia.
    unfold mbind, st_bind, read_exact. cbn [rx set_budget set_rx closed].
    by rewrite (proj2 (Z.ltb_lt _ _) Hp), Hcl. }
  unfold mbind, st_bind. by rewrite Hr.
Qed.

End conn_inv.

(** Containers without spare capacity, for concrete runs. *)
#[refine] Definition exact_alloc : Alloc :=
  {| string_capacity := len; vec_capacity := len; map_capacity := len;
     size_of_NSObject := 32; size_of_entry := 56 |}.
Proof. all: intros; lia. Defined.

Definition example_first : DtxHeader := mkHeader 32 0 3 19 9 1 4 false.
Definition example_conn : DtxConnection :=
  new (wire_header example_first ++ pending_wire example_first [take 5 (wire_body 7 [x61; x62; x63] []);
         drop 5 (wire_body 7 [x61; x62; x63] [])] [1; 0]%nat ++ [x1f]) true [].

Lemma dtx_reassembly_any_order_witness :
  recv_from_stream_inner (AR := plain_archiver) 3 example_conn =
  (set_rx [x1f] example_conn, Ok (mkMessage 9 1 4 false (Raw [x61; x62; x63]))).
Proof.
  refine (dtx_reassembly_any_order (AR := plain_archiver) example_first
    [take 5 (wire_body 7 [x61; x62; x63] []); drop 5 (wire_body 7 [x61; x62; x63] [])] [1; 0]%nat
    example_conn [x1f] 3 _ _ _ _ _ _ _ _ _ _ _ _ _); try reflexivity; try done.
  - apply perm_swap.
  - vm_compute. lia.
  - vm_compute. lia.
Defined.

Definition open_conn : DtxConnection :=
  new (wire_header (mkHeader 32 0 1 100 9 1 4 false) ++ [x61]) false [].

Lemma dtx_cancelled_recv_leaks_witness :
  exists c', recv (AR := plain_archiver) (AL := exact_alloc) open_conn = (c', Pending) /\
    memory_bytes_used c' = 100 /\ retained c' = 0.
Proof.
  refine (dtx_cancelled_recv_leaks (AR := plain_archiver) (AL := exact_alloc)
    (mkHeader 32 0 1 100 9 1 4 false) [x61] open_conn _ _ _ _ _ _ _ _); try reflexivity.
  - unfold header_ok, in_u, in_i; cbn; split_and!; try done.
  - vm_compute; split; congruence.
Defined.

(** A call on a fresh connection whose reply arrives after a notification that
    wants an acknowledgement. *)
Definition reply_conn : DtxConnection :=
  new (encode_dtx 77 0 (-3) true MSG_METHOD_INVOCATION [x6e] [] ++
       encode_dtx 5 1 3 false MSG_RESPONSE [x6f; x6b] []) true [].

Lemma reply_conn_Inv : Inv 0 reply_conn.
Proof. apply Inv_initial. vm_compute. split; congruence. Qed.

Lemma dtx_memory_bounded_witness :
  let c := fst (run (AR := plain_archiver) (AL := exact_alloc) (MethodCall 3 [x67; x6f] []) reply_conn) in
  memory_bytes_used c = 1 /\ 0 <= retained c <= memory_bytes_used c.
Proof.
  intros c. split; [reflexivity|].
  refine (proj1 (dtx_memory_bounded (AR := plain_archiver) (AL := exact_alloc) (rx reply_conn) true []
    DEFAULT_DTX_MEMORY_BUDGET c _ _)).
  - vm_compute. split; congruence.
  - apply rtc_once. apply (step_call (AR := plain_archiver) (AL := exact_alloc)).
Defined.

Lemma dtx_calls_balanced_witness :
  exists c', run (AR := plain_archiver) (AL := exact_alloc) Recv reply_conn = (c', Ok tt) /\
    memory_bytes_used c' = retained c'.
Proof.
  pose proof (dtx_calls_balanced (AR := plain_archiver) (AL := exact_alloc) Recv reply_conn
    reply_conn_Inv) as H.
  assert (snd (run (AR := plain_archiver) (AL := exact_alloc) Recv reply_conn) = Ok tt) as Ho by (vm_compute; reflexivity).
  destruct (run (AR := plain_archiver) (AL := exact_alloc) Recv reply_conn) as [c' o]. cbn [snd] in Ho. subst o.
  exists c'. split; [done|apply H].
Defined.

Lemma dtx_method_call_own_reply_witness :
  exists c' m, method_call (AR := plain_archiver) (AL := exact_alloc) 3 [x67; x6f] [] reply_conn = (c', Ok m) /\
    payload m = Response (String [x6f; x6b]) /\ identifier m = 5.
Proof.
  pose proof (dtx_method_call_own_reply (AR := plain_archiver) (AL := exact_alloc) 3 [x67; x6f] [] reply_conn) as H.
  assert (snd (method_call (AR := plain_archiver) (AL := exact_alloc) 3 [x67; x6f] [] reply_conn) =
    Ok (mkMessage 5 1 3 false (Response (String [x6f; x6b])))) as Ho by (vm_compute; reflexivity).
  destruct (method_call (AR := plain_archiver) (AL := exact_alloc) 3 [x67; x6f] [] reply_conn) as [c' o].
  cbn [snd] in Ho. subst o. do 2 eexists. split; [reflexivity|]. split; [reflexivity|].
  exact (proj1 (H _ _ reply_conn_Inv eq_refl)).
Defined.

End DtxConn.
