(* ===== verification/Archive.v ===== *)
(** The NSKeyedArchiver codec ([crates/ios-core/src/proto/nskeyedarchiver.rs],
    [nskeyedarchiver_encode.rs]).

    An archive is a property list with a pool of objects, [$objects], that refer to
    each other by index. The decoder follows the references to a fixed depth; the
    code counts [depth] up to [MAX_ARCHIVE_DEPTH], the model counts the levels that
    remain down, so that its recursion is structural. The encoder appends to the pool
    and returns the reference to what it added. A [HashMap] under construction is the
    list of its entries, a finished one iterates them in an order of its own, [hash_order]
    of [DtxTypes]. The plist crate's encodings and the [Display] of an
    [f64], used for a number that serves as a key, are parameters. *)

From stdpp Require Import countable.
From S2P Require Import Prelude Utf8 Text Plist DtxTypes.
#[local] Open Scope Z_scope.

Module Archive.
Import Text Plist.
Import Dtx(ArchiveValue(..), HashOrder, hash_map).
#[local] Open Scope plist_scope.

Inductive ArchiveError :=
| PlistError
| Invalid (m : msg)
| TooDeep (depth : nat).

Definition MAX_ARCHIVE_DEPTH : nat := 64.

(** [{"CF$UID": n}], a native UID or a plain integer *)
Definition uid_from_plist (v : Value) : option nat :=
  match v with
  | Uid n => Some (Z.to_nat n)
  | _ =>
      match as_dictionary v ?> get (str "CF$UID") ?> as_unsigned_integer with
      | Some n => Some (Z.to_nat n)
      | None => Z.to_nat <$> as_unsigned_integer v
      end
  end.

Definition plain_integer (n : Z) : ArchiveValue := if n <? 2 ^ 63 then AvInt n else AvUint n.

Definition NS_STRING : list bytes := map str ["NSString"; "__NSCFString"; "__NSCFConstantString"]%string.
Definition NS_NUMBER : list bytes := map str ["NSNumber"; "__NSCFNumber"; "__NSCFBoolean"]%string.
Definition NS_ARRAY : list bytes := map str ["NSArray"; "NSMutableArray"; "NSSet"; "NSMutableSet"; "NSOrderedSet"]%string.
Definition NS_DICTIONARY : list bytes := map str ["NSDictionary"; "NSMutableDictionary"]%string.
Definition NS_DATA : list bytes := map str ["NSData"; "NSMutableData"]%string.
Definition TAP_MESSAGE : list bytes :=
  map str ["DTSysmonTapMessage"; "DTActivityTraceTapMessage"; "DTTapMessage"; "DTTapHeartbeatMessage"; "DTTapStatusMessage"; "DTKTraceTapMessage"]%string.

Definition decode_number (dict : list (bytes * Value)) : ArchiveValue :=
  match get (str "NS.intval") dict ?> as_signed_integer with
  | Some n => AvInt n
  | None =>
      match get (str "NS.intval") dict ?> as_unsigned_integer with
      | Some n => plain_integer n
      | None =>
          match get (str "NS.dblval") dict ?> as_real with
          | Some f => AvFloat f
          | None =>
              match get (str "NS.boolval") dict ?> as_boolean with
              | Some b => AvBool b
              | None => AvNull
              end
          end
      end
  end.

(** The references in an array field. *)
Definition uids (key : bytes) (dict : list (bytes * Value)) : list nat :=
  match get key dict ?> as_array with Some l => omap uid_from_plist l | None => [] end.

Section decoder.
Context {PC : PlistCodec} {HO : HashOrder} (f64_to_string : Z -> bytes).

(** The text of a key; a key of another kind, or one that does not decode, is skipped. *)
Definition key_text (r : outcome ArchiveError ArchiveValue) : option bytes :=
  match r with
  | Ok (AvString k) => Some k
  | Ok (AvInt n) | Ok (AvUint n) => Some (print_int n)
  | Ok (AvFloat f) => Some (f64_to_string f)
  | Ok (AvBool b) => Some (print_bool b)
  | _ => None
  end.

Section level.
Context (objects : list Value).
(** One level further down: [decode_object] and [decode_field_value]. *)
Context (object : nat -> outcome ArchiveError ArchiveValue) (field : Value -> outcome ArchiveError ArchiveValue).

Definition decode_pairs (kvs : list (nat * nat)) : outcome ArchiveError (list (bytes * ArchiveValue)) :=
  foldM (fun '(k, v) map =>
    match key_text (object k) with
    | None => Ok map
    | Some key => v ← object v; Ok (imap_insert key v map)
    end) kvs [].
Definition decode_fields (dict : list (bytes * Value)) : outcome ArchiveError (list (bytes * ArchiveValue)) :=
  foldM (fun '(key, value) map =>
    if decide (key = str "$class") then Ok map else v ← field value; Ok (imap_insert key v map)) dict [].

Definition class_name (dict : list (bytes * Value)) : bytes :=
  default (str "Unknown")
    (get (str "$class") dict ?> uid_from_plist ?> (fun uid => objects !! uid) ?> as_dictionary ?> get (str "$classname") ?> as_string).

Definition decode_keyed (dict : list (bytes * Value)) : outcome ArchiveError ArchiveValue :=
  let class := class_name dict in
  if decide (class = str "NSNull") then Ok AvNull
  else if decide (class ∈ NS_STRING) then Ok (AvString (default [] (get (str "NS.string") dict ?> as_string)))
  else if decide (class ∈ NS_NUMBER) then Ok (decode_number dict)
  else if decide (class ∈ NS_ARRAY) then
    AvArray <$> foldM (fun uid result => v ← object uid; Ok (result ++ [v])) (uids (str "NS.objects") dict) []
  else if decide (class ∈ NS_DICTIONARY) then
    hash_map <$> decode_pairs (zip (uids (str "NS.keys") dict) (uids (str "NS.objects") dict))
  else if decide (class ∈ NS_DATA) then
    Ok (match get (str "NS.data") dict ?> as_data with Some d => AvData d | None => AvNull end)
  else if decide (class ∈ TAP_MESSAGE) then
    match get (str "DTTapMessagePlist") dict ?> uid_from_plist with
    | Some uid => object uid
    | None => Ok (AvUnknown class)
    end
  else
    map ← decode_fields dict;
    Ok (hash_map (match imap_lookup (str "ObjectType") map with Some _ => map | None => imap_insert (str "ObjectType") (AvString class) map end)).

Definition decode_value (obj : Value) : outcome ArchiveError ArchiveValue :=
  match obj with
  | String s => if decide (s = str "$null") then Ok AvNull else Ok (AvString s)
  | Integer n => Ok (plain_integer n)
  | Real f => Ok (AvFloat f)
  | Boolean b => Ok (AvBool b)
  | Data d => Ok (AvData d)
  | Uid n => object (Z.to_nat n)
  | Dictionary dict => decode_keyed dict
  | Array _ | Date _ => Ok AvNull
  end.
End level.

(** [levels] more levels may be entered: [depth = MAX_ARCHIVE_DEPTH + 1 - levels]. *)
Fixpoint decode_object (objects : list Value) (levels uid : nat) : outcome ArchiveError ArchiveValue :=
  match levels with
  | O => Err (TooDeep MAX_ARCHIVE_DEPTH)
  | S levels =>
      if (length objects <=? uid)%nat then Err (Invalid (Msg "uid {uid} out of bounds" [Z.of_nat uid])) else
      obj ← index objects uid;
      decode_value objects (decode_object objects levels) (decode_field_value objects levels) obj
  end
with decode_field_value (objects : list Value) (levels : nat) (value : Value) : outcome ArchiveError ArchiveValue :=
  match levels with
  | O => Err (TooDeep MAX_ARCHIVE_DEPTH)
  | S levels =>
      match uid_from_plist value with
      | Some uid => decode_object objects levels uid
      | None =>
          match value with
          | Array items => AvArray <$> foldM (fun item l => v ← decode_field_value objects levels item; Ok (l ++ [v])) items []
          | Dictionary dict =>
              match get (str "$class") dict with
              | None => hash_map <$> foldM (fun '(key, value) map => v ← decode_field_value objects levels value; Ok (imap_insert key v map)) dict []
              | Some _ => decode_value objects (decode_object objects levels) (decode_field_value objects levels) value
              end
          | _ => decode_value objects (decode_object objects levels) (decode_field_value objects levels) value
          end
      end
  end.

Definition ok_or {A} (m : string) (o : option A) : outcome ArchiveError A :=
  match o with Some a => Ok a | None => Err (Invalid (Msg m [])) end.
Definition unarchive_doc (plist : Value) : outcome ArchiveError ArchiveValue :=
  root_dict ← ok_or "top-level is not a dict" (as_dictionary plist);
  let archiver := default [] (get (str "$archiver") root_dict ?> as_string) in
  if decide (archiver = str "NSKeyedArchiver") then
    objects ← ok_or "missing $objects" (get (str "$objects") root_dict ?> as_array);
    top ← ok_or "missing $top" (get (str "$top") root_dict ?> as_dictionary);
    root_uid ← ok_or "missing $top.root uid" (get (str "root") top ?> uid_from_plist);
    decode_object objects (S MAX_ARCHIVE_DEPTH) root_uid
  else Err (Invalid (Msg "unknown archiver: {archiver}" [])).
Definition unarchive (data : bytes) : outcome ArchiveError ArchiveValue :=
  match from_bytes data with
  | Some plist => unarchive_doc plist
  | None => Err PlistError
  end.
End decoder.

(** *** Reading a decoded value *)
Definition as_int (v : ArchiveValue) : option Z :=
  match v with
  | AvInt n => Some n
  | AvUint n => if n <? 2 ^ 63 then Some n else None
  | AvBool b => Some (Z.b2z b)
  | _ => None
  end.
Definition as_uint (v : ArchiveValue) : option Z :=
  match v with
  | AvUint n => Some n
  | AvInt n => if 0 <=? n then Some n else None
  | AvBool b => Some (Z.b2z b)
  | _ => None
  end.
Definition archive_as_array (v : ArchiveValue) : option (list ArchiveValue) := match v with AvArray a => Some a | _ => None end.
Definition archive_as_dict (v : ArchiveValue) : option (list (bytes * ArchiveValue)) := match v with AvDict d => Some d | _ => None end.

(** ** Encoder *)

Section encoder.
Context {PC : PlistCodec}.

Definition class_descriptor (classname : bytes) (classes : list bytes) : Value :=
  Dictionary [(str "$classname", String classname); (str "$classes", Array (map String classes))].

Definition build_keyed_archive (root_uid : Value) (objects : list Value) : Value :=
  Dictionary [(str "$archiver", String (str "NSKeyedArchiver")); (str "$version", Integer 100000);
              (str "$top", Dictionary [(str "root", root_uid)]); (str "$objects", Array objects)].
Definition to_binary_plist (val : Value) : outcome ArchiveError bytes :=
  match to_writer_binary val with Some buf => Ok buf | None => Panic end.

(** [Uid::new(idx as u64)] *)
Definition uid (idx : nat) : Value := Uid (Z.of_nat idx).
Definition null_object : Value := String (str "$null").

(** The pool and what is returned besides. *)
Abbreviation into := (list Value -> list Value * Value).
Definition push (v : Value) : into := fun objects => (objects ++ [v], uid (length objects)).
Fixpoint map_into {A B} (f : A -> list Value -> list Value * B) (l : list A) (objects : list Value) : list Value * list B :=
  match l with
  | [] => (objects, [])
  | a :: l =>
      let '(objects, b) := f a objects in
      let '(objects, bs) := map_into f l objects in
      (objects, b :: bs)
  end.

(** The loop over the entries: a key, then its value. *)
Definition pair_into (value_into : Value -> into) (kv : bytes * Value) (objects : list Value) : list Value * (Value * Value) :=
  let '(k, v) := kv in
  let '(objects, k_uid) := push (String k) objects in
  let '(objects, v_uid) := value_into v objects in
  (objects, (k_uid, v_uid)).
Definition archive_pairs_into (value_into : Value -> into) (pairs : list (bytes * Value)) : into := fun objects =>
  let dict_idx := length objects in
  let objects := objects ++ [Boolean false] in
  let '(objects, uids) := map_into (pair_into value_into) pairs objects in
  let class_idx := length objects in
  let objects := objects ++ [class_descriptor (str "NSDictionary") [str "NSDictionary"; str "NSObject"]] in
  let dict_obj := Dictionary [(str "$class", uid class_idx); (str "NS.keys", Array uids.*1); (str "NS.objects", Array uids.*2)] in
  (<[dict_idx := dict_obj]> objects, uid dict_idx).

Fixpoint archive_value_into (val : Value) : into := fun objects =>
  match val with
  | Array items =>
      let '(objects, item_uids) := map_into archive_value_into items objects in
      let arr_idx := length objects in
      let arr_obj := Dictionary [(str "$class", uid (arr_idx + 1)); (str "NS.objects", Array item_uids)] in
      (objects ++ [arr_obj; class_descriptor (str "NSArray") [str "NSArray"; str "NSObject"]], uid arr_idx)
  | Dictionary dict => archive_pairs_into archive_value_into dict objects
  | _ => push val objects
  end.
Definition archive_dict_into (pairs : list (bytes * Value)) : into := archive_pairs_into archive_value_into pairs.

Definition finish (root : into) : outcome ArchiveError bytes :=
  let '(objects, root_uid) := root [null_object] in to_binary_plist (build_keyed_archive root_uid objects).
Definition archive_value (val : Value) : outcome ArchiveError bytes :=
  to_binary_plist (build_keyed_archive (uid 1) [null_object; val]).
Definition archive_string (s : bytes) := archive_value (String s).
Definition archive_int (n : Z) := archive_value (Integer n).
Definition archive_float (f : Z) := archive_value (Real f).
Definition archive_bool (b : bool) := archive_value (Boolean b).
Definition archive_data (d : bytes) := archive_value (Data d).
Definition archive_null : outcome ArchiveError bytes :=
  to_binary_plist (build_keyed_archive (uid 1)
    [null_object; Dictionary [(str "$class", uid 2)]; class_descriptor (str "NSNull") [str "NSNull"; str "NSObject"]]).
Definition archive_dict (pairs : list (bytes * Value)) := finish (archive_dict_into pairs).
Definition archive_array (items : list Value) : outcome ArchiveError bytes :=
  let count := length items in
  let arr_obj := Dictionary [(str "$class", uid (2 + count)); (str "NS.objects", Array (map (fun i => uid (2 + i)) (seq 0 count)))] in
  to_binary_plist (build_keyed_archive (uid 1)
    ([null_object; arr_obj] ++ items ++ [class_descriptor (str "NSArray") [str "NSArray"; str "NSObject"]])).

(** *** XCTest objects *)

Record NsUrl := mkUrl { path : bytes }.
Record XctCapabilities := mkCapabilities { capabilities : list (bytes * Value) }.
(** The session identifier is the UUID's sixteen bytes. *)
Record XcTestConfiguration := mkConfiguration {
  session_identifier : bytes;
  test_bundle_url : NsUrl;
  ide_capabilities : XctCapabilities;
  automation_framework_path : bytes;
  initialize_for_ui_testing : bool;
  report_results_to_ide : bool;
  tests_must_run_on_main_thread : bool;
  test_timeouts_enabled : bool;
  additional_fields : list (bytes * Value);
}.

Definition archive_nsuuid_into (uuid : bytes) : into := fun objects =>
  let object_idx := length objects in
  (objects ++ [Dictionary [(str "$class", uid (object_idx + 1)); (str "NS.uuidbytes", Data uuid)];
               class_descriptor (str "NSUUID") [str "NSUUID"; str "NSObject"]], uid object_idx).
Definition archive_nsurl_into (url : NsUrl) : into := fun objects =>
  let object_idx := length objects in
  (objects ++ [Dictionary [(str "$class", uid (object_idx + 1)); (str "NS.base", uid 0); (str "NS.relative", uid (object_idx + 2))];
               class_descriptor (str "NSURL") [str "NSURL"; str "NSObject"]; String (str "file://" ++ path url)], uid object_idx).
Definition archive_xct_capabilities_into (c : XctCapabilities) : into := fun objects =>
  let '(objects, dict_uid) := archive_dict_into (capabilities c) objects in
  let object_idx := length objects in
  (objects ++ [Dictionary [(str "$class", uid (object_idx + 1)); (str "capabilities-dictionary", dict_uid)];
               class_descriptor (str "XCTCapabilities") [str "XCTCapabilities"; str "NSObject"]], uid object_idx).

Definition archive_nsset_into (values : list bytes) : into := fun objects =>
  let object_idx := length objects in
  let class_idx := (object_idx + 1)%nat in
  let objects := objects ++ [Boolean false; class_descriptor (str "NSSet") [str "NSSet"; str "NSObject"]] in
  let '(objects, item_uids) := map_into (fun value => archive_value_into (String value)) values objects in
  (<[object_idx := Dictionary [(str "$class", uid class_idx); (str "NS.objects", Array item_uids)]]> objects, uid object_idx).

Definition slash : byte := x2f.
Definition dot : byte := x2e.
Definition archive_xct_test_identifier_into (selector : bytes) : into := fun objects =>
  let class_idx := length objects in
  let objects := objects ++ [class_descriptor (str "XCTTestIdentifier") [str "XCTTestIdentifier"; str "NSObject"]] in
  let '(class, method) := match split_once slash selector with Some (class, method) => (class, Some method) | None => (selector, None) end in
  let class := match split_once dot class with Some (_, class) => class | None => class end in
  let components := match method with Some method => [String class; String method] | None => [String class] end in
  let options := match method with Some _ => 2 | None => 3 end in
  let '(objects, components_uid) := archive_value_into (Array components) objects in
  (objects ++ [Dictionary [(str "$class", uid class_idx); (str "c", components_uid); (str "o", Integer options)]], uid (length objects)).
Definition archive_xct_test_identifier_set_into (values : list bytes) : into := fun objects =>
  let set_idx := length objects in
  let array_idx := (set_idx + 1)%nat in
  let array_class_idx := (set_idx + 2)%nat in
  let objects := objects ++ [Boolean false; Boolean false; class_descriptor (str "NSMutableArray") [str "NSMutableArray"; str "NSArray"; str "NSObject"]] in
  let '(objects, identifier_uids) := map_into archive_xct_test_identifier_into values objects in
  let array := Dictionary [(str "$class", uid array_class_idx); (str "NS.objects", Array identifier_uids)] in
  let objects := <[array_idx := array]> objects in
  let set_class_idx := length objects in
  let objects := objects ++ [class_descriptor (str "XCTTestIdentifierSet") [str "XCTTestIdentifierSet"; str "NSObject"]] in
  (<[set_idx := Dictionary [(str "$class", uid set_class_idx); (str "identifiers", uid array_idx)]]> objects, uid set_idx).

Definition archive_configuration_field (value : Value) : into := fun objects =>
  match value with
  | String _ | Data _ | Date _ | Array _ | Dictionary _ => archive_value_into value objects
  | _ => (objects, value)
  end.
(** The selectors of a [testsToRun] or [testsToSkip] array of strings. *)
Definition selectors_of (key : bytes) (value : Value) : option (list bytes) :=
  if decide (key = str "testsToRun" \/ key = str "testsToSkip") then
    match value with
    | Array items =>
        let selectors := omap as_string items in
        if (length selectors =? length items)%nat then Some selectors else None
    | _ => None
    end
  else None.
Definition archive_field (f : bytes * Value) (acc : list Value * list (bytes * Value)) : list Value * list (bytes * Value) :=
  let '(key, value) := f in
  let '(objects, object) := acc in
  match selectors_of key value with
  | Some selectors =>
      let '(objects, set_uid) := archive_nsset_into selectors objects in
      let object := imap_insert key set_uid object in
      let identifier_key := if decide (key = str "testsToRun") then str "testIdentifiersToRun" else str "testIdentifiersToSkip" in
      let '(objects, identifiers_uid) := archive_xct_test_identifier_set_into selectors objects in
      (objects, imap_insert identifier_key identifiers_uid object)
  | None =>
      let '(objects, field) := archive_configuration_field value objects in
      (objects, imap_insert key field object)
  end.
Definition archive_xctest_configuration_into (config : XcTestConfiguration) : into := fun objects =>
  let '(objects, session_uid) := archive_nsuuid_into (session_identifier config) objects in
  let '(objects, bundle_uid) := archive_nsurl_into (test_bundle_url config) objects in
  let '(objects, caps_uid) := archive_xct_capabilities_into (ide_capabilities config) objects in
  let '(objects, automation_uid) := archive_value_into (String (automation_framework_path config)) objects in
  let object :=
    [(str "sessionIdentifier", session_uid); (str "testBundleURL", bundle_uid); (str "IDECapabilities", caps_uid);
     (str "automationFrameworkPath", automation_uid);
     (str "initializeForUITesting", Boolean (initialize_for_ui_testing config));
     (str "reportResultsToIDE", Boolean (report_results_to_ide config));
     (str "testsMustRunOnMainThread", Boolean (tests_must_run_on_main_thread config));
     (str "testTimeoutsEnabled", Boolean (test_timeouts_enabled config))] in
  let '(objects, object) := fold_left (fun acc f => archive_field f acc) (additional_fields config) (objects, object) in
  let object_idx := length objects in
  let object := imap_insert (str "$class") (uid (object_idx + 1)) object in
  (objects ++ [Dictionary object; class_descriptor (str "XCTestConfiguration") [str "XCTestConfiguration"; str "NSObject"]], uid object_idx).

Definition archive_uuid (uuid : bytes) := finish (archive_nsuuid_into uuid).
Definition archive_nsurl (url : NsUrl) := finish (archive_nsurl_into url).
Definition archive_xct_capabilities (c : XctCapabilities) := finish (archive_xct_capabilities_into c).
Definition archive_xctest_configuration (config : XcTestConfiguration) := finish (archive_xctest_configuration_into config).
End encoder.

End Archive.
