(* ===== verification/ArchiveSpec.v ===== *)
(** Correctness of the NSKeyedArchiver codec: archives decode to what was archived,
    decoding is bounded, and the archives the encoders build are well-formed.

    [repr] relates a pool and a reference to the value stored there; the encoders
    establish it and the decoder inverts it. [pool_ok] is the type discipline of a
    pool: references in range, and a [$class] that names a class descriptor. *)

From stdpp Require Import countable.
From S2P Require Import Prelude Utf8 Text Plist DtxTypes Archive.
#[local] Open Scope Z_scope.

Module ArchiveSpec.
Import Text Plist Archive.
Import Dtx(ArchiveValue(..), HashOrder(..), hash_map, same, hash_map_same).
#[local] Existing Instances Dtx.same_equivalence Dtx.AvArray_proper Dtx.AvDict_proper.
#[local] Infix "≃" := same (at level 70).
#[local] Open Scope plist_scope.

(** ** Archivable values *)

Definition scalar (v : Value) : Prop :=
  match v with
  | String s => s <> str "$null"
  | Integer _ | Real _ | Boolean _ | Data _ => True
  | _ => False
  end.
(** Text other than the null marker, numbers, data, and arrays and dictionaries of these. *)
Fixpoint plain (v : Value) : Prop :=
  match v with
  | Array l => foldr (fun v => and (plain v)) True l
  | Dictionary m => foldr (fun kv => and (kv.1 <> str "$null" /\ plain kv.2)) True m
  | _ => scalar v
  end.
Lemma plain_array l : plain (Array l) <-> Forall plain l.
Proof. apply foldr_and. Qed.
Lemma plain_dictionary m : plain (Dictionary m) <-> Forall (fun kv => kv.1 <> str "$null" /\ plain kv.2) m.
Proof. apply foldr_and. Qed.

(** Levels a value takes in the pool. *)
Fixpoint height (v : Value) : nat :=
  match v with
  | Array l => S (foldr (fun v => Nat.max (height v)) 0%nat l)
  | Dictionary m => S (foldr (fun kv => Nat.max (height kv.2)) 1%nat m)
  | _ => 1
  end.

Fixpoint to_archive (v : Value) : ArchiveValue :=
  match v with
  | Array l => AvArray (map to_archive l)
  | Dictionary m => AvDict (map (fun kv => (kv.1, to_archive kv.2)) m)
  | Boolean b => AvBool b
  | Data d => AvData d
  | Real f => AvFloat f
  | Integer n => plain_integer n
  | String s => AvString s
  | Date _ | Uid _ => AvNull
  end.

(** The same with the entries of each dictionary in its [HashMap]'s order. *)
Fixpoint in_memory {HO : HashOrder} (v : Value) : ArchiveValue :=
  match v with
  | Array l => AvArray (map in_memory l)
  | Dictionary m => hash_map (map (fun kv => (kv.1, in_memory kv.2)) m)
  | _ => to_archive v
  end.
Lemma in_memory_same {HO : HashOrder} v : in_memory v ≃ to_archive v.
Proof.
  induction v as [l IH|m IH| | | | | | |] using value_ind'; try done; cbn [in_memory to_archive].
  - constructor. by induction IH; constructor.
  - rewrite hash_map_same. eapply Dtx.same_dict; [done|]. by induction IH; constructor.
Qed.

(** ** Values in a pool *)

Definition array_object (c : nat) (us : list nat) : Value := Dictionary [(str "$class", uid c); (str "NS.objects", Array (map uid us))].
Definition dict_object (c : nat) (ks vs : list nat) : Value :=
  Dictionary [(str "$class", uid c); (str "NS.keys", Array (map uid ks)); (str "NS.objects", Array (map uid vs))].
Definition array_class : Value := class_descriptor (str "NSArray") [str "NSArray"; str "NSObject"].
Definition dict_class : Value := class_descriptor (str "NSDictionary") [str "NSDictionary"; str "NSObject"].

(** The entry [u] of the pool stands for [v] and uses no entry below [lo]. *)
Inductive repr (objs : list Value) (lo : nat) : nat -> Value -> Prop :=
| repr_scalar u v : (lo <= u)%nat -> scalar v -> objs !! u = Some v -> repr objs lo u v
| repr_array u c us items :
    (lo <= u)%nat -> (lo <= c)%nat -> objs !! u = Some (array_object c us) -> objs !! c = Some array_class ->
    Forall2 (repr objs lo) us items -> repr objs lo u (Array items)
| repr_dict u c ks vs dict :
    (lo <= u)%nat -> (lo <= c)%nat -> objs !! u = Some (dict_object c ks vs) -> objs !! c = Some dict_class ->
    Forall2 (fun k kv => (lo <= k)%nat /\ objs !! k = Some (String kv.1)) ks dict ->
    Forall2 (fun u kv => repr objs lo u kv.2) vs dict -> repr objs lo u (Dictionary dict).

Definition extends (lo : nat) (objs objs' : list Value) : Prop := forall i x, (lo <= i)%nat -> objs !! i = Some x -> objs' !! i = Some x.
Lemma extends_app lo objs new : extends lo objs (objs ++ new).
Proof. intros i x _ H. by apply lookup_app_l_Some. Qed.

Lemma repr_extends objs objs' lo lo' u v :
  extends lo objs objs' -> (lo' <= lo)%nat -> repr objs lo u v -> repr objs' lo' u v.
Proof.
  intros He Hlo. revert u. induction v as [l IH|m IH| | | | | | |] using value_ind'; intros u Hr;
    inversion Hr as [? ? ? Hs|? c us ? Hu Hc Eu Ec Hall|? c ks vs ? Hu Hc Eu Ec Hks Hvs]; subst; try (by destruct Hs);
    try (apply repr_scalar; [lia|done|by apply He]).
  - apply (repr_array _ _ _ c us); [lia|lia|by apply He|by apply He|].
    clear -IH Hall. revert l IH Hall. induction us as [|w us IHus]; intros l IH Hall; inversion Hall; subst; constructor;
      inversion IH; subst; [auto|by apply IHus].
  - apply (repr_dict _ _ _ c ks vs); [lia|lia|by apply He|by apply He| |].
    + eapply Forall2_impl; [exact Hks|]. intros k kv [? ?]. split; [lia|by apply He].
    + clear -IH Hvs. revert m IH Hvs. induction vs as [|w vs IHvs]; intros m IH Hvs; inversion Hvs; subst; constructor;
        inversion IH; subst; [auto|by apply IHvs].
Qed.

(** ** What the encoder stores *)

Definition stores (f : list Value -> list Value * Value) (v : Value) : Prop :=
  forall objs, exists new u, f objs = (objs ++ new, uid u) /\ repr (objs ++ new) (length objs) u v.

Lemma map_into_stores {A} (f : A -> list Value -> list Value * Value) (g : A -> Value) l :
  Forall (fun a => stores (f a) (g a)) l ->
  forall objs, exists new us, map_into f l objs = (objs ++ new, map uid us) /\ Forall2 (repr (objs ++ new) (length objs)) us (map g l).
Proof.
  induction 1 as [|a l Ha Hl IH]; intros objs; cbn [map_into map].
  - exists [], []. by rewrite app_nil_r.
  - destruct (Ha objs) as (new & u & -> & Hr). destruct (IH (objs ++ new)) as (new' & us & -> & Hrs).
    exists (new ++ new'), (u :: us). rewrite <- app_assoc in *. split; [done|]. constructor.
    + eapply repr_extends; [|reflexivity|exact Hr]. rewrite app_assoc. apply extends_app.
    + eapply Forall2_impl; [exact Hrs|]. intros w x. apply repr_extends; [by intros ? ?|rewrite length_app; lia].
Qed.

Lemma push_scalar v : scalar v -> stores (push v) v.
Proof.
  intros Hs objs. exists [v], (length objs). split; [done|]. apply repr_scalar; [done|done|].
  by apply list_lookup_middle.
Qed.

Definition uid_pair (p : nat * nat) : Value * Value := (uid p.1, uid p.2).

Lemma pairs_stored value_into (pairs : list (bytes * Value)) :
  Forall (fun kv => stores (value_into kv.2) kv.2) pairs ->
  forall objs, exists new us, map_into (pair_into value_into) pairs objs = (objs ++ new, map uid_pair us) /\
    Forall2 (fun k kv => (length objs <= k)%nat /\ (objs ++ new) !! k = Some (String kv.1)) us.*1 pairs /\
    Forall2 (fun u kv => repr (objs ++ new) (length objs) u kv.2) us.*2 pairs.
Proof.
  induction 1 as [|[k v] pairs Hkv Hp IH]; intros objs; cbn [map_into].
  - exists [], []. rewrite app_nil_r. repeat split; constructor.
  - unfold pair_into at 1, push. cbn [fst snd] in *. destruct (Hkv (objs ++ [String k])) as (new & u & -> & Hr).
    destruct (IH ((objs ++ [String k]) ++ new)) as (new' & us & -> & Hks & Hvs).
    exists ([String k] ++ new ++ new'), ((length objs, u) :: us). rewrite <- !app_assoc in *. cbn [map fst snd]. split; [done|].
    rewrite !length_app in *. cbn [length] in *. rewrite !fmap_cons. split; constructor.
    + split; [done|]. by apply list_lookup_middle.
    + eapply Forall2_impl; [exact Hks|]. intros w kv [? ?]. split; [lia|done].
    + refine (repr_extends _ _ _ _ _ _ _ _ Hr); [|lia]. rewrite (app_assoc [String k]), (app_assoc objs ([String k] ++ new)). apply extends_app.
    + eapply Forall2_impl; [exact Hvs|]. intros w kv. apply repr_extends; [by intros ? ?|lia].
Qed.

Lemma patched_extends objs x y new z : extends (length objs + 1) (objs ++ [x] ++ new) (objs ++ [y] ++ new ++ [z]).
Proof.
  intros i v Hi. rewrite !(lookup_app_r objs) by lia. destruct (i - length objs)%nat as [|j] eqn:E; [lia|]. cbn. intros H.
  by apply lookup_app_l_Some.
Qed.

Lemma pairs_into_stores value_into pairs :
  Forall (fun kv => stores (value_into kv.2) kv.2) pairs -> stores (archive_pairs_into value_into pairs) (Dictionary pairs).
Proof.
  intros Hp objs. destruct (pairs_stored value_into pairs Hp (objs ++ [Boolean false])) as (new & us & E & Hks & Hvs).
  rewrite length_app in *. cbn [length] in *. rewrite <- app_assoc in *.
  set (c := length (objs ++ [Boolean false] ++ new)). set (d := dict_object c us.*1 us.*2).
  exists ([d] ++ new ++ [dict_class]), (length objs). split.
  - unfold archive_pairs_into. rewrite E. cbv zeta. f_equal.
    assert ((map uid_pair us).*1 = map uid us.*1) as -> by (clear; induction us as [|u us IH]; cbn; [done|by f_equal]).
    assert ((map uid_pair us).*2 = map uid us.*2) as -> by (clear; induction us as [|u us IH]; cbn; [done|by f_equal]).
    rewrite <- (Nat.add_0_r (length objs)) at 1. rewrite <- app_assoc, insert_app_r. done.
  - pose proof (patched_extends objs (Boolean false) d new dict_class) as He.
    apply (repr_dict _ _ _ c us.*1 us.*2).
    + lia.
    + unfold c. rewrite length_app. lia.
    + by apply list_lookup_middle.
    + rewrite !app_assoc. apply list_lookup_middle. unfold c. rewrite !length_app. cbn [length]. lia.
    + eapply Forall2_impl; [exact Hks|]. cbv beta. intros k kv [? ?]. split; [lia|by apply He].
    + eapply Forall2_impl; [exact Hvs|]. cbv beta. intros u kv. apply repr_extends; [exact He|lia].
Qed.

Lemma value_into_stores v : plain v -> stores (archive_value_into v) v.
Proof.
  induction v as [l IH|m IH| | | | | | |] using value_ind'; intros Hv; try (by destruct Hv); try (by apply push_scalar).
  - apply plain_array in Hv. assert (Forall (fun v => stores (archive_value_into v) v) l) as Hl.
    { apply Forall_forall. intros v Hin. rewrite Forall_forall in IH, Hv. auto. }
    intros objs. destruct (map_into_stores archive_value_into (fun v => v) l Hl objs) as (new & us & E & Hus).
    cbn [archive_value_into]. rewrite E. set (c := length (objs ++ new)).
    exists (new ++ [array_object (c + 1) us; array_class]), c. rewrite <- app_assoc. split; [done|].
    rewrite map_id in Hus. rewrite app_assoc. apply (repr_array _ _ _ (c + 1) us).
    + unfold c. rewrite length_app. lia.
    + unfold c. rewrite length_app. lia.
    + by apply list_lookup_middle.
    + rewrite lookup_app_r by (unfold c; lia). by replace (c + 1 - length (objs ++ new))%nat with 1%nat by (unfold c; lia).
    + eapply Forall2_impl; [exact Hus|]. intros u v. apply repr_extends; [apply extends_app|done].
  - apply plain_dictionary in Hv. apply pairs_into_stores. apply Forall_forall. intros kv Hin.
    rewrite Forall_forall in IH, Hv. apply IH; [done|]. by apply Hv.
Qed.
Lemma dict_into_stores pairs : plain (Dictionary pairs) -> stores (archive_dict_into pairs) (Dictionary pairs).
Proof. exact (value_into_stores (Dictionary pairs)). Qed.

(** ** What the decoder reads back *)

Lemma uid_uid n : uid_from_plist (uid n) = Some n.
Proof. cbn. by rewrite Nat2Z.id. Qed.
Lemma uids_uid us : omap uid_from_plist (map uid us) = us.
Proof. induction us as [|u us IH]; [done|]. cbn [map omap list_omap]. by rewrite uid_uid, IH. Qed.
Lemma get_first k v m : get k ((k, v) :: m) = Some v.
Proof. unfold get. cbn. by rewrite decide_True. Qed.
Lemma get_next k k' v m : bool_decide (k = k') = false -> get k ((k', v) :: m) = get k m.
Proof. intros H%bool_decide_eq_false. unfold get. cbn. by rewrite decide_False. Qed.
Ltac get_field := repeat (rewrite get_first || rewrite get_next by reflexivity).

(** Decides a question about two class names. *)
Lemma decide_yes {P : Prop} `{!Decision P} {A} (a b : A) : bool_decide P = true -> (if decide P then a else b) = a.
Proof. intros H%bool_decide_eq_true. by rewrite decide_True. Qed.
Lemma decide_no {P : Prop} `{!Decision P} {A} (a b : A) : bool_decide P = false -> (if decide P then a else b) = b.
Proof. intros H%bool_decide_eq_false. by rewrite decide_False. Qed.
Ltac decide_class := repeat first [rewrite decide_no by (vm_compute; reflexivity) | rewrite decide_yes by (vm_compute; reflexivity)].

Lemma class_name_of objs c name classes m :
  objs !! c = Some (class_descriptor name classes) -> class_name objs ((str "$class", uid c) :: m) = name.
Proof. intros Hc. unfold class_name. rewrite get_first. cbn [and_then]. rewrite uid_uid. cbn [and_then]. by rewrite Hc. Qed.

Section decoded.
Context {HO : HashOrder} (f64 : Z -> bytes).

Lemma fold_objects (object : nat -> outcome ArchiveError ArchiveValue) us vs acc :
  Forall2 (fun u v => object u = Ok v) us vs ->
  foldM (fun uid result => v ← object uid; Ok (result ++ [v])) us acc = Ok (acc ++ vs).
Proof.
  intros H. revert acc. induction H as [|u v us vs Hu Hus IH]; intros acc; [by rewrite app_nil_r|].
  cbn. rewrite Hu. cbn. unfold foldM in IH. by rewrite IH, <- app_assoc.
Qed.
Lemma fold_pairs (object : nat -> outcome ArchiveError ArchiveValue) ks vs (m : list (bytes * ArchiveValue)) acc :
  Forall2 (fun k kv => object k = Ok (AvString kv.1)) ks m -> Forall2 (fun u kv => object u = Ok kv.2) vs m ->
  NoDup (acc ++ m).*1 ->
  foldM (fun '(k, v) map =>
    match key_text f64 (object k) with
    | None => Ok map
    | Some key => v ← object v; Ok (imap_insert key v map)
    end) (zip ks vs) acc = Ok (acc ++ m).
Proof.
  intros Hk. revert vs acc. induction Hk as [|k [key v] ks m Hk Hks IH]; intros vs acc Hv Hnd; inversion Hv as [|u ? vs' ? Hu Hvs]; subst;
    [by rewrite app_nil_r|]. cbn in *. rewrite Hk. cbn. rewrite Hu. cbn.
  rewrite fmap_app, fmap_cons in Hnd. cbn in Hnd. unfold foldM in IH. rewrite imap_insert_fresh.
  - rewrite IH; [by rewrite <- app_assoc|done|]. by rewrite !fmap_app, <- app_assoc.
  - apply NoDup_app in Hnd as (_ & Hd & _). intros Hin. apply (Hd _ Hin). by left.
Qed.

Lemma decode_array objs object field c us vs :
  objs !! c = Some array_class -> Forall2 (fun u v => object u = Ok v) us vs ->
  decode_value f64 objs object field (array_object c us) = Ok (AvArray vs).
Proof.
  intros Hc Hus. unfold array_object, decode_value, decode_keyed. rewrite (class_name_of _ _ _ _ _ Hc). cbv zeta. decide_class.
  unfold uids. get_field. cbn [and_then as_array]. by rewrite uids_uid, (fold_objects _ _ _ _ Hus).
Qed.
Lemma decode_dict objs object field c ks vs m :
  objs !! c = Some dict_class -> Forall2 (fun k kv => object k = Ok (AvString kv.1)) ks m ->
  Forall2 (fun u kv => object u = Ok kv.2) vs m -> NoDup m.*1 ->
  decode_value f64 objs object field (dict_object c ks vs) = Ok (hash_map m).
Proof.
  intros Hc Hks Hvs Hnd. unfold dict_object, decode_value, decode_keyed. rewrite (class_name_of _ _ _ _ _ Hc). cbv zeta. decide_class.
  unfold uids, decode_pairs. get_field. cbn [and_then as_array]. by rewrite !uids_uid, (fold_pairs _ _ _ m []).
Qed.

Lemma decode_object_at objs n u v :
  objs !! u = Some v -> decode_object f64 objs (S n) u = decode_value f64 objs (decode_object f64 objs n) (decode_field_value f64 objs n) v.
Proof.
  intros Hu. cbn [decode_object]. pose proof (lookup_lt_Some _ _ _ Hu). rewrite (proj2 (Nat.leb_gt _ _)) by lia.
  unfold index. by rewrite Hu.
Qed.

Lemma foldr_max {A} (f : A -> nat) b l a : a ∈ l -> (f a <= foldr (fun a => Nat.max (f a)) b l)%nat.
Proof. induction 1; cbn; lia. Qed.
Lemma foldr_max_base {A} (f : A -> nat) b l : (b <= foldr (fun a => Nat.max (f a)) b l)%nat.
Proof. induction l; cbn; lia. Qed.

Lemma decode_repr objs lo v :
  plain v -> wf v -> forall u n, repr objs lo u v -> (height v <= n)%nat -> decode_object f64 objs n u = Ok (in_memory v).
Proof.
  induction v as [l IH|m IH| | | | | | |] using value_ind'; intros Hp Hwf u [|k] Hr Hn; try (cbn in Hn; lia);
    inversion Hr as [? ? ? Hs Eu|? c us ? Hu Hc Eu Ec Hall|? c ks vs ? Hu Hc Eu Ec Hks Hvs]; subst; try (by destruct Hs);
    rewrite (decode_object_at _ _ _ _ Eu); try done.
  - apply plain_array in Hp. apply plist_wf_array in Hwf. cbn [height] in Hn. apply decode_array; [done|].
    assert (forall v, v ∈ l -> forall u, repr objs lo u v -> decode_object f64 objs k u = Ok (in_memory v)) as Hl.
    { intros v Hin w Hw. rewrite Forall_forall in IH, Hp, Hwf. apply IH; auto.
      pose proof (foldr_max height 0%nat l v Hin). lia. }
    clear -Hall Hl. revert l Hall Hl. induction us as [|w us IHus]; intros l Hall Hl; inversion Hall; subst; constructor.
    + apply Hl; [by left|done].
    + apply IHus; [done|]. intros v Hin. apply Hl. by right.
  - apply plain_dictionary in Hp. apply plist_wf_dictionary in Hwf as [Hnd Hwf]. cbn [height] in Hn. apply (decode_dict _ _ _ c ks vs); [done| | |].
    + rewrite Forall2_fmap_r. pose proof (foldr_max_base (fun kv : bytes * Value => height kv.2) 1%nat m). destruct k as [|k]; [lia|].
      clear -Hks Hp. revert m Hks Hp. induction ks as [|w ks IHks]; intros m Hks Hp; inversion Hks as [|? [key v] ? m' [_ Hk]]; subst; constructor;
        apply Forall_cons in Hp as [[Hne _] Hp]; [|by apply IHks].
      rewrite (decode_object_at _ _ _ _ Hk). cbn. by rewrite decide_False.
    + rewrite Forall2_fmap_r.
      assert (forall kv, kv ∈ m -> forall u, repr objs lo u kv.2 -> decode_object f64 objs k u = Ok (in_memory kv.2)) as Hm.
      { intros kv Hin w Hw. rewrite Forall_forall in IH, Hp, Hwf. destruct (Hp _ Hin), (Hwf _ Hin). apply IH; auto.
        pose proof (foldr_max (fun kv : bytes * Value => height kv.2) 1%nat m kv Hin). cbv beta in *. lia. }
      clear -Hvs Hm. revert m Hvs Hm. induction vs as [|w vs IHvs]; intros m Hvs Hm; inversion Hvs; subst; constructor.
      * apply Hm; [by left|done].
      * apply IHvs; [done|]. intros kv Hin. apply Hm. by right.
    + by rewrite <- list_fmap_compose.
  - cbn in *. by rewrite decide_False.
Qed.
End decoded.

(** ** Well-formed pools *)

Definition is_class (o : option Value) : Prop := exists name classes, o = Some (class_descriptor name classes).
(** Every reference in a value is below [n]. *)
Fixpoint refs_lt (n : Z) (v : Value) : Prop :=
  match v with
  | Array l => foldr (fun v => and (refs_lt n v)) True l
  | Dictionary m => foldr (fun kv => and (refs_lt n kv.2)) True m
  | Uid u => 0 <= u < n
  | _ => True
  end.
(** The class of an object is a class descriptor of its pool. *)
Definition typed (pool : list Value) (v : Value) : Prop :=
  match v with
  | Dictionary m =>
      match get (str "$class") m with
      | None => True
      | Some (Uid c) => is_class (pool !! Z.to_nat c)
      | Some _ => False
      end
  | _ => True
  end.
Definition ok (pool : list Value) (v : Value) : Prop := wf v /\ refs_lt (len pool) v /\ typed pool v.
Definition pool_ok (pool : list Value) : Prop := Forall (ok pool) pool.
(** What may be put into an object: references, or values that refer to nothing but
    the null marker. *)
Definition ref_ok (n : Z) (v : Value) : Prop := wf v /\ refs_lt n v.

Lemma refs_lt_mono n n' v : n <= n' -> refs_lt n v -> refs_lt n' v.
Proof.
  intros Hn. induction v as [l IH|m IH| | | | | | |] using value_ind'; try done; cbn [refs_lt].
  - rewrite !foldr_and. intros H. rewrite Forall_forall in *. eauto.
  - rewrite !foldr_and. intros H. rewrite Forall_forall in *. eauto.
  - lia.
Qed.
Lemma ref_ok_mono n n' v : n <= n' -> ref_ok n v -> ref_ok n' v.
Proof. intros Hn [? ?]. split; [done|by eapply refs_lt_mono]. Qed.

Definition grows (pool pool' : list Value) : Prop := len pool <= len pool' /\ forall c, is_class (pool !! c) -> is_class (pool' !! c).
Lemma ok_grows pool pool' v : grows pool pool' -> ok pool v -> ok pool' v.
Proof.
  intros [Hl Hc] (Hw & Hr & Ht). split; [done|]. split; [by eapply refs_lt_mono|].
  destruct v as [| m | | | | | | |]; try done. cbn in *. destruct (get _ m) as [[]|]; auto.
Qed.
Lemma grows_app pool new : grows pool (pool ++ new).
Proof. split; [rewrite len_app; pose proof (len_nonneg new); lia|]. intros c (n & cs & H). exists n, cs. by apply lookup_app_l_Some. Qed.
Lemma grows_patch pool i d : pool !! i = Some (Boolean false) -> grows pool (<[i := d]> pool).
Proof.
  intros Hi. split; [unfold len; rewrite length_insert; lia|]. intros c (n & cs & H). exists n, cs.
  rewrite list_lookup_insert_ne; [done|]. intros ->. unfold class_descriptor in H; congruence.
Qed.

(** [objs'] is [objs] with entries added that are well-formed in it, and then [P]; a
    pool never reaches [2^64] entries. *)
Definition added (objs objs' : list Value) (P : Prop) : Prop :=
  exists new, objs' = objs ++ new /\ (len objs' < 2 ^ 64 -> Forall (ok objs') new /\ P).

Lemma added_len objs objs' P : added objs objs' P -> len objs <= len objs'.
Proof. intros (new & -> & _). rewrite len_app. pose proof (len_nonneg new). lia. Qed.
Lemma added_nil objs (P : Prop) : P -> added objs objs P.
Proof. intros H. exists []. by rewrite app_nil_r. Qed.
Lemma added_app objs objs' l (P Q : Prop) :
  added objs objs' P -> (len (objs' ++ l) < 2 ^ 64 -> P -> Forall (ok (objs' ++ l)) l /\ Q) -> added objs (objs' ++ l) Q.
Proof.
  intros (new & -> & H) Hl. exists (new ++ l). split; [by rewrite app_assoc|]. intros Hlen.
  destruct H as [Hnew HP]; [rewrite len_app in Hlen; pose proof (len_nonneg l); lia|]. destruct (Hl Hlen HP) as [? ?]. split; [|done].
  apply Forall_app. split; [|done]. eapply Forall_impl; [exact Hnew|]. intros v. apply ok_grows, grows_app.
Qed.
Lemma added_trans objs objs1 objs2 (P Q R : Prop) :
  added objs objs1 P -> added objs1 objs2 Q -> (len objs2 < 2 ^ 64 -> P -> Q -> R) -> added objs objs2 R.
Proof.
  intros HP (new & -> & H) HR. apply (added_app _ _ _ P); [done|]. intros Hlen p. destruct (H Hlen). auto.
Qed.
Lemma added_patch objs objs' i d (P Q : Prop) :
  added objs objs' P -> (length objs <= i)%nat -> objs' !! i = Some (Boolean false) ->
  (len (<[i := d]> objs') < 2 ^ 64 -> P -> ok (<[i := d]> objs') d /\ Q) -> added objs (<[i := d]> objs') Q.
Proof.
  intros (new & -> & H) Hi Hd HQ. exists (<[(i - length objs)%nat := d]> new).
  assert (<[i := d]> (objs ++ new) = objs ++ <[(i - length objs)%nat := d]> new) as E.
  { replace i with (length objs + (i - length objs))%nat at 1 by lia. apply insert_app_r. }
  split; [done|]. intros Hlen. destruct H as [Hnew HP].
  { unfold len in *. by rewrite length_insert in Hlen. }
  destruct (HQ Hlen HP) as [Hok ?]. split; [|done]. apply Forall_insert; [|done].
  eapply Forall_impl; [exact Hnew|]. intros v. by apply ok_grows, grows_patch.
Qed.

Lemma uid_ok n (objs : list Value) : (n < length objs)%nat -> len objs < 2 ^ 64 -> ref_ok (len objs) (uid n).
Proof. intros Hn Hl. unfold len in *. split; cbn; [unfold in_u|]; lia. Qed.
Lemma class_ok pool name classes : Forall (fun s => from_utf8 s = true) (name :: classes) -> ok pool (class_descriptor name classes).
Proof.
  intros [Hn Hcs]%Forall_cons. split; [|split].
  - apply plist_wf_dictionary. split; [by apply (bool_decide_unpack _)|]. constructor; [done|]. constructor; [|constructor].
    split; [done|]. apply plist_wf_array. apply Forall_fmap. eapply Forall_impl; [exact Hcs|done].
  - cbn. split; [done|]. split; [|done]. apply foldr_and. apply Forall_fmap. eapply Forall_impl; [exact Hcs|done].
  - done.
Qed.
(** An object of class [c] with further fields. *)
Lemma object_ok pool c fields :
  is_class (pool !! c) -> ref_ok (len pool) (uid c) -> NoDup (str "$class" :: fields.*1) ->
  Forall (fun kv => from_utf8 kv.1 = true /\ ref_ok (len pool) kv.2) fields -> ok pool (Dictionary ((str "$class", uid c) :: fields)).
Proof.
  intros Hc [Hwc Hrc] Hnd Hf. split; [|split].
  - apply plist_wf_dictionary. split; [done|]. constructor; [done|]. eapply Forall_impl; [exact Hf|]. by intros kv (? & ? & ?).
  - apply foldr_and. constructor; [done|]. eapply Forall_impl; [exact Hf|]. by intros kv (? & ? & ?).
  - unfold typed. rewrite get_first. cbn. by rewrite Nat2Z.id.
Qed.
Lemma refs_array n vs : Forall (ref_ok n) vs -> ref_ok n (Array vs).
Proof.
  intros H. split; [apply plist_wf_array|apply foldr_and]; (eapply Forall_impl; [exact H|by intros v []]).
Qed.

(** *** The encoders keep pools well-formed *)

Definition adds {B} (R : Z -> B -> Prop) (f : list Value -> list Value * B) : Prop :=
  forall objs, objs <> [] -> added objs (f objs).1 (R (len (f objs).1) (f objs).2).
Definition monotone {B} (R : Z -> B -> Prop) : Prop := forall n n' b, n <= n' -> R n b -> R n' b.
Definition pair_ok (n : Z) (p : Value * Value) : Prop := ref_ok n p.1 /\ ref_ok n p.2.
Lemma ref_ok_monotone : monotone ref_ok.
Proof. intros n n' v. apply ref_ok_mono. Qed.
Lemma pair_ok_monotone : monotone pair_ok.
Proof. intros n n' p Hn [? ?]. split; by eapply ref_ok_mono. Qed.

Lemma added_nonempty objs objs' P : objs <> [] -> added objs objs' P -> objs' <> [].
Proof. intros Hne (new & -> & _) E. by apply app_eq_nil in E as [? _]. Qed.
(** The pool after [f], and what it returned. *)
Lemma adds_run {B} R (f : list Value -> list Value * B) objs :
  adds R f -> objs <> [] -> exists objs' b, f objs = (objs', b) /\ objs' <> [] /\ added objs objs' (R (len objs') b).
Proof.
  intros Hf Hne. specialize (Hf objs Hne). destruct (f objs) as [objs' b] eqn:E. exists objs', b. split; [done|].
  split; [by eapply added_nonempty|done].
Qed.

Lemma map_into_adds {A B} R (f : A -> list Value -> list Value * B) l :
  monotone R -> Forall (fun a => adds R (f a)) l -> adds (fun n => Forall (R n)) (map_into f l).
Proof.
  intros Hm. induction 1 as [|a l Ha Hl IH]; intros objs Hne; cbn [map_into]; [by apply added_nil|].
  destruct (adds_run _ _ _ Ha Hne) as (objs1 & b & -> & Hne1 & H1).
  destruct (adds_run _ _ _ IH Hne1) as (objs2 & bs & -> & Hne2 & H2).
  eapply added_trans; [exact H1|exact H2|]. cbn. intros _ Hb Hbs. constructor; [|done]. eapply Hm; [|exact Hb]. by eapply added_len.
Qed.

Lemma lookup_last objs (v : Value) : (objs ++ [v]) !! length objs = Some v.
Proof. by apply list_lookup_middle. Qed.
Lemma push_adds v : wf v -> refs_lt 1 v -> as_dictionary v = None -> adds ref_ok (push v).
Proof.
  intros Hw Hr Hd objs Hne. cbn. apply (added_app _ _ _ True); [by apply added_nil|]. intros Hlen _. split.
  - constructor; [|constructor]. split; [done|]. split; [|by destruct v].
    eapply refs_lt_mono; [|exact Hr]. rewrite len_app. pose proof (len_nonneg objs). change (len [v]) with 1. lia.
  - apply uid_ok; [rewrite length_app; cbn; lia|done].
Qed.

Lemma pair_into_adds value_into kv :
  from_utf8 kv.1 = true -> adds ref_ok (value_into kv.2) -> adds pair_ok (pair_into value_into kv).
Proof.
  intros Hk Hv objs Hne. destruct kv as [k v]. cbn [pair_into fst snd] in *.
  destruct (adds_run _ _ _ (push_adds (String k) Hk I eq_refl) Hne) as (objs1 & ku & -> & Hne1 & H1).
  destruct (adds_run _ _ _ Hv Hne1) as (objs2 & vu & -> & Hne2 & H2).
  eapply added_trans; [exact H1|exact H2|]. cbn. intros _ Hku Hvu. split; [|done]. eapply ref_ok_mono; [|exact Hku]. by eapply added_len.
Qed.

Lemma class_at objs name classes rest : is_class ((objs ++ class_descriptor name classes :: rest) !! length objs).
Proof. exists name, classes. by apply list_lookup_middle. Qed.
Ltac utf8_class := apply class_ok; repeat (constructor; [reflexivity|]); constructor.
(** A length from the lengths of its parts. *)
Ltac len_lia := unfold len in *; rewrite ?length_insert, ?length_app in *; cbn [length] in *; lia.
Ltac fields_ok := repeat (apply Forall_cons; split; [split; [reflexivity|]|]); [..|apply Forall_nil_2].

Lemma pairs_into_adds value_into pairs :
  Forall (fun kv => from_utf8 kv.1 = true /\ adds ref_ok (value_into kv.2)) pairs -> adds ref_ok (archive_pairs_into value_into pairs).
Proof.
  intros Hp objs Hne. unfold archive_pairs_into.
  assert (added objs (objs ++ [Boolean false]) True) as H0.
  { apply (added_app _ _ _ True); [by apply added_nil|]. intros _ _. split; [|done]. by repeat constructor. }
  assert (adds (fun n => Forall (pair_ok n)) (map_into (pair_into value_into) pairs)) as Hm.
  { apply map_into_adds; [apply pair_ok_monotone|]. eapply Forall_impl; [exact Hp|]. intros kv [? ?]. by apply pair_into_adds. }
  destruct (adds_run _ _ _ Hm (added_nonempty _ _ _ Hne H0)) as (objs1 & us & E & Hne1 & H1). rewrite E. cbn [fst snd].
  destruct H1 as (new & -> & H1). set (objs1 := (objs ++ [Boolean false]) ++ new) in *.
  assert (added objs objs1 (Forall (pair_ok (len objs1)) us)) as H01.
  { eapply added_trans; [exact H0|exists new; split; [done|exact H1]|done]. }
  eapply (added_patch _ _ _ _ (Forall (pair_ok (len objs1)) us)); [|done| |].
  - eapply added_app; [exact H01|]. intros _ Hus. split; [|exact Hus]. constructor; [utf8_class|constructor].
  - unfold objs1. rewrite <- !app_assoc. by apply list_lookup_middle.
  - set (d := Dictionary _). set (pool := <[length objs := d]> _). intros Hlen Hus.
    assert (len objs1 <= len pool) as Hle by (unfold pool; len_lia).
    split; [|apply uid_ok; [unfold pool, objs1; len_lia|done]].
    apply object_ok.
    + unfold pool. rewrite list_lookup_insert_ne by (unfold objs1; len_lia). apply class_at.
    + apply uid_ok; [unfold pool; len_lia|done].
    + by apply (bool_decide_unpack _).
    + fields_ok; apply refs_array, Forall_fmap; (eapply Forall_impl; [exact Hus|]); intros p [? ?]; by eapply ref_ok_mono.
Qed.

Lemma value_into_adds v : wf v -> refs_lt 1 v -> adds ref_ok (archive_value_into v).
Proof.
  induction v as [l IH|m IH| | | | | | |] using value_ind'; intros Hw Hr; try (by apply push_adds).
  - apply plist_wf_array in Hw. apply foldr_and in Hr. intros objs Hne. cbn [archive_value_into].
    assert (adds (fun n => Forall (ref_ok n)) (map_into archive_value_into l)) as Hm.
    { apply map_into_adds; [apply ref_ok_monotone|]. rewrite Forall_forall in IH, Hw, Hr. apply Forall_forall. intros v Hin. by apply IH; [|apply Hw|apply Hr]. }
    destruct (adds_run _ _ _ Hm Hne) as (objs1 & us & -> & Hne1 & H1). cbn [fst snd].
    eapply added_app; [exact H1|]. intros Hlen Hus. split; [|apply uid_ok; [len_lia|done]].
    constructor; [|constructor; [utf8_class|constructor]]. apply object_ok.
    + rewrite lookup_app_r by lia. replace (length objs1 + 1 - length objs1)%nat with 1%nat by lia. eexists _, _. done.
    + apply uid_ok; [len_lia|done].
    + by apply (bool_decide_unpack _).
    + fields_ok. apply refs_array. eapply Forall_impl; [exact Hus|]. intros u. apply ref_ok_mono. len_lia.
  - apply plist_wf_dictionary in Hw as [_ Hw]. apply foldr_and in Hr. apply pairs_into_adds. rewrite Forall_forall in *.
    intros kv Hin. destruct (Hw _ Hin). split; [done|]. apply IH; [done|done|]. by apply Hr.
Qed.
Lemma dict_into_adds pairs : wf (Dictionary pairs) -> refs_lt 1 (Dictionary pairs) -> adds ref_ok (archive_dict_into pairs).
Proof. exact (value_into_adds (Dictionary pairs)). Qed.

(** An object and, right behind it, its class. *)
Lemma object_then_class objs objs1 (P : Prop) name classes fields rest :
  added objs objs1 P ->
  Forall (fun s => from_utf8 s = true) (name :: classes) ->
  let cls := class_descriptor name classes in
  let d := Dictionary ((str "$class", uid (length objs1 + 1)) :: fields) in
  let pool := objs1 ++ d :: cls :: rest in
  NoDup (str "$class" :: fields.*1) ->
  (len pool < 2 ^ 64 -> P -> Forall (fun kv => from_utf8 kv.1 = true /\ ref_ok (len pool) kv.2) fields /\ Forall (ok pool) rest) ->
  added objs pool (ref_ok (len pool) (uid (length objs1))).
Proof.
  intros H1 Hcls cls d pool Hnd Hf. eapply added_app; [exact H1|]. fold pool. intros Hlen HP. destruct (Hf Hlen HP) as [Hfields Hrest].
  split; [|apply uid_ok; [unfold pool; len_lia|done]]. constructor; [|constructor; [by apply class_ok|done]]. apply object_ok; [| |done|done].
  - unfold pool. rewrite lookup_app_r by lia. replace (length objs1 + 1 - length objs1)%nat with 1%nat by lia. by eexists _, _.
  - apply uid_ok; [unfold pool; len_lia|done].
Qed.
Ltac utf8_names := repeat (apply Forall_cons; split; [reflexivity|]); apply Forall_nil_2.
Ltac keys_once := by apply (bool_decide_unpack _).

Lemma nsuuid_adds uuid : adds ref_ok (archive_nsuuid_into uuid).
Proof.
  intros objs Hne. apply (object_then_class _ _ True); [by apply added_nil|utf8_names|keys_once|]. intros _ _. split; [|constructor].
  fields_ok. done.
Qed.
Lemma nsurl_adds url : from_utf8 (path url) = true -> adds ref_ok (archive_nsurl_into url).
Proof.
  intros Hu objs Hne. apply (object_then_class _ _ True); [by apply added_nil|utf8_names|keys_once|]. intros Hlen _. split.
  - fields_ok; apply uid_ok; try done; len_lia.
  - constructor; [|constructor]. split; [|done]. exact Hu.
Qed.
Lemma capabilities_adds c : ref_ok 1 (Dictionary (capabilities c)) -> adds ref_ok (archive_xct_capabilities_into c).
Proof.
  intros [Hw Hr] objs Hne. unfold archive_xct_capabilities_into.
  destruct (adds_run _ _ _ (dict_into_adds _ Hw Hr) Hne) as (objs1 & u & -> & Hne1 & H1). cbn [fst snd].
  eapply object_then_class; [exact H1|utf8_names|keys_once|]. intros Hlen Hu. split; [|constructor]. fields_ok.
  eapply ref_ok_mono; [|exact Hu]. len_lia.
Qed.

Lemma nsset_adds values : Forall (fun s => from_utf8 s = true) values -> adds ref_ok (archive_nsset_into values).
Proof.
  intros Hv objs Hne. unfold archive_nsset_into. set (cls := class_descriptor _ _). set (objs0 := objs ++ [Boolean false; cls]).
  assert (added objs objs0 True) as H0.
  { apply (added_app _ _ _ True); [by apply added_nil|]. intros _ _. split; [|done]. constructor; [by repeat constructor|].
    constructor; [utf8_class|constructor]. }
  assert (adds (fun n => Forall (ref_ok n)) (map_into (fun value => archive_value_into (String value)) values)) as Hm.
  { apply map_into_adds; [apply ref_ok_monotone|]. eapply Forall_impl; [exact Hv|]. intros s Hs. by apply push_adds. }
  destruct (adds_run _ _ _ Hm (added_nonempty _ _ _ Hne H0)) as (objs1 & us & -> & Hne1 & H1). cbn [fst snd].
  assert (exists new, objs1 = objs ++ Boolean false :: cls :: new) as [new E1].
  { destruct H1 as (new & -> & _). exists new. unfold objs0. by rewrite <- app_assoc. }
  assert (added objs objs1 (Forall (ref_ok (len objs1)) us)) as H by (eapply added_trans; [exact H0|exact H1|done]). clear H0 H1.
  eapply added_patch; [exact H|done| |].
  - rewrite E1. by apply list_lookup_middle.
  - set (d := Dictionary _). set (pool := <[length objs := d]> _). intros Hlen Hus.
    assert (len pool = len objs1) as El by (unfold pool; len_lia).
    split; [|apply uid_ok; [unfold pool; rewrite E1; len_lia|done]]. apply object_ok.
    + unfold pool. rewrite list_lookup_insert_ne by lia. rewrite E1, lookup_app_r by lia.
      replace (length objs + 1 - length objs)%nat with 1%nat by lia. by eexists _, _.
    + apply uid_ok; [unfold pool; rewrite E1; len_lia|done].
    + keys_once.
    + fields_ok. apply refs_array. by rewrite El.
Qed.

Lemma split_once_utf8 c s a b : Zb c < 0x80 -> split_once c s = Some (a, b) -> from_utf8 s = true -> from_utf8 a = true /\ from_utf8 b = true.
Proof.
  intros Hc Hs. assert (s = a ++ c :: b) as ->; [|by apply utf8_cut].
  revert a Hs. induction s as [|x s IH]; intros a Hs; [done|]. cbn in Hs. case_decide as Hx; [by simplify_eq|].
  destruct (split_once c s) as [[l1 l2]|]; [|done]. injection Hs as <- <-. cbn. f_equal. by apply IH.
Qed.

Lemma identifier_adds selector : from_utf8 selector = true -> adds ref_ok (archive_xct_test_identifier_into selector).
Proof.
  intros Hs objs Hne. unfold archive_xct_test_identifier_into. set (cls := class_descriptor _ _).
  assert (added objs (objs ++ [cls]) True) as H0.
  { apply (added_app _ _ _ True); [by apply added_nil|]. intros _ _. split; [|done]. constructor; [utf8_class|constructor]. }
  set (parts := match split_once slash selector with Some (c, m) => (c, Some m) | None => (selector, None) end).
  assert (from_utf8 parts.1 = true /\ (forall m, parts.2 = Some m -> from_utf8 m = true)) as [Hc Hm].
  { unfold parts. destruct (split_once slash selector) as [[c m]|] eqn:E; [|done].
    destruct (split_once_utf8 slash _ _ _ eq_refl E Hs). split; [done|]. by intros ? [= <-]. }
  destruct parts as [class method]. cbn [fst snd] in Hc, Hm. set (class' := match split_once dot class with Some (_, c) => c | None => class end).
  assert (from_utf8 class' = true) as Hc'.
  { unfold class'. destruct (split_once dot class) as [[p c]|] eqn:E; [|done].
    by destruct (split_once_utf8 dot _ _ _ eq_refl E Hc). }
  set (components := match method with Some m => [String class'; String m] | None => [String class'] end).
  assert (wf (Array components) /\ refs_lt 1 (Array components)) as [Hw Hr].
  { unfold components. destruct method as [m|]; cbn; [|done]. specialize (Hm m eq_refl). done. }
  destruct (adds_run _ _ _ (value_into_adds _ Hw Hr) (added_nonempty _ _ _ Hne H0)) as (objs1 & u & E & Hne1 & H1).
  cbv zeta. rewrite E. cbn [fst snd].
  assert (is_class (objs1 !! length objs)) as Hcls.
  { destruct H1 as (new & -> & _). rewrite <- app_assoc. apply class_at. }
  pose proof (added_trans _ _ _ _ _ (ref_ok (len objs1) u) H0 H1 (fun _ _ H => H)) as H.
  eapply added_app; [exact H|]. intros Hlen Hu. split; [|apply uid_ok; [len_lia|done]].
  constructor; [|constructor]. apply object_ok.
  - destruct Hcls as (n & cs & Hcls). exists n, cs. by apply lookup_app_l_Some.
  - apply uid_ok; [|done]. destruct Hcls as (n & cs & Hcls). pose proof (lookup_lt_Some _ _ _ Hcls). len_lia.
  - keys_once.
  - fields_ok; [|by destruct method]. eapply ref_ok_mono; [|exact Hu]. len_lia.
Qed.

Lemma identifier_set_adds values : Forall (fun s => from_utf8 s = true) values -> adds ref_ok (archive_xct_test_identifier_set_into values).
Proof.
  intros Hv objs Hne. unfold archive_xct_test_identifier_set_into. set (cls := class_descriptor (str "NSMutableArray") _).
  set (objs0 := objs ++ [Boolean false; Boolean false; cls]).
  assert (added objs objs0 True) as H0.
  { apply (added_app _ _ _ True); [by apply added_nil|]. intros _ _. split; [|done]. do 2 (constructor; [by repeat constructor|]).
    constructor; [utf8_class|constructor]. }
  assert (adds (fun n => Forall (ref_ok n)) (map_into archive_xct_test_identifier_into values)) as Hm.
  { apply map_into_adds; [apply ref_ok_monotone|]. eapply Forall_impl; [exact Hv|]. apply identifier_adds. }
  destruct (adds_run _ _ _ Hm (added_nonempty _ _ _ Hne H0)) as (objs1 & us & E & Hne1 & H1). cbv zeta. rewrite E. cbn [fst snd].
  assert (exists new, objs1 = objs ++ Boolean false :: Boolean false :: cls :: new) as [new E1].
  { destruct H1 as (new & -> & _). exists new. unfold objs0. by rewrite <- app_assoc. }
  pose proof (added_trans _ _ _ _ _ (Forall (ref_ok (len objs1)) us) H0 H1 (fun _ _ H => H)) as H. clear H0 H1 E.
  set (d := Dictionary [(str "$class", uid (length objs + 2)); _]).
  assert (added objs (<[(length objs + 1)%nat := d]> objs1) True) as H2.
  { eapply added_patch; [exact H|lia| |].
    - rewrite E1, lookup_app_r by lia. by replace (length objs + 1 - length objs)%nat with 1%nat by lia.
    - intros Hlen Hus. split; [|done]. apply object_ok.
      + rewrite list_lookup_insert_ne by lia. rewrite E1, lookup_app_r by lia.
        replace (length objs + 2 - length objs)%nat with 2%nat by lia. by eexists _, _.
      + apply uid_ok; [rewrite length_insert, E1; len_lia|done].
      + keys_once.
      + fields_ok. apply refs_array. eapply Forall_impl; [exact Hus|]. intros u. apply ref_ok_mono. len_lia. }
  set (objs2 := <[(length objs + 1)%nat := d]> objs1) in *.
  assert (length objs2 = length objs1) as El by apply length_insert.
  assert (length objs + 3 <= length objs1)%nat as Hl1 by (rewrite E1; len_lia).
  eapply (added_patch _ _ _ _ True); [|done| |].
  - eapply added_app; [exact H2|]. intros _ _. split; [|done]. constructor; [utf8_class|constructor].
  - rewrite lookup_app_l by lia. unfold objs2. rewrite list_lookup_insert_ne by lia. rewrite E1. by apply list_lookup_middle.
  - set (pool := <[length objs := _]> _). intros Hlen _.
    assert (length pool = S (length objs1)) as Elp by (unfold pool; rewrite length_insert, length_app; cbn; lia).
    split; [|apply uid_ok; [lia|done]]. apply object_ok.
    + unfold pool. rewrite list_lookup_insert_ne by lia. apply class_at.
    + apply uid_ok; [lia|done].
    + keys_once.
    + fields_ok. apply uid_ok; [lia|done].
Qed.

(** The fields of an object under construction. *)
Definition fields_in (n : Z) (object : list (bytes * Value)) : Prop :=
  NoDup object.*1 /\ Forall (fun kv => from_utf8 kv.1 = true /\ ref_ok n kv.2) object.
Lemma fields_in_mono n n' object : n <= n' -> fields_in n object -> fields_in n' object.
Proof.
  intros Hn [? Hf]. split; [done|]. eapply Forall_impl; [exact Hf|]. intros kv [? ?]. split; [done|by eapply ref_ok_mono].
Qed.
Lemma fields_in_insert n k v object : from_utf8 k = true -> ref_ok n v -> fields_in n object -> fields_in n (imap_insert k v object).
Proof. intros Hk Hv [? ?]. split; [by apply imap_insert_NoDup|by apply imap_insert_Forall]. Qed.
Lemma imap_lookup_insert_same {K V} `{!EqDecision K} (k : K) (v : V) m : imap_lookup k (imap_insert k v m) = Some v.
Proof. induction m as [|[k' v'] m IH]; cbn; [by rewrite decide_True|]. case_decide; cbn; [by rewrite decide_True|by rewrite decide_False]. Qed.

Lemma configuration_field_adds v : ref_ok 1 v -> adds ref_ok (archive_configuration_field v).
Proof.
  intros [Hw Hr]. destruct v; try (by apply value_into_adds); intros objs Hne; (apply added_nil; split; [done|]);
    (eapply refs_lt_mono; [|exact Hr]); destruct objs; try done; cbn [fst archive_configuration_field]; len_lia.
Qed.
Lemma selectors_utf8 key v selectors : wf v -> selectors_of key v = Some selectors -> Forall (fun s => from_utf8 s = true) selectors.
Proof.
  unfold selectors_of. case_decide; [|done]. destruct v as [l| | | | | | | |]; try done. intros Hw%plist_wf_array. case_match; [|done]. intros [= <-].
  clear -Hw. induction Hw as [|v l Hv Hl IH]; [constructor|]. cbn. destruct v; cbn; try done. by constructor.
Qed.

Definition field_ok (f : bytes * Value) : Prop := from_utf8 f.1 = true /\ ref_ok 1 f.2.
Lemma field_adds f objs object objs0 :
  field_ok f -> objs <> [] -> added objs0 objs (fields_in (len objs) object) ->
  exists objs' object', archive_field f (objs, object) = (objs', object') /\ objs' <> [] /\ added objs0 objs' (fields_in (len objs') object').
Proof.
  destruct f as [key v]. intros [Hk Hv] Hne H. cbn [fst snd] in *. unfold archive_field. destruct (selectors_of key v) as [selectors|] eqn:Es.
  - pose proof (selectors_utf8 _ _ _ (proj1 Hv) Es) as Hs.
    destruct (adds_run _ _ _ (nsset_adds _ Hs) Hne) as (objs1 & u & -> & Hne1 & H1).
    destruct (adds_run _ _ _ (identifier_set_adds _ Hs) Hne1) as (objs2 & u' & -> & Hne2 & H2).
    eexists _, _. split; [done|]. split; [done|]. pose proof (added_len _ _ _ H1). pose proof (added_len _ _ _ H2).
    eapply added_trans; [exact H| |].
    + eapply added_trans; [exact H1|exact H2|]. intros _ A B. exact (conj A B).
    + intros _ Hf [Hu Hu']. apply fields_in_insert; [by case_decide|done|].
      apply fields_in_insert; [done|by eapply ref_ok_mono|]. eapply fields_in_mono; [|exact Hf]. lia.
  - destruct (adds_run _ _ _ (configuration_field_adds _ Hv) Hne) as (objs1 & u & -> & Hne1 & H1).
    eexists _, _. split; [done|]. split; [done|]. pose proof (added_len _ _ _ H1). eapply added_trans; [exact H|exact H1|].
    intros _ Hf Hu. apply fields_in_insert; [done|done|]. by eapply fields_in_mono.
Qed.
Lemma fields_adds fs objs object objs0 :
  Forall field_ok fs -> objs <> [] -> added objs0 objs (fields_in (len objs) object) ->
  exists objs' object', fold_left (fun acc f => archive_field f acc) fs (objs, object) = (objs', object') /\ objs' <> [] /\
    added objs0 objs' (fields_in (len objs') object').
Proof.
  intros Hfs. revert objs object. induction Hfs as [|f fs Hf Hfs IH]; intros objs object Hne H; cbn [fold_left]; [by exists objs, object|].
  destruct (field_adds f objs object objs0 Hf Hne H) as (objs1 & object1 & -> & Hne1 & H1). by apply IH.
Qed.

(** Text is UTF-8, the identifier has sixteen bytes' worth of data, and the values the
    caller supplies refer to nothing but the null marker. *)
Definition config_ok (c : XcTestConfiguration) : Prop :=
  from_utf8 (path (test_bundle_url c)) = true /\ from_utf8 (automation_framework_path c) = true /\
  ref_ok 1 (Dictionary (capabilities (ide_capabilities c))) /\ Forall field_ok (additional_fields c).

Lemma configuration_adds c : config_ok c -> adds ref_ok (archive_xctest_configuration_into c).
Proof.
  intros (Hurl & Hpath & Hcaps & Hfs) objs Hne. unfold archive_xctest_configuration_into.
  destruct (adds_run _ _ _ (nsuuid_adds (session_identifier c)) Hne) as (o1 & u1 & -> & Hne1 & H1).
  destruct (adds_run _ _ _ (nsurl_adds _ Hurl) Hne1) as (o2 & u2 & -> & Hne2 & H2).
  destruct (adds_run _ _ _ (capabilities_adds _ Hcaps) Hne2) as (o3 & u3 & -> & Hne3 & H3).
  destruct (adds_run _ _ _ (push_adds (String (automation_framework_path c)) Hpath I eq_refl) Hne3) as (o4 & u4 & E4 & Hne4 & H4).
  cbn [archive_value_into]. rewrite E4. cbv zeta. set (object := [(str "sessionIdentifier", u1); _; _; _; _; _; _; _]).
  pose proof (added_len _ _ _ H2) as L2. pose proof (added_len _ _ _ H3) as L3. pose proof (added_len _ _ _ H4) as L4.
  assert (added objs o4 (fields_in (len o4) object)) as H.
  { eapply added_trans; [exact H1| |].
    - eapply added_trans; [exact H2| |].
      + eapply added_trans; [exact H3|exact H4|]. intros _ A B. exact (conj A B).
      + intros _ A B. exact (conj A B).
    - intros _ R1 (R2 & R3 & R4). split; [keys_once|]. unfold object.
      fields_ok; try done; (eapply ref_ok_mono; [|eassumption]); lia. }
  destruct (fields_adds _ _ _ _ Hfs Hne4 H) as (o5 & object5 & -> & Hne5 & H5). cbn [fst snd].
  eapply added_app; [exact H5|]. intros Hlen Hf. split; [|apply uid_ok; [len_lia|done]].
  constructor; [|constructor; [utf8_class|constructor]].
  assert (ref_ok (len (o5 ++ [Dictionary (imap_insert (str "$class") (uid (length o5 + 1)) object5);
    class_descriptor (str "XCTestConfiguration") [str "XCTestConfiguration"; str "NSObject"]])) (uid (length o5 + 1))) as Hu
    by (apply uid_ok; [len_lia|done]).
  apply (fields_in_mono _ (len (o5 ++ [Dictionary (imap_insert (str "$class") (uid (length o5 + 1)) object5);
    class_descriptor (str "XCTestConfiguration") [str "XCTestConfiguration"; str "NSObject"]]))) in Hf; [|len_lia].
  destruct (fields_in_insert _ (str "$class") _ _ eq_refl Hu Hf) as [Hnd Hall]. split; [|split].
  - apply plist_wf_dictionary. split; [done|]. eapply Forall_impl; [exact Hall|]. by intros kv (? & ? & ?).
  - apply foldr_and. eapply Forall_impl; [exact Hall|]. by intros kv (? & ? & ?).
  - unfold typed, get. rewrite imap_lookup_insert_same. unfold uid. rewrite Nat2Z.id, lookup_app_r by lia.
    replace (length o5 + 1 - length o5)%nat with 1%nat by lia. by eexists _, _.
Qed.

(** ** Documents *)

Lemma pool_doc objs root :
  Forall wf objs -> ref_ok (len objs) root -> wf (build_keyed_archive root objs).
Proof.
  intros Ho [Hw _]. apply plist_wf_dictionary. split; [keys_once|].
  repeat (constructor; [split; [reflexivity|]|]); [..|constructor].
  - done.
  - cbn. lia.
  - apply plist_wf_dictionary. split; [keys_once|]. constructor; [split; [reflexivity|done]|constructor].
  - by apply plist_wf_array.
Qed.
(** What [finish] starts from and what it makes of a pool. *)
Lemma null_added objs P : added [null_object] objs P -> len objs < 2 ^ 64 -> pool_ok objs /\ P.
Proof.
  intros (new & -> & H) Hl. destruct (H Hl) as [Hnew HP]. split; [|done]. apply Forall_app. split; [|done]. by repeat constructor.
Qed.
Lemma pool_wf objs : pool_ok objs -> Forall wf objs.
Proof. intros H. eapply Forall_impl; [exact H|by intros v []]. Qed.

Lemma finish_ok {PC : PlistCodec} {BC : BinaryCodec PC} (f : list Value -> list Value * Value) objs root :
  f [null_object] = (objs, root) -> adds ref_ok f -> len objs < 2 ^ 64 ->
  pool_ok objs /\ exists bs, finish f = Ok bs /\ from_bytes bs = Some (build_keyed_archive root objs).
Proof.
  intros E Hf Hl. specialize (Hf [null_object] ltac:(done)). rewrite E in Hf. destruct (null_added _ _ Hf Hl) as [Hok Hroot]. split; [done|].
  destruct (binary_roundtrip (build_keyed_archive root objs)) as (bs & Eb & Hbs); [apply pool_doc; [by apply pool_wf|done]|].
  exists bs. unfold finish. rewrite E. unfold to_binary_plist. by rewrite Eb.
Qed.

Lemma unarchive_built {HO : HashOrder} f64 root u objs :
  uid_from_plist root = Some u -> unarchive_doc f64 (build_keyed_archive root objs) = decode_object f64 objs (S MAX_ARCHIVE_DEPTH) u.
Proof.
  intros Hu. unfold unarchive_doc, build_keyed_archive. cbn [as_dictionary ok_or]. cbn [mbind outcome_bind]. get_field. cbn [and_then as_string default].
  rewrite decide_yes by (vm_compute; reflexivity). cbn [and_then as_array as_dictionary ok_or mbind outcome_bind]. get_field. cbn [and_then]. by rewrite Hu.
Qed.

Lemma plain_refs v n : plain v -> refs_lt n v.
Proof.
  induction v as [l IH|m IH| | | | | | |] using value_ind'; try done.
  - intros Hp%plain_array. apply foldr_and. rewrite Forall_forall in *. intros x Hin. apply IH; [done|]. by apply Hp.
  - intros Hp%plain_dictionary. apply foldr_and. rewrite Forall_forall in *. intros kv Hin. apply IH; [done|]. by apply Hp.
Qed.

(** ** What decoding can return *)

Fixpoint av_height (v : ArchiveValue) : nat :=
  match v with
  | AvArray l => S (foldr (fun v => Nat.max (av_height v)) 0%nat l)
  | AvDict m => S (foldr (fun kv => Nat.max (av_height kv.2)) 0%nat m)
  | _ => 0
  end.
(** Every dictionary has each key once. *)
Fixpoint av_keys (v : ArchiveValue) : Prop :=
  match v with
  | AvArray l => foldr (fun v => and (av_keys v)) True l
  | AvDict m => NoDup m.*1 /\ foldr (fun kv => and (av_keys kv.2)) True m
  | _ => True
  end.
Definition good (n : nat) (v : ArchiveValue) : Prop := (av_height v <= n)%nat /\ av_keys v.
Definition decodes (n : nat) (o : outcome ArchiveError ArchiveValue) : Prop := match o with Ok v => good n v | Err _ => True | _ => False end.

Lemma good_le n n' v : (n <= n')%nat -> good n v -> good n' v.
Proof. intros Hn [? ?]. split; [lia|done]. Qed.
Lemma decodes_le n n' o : (n <= n')%nat -> decodes n o -> decodes n' o.
Proof. intros Hn. destruct o; try done. by apply good_le. Qed.
Lemma foldr_max_le {A} (f : A -> nat) b l n : (b <= n)%nat -> Forall (fun a => (f a <= n)%nat) l -> (foldr (fun a => Nat.max (f a)) b l <= n)%nat.
Proof. intros Hb. induction 1; cbn; lia. Qed.
Lemma good_array n l : Forall (good n) l -> good (S n) (AvArray l).
Proof.
  intros H. split; cbn.
  - apply le_n_S, foldr_max_le; [lia|]. eapply Forall_impl; [exact H|by intros v []].
  - apply foldr_and. eapply Forall_impl; [exact H|by intros v []].
Qed.
Lemma good_dict {HO : HashOrder} n m : NoDup m.*1 -> Forall (fun kv => good n kv.2) m -> good (S n) (hash_map m).
Proof.
  intros Hnd H. pose proof (Dtx.hash_order_entries m) as Hm. rewrite <- Hm in Hnd, H. split; cbn.
  - apply le_n_S, foldr_max_le; [lia|]. eapply Forall_impl; [exact H|by intros v []].
  - split; [done|]. apply foldr_and. eapply Forall_impl; [exact H|by intros v []].
Qed.

(** The two shapes of the decoder's loops. *)
Lemma decodes_list {A} n (f : A -> outcome ArchiveError ArchiveValue) l :
  (forall a, decodes n (f a)) ->
  decodes (S n) (AvArray <$> foldM (fun a result => v ← f a; Ok (result ++ [v])) l []).
Proof.
  intros Hf. assert (forall acc, Forall (good n) acc ->
    match foldM (fun a result => v ← f a; Ok (result ++ [v])) l acc with Ok r => Forall (good n) r | Err _ => True | _ => False end) as H.
  { induction l as [|a l IH]; intros acc Hacc; [done|]. cbn. specialize (Hf a). destruct (f a) as [v| | | |]; cbn; try done.
    apply IH, Forall_app. split; [done|]. constructor; [done|constructor]. }
  specialize (H [] ltac:(constructor)). destruct (foldM _ _ _) as [r| | | |]; cbn; try done. by apply good_array.
Qed.
Lemma decodes_fold {A} n (f : A -> list (bytes * ArchiveValue) -> outcome ArchiveError (list (bytes * ArchiveValue))) l :
  let inv m := NoDup m.*1 /\ Forall (fun kv : bytes * ArchiveValue => good n kv.2) m in
  (forall a m, inv m -> match f a m with Ok m' => inv m' | Err _ => True | _ => False end) ->
  forall m, inv m -> match foldM f l m with Ok m' => inv m' | Err _ => True | _ => False end.
Proof.
  intros inv Hf. induction l as [|a l IH]; intros m Hm; [done|]. cbn. specialize (Hf a m Hm). destruct (f a m); cbn; try done. by apply IH.
Qed.
Lemma fields_inv_insert n (m : list (bytes * ArchiveValue)) k v :
  NoDup m.*1 /\ Forall (fun kv => good n kv.2) m -> good n v ->
  NoDup (imap_insert k v m).*1 /\ Forall (fun kv => good n kv.2) (imap_insert k v m).
Proof. intros [? ?] Hv. split; [by apply imap_insert_NoDup|by apply imap_insert_Forall]. Qed.

Section bounded.
Context {HO : HashOrder} (f64 : Z -> bytes) (objs : list Value).

Lemma scalar_good n v : (forall l, v <> AvArray l) -> (forall m, v <> AvDict m) -> good n v.
Proof. intros Ha Hd. destruct v; try (by split; cbn; lia); [by edestruct Ha|by edestruct Hd]. Qed.
Lemma decode_value_bounded n object field obj :
  (forall u, decodes n (object u)) -> (forall v, decodes n (field v)) -> decodes (S n) (decode_value f64 objs object field obj).
Proof.
  intros Ho Hf. destruct obj as [l|m|b|d|t|r|k|s|u]; cbn [decode_value];
    try (by apply scalar_good); try (by (eapply decodes_le; [|apply Ho]; lia)).
  - unfold decode_keyed. repeat (case_decide as Hc; clear Hc; [try (by apply scalar_good)|]).
    + unfold decode_number, plain_integer. repeat case_match; by apply scalar_good.
    + by apply decodes_list.
    + unfold decode_pairs.
      assert (forall kvs, match foldM (fun '(k, v) map => match key_text f64 (object k) with None => Ok map | Some key => v ← object v; Ok (imap_insert key v map) end) kvs []
        with Ok m' => NoDup m'.*1 /\ Forall (fun kv : bytes * ArchiveValue => good n kv.2) m' | Err _ => True | _ => False end) as H.
      { intros kvs. apply decodes_fold; [|split; constructor]. intros [k v] m' Hm'. destruct (key_text f64 (object k)); [|done].
        specialize (Ho v). destruct (object v); cbn; try done. by apply fields_inv_insert. }
      specialize (H (zip (uids (str "NS.keys") m) (uids (str "NS.objects") m))).
      destruct (foldM _ _ _); cbn; try done. destruct H; by apply good_dict.
    + destruct (get (str "NS.data") m ?> as_data); by apply scalar_good.
    + destruct (get _ m ?> uid_from_plist); [eapply decodes_le; [|apply Ho]; lia|by apply scalar_good].
    + unfold decode_fields.
      assert (match foldM (fun '(key, value) map => if decide (key = str "$class") then Ok map else v ← field value; Ok (imap_insert key v map)) m []
        with Ok m' => NoDup m'.*1 /\ Forall (fun kv : bytes * ArchiveValue => good n kv.2) m' | Err _ => True | _ => False end) as H.
      { apply decodes_fold; [|split; constructor]. intros [k v] m' Hm'. case_decide; [done|].
        specialize (Hf v). destruct (field v); cbn; try done. by apply fields_inv_insert. }
      destruct (foldM _ _ _) as [m'| | | |]; cbn; try done. destruct H as [Hnd Hm'].
      destruct (imap_lookup _ m'); [by apply good_dict|]. destruct (fields_inv_insert n m' (str "ObjectType") (AvString (class_name objs m)));
        [done|by apply scalar_good|by apply good_dict].
  - unfold plain_integer. case_match; by apply scalar_good.
  - case_decide; by apply scalar_good.
Qed.

Lemma decode_bounded n : (forall u, decodes n (decode_object f64 objs n u)) /\ (forall v, decodes n (decode_field_value f64 objs n v)).
Proof.
  induction n as [|n [IHo IHf]]; [done|].
  assert (forall obj, decodes (S n) (decode_value f64 objs (decode_object f64 objs n) (decode_field_value f64 objs n) obj)) as Hv
    by (intros; by apply decode_value_bounded).
  split.
  - intros u. cbn [decode_object]. destruct (length objs <=? u)%nat eqn:E; [done|]. apply Nat.leb_gt in E.
    destruct (lookup_lt_is_Some_2 _ _ E) as [obj Hobj]. unfold index. rewrite Hobj. apply Hv.
  - intros v. cbn [decode_field_value]. destruct (uid_from_plist v); [eapply decodes_le; [|apply IHo]; lia|].
    destruct v as [l|m| | | | | | |]; try apply Hv; [by apply decodes_list|]. destruct (get _ m); [apply Hv|].
    assert (match foldM (fun '(key, value) map => v ← decode_field_value f64 objs n value; Ok (imap_insert key v map)) m []
      with Ok m' => NoDup m'.*1 /\ Forall (fun kv : bytes * ArchiveValue => good n kv.2) m' | Err _ => True | _ => False end) as H.
    { apply decodes_fold; [|split; constructor]. intros [k v] m' Hm'. specialize (IHf v).
      destruct (decode_field_value f64 objs n v); cbn; try done. by apply fields_inv_insert. }
    destruct (foldM _ _ _) as [m'| | | |]; cbn; try done. destruct H. by apply good_dict.
Qed.
End bounded.

(** The codec as the DTX layer calls it. *)
Definition keyed_archiver {PC : PlistCodec} {HO : HashOrder} (f64_to_string : Z -> bytes) : Dtx.Archiver := {|
  Dtx.unarchive := fun data => match unarchive f64_to_string data with Ok v => Some v | _ => None end;
  Dtx.archive_string := fun s => match archive_string s with Ok bs => bs | _ => [] end;
|}.

Lemma keyed_archiver_string {PC : PlistCodec} {HO : HashOrder} {BC : BinaryCodec PC} f64 s :
  from_utf8 s = true -> s <> str "$null" ->
  Dtx.unarchive (Archiver := keyed_archiver f64) (Dtx.archive_string (Archiver := keyed_archiver f64) s) = Some (AvString s).
Proof.
  intros Hu Hs. cbn. unfold archive_string, archive_value, to_binary_plist.
  destruct (binary_roundtrip (build_keyed_archive (uid 1) [null_object; String s])) as (bs & E & Hbs).
  { apply pool_doc; [by repeat constructor|]. by apply uid_ok; [cbn; lia|]. }
  rewrite E. unfold unarchive. rewrite Hbs, (unarchive_built _ _ 1) by apply uid_uid.
  rewrite (decode_object_at _ _ _ _ (String s)) by done. cbn [decode_value]. by rewrite decide_False.
Qed.

(** ** Properties *)

(** [wf] of a concrete value. *)
Ltac wf_tac := repeat match goal with
  | |- wf (Array _) => apply plist_wf_array
  | |- wf (Dictionary _) => apply plist_wf_dictionary; split; [keys_once|]
  | |- Forall _ (_ :: _) => apply Forall_cons; split
  | |- Forall _ [] => apply Forall_nil_2
  | |- _ /\ _ => split
  | |- wf (Integer _) => cbn; lia
  | |- _ => progress cbn [fst snd] || done
  end.

(** C16. An archived dictionary decodes to what was archived: for entries of text other
    than the null marker ["$null"], numbers, data, and arrays and dictionaries of these, nested
    within the decoder's depth, [unarchive] of [archive_dict] returns a dictionary with the
    same entries, whatever order the decoder's hash maps iterate in. A dictionary has no
    order: the result is the same up to [≃], at every depth. *)
Theorem archive_roundtrip {PC : PlistCodec} {HO : HashOrder} {BC : BinaryCodec PC} f64 pairs :
  wf (Dictionary pairs) -> plain (Dictionary pairs) -> (height (Dictionary pairs) <= S MAX_ARCHIVE_DEPTH)%nat ->
  len (archive_dict_into pairs [null_object]).1 < 2 ^ 64 ->
  exists bs v, archive_dict pairs = Ok bs /\ unarchive f64 bs = Ok v /\ v ≃ to_archive (Dictionary pairs).
Proof.
  intros Hw Hp Hh Hl. destruct (dict_into_stores pairs Hp [null_object]) as (new & u & E & Hr). rewrite E in Hl.
  destruct (finish_ok _ _ _ E (dict_into_adds pairs Hw (plain_refs _ 1 Hp)) Hl) as (_ & bs & Ebs & Hbs).
  exists bs, (in_memory (Dictionary pairs)). split; [exact Ebs|]. split; [|apply in_memory_same]. unfold unarchive. rewrite Hbs, (unarchive_built _ _ u) by apply uid_uid.
  by apply (decode_repr f64 _ _ (Dictionary pairs) Hp Hw u _ Hr).
Qed.
Definition demo_entries : list (bytes * Value) :=
  [(str "bm", Integer 0); (str "cpuUsage", Boolean true); (str "names", Array [String (str "pid"); Dictionary [(str "ur", Integer (2 ^ 64 - 1))]])].
Lemma archive_roundtrip_witness : exists bs v,
  archive_dict (PC := tree_codec) demo_entries = Ok bs /\ unarchive (PC := tree_codec) (HO := Dtx.reverse_order) (fun _ => []) bs = Ok v /\
  v ≃ AvDict [(str "bm", AvInt 0); (str "cpuUsage", AvBool true);
    (str "names", AvArray [AvString (str "pid"); AvDict [(str "ur", AvUint (2 ^ 64 - 1))]])].
Proof.
  apply (archive_roundtrip (PC := tree_codec) (HO := Dtx.reverse_order) (fun _ => []) demo_entries); [..|reflexivity].
  - unfold demo_entries. wf_tac.
  - cbn. repeat split; done.
  - apply Nat.leb_le. reflexivity.
Defined.

(** C23. The archive of a test configuration is well typed: its bytes hold a keyed archive in
    whose pool every reference is in range and every [$class] names a class descriptor. The
    configuration's texts are UTF-8, and the values that the caller supplies (the capabilities and
    the additional fields, which the code passes on as they are) are well-formed, hold no
    reference but the one to the null marker, and no dates. *)
Theorem archive_well_typed {PC : PlistCodec} {BC : BinaryCodec PC} config pool root :
  config_ok config -> archive_xctest_configuration_into config [null_object] = (pool, root) -> len pool < 2 ^ 64 ->
  pool_ok pool /\ exists bs, archive_xctest_configuration config = Ok bs /\ from_bytes bs = Some (build_keyed_archive root pool).
Proof. intros Hc E Hl. exact (finish_ok _ _ _ E (configuration_adds config Hc) Hl). Qed.
Definition demo_config : XcTestConfiguration := mkConfiguration (repeat x00 16) (mkUrl (str "/tmp/A.xctest"))
  (mkCapabilities [(str "test case run configurations", Boolean true)]) (str "/XCTAutomationSupport.framework") true true true false
  [(str "testsToRun", Array [String (str "App.ATests/testB"); String (str "CTests")]); (str "productModuleName", String (str "App")); (str "o", Integer 1)].
Lemma archive_well_typed_witness :
  pool_ok (archive_xctest_configuration_into demo_config [null_object]).1 /\
  exists bs, archive_xctest_configuration (PC := tree_codec) demo_config = Ok bs /\
    from_bytes (PlistCodec := tree_codec) bs =
      Some (build_keyed_archive (archive_xctest_configuration_into demo_config [null_object]).2 (archive_xctest_configuration_into demo_config [null_object]).1).
Proof.
  apply (archive_well_typed (PC := tree_codec) demo_config); [|by vm_compute|by vm_compute].
  split; [done|]. split; [done|]. split.
  - split; [unfold demo_config; cbn [ide_capabilities capabilities]; wf_tac|done].
  - unfold field_ok, ref_ok, demo_config. cbn [additional_fields]. wf_tac.
Defined.

(** C28. Decoding is bounded: whatever the bytes, [unarchive] returns a value nested at
    most 65 levels deep in which every dictionary has each key once, or an error. *)
Theorem archive_decode_bounded {PC : PlistCodec} {HO : HashOrder} f64 data : decodes (S MAX_ARCHIVE_DEPTH) (unarchive f64 data).
Proof.
  unfold unarchive. destruct (from_bytes data) as [plist|]; [|done]. unfold unarchive_doc.
  destruct (as_dictionary plist) as [m|]; [|done]. cbn [ok_or mbind outcome_bind]. cbv zeta. case_decide; [|done].
  destruct (get (str "$objects") m ?> as_array) as [objs|]; [|done]. cbn [ok_or mbind outcome_bind].
  destruct (get (str "$top") m ?> as_dictionary) as [top|]; [|done]. cbn [ok_or mbind outcome_bind].
  destruct (get (str "root") top ?> uid_from_plist) as [u|]; [|done]. apply decode_bounded.
Qed.

(** *** What the codec does not do *)

(** A number stored in a field of an object is taken for a reference to another object:
    the inline numbers the encoder itself writes do not decode. *)
Theorem archive_inline_integer_misread {HO : HashOrder} f64 objs n k :
  0 <= k < 2 ^ 64 -> decode_field_value f64 objs (S n) (Integer k) = decode_object f64 objs n (Z.to_nat k).
Proof.
  intros Hk. cbn [decode_field_value uid_from_plist as_dictionary and_then as_unsigned_integer].
  rewrite (proj2 (Z.leb_le _ _)), (proj2 (Z.ltb_lt _ _)) by lia. done.
Qed.
(** In the archive of a configuration with the field [o = 1], the field decodes as the
    entry 1 of the pool, the session identifier. *)
Example inline_integer_example :
  let '(pool, root) := archive_xctest_configuration_into demo_config [null_object] in
  match unarchive_doc (HO := Dtx.insertion_order) (fun _ => []) (build_keyed_archive root pool) with
  | Ok (AvDict m) => imap_lookup (str "o") m = Some (AvDict [(str "NS.uuidbytes", AvData (repeat x00 16)); (str "ObjectType", AvString (str "NSUUID"))])
  | _ => False
  end.
Proof. vm_compute. reflexivity. Qed.

(** The text ["$null"] archives, and decodes as null. *)
Theorem archive_null_text {PC : PlistCodec} {HO : HashOrder} {BC : BinaryCodec PC} f64 :
  exists bs, archive_string (str "$null") = Ok bs /\ unarchive f64 bs = Ok AvNull.
Proof.
  unfold archive_string, archive_value, to_binary_plist.
  destruct (binary_roundtrip (build_keyed_archive (uid 1) [null_object; String (str "$null")])) as (bs & E & Hbs).
  { apply pool_doc; [by repeat constructor|]. by apply uid_ok; [cbn; lia|]. }
  exists bs. rewrite E. split; [done|]. unfold unarchive. rewrite Hbs, (unarchive_built _ _ 1) by apply uid_uid.
  rewrite (decode_object_at _ _ _ _ (String (str "$null"))) by done. cbn [decode_value]. by rewrite decide_yes by (vm_compute; reflexivity).
Qed.

(** The depth bound does not bound the work: a chain of [k] arrays, each of which lists
    the next one twice, has [k + 3] entries and decodes to [2 ^ k] leaves. *)
Definition fan (k : nat) : list Value :=
  [null_object; array_class] ++ map (fun i => array_object 1 [i + 3; i + 3]%nat) (seq 0 k) ++ [Boolean true].
Fixpoint leaves (v : ArchiveValue) : Z :=
  match v with
  | AvArray l => lsum leaves l
  | _ => 1
  end.
Theorem archive_fan_out {HO : HashOrder} f64 k :
  (k <= MAX_ARCHIVE_DEPTH)%nat ->
  length (fan k) = (k + 3)%nat /\ exists v, unarchive_doc f64 (build_keyed_archive (uid 2) (fan k)) = Ok v /\ leaves v = 2 ^ Z.of_nat k.
Proof.
  intros Hk. split; [unfold fan; rewrite !length_app, length_map, length_seq; cbn; lia|].
  rewrite (unarchive_built _ _ 2) by apply uid_uid.
  assert (forall j n, (j <= k)%nat -> (j < n)%nat -> exists v, decode_object f64 (fan k) n (k - j + 2) = Ok v /\ leaves v = 2 ^ Z.of_nat j) as H.
  { induction j as [|j IH]; intros [|n] Hj Hn; try lia.
    - exists (AvBool true). split; [|done]. rewrite (decode_object_at _ _ _ _ (Boolean true)); [done|].
      unfold fan. rewrite app_assoc. apply list_lookup_middle. rewrite length_app, length_map, length_seq. cbn. lia.
    - destruct (IH n ltac:(lia) ltac:(lia)) as (v & Hv & Hleaves). exists (AvArray [v; v]). split.
      + rewrite (decode_object_at _ _ _ _ (array_object 1 [k - j + 2; k - j + 2]%nat)).
        * apply decode_array; [done|]. by repeat constructor.
        * replace (k - S j + 2)%nat with (2 + (k - S j))%nat by lia. unfold fan.
          change (([null_object; array_class] ++ ?l) !! (2 + ?i)%nat) with (l !! i).
          rewrite lookup_app_l by (rewrite length_map, length_seq; lia).
          rewrite list_lookup_fmap, lookup_seq_lt by lia. cbn [fmap option_fmap option_map].
          by replace (0 + (k - S j) + 3)%nat with (k - j + 2)%nat by lia.
      + cbn [leaves]. unfold lsum. cbn [foldr]. rewrite !Hleaves, Nat2Z.inj_succ, Z.pow_succ_r by lia. lia. }
  destruct (H k (S MAX_ARCHIVE_DEPTH) ltac:(lia) ltac:(lia)) as (v & Hv & ?). exists v. split; [|done].
  by replace (k - k + 2)%nat with 2%nat in Hv by lia.
Qed.

End ArchiveSpec.
