(* ===== verification/H2Framer.v ===== *)
(** The raw HTTP/2 framer of the RemoteXPC transport
    ([crates/ios-core/src/xpc/h2_raw.rs]).

    [H2Framer] has the fields of the source, grouped by concern: the socket and
    the unwritten tail ([io]), the resume state of an interrupted read ([rd]),
    the demultiplexed buffers ([bufs]), the stream registries ([streams]), flow
    control ([flow]) and the poison markers ([ctl]).

    The socket is a schedule. [rx] lists what successive reads meet: a chunk of
    bytes, end of file (an empty chunk), a failure, or a stall during which the
    caller drops the future; an exhausted schedule stalls. [wr] does the same for
    writes and flushes; an exhausted schedule accepts everything. So a run
    with cancellations at any await point is a run of these definitions on some
    schedule, and the state they leave behind is what the next call starts
    from. [tx] collects the bytes the socket took. *)

From stdpp Require Import sorting.
From S2P Require Import Prelude Socket XpcMessage.

Module H2.
Export Net.

(** ** Constants *)

Definition STREAM_INIT : Z := 0.
Definition STREAM_CLIENT_SERVER : Z := 1.
Definition STREAM_SERVER_CLIENT : Z := 3.

Definition FRAME_DATA : Z := 0x00.
Definition FRAME_HEADERS : Z := 0x01.
Definition FRAME_SETTINGS : Z := 0x04.
Definition FRAME_RST_STREAM : Z := 0x03.
Definition FRAME_GOAWAY : Z := 0x07.
Definition FRAME_WINDOW_UPDATE : Z := 0x08.

Definition FLAG_END_STREAM : Z := 0x01.
Definition FLAG_END_HEADERS : Z := 0x04.
Definition FLAG_SETTINGS_ACK : Z := 0x01.

Definition SETTINGS_MAX_CONCURRENT_STREAMS : Z := 0x03.
Definition SETTINGS_INITIAL_WINDOW_SIZE : Z := 0x04.
Definition SETTINGS_MAX_FRAME_SIZE : Z := 0x05.

Definition INITIAL_WINDOW_SIZE : Z := 16 * 1024 * 1024.
Definition DEFAULT_PEER_WINDOW_SIZE : Z := 65535.
Definition MAX_FLOW_CONTROL_WINDOW : Z := 0x7fffffff.
Definition MAX_NEGOTIATED_FRAME_SIZE : Z := 0x00ffffff.
Definition INITIAL_WINDOW_INCREMENT : Z := INITIAL_WINDOW_SIZE - 65535.
Definition WINDOW_UPDATE_THRESHOLD : Z := 1024 * 1024.
Definition MAX_FRAME_PAYLOAD : Z := 16384.
Definition MAX_BUFFERED_BYTES_PER_STREAM : Z := 16 * 1024 * 1024.
Definition MAX_TOTAL_BUFFERED_BYTES : Z := 64 * 1024 * 1024.
Definition MAX_UNKNOWN_BUFFERED_STREAMS : nat := 32.
Definition MAX_ANNOUNCED_FILE_STREAMS : nat := Z.to_nat 4096.
Definition FILE_STREAM_PREAMBLE_LEN : nat := 24.
Definition MAX_PENDING_DATA_FRAMES : nat := 1024.
Definition MAX_CLOSED_STREAMS : nat := MAX_UNKNOWN_BUFFERED_STREAMS.

Definition H2_PREFACE : bytes :=
  Stdlib.Strings.String.list_byte_of_string "PRI * HTTP/2.0" ++ map bZ [13; 10; 13; 10] ++
  Stdlib.Strings.String.list_byte_of_string "SM" ++ map bZ [13; 10; 13; 10].

Inductive H2Error : Type :=
| HIo
| HProtocol (m : msg).

(** ** State *)

Record GoAwayState := mkGoAway { last_stream_id : Z; error_code : Z }.
Record DataFrame := mkData { d_stream_id : Z; d_flags : Z; d_payload : bytes }.
Definition is_end_stream (d : DataFrame) : bool := negb (Z.land (d_flags d) FLAG_END_STREAM =? 0).
Definition is_remote_xpc_control_stream (d : DataFrame) : bool :=
  (d_stream_id d =? STREAM_CLIENT_SERVER) || (d_stream_id d =? STREAM_SERVER_CLIENT).
Record RawFrame := mkFrame { frame_type : Z; flags : Z; stream_id : Z; payload : bytes }.

(** The socket ([stream]) and the tail of an interrupted write. *)
Record Io := mkIo {
  rx : list rx_event;
  wr : list wr_event;
  tx : bytes;
  pending_write : option bytes;
}.

(** Progress of an interrupted frame read: the bytes of [partial_header] and
    [payload_buf] already filled ([header_filled] and [payload_filled] are their
    lengths). *)
Record ReadState := mkRd {
  partial_header : bytes;
  pending_frame_meta : option (Z * Z * Z * Z);
  payload_buf : option bytes;
}.

(** Demultiplexed data. *)
Record Buffers := mkBufs {
  client_server_buf : bytes;
  server_client_buf : bytes;
  stream_bufs : gmap Z bytes;
  pending_data_frames : list DataFrame;
  buffered_bytes : Z;
}.

(** Stream registries, tombstones and GOAWAY. *)
Record Streams := mkStreams {
  locally_open_streams : gset Z;
  client_server_open : bool;
  server_client_open : bool;
  closed_streams : gset Z;
  closed_unknown_order : list Z;
  peer_open_streams : gset Z;
  announced_file_streams : gset Z;
  file_stream_candidates : gset Z;
  file_stream_candidate_data : gmap Z bytes;
  reset_streams : gmap Z Z;
  reset_unknown_order : list Z;
  highest_peer_stream_id : Z;
  goaway : option GoAwayState;
}.

(** Flow control. *)
Record Flow := mkFlow {
  pending_window_updates : gmap Z Z;
  outbound_connection_window : Z;
  peer_initial_window_size : Z;
  outbound_stream_windows : gmap Z Z;
  outbound_max_frame_size : Z;
}.

(** Poison markers. *)
Record Control := mkCtl {
  connection_error : option msg;
  message_read_in_progress : bool;
  open_stream_in_progress : option Z;
  window_update_in_progress : bool;
}.

Record H2Framer := mkFramer {
  io : Io;
  rd : ReadState;
  bufs : Buffers;
  streams : Streams;
  flow : Flow;
  ctl : Control;
}.

(** Field updates. *)
Definition upd_io (f : Io -> Io) (s : H2Framer) : H2Framer :=
  mkFramer (f (io s)) (rd s) (bufs s) (streams s) (flow s) (ctl s).
Definition set_rx v (s : H2Framer) : H2Framer := upd_io (fun g => mkIo v (wr g) (tx g) (pending_write g)) s.
Definition set_wr v (s : H2Framer) : H2Framer := upd_io (fun g => mkIo (rx g) v (tx g) (pending_write g)) s.
Definition set_tx v (s : H2Framer) : H2Framer := upd_io (fun g => mkIo (rx g) (wr g) v (pending_write g)) s.
Definition set_pending_write v (s : H2Framer) : H2Framer := upd_io (fun g => mkIo (rx g) (wr g) (tx g) v) s.

Definition upd_rd (f : ReadState -> ReadState) (s : H2Framer) : H2Framer :=
  mkFramer (io s) (f (rd s)) (bufs s) (streams s) (flow s) (ctl s).
Definition set_partial_header v (s : H2Framer) : H2Framer := upd_rd (fun g => mkRd v (pending_frame_meta g) (payload_buf g)) s.
Definition set_pending_frame_meta v (s : H2Framer) : H2Framer := upd_rd (fun g => mkRd (partial_header g) v (payload_buf g)) s.
Definition set_payload_buf v (s : H2Framer) : H2Framer := upd_rd (fun g => mkRd (partial_header g) (pending_frame_meta g) v) s.

Definition upd_bufs (f : Buffers -> Buffers) (s : H2Framer) : H2Framer :=
  mkFramer (io s) (rd s) (f (bufs s)) (streams s) (flow s) (ctl s).
Definition set_client_server_buf v (s : H2Framer) : H2Framer := upd_bufs (fun g => mkBufs v (server_client_buf g) (stream_bufs g) (pending_data_frames g) (buffered_bytes g)) s.
Definition set_server_client_buf v (s : H2Framer) : H2Framer := upd_bufs (fun g => mkBufs (client_server_buf g) v (stream_bufs g) (pending_data_frames g) (buffered_bytes g)) s.
Definition set_stream_bufs v (s : H2Framer) : H2Framer := upd_bufs (fun g => mkBufs (client_server_buf g) (server_client_buf g) v (pending_data_frames g) (buffered_bytes g)) s.
Definition set_pending_data_frames v (s : H2Framer) : H2Framer := upd_bufs (fun g => mkBufs (client_server_buf g) (server_client_buf g) (stream_bufs g) v (buffered_bytes g)) s.
Definition set_buffered_bytes v (s : H2Framer) : H2Framer := upd_bufs (fun g => mkBufs (client_server_buf g) (server_client_buf g) (stream_bufs g) (pending_data_frames g) v) s.

Definition upd_streams (f : Streams -> Streams) (s : H2Framer) : H2Framer :=
  mkFramer (io s) (rd s) (bufs s) (f (streams s)) (flow s) (ctl s).
Definition set_locally_open_streams v (s : H2Framer) : H2Framer := upd_streams (fun g => mkStreams v (client_server_open g) (server_client_open g) (closed_streams g) (closed_unknown_order g) (peer_open_streams g) (announced_file_streams g) (file_stream_candidates g) (file_stream_candidate_data g) (reset_streams g) (reset_unknown_order g) (highest_peer_stream_id g) (goaway g)) s.
Definition set_client_server_open v (s : H2Framer) : H2Framer := upd_streams (fun g => mkStreams (locally_open_streams g) v (server_client_open g) (closed_streams g) (closed_unknown_order g) (peer_open_streams g) (announced_file_streams g) (file_stream_candidates g) (file_stream_candidate_data g) (reset_streams g) (reset_unknown_order g) (highest_peer_stream_id g) (goaway g)) s.
Definition set_server_client_open v (s : H2Framer) : H2Framer := upd_streams (fun g => mkStreams (locally_open_streams g) (client_server_open g) v (closed_streams g) (closed_unknown_order g) (peer_open_streams g) (announced_file_streams g) (file_stream_candidates g) (file_stream_candidate_data g) (reset_streams g) (reset_unknown_order g) (highest_peer_stream_id g) (goaway g)) s.
Definition set_closed_streams v (s : H2Framer) : H2Framer := upd_streams (fun g => mkStreams (locally_open_streams g) (client_server_open g) (server_client_open g) v (closed_unknown_order g) (peer_open_streams g) (announced_file_streams g) (file_stream_candidates g) (file_stream_candidate_data g) (reset_streams g) (reset_unknown_order g) (highest_peer_stream_id g) (goaway g)) s.
Definition set_closed_unknown_order v (s : H2Framer) : H2Framer := upd_streams (fun g => mkStreams (locally_open_streams g) (client_server_open g) (server_client_open g) (closed_streams g) v (peer_open_streams g) (announced_file_streams g) (file_stream_candidates g) (file_stream_candidate_data g) (reset_streams g) (reset_unknown_order g) (highest_peer_stream_id g) (goaway g)) s.
Definition set_peer_open_streams v (s : H2Framer) : H2Framer := upd_streams (fun g => mkStreams (locally_open_streams g) (client_server_open g) (server_client_open g) (closed_streams g) (closed_unknown_order g) v (announced_file_streams g) (file_stream_candidates g) (file_stream_candidate_data g) (reset_streams g) (reset_unknown_order g) (highest_peer_stream_id g) (goaway g)) s.
Definition set_announced_file_streams v (s : H2Framer) : H2Framer := upd_streams (fun g => mkStreams (locally_open_streams g) (client_server_open g) (server_client_open g) (closed_streams g) (closed_unknown_order g) (peer_open_streams g) v (file_stream_candidates g) (file_stream_candidate_data g) (reset_streams g) (reset_unknown_order g) (highest_peer_stream_id g) (goaway g)) s.
Definition set_file_stream_candidates v (s : H2Framer) : H2Framer := upd_streams (fun g => mkStreams (locally_open_streams g) (client_server_open g) (server_client_open g) (closed_streams g) (closed_unknown_order g) (peer_open_streams g) (announced_file_streams g) v (file_stream_candidate_data g) (reset_streams g) (reset_unknown_order g) (highest_peer_stream_id g) (goaway g)) s.
Definition set_file_stream_candidate_data v (s : H2Framer) : H2Framer := upd_streams (fun g => mkStreams (locally_open_streams g) (client_server_open g) (server_client_open g) (closed_streams g) (closed_unknown_order g) (peer_open_streams g) (announced_file_streams g) (file_stream_candidates g) v (reset_streams g) (reset_unknown_order g) (highest_peer_stream_id g) (goaway g)) s.
Definition set_reset_streams v (s : H2Framer) : H2Framer := upd_streams (fun g => mkStreams (locally_open_streams g) (client_server_open g) (server_client_open g) (closed_streams g) (closed_unknown_order g) (peer_open_streams g) (announced_file_streams g) (file_stream_candidates g) (file_stream_candidate_data g) v (reset_unknown_order g) (highest_peer_stream_id g) (goaway g)) s.
Definition set_reset_unknown_order v (s : H2Framer) : H2Framer := upd_streams (fun g => mkStreams (locally_open_streams g) (client_server_open g) (server_client_open g) (closed_streams g) (closed_unknown_order g) (peer_open_streams g) (announced_file_streams g) (file_stream_candidates g) (file_stream_candidate_data g) (reset_streams g) v (highest_peer_stream_id g) (goaway g)) s.
Definition set_highest_peer_stream_id v (s : H2Framer) : H2Framer := upd_streams (fun g => mkStreams (locally_open_streams g) (client_server_open g) (server_client_open g) (closed_streams g) (closed_unknown_order g) (peer_open_streams g) (announced_file_streams g) (file_stream_candidates g) (file_stream_candidate_data g) (reset_streams g) (reset_unknown_order g) v (goaway g)) s.
Definition set_goaway v (s : H2Framer) : H2Framer := upd_streams (fun g => mkStreams (locally_open_streams g) (client_server_open g) (server_client_open g) (closed_streams g) (closed_unknown_order g) (peer_open_streams g) (announced_file_streams g) (file_stream_candidates g) (file_stream_candidate_data g) (reset_streams g) (reset_unknown_order g) (highest_peer_stream_id g) v) s.

Definition upd_flow (f : Flow -> Flow) (s : H2Framer) : H2Framer :=
  mkFramer (io s) (rd s) (bufs s) (streams s) (f (flow s)) (ctl s).
Definition set_pending_window_updates v (s : H2Framer) : H2Framer := upd_flow (fun g => mkFlow v (outbound_connection_window g) (peer_initial_window_size g) (outbound_stream_windows g) (outbound_max_frame_size g)) s.
Definition set_outbound_connection_window v (s : H2Framer) : H2Framer := upd_flow (fun g => mkFlow (pending_window_updates g) v (peer_initial_window_size g) (outbound_stream_windows g) (outbound_max_frame_size g)) s.
Definition set_peer_initial_window_size v (s : H2Framer) : H2Framer := upd_flow (fun g => mkFlow (pending_window_updates g) (outbound_connection_window g) v (outbound_stream_windows g) (outbound_max_frame_size g)) s.
Definition set_outbound_stream_windows v (s : H2Framer) : H2Framer := upd_flow (fun g => mkFlow (pending_window_updates g) (outbound_connection_window g) (peer_initial_window_size g) v (outbound_max_frame_size g)) s.
Definition set_outbound_max_frame_size v (s : H2Framer) : H2Framer := upd_flow (fun g => mkFlow (pending_window_updates g) (outbound_connection_window g) (peer_initial_window_size g) (outbound_stream_windows g) v) s.

Definition upd_ctl (f : Control -> Control) (s : H2Framer) : H2Framer :=
  mkFramer (io s) (rd s) (bufs s) (streams s) (flow s) (f (ctl s)).
Definition set_connection_error v (s : H2Framer) : H2Framer := upd_ctl (fun g => mkCtl v (message_read_in_progress g) (open_stream_in_progress g) (window_update_in_progress g)) s.
Definition set_message_read_in_progress v (s : H2Framer) : H2Framer := upd_ctl (fun g => mkCtl (connection_error g) v (open_stream_in_progress g) (window_update_in_progress g)) s.
Definition set_open_stream_in_progress v (s : H2Framer) : H2Framer := upd_ctl (fun g => mkCtl (connection_error g) (message_read_in_progress g) v (window_update_in_progress g)) s.
Definition set_window_update_in_progress v (s : H2Framer) : H2Framer := upd_ctl (fun g => mkCtl (connection_error g) (message_read_in_progress g) (open_stream_in_progress g) v) s.

Abbreviation h2 := (st H2Framer H2Error).

Definition new (rx : list rx_event) (wr : list wr_event) (tx : bytes) : H2Framer :=
  mkFramer (mkIo rx wr tx None) (mkRd [] None None) (mkBufs [] [] ∅ [] 0)
    (mkStreams ∅ false false ∅ [] ∅ ∅ ∅ ∅ ∅ [] 0 None)
    (mkFlow ∅ DEFAULT_PEER_WINDOW_SIZE DEFAULT_PEER_WINDOW_SIZE ∅ MAX_FRAME_PAYLOAD)
    (mkCtl None false None false).

Definition when (b : bool) (m : h2 unit) : h2 unit := if b then m else mret tt.

(** ** Frame builders *)

(** [to_be_bytes] of the masked identifier; the three length bytes keep the low
    24 bits. *)
Definition build_frame (frame_type flags stream_id : Z) (payload : bytes) : bytes :=
  let len := len payload in
  [bZ (Z.land (Z.shiftr len 16) 0xFF); bZ (Z.land (Z.shiftr len 8) 0xFF); bZ (Z.land len 0xFF);
   bZ frame_type; bZ flags] ++
  be_bytes 4 (Z.land stream_id 0x7FFFFFFF) ++ payload.
Definition build_settings_frame (settings : list (Z * Z)) : bytes :=
  build_frame FRAME_SETTINGS 0 STREAM_INIT
    (concat (map (fun '(id, val) => be_bytes 2 id ++ be_bytes 4 val) settings)).
Definition build_settings_ack : bytes := build_frame FRAME_SETTINGS FLAG_SETTINGS_ACK STREAM_INIT [].
Definition build_window_update_frame (stream_id increment : Z) : bytes :=
  build_frame FRAME_WINDOW_UPDATE 0 stream_id (be_bytes 4 (Z.land increment 0x7FFFFFFF)).
Definition build_headers_frame (stream_id : Z) : bytes :=
  build_frame FRAME_HEADERS FLAG_END_HEADERS stream_id [].
Definition build_data_frame (stream_id : Z) (data : bytes) : bytes :=
  build_frame FRAME_DATA 0 stream_id data.

(** ** The socket *)

(** [stream.read(&mut buf[..])] with [k] bytes of room; no byte means EOF. *)
Definition sock_read (k : nat) : h2 bytes := fun s =>
  match rx (io s) with
  | [] => (s, Pending)
  | RxStall :: r => (set_rx r s, Pending)
  | RxFail :: r => (set_rx r s, Err HIo)
  | Chunk [] :: _ => (s, Ok [])
  | Chunk bs :: r =>
      if (length bs <=? k)%nat then (set_rx r s, Ok bs)
      else (set_rx (Chunk (drop k bs) :: r) s, Ok (take k bs))
  end.

(** [stream.write(bs)]: the number of bytes taken. *)
Definition sock_write (bs : bytes) : h2 nat := fun s =>
  match wr (io s) with
  | [] => (set_tx (tx (io s) ++ bs) s, Ok (length bs))
  | WrStall :: w => (set_wr w s, Pending)
  | WrFail :: w => (set_wr w s, Err HIo)
  | Accept n :: w => (set_wr w (set_tx (tx (io s) ++ take n bs) s), Ok (length (take n bs)))
  end.

Definition flush : h2 unit := fun s =>
  match wr (io s) with
  | WrStall :: w => (set_wr w s, Pending)
  | WrFail :: w => (set_wr w s, Err HIo)
  | _ => (s, Ok tt)
  end.

(** ** Poison *)

Definition connection_protocol_error {A} (m : msg) : h2 A := fun s =>
  let s' := match connection_error (ctl s) with None => set_connection_error (Some m) s | Some _ => s end in
  (s', Err (HProtocol m)).

Definition ensure_connection_open : h2 unit :=
  s ← st_get;
  match connection_error (ctl s) with
  | Some m => st_fail (HProtocol m)
  | None =>
      match open_stream_in_progress (ctl s) with
      | Some id => st_fail (HProtocol (Msg "opening stream {stream_id} was cancelled; the connection must be re-established" [id]))
      | None =>
          if window_update_in_progress (ctl s)
          then st_fail (HProtocol (Msg "WINDOW_UPDATE was cancelled mid-write; the connection must be re-established" []))
          else mret tt
      end
  end.

(** ** Writing *)

(** The loop of [write_frame_bytes]. [PendingWriteGuard::drop] stores the tail
    that the socket did not take when the loop stops early for any reason. *)
Fixpoint write_frame_loop (fuel : nat) (bs : bytes) : h2 unit :=
  match bs with
  | [] => mret tt
  | _ =>
      match fuel with
      | O => st_lift OutOfFuel
      | S fuel => fun s =>
          match sock_write bs s with
          | (s', Ok O) => (set_pending_write (Some bs) s', Err HIo)
          | (s', Ok n) => write_frame_loop fuel (drop n bs) s'
          | (s', o) => (set_pending_write (Some bs) s', match o with Err e => Err e | Pending => Pending | _ => Panic end)
          end
      end
  end.
Definition write_frame_bytes (bs : bytes) : h2 unit := write_frame_loop (length bs) bs.

Definition finish_pending_write : h2 unit :=
  s ← st_get;
  match pending_write (io s) with
  | Some pending => st_mod (set_pending_write None) ;; write_frame_bytes pending
  | None => mret tt
  end.
Definition write_all_tracked (bs : bytes) : h2 unit :=
  finish_pending_write ;; write_frame_bytes bs.

(** ** Reading one frame *)

Definition header_read : h2 unit :=
  s ← st_get;
  bs ← sock_read (9 - length (partial_header (rd s)));
  match bs with
  | [] => st_fail HIo
  | _ => st_mod (fun s => set_partial_header (partial_header (rd s) ++ bs) s)
  end.
(** [while self.header_filled < 9] *)
Fixpoint fill_header (fuel : nat) : h2 unit :=
  s ← st_get;
  if (9 <=? length (partial_header (rd s)))%nat then mret tt
  else match fuel with
       | O => st_lift OutOfFuel
       | S fuel => header_read ;; fill_header fuel
       end.

Definition frame_meta : h2 (Z * Z * Z * Z) :=
  s ← st_get;
  match pending_frame_meta (rd s) with
  | Some meta => mret meta
  | None =>
      h0 ← st_lift (index (partial_header (rd s)) 0);
      h1 ← st_lift (index (partial_header (rd s)) 1);
      h2 ← st_lift (index (partial_header (rd s)) 2);
      h3 ← st_lift (index (partial_header (rd s)) 3);
      h4 ← st_lift (index (partial_header (rd s)) 4);
      id ← st_lift (slice (partial_header (rd s)) 5 9);
      let length := Z.lor (Z.lor (Z.shiftl (Zb h0) 16) (Z.shiftl (Zb h1) 8)) (Zb h2) in
      let stream_id := Z.land (be_Z id) 0x7FFFFFFF in
      if MAX_FRAME_PAYLOAD <? length
      then connection_protocol_error (Msg "frame payload {length} exceeds max frame size {MAX_FRAME_PAYLOAD}" [length; MAX_FRAME_PAYLOAD])
      else
        let meta := (Zb h3, Zb h4, stream_id, length) in
        st_mod (set_pending_frame_meta (Some meta)) ;; mret meta
  end.

Definition payload_read (n : Z) : h2 unit :=
  s ← st_get;
  let filled := default [] (payload_buf (rd s)) in
  bs ← sock_read (Z.to_nat n - length filled);
  match bs with
  | [] => st_fail HIo
  | _ => st_mod (set_payload_buf (Some (filled ++ bs)))
  end.
(** [while self.payload_filled < length] *)
Fixpoint fill_payload (fuel : nat) (n : Z) : h2 unit :=
  s ← st_get;
  if n <=? len (default [] (payload_buf (rd s))) then mret tt
  else match fuel with
       | O => st_lift OutOfFuel
       | S fuel => payload_read n ;; fill_payload fuel n
       end.

Definition read_payload (n : Z) : h2 bytes :=
  if 0 <? n then
    st_mod (fun s => set_payload_buf (Some (default [] (payload_buf (rd s)))) s) ;;
    fill_payload (Z.to_nat n) n ;;
    s ← st_get;
    st_mod (set_payload_buf None) ;;
    mret (default [] (payload_buf (rd s)))
  else mret [].

Definition read_raw_frame : h2 RawFrame :=
  ensure_connection_open ;;
  finish_pending_write ;;
  fill_header 9 ;;
  meta ← frame_meta;
  let '(frame_type, flags, stream_id, length) := meta in
  payload ← read_payload length;
  st_mod (fun s => set_pending_frame_meta None (set_partial_header [] s)) ;;
  mret (mkFrame frame_type flags stream_id payload).

Definition begin_message_body : h2 unit := st_mod (set_message_read_in_progress true).
Definition end_message_body : h2 unit := st_mod (set_message_read_in_progress false).
Definition is_message_read_in_progress (s : H2Framer) : bool := message_read_in_progress (ctl s).
Definition ensure_reusable : h2 unit := ensure_connection_open.
Definition finish_pending_write_for_read : h2 unit := ensure_connection_open ;; finish_pending_write.

(** ** Stream state *)

Definition is_known_stream (s : H2Framer) (id : Z) : bool :=
  (id =? STREAM_INIT) || (id =? STREAM_CLIENT_SERVER) || (id =? STREAM_SERVER_CLIENT) ||
  bool_decide (id ∈ locally_open_streams (streams s)) ||
  bool_decide (id ∈ announced_file_streams (streams s)).

Definition ensure_stream_available (id : Z) : h2 unit :=
  ensure_connection_open ;;
  s ← st_get;
  match reset_streams (streams s) !! id with
  | Some code => st_fail (HProtocol (Msg "stream {stream_id} was reset by peer (error code {error_code})" [id; code]))
  | None =>
      match goaway (streams s) with
      | Some g =>
          if negb (id =? STREAM_INIT) && (last_stream_id g <? id)
          then st_fail (HProtocol (Msg "stream {stream_id} was refused by peer GOAWAY (last stream {}, error code {})"
                          [id; last_stream_id g; error_code g]))
          else mret tt
      | None => mret tt
      end
  end.

Definition ensure_peer_stream_not_reused (id : Z) : h2 unit :=
  s ← st_get;
  if negb (is_known_stream s id) &&
     negb (bool_decide (id ∈ peer_open_streams (streams s))) &&
     negb (bool_decide (id ∈ announced_file_streams (streams s))) &&
     negb (bool_decide (id ∈ file_stream_candidates (streams s))) &&
     negb (bool_decide (id ∈ closed_streams (streams s))) &&
     (id <=? highest_peer_stream_id (streams s))
  then st_fail (HProtocol (Msg "peer stream {stream_id} was already opened and cannot be reused" [id]))
  else mret tt.

Definition ensure_incoming_stream_available (id : Z) : h2 unit :=
  ensure_stream_available id ;;
  s ← st_get;
  if bool_decide (id ∈ closed_streams (streams s))
  then st_fail (HProtocol (Msg "frame received after stream {stream_id} ended" [id]))
  else ensure_peer_stream_not_reused id.

(** [pop_front] and [remove] of the oldest tombstone when the queue is full. *)
Definition record_reset_stream (id code : Z) (s : H2Framer) : H2Framer :=
  let s :=
    if negb (bool_decide (is_Some (reset_streams (streams s) !! id))) && negb (is_known_stream s id) then
      let s :=
        if (MAX_CLOSED_STREAMS <=? length (reset_unknown_order (streams s)))%nat then
          match reset_unknown_order (streams s) with
          | oldest :: q => set_reset_streams (delete oldest (reset_streams (streams s))) (set_reset_unknown_order q s)
          | [] => s
          end
        else s in
      set_reset_unknown_order (reset_unknown_order (streams s) ++ [id]) s
    else s in
  set_reset_streams (<[id := code]> (reset_streams (streams s))) s.

Definition stream_buffer (s : H2Framer) (id : Z) : option bytes :=
  if id =? STREAM_CLIENT_SERVER then Some (client_server_buf (bufs s))
  else if id =? STREAM_SERVER_CLIENT then Some (server_client_buf (bufs s))
  else stream_bufs (bufs s) !! id.
Definition stream_buffer_len (s : H2Framer) (id : Z) : Z := len (default [] (stream_buffer s id)).

Definition remove_closed_stream_tombstone (id : Z) (s : H2Framer) : H2Framer :=
  let s' := set_closed_streams (closed_streams (streams s) ∖ {[id]}) s in
  if bool_decide (id ∈ closed_streams (streams s)) && negb (is_known_stream s' id)
  then set_closed_unknown_order (filter (fun i => i <> id) (closed_unknown_order (streams s'))) s'
  else s'.

(** The buffer write of [append_stream_data] and of the drain. *)
Definition extend_buffer (id : Z) (bs : bytes) (s : H2Framer) : H2Framer :=
  if id =? STREAM_CLIENT_SERVER then set_client_server_buf (client_server_buf (bufs s) ++ bs) s
  else if id =? STREAM_SERVER_CLIENT then set_server_client_buf (server_client_buf (bufs s) ++ bs) s
  else set_stream_bufs (<[id := default [] (stream_bufs (bufs s) !! id) ++ bs]> (stream_bufs (bufs s))) s.


(** [split()] or [remove] on the stream's buffer. *)
Definition drop_stream_buffer (id : Z) (s : H2Framer) : H2Framer :=
  if id =? STREAM_CLIENT_SERVER then set_client_server_buf [] s
  else if id =? STREAM_SERVER_CLIENT then set_server_client_buf [] s
  else set_stream_bufs (delete id (stream_bufs (bufs s))) s.
(** Buffered and queued data go, and so does their share of [buffered_bytes]. *)
Definition discard_stream_data (id : Z) (s : H2Framer) : H2Framer :=
  let removed := stream_buffer_len s id in
  let s := drop_stream_buffer id s in
  let gone := filter (fun f => d_stream_id f = id) (pending_data_frames (bufs s)) in
  let removed := foldl (fun r f => Z.min usize_max (r + len (d_payload f))) removed gone in
  let s := set_pending_data_frames (filter (fun f => d_stream_id f <> id) (pending_data_frames (bufs s))) s in
  set_buffered_bytes (sat_sub (buffered_bytes (bufs s)) removed) s.
Definition clear_stream_buffer (id : Z) (s : H2Framer) : H2Framer :=
  let s := discard_stream_data id s in
  let s := remove_closed_stream_tombstone id s in
  let s := set_peer_open_streams (peer_open_streams (streams s) ∖ {[id]}) s in
  let s := set_announced_file_streams (announced_file_streams (streams s) ∖ {[id]}) s in
  let s := set_file_stream_candidates (file_stream_candidates (streams s) ∖ {[id]}) s in
  let s := set_file_stream_candidate_data (delete id (file_stream_candidate_data (streams s))) s in
  set_pending_window_updates (delete id (pending_window_updates (flow s))) s.

Definition pending_stream_buffer_len (s : H2Framer) (id : Z) : Z :=
  foldl (fun n f => Z.min usize_max (n + len (d_payload f))) 0
    (filter (fun f => d_stream_id f = id) (pending_data_frames (bufs s))).

Definition reserve_stream_buffer (id incoming : Z) : h2 unit :=
  if incoming =? 0 then mret tt else
  s ← st_get;
  if negb (is_known_stream s id) &&
     negb (bool_decide (is_Some (stream_bufs (bufs s) !! id))) &&
     negb (bool_decide (id ∈ peer_open_streams (streams s))) &&
     (MAX_UNKNOWN_BUFFERED_STREAMS <=? size (peer_open_streams (streams s)))%nat
  then st_mod (remove_closed_stream_tombstone id) ;;
       st_fail (HProtocol (Msg "too many unknown H2 streams with buffered data: limit {MAX_UNKNOWN_BUFFERED_STREAMS}" []))
  else
  let current := stream_buffer_len s id + pending_stream_buffer_len s id in
  if usize_max <? current
  then st_mod (clear_stream_buffer id) ;;
       st_fail (HProtocol (Msg "H2 stream {stream_id} buffered length overflow while adding {} pending bytes" [id; incoming])) else
  let requested := current + incoming in
  if usize_max <? requested
  then st_mod (clear_stream_buffer id) ;;
       st_fail (HProtocol (Msg "H2 stream {stream_id} buffer length overflow: current {current}, incoming {}" [id; current; incoming])) else
  if MAX_BUFFERED_BYTES_PER_STREAM <? requested
  then st_mod (clear_stream_buffer id) ;;
       st_fail (HProtocol (Msg "H2 stream {stream_id} buffer {requested} exceeds per-stream limit {MAX_BUFFERED_BYTES_PER_STREAM}" [id; requested])) else
  let total := buffered_bytes (bufs s) + incoming in
  if usize_max <? total
  then st_mod (clear_stream_buffer id) ;;
       st_fail (HProtocol (Msg "H2 buffered byte count overflow: current {}, incoming {}" [buffered_bytes (bufs s); incoming])) else
  if MAX_TOTAL_BUFFERED_BYTES <? total
  then st_mod (clear_stream_buffer id) ;;
       st_fail (HProtocol (Msg "H2 buffered bytes {total} exceed connection limit {MAX_TOTAL_BUFFERED_BYTES}" [total])) else
  st_mod (set_buffered_bytes total).

Definition append_stream_data (id : Z) (payload : bytes) : h2 unit :=
  match payload with
  | [] => mret tt
  | _ => reserve_stream_buffer id (len payload) ;; st_mod (extend_buffer id payload)
  end.

Definition unknown_active_stream_count (s : H2Framer) : nat :=
  size (peer_open_streams (streams s)) + size (file_stream_candidates (streams s)).

Definition register_file_stream_candidate (id : Z) : h2 unit :=
  s ← st_get;
  if id <=? highest_peer_stream_id (streams s)
  then st_fail (HProtocol (Msg "peer stream {stream_id} was already opened and cannot be reused" [id])) else
  if (MAX_UNKNOWN_BUFFERED_STREAMS <=? unknown_active_stream_count s)%nat
  then st_fail (HProtocol (Msg "too many pending RemoteXPC file streams: limit {MAX_UNKNOWN_BUFFERED_STREAMS}" [])) else
  st_mod (fun s => set_file_stream_candidate_data (<[id := []]> (file_stream_candidate_data (streams s)))
    (set_file_stream_candidates ({[id]} ∪ file_stream_candidates (streams s))
      (set_highest_peer_stream_id id s))).

Definition adopt_file_stream (id : Z) : h2 unit :=
  s ← st_get;
  if bool_decide (id ∈ announced_file_streams (streams s)) then mret tt else
  if (MAX_ANNOUNCED_FILE_STREAMS <=? size (announced_file_streams (streams s)))%nat
  then st_fail (HProtocol (Msg "too many announced RemoteXPC file streams: limit {MAX_ANNOUNCED_FILE_STREAMS}" [])) else
  st_mod (fun s => set_announced_file_streams ({[id]} ∪ announced_file_streams (streams s))
    (set_highest_peer_stream_id (Z.max (highest_peer_stream_id (streams s)) id) s)).

Definition track_peer_stream (id : Z) : h2 unit :=
  s ← st_get;
  if is_known_stream s id || bool_decide (id ∈ peer_open_streams (streams s)) ||
     bool_decide (id ∈ file_stream_candidates (streams s))
  then mret tt else
  if id <=? highest_peer_stream_id (streams s)
  then st_fail (HProtocol (Msg "peer stream {stream_id} was already opened and cannot be reused" [id])) else
  if (MAX_UNKNOWN_BUFFERED_STREAMS <=? unknown_active_stream_count s)%nat
  then st_fail (HProtocol (Msg "too many unknown H2 streams: limit {MAX_UNKNOWN_BUFFERED_STREAMS}" [])) else
  st_mod (fun s => set_peer_open_streams ({[id]} ∪ peer_open_streams (streams s))
    (set_highest_peer_stream_id id s)).

Definition observe_peer_headers (id : Z) : h2 unit :=
  s ← st_get;
  if is_known_stream s id || bool_decide (id ∈ peer_open_streams (streams s)) ||
     bool_decide (id ∈ file_stream_candidates (streams s))
  then mret tt
  else if id mod 2 =? 0 then register_file_stream_candidate id
  else track_peer_stream id.

Definition is_file_stream_preamble_prefix (id : Z) (payload : bytes) : bool :=
  if (id =? STREAM_INIT) || negb (id mod 2 =? 0) || (length payload <? FILE_STREAM_PREAMBLE_LEN)%nat
  then false
  else
    let magic := le_Z (take 4 payload) in
    let flags := le_Z (take 4 (drop 4 payload)) in
    let body_len := le_Z (take 8 (drop 8 payload)) in
    (magic =? Xpc.WRAPPER_MAGIC) &&
    (flags =? Z.lor Xpc.ALWAYS_SET Xpc.FILE_TX_STREAM_REQUEST) && (body_len =? 0).
Definition is_file_stream_preamble (id : Z) (payload : bytes) : bool :=
  if negb (length payload =? FILE_STREAM_PREAMBLE_LEN)%nat then false
  else is_file_stream_preamble_prefix id payload.

Definition observe_peer_data_stream (id : Z) (payload : bytes) : h2 unit :=
  s ← st_get;
  if is_known_stream s id || bool_decide (id ∈ peer_open_streams (streams s)) then mret tt else
  if bool_decide (id ∈ file_stream_candidates (streams s)) then
    let candidate := default [] (file_stream_candidate_data (streams s) !! id) in
    let prefix_len := (FILE_STREAM_PREAMBLE_LEN - length candidate)%nat in
    let candidate := candidate ++ take prefix_len payload in
    st_mod (set_file_stream_candidate_data (<[id := candidate]> (file_stream_candidate_data (streams s)))) ;;
    if (length candidate <? FILE_STREAM_PREAMBLE_LEN)%nat then mret tt else
    if negb (is_file_stream_preamble_prefix id candidate)
    then st_mod (clear_stream_buffer id) ;;
         st_fail (HProtocol (Msg "invalid RemoteXPC file-stream preamble on stream {stream_id}" [id])) else
    st_mod (fun s => set_file_stream_candidate_data (delete id (file_stream_candidate_data (streams s)))
      (set_file_stream_candidates (file_stream_candidates (streams s) ∖ {[id]}) s)) ;;
    adopt_file_stream id
  else if is_file_stream_preamble id payload then adopt_file_stream id
  else track_peer_stream id.

Definition mark_end_stream (id flags : Z) (s : H2Framer) : H2Framer :=
  if Z.land flags FLAG_END_STREAM =? 0 then s else
  let s := set_announced_file_streams (announced_file_streams (streams s) ∖ {[id]}) s in
  let s := set_file_stream_candidates (file_stream_candidates (streams s) ∖ {[id]}) s in
  let s := set_file_stream_candidate_data (delete id (file_stream_candidate_data (streams s))) s in
  let s :=
    if negb (bool_decide (id ∈ closed_streams (streams s))) && negb (is_known_stream s id) then
      let s :=
        if (MAX_CLOSED_STREAMS <=? length (closed_unknown_order (streams s)))%nat then
          match closed_unknown_order (streams s) with
          | oldest :: q => set_closed_streams (closed_streams (streams s) ∖ {[oldest]}) (set_closed_unknown_order q s)
          | [] => s
          end
        else s in
      set_closed_unknown_order (closed_unknown_order (streams s) ++ [id]) s
    else s in
  let s := set_closed_streams ({[id]} ∪ closed_streams (streams s)) s in
  let s := set_peer_open_streams (peer_open_streams (streams s) ∖ {[id]}) s in
  set_pending_window_updates (delete id (pending_window_updates (flow s))) s.

Definition drain_pending_data_frames (s : H2Framer) : H2Framer :=
  set_pending_data_frames []
    (foldl (fun s f => match d_payload f with [] => s | bs => extend_buffer (d_stream_id f) bs s end)
       s (pending_data_frames (bufs s))).

Definition take_stream_bytes (id : Z) (n : Z) : h2 bytes :=
  s ← st_get;
  if stream_buffer_len s id <? n
  then st_fail (HProtocol (Msg "stream {stream_id} has fewer than {n} buffered bytes" [id; n])) else
  let k := Z.to_nat n in
  r ← (if id =? STREAM_CLIENT_SERVER
       then st_mod (set_client_server_buf (drop k (client_server_buf (bufs s)))) ;; mret (take k (client_server_buf (bufs s)))
       else if id =? STREAM_SERVER_CLIENT
       then st_mod (set_server_client_buf (drop k (server_client_buf (bufs s)))) ;; mret (take k (server_client_buf (bufs s)))
       else match stream_bufs (bufs s) !! id with
            | Some buf => st_mod (set_stream_bufs (<[id := drop k buf]> (stream_bufs (bufs s)))) ;; mret (take k buf)
            | None => st_fail (HProtocol (Msg "stream {stream_id} not open" [id]))
            end);
  st_mod (fun s => set_buffered_bytes (sat_sub (buffered_bytes (bufs s)) n) s) ;;
  s ← st_get;
  when (negb (id =? STREAM_CLIENT_SERVER) && negb (id =? STREAM_SERVER_CLIENT) &&
        bool_decide (stream_bufs (bufs s) !! id = Some []) &&
        negb (bool_decide (id ∈ locally_open_streams (streams s))))
    (st_mod (set_stream_bufs (delete id (stream_bufs (bufs s))))) ;;
  mret r.

(** ** Control frames *)

Definition in_i64 (z : Z) : bool := (- 2 ^ 63 <=? z) && (z <? 2 ^ 63).

(** The values a SETTINGS payload announces, the last of each kind winning. *)
Fixpoint scan_settings (l : list bytes) (w f : option Z) : h2 (option Z * option Z) :=
  match l with
  | [] => mret (w, f)
  | setting :: l =>
      let id := be_Z (take 2 setting) in
      let value := be_Z (drop 2 setting) in
      if id =? SETTINGS_INITIAL_WINDOW_SIZE then
        if MAX_FLOW_CONTROL_WINDOW <? value
        then connection_protocol_error (Msg "SETTINGS_INITIAL_WINDOW_SIZE {value} exceeds {MAX_FLOW_CONTROL_WINDOW}" [value])
        else scan_settings l (Some value) f
      else if id =? SETTINGS_MAX_FRAME_SIZE then
        if negb ((MAX_FRAME_PAYLOAD <=? value) && (value <=? MAX_NEGOTIATED_FRAME_SIZE))
        then connection_protocol_error (Msg "SETTINGS_MAX_FRAME_SIZE {value} is outside {}..={MAX_NEGOTIATED_FRAME_SIZE}" [value; MAX_FRAME_PAYLOAD])
        else scan_settings l w (Some value)
      else scan_settings l w f
  end.

Fixpoint shift_windows (delta : Z) (l : list (Z * Z)) : h2 (list (Z * Z)) :=
  match l with
  | [] => mret []
  | (id, window) :: l =>
      if negb (in_i64 (window + delta))
      then connection_protocol_error (Msg "stream {stream_id} outbound window overflow applying SETTINGS_INITIAL_WINDOW_SIZE delta {delta}" [id; delta])
      else
      let value := window + delta in
      if negb ((- MAX_FLOW_CONTROL_WINDOW <=? value) && (value <=? MAX_FLOW_CONTROL_WINDOW))
      then connection_protocol_error (Msg "stream {stream_id} outbound window {value} is outside flow-control range" [id; value])
      else updated ← shift_windows delta l; mret ((id, value) :: updated)
  end.

Definition apply_initial_window (new_initial_window : Z) : h2 unit :=
  s ← st_get;
  let delta := new_initial_window - peer_initial_window_size (flow s) in
  updated ← shift_windows delta (map_to_list (outbound_stream_windows (flow s)));
  st_mod (fun s => set_peer_initial_window_size new_initial_window
    (set_outbound_stream_windows (foldl (fun m '(id, v) => <[id := v]> m) (outbound_stream_windows (flow s)) updated) s)).

Definition process_settings (flags : Z) (payload : bytes) : h2 unit :=
  if negb (Z.land flags FLAG_SETTINGS_ACK =? 0) then
    match payload with
    | [] => mret tt
    | _ => connection_protocol_error (Msg "SETTINGS ACK frame must have an empty payload" [])
    end
  else if negb (len payload mod 6 =? 0)
  then connection_protocol_error (Msg "SETTINGS payload length must be a multiple of 6, got {}" [len payload])
  else
    '(initial_window, max_frame_size) ← scan_settings (chunks 6 payload) None None;
    from_option apply_initial_window (mret tt) initial_window ;;
    from_option (fun v => st_mod (set_outbound_max_frame_size v)) (mret tt) max_frame_size ;;
    write_all_tracked build_settings_ack ;;
    flush.

Definition process_window_update (id : Z) (payload : bytes) : h2 unit :=
  if negb (len payload =? 4)
  then connection_protocol_error (Msg "WINDOW_UPDATE payload must be 4 bytes, got {}" [len payload]) else
  let increment := Z.land (be_Z payload) MAX_FLOW_CONTROL_WINDOW in
  s ← st_get;
  if increment =? 0 then
    let message := Msg "WINDOW_UPDATE for stream {stream_id} has a zero increment" [id] in
    let stream_is_known := negb (id =? STREAM_INIT) &&
      (is_known_stream s id || bool_decide (id ∈ peer_open_streams (streams s)) ||
       bool_decide (id ∈ closed_streams (streams s)) ||
       bool_decide (is_Some (reset_streams (streams s) !! id)) ||
       bool_decide (is_Some (outbound_stream_windows (flow s) !! id))) in
    if (id =? STREAM_INIT) || negb stream_is_known
    then connection_protocol_error message else st_fail (HProtocol message)
  else if id =? STREAM_INIT then
    let value := outbound_connection_window (flow s) + increment in
    if negb (in_i64 value)
    then connection_protocol_error (Msg "connection outbound window overflow adding {increment}" [increment])
    else if MAX_FLOW_CONTROL_WINDOW <? value
    then connection_protocol_error (Msg "connection outbound window {value} exceeds {MAX_FLOW_CONTROL_WINDOW}" [value])
    else st_mod (set_outbound_connection_window value)
  else
    match outbound_stream_windows (flow s) !! id with
    | None =>
        if bool_decide (id ∈ closed_streams (streams s)) || bool_decide (is_Some (reset_streams (streams s) !! id))
        then st_fail (HProtocol (Msg "WINDOW_UPDATE received for closed stream {stream_id}" [id]))
        else if bool_decide (id ∈ peer_open_streams (streams s)) ||
                bool_decide (id ∈ announced_file_streams (streams s)) ||
                bool_decide (id ∈ file_stream_candidates (streams s))
        then mret tt
        else connection_protocol_error (Msg "WINDOW_UPDATE received for unopened stream {stream_id}" [id])
    | Some window =>
        let value := window + increment in
        if negb (in_i64 value)
        then connection_protocol_error (Msg "stream {stream_id} outbound window overflow adding {increment}" [id; increment])
        else if MAX_FLOW_CONTROL_WINDOW <? value
        then connection_protocol_error (Msg "stream {stream_id} outbound window {value} exceeds {MAX_FLOW_CONTROL_WINDOW}" [id; value])
        else st_mod (fun s => set_outbound_stream_windows (<[id := value]> (outbound_stream_windows (flow s))) s)
    end.

Definition process_goaway (id : Z) (payload : bytes) : h2 unit :=
  if negb (id =? STREAM_INIT) then connection_protocol_error (Msg "GOAWAY frame must use stream 0" []) else
  if len payload <? 8
  then connection_protocol_error (Msg "GOAWAY payload must be at least 8 bytes, got {}" [len payload]) else
  let last := Z.land (be_Z (take 4 payload)) MAX_FLOW_CONTROL_WINDOW in
  let code := be_Z (take 4 (drop 4 payload)) in
  s ← st_get;
  let report := if negb (code =? 0)
                then connection_protocol_error (Msg "peer sent GOAWAY with error code {error_code}" [code])
                else mret tt in
  match goaway (streams s) with
  | Some previous =>
      if last_stream_id previous <? last
      then connection_protocol_error (Msg "GOAWAY last stream {last_stream_id} exceeds previous {}" [last; last_stream_id previous])
      else if last_stream_id previous <=? last then report
      else st_mod (set_goaway (Some (mkGoAway last code))) ;; report
  | None => st_mod (set_goaway (Some (mkGoAway last code))) ;; report
  end.

(** [for frame in &frames { self.write_all_tracked(frame).await? }] *)
Fixpoint write_all_frames (l : list bytes) : h2 unit :=
  match l with
  | [] => mret tt
  | f :: l => write_all_tracked f ;; write_all_frames l
  end.

Definition replenish_receive_window (id : Z) (consumed : Z) : h2 unit :=
  ensure_connection_open ;;
  if consumed =? 0 then mret tt else
  if u32_max <? consumed
  then connection_protocol_error (Msg "received DATA length {consumed} does not fit in a WINDOW_UPDATE" [consumed]) else
  s ← st_get;
  let pend i := default 0 (pending_window_updates (flow s) !! i) in
  let connection_total := pend STREAM_INIT + consumed in
  if u32_max <? connection_total
  then connection_protocol_error (Msg "connection WINDOW_UPDATE pending count overflow: {connection_pending} + {consumed}" [pend STREAM_INIT; consumed]) else
  let stream_total := if id =? STREAM_INIT then 0 else pend id + consumed in
  if negb (id =? STREAM_INIT) && (u32_max <? stream_total)
  then connection_protocol_error (Msg "stream {stream_id} WINDOW_UPDATE pending count overflow: {stream_pending} + {consumed}" [id; pend id; consumed]) else
  let due_conn := WINDOW_UPDATE_THRESHOLD <=? connection_total in
  let due_stream := negb (id =? STREAM_INIT) && (WINDOW_UPDATE_THRESHOLD <=? stream_total) in
  let frames := (if due_conn then [build_window_update_frame STREAM_INIT connection_total] else []) ++
                (if due_stream then [build_window_update_frame id stream_total] else []) in
  st_mod (fun s => set_pending_window_updates
    (<[STREAM_INIT := if due_conn then 0 else connection_total]> (pending_window_updates (flow s))) s) ;;
  when (negb (id =? STREAM_INIT))
    (st_mod (fun s => set_pending_window_updates
      (<[id := if due_stream then 0 else stream_total]> (pending_window_updates (flow s))) s)) ;;
  match frames with
  | [] => mret tt
  | _ =>
      st_mod (set_window_update_in_progress true) ;;
      write_all_frames frames ;;
      flush ;;
      st_mod (set_window_update_in_progress false)
  end.

(** ** Dispatch *)

Definition process_data (f : RawFrame) : h2 unit :=
  if stream_id f =? STREAM_INIT
  then connection_protocol_error (Msg "DATA frame is not valid on stream 0" []) else
  ensure_incoming_stream_available (stream_id f) ;;
  observe_peer_data_stream (stream_id f) (payload f) ;;
  append_stream_data (stream_id f) (payload f) ;;
  st_mod (mark_end_stream (stream_id f) (flags f)) ;;
  replenish_receive_window (stream_id f) (len (payload f)).

Definition process_headers (f : RawFrame) : h2 unit :=
  if stream_id f =? STREAM_INIT
  then connection_protocol_error (Msg "HEADERS frame is not valid on stream 0" []) else
  ensure_incoming_stream_available (stream_id f) ;;
  observe_peer_headers (stream_id f) ;;
  st_mod (mark_end_stream (stream_id f) (flags f)).

Definition process_rst_stream (f : RawFrame) : h2 unit :=
  let id := stream_id f in
  if id =? STREAM_INIT
  then connection_protocol_error (Msg "RST_STREAM frame is not valid on stream 0" []) else
  if negb (len (payload f) =? 4)
  then connection_protocol_error (Msg "RST_STREAM payload must be 4 bytes, got {}" [len (payload f)]) else
  s ← st_get;
  if negb (is_known_stream s id) && negb (bool_decide (id ∈ peer_open_streams (streams s))) &&
     negb (bool_decide (id ∈ file_stream_candidates (streams s))) &&
     negb (bool_decide (id ∈ closed_streams (streams s))) &&
     negb (bool_decide (is_Some (reset_streams (streams s) !! id)))
  then connection_protocol_error (Msg "RST_STREAM received for idle stream {}" [id]) else
  let code := be_Z (take 4 (payload f)) in
  st_mod (clear_stream_buffer id) ;;
  st_mod (fun s => set_outbound_stream_windows (delete id (outbound_stream_windows (flow s))) s) ;;
  st_mod (record_reset_stream id code).

Definition dispatch_frame_inner (f : RawFrame) : h2 unit :=
  let t := frame_type f in
  if t =? FRAME_DATA then process_data f
  else if t =? FRAME_HEADERS then process_headers f
  else if t =? FRAME_SETTINGS then
    if negb (stream_id f =? STREAM_INIT)
    then connection_protocol_error (Msg "SETTINGS frame must use stream 0" [])
    else process_settings (flags f) (payload f)
  else if t =? FRAME_WINDOW_UPDATE then process_window_update (stream_id f) (payload f)
  else if t =? FRAME_RST_STREAM then process_rst_stream f
  else if t =? FRAME_GOAWAY then process_goaway (stream_id f) (payload f)
  else mret tt.
Definition dispatch_frame (f : RawFrame) : h2 unit :=
  ensure_connection_open ;; dispatch_frame_inner f.

Definition queue_incoming_data_frame (f : RawFrame) : h2 unit :=
  if stream_id f =? STREAM_INIT
  then connection_protocol_error (Msg "DATA frame is not valid on stream 0" []) else
  ensure_incoming_stream_available (stream_id f) ;;
  observe_peer_data_stream (stream_id f) (payload f) ;;
  s ← st_get;
  if (MAX_PENDING_DATA_FRAMES <=? length (pending_data_frames (bufs s)))%nat
  then connection_protocol_error (Msg "too many pending DATA frames while waiting for outbound capacity: limit {MAX_PENDING_DATA_FRAMES}" []) else
  reserve_stream_buffer (stream_id f) (len (payload f)) ;;
  st_mod (fun s => set_pending_data_frames
    (pending_data_frames (bufs s) ++ [mkData (stream_id f) (flags f) (payload f)]) s) ;;
  st_mod (mark_end_stream (stream_id f) (flags f)) ;;
  replenish_receive_window (stream_id f) (len (payload f)).

(** ** Loops that wait for the peer

    Every round reads a frame and so at least one byte; [S (rx_bytes s)] rounds
    are enough. *)
Definition rx_bytes (s : H2Framer) : nat := sum_list_with event_bytes (rx (io s)).
Definition loop_fuel (s : H2Framer) : nat := S (rx_bytes s).

Fixpoint settings_loop (fuel : nat) : h2 unit :=
  match fuel with
  | O => st_lift OutOfFuel
  | S fuel =>
      f ← read_raw_frame;
      dispatch_frame f ;;
      if (frame_type f =? FRAME_SETTINGS) && (Z.land (flags f) FLAG_SETTINGS_ACK =? 0)
      then mret tt else settings_loop fuel
  end.
Definition read_until_settings_ack_needed : h2 unit :=
  s ← st_get; settings_loop (loop_fuel s).

(** [AsyncWriteExt::write_all] on the bare stream, before the framer takes it over:
    nothing is retained when it stops early. *)
Fixpoint write_all_loop (fuel : nat) (bs : bytes) : h2 unit :=
  match bs with
  | [] => mret tt
  | _ =>
      match fuel with
      | O => st_lift OutOfFuel
      | S fuel =>
          n ← sock_write bs;
          match n with O => st_fail HIo | _ => write_all_loop fuel (drop n bs) end
      end
  end.
Definition write_all (bs : bytes) : h2 unit := write_all_loop (length bs) bs.

(** Steps 1 to 3 of the handshake. *)
Definition opening_settings : bytes :=
  build_settings_frame [(SETTINGS_MAX_CONCURRENT_STREAMS, 100); (SETTINGS_INITIAL_WINDOW_SIZE, INITIAL_WINDOW_SIZE)].
Definition opening_window : bytes := build_window_update_frame STREAM_INIT INITIAL_WINDOW_INCREMENT.
Definition send_opening : h2 unit :=
  write_all H2_PREFACE ;; write_all opening_settings ;; write_all opening_window ;; flush.

(** [Self::new] only adds fresh fields to the stream, so the handshake starts from
    them. A framer exists only when the outcome is [Ok]. *)
Definition connect (rx : list rx_event) (wr : list wr_event) : H2Framer * outcome H2Error unit :=
  (send_opening ;; read_until_settings_ack_needed) (new rx wr []).

(** [tokio::time::timeout]: where the socket makes no progress, the deadline passes. *)
Definition timeout {A} (m : h2 A) : h2 A := fun s =>
  match m s with (s', Pending) => (s', Err HIo) | r => r end.
Definition connect_with_deadline (rx : list rx_event) (wr : list wr_event) : H2Framer * outcome H2Error unit :=
  (timeout send_opening ;; timeout read_until_settings_ack_needed) (new rx wr []).

Fixpoint read_stream_loop (fuel : nat) (id n : Z) : h2 unit :=
  s ← st_get;
  if n <=? stream_buffer_len s id then mret tt else
  match fuel with
  | O => st_lift OutOfFuel
  | S fuel =>
      ensure_stream_available id ;;
      if bool_decide (id ∈ closed_streams (streams s))
      then st_fail (HProtocol (Msg "stream {stream_id} ended before {n} bytes were available" [id; n])) else
      ensure_peer_stream_not_reused id ;;
      f ← read_raw_frame;
      dispatch_frame f ;;
      read_stream_loop fuel id n
  end.
Definition read_stream (id n : Z) : h2 bytes :=
  ensure_stream_available id ;;
  finish_pending_write ;;
  ensure_peer_stream_not_reused id ;;
  st_mod drain_pending_data_frames ;;
  s ← st_get;
  read_stream_loop (loop_fuel s) id n ;;
  take_stream_bytes id n.
Definition read_server_client (n : Z) : h2 bytes := read_stream STREAM_SERVER_CLIENT n.
Definition read_client_server (n : Z) : h2 bytes := read_stream STREAM_CLIENT_SERVER n.

Definition pop_data_frame : h2 (option DataFrame) :=
  s ← st_get;
  match pending_data_frames (bufs s) with
  | f :: q =>
      st_mod (fun s => set_buffered_bytes (sat_sub (buffered_bytes (bufs s)) (len (d_payload f)))
        (set_pending_data_frames q s)) ;;
      mret (Some f)
  | [] => mret None
  end.

Fixpoint next_data_loop (fuel : nat) : h2 DataFrame :=
  match fuel with
  | O => st_lift OutOfFuel
  | S fuel =>
      f ← read_raw_frame;
      if frame_type f =? FRAME_DATA then
        if stream_id f =? STREAM_INIT
        then connection_protocol_error (Msg "DATA frame is not valid on stream 0" []) else
        queue_incoming_data_frame f ;;
        r ← pop_data_frame;
        match r with Some d => mret d | None => st_lift Panic end
      else if frame_type f =? FRAME_GOAWAY then
        dispatch_frame f ;;
        s ← st_get;
        match goaway (streams s) with
        | Some g => if negb (error_code g =? 0)
                    then st_fail (HProtocol (Msg "peer sent GOAWAY with error code {}" [error_code g]))
                    else next_data_loop fuel
        | None => next_data_loop fuel
        end
      else if frame_type f =? FRAME_RST_STREAM then
        dispatch_frame f ;;
        s ← st_get;
        st_fail (HProtocol (Msg "stream {stream_id} was reset by peer (error code {error_code})"
                   [stream_id f; default 0 (reset_streams (streams s) !! stream_id f)]))
      else dispatch_frame f ;; next_data_loop fuel
  end.
Definition read_next_data_frame : h2 DataFrame :=
  ensure_connection_open ;;
  finish_pending_write ;;
  r ← pop_data_frame;
  match r with
  | Some d => mret d
  | None => s ← st_get; next_data_loop (loop_fuel s)
  end.

(** ** Choosing a stream with a complete XPC message *)

Definition buffered_stream_ids (s : H2Framer) : list Z :=
  merge_sort Z.le
    ((match client_server_buf (bufs s) with [] => [] | _ => [STREAM_CLIENT_SERVER] end) ++
     (match server_client_buf (bufs s) with [] => [] | _ => [STREAM_SERVER_CLIENT] end) ++
     (filter (fun kv => snd kv <> []) (map_to_list (stream_bufs (bufs s)))).*1).

Definition stream_has_ready_xpc_message (s : H2Framer) (id : Z) : outcome H2Error bool :=
  match stream_buffer s id with
  | None => Ok false
  | Some buffer =>
      if len buffer <? 24 then Ok false else
      let magic := le_Z (take 4 buffer) in
      if negb (magic =? Xpc.WRAPPER_MAGIC) then Ok true else
      let flags := le_Z (take 4 (drop 4 buffer)) in
      let declared_body_len := le_Z (take 8 (drop 8 buffer)) in
      match Xpc.checked_xpc_body_len declared_body_len (Xpc.xpc_body_limit_for_flags flags) with
      | Ok body_len =>
          let total_len := 24 + body_len in
          if usize_max <? total_len
          then Err (HProtocol (Msg "XPC message length overflow while selecting a stream" [])) else
          let buffered_message_limit := MAX_BUFFERED_BYTES_PER_STREAM - MAX_FRAME_PAYLOAD in
          Ok ((total_len <=? len buffer) || (buffered_message_limit <? total_len))
      | Err m => Err (HProtocol m)
      | _ => Panic
      end
  end.

Fixpoint first_ready (s : H2Framer) (l : list Z) : outcome H2Error (option Z) :=
  match l with
  | [] => Ok None
  | id :: l => r ← stream_has_ready_xpc_message s id; if r : bool then Ok (Some id) else first_ready s l
  end.
Definition first_ready_xpc_stream : h2 (option Z) :=
  s ← st_get; st_lift (first_ready s (buffered_stream_ids s)).

Fixpoint first_unfinished (s : H2Framer) (l : list Z) : outcome H2Error (option Z) :=
  match l with
  | [] => Ok None
  | id :: l =>
      match stream_buffer s id with
      | None | Some [] => first_unfinished s l
      | Some _ =>
          r ← stream_has_ready_xpc_message s id;
          if r : bool then first_unfinished s l else Ok (Some id)
      end
  end.
Definition first_unfinished_closed_stream : h2 (option Z) :=
  s ← st_get; st_lift (first_unfinished s (merge_sort Z.le (elements (closed_streams (streams s))))).

Definition select_stream : h2 (option Z) :=
  r ← first_ready_xpc_stream;
  match r with
  | Some id => mret (Some id)
  | None => first_unfinished_closed_stream
  end.

Fixpoint buffer_loop (fuel : nat) : h2 Z :=
  match fuel with
  | O => st_lift OutOfFuel
  | S fuel =>
      f ← read_raw_frame;
      dispatch_frame f ;;
      r ← select_stream;
      match r with Some id => mret id | None => buffer_loop fuel end
  end.
Definition buffer_next_data_stream : h2 Z :=
  ensure_connection_open ;;
  finish_pending_write ;;
  st_mod drain_pending_data_frames ;;
  r ← select_stream;
  match r with
  | Some id => mret id
  | None => s ← st_get; buffer_loop (loop_fuel s)
  end.

(** ** Sending *)

Definition stream_already_open (s : H2Framer) (id : Z) : bool :=
  if id =? STREAM_CLIENT_SERVER then client_server_open (streams s)
  else if id =? STREAM_SERVER_CLIENT then server_client_open (streams s)
  else bool_decide (id ∈ locally_open_streams (streams s)).

(** The state change after the HEADERS frame went out. *)
Definition mark_stream_open (id : Z) (s : H2Framer) : H2Framer :=
  let s := set_outbound_stream_windows
    (<[id := peer_initial_window_size (flow s)]> (outbound_stream_windows (flow s))) s in
  let s :=
    if id =? STREAM_CLIENT_SERVER then set_client_server_open true s
    else if id =? STREAM_SERVER_CLIENT then set_server_client_open true s
    else
      let s := set_locally_open_streams ({[id]} ∪ locally_open_streams (streams s)) s in
      let s := set_peer_open_streams (peer_open_streams (streams s) ∖ {[id]}) s in
      let s := set_announced_file_streams (announced_file_streams (streams s) ∖ {[id]}) s in
      let s := set_file_stream_candidates (file_stream_candidates (streams s) ∖ {[id]}) s in
      let s := set_file_stream_candidate_data (delete id (file_stream_candidate_data (streams s))) s in
      set_stream_bufs (<[id := default [] (stream_bufs (bufs s) !! id)]> (stream_bufs (bufs s))) s in
  set_open_stream_in_progress None s.

Definition open_stream (id : Z) : h2 unit :=
  ensure_connection_open ;;
  finish_pending_write ;;
  if (id =? STREAM_INIT) || (MAX_FLOW_CONTROL_WINDOW <? id)
  then connection_protocol_error (Msg "invalid local stream ID {stream_id}" [id]) else
  ensure_stream_available id ;;
  s ← st_get;
  if bool_decide (id ∈ closed_streams (streams s))
  then st_fail (HProtocol (Msg "cannot open stream {stream_id} after peer END_STREAM" [id])) else
  if stream_already_open s id then mret tt else
  match goaway (streams s) with
  | Some g => st_fail (HProtocol (Msg "cannot open stream {stream_id} after peer GOAWAY (last stream {}, error code {})"
                [id; last_stream_id g; error_code g]))
  | None =>
      st_mod (set_open_stream_in_progress (Some id)) ;;
      write_all_tracked (build_headers_frame id) ;;
      flush ;;
      st_mod (mark_stream_open id)
  end.

Definition outbound_budget (id : Z) : h2 Z :=
  ensure_stream_available id ;;
  s ← st_get;
  match outbound_stream_windows (flow s) !! id with
  | None => st_fail (HProtocol (Msg "stream {stream_id} is not open for sending" [id]))
  | Some w =>
      let cw := outbound_connection_window (flow s) in
      if (cw <=? 0) || (w <=? 0) then mret 0
      else mret (Z.min (Z.min (outbound_max_frame_size (flow s)) cw) w)
  end.

Definition consume_outbound_window (id amount : Z) : h2 unit :=
  if negb (in_i64 amount)
  then connection_protocol_error (Msg "outbound DATA length {amount} exceeds i64" [amount]) else
  s ← st_get;
  match outbound_stream_windows (flow s) !! id with
  | None => st_fail (HProtocol (Msg "stream {stream_id} is not open for sending" [id]))
  | Some w =>
      if (outbound_connection_window (flow s) <? amount) || (w <? amount)
      then connection_protocol_error (Msg "outbound DATA length {amount} exceeds stream {stream_id} or connection window" [amount; id])
      else st_mod (fun s => set_outbound_stream_windows (<[id := w - amount]> (outbound_stream_windows (flow s)))
             (set_outbound_connection_window (outbound_connection_window (flow s) - amount) s))
  end.

Fixpoint capacity_loop (fuel : nat) (id : Z) : h2 unit :=
  ensure_stream_available id ;;
  b ← outbound_budget id;
  if 0 <? b then mret tt else
  match fuel with
  | O => st_lift OutOfFuel
  | S fuel =>
      flush ;;
      f ← read_raw_frame;
      (if frame_type f =? FRAME_DATA then queue_incoming_data_frame f else dispatch_frame f) ;;
      capacity_loop fuel id
  end.
Definition wait_for_outbound_capacity (id : Z) : h2 unit :=
  s ← st_get; capacity_loop (loop_fuel s) id.

(** [data] is what is left after [offset]. After a wait the budget is positive, so
    two rounds per byte are enough. *)
Fixpoint write_data_loop (fuel : nat) (id : Z) (data : bytes) : h2 unit :=
  match data with
  | [] => mret tt
  | _ =>
      match fuel with
      | O => st_lift OutOfFuel
      | S fuel =>
          ensure_stream_available id ;;
          budget ← outbound_budget id;
          if budget =? 0 then wait_for_outbound_capacity id ;; write_data_loop fuel id data
          else
            let n := Z.to_nat (Z.min budget (len data)) in
            let chunk := take n data in
            consume_outbound_window id (len chunk) ;;
            write_all_tracked (build_data_frame id chunk) ;;
            write_data_loop fuel id (drop n data)
      end
  end.
Definition write_stream (id : Z) (data : bytes) : h2 unit :=
  open_stream id ;;
  ensure_stream_available id ;;
  (match data with
   | [] => write_all_tracked (build_data_frame id data)
   | _ => write_data_loop (2 * length data) id data
   end) ;;
  flush.
Definition write_client_server (data : bytes) : h2 unit := write_stream STREAM_CLIENT_SERVER data.
Definition write_server_client (data : bytes) : h2 unit := write_stream STREAM_SERVER_CLIENT data.

End H2.
