(* ===== verification/H2Read.v ===== *)
(** Reading frames of the raw HTTP/2 framer
    ([crates/ios-core/src/xpc/h2_raw.rs], [read_raw_frame]).

    A reader may be dropped at any await. The theorem at the end says that this
    loses nothing: whatever way the socket cuts a frame into pieces and however
    often the reader is dropped on the way, calling it again yields the frame the
    peer built and leaves the next one unread. *)

From S2P Require Import Prelude XpcMessage H2Framer.

Module H2Read.
Import H2.

(** ** Schedules of a healthy socket *)

Lemma sock_read_spec k s (Q : bytes -> H2Framer -> Prop) (R T : H2Framer -> Prop) :
  Forall event_ok (rx (io s)) -> data (rx (io s)) <> [] -> (0 < k)%nat ->
  (forall bs r, bs <> [] -> (length bs <= k)%nat -> data (rx (io s)) = bs ++ data r -> Forall event_ok r ->
     (stalls r <= stalls (rx (io s)))%nat -> Q bs (set_rx r s)) ->
  (forall r, data r = data (rx (io s)) -> Forall event_ok r -> (stalls r < stalls (rx (io s)))%nat -> T (set_rx r s)) ->
  wpx (sock_read k) Q R T s.
Proof.
  intros Hok Hd Hk HQ HT. unfold wpx, sock_read.
  destruct (rx (io s)) as [|[bs| |] r] eqn:E; [done| | |]; inversion Hok as [|? ? Hev Hok']; subst; simpl in Hev.
  - destruct bs as [|b bs]; [done|]. set (c := b :: bs) in *. destruct (length c <=? k)%nat eqn:El.
    + apply HQ; try done. apply Nat.leb_le in El. done.
    + apply Nat.leb_gt in El. apply HQ.
      * destruct k; [lia|]. done.
      * rewrite length_take. lia.
      * unfold data. cbn [map concat event_data]. rewrite app_assoc, take_drop. done.
      * constructor; [|done]. intros Hn%(f_equal length). rewrite length_drop in Hn. change (length (@nil byte)) with 0%nat in Hn. lia.
      * unfold stalls. simpl. lia.
  - apply HT; [done|done|]. unfold stalls. simpl. lia.
  - done.
Qed.

(** ** Frames on the wire *)

Definition frame_ok (f : RawFrame) : Prop :=
  in_u 8 (frame_type f) /\ in_u 8 (flags f) /\ in_u 31 (stream_id f) /\ len (payload f) <= MAX_FRAME_PAYLOAD.
Definition frame_wire (f : RawFrame) : bytes := build_frame (frame_type f) (flags f) (stream_id f) (payload f).
Definition meta_of (f : RawFrame) : Z * Z * Z * Z := (frame_type f, flags f, stream_id f, len (payload f)).
Definition header_of (f : RawFrame) : bytes := take 9 (frame_wire f).

Lemma frame_wire_split f : frame_wire f = header_of f ++ payload f.
Proof. reflexivity. Qed.
Lemma length_header_of f : length (header_of f) = 9%nat.
Proof. reflexivity. Qed.

Lemma length_bytes_24 n :
  0 <= n < 2 ^ 24 ->
  Z.lor (Z.lor (Z.shiftl (Z.land (Z.shiftr n 16) 0xFF mod 256) 16) (Z.shiftl (Z.land (Z.shiftr n 8) 0xFF mod 256) 8))
    (Z.land n 0xFF mod 256) = n.
Proof.
  intros Hn. change 0xFF with (Z.ones 8). rewrite !Z.land_ones by lia.
  rewrite !Z.shiftr_div_pow2, !Z.shiftl_mul_pow2 by lia.
  change (2 ^ 8) with 256. change (2 ^ 16) with 65536. rewrite !Zmod_mod.
  rewrite (Z.mod_small (n / 65536)) by (Z.div_mod_to_equations; lia).
  pose proof (lor_low 16 (n / 65536) ((n / 256) mod 256 * 256)) as H1. change (2 ^ 16) with 65536 in H1.
  rewrite H1 by (Z.div_mod_to_equations; lia). clear H1.
  pose proof (lor_low 8 (n / 256) (n mod 256)) as H2. change (2 ^ 8) with 256 in H2.
  replace (n / 65536 * 65536 + (n / 256) mod 256 * 256) with (n / 256 * 256) by (Z.div_mod_to_equations; lia).
  rewrite H2 by (Z.div_mod_to_equations; lia). Z.div_mod_to_equations; lia.
Qed.

Lemma frame_meta_header f s :
  frame_ok f -> partial_header (rd s) = header_of f -> pending_frame_meta (rd s) = None ->
  frame_meta s = (set_pending_frame_meta (Some (meta_of f)) s, Ok (meta_of f)).
Proof.
  intros (Ht & Hf & Hid & Hl) Hh Hm. unfold frame_meta. rewrite st_bind_get, Hm, Hh.
  assert (be_bytes 4 (Z.land (stream_id f) 0x7FFFFFFF) = be_bytes 4 (stream_id f)) as Hbe.
  { change 0x7FFFFFFF with (Z.ones 31). rewrite Z.land_ones, Z.mod_small by (done || lia). done. }
  set (n := len (payload f)) in *. assert (0 <= n) by apply len_nonneg. unfold MAX_FRAME_PAYLOAD in *.
  unfold mbind, st_bind, st_lift.
  change (header_of f) with ([bZ (Z.land (Z.shiftr n 16) 0xFF); bZ (Z.land (Z.shiftr n 8) 0xFF); bZ (Z.land n 0xFF);
    bZ (frame_type f); bZ (flags f)] ++ be_bytes 4 (Z.land (stream_id f) 0x7FFFFFFF)).
  rewrite Hbe. cbn [app index lookup list_lookup].
  match goal with |- context [slice ?l 5 9] =>
    assert (slice l 5 9 = Ok (E := H2Error) (be_bytes 4 (stream_id f))) as -> by reflexivity end.
  rewrite !Zb_bZ, length_bytes_24 by lia. rewrite (proj2 (Z.ltb_ge _ _)) by lia.
  unfold st_mod, mret, st_ret, meta_of. fold n.
  rewrite (be_Z_be_bytes_u 4 32) by (done || (unfold in_u in *; lia)).
  change 0x7FFFFFFF with (Z.ones 31). rewrite Z.land_ones, !Z.mod_small by (done || (unfold in_u in *; lia)). done.
Qed.

(** ** Progress of one frame

    [at_read s0 r h m b] is [s0] with the reader in the given position; reading
    touches nothing else. *)
Definition at_read (s0 : H2Framer) (r : list rx_event) (h : bytes) (m : option (Z * Z * Z * Z)) (b : option bytes)
  : H2Framer :=
  mkFramer (mkIo r (wr (io s0)) (tx (io s0)) (pending_write (io s0))) (mkRd h m b)
    (bufs s0) (streams s0) (flow s0) (ctl s0).

Lemma prefix_of_app (q tl bs d : bytes) :
  q ++ tl = bs ++ d -> (length bs <= length q)%nat -> exists q', q = bs ++ q' /\ d = q' ++ tl.
Proof.
  intros H Hl. apply app_eq_inv in H as [(k & -> & ->)|(k & -> & ->)]; [eauto|].
  exists []. rewrite length_app in Hl. destruct k; simpl in Hl; [|lia]. by rewrite !app_nil_r.
Qed.

Section one_frame.
Context (f : RawFrame) (rest : bytes) (s0 : H2Framer) (Hf : frame_ok f).

Lemma fill_header_reads fuel r h q tl :
  (length q <= fuel)%nat -> (length h + length q = 9)%nat -> Forall event_ok r -> data r = q ++ tl ->
  wpx (fill_header fuel)
    (fun _ s' => exists r', s' = at_read s0 r' (h ++ q) None None /\ data r' = tl /\ Forall event_ok r' /\
       (stalls r' <= stalls r)%nat)
    (fun _ => False)
    (fun s' => exists r' h' q', s' = at_read s0 r' h' None None /\ h ++ q = h' ++ q' /\ q' <> [] /\
       data r' = q' ++ tl /\ Forall event_ok r' /\ (stalls r' < stalls r)%nat)
    (at_read s0 r h None None).
Proof.
  revert r h q. induction fuel as [|fuel IH]; intros r h q Hq Hl Hok Hd; cbn [fill_header]; wpx_step; apply wpx_get.
  - destruct q; [|simpl in Hq; lia]. simpl in Hl. cbn [at_read rd partial_header].
    rewrite (proj2 (Nat.leb_le 9 (length h))) by lia. wpx_steps. exists r. rewrite app_nil_r. done.
  - cbn [at_read rd partial_header]. destruct q as [|x q].
    { simpl in Hl. rewrite (proj2 (Nat.leb_le 9 (length h))) by lia. wpx_steps. exists r. rewrite app_nil_r. done. }
    set (q0 := x :: q) in *. assert (0 < length q0)%nat by (simpl; lia).
    rewrite (proj2 (Nat.leb_gt 9 (length h))) by lia. wpx_step. unfold header_read. wpx_steps.
    cbn [at_read rd partial_header]. apply sock_read_spec; [done|change (data r <> []); by rewrite Hd|lia| |].
    + intros bs r' Hne Hbl Hdr Hok' Hst. cbn [io rx at_read] in Hdr, Hst. rewrite Hd in Hdr.
      apply prefix_of_app in Hdr as (q' & Hq' & Hdr'); [|lia].
      destruct bs as [|y bs]; [done|]. set (bs0 := y :: bs) in *. wpx_steps.
      assert (length q0 = length bs0 + length q')%nat as Hlen by (rewrite Hq', length_app; done).
      assert (0 < length bs0)%nat by (simpl; lia).
      eapply wpx_mono; [apply (IH r' (h ++ bs0) q'); [lia|rewrite length_app; lia|done|done]| | |].
      * intros _ s' (r'' & -> & Hd'' & Hok'' & Hst''). exists r''. rewrite Hq', app_assoc. split_and!; try done. lia.
      * done.
      * intros s' (r'' & h'' & q'' & -> & Hh & Hne' & Hd'' & Hok'' & Hst''). exists r'', h'', q''.
        rewrite Hq', app_assoc. split_and!; try done. lia.
    + intros r' Hd' Hok' Hst. exists r', h, q0. cbn [io rx at_read] in *. rewrite <- Hd. done.
Qed.

Lemma fill_payload_reads fuel r h m b q tl n :
  (length q <= fuel)%nat -> n = len b + len q -> Forall event_ok r -> data r = q ++ tl ->
  wpx (fill_payload fuel n)
    (fun _ s' => exists r', s' = at_read s0 r' h m (Some (b ++ q)) /\ data r' = tl /\ Forall event_ok r' /\
       (stalls r' <= stalls r)%nat)
    (fun _ => False)
    (fun s' => exists r' b' q', s' = at_read s0 r' h m (Some b') /\ b ++ q = b' ++ q' /\ q' <> [] /\
       data r' = q' ++ tl /\ Forall event_ok r' /\ (stalls r' < stalls r)%nat)
    (at_read s0 r h m (Some b)).
Proof.
  revert r b q. induction fuel as [|fuel IH]; intros r b q Hq Hn Hok Hd; cbn [fill_payload]; wpx_step; apply wpx_get;
    cbn [at_read rd payload_buf from_option id].
  - destruct q; [|simpl in Hq; lia]. change (len (@nil byte)) with 0 in Hn.
    rewrite (proj2 (Z.leb_le n (len b))) by lia. wpx_steps. exists r. rewrite app_nil_r. done.
  - destruct q as [|x q].
    { change (len (@nil byte)) with 0 in Hn.
      rewrite (proj2 (Z.leb_le n (len b))) by lia. wpx_steps. exists r. rewrite app_nil_r. done. }
    set (q0 := x :: q) in *. assert (0 < length q0)%nat by (simpl; lia).
    rewrite (proj2 (Z.leb_gt n (len b))) by (unfold len in *; lia). wpx_step. unfold payload_read. wpx_steps.
    cbn [at_read rd payload_buf from_option id]. apply sock_read_spec; [done|change (data r <> []); by rewrite Hd|unfold len in *; lia| |].
    + intros bs r' Hne Hbl Hdr Hok' Hst. cbn [io rx at_read] in Hdr, Hst. rewrite Hd in Hdr.
      apply prefix_of_app in Hdr as (q' & Hq' & Hdr'); [|unfold len in *; lia].
      destruct bs as [|y bs]; [done|]. set (bs0 := y :: bs) in *. wpx_steps.
      assert (length q0 = length bs0 + length q')%nat as Hlen by (rewrite Hq', length_app; done).
      assert (0 < length bs0)%nat by (simpl; lia).
      eapply wpx_mono; [apply (IH r' (b ++ bs0) q'); [lia|rewrite len_app; unfold len in *; lia|done|done]| | |].
      * intros _ s' (r'' & -> & Hd'' & Hok'' & Hst''). exists r''. rewrite Hq', app_assoc. split_and!; try done. lia.
      * done.
      * intros s' (r'' & b'' & q'' & -> & Hh & Hne' & Hd'' & Hok'' & Hst''). exists r'', b'', q''.
        rewrite Hq', app_assoc. split_and!; try done. lia.
    + intros r' Hd' Hok' Hst. exists r', b, q0. cbn [io rx at_read] in *. rewrite <- Hd. done.
Qed.

Context (Hw : pending_write (io s0) = None)
  (Hopen : connection_error (ctl s0) = None /\ open_stream_in_progress (ctl s0) = None /\
           window_update_in_progress (ctl s0) = false).

(** Where an interrupted read of [f] may stand: the header is incomplete, or it
    is parsed and payload bytes are missing. *)
Inductive progress (r : list rx_event) : bytes -> option (Z * Z * Z * Z) -> option bytes -> Prop :=
| in_header h q :
    header_of f = h ++ q -> data r = q ++ payload f ++ rest -> progress r h None None
| in_payload b q :
    payload f = default [] b ++ q -> 0 < len (payload f) -> data r = q ++ rest ->
    progress r (header_of f) (Some (meta_of f)) b.

Definition completed (k : nat) (f' : RawFrame) (s' : H2Framer) : Prop :=
  f' = f /\ exists r', s' = at_read s0 r' [] None None /\ data r' = rest /\ Forall event_ok r' /\ (stalls r' <= k)%nat.
Definition interrupted (k : nat) (s' : H2Framer) : Prop :=
  exists r' h' m' b', s' = at_read s0 r' h' m' b' /\ progress r' h' m' b' /\ Forall event_ok r' /\ (stalls r' < k)%nat.

Lemma read_payload_reads r b q :
  payload f = default [] b ++ q -> data r = q ++ rest -> Forall event_ok r ->
  wpx (read_payload (len (payload f)))
    (fun bs s' => bs = payload f /\ exists r', s' = at_read s0 r' (header_of f) (Some (meta_of f))
         (if 0 <? len (payload f) then None else b) /\
       data r' = rest /\ Forall event_ok r' /\ (stalls r' <= stalls r)%nat)
    (fun _ => False) (interrupted (stalls r))
    (at_read s0 r (header_of f) (Some (meta_of f)) b).
Proof.
  intros Hp Hd Hok. unfold read_payload. destruct (0 <? len (payload f)) eqn:E.
  - wpx_steps. cbn [at_read rd payload_buf].
    change (set_payload_buf (Some (default [] b)) (at_read s0 r (header_of f) (Some (meta_of f)) b)) with
      (at_read s0 r (header_of f) (Some (meta_of f)) (Some (default [] b))).
    assert (len (payload f) = len (default [] b) + len q) as Hl by (rewrite Hp, len_app; done).
    eapply wpx_mono; [apply (fill_payload_reads _ r _ _ (default [] b) q rest (len (payload f)));
      [unfold len in *; lia|done|done|done]| | |].
    + intros _ s' (r' & -> & Hd' & Hok' & Hst'). wpx_steps. cbn [at_read rd payload_buf from_option id].
      split; [by rewrite Hp|]. exists r'. done.
    + done.
    + intros s' (r' & b' & q' & -> & Hb & Hne & Hd' & Hok' & Hst').
      exists r', (header_of f), (Some (meta_of f)), (Some b'). split_and!; try done.
      apply (in_payload _ (Some b') q'); [by rewrite Hp, Hb|lia|done].
  - wpx_steps. destruct (payload f) as [|x l] eqn:El; [|unfold len in E; simpl in E; lia].
    symmetry in Hp. apply app_eq_nil in Hp as [Hb ->]. split; [done|]. exists r. done.
Qed.

Lemma read_raw_frame_reads r h m b :
  progress r h m b -> Forall event_ok r ->
  wpx read_raw_frame (completed (stalls r)) (fun _ => False) (interrupted (stalls r)) (at_read s0 r h m b).
Proof.
  intros Hp Hok. unfold read_raw_frame. destruct Hopen as (Ho1 & Ho2 & Ho3).
  wpx_step. unfold ensure_connection_open. wpx_steps. cbn [at_read ctl]. rewrite Ho1, Ho2, Ho3. wpx_steps.
  unfold finish_pending_write. wpx_steps. cbn [at_read io pending_write]. rewrite Hw. wpx_steps.
  destruct Hp as [h q Hh Hd|b q Hpay Hpos Hd].
  - eapply wpx_mono; [apply (fill_header_reads 9 r h q (payload f ++ rest))| |done|].
    + pose proof (length_header_of f) as Hl. rewrite Hh, length_app in Hl. lia.
    + pose proof (length_header_of f) as Hl. rewrite Hh, length_app in Hl. lia.
    + done.
    + done.
    + intros _ s' (r' & -> & Hd' & Hok' & Hst'). wpx_step. rewrite <- Hh.
      unfold wpx at 1. rewrite (frame_meta_header f) by done. cbn [meta_of].
      wpx_step. eapply wpx_mono; [apply (read_payload_reads r' None (payload f)); done| |done|].
      * intros bs s' (-> & r'' & -> & Hd'' & Hok'' & Hst''). wpx_steps. split; [by destruct f|].
        exists r''. destruct (0 <? _); split_and!; try done; lia.
      * intros s' (r'' & h'' & m'' & b'' & -> & Hp' & Hok'' & Hst''). exists r'', h'', m'', b''. split_and!; try done. lia.
    + intros s' (r' & h' & q' & -> & Hh' & Hne & Hd' & Hok' & Hst'). exists r', h', None, None. split_and!; try done.
      apply (in_header _ h' q'); [by rewrite Hh, Hh'|done].
  - unfold fill_header at 1. wpx_step; apply wpx_get. cbn [at_read rd partial_header].
    rewrite length_header_of. cbn [Nat.leb]. wpx_steps.
    unfold frame_meta. wpx_steps. cbn [at_read rd pending_frame_meta]. wpx_steps. cbn [meta_of]. wpx_steps.
    eapply wpx_mono; [apply (read_payload_reads r b q); done| |done|done].
    intros bs s' (-> & r' & -> & Hd' & Hok' & Hst'). wpx_steps. split; [by destruct f|].
    exists r'. rewrite (proj2 (Z.ltb_lt 0 _)) by done. done.
Qed.

End one_frame.

(** A caller that retries a read that was dropped, [k] times at most. *)
Fixpoint poll_frame (k : nat) : h2 RawFrame := fun s =>
  match read_raw_frame s with
  | (s', Pending) => match k with O => (s', Pending) | S k => poll_frame k s' end
  | r => r
  end.

Lemma poll_frame_reads f rest s0 k r h m b :
  frame_ok f -> pending_write (io s0) = None ->
  connection_error (ctl s0) = None /\ open_stream_in_progress (ctl s0) = None /\
    window_update_in_progress (ctl s0) = false ->
  progress f rest r h m b -> Forall event_ok r -> (stalls r <= k)%nat ->
  exists r', poll_frame k (at_read s0 r h m b) = (at_read s0 r' [] None None, Ok f) /\
    data r' = rest /\ Forall event_ok r'.
Proof.
  intros Hf Hw Ho. revert r h m b. induction k as [|k IH]; intros r h m b Hp Hok Hk;
    pose proof (read_raw_frame_reads f rest s0 Hf Hw Ho r h m b Hp Hok) as Hr;
    unfold wpx in Hr; cbn [poll_frame];
    destruct (read_raw_frame (at_read s0 r h m b)) as [s' [f'|e| | |]]; try done.
  - destruct Hr as (-> & r' & -> & Hd & Hok' & _). eauto.
  - destruct Hr as (r' & h' & m' & b' & _ & _ & _ & Hst). lia.
  - destruct Hr as (-> & r' & -> & Hd & Hok' & _). eauto.
  - destruct Hr as (r' & h' & m' & b' & -> & Hp' & Hok' & Hst). apply (IH r' h' m' b'); [done|done|lia].
Qed.

(** Reading is cancellation-safe. Let the peer send a frame followed by more
    bytes, cut by the socket into pieces in any way, with the reader dropped at
    any number of points in between. Calling [read_raw_frame] again after every
    drop returns exactly that frame, leaves exactly the following bytes to be
    read, and changes nothing else in the framer. *)
Theorem h2_read_cancel_safe f rest s :
  frame_ok f ->
  rd s = mkRd [] None None -> pending_write (io s) = None ->
  connection_error (ctl s) = None -> open_stream_in_progress (ctl s) = None ->
  window_update_in_progress (ctl s) = false ->
  Forall event_ok (rx (io s)) -> data (rx (io s)) = frame_wire f ++ rest ->
  exists r', poll_frame (stalls (rx (io s))) s = (set_rx r' s, Ok f) /\ data r' = rest.
Proof.
  intros Hf Hrd Hw Ho1 Ho2 Ho3 Hok Hd.
  destruct (poll_frame_reads f rest s (stalls (rx (io s))) (rx (io s)) [] None None) as (r' & Hr & Hd' & _); try done.
  - apply (in_header _ _ _ [] (header_of f)); [done|]. rewrite Hd, frame_wire_split, <- app_assoc. done.
  - exists r'. split; [|done]. destruct s as [[r w t pw] rds bf str fl ct]. cbn in Hrd. subst rds. exact Hr.
Qed.

Definition sample_frame : RawFrame := mkFrame FRAME_SETTINGS 0 0 [x00; x05; x00; x00; x40; x00].
Definition sample_schedule : list rx_event :=
  [Chunk (take 4 (frame_wire sample_frame)); RxStall; Chunk (take 7 (drop 4 (frame_wire sample_frame)));
   RxStall; RxStall; Chunk (drop 11 (frame_wire sample_frame) ++ [x07; x08])].

Lemma h2_read_cancel_safe_witness :
  exists r', poll_frame 3 (new sample_schedule [] []) = (set_rx r' (new sample_schedule [] []), Ok sample_frame) /\
    data r' = [x07; x08].
Proof.
  refine (h2_read_cancel_safe sample_frame [x07; x08] (new sample_schedule [] []) _ _ _ _ _ _ _ _); try reflexivity.
  - vm_compute. repeat split; congruence.
  - repeat constructor; vm_compute; congruence.
Defined.

End H2Read.
