(* ===== verification/H2Inv.v ===== *)
(** Invariants of the raw HTTP/2 framer
    ([crates/ios-core/src/xpc/h2_raw.rs]).

    [Inv] collects what every operation preserves, whatever the peer sends and
    wherever a call fails or is dropped: the byte accounting of the buffers
    ([Buf]), the bounds of the stream registries ([Str]), the ranges of the
    flow-control windows ([Flw]), the shape of what is on the wire ([Wire]) and
    the reader's resume state ([Rdr]). [good m] says that [m] never panics, never
    runs out of fuel, preserves [Inv] and puts no byte back on the socket; the
    hint database [h2] collects these facts for the smaller operations. *)

From stdpp Require Import sorting.
From S2P Require Import Prelude XpcMessage H2Framer H2Read.

Module H2Inv.
Import H2 H2Read.

(** ** The invariant *)

Definition plen (f : DataFrame) : Z := len (d_payload f).
Definition pend_len (l : list DataFrame) (id : Z) : Z :=
  lsum (fun f => if d_stream_id f =? id then plen f else 0) l.
Definition buf_of (b : Buffers) (id : Z) : bytes :=
  if id =? STREAM_CLIENT_SERVER then client_server_buf b
  else if id =? STREAM_SERVER_CLIENT then server_client_buf b
  else default [] (stream_bufs b !! id).
Definition buf_total (b : Buffers) : Z :=
  len (client_server_buf b) + len (server_client_buf b) + msum len (stream_bufs b).

Definition Buf (b : Buffers) : Prop :=
  buffered_bytes b = buf_total b + lsum plen (pending_data_frames b) /\
  buffered_bytes b <= MAX_TOTAL_BUFFERED_BYTES /\
  (length (pending_data_frames b) <= MAX_PENDING_DATA_FRAMES)%nat /\
  forall id, len (buf_of b id) + pend_len (pending_data_frames b) id <= MAX_BUFFERED_BYTES_PER_STREAM.

(** A stream whose tombstone is never evicted. *)
Definition pinned (g : Streams) (id : Z) : Prop :=
  id = STREAM_INIT \/ id = STREAM_CLIENT_SERVER \/ id = STREAM_SERVER_CLIENT \/ id ∈ locally_open_streams g.

Definition Str (g : Streams) : Prop :=
  (size (peer_open_streams g) + size (file_stream_candidates g) <= MAX_UNKNOWN_BUFFERED_STREAMS)%nat /\
  (size (announced_file_streams g) <= MAX_ANNOUNCED_FILE_STREAMS)%nat /\
  (length (closed_unknown_order g) <= MAX_CLOSED_STREAMS)%nat /\
  (length (reset_unknown_order g) <= MAX_CLOSED_STREAMS)%nat /\
  (forall id, id ∈ closed_streams g -> id ∈ closed_unknown_order g \/ pinned g id) /\
  (forall id, is_Some (reset_streams g !! id) -> id ∈ reset_unknown_order g \/ pinned g id) /\
  (forall id b, file_stream_candidate_data g !! id = Some b ->
     id ∈ file_stream_candidates g /\ (length b <= FILE_STREAM_PREAMBLE_LEN)%nat).

Definition window_ok (w : Z) : Prop := - MAX_FLOW_CONTROL_WINDOW <= w <= MAX_FLOW_CONTROL_WINDOW.
Definition Flw (w : Flow) : Prop :=
  0 <= outbound_connection_window w <= MAX_FLOW_CONTROL_WINDOW /\
  0 <= peer_initial_window_size w <= MAX_FLOW_CONTROL_WINDOW /\
  map_Forall (fun _ => window_ok) (outbound_stream_windows w) /\
  MAX_FRAME_PAYLOAD <= outbound_max_frame_size w <= MAX_NEGOTIATED_FRAME_SIZE /\
  map_Forall (fun _ v => 0 <= v < WINDOW_UPDATE_THRESHOLD) (pending_window_updates w).

(** What was sent up to some point, and whether DATA frames may follow it. *)
Record base := mkBase { sent : bytes; data_allowed : bool }.

(** The header fields fit their places. *)
Definition header_ok (f : RawFrame) : Prop := in_u 8 (frame_type f) /\ in_u 8 (flags f) /\ in_u 31 (stream_id f).
(** A frame that may follow, with a length the 24-bit field can carry. *)
Definition allowed (o : base) (f : RawFrame) : Prop :=
  len (payload f) <= MAX_NEGOTIATED_FRAME_SIZE /\ (data_allowed o = false -> frame_type f <> FRAME_DATA) /\ header_ok f.
Definition is_frame (o : base) (bs : bytes) : Prop := exists f, bs = frame_wire f /\ allowed o f.
Definition wires (fs : list RawFrame) : bytes := concat (map frame_wire fs).

(** Type, flags, stream and length of a frame with header [h]. *)
Definition header_meta (h : bytes) : Z * Z * Z * Z :=
  let byte i := Zb (default x00 (h !! i)) in
  (byte 3%nat, byte 4%nat, Z.land (be_Z (drop 5 h)) 0x7FFFFFFF,
   Z.lor (Z.lor (Z.shiftl (byte 0%nat) 16) (Z.shiftl (byte 1%nat) 8)) (byte 2%nat)).
(** The first frame of a byte stream and what follows it. *)
Definition parse_frame (bs : bytes) : option (RawFrame * bytes) :=
  if (length bs <? 9)%nat then None else
  let '(t, f, id, n) := header_meta (take 9 bs) in
  if len (drop 9 bs) <? n then None
  else Some (mkFrame t f id (take (Z.to_nat n) (drop 9 bs)), drop (Z.to_nat n) (drop 9 bs)).
(** What was received and not yet returned as frames, and what will arrive. *)
Definition input (s : H2Framer) : bytes :=
  partial_header (rd s) ++ default [] (payload_buf (rd s)) ++ data (rx (io s)).

Definition Rdr (r : ReadState) (c : Control) : Prop :=
  connection_error c <> None \/
  ((length (partial_header r) < 9)%nat /\ pending_frame_meta r = None /\ payload_buf r = None) \/
  (length (partial_header r) = 9%nat /\ exists t f id n, header_meta (partial_header r) = (t, f, id, n) /\
     pending_frame_meta r = Some (t, f, id, n) /\ len (default [] (payload_buf r)) < n).

Lemma build_frame_masked t f id p : build_frame t f (Z.land id 0x7FFFFFFF) p = build_frame t f id p.
Proof. unfold build_frame. by rewrite <- Z.land_assoc, Z.land_diag. Qed.
Lemma is_frame_build o t f id p :
  len p <= MAX_NEGOTIATED_FRAME_SIZE -> (data_allowed o = false -> t <> FRAME_DATA) -> in_u 8 t -> in_u 8 f ->
  is_frame o (build_frame t f id p).
Proof.
  intros Hl Ht Htt Hff. exists (mkFrame t f (Z.land id 0x7FFFFFFF) p).
  split; [unfold frame_wire; cbn [frame_type flags stream_id payload]; by rewrite build_frame_masked|].
  split; [done|]. split; [done|]. split_and!; try done. unfold in_u. cbn. change 0x7FFFFFFF with (Z.ones 31).
  rewrite Z.land_ones by lia. apply Z.mod_pos_bound. lia.
Qed.
Lemma is_frame_control o t f id p :
  t <> FRAME_DATA -> (length p <= 16)%nat -> in_u 8 t -> in_u 8 f -> is_frame o (build_frame t f id p).
Proof. intros Ht H. apply is_frame_build; [|done]. unfold len, MAX_NEGOTIATED_FRAME_SIZE. lia. Qed.
Lemma wires_snoc fs f : wires (fs ++ [f]) = wires fs ++ frame_wire f.
Proof. unfold wires. rewrite map_app, concat_app. cbn. by rewrite app_nil_r. Qed.

Section inv.
Context (opening : base).

Definition Wire (i : Io) : Prop :=
  exists fs, Forall (allowed opening) fs /\ tx i ++ default [] (pending_write i) = sent opening ++ wires fs.

Definition Inv (s : H2Framer) : Prop :=
  Buf (bufs s) /\ Str (streams s) /\ Flw (flow s) /\ Wire (io s) /\ Rdr (rd s) (ctl s).

Definition good_at (s : H2Framer) {A} (m : h2 A) : Prop :=
  Inv s -> wpx m (fun _ s' => Inv s' /\ (rx_bytes s' <= rx_bytes s)%nat) Inv Inv s.
Definition good {A} (m : h2 A) : Prop := forall s, good_at s m.

(** ** Rules *)

Lemma good_bind {A B} (m : h2 A) (f : A -> h2 B) : good m -> (forall a, good (f a)) -> good (m ≫= f).
Proof.
  intros Hm Hf s Hi. apply wpx_bind. eapply wpx_mono; [by apply Hm| |done|done].
  intros a s' [Hi' Hle]. eapply wpx_mono; [by apply Hf| |done|done].
  intros b s'' [Hi'' Hle']. split; [done|lia].
Qed.
Lemma good_at_bind {A B} s (m : h2 A) (f : A -> h2 B) :
  good_at s m -> (forall a, good (f a)) -> good_at s (m ≫= f).
Proof.
  intros Hm Hf Hi. apply wpx_bind. eapply wpx_mono; [by apply Hm| |done|done].
  intros a s' [Hi' Hle]. eapply wpx_mono; [by apply Hf| |done|done].
  intros b s'' [Hi'' Hle']. split; [done|lia].
Qed.
Lemma good_at_get {B} s (f : H2Framer -> h2 B) : good_at s (f s) -> good_at s (st_get ≫= f).
Proof. intros Hf Hi. apply wpx_bind, wpx_get. by apply Hf. Qed.
Lemma good_get {B} (f : H2Framer -> h2 B) : (forall s, good_at s (f s)) -> good (st_get ≫= f).
Proof. intros Hf s. apply good_at_get, Hf. Qed.
Lemma good_at_of {A} s (m : h2 A) : good m -> good_at s m.
Proof. intros Hm. apply Hm. Qed.
Lemma good_at_mod s g : (Inv s -> Inv (g s)) -> rx (io (g s)) = rx (io s) -> good_at s (st_mod g).
Proof. intros Hg Hr Hi. apply wpx_mod. split; [by apply Hg|]. unfold rx_bytes. by rewrite Hr. Qed.
Lemma good_ret {A} (a : A) : good (mret a).
Proof. intros s Hi. by apply wpx_ret. Qed.
Lemma good_fail {A} e : good (st_fail e : h2 A).
Proof. intros s Hi. by apply wpx_fail. Qed.
Lemma good_lift {A} (o : outcome H2Error A) : returns o -> good (st_lift o).
Proof. intros Ho s Hi. by apply wpx_lift. Qed.

Lemma good_protocol_error {A} m : good (connection_protocol_error m : h2 A).
Proof.
  intros s (Hb & Hs & Hf & Hw & Hr). unfold wpx, connection_protocol_error.
  destruct (connection_error (ctl s)) eqn:E; (split; [done|]); (split; [done|]); (split; [done|]); (split; [done|]); [done|].
  by left.
Qed.

End inv.

Create HintDb h2.
#[export] Hint Resolve good_ret good_fail good_protocol_error : h2.

(** Follows the structure of an operation and closes the leaves with the facts of
    the database. *)
Ltac good_step :=
  lazymatch goal with
  | |- good _ (st_get ≫= _) => apply good_get; intros ?
  | |- good _ (_ ≫= _) => apply good_bind; [|intros ?]
  | |- good _ (if ?c then _ else _) => destruct c eqn:?
  | |- good _ (match ?x with _ => _ end) => destruct x eqn:?
  | |- good_at _ _ (st_get ≫= _) => apply good_at_get
  | |- good_at _ _ (_ ≫= _) => apply good_at_bind; [|intros ?]
  | |- good_at _ _ (if ?c then _ else _) => destruct c eqn:?
  | |- good_at _ _ (match ?x with _ => _ end) => destruct x eqn:?
  | |- good_at _ _ (mret _) => apply good_at_of
  | |- good_at _ _ (st_fail _) => apply good_at_of
  | |- good_at _ _ (connection_protocol_error _) => apply good_at_of
  end.
Ltac good_go := repeat (cbv beta zeta; good_step); try solve [eauto with h2]; try solve [apply good_at_of; eauto with h2].

(** ** Writing *)

(** Nothing but the write side of the socket differs. *)
Definition only_tx (s s' : H2Framer) : Prop :=
  rx (io s') = rx (io s) /\ rd s' = rd s /\ bufs s' = bufs s /\ streams s' = streams s /\
  flow s' = flow s /\ ctl s' = ctl s.

Lemma only_tx_refl s : only_tx s s.
Proof. done. Qed.
Lemma only_tx_trans s1 s2 s3 : only_tx s1 s2 -> only_tx s2 s3 -> only_tx s1 s3.
Proof. unfold only_tx. intros (? & ? & ? & ? & ? & ?) (? & ? & ? & ? & ? & ?). split_and!; congruence. Qed.

Lemma write_loop_spec fuel bs s :
  (length bs <= fuel)%nat -> pending_write (io s) = None ->
  wpx (write_frame_loop fuel bs)
    (fun _ s' => only_tx s s' /\ tx (io s') = tx (io s) ++ bs /\ pending_write (io s') = None)
    (fun s' => only_tx s s' /\ tx (io s') ++ default [] (pending_write (io s')) = tx (io s) ++ bs)
    (fun s' => only_tx s s' /\ tx (io s') ++ default [] (pending_write (io s')) = tx (io s) ++ bs) s.
Proof.
  revert bs s. induction fuel as [|fuel IH]; intros [|b bs] s Hf Hp; try (simpl in Hf; lia);
    cbn [write_frame_loop]; try (wpx_steps; by rewrite app_nil_r).
  set (c := b :: bs) in *. unfold wpx, sock_write.
  assert (forall n s1, (0 < n <= length c)%nat -> only_tx s s1 -> pending_write (io s1) = None ->
    tx (io s1) = tx (io s) ++ take n c ->
    wpx (write_frame_loop fuel (drop n c))
    (fun _ s' => only_tx s s' /\ tx (io s') = tx (io s) ++ c /\ pending_write (io s') = None)
    (fun s' => only_tx s s' /\ tx (io s') ++ default [] (pending_write (io s')) = tx (io s) ++ c)
    (fun s' => only_tx s s' /\ tx (io s') ++ default [] (pending_write (io s')) = tx (io s) ++ c) s1) as Hnext.
  { intros n s1 Hn Ho Hp1 Ht.
    assert (tx (io s1) ++ drop n c = tx (io s) ++ c) as Hc by (rewrite Ht, <- app_assoc, take_drop; done).
    eapply wpx_mono; [apply IH; [rewrite length_drop; change (length c <= S fuel)%nat in Hf; lia|done]| | |].
    - intros _ s' (Ho' & Ht' & Hp'). split; [by eapply only_tx_trans|]. by rewrite Ht', Hc.
    - intros s' (Ho' & Ht'). split; [by eapply only_tx_trans|]. by rewrite Ht', Hc.
    - intros s' (Ho' & Ht'). split; [by eapply only_tx_trans|]. by rewrite Ht', Hc. }
  destruct (wr (io s)) as [|[n| |] w] eqn:Ew.
  - change (length c) with (S (length bs)) at 1. cbn [fst snd].
    apply (Hnext (length c)); [simpl; lia|done|done|]. cbn. by rewrite take_ge by (simpl; lia).
  - destruct (length (take n c)) as [|k] eqn:Ek.
    + split; [done|]. apply length_zero_iff_nil in Ek. cbn. rewrite Ek, app_nil_r. done.
    + assert (drop (S k) c = drop (length (take n c)) c) as -> by (by rewrite Ek).
      apply (Hnext (length (take n c))); [rewrite length_take in *; lia|done|done|].
      cbn. f_equal. rewrite length_take, <- take_take. by rewrite (take_ge c (length c)) by lia.
  - done.
  - done.
Qed.

Section inv_write.
Context (opening : base).

Lemma Inv_only_tx s s' : Inv opening s -> only_tx s s' -> Wire opening (io s') -> Inv opening s'.
Proof. intros (Hb & Hs & Hf & _ & Hr) (_ & E1 & E2 & E3 & E4 & E5) Hw. unfold Inv. by rewrite E1, E2, E3, E4, E5. Qed.
Lemma rx_bytes_only_tx s s' : only_tx s s' -> rx_bytes s' = rx_bytes s.
Proof. intros (E & _). unfold rx_bytes. by rewrite E. Qed.

Lemma finish_pending_write_spec s :
  Inv opening s ->
  wpx finish_pending_write
    (fun _ s' => only_tx s s' /\ Inv opening s' /\ pending_write (io s') = None /\
       tx (io s') = tx (io s) ++ default [] (pending_write (io s)))
    (Inv opening) (fun s' => Inv opening s' /\ only_tx s s') s.
Proof.
  intros Hi. pose proof Hi as (_ & _ & _ & (fs & Hfs & Hw) & _). unfold finish_pending_write. wpx_steps.
  destruct (pending_write (io s)) as [p|] eqn:Ep.
  - wpx_steps. unfold write_frame_bytes.
    eapply wpx_mono; [apply write_loop_spec; [lia|done]| | |]; cbn [io set_pending_write upd_io tx] in *.
    + intros _ s' (Ho & Ht & Hp). split; [done|]. split; [|by split].
      apply (Inv_only_tx s); [done|done|]. exists fs. split; [done|]. rewrite Hp, Ht, app_nil_r. done.
    + intros s' (Ho & Ht). apply (Inv_only_tx s); [done|done|]. exists fs. split; [done|]. by rewrite Ht.
    + intros s' (Ho & Ht). split; [|done]. apply (Inv_only_tx s); [done|done|]. exists fs. split; [done|]. by rewrite Ht.
  - wpx_steps. rewrite app_nil_r. split_and!; try done; apply only_tx_refl.
Qed.

Lemma write_frame_bytes_spec bs s :
  Inv opening s -> pending_write (io s) = None -> is_frame opening bs ->
  wpx (write_frame_bytes bs)
    (fun _ s' => only_tx s s' /\ Inv opening s' /\ pending_write (io s') = None /\ tx (io s') = tx (io s) ++ bs)
    (Inv opening) (Inv opening) s.
Proof.
  intros Hi Hp (f & -> & Hfr). pose proof Hi as (_ & _ & _ & (fs & Hfs & Hw) & _). unfold write_frame_bytes.
  rewrite Hp in Hw. cbn in Hw. rewrite app_nil_r in Hw.
  assert (forall s', tx (io s') ++ default [] (pending_write (io s')) = tx (io s) ++ frame_wire f -> Wire opening (io s')) as HW.
  { intros s' Ht. exists (fs ++ [f]). split; [apply Forall_app_2; [done|by constructor]|].
    by rewrite Ht, Hw, wires_snoc, <- app_assoc. }
  eapply wpx_mono; [apply write_loop_spec; [lia|done]| | |].
  - intros _ s' (Ho & Ht & Hp'). split_and!; try done. apply (Inv_only_tx s); [done|done|]. apply HW.
    by rewrite Ht, Hp', app_nil_r.
  - intros s' (Ho & Ht). apply (Inv_only_tx s); [done|done|]. by apply HW.
  - intros s' (Ho & Ht). apply (Inv_only_tx s); [done|done|]. by apply HW.
Qed.

Lemma write_all_tracked_spec bs s :
  Inv opening s -> is_frame opening bs ->
  wpx (write_all_tracked bs)
    (fun _ s' => only_tx s s' /\ Inv opening s' /\ pending_write (io s') = None /\
       tx (io s') = tx (io s) ++ default [] (pending_write (io s)) ++ bs)
    (Inv opening) (Inv opening) s.
Proof.
  intros Hi Hfr. unfold write_all_tracked. wpx_step.
  eapply wpx_mono; [by apply finish_pending_write_spec| |done|by intros s1 []].
  intros _ s1 (Ho & Hi1 & Hp1 & Ht1). eapply wpx_mono; [by apply write_frame_bytes_spec| |done|done].
  intros _ s2 (Ho2 & Hi2 & Hp2 & Ht2). split_and!; try done; [by eapply only_tx_trans|].
  by rewrite Ht2, Ht1, app_assoc.
Qed.

Lemma good_finish_pending_write : good opening finish_pending_write.
Proof.
  intros s Hi. eapply wpx_mono; [by apply finish_pending_write_spec| |done|by intros s' []].
  intros _ s' (Ho & Hi' & _). split; [done|]. by rewrite (rx_bytes_only_tx s).
Qed.
Lemma good_write_all_tracked bs : is_frame opening bs -> good opening (write_all_tracked bs).
Proof.
  intros Hf s Hi. eapply wpx_mono; [by apply write_all_tracked_spec| |done|done].
  intros _ s' (Ho & Hi' & _). split; [done|]. by rewrite (rx_bytes_only_tx s).
Qed.
Lemma good_write_all_frames l : Forall (is_frame opening) l -> good opening (write_all_frames l).
Proof.
  induction 1 as [|f l Hf Hl IH]; cbn [write_all_frames]; [apply good_ret|].
  apply good_bind; [by apply good_write_all_tracked|]. intros _. apply IH.
Qed.
Lemma good_flush : good opening flush.
Proof.
  intros s Hi. unfold wpx, flush. destruct (wr (io s)) as [|[n| |] w] eqn:E; try done; split; try done.
Qed.
Lemma good_ensure_open : good opening ensure_connection_open.
Proof. unfold ensure_connection_open. good_go. Qed.
End inv_write.

#[export] Hint Resolve good_finish_pending_write good_flush good_ensure_open : h2.

(** ** Reading *)

Lemma rx_bytes_data s : rx_bytes s = length (data (rx (io s))).
Proof.
  unfold rx_bytes, data. induction (rx (io s)) as [|e l IH]; [done|]. cbn. rewrite length_app, <- IH.
  by destruct e.
Qed.

Lemma sock_read_any k s :
  (0 < k)%nat ->
  wpx (sock_read k)
    (fun bs s' => exists r, s' = set_rx r s /\ (length bs <= k)%nat /\ bs ++ data r = data (rx (io s)))
    (fun s' => exists r, s' = set_rx r s /\ data r = data (rx (io s)))
    (fun s' => exists r, s' = set_rx r s /\ data r = data (rx (io s))) s.
Proof.
  intros Hk. unfold wpx, sock_read.
  assert (forall r, rx (io s) = r -> s = set_rx r s) as Hself by (intros r <-; by destruct s as [[] ? ? ? ? ?]).
  destruct (rx (io s)) as [|[bs| |] r] eqn:E.
  - exists []. split; [by apply Hself|done].
  - destruct bs as [|b bs].
    { exists (Chunk [] :: r). split; [by apply Hself|split; [simpl; lia|done]]. }
    set (c := b :: bs). destruct (length c <=? k)%nat eqn:El; [apply Nat.leb_le in El|apply Nat.leb_gt in El].
    + by exists r.
    + exists (Chunk (drop k c) :: r). split; [done|]. rewrite length_take. split; [lia|].
      unfold data. cbn [map concat event_data]. by rewrite app_assoc, take_drop.
  - by exists r.
  - by exists r.
Qed.

Section inv_read.
Context (opening : base) (s0 : H2Framer).

(** The states in which filling the header or the payload can stop. *)
Definition header_at (P : bytes -> Prop) r h m b (s' : H2Framer) : Prop :=
  exists r' h', s' = at_read s0 r' h' m b /\ P h' /\ h' ++ data r' = h ++ data r.
Definition payload_at (P : bytes -> Prop) r h m b (s' : H2Framer) : Prop :=
  exists r' b', s' = at_read s0 r' h m (Some b') /\ P b' /\ b' ++ data r' = b ++ data r.

Lemma fill_header_any fuel r h m b :
  (9 <= length h + fuel)%nat -> (length h <= 9)%nat ->
  wpx (fill_header fuel) (fun _ => header_at (fun h' => length h' = 9%nat) r h m b)
    (header_at (fun h' => length h' < 9)%nat r h m b) (header_at (fun h' => length h' < 9)%nat r h m b) (at_read s0 r h m b).
Proof.
  revert r h. induction fuel as [|fuel IH]; intros r h Hf Hh; cbn [fill_header]; wpx_step; apply wpx_get;
    cbn [at_read rd partial_header]; destruct (9 <=? length h)%nat eqn:E;
    [apply Nat.leb_le in E|apply Nat.leb_gt in E; lia|apply Nat.leb_le in E|apply Nat.leb_gt in E].
  - wpx_steps. exists r, h. split_and!; try done; lia.
  - wpx_steps. exists r, h. split_and!; try done; lia.
  - wpx_step. unfold header_read. wpx_steps. cbn [at_read rd partial_header].
    eapply wpx_mono; [apply sock_read_any; lia| | |].
    + intros bs s' (r' & -> & Hl & Hr). cbn [io rx at_read] in Hr. destruct bs as [|x bs].
      * wpx_steps. exists r', h. split_and!; [done|done|]. by rewrite <- Hr.
      * wpx_steps. set (c := x :: bs) in *. assert (0 < length c)%nat by (simpl; lia).
        assert ((h ++ c) ++ data r' = h ++ data r) as Hcut by (by rewrite <- app_assoc, Hr).
        eapply wpx_mono; [apply (IH r' (h ++ c)); rewrite length_app; lia| | |].
        -- intros _ s'' (r'' & h'' & -> & Hh'' & Hr''). exists r'', h''. by rewrite Hr''.
        -- intros s'' (r'' & h'' & -> & Hh'' & Hr''). exists r'', h''. by rewrite Hr''.
        -- intros s'' (r'' & h'' & -> & Hh'' & Hr''). exists r'', h''. by rewrite Hr''.
    + intros s' (r' & -> & Hr). exists r', h. by rewrite Hr.
    + intros s' (r' & -> & Hr). exists r', h. by rewrite Hr.
Qed.

Lemma fill_payload_any fuel n r h m b :
  n <= len b + Z.of_nat fuel -> len b <= n ->
  wpx (fill_payload fuel n) (fun _ => payload_at (fun b' => len b' = n) r h m b)
    (payload_at (fun b' => len b' < n) r h m b) (payload_at (fun b' => len b' < n) r h m b) (at_read s0 r h m (Some b)).
Proof.
  revert r b. induction fuel as [|fuel IH]; intros r b Hf Hh; cbn [fill_payload]; wpx_step; apply wpx_get;
    cbn [at_read rd payload_buf from_option id]; destruct (n <=? len b) eqn:E; try lia.
  - wpx_steps. exists r, b. split_and!; try done; lia.
  - wpx_steps. exists r, b. split_and!; try done; lia.
  - assert (len b < n) as Hlt by lia. wpx_step. unfold payload_read. wpx_steps. cbn [at_read rd payload_buf from_option id].
    eapply wpx_mono; [apply sock_read_any; unfold len in *; lia| | |].
    + intros bs s' (r' & -> & Hl & Hr). cbn [io rx at_read] in Hr. destruct bs as [|x bs].
      * wpx_steps. exists r', b. split_and!; [done|done|]. by rewrite <- Hr.
      * wpx_steps. set (c := x :: bs) in *. assert (0 < length c)%nat by (simpl; lia).
        assert ((b ++ c) ++ data r' = b ++ data r) as Hcut by (by rewrite <- app_assoc, Hr).
        eapply wpx_mono; [apply (IH r' (b ++ c)); rewrite len_app; unfold len in *; lia| | |].
        -- intros _ s'' (r'' & b'' & -> & Hb'' & Hr''). exists r'', b''. by rewrite Hr''.
        -- intros s'' (r'' & b'' & -> & Hb'' & Hr''). exists r'', b''. by rewrite Hr''.
        -- intros s'' (r'' & b'' & -> & Hb'' & Hr''). exists r'', b''. by rewrite Hr''.
    + intros s' (r' & -> & Hr). exists r', b. by rewrite Hr.
    + intros s' (r' & -> & Hr). exists r', b. by rewrite Hr.
Qed.

Lemma Inv_at_read r h m b :
  Inv opening s0 -> Rdr (mkRd h m b) (ctl s0) -> Inv opening (at_read s0 r h m b).
Proof. intros (Hb & Hs & Hf & Hw & _) Hr. split_and!; done. Qed.

Lemma frame_meta_any r h :
  Inv opening s0 -> length h = 9%nat ->
  wpx frame_meta
    (fun meta s' => meta = header_meta h /\ 0 <= meta.2 /\ s' = at_read s0 r h (Some meta) None)
    (Inv opening) (fun _ => False) (at_read s0 r h None None).
Proof.
  intros Hi Hh. do 9 (destruct h as [|? h]; [done|]). destruct h; [|done].
  unfold frame_meta. wpx_steps. cbn [at_read rd pending_frame_meta partial_header].
  match goal with |- context [slice ?l 5 9] => set (hd := l) end.
  unfold mbind, st_bind, st_lift, wpx, index. subst hd. cbn [lookup list_lookup].
  match goal with |- context [slice ?l 5 9] =>
    assert (slice l 5 9 = Ok (E := H2Error) (drop 5 l)) as -> by reflexivity end.
  destruct (MAX_FRAME_PAYLOAD <? _) eqn:E.
  - unfold connection_protocol_error. cbn [at_read ctl].
    destruct (connection_error (ctl s0)) eqn:Ec.
    + apply Inv_at_read; [done|]. left. by rewrite Ec.
    + destruct Hi as (Hb & Hs & Hf & Hw & _). split_and!; try done. left. done.
  - split; [done|]. split; [|done]. cbn [snd]. pose proof Zb_range. apply Z.lor_nonneg. split; [|apply Zb_range].
    apply Z.lor_nonneg. split; apply Z.shiftl_nonneg, Zb_range.
Qed.

End inv_read.

Lemma at_read_self s : s = at_read s (rx (io s)) (partial_header (rd s)) (pending_frame_meta (rd s)) (payload_buf (rd s)).
Proof. by destruct s as [[] [] ? ? ? ?]. Qed.
Lemma parse_frame_app h p rest t f id n :
  length h = 9%nat -> header_meta h = (t, f, id, n) -> len p = n ->
  parse_frame (h ++ p ++ rest) = Some (mkFrame t f id p, rest).
Proof.
  intros Hh Hm Hp. unfold parse_frame. rewrite !length_app, Hh. cbn [Nat.ltb Nat.leb Nat.add].
  rewrite take_app_length', drop_app_length' by done. rewrite Hm, len_app. pose proof (len_nonneg rest).
  rewrite (proj2 (Z.ltb_ge _ _)) by lia. rewrite take_app_length', drop_app_length' by (unfold len in Hp; lia). done.
Qed.

Section inv_read_frame.
Context (opening : base).

(** A dropped read has lost nothing. *)
Definition paused (i : bytes) (s' : H2Framer) : Prop := Inv opening s' /\ input s' = i.

Lemma read_payload_any s0 r h t f id n b :
  Inv opening s0 -> length h = 9%nat -> header_meta h = (t, f, id, n) -> 0 <= n ->
  (b <> None -> len (default [] b) < n) ->
  wpx (read_payload n)
    (fun p s' => exists r', s' = at_read s0 r' h (Some (t, f, id, n)) None /\ len p = n /\
       p ++ data r' = default [] b ++ data r)
    (Inv opening) (paused (h ++ default [] b ++ data r)) (at_read s0 r h (Some (t, f, id, n)) b).
Proof.
  intros Hi Hh Hm Hn Hb. unfold read_payload. destruct (0 <? n) eqn:E.
  - wpx_steps. cbn [at_read rd payload_buf].
    change (set_payload_buf (Some (default [] b)) (at_read s0 r h (Some (t, f, id, n)) b)) with
      (at_read s0 r h (Some (t, f, id, n)) (Some (default [] b))).
    assert (len (default [] b) < n) as Hlt by (destruct b; [by apply Hb|change (0 < n); lia]).
    pose proof (len_nonneg (default [] b)).
    assert (forall s', payload_at s0 (fun b' => len b' < n) r h (Some (t, f, id, n)) (default [] b) s' ->
      paused (h ++ default [] b ++ data r) s') as Hpause.
    { intros s' (r' & b' & -> & Hl & Hd). split; [|change (h ++ b' ++ data r' = h ++ default [] b ++ data r); by rewrite Hd].
      apply Inv_at_read; [done|]. right; right. split; [done|]. by exists t, f, id, n. }
    eapply wpx_mono; [apply (fill_payload_any s0 _ n r h _ (default [] b)); lia| | |].
    + intros _ s' (r' & b' & -> & Hl & Hr). wpx_steps. by exists r'.
    + intros s' Hs'. by apply Hpause.
    + done.
  - wpx_steps. pose proof (len_nonneg (default [] b)). destruct b as [b|].
    + specialize (Hb ltac:(done)). cbn in Hb. cbn in *. lia.
    + exists r. split; [done|]. split; [|done]. change (len (@nil byte)) with 0. lia.
Qed.

Lemma read_body_any s0 r h t f id n b :
  Inv opening s0 -> length h = 9%nat -> header_meta h = (t, f, id, n) -> 0 <= n ->
  (b <> None -> len (default [] b) < n) ->
  wpx (payload ← read_payload n;
       st_mod (fun s => set_pending_frame_meta None (set_partial_header [] s)) ;;
       mret (mkFrame t f id payload))
    (fun f s' => Inv opening s' /\ parse_frame (h ++ default [] b ++ data r) = Some (f, input s') /\
       Z.of_nat (rx_bytes s') + n = len (default [] b) + Z.of_nat (length (data r)))
    (Inv opening) (paused (h ++ default [] b ++ data r)) (at_read s0 r h (Some (t, f, id, n)) b).
Proof.
  intros Hi Hh Hm Hn Hb. wpx_step. eapply wpx_mono; [by apply read_payload_any| |done|done].
  intros p s' (r' & -> & Hl & Hr). wpx_steps. split_and!.
  - apply (Inv_at_read opening s0 r' [] None None); [done|]. right; left. simpl. split_and!; try done. lia.
  - rewrite <- Hr. by apply (parse_frame_app _ _ _ _ _ _ n).
  - rewrite rx_bytes_data. change (Z.of_nat (length (data r')) + n = len (default [] b) + Z.of_nat (length (data r))). apply (f_equal length) in Hr. rewrite !length_app in Hr. unfold len in *. lia.
Qed.

(** Reading a frame takes the first frame off the input, and at least one byte from
    the socket. *)
Lemma read_raw_frame_spec s :
  Inv opening s ->
  wpx read_raw_frame (fun f s' => Inv opening s' /\ parse_frame (input s) = Some (f, input s') /\ (rx_bytes s' < rx_bytes s)%nat)
    (Inv opening) (paused (input s)) s.
Proof.
  intros Hi. unfold read_raw_frame. wpx_step. unfold ensure_connection_open. wpx_steps.
  destruct (connection_error (ctl s)) as [m|] eqn:Ec; [wpx_steps; done|].
  destruct (open_stream_in_progress (ctl s)); [wpx_steps; done|]. wpx_steps; [done|].
  assert (forall s1, only_tx s s1 -> input s1 = input s) as Hin.
  { intros s1 (E1 & E2 & _). unfold input. by rewrite E1, E2. }
  eapply wpx_mono; [by apply finish_pending_write_spec| |done|by intros s1 [Hi1 Ho]; split; [|apply Hin]].
  intros _ s1 (Ho & Hi1 & Hp1 & _). rewrite <- (Hin s1 Ho), <- (rx_bytes_only_tx _ _ Ho), (rx_bytes_data s1).
  destruct Ho as (_ & _ & _ & _ & _ & Ect). rewrite <- Ect in Ec. pose proof Hi1 as (_ & _ & _ & _ & Hr).
  set (i := input s1). pose proof (eq_refl : i = input s1) as Hinput. clearbody i. unfold input in Hinput.
  rewrite (at_read_self s1). cbn [at_read rx io]. wpx_step.
  destruct Hr as [Hr|[(Hl & Hm & Hb)|(Hl & t & f & id & n & Hh & Hm & Hb)]]; [done| |].
  - rewrite Hb in Hinput. cbn [default from_option app] in Hinput. rewrite Hm, Hb, Hinput.
    eapply wpx_mono; [apply fill_header_any; lia| | |].
    + intros _ s' (r' & h' & -> & Hh' & Hr'). wpx_step. rewrite <- Hr'.
      eapply wpx_mono; [by apply frame_meta_any| |done|done].
      intros meta s' (Hmeta & Hn & ->). destruct meta as [[[t f] id] n]. cbn [snd] in Hn.
      eapply wpx_mono; [by apply (read_body_any s1 r' h' t f id n None)| |done|done].
      intros f' s' (Hi' & Hp & Hrx). split_and!; [done|done|]. apply (f_equal length) in Hr'. rewrite !length_app in Hr'.
      cbn [default] in Hrx. change (len (@nil byte)) with 0 in Hrx. lia.
    + intros s' (r' & h' & -> & Hh' & Hr'). apply Inv_at_read; [done|]. right; left. done.
    + intros s' (r' & h' & -> & Hh' & Hr'). split; [|done]. apply Inv_at_read; [done|]. right; left. done.
  - rewrite Hm. unfold fill_header at 1. wpx_step. apply wpx_get. cbn [at_read rd partial_header].
    rewrite Hl. cbn [Nat.leb]. apply wpx_ret. wpx_step. unfold frame_meta. wpx_step. apply wpx_get.
    cbn [at_read rd pending_frame_meta]. apply wpx_ret. cbv beta iota.
    pose proof (len_nonneg (default [] (payload_buf (rd s1)))). rewrite Hinput.
    eapply wpx_mono; [by apply read_body_any; try lia| |done|done].
    intros f' s' (Hi' & Hp & Hrx). split_and!; [done|done|]. lia.
Qed.
End inv_read_frame.

(** ** Buffers *)

Lemma plen_nonneg l : Forall (fun f => 0 <= plen f) l.
Proof. apply Forall_forall. intros f _. apply len_nonneg. Qed.
Lemma pend_len_nonneg l id : 0 <= pend_len l id.
Proof. apply lsum_nonneg, Forall_forall. intros f _. destruct (_ =? _); [apply len_nonneg|lia]. Qed.
Lemma lsum_filter_id l id : lsum plen (filter (fun f => d_stream_id f = id) l) = pend_len l id.
Proof.
  unfold pend_len. induction l as [|f l IH]; [done|]. rewrite filter_cons. cbn [lsum foldr].
  fold (lsum (fun f => if d_stream_id f =? id then plen f else 0) l).
  destruct (Z.eqb_spec (d_stream_id f) id); [rewrite decide_True by done|rewrite decide_False by done];
    cbn [lsum foldr]; unfold lsum in *; lia.
Qed.
Lemma lsum_filter_split l id :
  lsum plen l = pend_len l id + lsum plen (filter (fun f => d_stream_id f <> id) l).
Proof.
  unfold pend_len. induction l as [|f l IH]; [done|]. rewrite filter_cons. cbn [lsum foldr].
  fold (lsum (fun f => if d_stream_id f =? id then plen f else 0) l). fold (lsum plen l).
  destruct (Z.eqb_spec (d_stream_id f) id);
    [rewrite decide_False by (by intros [])|rewrite decide_True by done]; cbn [lsum foldr];
    fold (lsum plen (filter (fun f => d_stream_id f <> id) l)); lia.
Qed.
Lemma pend_len_filter l id i :
  pend_len (filter (fun f => d_stream_id f <> id) l) i = if i =? id then 0 else pend_len l i.
Proof.
  unfold pend_len. induction l as [|f l IH]; [by destruct (i =? id)|]. rewrite filter_cons.
  case_decide as Hf; cbn [lsum foldr]; fold (lsum (fun f => if d_stream_id f =? i then plen f else 0)).
  - unfold lsum in *. rewrite IH. destruct (Z.eqb_spec (d_stream_id f) i), (Z.eqb_spec i id); lia || congruence.
  - rewrite IH. assert (d_stream_id f = id) as -> by (destruct (decide (d_stream_id f = id)); tauto).
    destruct (Z.eqb_spec i id), (Z.eqb_spec id i); unfold lsum; lia || congruence.
Qed.
Lemma pend_len_app l1 l2 i : pend_len (l1 ++ l2) i = pend_len l1 i + pend_len l2 i.
Proof. apply lsum_app. Qed.

(** The saturating sums of the code are exact below [usize::MAX]. *)
Lemma foldl_saturating l a :
  0 <= a -> a + lsum plen l <= usize_max ->
  foldl (fun n f => Z.min usize_max (n + len (d_payload f))) a l = a + lsum plen l.
Proof.
  revert a. induction l as [|f l IH]; intros a Ha Hl; cbn [foldl lsum foldr] in *; [lia|]. fold (lsum plen l) in *.
  pose proof (lsum_nonneg plen l (plen_nonneg l)). pose proof (len_nonneg (d_payload f)).
  change (plen f) with (len (d_payload f)) in *. rewrite Z.min_r by lia. rewrite IH by lia. lia.
Qed.

Lemma buf_of_le b id : len (buf_of b id) <= buf_total b.
Proof.
  unfold buf_of, buf_total. pose proof (len_nonneg (client_server_buf b)). pose proof (len_nonneg (server_client_buf b)).
  assert (map_Forall (fun _ v => 0 <= len v) (stream_bufs b)) as Hn by (intros ? ? _; apply len_nonneg).
  pose proof (msum_nonneg len _ Hn). split_ifs; [lia|lia|].
  destruct (stream_bufs b !! id) as [v|] eqn:E; cbn.
  - pose proof (msum_lookup len _ _ _ Hn E). lia.
  - change (len (@nil byte)) with 0. lia.
Qed.

Lemma Buf_bounds b : Buf b -> 0 <= buf_total b /\ 0 <= lsum plen (pending_data_frames b) /\
  buf_total b + lsum plen (pending_data_frames b) <= MAX_TOTAL_BUFFERED_BYTES.
Proof.
  intros (He & Hl & _). pose proof (lsum_nonneg _ _ (plen_nonneg (pending_data_frames b))).
  pose proof (buf_of_le b 0). pose proof (len_nonneg (buf_of b 0)). lia.
Qed.
Lemma pend_len_le l id : pend_len l id <= lsum plen l.
Proof. rewrite (lsum_filter_split l id). pose proof (lsum_nonneg _ _ (plen_nonneg (filter (fun f => d_stream_id f <> id) l))). lia. Qed.

Lemma pending_len_exact s id : Buf (bufs s) -> pending_stream_buffer_len s id = pend_len (pending_data_frames (bufs s)) id.
Proof.
  intros Hb. destruct (Buf_bounds _ Hb) as (H0 & H1 & H2). unfold pending_stream_buffer_len.
  pose proof (pend_len_le (pending_data_frames (bufs s)) id).
  rewrite foldl_saturating; rewrite ?lsum_filter_id; unfold usize_max, MAX_TOTAL_BUFFERED_BYTES in *; lia.
Qed.

Lemma stream_buffer_buf_of s id : default [] (stream_buffer s id) = buf_of (bufs s) id.
Proof. unfold stream_buffer, buf_of. by split_ifs. Qed.

Lemma extend_total id bs s : buf_total (bufs (extend_buffer id bs s)) = buf_total (bufs s) + len bs.
Proof.
  unfold extend_buffer, buf_total. split_ifs; cbn [bufs set_client_server_buf set_server_client_buf set_stream_bufs
    upd_bufs client_server_buf server_client_buf stream_bufs]; rewrite ?msum_replace, ?len_app; try lia.
  destruct (stream_bufs (bufs s) !! id); cbn; [|change (len (@nil byte)) with 0]; lia.
Qed.
Lemma extend_of id bs s i :
  buf_of (bufs (extend_buffer id bs s)) i = if i =? id then buf_of (bufs s) i ++ bs else buf_of (bufs s) i.
Proof.
  unfold extend_buffer, buf_of. destruct (id =? STREAM_CLIENT_SERVER) eqn:E1; [|destruct (id =? STREAM_SERVER_CLIENT) eqn:E2];
    cbn [bufs set_client_server_buf set_server_client_buf set_stream_bufs upd_bufs client_server_buf server_client_buf stream_bufs];
    unfold STREAM_CLIENT_SERVER, STREAM_SERVER_CLIENT in *.
  - destruct (i =? 1) eqn:E; [by replace (i =? id) with true by lia|by replace (i =? id) with false by lia].
  - destruct (i =? 1) eqn:E; [by replace (i =? id) with false by lia|].
    destruct (i =? 3) eqn:E3; [by replace (i =? id) with true by lia|by replace (i =? id) with false by lia].
  - destruct (i =? id) eqn:E.
    + replace i with id by lia. rewrite E1, E2, lookup_insert_eq. done.
    + destruct (i =? 1); [done|]. destruct (i =? 3); [done|]. rewrite lookup_insert_ne by lia. done.
Qed.
Lemma extend_rest id bs s :
  let s' := extend_buffer id bs s in
  pending_data_frames (bufs s') = pending_data_frames (bufs s) /\ buffered_bytes (bufs s') = buffered_bytes (bufs s) /\
  io s' = io s /\ rd s' = rd s /\ streams s' = streams s /\ flow s' = flow s /\ ctl s' = ctl s.
Proof. unfold extend_buffer. by split_ifs. Qed.

(** Draining moves bytes from the queue to the buffers. *)
Lemma drain_fold l s :
  let s' := foldl (fun s f => match d_payload f with [] => s | bs => extend_buffer (d_stream_id f) bs s end) s l in
  buf_total (bufs s') = buf_total (bufs s) + lsum plen l /\
  (forall i, len (buf_of (bufs s') i) = len (buf_of (bufs s) i) + pend_len l i) /\
  buffered_bytes (bufs s') = buffered_bytes (bufs s) /\
  io s' = io s /\ rd s' = rd s /\ streams s' = streams s /\ flow s' = flow s /\ ctl s' = ctl s.
Proof.
  revert s. induction l as [|f l IH]; intros s; cbn [foldl].
  - split_and!; try done; unfold lsum, pend_len; simpl; intros; lia.
  - set (s1 := match d_payload f with [] => s | bs => extend_buffer (d_stream_id f) bs s end).
    assert (buf_total (bufs s1) = buf_total (bufs s) + plen f /\
      (forall i, len (buf_of (bufs s1) i) = len (buf_of (bufs s) i) + (if d_stream_id f =? i then plen f else 0)) /\
      buffered_bytes (bufs s1) = buffered_bytes (bufs s) /\
      io s1 = io s /\ rd s1 = rd s /\ streams s1 = streams s /\ flow s1 = flow s /\ ctl s1 = ctl s)
      as (H1 & H2 & H3 & H4 & H5 & H6 & H7 & H8).
    { unfold s1, plen. destruct (d_payload f) as [|x bs] eqn:E.
      - change (len (@nil byte)) with 0. split_and!; try done; intros; split_ifs; lia.
      - destruct (extend_rest (d_stream_id f) (x :: bs) s) as (? & ? & ? & ? & ? & ? & ?).
        split_and!; try done; [apply extend_total|]. intros i. rewrite extend_of.
        rewrite (Z.eqb_sym (d_stream_id f)). destruct (i =? d_stream_id f); rewrite ?len_app; lia. }
    destruct (IH s1) as (K1 & K2 & K3 & K4 & K5 & K6 & K7 & K8). fold s1.
    split_and!; try congruence.
    + rewrite K1, H1. cbn [lsum foldr]. fold (lsum plen l). lia.
    + intros i. rewrite K2, H2. unfold pend_len. cbn [lsum foldr].
      fold (lsum (fun f => if d_stream_id f =? i then plen f else 0) l). lia.
Qed.

Lemma Inv_drain opening s : Inv opening s -> Inv opening (drain_pending_data_frames s).
Proof.
  intros ((He & Hl & Hn & Hp) & Hs & Hf & Hw & Hr). unfold drain_pending_data_frames.
  destruct (drain_fold (pending_data_frames (bufs s)) s) as (K1 & K2 & K3 & K4 & K5 & K6 & K7 & K8).
  unfold Inv. cbn [io rd bufs streams flow ctl set_pending_data_frames upd_bufs].
  rewrite K4, K5, K6, K7, K8. split; [|done].
  split_and!; cbn [buffered_bytes pending_data_frames]; rewrite ?K3; try done.
  - rewrite He. unfold buf_total in *. cbn [client_server_buf server_client_buf stream_bufs]. rewrite K1.
    unfold lsum at 3. cbn. lia.
  - simpl. lia.
  - intros id. specialize (Hp id). rewrite <- K2 in Hp. unfold pend_len at 1. cbn [lsum foldr].
    unfold buf_of in *. cbn [client_server_buf server_client_buf stream_bufs]. lia.
Qed.

(** ** Stream registries *)

Lemma size_insert_le (x : Z) (X : gset Z) : (size ({[x]} ∪ X) <= S (size X))%nat.
Proof.
  destruct (decide (x ∈ X)); [replace ({[x]} ∪ X) with X by set_solver; lia|].
  rewrite size_union by set_solver. rewrite size_singleton. lia.
Qed.
Lemma size_remove_le (x : Z) (X : gset Z) : (size (X ∖ {[x]}) <= size X)%nat.
Proof. apply subseteq_size. set_solver. Qed.
Lemma size_remove_lt (x : Z) (X : gset Z) : x ∈ X -> (S (size (X ∖ {[x]})) = size X)%nat.
Proof.
  intros Hx. rewrite size_difference by set_solver. rewrite size_singleton.
  assert (size X <> 0)%nat; [|lia]. intros H%size_empty_inv. set_solver.
Qed.

Lemma is_known_cases s id :
  is_known_stream s id = true <-> pinned (streams s) id \/ id ∈ announced_file_streams (streams s).
Proof.
  unfold is_known_stream, pinned. rewrite !orb_true_iff, !Z.eqb_eq, !bool_decide_eq_true. tauto.
Qed.

Ltac str_simpl :=
  cbn [streams upd_streams set_closed_streams set_closed_unknown_order set_peer_open_streams set_announced_file_streams
    set_file_stream_candidates set_file_stream_candidate_data set_reset_streams set_reset_unknown_order
    set_highest_peer_stream_id set_locally_open_streams set_goaway set_client_server_open set_server_client_open
    locally_open_streams client_server_open server_client_open closed_streams closed_unknown_order peer_open_streams
    announced_file_streams file_stream_candidates file_stream_candidate_data reset_streams reset_unknown_order
    highest_peer_stream_id goaway set_pending_window_updates upd_flow] in *.

(** Dropping a stream from the registries keeps the bounds. *)
Definition forget (id : Z) (g : Streams) : Streams :=
  mkStreams (locally_open_streams g) (client_server_open g) (server_client_open g) (closed_streams g)
    (closed_unknown_order g) (peer_open_streams g ∖ {[id]}) (announced_file_streams g ∖ {[id]})
    (file_stream_candidates g ∖ {[id]}) (delete id (file_stream_candidate_data g)) (reset_streams g)
    (reset_unknown_order g) (highest_peer_stream_id g) (goaway g).

Lemma Str_forget id g : Str g -> Str (forget id g).
Proof.
  intros (H1 & H2 & H3 & H4 & H5 & H6 & H7). unfold Str, forget; str_simpl.
  pose proof (size_remove_le id (peer_open_streams g)). pose proof (size_remove_le id (announced_file_streams g)).
  pose proof (size_remove_le id (file_stream_candidates g)).
  split_and!; try done; try lia.
  intros i b Hb. apply lookup_delete_Some in Hb as [Hne Hb]. destruct (H7 _ _ Hb). split; [set_solver|done].
Qed.

Lemma Str_tombstone id s : Str (streams s) -> Str (streams (remove_closed_stream_tombstone id s)).
Proof.
  intros (H1 & H2 & H3 & H4 & H5 & H6 & H7). unfold remove_closed_stream_tombstone.
  destruct (_ && _); unfold Str; str_simpl; split_and!; try done.
  - etrans; [apply length_filter|done].
  - intros i Hi. destruct (H5 i) as [Ho|Hp]; [set_solver|left|by right]. apply list_elem_of_filter. set_solver.
  - intros i Hi. apply H5. set_solver.
Qed.
Lemma tombstone_rest id s :
  let s' := remove_closed_stream_tombstone id s in
  io s' = io s /\ rd s' = rd s /\ bufs s' = bufs s /\ flow s' = flow s /\ ctl s' = ctl s /\
  locally_open_streams (streams s') = locally_open_streams (streams s) /\
  announced_file_streams (streams s') = announced_file_streams (streams s).
Proof. unfold remove_closed_stream_tombstone. by destruct (_ && _). Qed.

Lemma Flw_forget id w m : Flw w -> m = delete id (pending_window_updates w) ->
  Flw (mkFlow m (outbound_connection_window w) (peer_initial_window_size w) (outbound_stream_windows w) (outbound_max_frame_size w)).
Proof.
  intros (H1 & H2 & H3 & H4 & H5) ->. unfold Flw. cbn. split_and!; try done; try lia. by apply map_Forall_delete.
Qed.

(** [clear_stream_buffer], seen from outside. *)
Lemma drop_buffer_spec id s :
  let s1 := drop_stream_buffer id s in
  buf_total (bufs s1) = buf_total (bufs s) - len (buf_of (bufs s) id) /\
  (forall i, buf_of (bufs s1) i = if i =? id then [] else buf_of (bufs s) i) /\
  pending_data_frames (bufs s1) = pending_data_frames (bufs s) /\ buffered_bytes (bufs s1) = buffered_bytes (bufs s) /\
  io s1 = io s /\ rd s1 = rd s /\ streams s1 = streams s /\ flow s1 = flow s /\ ctl s1 = ctl s.
Proof.
  unfold drop_stream_buffer, buf_of, buf_total, STREAM_CLIENT_SERVER, STREAM_SERVER_CLIENT.
  destruct (id =? 1) eqn:E1; [|destruct (id =? 3) eqn:E2];
    cbn [bufs set_client_server_buf set_server_client_buf set_stream_bufs upd_bufs client_server_buf server_client_buf
      stream_bufs]; change (len (@nil byte)) with 0; split_and!; try done; try lia.
  - intros i. destruct (Z.eqb_spec i id), (Z.eqb_spec i 1); lia || done.
  - intros i. destruct (Z.eqb_spec i id), (Z.eqb_spec i 1), (Z.eqb_spec i 3); lia || done.
  - destruct (stream_bufs (bufs s) !! id) as [v|] eqn:E; cbn.
    + rewrite (msum_delete _ _ _ _ E). lia.
    + rewrite delete_id by done. change (len (@nil byte)) with 0. lia.
  - intros i. destruct (Z.eqb_spec i id) as [->|]; [by rewrite E1, E2, lookup_delete_eq|].
    destruct (Z.eqb_spec i 1), (Z.eqb_spec i 3); try done. by rewrite lookup_delete_ne.
Qed.

Lemma discard_spec id s :
  Buf (bufs s) ->
  let s2 := discard_stream_data id s in
  Buf (bufs s2) /\ (forall i, buf_of (bufs s2) i = if i =? id then [] else buf_of (bufs s) i) /\
  pending_data_frames (bufs s2) = filter (fun f => d_stream_id f <> id) (pending_data_frames (bufs s)) /\
  io s2 = io s /\ rd s2 = rd s /\ streams s2 = streams s /\ flow s2 = flow s /\ ctl s2 = ctl s.
Proof.
  intros Hb. unfold discard_stream_data. cbv zeta.
  destruct (drop_buffer_spec id s) as (T1 & T2 & T3 & T4 & T5 & T6 & T7 & T8 & T9).
  set (s1 := drop_stream_buffer id s) in *. clearbody s1. destruct (Buf_bounds _ Hb) as (B0 & B1 & B2).
  pose proof Hb as (He & Hl & Hn & Hp). rewrite T3. cbn [bufs set_pending_data_frames set_buffered_bytes upd_bufs buffered_bytes].
  rewrite T4. unfold stream_buffer_len. rewrite stream_buffer_buf_of. pose proof (buf_of_le (bufs s) id).
  pose proof (len_nonneg (buf_of (bufs s) id)). pose proof (pend_len_le (pending_data_frames (bufs s)) id).
  rewrite foldl_saturating by (rewrite ?lsum_filter_id; unfold usize_max, MAX_TOTAL_BUFFERED_BYTES in *; lia).
  rewrite lsum_filter_id. pose proof (lsum_filter_split (pending_data_frames (bufs s)) id) as Hsplit.
  assert (forall p n i, buf_of (mkBufs (client_server_buf (bufs s1)) (server_client_buf (bufs s1)) (stream_bufs (bufs s1)) p n) i =
    if i =? id then [] else buf_of (bufs s) i) as Hof by (intros; rewrite <- T2; done).
  split; [|split; [intros i; cbn [pending_data_frames]; apply Hof|done]].
  cbn [pending_data_frames client_server_buf server_client_buf stream_bufs]. split_and!.
  - change (buf_total (mkBufs _ _ _ _ _)) with (buf_total (bufs s1)). cbn [buffered_bytes pending_data_frames]. unfold sat_sub. lia.
  - pose proof (pend_len_nonneg (pending_data_frames (bufs s)) id). cbn [buffered_bytes]. unfold sat_sub, MAX_TOTAL_BUFFERED_BYTES in *. lia.
  - cbn [pending_data_frames]. etrans; [apply length_filter|done].
  - intros i. cbn [pending_data_frames]. rewrite Hof, pend_len_filter. specialize (Hp i). destruct (i =? id); [|done].
    change (len (@nil byte)) with 0. unfold MAX_BUFFERED_BYTES_PER_STREAM. lia.
Qed.

Lemma clear_rest id s :
  let s' := clear_stream_buffer id s in
  bufs s' = bufs (discard_stream_data id s) /\ io s' = io (discard_stream_data id s) /\ rd s' = rd (discard_stream_data id s) /\
  locally_open_streams (streams s') = locally_open_streams (streams (discard_stream_data id s)) /\
  id ∉ announced_file_streams (streams s').
Proof.
  unfold clear_stream_buffer. set (s2 := discard_stream_data id s). clearbody s2. cbv zeta.
  pose proof (tombstone_rest id s2) as (R1 & R2 & R3 & R4 & R5 & R6 & R7).
  set (s3 := remove_closed_stream_tombstone id s2) in *. clearbody s3. cbn. split_and!; [done..|set_solver].
Qed.
Lemma clear_spec opening id s :
  Inv opening s ->
  let s' := clear_stream_buffer id s in
  Inv opening s' /\ io s' = io s /\ id ∉ announced_file_streams (streams s') /\
  locally_open_streams (streams s') = locally_open_streams (streams s).
Proof.
  intros (Hb & Hs & Hf & Hw & Hr). destruct (discard_spec id s Hb) as (Hb2 & _ & _ & U3 & U4 & U1 & U2 & U5).
  destruct (clear_rest id s) as (C1 & _ & _ & C2 & C3). rewrite U1 in C2. revert C1 C2 C3. unfold clear_stream_buffer.
  set (s2 := discard_stream_data id s) in *. clearbody s2.
  pose proof (tombstone_rest id s2) as (R1 & R2 & R3 & R4 & R5 & R6 & R7). pose proof (Str_tombstone id s2) as RS.
  set (s3 := remove_closed_stream_tombstone id s2) in *. clearbody s3. cbv zeta. intros C1 C2 C3.
  split; [|split; [cbn; congruence|by split]]. split; [|split; [|split; [|split]]].
  - by rewrite C1.
  - change (Str (forget id (streams s3))). apply Str_forget, RS. by rewrite U1.
  - cbn [flow set_pending_window_updates upd_flow upd_streams set_peer_open_streams set_announced_file_streams
      set_file_stream_candidates set_file_stream_candidate_data]. rewrite R4, U2. by apply (Flw_forget id (flow s)).
  - cbn. by rewrite R1, U3.
  - cbn. by rewrite R2, R5, U4, U5.
Qed.

Section inv_streams.
Context (opening : base).
Abbreviation Inv := (Inv opening).
Abbreviation good := (good opening).
Abbreviation good_at := (good_at opening).

Lemma Inv_streams f s : Inv s -> Str (f (streams s)) -> Inv (upd_streams f s).
Proof. by intros (Hb & Hs & Hf & Hw & Hr) H. Qed.
Lemma Inv_flow f s : Inv s -> Flw (f (flow s)) -> Inv (upd_flow f s).
Proof. by intros (Hb & Hs & Hf & Hw & Hr) H. Qed.
Lemma Inv_bufs f s : Inv s -> Buf (f (bufs s)) -> Inv (upd_bufs f s).
Proof. by intros (Hb & Hs & Hf & Hw & Hr) H. Qed.

Lemma Inv_tombstone id s : Inv s -> Inv (remove_closed_stream_tombstone id s).
Proof.
  intros (Hb & Hs & Hf & Hw & Hr). destruct (tombstone_rest id s) as (R1 & R2 & R3 & R4 & R5 & _).
  unfold H2Inv.Inv. rewrite R1, R2, R3, R4, R5. split_and!; try done. by apply Str_tombstone.
Qed.
Lemma Inv_clear id s : Inv s -> Inv (clear_stream_buffer id s).
Proof. intros Hi. by apply (clear_spec opening id s). Qed.

(** After a reservation the caller may add [n] bytes for the stream. *)
Definition reserved (id n : Z) (s s' : H2Framer) : Prop :=
  s' = set_buffered_bytes (buffered_bytes (bufs s) + n) s /\
  buffered_bytes (bufs s) + n <= MAX_TOTAL_BUFFERED_BYTES /\
  len (buf_of (bufs s) id) + pend_len (pending_data_frames (bufs s)) id + n <= MAX_BUFFERED_BYTES_PER_STREAM.

Lemma reserve_spec id n s (Q : unit -> H2Framer -> Prop) T :
  Inv s -> 0 <= n -> (forall s', reserved id n s s' -> Q tt s') -> wpx (reserve_stream_buffer id n) Q Inv T s.
Proof.
  intros Hi Hn HQ. pose proof Hi as (Hb & _). pose proof Hb as (He & Hl & _ & Hp). specialize (Hp id).
  unfold reserve_stream_buffer, stream_buffer_len.
  assert (s = set_buffered_bytes (buffered_bytes (bufs s) + 0) s) as Hz
    by (rewrite Z.add_0_r; by destruct s as [? ? [] ? ? ?]).
  wpx_step; [wpx_steps; apply HQ; replace n with 0 by lia; split_and!; [done|lia..]|].
  wpx_steps; try (by apply Inv_clear); [by apply Inv_tombstone|].
  rewrite stream_buffer_buf_of, pending_len_exact in * by done. apply HQ. split_and!; [done|lia..].
Qed.

Lemma good_append id payload : good (append_stream_data id payload).
Proof.
  intros s Hi. unfold append_stream_data. destruct payload as [|x l]; [by wpx_steps|]. set (p := x :: l). wpx_step.
  apply reserve_spec; [done|apply len_nonneg|]. intros s' (-> & Ht & Hps). wpx_steps.
  pose proof Hi as ((He & Hl & Hn & Hp) & Hs & Hf & Hw & Hr).
  set (s1 := set_buffered_bytes _ s). destruct (extend_rest id p s1) as (E1 & E2 & E3 & E4 & E5 & E6 & E7).
  split; [|unfold rx_bytes; by rewrite E3]. unfold H2Inv.Inv. rewrite E3, E4, E5, E6, E7. split; [|done].
  unfold Buf. rewrite E1, E2, extend_total. split_and!; try done.
  - change (buf_total (bufs s1)) with (buf_total (bufs s)).
    change (buffered_bytes (bufs s1)) with (buffered_bytes (bufs s) + len p).
    change (pending_data_frames (bufs s1)) with (pending_data_frames (bufs s)). lia.
  - intros i. rewrite extend_of. change (buf_of (bufs s1) i) with (buf_of (bufs s) i).
    change (pending_data_frames (bufs s1)) with (pending_data_frames (bufs s)).
    specialize (Hp i). destruct (Z.eqb_spec i id) as [->|]; [rewrite len_app; lia|done].
Qed.

Lemma queue_push_spec id n fl p s :
  Inv s -> n = len p -> (length (pending_data_frames (bufs s)) < MAX_PENDING_DATA_FRAMES)%nat ->
  reserved id n s (set_buffered_bytes (buffered_bytes (bufs s) + n) s) ->
  Inv (set_pending_data_frames (pending_data_frames (bufs s) ++ [mkData id fl p])
         (set_buffered_bytes (buffered_bytes (bufs s) + n) s)).
Proof.
  intros ((He & Hl & Hn & Hp) & Hs & Hf & Hw & Hr) -> Hlt (_ & Ht & Hps). split; [|done].
  unfold Buf. cbn [bufs set_pending_data_frames set_buffered_bytes upd_bufs buffered_bytes pending_data_frames].
  rewrite lsum_app. assert (lsum plen [mkData id fl p] = len p) as -> by (unfold lsum, plen; cbn; lia).
  split_and!; [unfold buf_total in *; cbn [client_server_buf server_client_buf stream_bufs]; lia|done| |].
  - rewrite length_app. simpl. lia.
  - intros i. specialize (Hp i). rewrite pend_len_app.
    assert (pend_len [mkData id fl p] i = if id =? i then len p else 0) as -> by (unfold pend_len, lsum, plen; cbn; lia).
    match goal with |- len (buf_of ?b i) + _ <= _ => change (buf_of b i) with (buf_of (bufs s) i) end.
    destruct (Z.eqb_spec id i) as [->|]; lia.
Qed.

End inv_streams.

Lemma Buf_shrink b b' id n :
  Buf b -> 0 <= n <= len (buf_of b id) ->
  pending_data_frames b' = pending_data_frames b -> buffered_bytes b' = sat_sub (buffered_bytes b) n ->
  buf_total b' = buf_total b - n ->
  (forall i, len (buf_of b' i) = len (buf_of b i) - (if i =? id then n else 0)) -> Buf b'.
Proof.
  intros Hb Hn E1 E2 E3 E4. destruct (Buf_bounds _ Hb) as (B0 & B1 & B2). pose proof Hb as (He & Hl & Hc & Hp).
  pose proof (buf_of_le b id). unfold Buf, sat_sub in *. rewrite E1, E2, E3. split_and!; try done; try lia.
  intros i. rewrite E4. specialize (Hp i). destruct (i =? id); lia.
Qed.

(** Taking [k] bytes off the front of one buffer. *)
Definition cut_buffer (id : Z) (k : nat) (n : Z) (b : Buffers) : Buffers :=
  if id =? STREAM_CLIENT_SERVER
  then mkBufs (drop k (client_server_buf b)) (server_client_buf b) (stream_bufs b) (pending_data_frames b) (sat_sub (buffered_bytes b) n)
  else if id =? STREAM_SERVER_CLIENT
  then mkBufs (client_server_buf b) (drop k (server_client_buf b)) (stream_bufs b) (pending_data_frames b) (sat_sub (buffered_bytes b) n)
  else mkBufs (client_server_buf b) (server_client_buf b) (<[id := drop k (buf_of b id)]> (stream_bufs b))
         (pending_data_frames b) (sat_sub (buffered_bytes b) n).

Lemma Buf_cut id n b : Buf b -> 0 <= n <= len (buf_of b id) -> Buf (cut_buffer id (Z.to_nat n) n b).
Proof.
  intros Hb Hn. apply (Buf_shrink b _ id n); [done|done| | | |].
  - unfold cut_buffer. by split_ifs.
  - unfold cut_buffer. by split_ifs.
  - unfold cut_buffer, buf_total, buf_of in *. split_ifs; cbn [client_server_buf server_client_buf stream_bufs];
      rewrite ?msum_replace; unfold len in *; rewrite ?length_drop; try lia.
    destruct (stream_bufs b !! id); simpl in *; lia.
  - intros i. unfold cut_buffer, buf_of, STREAM_CLIENT_SERVER, STREAM_SERVER_CLIENT in *.
    destruct (id =? 1) eqn:E1; [|destruct (id =? 3) eqn:E3]; cbn [client_server_buf server_client_buf stream_bufs];
      unfold len in *.
    + destruct (i =? 1) eqn:E; [replace (i =? id) with true by lia; rewrite length_drop; lia|].
      replace (i =? id) with false by lia. lia.
    + destruct (i =? 1) eqn:E; [replace (i =? id) with false by lia; lia|].
      destruct (i =? 3) eqn:E'; [replace (i =? id) with true by lia; rewrite length_drop; lia|].
      replace (i =? id) with false by lia. lia.
    + destruct (Z.eqb_spec i id) as [->|].
      * rewrite E1, E3, lookup_insert_eq. simpl. rewrite length_drop. lia.
      * destruct (i =? 1); [lia|]. destruct (i =? 3); [lia|]. rewrite lookup_insert_ne by done. lia.
Qed.

Lemma Buf_drop_empty id b :
  Buf b -> stream_bufs b !! id = Some [] ->
  Buf (mkBufs (client_server_buf b) (server_client_buf b) (delete id (stream_bufs b)) (pending_data_frames b) (buffered_bytes b)).
Proof.
  intros (He & Hl & Hc & Hp) Hid. unfold Buf, buf_total in *.
  cbn [client_server_buf server_client_buf stream_bufs pending_data_frames buffered_bytes].
  rewrite (msum_delete _ _ _ _ Hid). change (len (@nil byte)) with 0. split_and!; try done; try lia.
  intros i. specialize (Hp i). unfold buf_of in *. cbn [client_server_buf server_client_buf stream_bufs].
  destruct (i =? STREAM_CLIENT_SERVER); [done|]. destruct (i =? STREAM_SERVER_CLIENT); [done|].
  destruct (decide (i = id)) as [->|]; [by rewrite lookup_delete_eq, Hid in *|by rewrite lookup_delete_ne].
Qed.

Section inv_take.
Context (opening : base).
Abbreviation Inv := (Inv opening).
Abbreviation good := (good opening).
Abbreviation good_at := (good_at opening).

Lemma good_take_stream_bytes id n : 0 <= n -> good (take_stream_bytes id n).
Proof.
  intros Hn s Hi. pose proof Hi as (Hb & Hrest).
  unfold take_stream_bytes, stream_buffer_len. wpx_step. apply wpx_get. rewrite stream_buffer_buf_of.
  wpx_step; [by wpx_steps|].
  assert (Inv (upd_bufs (cut_buffer id (Z.to_nat n) n) s)) as Hcut.
  { apply Inv_bufs; [done|]. apply Buf_cut; [done|lia]. }
  set (s' := upd_bufs (cut_buffer id (Z.to_nat n) n) s) in *.
  assert (forall r : bytes, wpx (s ← st_get;
    when (negb (id =? STREAM_CLIENT_SERVER) && negb (id =? STREAM_SERVER_CLIENT) &&
        bool_decide (stream_bufs (bufs s) !! id = Some []) &&
        negb (bool_decide (id ∈ locally_open_streams (streams s))))
    (st_mod (set_stream_bufs (delete id (stream_bufs (bufs s))))) ;; mret r)
    (fun _ s'' => Inv s'' /\ (rx_bytes s'' <= rx_bytes s)%nat) Inv Inv s') as Hlast.
  { intros r. wpx_steps. unfold when. destruct (_ && _) eqn:E; wpx_steps; [|done].
    apply andb_true_iff in E as [E _]. apply andb_true_iff in E as [_ E]. apply bool_decide_eq_true in E.
    split; [|done]. apply Inv_bufs; [done|]. exact (Buf_drop_empty id (bufs s') (proj1 Hcut) E). }
  wpx_step. unfold s', cut_buffer in Hlast. destruct (id =? STREAM_CLIENT_SERVER) eqn:E1; [|destruct (id =? STREAM_SERVER_CLIENT) eqn:E2].
  - wpx_step. apply wpx_mod. apply wpx_ret. wpx_step. apply wpx_mod. apply Hlast.
  - wpx_step. apply wpx_mod. apply wpx_ret. wpx_step. apply wpx_mod. apply Hlast.
  - unfold buf_of in Hlast. rewrite E1, E2 in Hlast.
    destruct (stream_bufs (bufs s) !! id) as [buf|] eqn:Eb; [|by wpx_steps].
    unfold upd_bufs in Hlast. cbv beta in Hlast. rewrite Eb in Hlast. wpx_step. apply wpx_mod. apply wpx_ret. wpx_step. apply wpx_mod. apply Hlast.
Qed.

Lemma pop_data_frame_spec s :
  Inv s ->
  wpx pop_data_frame (fun r s' => Inv s' /\ (rx_bytes s' <= rx_bytes s)%nat /\
    (r = None -> pending_data_frames (bufs s) = [])) Inv Inv s.
Proof.
  intros Hi. unfold pop_data_frame. wpx_steps. destruct (pending_data_frames (bufs s)) as [|f q] eqn:E; [by wpx_steps|].
  wpx_steps. split; [|done]. pose proof Hi as (Hb & Hrest). destruct (Buf_bounds _ Hb) as (B0 & B1 & B2).
  destruct Hb as (He & Hl & Hc & Hp).
  change (Inv (upd_bufs (fun b => mkBufs (client_server_buf b) (server_client_buf b) (stream_bufs b) q
    (sat_sub (buffered_bytes b) (len (d_payload f)))) s)). apply Inv_bufs; [done|].
  unfold Buf. cbn [client_server_buf server_client_buf stream_bufs pending_data_frames buffered_bytes].
  rewrite E in *. cbn [lsum foldr length] in *. fold (lsum plen q) in *.
  pose proof (lsum_nonneg _ _ (plen_nonneg q)). pose proof (len_nonneg (d_payload f)).
  change (plen f) with (len (d_payload f)) in *. unfold sat_sub, buf_total in *.
  cbn [client_server_buf server_client_buf stream_bufs]. split_and!; try lia.
  intros i. specialize (Hp i). unfold pend_len in *. cbn [lsum foldr] in Hp.
  fold (lsum (fun f => if d_stream_id f =? i then plen f else 0) q) in Hp.
  assert (0 <= if d_stream_id f =? i then plen f else 0) by (destruct (_ =? _); [apply len_nonneg|lia]).
  unfold buf_of in *. cbn [client_server_buf server_client_buf stream_bufs] in *. lia.
Qed.
End inv_take.

Section inv_observe.
Context (opening : base).
Abbreviation Inv := (Inv opening).
Abbreviation good := (good opening).
Abbreviation good_at := (good_at opening).

Lemma good_stream_available id : good (ensure_stream_available id).
Proof. unfold ensure_stream_available. good_go. Qed.
Lemma good_not_reused id : good (ensure_peer_stream_not_reused id).
Proof. unfold ensure_peer_stream_not_reused. good_go. Qed.
Hint Resolve good_stream_available good_not_reused : h2.
Lemma good_incoming_available id : good (ensure_incoming_stream_available id).
Proof. unfold ensure_incoming_stream_available. good_go. Qed.

Lemma good_register_candidate id : good (register_file_stream_candidate id).
Proof.
  unfold register_file_stream_candidate. good_go. apply good_at_mod; [|done]. intros Hi.
  pose proof Hi as (_ & (H1 & H2 & H3 & H4 & H5 & H6 & H7) & _).
  apply (Inv_streams opening (fun g => mkStreams (locally_open_streams g) (client_server_open g) (server_client_open g)
    (closed_streams g) (closed_unknown_order g) (peer_open_streams g) (announced_file_streams g)
    ({[id]} ∪ file_stream_candidates g) (<[id := []]> (file_stream_candidate_data g)) (reset_streams g)
    (reset_unknown_order g) id (goaway g)) s); [done|].
  unfold Str; str_simpl. unfold unknown_active_stream_count in *.
  pose proof (size_insert_le id (file_stream_candidates (streams s))).
  split_and!; try done.
  - match goal with H : (_ <=? _)%nat = false |- _ => apply Nat.leb_gt in H end. lia.
  - intros i b Hb. apply lookup_insert_Some in Hb as [[<- <-]|[Hne Hb]]; [split; [set_solver|simpl; lia]|].
    destruct (H7 _ _ Hb). split; [set_solver|done].
Qed.

Lemma good_adopt id : good (adopt_file_stream id).
Proof.
  unfold adopt_file_stream. good_go. apply good_at_mod; [|done]. intros Hi.
  pose proof Hi as (_ & (H1 & H2 & H3 & H4 & H5 & H6 & H7) & _).
  apply (Inv_streams opening (fun g => mkStreams (locally_open_streams g) (client_server_open g) (server_client_open g)
    (closed_streams g) (closed_unknown_order g) (peer_open_streams g) ({[id]} ∪ announced_file_streams g)
    (file_stream_candidates g) (file_stream_candidate_data g) (reset_streams g)
    (reset_unknown_order g) (Z.max (highest_peer_stream_id g) id) (goaway g)) s); [done|].
  unfold Str; str_simpl. pose proof (size_insert_le id (announced_file_streams (streams s))).
  match goal with H : (_ <=? _)%nat = false |- _ => apply Nat.leb_gt in H end. split_and!; try done. lia.
Qed.

Lemma good_track id : good (track_peer_stream id).
Proof.
  unfold track_peer_stream. good_go. apply good_at_mod; [|done]. intros Hi.
  pose proof Hi as (_ & (H1 & H2 & H3 & H4 & H5 & H6 & H7) & _).
  apply (Inv_streams opening (fun g => mkStreams (locally_open_streams g) (client_server_open g) (server_client_open g)
    (closed_streams g) (closed_unknown_order g) ({[id]} ∪ peer_open_streams g) (announced_file_streams g)
    (file_stream_candidates g) (file_stream_candidate_data g) (reset_streams g)
    (reset_unknown_order g) id (goaway g)) s); [done|].
  unfold Str; str_simpl. unfold unknown_active_stream_count in *.
  pose proof (size_insert_le id (peer_open_streams (streams s))).
  match goal with H : (_ <=? _)%nat = false |- _ => apply Nat.leb_gt in H end. split_and!; try done. lia.
Qed.
Hint Resolve good_register_candidate good_adopt good_track : h2.

Lemma good_observe_headers id : good (observe_peer_headers id).
Proof. unfold observe_peer_headers. good_go. Qed.

(** The candidate prefix never outgrows the preamble. *)
Lemma good_candidate_prefix id s c :
  id ∈ file_stream_candidates (streams s) -> (Inv s -> (length c <= FILE_STREAM_PREAMBLE_LEN)%nat) ->
  good_at s (st_mod (set_file_stream_candidate_data (<[id := c]> (file_stream_candidate_data (streams s))))).
Proof.
  intros Hid Hc. apply good_at_mod; [|done]. intros Hi. pose proof Hi as (_ & (H1 & H2 & H3 & H4 & H5 & H6 & H7) & _).
  apply Inv_streams; [done|]. unfold Str; str_simpl. split_and!; try done.
  intros i b Hb. apply lookup_insert_Some in Hb as [[<- <-]|[Hne Hb]]; [split; [done|by apply Hc]|]. by apply H7.
Qed.
Lemma good_candidate_done id : good (st_mod (fun s =>
  set_file_stream_candidate_data (delete id (file_stream_candidate_data (streams s)))
    (set_file_stream_candidates (file_stream_candidates (streams s) ∖ {[id]}) s))).
Proof.
  intros s. apply good_at_mod; [|done]. intros Hi. pose proof Hi as (_ & (H1 & H2 & H3 & H4 & H5 & H6 & H7) & _).
  apply (Inv_streams opening (fun g => mkStreams (locally_open_streams g) (client_server_open g) (server_client_open g)
    (closed_streams g) (closed_unknown_order g) (peer_open_streams g) (announced_file_streams g)
    (file_stream_candidates g ∖ {[id]}) (delete id (file_stream_candidate_data g)) (reset_streams g)
    (reset_unknown_order g) (highest_peer_stream_id g) (goaway g)) s); [done|].
  unfold Str; str_simpl. pose proof (size_remove_le id (file_stream_candidates (streams s))).
  split_and!; try done; try lia.
  intros i b Hb. apply lookup_delete_Some in Hb as [Hne Hb]. destruct (H7 _ _ Hb). split; [set_solver|done].
Qed.
Lemma good_clear id : good (st_mod (clear_stream_buffer id)).
Proof.
  intros s Hi. apply wpx_mod. destruct (clear_spec opening id s Hi) as (Hi' & E & _).
  split; [done|]. unfold rx_bytes. by rewrite E.
Qed.
Hint Resolve good_candidate_done good_clear : h2.

Lemma good_observe_data id p : good (observe_peer_data_stream id p).
Proof.
  unfold observe_peer_data_stream. good_go. apply good_candidate_prefix.
  - match goal with H : bool_decide (_ ∈ file_stream_candidates _) = true |- _ => by apply bool_decide_eq_true in H end.
  - intros (_ & (_ & _ & _ & _ & _ & _ & H7) & _). rewrite length_app, length_take.
    assert (length (default [] (file_stream_candidate_data (streams s) !! id)) <= FILE_STREAM_PREAMBLE_LEN)%nat; [|lia].
    destruct (file_stream_candidate_data (streams s) !! id) as [b|] eqn:E; [apply (H7 _ _ E)|simpl; lia].
Qed.

(** Appending to a bounded tombstone queue, evicting the oldest entry. *)
Lemma evict_bound (q : list Z) id :
  (length q <= MAX_CLOSED_STREAMS)%nat ->
  (length ((if (MAX_CLOSED_STREAMS <=? length q)%nat then tail q else q) ++ [id]) <= MAX_CLOSED_STREAMS)%nat.
Proof.
  intros Hq. rewrite length_app. cbn [length]. destruct (MAX_CLOSED_STREAMS <=? length q)%nat eqn:E.
  - apply Nat.leb_le in E. destruct q; cbn [tail length] in *; unfold MAX_CLOSED_STREAMS, MAX_UNKNOWN_BUFFERED_STREAMS in *; lia.
  - apply Nat.leb_gt in E. lia.
Qed.

Lemma Str_mark_end id fl s : Str (streams s) -> Str (streams (mark_end_stream id fl s)).
Proof.
  intros Hs. unfold mark_end_stream. destruct (Z.land _ _ =? 0); [done|]. cbv zeta.
  pose proof (Str_forget id _ Hs) as (H1 & H2 & H3 & H4 & H5 & H6 & H7).
  set (s3 := set_file_stream_candidate_data _ _).
  pose proof (is_known_cases s3 id) as Hk.
  destruct (negb (bool_decide (id ∈ closed_streams (streams s3))) && negb (is_known_stream s3 id)) eqn:E.
  - pose proof (evict_bound (closed_unknown_order (streams s)) id H3) as Hev.
    destruct (MAX_CLOSED_STREAMS <=? length (closed_unknown_order (streams s3)))%nat eqn:Efull;
      change (closed_unknown_order (streams s3)) with (closed_unknown_order (streams s)) in *; rewrite Efull in Hev;
      [destruct (closed_unknown_order (streams s)) as [|oldest q] eqn:Eq|];
      unfold Str, pinned in *; unfold forget in *; unfold s3; str_simpl; rewrite ?Eq in *;
      (split_and!; try done; try (cbn [tail] in Hev; exact Hev)); intros i Hi; rewrite elem_of_app, list_elem_of_singleton.
    + destruct (decide (i = id)); [by left; right|]. destruct (H5 i) as [Ho|Hp]; [set_solver| |by right].
      left; left. set_solver.
    + destruct (decide (i = id)); [by left; right|]. destruct (H5 i) as [Ho|Hp]; [set_solver|by left; left|by right].
  - unfold Str, pinned, forget in *; unfold s3 in *; str_simpl. split_and!; try done. intros i Hi.
    destruct (decide (i = id)) as [->|]; [|apply H5; set_solver].
    apply andb_false_iff in E as [E|E]; apply negb_false_iff in E.
    + apply bool_decide_eq_true in E. by apply H5.
    + apply Hk in E as [E|E]; [by right|set_solver].
Qed.
Lemma mark_end_rest id fl s :
  let s' := mark_end_stream id fl s in
  io s' = io s /\ rd s' = rd s /\ bufs s' = bufs s /\ ctl s' = ctl s /\
  (flow s' = flow s \/ flow s' = mkFlow (delete id (pending_window_updates (flow s))) (outbound_connection_window (flow s))
     (peer_initial_window_size (flow s)) (outbound_stream_windows (flow s)) (outbound_max_frame_size (flow s))).
Proof.
  unfold mark_end_stream. destruct (Z.land _ _ =? 0); [by auto 8|]. cbv zeta.
  set (s3 := set_file_stream_candidate_data _ _).
  destruct (negb (bool_decide (id ∈ closed_streams (streams s3))) && negb (is_known_stream s3 id)).
  - destruct (MAX_CLOSED_STREAMS <=? length (closed_unknown_order (streams s3)))%nat.
    + destruct (closed_unknown_order (streams s3)); by split_and!; [..|right].
    + by split_and!; [..|right].
  - by split_and!; [..|right].
Qed.
Lemma good_mark_end id fl : good (st_mod (mark_end_stream id fl)).
Proof.
  intros s. destruct (mark_end_rest id fl s) as (E1 & E2 & E3 & E4 & E5).
  apply good_at_mod; [|by rewrite E1]. intros (Hb & Hs & Hf & Hw & Hr). unfold H2Inv.Inv. rewrite E1, E2, E3, E4.
  split_and!; try done; [by apply Str_mark_end|]. destruct E5 as [->| ->]; [done|]. by apply (Flw_forget id (flow s)).
Qed.

Lemma Str_record_reset id code s :
  Str (streams s) -> id ∉ announced_file_streams (streams s) -> Str (streams (record_reset_stream id code s)).
Proof.
  intros (H1 & H2 & H3 & H4 & H5 & H6 & H7) Hann. unfold record_reset_stream. cbv zeta.
  pose proof (is_known_cases s id) as Hk.
  destruct (negb (bool_decide (is_Some (reset_streams (streams s) !! id))) && negb (is_known_stream s id)) eqn:E.
  - pose proof (evict_bound (reset_unknown_order (streams s)) id H4) as Hev.
    destruct (MAX_CLOSED_STREAMS <=? length (reset_unknown_order (streams s)))%nat eqn:Efull;
      [destruct (reset_unknown_order (streams s)) as [|oldest q] eqn:Eq|];
      unfold Str, pinned in *; str_simpl; rewrite ?Eq in *;
      (split_and!; try done; try (cbn [tail] in Hev; exact Hev)); intros i [v Hi];
      apply lookup_insert_Some in Hi; rewrite elem_of_app, list_elem_of_singleton;
      (destruct Hi as [[<- _]|[Hne Hi]]; [by left; right|]).
    + apply lookup_delete_Some in Hi as [Hno Hi]. destruct (H6 i) as [Ho|Hp]; [by eauto|left; left; set_solver|by right].
    + destruct (H6 i) as [Ho|Hp]; [by eauto|by left; left|by right].
  - unfold Str, pinned in *; str_simpl. split_and!; try done. intros i [v Hi].
    apply lookup_insert_Some in Hi as [[<- _]|[Hne Hi]]; [|apply H6; by eauto].
    apply andb_false_iff in E as [E|E]; apply negb_false_iff in E.
    + apply bool_decide_eq_true in E. by apply H6.
    + apply Hk in E as [E|E]; [by right|done].
Qed.
Lemma record_reset_rest id code s :
  let s' := record_reset_stream id code s in
  io s' = io s /\ rd s' = rd s /\ bufs s' = bufs s /\ ctl s' = ctl s /\ flow s' = flow s.
Proof.
  unfold record_reset_stream. cbv zeta.
  destruct (negb (bool_decide (is_Some (reset_streams (streams s) !! id))) && negb (is_known_stream s id)); [|done].
  destruct (MAX_CLOSED_STREAMS <=? length (reset_unknown_order (streams s)))%nat; [|done].
  by destruct (reset_unknown_order (streams s)).
Qed.
Lemma Inv_record_reset id code s :
  Inv s -> id ∉ announced_file_streams (streams s) -> Inv (record_reset_stream id code s).
Proof.
  intros (Hb & Hs & Hf & Hw & Hr) Ha. destruct (record_reset_rest id code s) as (E1 & E2 & E3 & E4 & E5).
  unfold H2Inv.Inv. rewrite E1, E2, E3, E4, E5. split_and!; try done. by apply Str_record_reset.
Qed.

Lemma reset_sequence id code s :
  Inv s ->
  let s1 := clear_stream_buffer id s in
  let s2 := set_outbound_stream_windows (delete id (outbound_stream_windows (flow s1))) s1 in
  Inv (record_reset_stream id code s2) /\ io (record_reset_stream id code s2) = io s.
Proof.
  intros Hi. destruct (clear_spec opening id s Hi) as (Hi1 & Hio & Ha & _).
  generalize dependent (clear_stream_buffer id s). intros s1 Hi1 Hio Ha. cbv zeta.
  assert (Inv (set_outbound_stream_windows (delete id (outbound_stream_windows (flow s1))) s1)) as Hi2.
  { apply Inv_flow; [done|]. destruct Hi1 as (_ & _ & (F1 & F2 & F3 & F4 & F5) & _).
    unfold Flw. cbn. split_and!; try done; try lia. by apply map_Forall_delete. }
  split; [by apply Inv_record_reset|].
  destruct (record_reset_rest id code (set_outbound_stream_windows (delete id (outbound_stream_windows (flow s1))) s1)) as (E1 & _).
  rewrite E1. exact Hio.
Qed.

Lemma good_rst_stream f : good (process_rst_stream f).
Proof.
  unfold process_rst_stream. cbv zeta. do 2 (good_step; [by auto with h2|]). good_step.
  good_step; [apply good_at_of; by auto with h2|]. intros Hi.
  destruct (reset_sequence (stream_id f) (be_Z (take 4 (payload f))) s Hi) as [H1 H2].
  do 2 (wpx_step; apply wpx_mod). apply wpx_mod. split; [exact H1|]. unfold rx_bytes. by rewrite H2.
Qed.

End inv_observe.

#[export] Hint Resolve good_stream_available good_not_reused good_incoming_available good_observe_headers
  good_observe_data good_append good_mark_end good_clear good_rst_stream : h2.

(** ** Flow control *)

Section inv_flow.
Context (opening : base).
Abbreviation Inv := (Inv opening).
Abbreviation good := (good opening).
Abbreviation good_at := (good_at opening).

Lemma good_at_flow s g : (Flw (flow s) -> Flw (g (flow s))) -> good_at s (st_mod (upd_flow g)).
Proof. intros Hg. apply good_at_mod; [|done]. intros Hi. apply Inv_flow; [done|]. apply Hg, Hi. Qed.

Lemma land_window_nonneg z : 0 <= z -> 0 <= Z.land z MAX_FLOW_CONTROL_WINDOW.
Proof. intros Hz. apply Z.land_nonneg. by left. Qed.

Lemma good_window_update id p : good (process_window_update id p).
Proof.
  unfold process_window_update. pose proof (land_window_nonneg (be_Z p) (proj1 (be_Z_bound p))). good_go.
  - apply good_at_flow. intros (F1 & F2 & F3 & F4 & F5). unfold Flw. cbn. split_and!; try done; lia.
  - apply good_at_flow. intros (F1 & F2 & F3 & F4 & F5). unfold Flw. cbn. split_and!; try done; try lia.
    apply map_Forall_insert_2; [|done]. match goal with H : _ !! _ = Some ?z |- _ => pose proof (F3 _ _ H) as Hz end.
    unfold window_ok in *. lia.
Qed.

Lemma good_goaway id p : good (process_goaway id p).
Proof.
  unfold process_goaway. good_go; apply good_at_mod; try done; intros Hi; apply Inv_streams; try done; apply Hi.
Qed.

Lemma protocol_error_spec {A} m s (Q : A -> H2Framer -> Prop) T :
  Inv s -> wpx (connection_protocol_error m) Q Inv T s.
Proof.
  intros Hi. pose proof (good_protocol_error opening (A := A) m s Hi) as H. unfold wpx in *.
  unfold connection_protocol_error in *. done.
Qed.

Lemma scan_settings_spec l w f s :
  (forall v, w = Some v -> 0 <= v <= MAX_FLOW_CONTROL_WINDOW) ->
  (forall v, f = Some v -> MAX_FRAME_PAYLOAD <= v <= MAX_NEGOTIATED_FRAME_SIZE) ->
  Inv s -> wpx (scan_settings l w f) (fun r s' => s' = s /\
    (forall v, fst r = Some v -> 0 <= v <= MAX_FLOW_CONTROL_WINDOW) /\
    (forall v, snd r = Some v -> MAX_FRAME_PAYLOAD <= v <= MAX_NEGOTIATED_FRAME_SIZE)) Inv Inv s.
Proof.
  revert w f. induction l as [|x l IH]; intros w f Hw Hf Hi; cbn [scan_settings]; [by wpx_steps|].
  pose proof (be_Z_bound (drop 2 x)).
  destruct (_ =? SETTINGS_INITIAL_WINDOW_SIZE); [|destruct (_ =? SETTINGS_MAX_FRAME_SIZE)].
  - destruct (_ <? _) eqn:E; [by apply protocol_error_spec|]. apply IH; [|done|done]. intros v [= <-]. lia.
  - destruct (negb _) eqn:E; [by apply protocol_error_spec|]. apply IH; [done| |done]. intros v [= <-]. lia.
  - by apply IH.
Qed.

Lemma shift_windows_spec d l s :
  Inv s -> wpx (shift_windows d l) (fun r s' => s' = s /\ Forall (fun kv => window_ok (snd kv)) r) Inv Inv s.
Proof.
  induction l as [|[id w] l IH]; intros Hi; cbn [shift_windows]; [wpx_steps; by split; [|constructor]|].
  destruct (negb (in_i64 _)); [by apply protocol_error_spec|].
  destruct (negb _) eqn:E; [by apply protocol_error_spec|].
  wpx_step. eapply wpx_mono; [by apply IH| |done|done]. intros r s' [-> Hr]. wpx_steps. split; [done|].
  constructor; [|done]. unfold window_ok. cbn. lia.
Qed.

Lemma good_initial_window v : 0 <= v <= MAX_FLOW_CONTROL_WINDOW -> good (apply_initial_window v).
Proof.
  intros Hv s Hi. unfold apply_initial_window. wpx_steps.
  eapply wpx_mono; [by apply shift_windows_spec| |done|done]. intros r s' [-> Hr]. wpx_steps. split; [|done].
  match goal with |- Inv (set_peer_initial_window_size v (set_outbound_stream_windows ?m s)) =>
    change (Inv (upd_flow (fun g => mkFlow (pending_window_updates g) (outbound_connection_window g) v m (outbound_max_frame_size g)) s)) end.
  apply Inv_flow; [done|].
  destruct Hi as (_ & _ & (F1 & F2 & F3 & F4 & F5) & _). unfold Flw. cbn. split_and!; try done; try lia.
  revert F3. generalize (outbound_stream_windows (flow s)). induction Hr as [|[id w] r Hw Hr IH]; intros m Hm; [done|].
  cbn [foldl]. apply IH. by apply map_Forall_insert_2.
Qed.

Lemma good_settings fl p : good (process_settings fl p).
Proof.
  intros s Hi. unfold process_settings. wpx_step.
  - destruct p; [by wpx_steps|by apply protocol_error_spec].
  - wpx_step; [by apply protocol_error_spec|]. wpx_step.
    eapply wpx_mono; [by apply scan_settings_spec| |done|done].
    intros [w f] s' (-> & Hw & Hf). cbn [fst snd] in *.
    apply (good_bind opening); [destruct w; cbn; auto using good_initial_window with h2| |done]. intros _.
    apply good_bind; [|intros _].
    + destruct f as [v|]; cbn; [|auto with h2]. intros s1. apply good_at_flow. intros (F1 & F2 & F3 & F4 & F5).
      specialize (Hf v eq_refl). unfold Flw. cbn. split_and!; try done; lia.
    + apply good_bind; [|intros _; apply good_flush]. by apply good_write_all_tracked, is_frame_control; [|simpl; lia|..].
Qed.

(** Changing a poison marker. *)
Lemma Inv_marker f s :
  Inv s -> connection_error (f (ctl s)) = connection_error (ctl s) -> Inv (upd_ctl f s).
Proof.
  intros (Hb & Hs & Hf & Hw & Hr) Hc. split_and!; try done. cbn [rd ctl upd_ctl]. unfold Rdr in *. by rewrite Hc.
Qed.
Lemma good_marker f :
  (forall c, connection_error (f c) = connection_error c) -> good (st_mod (upd_ctl f)).
Proof. intros Hc s. apply good_at_mod; [|done]. intros Hi. by apply Inv_marker. Qed.

Lemma good_replenish id n : 0 <= n -> good (replenish_receive_window id n).
Proof.
  intros Hn. unfold replenish_receive_window. apply good_bind; [auto with h2|intros _].
  good_step; [auto with h2|]. good_step; [auto with h2|]. good_step. cbv zeta.
  good_step; [apply good_at_of; auto with h2|]. good_step; [apply good_at_of; auto with h2|].
  set (ct := default 0 _ + n) in *. set (stt := if id =? STREAM_INIT then 0 else _) in *.
  assert (Inv s -> 0 <= ct /\ 0 <= stt) as Hpos.
  { intros (_ & _ & (F1 & F2 & F3 & F4 & F5) & _).
    assert (forall i, 0 <= default 0 (pending_window_updates (flow s) !! i)) as Hp.
    { intros i. destruct (pending_window_updates (flow s) !! i) eqn:E; cbn; [apply (F5 _ _ E)|lia]. }
    split; [specialize (Hp STREAM_INIT); unfold ct; lia|]. unfold stt. split_ifs; [lia|]. specialize (Hp id). lia. }
  intros Hi. specialize (Hpos Hi).
  match goal with |- wpx ?m _ _ _ _ => cut (good_at s m); [intros Hg; exact (Hg Hi)|] end.
  apply good_at_bind; [|intros _; apply good_bind; [|intros _]].
  - apply good_at_flow. intros (F1 & F2 & F3 & F4 & F5). unfold Flw. cbn. split_and!; try done; try lia.
    apply map_Forall_insert_2; [|done]. unfold WINDOW_UPDATE_THRESHOLD in *. split_ifs; lia.
  - unfold when. destruct (negb (id =? STREAM_INIT)) eqn:E; [|auto with h2]. intros s1.
    apply good_at_flow. intros (F1 & F2 & F3 & F4 & F5). unfold Flw. cbn. split_and!; try done; try lia.
    apply map_Forall_insert_2; [|done]. cbn [andb]. unfold WINDOW_UPDATE_THRESHOLD in *. split_ifs; lia.
  - match goal with |- good (match ?l with [] => _ | _ => _ end) => assert (Forall (is_frame opening) l) as Hl;
      [|destruct l as [|x l']; [auto with h2|]] end.
    { apply Forall_app_2; destruct (_ <=? _); try destruct (negb _); cbn; repeat constructor; (apply is_frame_control; [done|simpl; lia|done|done]). }
    apply good_bind; [by apply good_marker|intros _]. apply good_bind; [by apply good_write_all_frames|intros _].
    apply good_bind; [auto with h2|intros _]. by apply good_marker.
Qed.
End inv_flow.

#[export] Hint Resolve good_window_update good_goaway good_settings good_replenish len_nonneg : h2.

(** ** Dispatch *)

(** Sending frames leaves alone whatever the write side of the socket and the poison
    markers do not determine; reading one, whatever its resume state does not
    determine either. *)
Section keep.
Context {X : Type} (proj : H2Framer -> X) (x : X).
Context (Hio : forall g s, (forall i, rx (g i) = rx i) -> proj (upd_io g s) = proj s)
  (Hctl : forall g s, (forall c, message_read_in_progress (g c) = message_read_in_progress c) -> proj (upd_ctl g s) = proj s).
Abbreviation keeps := (preserves (fun s => proj s = x)).

Lemma keeps_mod g : (forall s, proj (g s) = proj s) -> keeps (st_mod g : h2 unit).
Proof. intros Hg s Hs. cbn. by rewrite Hg. Qed.
Ltac keeps_mod := apply keeps_mod; intros ?; first [by apply Hio | by apply Hctl].
Lemma keeps_io g s : (forall i, rx (g i) = rx i) -> proj s = x -> proj (upd_io g s) = x.
Proof. intros Hg. by rewrite Hio. Qed.
Lemma keeps_write_loop fuel bs : keeps (write_frame_loop fuel bs).
Proof.
  revert bs. induction fuel as [|fuel IH]; intros [|y bs] s Hs; cbn [write_frame_loop]; try done.
  unfold sock_write. destruct (wr (io s)) as [|[n| |] w].
  - cbn [length]. apply IH. by apply keeps_io.
  - destruct (length (take n (y :: bs))); [|apply IH]; cbn [fst]; by repeat (apply keeps_io; [done|]).
  - cbn [fst]. by repeat (apply keeps_io; [done|]).
  - cbn [fst]. by repeat (apply keeps_io; [done|]).
Qed.
Lemma keeps_error {A} m : keeps (connection_protocol_error m : h2 A).
Proof.
  intros s Hs. unfold connection_protocol_error. destruct (connection_error (ctl s)); cbn [fst]; [done|].
  unfold set_connection_error. by rewrite Hctl.
Qed.
Lemma keeps_finish : keeps finish_pending_write.
Proof.
  apply preserves_bind; [apply preserves_get|]. intros s. destruct (pending_write (io s)); [|apply preserves_ret].
  apply preserves_bind; [keeps_mod|]. intros _. apply keeps_write_loop.
Qed.
Lemma keeps_write_frames l : keeps (write_all_frames l).
Proof.
  induction l as [|f l IH]; cbn [write_all_frames]; [apply preserves_ret|].
  apply preserves_bind; [|done]. apply preserves_bind; [apply keeps_finish|]. intros _. apply keeps_write_loop.
Qed.
Lemma keeps_flush : keeps flush.
Proof. intros s Hs. unfold flush. by destruct (wr (io s)) as [|[n| |] w]; try apply keeps_io. Qed.
Lemma keeps_ensure_open : keeps ensure_connection_open.
Proof.
  apply preserves_bind; [apply preserves_get|]. intros s. destruct (connection_error (ctl s)); [apply preserves_fail|].
  destruct (open_stream_in_progress (ctl s)); [apply preserves_fail|].
  destruct (window_update_in_progress (ctl s)); [apply preserves_fail|apply preserves_ret].
Qed.
Lemma keeps_replenish id n :
  (forall g s, proj (upd_flow g s) = proj s) -> keeps (replenish_receive_window id n).
Proof.
  intros Hflow. unfold replenish_receive_window. apply preserves_bind; [apply keeps_ensure_open|intros _].
  destruct (n =? 0); [apply preserves_ret|]. destruct (_ <? n); [apply keeps_error|].
  apply preserves_bind; [apply preserves_get|intros s]. cbv zeta.
  destruct (_ <? _); [apply keeps_error|]. destruct (_ && _); [apply keeps_error|].
  apply preserves_bind; [apply keeps_mod; intros ?; apply Hflow|intros _].
  apply preserves_bind; [unfold when; destruct (negb _); [apply keeps_mod; intros ?; apply Hflow|apply preserves_ret]|intros _].
  match goal with |- keeps (match ?l with [] => _ | _ => _ end) => destruct l as [|y l'] end; [apply preserves_ret|].
  apply preserves_bind; [keeps_mod|intros _]. apply preserves_bind; [apply keeps_write_frames|intros _].
  apply preserves_bind; [apply keeps_flush|intros _]. keeps_mod.
Qed.

Context (Hrx : forall r s, proj (set_rx r s) = proj s) (Hrd : forall g s, proj (upd_rd g s) = proj s).

Lemma keeps_sock_read k : keeps (sock_read k).
Proof.
  intros s Hs. unfold sock_read. destruct (rx (io s)) as [|[[|y bs]| |] r]; try done; cbn [fst]; rewrite ?Hrx; try done.
  by destruct (_ <=? _)%nat; cbn [fst]; rewrite Hrx.
Qed.
Lemma keeps_fill_header fuel : keeps (fill_header fuel).
Proof.
  induction fuel as [|fuel IH]; cbn [fill_header]; (apply preserves_bind; [apply preserves_get|intros s]);
    destruct (9 <=? _)%nat; try apply preserves_ret; try apply preserves_lift.
  apply preserves_bind; [|done]. unfold header_read. apply preserves_bind; [apply preserves_get|intros s'].
  apply preserves_bind; [apply keeps_sock_read|]. intros [|y bs]; [apply preserves_fail|apply keeps_mod; intros ?; apply Hrd].
Qed.
Lemma keeps_fill_payload fuel n : keeps (fill_payload fuel n).
Proof.
  induction fuel as [|fuel IH]; cbn [fill_payload]; (apply preserves_bind; [apply preserves_get|intros s]);
    destruct (n <=? _); try apply preserves_ret; try apply preserves_lift.
  apply preserves_bind; [|done]. unfold payload_read. apply preserves_bind; [apply preserves_get|intros s'].
  apply preserves_bind; [apply keeps_sock_read|]. intros [|y bs]; [apply preserves_fail|apply keeps_mod; intros ?; apply Hrd].
Qed.
Lemma keeps_read_raw_frame : keeps read_raw_frame.
Proof.
  unfold read_raw_frame. apply preserves_bind; [apply keeps_ensure_open|intros _].
  apply preserves_bind; [apply keeps_finish|intros _]. apply preserves_bind; [apply keeps_fill_header|intros _].
  apply preserves_bind.
  - unfold frame_meta. apply preserves_bind; [apply preserves_get|intros s]. destruct (pending_frame_meta (rd s)); [apply preserves_ret|].
    do 6 (apply preserves_bind; [apply preserves_lift|intros ?]). cbv zeta. destruct (_ <? _); [apply keeps_error|].
    apply preserves_bind; [apply keeps_mod; intros ?; apply Hrd|intros _; apply preserves_ret].
  - intros [[[t f] id] n]. apply preserves_bind.
    + unfold read_payload. destruct (0 <? n); [|apply preserves_ret]. apply preserves_bind; [apply keeps_mod; intros ?; apply Hrd|intros _].
      apply preserves_bind; [apply keeps_fill_payload|intros _]. apply preserves_bind; [apply preserves_get|intros s].
      apply preserves_bind; [apply keeps_mod; intros ?; apply Hrd|intros _; apply preserves_ret].
    + intros p. apply preserves_bind; [|intros _; apply preserves_ret]. apply keeps_mod. intros s.
      unfold set_pending_frame_meta, set_partial_header. by rewrite !Hrd.
Qed.
End keep.

Section inv_dispatch.
Context (opening : base).
Abbreviation Inv := (Inv opening).
Abbreviation good := (good opening).
Abbreviation good_at := (good_at opening).

Lemma good_process_data f : good (process_data f).
Proof. unfold process_data. good_go. Qed.
Lemma good_process_headers f : good (process_headers f).
Proof. unfold process_headers. good_go. Qed.
Hint Resolve good_process_data good_process_headers : h2.
Lemma good_dispatch f : good (dispatch_frame f).
Proof. unfold dispatch_frame, dispatch_frame_inner. good_go. Qed.

Lemma queue_spec f s :
  Inv s ->
  wpx (queue_incoming_data_frame f)
    (fun _ s' => Inv s' /\ (rx_bytes s' <= rx_bytes s)%nat /\ pending_data_frames (bufs s') <> []) Inv Inv s.
Proof.
  intros Hi. unfold queue_incoming_data_frame. wpx_step; [by apply protocol_error_spec|]. wpx_step.
  eapply wpx_mono; [by apply good_incoming_available| |done|done]. intros _ s1 [Hi1 Hle1]. wpx_step.
  eapply wpx_mono; [by apply good_observe_data| |done|done]. intros _ s2 [Hi2 Hle2]. wpx_step. apply wpx_get.
  wpx_step; [by apply protocol_error_spec|]. apply Nat.leb_gt in Hif0. wpx_step.
  apply reserve_spec; [done|apply len_nonneg|]. intros s3 Hres. pose proof Hres as (-> & _). wpx_step. apply wpx_mod.
  pose proof (queue_push_spec opening (stream_id f) (len (payload f)) (flags f) (payload f) s2 Hi2 eq_refl Hif0 Hres) as Hi3.
  match type of Hi3 with H2Inv.Inv _ ?x => set (s4 := x) in *; assert (pending_data_frames (bufs s4) <> []) as Hne
    by (unfold s4; cbn; by destruct (pending_data_frames (bufs s2))) end.
  change (wpx (st_mod (mark_end_stream (stream_id f) (flags f)) ;;
    replenish_receive_window (stream_id f) (len (payload f)))
    (fun _ s' => Inv s' /\ (rx_bytes s' <= rx_bytes s)%nat /\ pending_data_frames (bufs s') <> []) Inv Inv s4).
  assert (rx_bytes s4 = rx_bytes s2) as Hrx by done. clearbody s4. wpx_step. apply wpx_mod.
  destruct (good_mark_end opening (stream_id f) (flags f) s4 Hi3) as [Hi5 Hle5].
  destruct (mark_end_rest (stream_id f) (flags f) s4) as (_ & _ & Hbufs & _).
  rewrite <- Hbufs in Hne. set (s5 := mark_end_stream (stream_id f) (flags f) s4) in *. clearbody s5.
  pose proof (keeps_replenish bufs (bufs s5) (fun _ _ _ => eq_refl) (fun _ _ _ => eq_refl)
    (stream_id f) (len (payload f)) (fun _ _ => eq_refl) s5 eq_refl) as Hk.
  pose proof (good_replenish opening (stream_id f) (len (payload f)) (len_nonneg _) s5 Hi5) as Hg.
  unfold wpx in *. destruct (replenish_receive_window _ _ s5) as [s6 [u|e| | |]]; try done.
  cbn [fst] in Hk. rewrite Hk. split_and!; [apply Hg|destruct Hg; lia|done].
Qed.
Lemma good_queue f : good (queue_incoming_data_frame f).
Proof.
  intros s Hi. eapply wpx_mono; [by apply queue_spec| |done|done]. intros _ s' (H1 & H2 & _). done.
Qed.
End inv_dispatch.

#[export] Hint Resolve good_dispatch good_queue : h2.

(** ** Loops and public operations *)

Section inv_public.
Context (opening : base).
Abbreviation Inv := (Inv opening).
Abbreviation good := (good opening).
Abbreviation good_at := (good_at opening).

(** The postcondition shared by all operations that start in [s]. *)
Definition fine (s : H2Framer) {A} (_ : A) (s' : H2Framer) : Prop := Inv s' /\ (rx_bytes s' <= rx_bytes s)%nat.

Lemma good_spec {A} (m : h2 A) s (Q : A -> H2Framer -> Prop) :
  good m -> Inv s -> (forall a s', Inv s' -> (rx_bytes s' <= rx_bytes s)%nat -> Q a s') -> wpx m Q Inv Inv s.
Proof. intros Hm Hi HQ. eapply wpx_mono; [by apply Hm| |done|done]. intros a s' []. auto. Qed.
Lemma read_spec s (Q : RawFrame -> H2Framer -> Prop) :
  Inv s -> (forall f s', Inv s' -> (rx_bytes s' < rx_bytes s)%nat -> Q f s') -> wpx read_raw_frame Q Inv Inv s.
Proof.
  intros Hi HQ. eapply wpx_mono; [by apply read_raw_frame_spec| |done|].
  - intros a s' (? & _ & ?). auto.
  - by intros s' [].
Qed.
Lemma fine_le {A} s s1 (a : A) s' : (rx_bytes s1 <= rx_bytes s)%nat -> fine s1 a s' -> fine s a s'.
Proof. intros Hle [Hi Hl]. split; [done|lia]. Qed.

Lemma settings_loop_spec fuel s :
  (rx_bytes s < fuel)%nat -> Inv s -> wpx (settings_loop fuel) (fine s) Inv Inv s.
Proof.
  revert s. induction fuel as [|fuel IH]; intros s Hf Hi; [lia|]. cbn [settings_loop]. wpx_step.
  apply read_spec; [done|]. intros f s1 Hi1 Hlt. wpx_step. apply good_spec; [auto with h2|done|].
  intros _ s2 Hi2 Hle. wpx_step; [wpx_steps; split; [done|lia]|].
  eapply wpx_mono; [apply IH; [lia|done]| |done|done]. intros a s' Hfin. eapply fine_le; [|done]. lia.
Qed.

Lemma read_stream_loop_spec fuel id n s :
  (rx_bytes s < fuel)%nat -> Inv s -> wpx (read_stream_loop fuel id n) (fine s) Inv Inv s.
Proof.
  revert s. induction fuel as [|fuel IH]; intros s Hf Hi; [lia|]. cbn [read_stream_loop]. wpx_step. apply wpx_get.
  wpx_step; [wpx_steps; split; [done|lia]|]. wpx_step. apply good_spec; [auto with h2|done|]. intros _ s1 Hi1 Hle1.
  wpx_step; [by wpx_steps|]. wpx_step. apply good_spec; [auto with h2|done|]. intros _ s2 Hi2 Hle2.
  wpx_step. apply read_spec; [done|]. intros f s3 Hi3 Hlt. wpx_step. apply good_spec; [auto with h2|done|].
  intros _ s4 Hi4 Hle4. eapply wpx_mono; [apply IH; [lia|done]| |done|done]. intros a s' Hfin. eapply fine_le; [|done]. lia.
Qed.

Lemma good_drain : good (st_mod drain_pending_data_frames).
Proof.
  intros s. apply good_at_mod; [apply Inv_drain|]. unfold drain_pending_data_frames.
  destruct (drain_fold (pending_data_frames (bufs s)) s) as (_ & _ & _ & K4 & _). cbn. by rewrite K4.
Qed.
Hint Resolve good_drain good_take_stream_bytes : h2.

Lemma good_read_stream id n : 0 <= n -> good (read_stream id n).
Proof.
  intros Hn. unfold read_stream. do 4 (apply good_bind; [auto with h2|intros _]). apply good_get. intros s.
  apply good_at_bind; [|intros _; auto with h2]. intros Hi. apply read_stream_loop_spec; [unfold loop_fuel; lia|done].
Qed.

Lemma next_data_loop_spec fuel s :
  (rx_bytes s < fuel)%nat -> Inv s -> wpx (next_data_loop fuel) (fine s) Inv Inv s.
Proof.
  revert s. induction fuel as [|fuel IH]; intros s Hf Hi; [lia|]. cbn [next_data_loop]. wpx_step.
  apply read_spec; [done|]. intros f s1 Hi1 Hlt.
  assert (forall s2, Inv s2 -> (rx_bytes s2 <= rx_bytes s1)%nat -> wpx (next_data_loop fuel) (fine s) Inv Inv s2) as Hrec.
  { intros s2 Hi2 Hle. eapply wpx_mono; [apply IH; [lia|done]| |done|done]. intros a s' Hfin. eapply fine_le; [|done]. lia. }
  wpx_step; [wpx_step; [by apply protocol_error_spec|]|wpx_step; [|wpx_step]].
  - wpx_step. eapply wpx_mono; [by apply queue_spec| |done|done]. intros _ s2 (Hi2 & Hle2 & Hne). wpx_step.
    eapply wpx_mono; [by apply pop_data_frame_spec| |done|done]. intros [d|] s3 (Hi3 & Hle3 & Hnone).
    + wpx_steps. split; [done|lia].
    + by destruct (Hne (Hnone eq_refl)).
  - wpx_step. apply good_spec; [auto with h2|done|]. intros _ s2 Hi2 Hle. wpx_step. apply wpx_get.
    destruct (goaway (streams s2)) as [g|]; [|by apply Hrec]. wpx_step; [by wpx_steps|by apply Hrec].
  - wpx_step. apply good_spec; [auto with h2|done|]. intros _ s2 Hi2 Hle. by wpx_steps.
  - wpx_step. apply good_spec; [auto with h2|done|]. intros _ s2 Hi2 Hle. by apply Hrec.
Qed.
Lemma good_read_next_data_frame : good read_next_data_frame.
Proof.
  unfold read_next_data_frame. do 2 (apply good_bind; [auto with h2|intros _]). intros s Hi. wpx_step.
  eapply wpx_mono; [by apply pop_data_frame_spec| |done|done]. intros [d|] s1 (Hi1 & Hle1 & _); [by wpx_steps|].
  wpx_step. apply wpx_get. eapply wpx_mono; [apply next_data_loop_spec; [unfold loop_fuel; lia|done]| |done|done].
  intros a s' Hfin. by eapply fine_le.
Qed.

Lemma ready_returns s id : returns (stream_has_ready_xpc_message s id).
Proof.
  unfold stream_has_ready_xpc_message, Xpc.checked_xpc_body_len. destruct (stream_buffer s id); [|done]. by split_ifs.
Qed.
Lemma first_ready_returns s l : returns (first_ready s l).
Proof.
  induction l as [|id l IH]; cbn [first_ready]; [done|]. apply returns_bind; [apply ready_returns|]. by intros [] _.
Qed.
Lemma first_unfinished_returns s l : returns (first_unfinished s l).
Proof.
  induction l as [|id l IH]; cbn [first_unfinished]; [done|]. destruct (stream_buffer s id) as [[|x b]|]; try done.
  apply returns_bind; [apply ready_returns|]. by intros [] _.
Qed.
Lemma good_select : good select_stream.
Proof.
  unfold select_stream, first_ready_xpc_stream, first_unfinished_closed_stream.
  apply good_bind; [apply good_get; intros s; apply good_at_of, good_lift, first_ready_returns|]. intros [id|]; [auto with h2|].
  apply good_get. intros s. apply good_at_of, good_lift, first_unfinished_returns.
Qed.
Hint Resolve good_select : h2.

Lemma buffer_loop_spec fuel s :
  (rx_bytes s < fuel)%nat -> Inv s -> wpx (buffer_loop fuel) (fine s) Inv Inv s.
Proof.
  revert s. induction fuel as [|fuel IH]; intros s Hf Hi; [lia|]. cbn [buffer_loop]. wpx_step.
  apply read_spec; [done|]. intros f s1 Hi1 Hlt. wpx_step. apply good_spec; [auto with h2|done|]. intros _ s2 Hi2 Hle2.
  wpx_step. apply good_spec; [auto with h2|done|]. intros [id|] s3 Hi3 Hle3; [wpx_steps; split; [done|lia]|].
  eapply wpx_mono; [apply IH; [lia|done]| |done|done]. intros a s' Hfin. eapply fine_le; [|done]. lia.
Qed.
Lemma good_buffer_next : good buffer_next_data_stream.
Proof.
  unfold buffer_next_data_stream. do 3 (apply good_bind; [auto with h2|intros _]).
  apply good_bind; [auto with h2|]. intros [id|]; [auto with h2|]. apply good_get. intros s Hi.
  apply buffer_loop_spec; [unfold loop_fuel; lia|done].
Qed.
End inv_public.

End H2Inv.
