(* ===== verification/H2Conn.v ===== *)
(** The HTTP/2 framer as a connection: what its public operations guarantee in any
    order, against any peer ([crates/ios-core/src/xpc/h2_raw.rs]).

    The first part closes the list of [good] operations with the sending side:
    opening a stream, waiting for flow-control credit and writing DATA. The second
    part runs the public operations as a transition system, in which the caller
    issues any operation and the socket delivers or accepts bytes, stalls or fails
    at any point, and states the connection's properties of all reachable states. *)

From stdpp Require Import relations.
From S2P Require Import Prelude XpcMessage H2Framer H2Read H2Inv.

Module H2Conn.
Import H2 H2Read H2Inv.

(** ** Opening a stream *)

Section inv_send.
Context (opening : base).
Abbreviation Inv := (Inv opening).
Abbreviation good := (good opening).
Abbreviation good_at := (good_at opening).

Lemma Str_local id g : Str g -> Str (forget id (mkStreams ({[id]} ∪ locally_open_streams g) (client_server_open g)
  (server_client_open g) (closed_streams g) (closed_unknown_order g) (peer_open_streams g) (announced_file_streams g)
  (file_stream_candidates g) (file_stream_candidate_data g) (reset_streams g) (reset_unknown_order g)
  (highest_peer_stream_id g) (goaway g))).
Proof.
  intros (H1 & H2 & H3 & H4 & H5 & H6 & H7). apply Str_forget. unfold Str, pinned in *; str_simpl.
  split_and!; try done; set_solver.
Qed.
Lemma Buf_ensure id b : Buf b -> Buf (mkBufs (client_server_buf b) (server_client_buf b)
  (<[id := default [] (stream_bufs b !! id)]> (stream_bufs b)) (pending_data_frames b) (buffered_bytes b)).
Proof.
  intros (He & Hl & Hc & Hp). unfold Buf, buf_total in *.
  cbn [client_server_buf server_client_buf stream_bufs pending_data_frames buffered_bytes]. rewrite msum_replace.
  assert (from_option len 0 (stream_bufs b !! id) = len (default [] (stream_bufs b !! id))) as -> by (by destruct (_ !! id)).
  split_and!; try done; try lia.
  intros i. specialize (Hp i). unfold buf_of in *. cbn [client_server_buf server_client_buf stream_bufs].
  destruct (i =? STREAM_CLIENT_SERVER); [done|]. destruct (i =? STREAM_SERVER_CLIENT); [done|].
  destruct (decide (i = id)) as [->|]; [by rewrite lookup_insert_eq|by rewrite lookup_insert_ne].
Qed.
Lemma Flw_open id w : Flw w -> Flw (mkFlow (pending_window_updates w) (outbound_connection_window w)
  (peer_initial_window_size w) (<[id := peer_initial_window_size w]> (outbound_stream_windows w)) (outbound_max_frame_size w)).
Proof.
  intros (H1 & H2 & H3 & H4 & H5). unfold Flw. cbn. split_and!; try done; try lia.
  apply map_Forall_insert_2; [|done]. unfold window_ok. lia.
Qed.

Lemma good_mark_open id : good (st_mod (mark_stream_open id)).
Proof.
  intros s. apply good_at_mod; [|unfold mark_stream_open; by split_ifs].
  intros (Hb & Hs & Hf & Hw & Hr). unfold mark_stream_open.
  pose proof (Flw_open id _ Hf). split_ifs; split_and!; try done.
  - by apply Buf_ensure.
  - by apply (Str_local id).
Qed.
Hint Resolve good_mark_open good_write_all_tracked good_marker : h2.

Lemma good_open_stream id : good (open_stream id).
Proof.
  unfold open_stream. good_go. by apply good_write_all_tracked, is_frame_control; [|simpl; lia|..].
Qed.
Hint Resolve good_open_stream : h2.

(** ** Flow-control credit *)

(** What may be sent on a stream right now. *)
Definition credit (s : H2Framer) (id : Z) : Z :=
  match outbound_stream_windows (flow s) !! id with
  | None => 0
  | Some w => Z.max 0 (Z.min (Z.min (outbound_max_frame_size (flow s)) (outbound_connection_window (flow s))) w)
  end.

Lemma stream_available_spec id s (Q : unit -> H2Framer -> Prop) (R T : H2Framer -> Prop) :
  R s -> Q tt s -> wpx (ensure_stream_available id) Q R T s.
Proof.
  intros Hi HQ. unfold ensure_stream_available, ensure_connection_open.
  repeat first [done | wpx_step | match goal with |- wpx (match ?x with _ => _ end) _ _ _ _ => destruct x end].
Qed.

Lemma outbound_budget_spec id s (Q : Z -> H2Framer -> Prop) (R T : H2Framer -> Prop) :
  Inv s -> R s -> Q (credit s id) s -> wpx (outbound_budget id) Q R T s.
Proof.
  intros Hi HR HQ. pose proof Hi as (_ & _ & (F1 & F2 & F3 & F4 & F5) & _). unfold outbound_budget. wpx_step.
  apply stream_available_spec; [done|]. wpx_step. apply wpx_get. unfold credit in HQ.
  destruct (outbound_stream_windows (flow s) !! id) as [w|]; [|by wpx_steps].
  unfold MAX_FRAME_PAYLOAD in *. destruct (_ || _) eqn:E; wpx_steps;
    lazymatch type of HQ with Q ?x _ => lazymatch goal with |- Q ?y _ => by replace y with x by lia end end.
Qed.

Lemma credit_bounds s id : Inv s -> 0 <= credit s id <= MAX_NEGOTIATED_FRAME_SIZE.
Proof.
  intros (_ & _ & (F1 & F2 & F3 & F4 & F5) & _). unfold credit, MAX_NEGOTIATED_FRAME_SIZE in *.
  destruct (_ !! id); lia.
Qed.

Lemma credit_granted s id :
  credit s id <= 0 \/
  credit s id <= outbound_connection_window (flow s) /\ credit s id <= default 0 (outbound_stream_windows (flow s) !! id).
Proof. unfold credit. destruct (_ !! id); cbn; lia. Qed.
Lemma good_consume id n : 0 <= n -> good (consume_outbound_window id n).
Proof.
  intros Hn. unfold consume_outbound_window. good_go. apply good_at_mod; [|done].
  intros (Hb & Hs & (F1 & F2 & F3 & F4 & F5) & Hw & Hr).
  match goal with H : _ !! _ = Some ?z |- _ => pose proof (F3 _ _ H) as Hz end.
  split_and!; try done. unfold window_ok in Hz. unfold Flw. cbn. split_and!; try done; try lia.
  apply map_Forall_insert_2; [|done]. unfold window_ok. lia.
Qed.

Lemma capacity_loop_spec fuel id s :
  (rx_bytes s < fuel)%nat -> Inv s ->
  wpx (capacity_loop fuel id) (fun a s' => fine opening s a s' /\ 0 < credit s' id) Inv Inv s.
Proof.
  revert s. induction fuel as [|fuel IH]; intros s Hf Hi; [lia|]. cbn [capacity_loop]. wpx_step.
  apply stream_available_spec; [done|]. wpx_step. apply outbound_budget_spec; [done|done|].
  wpx_step; [wpx_steps; split; [by split; [|lia]|lia]|]. wpx_step. apply good_spec; [auto with h2|done|].
  intros _ s1 Hi1 Hle1. wpx_step. apply read_spec; [done|]. intros f s2 Hi2 Hlt. wpx_step.
  apply good_spec; [destruct (frame_type f =? FRAME_DATA); auto with h2|done|]. intros _ s3 Hi3 Hle3.
  eapply wpx_mono; [apply IH; [lia|done]| |done|done]. intros a s' [Hfin Hc]. split; [|done].
  eapply fine_le; [|done]. lia.
Qed.
End inv_send.

#[export] Hint Resolve good_open_stream good_marker : h2.

(** ** What a write puts on the wire *)

(** Everything the socket took, and the tail it still owes. *)
Definition out (s : H2Framer) : bytes := tx (io s) ++ default [] (pending_write (io s)).

Definition is_data (f : RawFrame) : bool := frame_type f =? FRAME_DATA.
(** The DATA payloads of a sequence of frames. *)
Definition data_of (fs : list RawFrame) : bytes := concat (map payload (filter is_data fs)).

(** From [s] to [s'] whole frames went out, and the DATA frames among them are on
    stream [id] and carry [d]. *)
Definition posts (id : Z) (d : bytes) (s s' : H2Framer) : Prop :=
  exists fs, out s' = out s ++ wires fs /\ data_of fs = d /\
    Forall (fun f => len (payload f) <= MAX_NEGOTIATED_FRAME_SIZE /\ (is_data f -> stream_id f = id) /\
      (in_u 31 id -> header_ok f)) fs.

Lemma posts_trans id d1 d2 s1 s2 s3 : posts id d1 s1 s2 -> posts id d2 s2 s3 -> posts id (d1 ++ d2) s1 s3.
Proof.
  intros (f1 & H1 & D1 & F1) (f2 & H2 & D2 & F2). exists (f1 ++ f2). unfold wires, data_of in *.
  rewrite filter_app, !map_app, !concat_app, H2, H1, D1, D2, <- app_assoc. split_and!; try done. by apply Forall_app_2.
Qed.
Lemma posts_quiet id d s1 s2 s3 : posts id [] s1 s2 -> posts id d s2 s3 -> posts id d s1 s3.
Proof. apply (posts_trans id []). Qed.
Lemma posts_same id s s' : out s' = out s -> posts id [] s s'.
Proof. intros E. exists []. split_and!; [by rewrite app_nil_r|done|done]. Qed.
Lemma posts_frame id p s s' :
  len p <= MAX_NEGOTIATED_FRAME_SIZE -> out s' = out s ++ build_data_frame id p -> posts id p s s'.
Proof.
  intros Hl E. exists [mkFrame FRAME_DATA 0 id p]. split_and!.
  - rewrite E. f_equal. unfold wires. cbn [map concat]. by rewrite app_nil_r.
  - unfold data_of. rewrite filter_cons_True by done. rewrite filter_nil. cbn [map concat payload]. by rewrite app_nil_r.
  - apply Forall_singleton. split; [done|]. split; [done|]. intros Hid. by split_and!.
Qed.

Lemma data_of_control fs : Forall (fun f => frame_type f <> FRAME_DATA) fs -> data_of fs = [].
Proof.
  intros H. unfold data_of. assert (filter is_data fs = []) as ->; [|done].
  induction H as [|f fs Hf _ IH]; [done|]. rewrite filter_cons_False; [done|].
  unfold is_data. rewrite (proj2 (Z.eqb_neq _ _) Hf). by intros [].
Qed.
Lemma posts_control id s s' : Inv (mkBase (out s) false) s' -> posts id [] s s'.
Proof.
  intros (_ & _ & _ & (fs & Hf & Hw) & _). exists fs. cbn [sent] in Hw. split_and!; [done| |].
  - apply data_of_control. eapply Forall_impl; [done|]. intros f [_ H]. by apply H.
  - eapply Forall_impl; [done|]. intros f (Hl & H & Hok). split; [done|]. split; [|done]. unfold is_data. intros Hd%Is_true_true%Z.eqb_eq. by destruct (H eq_refl).
Qed.
Lemma Inv_rebase o s k : Inv o s -> Inv (mkBase (out s) k) s.
Proof.
  intros (Hb & Hs & Hf & _ & Hr). split_and!; try done. exists []. split; [done|]. by rewrite app_nil_r.
Qed.

Lemma wpx_both {A} (m : h2 A) (Q1 Q2 : A -> H2Framer -> Prop) R1 R2 T1 T2 s :
  wpx m Q1 R1 T1 s -> wpx m Q2 R2 T2 s ->
  wpx m (fun a s' => Q1 a s' /\ Q2 a s') (fun s' => R1 s' /\ R2 s') (fun s' => T1 s' /\ T2 s') s.
Proof. unfold wpx. by destruct (m s) as [s' [a|e| | |]]. Qed.

Lemma write_frame_out bs s :
  pending_write (io s) = None ->
  wpx (write_frame_bytes bs) (fun _ s' => out s' = out s ++ bs /\ pending_write (io s') = None)
    (fun s' => out s' = out s ++ bs) (fun s' => out s' = out s ++ bs) s.
Proof.
  intros Hp. unfold out at 2 4 6. rewrite Hp. cbn. rewrite app_nil_r.
  eapply wpx_mono; [by apply write_loop_spec| | |].
  - intros _ s' (_ & Ht & Hp'). split; [|done]. unfold out. by rewrite Hp', app_nil_r.
  - by intros s' [_ Ht].
  - by intros s' [_ Ht].
Qed.
(** A frame is on its way as a whole, or not at all. *)
Definition all_or_none (bs : bytes) (s s' : H2Framer) : Prop := out s' = out s \/ out s' = out s ++ bs.
Lemma write_all_tracked_out bs s :
  wpx (write_all_tracked bs) (fun _ s' => out s' = out s ++ bs /\ pending_write (io s') = None)
    (all_or_none bs s) (all_or_none bs s) s.
Proof.
  unfold write_all_tracked, finish_pending_write. wpx_step. wpx_step. apply wpx_get.
  assert (forall s1, out s1 = out s -> pending_write (io s1) = None ->
    wpx (write_frame_bytes bs) (fun _ s' => out s' = out s ++ bs /\ pending_write (io s') = None)
      (all_or_none bs s) (all_or_none bs s) s1) as Hnext.
  { intros s1 Ho Hp. rewrite <- Ho. eapply wpx_mono; [by apply write_frame_out|done| |]; intros s' ?; right; congruence. }
  destruct (pending_write (io s)) as [p|] eqn:Ep; [|wpx_steps; by apply Hnext].
  wpx_step. apply wpx_mod. eapply wpx_mono; [by apply write_loop_spec| | |].
  - intros _ s1 (_ & Ht & Hp). apply Hnext; [|done]. unfold out. rewrite Hp, Ep, Ht. cbn. by rewrite app_nil_r.
  - intros s1 (_ & Ht). left. unfold out. by rewrite Ep, Ht.
  - intros s1 (_ & Ht). left. unfold out. by rewrite Ep, Ht.
Qed.

Section sending.
Context (o : base) (Ho : data_allowed o = true) (id : Z).

(** A failed or dropped write has put a prefix of the data on the wire. *)
Definition partial (data : bytes) (s s' : H2Framer) : Prop :=
  Inv o s' /\ exists d, d `prefix_of` data /\ posts id d s s'.
Definition complete (data : bytes) (s : H2Framer) (a : unit) (s' : H2Framer) : Prop :=
  fine o s a s' /\ posts id data s s' /\
  (data <> [] \/ pending_write (io s) = None -> pending_write (io s') = None).

Lemma partial_quiet data s s1 s' : posts id [] s s1 -> partial data s1 s' -> partial data s s'.
Proof. intros Hq (Hi & d & Hd & Hp). split; [done|]. exists d. split; [done|]. by eapply posts_quiet. Qed.
Lemma partial_nil data s s' : Inv o s' -> posts id [] s s' -> partial data s s'.
Proof. intros Hi Hp. split; [done|]. exists []. split; [apply prefix_nil|done]. Qed.
Lemma partial_app d data s s1 s' : posts id d s s1 -> partial data s1 s' -> partial (d ++ data) s s'.
Proof.
  intros Hq (Hi & d' & Hd & Hp). split; [done|]. exists (d ++ d'). split; [by apply prefix_app|by eapply posts_trans].
Qed.

(** A control operation puts no DATA on the wire. *)
Lemma quiet_spec {A} (m : h2 A) data s (P Q : A -> H2Framer -> Prop) :
  (forall o', Inv o' s -> wpx m (fun a s' => Inv o' s' /\ P a s') (Inv o') (Inv o') s) -> Inv o s ->
  (forall a s', Inv o s' -> P a s' -> posts id [] s s' -> Q a s') ->
  wpx m Q (partial data s) (partial data s) s.
Proof.
  intros Hm Hi HQ. eapply wpx_mono;
    [apply wpx_both; [apply (Hm o Hi)|apply (Hm (mkBase (out s) false)); by eapply Inv_rebase]| | |].
  - intros a s' [[Hi' HP] [Hc _]]. apply HQ; [done|done|by apply posts_control].
  - intros s' [Hi' Hc]. apply partial_nil; [done|by apply posts_control].
  - intros s' [Hi' Hc]. apply partial_nil; [done|by apply posts_control].
Qed.
Lemma good_quiet {A} (m : h2 A) data s (Q : A -> H2Framer -> Prop) :
  (forall o', good o' m) -> Inv o s ->
  (forall a s', Inv o s' -> (rx_bytes s' <= rx_bytes s)%nat -> posts id [] s s' -> Q a s') ->
  wpx m Q (partial data s) (partial data s) s.
Proof. intros Hm. apply quiet_spec. intros o' Hi. by apply Hm. Qed.

Lemma write_data_frame_spec data p s (Q : unit -> H2Framer -> Prop) :
  len p <= MAX_NEGOTIATED_FRAME_SIZE -> p `prefix_of` data -> Inv o s ->
  (forall s', Inv o s' -> (rx_bytes s' <= rx_bytes s)%nat -> posts id p s s' -> pending_write (io s') = None -> Q tt s') ->
  wpx (write_all_tracked (build_data_frame id p)) Q (partial data s) (partial data s) s.
Proof.
  intros Hl Hp Hi HQ.
  assert (forall s', Inv o s' -> all_or_none (build_data_frame id p) s s' -> partial data s s') as Hpart.
  { intros s' Hi' [E|E]; [by apply partial_nil, posts_same|]. split; [done|]. exists p. split; [done|by apply posts_frame]. }
  eapply wpx_mono; [apply wpx_both; [apply (good_write_all_tracked o); [|done]|apply write_all_tracked_out]| | |].
  - apply is_frame_build; [done|by rewrite Ho|done|done].
  - intros [] s' [[Hi' Hle] [E Hn]]. apply HQ; [done|done|by apply posts_frame|done].
  - intros s' [Hi' E]. by apply Hpart.
  - intros s' [Hi' E]. by apply Hpart.
Qed.

Lemma write_data_loop_spec fuel data s :
  (2 * length data <= fuel)%nat \/ (2 * length data <= S fuel)%nat /\ 0 < credit s id ->
  Inv o s -> wpx (write_data_loop fuel id data) (complete data s) (partial data s) (partial data s) s.
Proof.
  revert data s. induction fuel as [|fuel IH]; intros [|b data] s Hf Hi;
    try (wpx_steps; split; [by split|split; [by apply posts_same|by intros [?|?]]]); try (simpl in Hf; lia).
  cbn [write_data_loop]. set (c := b :: data) in *.
  assert (0 < len c) by (unfold len, c; simpl; lia).
  assert (partial c s s) as Hself by (by apply partial_nil, posts_same).
  wpx_step. apply stream_available_spec; [done|]. wpx_step. apply (outbound_budget_spec o); [done|done|].
  pose proof (credit_bounds o s id Hi) as Hc. wpx_step.
  - wpx_step. unfold wait_for_outbound_capacity. wpx_step. apply wpx_get.
    apply (quiet_spec _ _ _ (fun _ s' => (rx_bytes s' <= rx_bytes s)%nat /\ 0 < credit s' id)); [|done|].
    { intros o' Hi'. eapply wpx_mono; [apply (capacity_loop_spec o'); [unfold loop_fuel; lia|done]| |done|done].
      by intros _ s1 [[Hi1 Hle1] Hc1]. }
    intros _ s1 Hi1 [Hle1 Hc1] Hp1. eapply wpx_mono; [apply IH; [lia|done]| | |].
    + intros a s' (Hfin & Hp & Hn). split; [by eapply fine_le|]. split; [by eapply posts_quiet|]. intros _. apply Hn. by left.
    + intros s'. by apply partial_quiet.
    + intros s'. by apply partial_quiet.
  - cbv zeta. set (n := Z.to_nat (Z.min (credit s id) (len c))).
    assert (0 < n <= length c)%nat as Hn by (unfold n, len in *; lia).
    assert (len (take n c) <= MAX_NEGOTIATED_FRAME_SIZE) by (unfold len in *; rewrite length_take; unfold n; lia).
    wpx_step. apply good_quiet; [intros o'; apply good_consume, len_nonneg|done|]. intros _ s1 Hi1 Hle1 Hp1. wpx_step.
    eapply wpx_mono; [apply (write_data_frame_spec c (take n c) s1
      (fun _ s2 => (Inv o s2 /\ (rx_bytes s2 <= rx_bytes s1)%nat) /\ posts id (take n c) s1 s2 /\ pending_write (io s2) = None));
      try done| | |].
    + eexists. symmetry. apply take_drop.
    + intros _ s2 ([Hi2 Hle2] & Hp2 & Hn2). pose proof (posts_quiet _ _ _ _ _ Hp1 Hp2) as Hp.
      eapply wpx_mono; [apply IH; [left; rewrite length_drop; lia|done]| | |].
      * intros a s' (Hfin & Hp' & Hn'). split; [eapply fine_le; [|done]; lia|]. rewrite <- (take_drop n c) at 1.
        split; [by eapply posts_trans|]. intros _. apply Hn'. by right.
      * intros s' Hp'. rewrite <- (take_drop n c). by eapply partial_app.
      * intros s' Hp'. rewrite <- (take_drop n c). by eapply partial_app.
    + intros s'. by apply partial_quiet.
    + intros s'. by apply partial_quiet.
Qed.

Lemma flush_spec s (Q : unit -> H2Framer -> Prop) (R : H2Framer -> Prop) :
  (forall w, Q tt (set_wr w s)) -> (forall w, R (set_wr w s)) -> wpx flush Q R R s.
Proof.
  intros HQ HR. unfold wpx, flush. destruct (wr (io s)) as [|[n| |] w] eqn:E; auto;
    specialize (HQ (wr (io s))); by destruct s as [[] ? ? ? ? ?].
Qed.
Definition delivered (data : bytes) (s : H2Framer) (a : unit) (s' : H2Framer) : Prop :=
  fine o s a s' /\ posts id data s s' /\ pending_write (io s') = None.
Lemma write_stream_spec data s :
  Inv o s -> wpx (write_stream id data) (delivered data s) (partial data s) (partial data s) s.
Proof.
  intros Hi. unfold write_stream. wpx_step. apply good_quiet; [auto with h2|done|]. intros _ s1 Hi1 Hle1 Hp1.
  wpx_step. apply stream_available_spec; [by apply partial_nil|]. wpx_step.
  eapply (wpx_mono _ (delivered data s1) _ (partial data s1) _ (partial data s1)).
  - destruct data as [|b data].
    + apply write_data_frame_spec; [done|done|done|]. intros s2 Hi2 Hle2 Hp2 Hn2. by split.
    + eapply wpx_mono; [apply write_data_loop_spec; [by left|done]| |done|done].
      intros a s2 (Hfin & Hp2 & Hn2). split; [done|]. split; [done|]. apply Hn2. by left.
  - intros _ s2 ([Hi2 Hle2] & Hp2 & Hn2). pose proof (posts_quiet _ _ _ _ _ Hp1 Hp2) as Hp.
    apply flush_spec; intros w.
    + split; [split; [done|unfold rx_bytes in *; cbn; lia]|by split].
    + split; [done|]. by exists data.
  - intros s'. by apply partial_quiet.
  - intros s'. by apply partial_quiet.
Qed.
Lemma good_write_stream data : good o (write_stream id data).
Proof.
  intros s Hi. eapply wpx_mono; [by apply write_stream_spec| | |].
  - by intros a s' [Hfin _].
  - by intros s' [Hi' _].
  - by intros s' [Hi' _].
Qed.
End sending.

(** ** Flow control *)

Lemma wpx_keep {A X} (proj : H2Framer -> X) (m : h2 A) (Q : A -> H2Framer -> Prop) (R T : H2Framer -> Prop) s :
  wpx m Q R T s -> preserves (fun s' => proj s' = proj s) m ->
  wpx m (fun a s' => Q a s' /\ proj s' = proj s) (fun s' => R s' /\ proj s' = proj s) (fun s' => T s' /\ proj s' = proj s) s.
Proof. unfold wpx. intros Hw Hk. specialize (Hk s eq_refl). by destruct (m s) as [s' [a|e| | |]]. Qed.
Lemma keeps_flow_write bs w : preserves (fun s => flow s = w) (write_all_tracked bs).
Proof. apply preserves_bind; [by apply keeps_finish|intros _; by apply keeps_write_loop]. Qed.

(** The credit left on the connection and on a stream. *)
Definition connection_credit (s : H2Framer) : Z := outbound_connection_window (flow s).
Definition stream_credit (s : H2Framer) (id : Z) : Z := default 0 (outbound_stream_windows (flow s) !! id).

Definition granted (id : Z) (d : bytes) (s : H2Framer) : Prop :=
  d = [] \/ len d <= connection_credit s /\ len d <= stream_credit s id.

(** [d] was within the credit, was sent, and exactly, or at least, as much credit was
    given up. *)
Definition charged (id : Z) (d : bytes) (s s' : H2Framer) : Prop :=
  granted id d s /\ posts id d s s' /\ connection_credit s' = connection_credit s - len d /\
  stream_credit s' id = stream_credit s id - len d.
Definition covered (id : Z) (d : bytes) (s s' : H2Framer) : Prop :=
  granted id d s /\ posts id d s s' /\ connection_credit s' <= connection_credit s - len d /\
  stream_credit s' id <= stream_credit s id - len d.

Section starved.
Context (o : base) (Ho : data_allowed o = true) (id : Z).

Definition covered_part (data : bytes) (s s' : H2Framer) : Prop := exists d, d `prefix_of` data /\ covered id d s s'.

Lemma covered_same data s s' : posts id [] s s' -> flow s' = flow s -> covered_part data s s'.
Proof.
  intros Hp Hf. exists []. split; [apply prefix_nil|]. unfold covered, connection_credit, stream_credit.
  rewrite Hf. change (len (@nil byte)) with 0. split; [by left|]. split_and!; try done; lia.
Qed.
Lemma granted_app d d' s s1 : charged id d s s1 -> granted id d' s1 -> granted id (d ++ d') s.
Proof.
  intros (G1 & _ & C1 & S1) [->|[G2 G2']]; [by rewrite app_nil_r|]. rewrite C1 in G2. rewrite S1 in G2'.
  right. rewrite len_app. lia.
Qed.
Lemma charged_app d d' s s1 s' : charged id d s s1 -> charged id d' s1 s' -> charged id (d ++ d') s s'.
Proof.
  intros H1 (G & P & C & S). split; [by eapply granted_app|]. destruct H1 as (_ & P1 & C1 & S1).
  split; [by eapply posts_trans|]. rewrite len_app. lia.
Qed.
Lemma covered_app d data s s1 s' : charged id d s s1 -> covered_part data s1 s' -> covered_part (d ++ data) s s'.
Proof.
  intros H1 (d' & Hd & G & P & C & S). exists (d ++ d'). split; [by apply prefix_app|].
  split; [by eapply granted_app|]. destruct H1 as (_ & P1 & C1 & S1).
  split; [by eapply posts_trans|]. rewrite len_app. lia.
Qed.
Lemma charged_same s s' : posts id [] s s' -> flow s' = flow s -> charged id [] s s'.
Proof.
  intros Hp Hf. split; [by left|]. split; [done|]. unfold connection_credit, stream_credit. rewrite Hf.
  change (len (@nil byte)) with 0. lia.
Qed.

(** With nothing to read, waiting for credit does not return. *)
Lemma starved_wait data s (Q : unit -> H2Framer -> Prop) :
  Inv o s -> rx_bytes s = 0%nat -> credit s id = 0 ->
  wpx (wait_for_outbound_capacity id) Q (covered_part data s) (covered_part data s) s.
Proof.
  intros Hi Hrx Hc. assert (forall w, covered_part data s (set_wr w s)) as Hself by (intros w; by apply covered_same; [apply posts_same|]).
  assert (covered_part data s s) by (by apply covered_same; [apply posts_same|]).
  unfold wait_for_outbound_capacity, loop_fuel. wpx_step. apply wpx_get. rewrite Hrx. cbn [capacity_loop].
  wpx_step. apply stream_available_spec; [done|]. wpx_step. apply (outbound_budget_spec o); [done|done|].
  rewrite Hc. cbn [Z.ltb Z.compare]. wpx_step. apply flush_spec; [|done]. intros w. wpx_step.
  assert (Inv (mkBase (out s) false) (set_wr w s)) as Hb by (apply (Inv_rebase o _ _ Hi)).
  eapply wpx_mono; [apply (wpx_keep flow); [apply (read_raw_frame_spec _ _ Hb)|by apply keeps_read_raw_frame]| | |].
  - intros f s' [(_ & _ & Hlt) _]. change (rx_bytes s' < rx_bytes s)%nat in Hlt. lia.
  - intros s' [Hi' Hf]. apply covered_same; [by apply posts_control|done].
  - intros s' [[Hi' _] Hf]. apply covered_same; [by apply posts_control|done].
Qed.

Lemma consume_exact n s (Q : unit -> H2Framer -> Prop) R T :
  Inv o s -> 0 < n <= credit s id ->
  (forall s', Inv o s' -> rx_bytes s' = rx_bytes s -> out s' = out s ->
     connection_credit s' = connection_credit s - n -> stream_credit s' id = stream_credit s id - n -> Q tt s') ->
  wpx (consume_outbound_window id n) Q R T s.
Proof.
  intros Hi Hn HQ. pose proof (good_consume o id n ltac:(lia) s Hi) as Hg.
  pose proof Hi as (_ & _ & (F1 & F2 & F3 & F4 & F5) & _). unfold credit in Hn.
  destruct (outbound_stream_windows (flow s) !! id) as [w|] eqn:E; [|lia]. pose proof (F3 _ _ E) as Hw.
  revert Hg. unfold consume_outbound_window, wpx, mbind, st_bind, st_get.
  unfold window_ok, MAX_FLOW_CONTROL_WINDOW in *. assert (in_i64 n = true) as -> by (unfold in_i64; lia). cbn [negb].
  rewrite E. assert ((outbound_connection_window (flow s) <? n) || (w <? n) = false) as -> by lia.
  cbn [st_mod]. intros [Hi' _]. apply HQ; [done|done|done|done|]. unfold stream_credit. cbn. by rewrite lookup_insert_eq, E.
Qed.

Lemma starved_loop fuel data s :
  (2 * length data <= fuel)%nat -> Inv o s -> rx_bytes s = 0%nat ->
  wpx (write_data_loop fuel id data) (fun _ s' => charged id data s s') (covered_part data s) (covered_part data s) s.
Proof.
  revert data s. induction fuel as [|fuel IH]; intros [|b data] s Hf Hi Hrx;
    try (wpx_steps; by apply charged_same; [apply posts_same|]); try (simpl in Hf; lia).
  cbn [write_data_loop]. set (c := b :: data) in *. assert (0 < len c) by (unfold len, c; simpl; lia).
  assert (covered_part c s s) by (by apply covered_same; [apply posts_same|]).
  wpx_step. apply stream_available_spec; [done|]. wpx_step. apply (outbound_budget_spec o); [done|done|].
  pose proof (credit_bounds o s id Hi) as Hc. wpx_step; [wpx_step; apply starved_wait; [done|done|lia]|].
  cbv zeta. set (n := Z.to_nat (Z.min (credit s id) (len c))).
  assert (len (take n c) = Z.min (credit s id) (len c)) as Hl by (unfold len in *; rewrite length_take; unfold n; lia).
  wpx_step. apply consume_exact; [done|lia|]. intros s1 Hi1 Hr1 Ho1 C1 S1. wpx_step.
  assert (forall s2, out s2 = out s ++ build_data_frame id (take n c) -> flow s2 = flow s1 -> charged id (take n c) s s2) as Hch.
  { intros s2 Hout Hfl. split; [right; pose proof (credit_granted s id); unfold connection_credit, stream_credit; lia|]. split; [apply posts_frame; [lia|done]|]. unfold connection_credit, stream_credit in *. by rewrite Hfl. }
  assert (forall s2, all_or_none (build_data_frame id (take n c)) s1 s2 -> flow s2 = flow s1 -> covered_part c s s2) as Hpart.
  { intros s2 [E|E] Hfl; rewrite Ho1 in E.
    - exists []. split; [apply prefix_nil|]. split; [by left|]. split; [by apply posts_same|].
      unfold connection_credit, stream_credit in *. rewrite Hfl. change (len (@nil byte)) with 0. lia.
    - rewrite <- (take_drop n c). apply (covered_app _ _ _ s2); [by apply Hch|]. by apply covered_same; [apply posts_same|]. }
  eapply wpx_mono; [apply (wpx_keep flow); [apply wpx_both; [apply (good_write_all_tracked o); [|done]|apply write_all_tracked_out]|apply keeps_flow_write]| | |].
  - apply is_frame_build; [lia|by rewrite Ho|done|done].
  - intros _ s2 [[[Hi2 Hle2] [E _]] Hfl]. rewrite Ho1 in E. specialize (Hch s2 E Hfl).
    eapply wpx_mono; [apply IH; [rewrite length_drop; unfold n, len in *; lia|done|lia]| | |].
    + intros a s' Hch'. rewrite <- (take_drop n c). by eapply charged_app.
    + intros s' Hp. rewrite <- (take_drop n c). by eapply covered_app.
    + intros s' Hp. rewrite <- (take_drop n c). by eapply covered_app.
  - intros s2 [[_ E] Hfl]. by apply Hpart.
  - intros s2 [[_ E] Hfl]. by apply Hpart.
Qed.
(** Opening a stream again does nothing but finish what was owed. *)
Lemma open_again data s (Q : unit -> H2Framer -> Prop) :
  Inv o s -> stream_already_open s id = true ->
  (forall s', Inv o s' -> rx_bytes s' = rx_bytes s -> flow s' = flow s -> posts id [] s s' -> Q tt s') ->
  wpx (open_stream id) Q (covered_part data s) (covered_part data s) s.
Proof.
  intros Hi Hopen HQ. unfold open_stream.
  assert (covered_part data s s) by (by apply covered_same; [apply posts_same|]).
  wpx_step. unfold ensure_connection_open. wpx_step. apply wpx_get.
  destruct (connection_error (ctl s)); [by wpx_steps|]. destruct (open_stream_in_progress (ctl s)); [by wpx_steps|].
  wpx_step; [by wpx_steps|]. apply wpx_ret. wpx_step.
  eapply wpx_mono; [apply (wpx_keep flow); [apply wpx_both; [by apply (finish_pending_write_spec o)|
    apply (finish_pending_write_spec (mkBase (out s) false)); by eapply Inv_rebase]|by apply keeps_finish]| | |].
  - intros _ s1 [[(Hot & Hi1 & _) (_ & Hc & _)] Hfl]. apply (posts_control id) in Hc.
    assert (covered_part data s s1) as Hcov by (by apply covered_same).
    assert (rx_bytes s1 = rx_bytes s) as Hrx by (by apply rx_bytes_only_tx).
    assert (stream_already_open s1 id = true) as Hopen1.
    { destruct Hot as (_ & _ & _ & E & _). unfold stream_already_open in *. by rewrite E. }
    wpx_step.
    { unfold wpx, connection_protocol_error. destruct (connection_error (ctl s1)); [done|]. exact Hcov. }
    wpx_step. apply stream_available_spec; [done|]. wpx_step. apply wpx_get. wpx_step; [by wpx_steps|].
    rewrite Hopen1. apply wpx_ret. by apply HQ.
  - intros s1 [[_ Hc] Hfl]. by apply covered_same; [apply posts_control|].
  - intros s1 [[_ [Hc _]] Hfl]. by apply covered_same; [apply posts_control|].
Qed.

Lemma covered_quiet data s s1 s' : posts id [] s s1 -> flow s1 = flow s -> covered_part data s1 s' -> covered_part data s s'.
Proof.
  intros Hp Hf. apply (covered_app []). by apply charged_same.
Qed.
Lemma starved_write data s :
  data <> [] -> Inv o s -> rx_bytes s = 0%nat -> stream_already_open s id = true ->
  wpx (write_stream id data) (fun _ s' => charged id data s s') (covered_part data s) (covered_part data s) s.
Proof.
  intros Hne Hi Hrx Hopen. unfold write_stream. wpx_step. apply open_again; [done|done|].
  intros s1 Hi1 Hr1 Hf1 Hp1. wpx_step. apply stream_available_spec; [by apply covered_same|]. wpx_step.
  destruct data as [|b data]; [done|].
  eapply wpx_mono; [apply starved_loop; [done|done|lia]| | |].
  - intros a s2 Hch. pose proof (charged_app [] _ _ _ _ (charged_same _ _ Hp1 Hf1) Hch) as Hc. clear Hch.
    apply flush_spec; intros w; [exact Hc|]. exists (b :: data). split; [done|].
    destruct Hc as (G & P & C & S). split_and!; [exact G|exact P| |]; unfold connection_credit, stream_credit in *;
      cbn [flow set_wr upd_io app] in *; lia.
  - intros s'. by apply covered_quiet.
  - intros s'. by apply covered_quiet.
Qed.
End starved.

(** ** The connection as a transition system *)

(** The calls a client of the framer can make. *)
Inductive op :=
  | ReadStream (id n : Z) | ReadNextDataFrame | BufferNextDataStream
  | OpenStream (id : Z) | WriteStream (id : Z) (data : bytes)
  | BeginMessageBody | EndMessageBody | EnsureReusable | FinishPendingWrite.

(** [n] is a [usize]. *)
Definition op_ok (c : op) : Prop := match c with ReadStream _ n => 0 <= n | _ => True end.

Definition call (c : op) : h2 unit :=
  match c with
  | ReadStream id n => read_stream id n ;; mret tt
  | ReadNextDataFrame => read_next_data_frame ;; mret tt
  | BufferNextDataStream => buffer_next_data_stream ;; mret tt
  | OpenStream id => open_stream id
  | WriteStream id data => write_stream id data
  | BeginMessageBody => begin_message_body
  | EndMessageBody => end_message_body
  | EnsureReusable => ensure_reusable
  | FinishPendingWrite => finish_pending_write_for_read
  end.

(** The client makes a call, which ends in any way, or the socket's future is
    extended: the peer sends more, and writes will be taken as [wr] says. *)
Inductive step : H2Framer -> H2Framer -> Prop :=
  | step_call c s : op_ok c -> step s (call c s).1
  | step_socket evs wr s : step s (set_rx (rx (io s) ++ evs) (set_wr wr s)).

Definition client_opening : bytes := H2_PREFACE ++ opening_settings ++ opening_window.
Definition session : base := mkBase client_opening true.

(** A state of a framer that [connect] returned, after any calls. *)
Definition reachable (s : H2Framer) : Prop :=
  exists rx wr s0, connect rx wr = (s0, Ok tt) /\ rtc step s0 s.

Lemma good_call c : op_ok c -> good session (call c).
Proof.
  intros Hc. destruct c; cbn [call op_ok] in *.
  - apply good_bind; [by apply good_read_stream|auto with h2].
  - apply good_bind; [apply good_read_next_data_frame|auto with h2].
  - apply good_bind; [apply good_buffer_next|auto with h2].
  - apply good_open_stream.
  - by apply good_write_stream.
  - by apply good_marker.
  - by apply good_marker.
  - apply good_ensure_open.
  - apply good_bind; auto with h2.
Qed.

Lemma write_all_loop_spec fuel bs s :
  (length bs <= fuel)%nat -> pending_write (io s) = None ->
  wpx (write_all_loop fuel bs)
    (fun _ s' => only_tx s s' /\ tx (io s') = tx (io s) ++ bs /\ pending_write (io s') = None)
    (fun _ => True) (fun _ => True) s.
Proof.
  revert bs s. induction fuel as [|fuel IH]; intros [|b bs] s Hf Hp; try (simpl in Hf; lia);
    cbn [write_all_loop]; try (wpx_steps; by rewrite app_nil_r).
  set (c := b :: bs) in *. wpx_step.
  assert (forall n s1, (0 < n <= length c)%nat -> only_tx s s1 -> pending_write (io s1) = None ->
    tx (io s1) = tx (io s) ++ take n c ->
    wpx (write_all_loop fuel (drop n c))
      (fun _ s' => only_tx s s' /\ tx (io s') = tx (io s) ++ c /\ pending_write (io s') = None)
      (fun _ => True) (fun _ => True) s1) as Hnext.
  { intros n s1 Hn Ho Hp1 Ht. eapply wpx_mono; [apply IH; [rewrite length_drop; change (length c <= S fuel)%nat in Hf; lia|done]| |done|done].
    intros _ s' (Ho' & Ht' & Hp'). split; [by eapply only_tx_trans|]. by rewrite Ht', Ht, <- app_assoc, take_drop. }
  unfold wpx at 1, sock_write. destruct (wr (io s)) as [|[n| |] w] eqn:Ew; try done.
  - apply (Hnext (length c)); [simpl; lia|done|done|]. cbn. by rewrite take_ge by (simpl; lia).
  - destruct (length (take n c)) as [|k] eqn:Ek; [done|]. rewrite <- Ek.
    apply Hnext; [rewrite length_take in *; lia|done|done|].
    cbn. f_equal. rewrite length_take, <- take_take. by rewrite (take_ge c (length c)) by lia.
Qed.

Lemma new_fresh rx wr bs : Inv (mkBase bs true) (new rx wr bs).
Proof.
  split; [|split; [|split; [|split]]].
  - split; [done|]. split; [done|]. split; [cbn; lia|]. intros id. unfold buf_of. cbn. by repeat destruct (_ =? _).
  - unfold Str. cbn. split_and!; try set_solver; try (vm_compute; lia); try done.
    intros id [? H]. by rewrite lookup_empty in H.
  - split_and!; try done.
  - by exists [].
  - right; left. cbn. split_and!; [lia|done|done].
Qed.

Lemma write_all_spec bs s (Q : unit -> H2Framer -> Prop) :
  pending_write (io s) = None ->
  (forall s', only_tx s s' -> tx (io s') = tx (io s) ++ bs -> pending_write (io s') = None -> Q tt s') ->
  wpx (write_all bs) Q (fun _ => True) (fun _ => True) s.
Proof.
  intros Hp HQ. eapply wpx_mono; [by apply write_all_loop_spec| |done|done]. intros [] s' (H1 & H2 & H3). by apply HQ.
Qed.
Lemma send_opening_spec rx wr :
  wpx send_opening (fun _ => Inv session) (fun _ => True) (fun _ => True) (new rx wr []).
Proof.
  unfold send_opening.
  wpx_step. apply write_all_spec; [done|]. intros s1 O1 T1 P1.
  wpx_step. apply write_all_spec; [done|]. intros s2 O2 T2 P2.
  wpx_step. apply write_all_spec; [done|]. intros s3 O3 T3 P3.
  assert (Inv session s3) as Hi.
  { pose proof (new_fresh rx wr client_opening) as (Hb & Hs & Hf & _ & Hr).
    pose proof (only_tx_trans _ _ _ O1 (only_tx_trans _ _ _ O2 O3)) as (_ & E1 & E2 & E3 & E4 & E5).
    unfold H2Inv.Inv. rewrite E1, E2, E3, E4, E5. split_and!; try done.
    exists []. rewrite T3, T2, T1, P3. split; [done|]. unfold session, client_opening. by rewrite !app_nil_r, <- !app_assoc. }
  eapply wpx_mono; [by apply good_flush| |done|done]. by intros _ s' [].
Qed.
Lemma connect_spec rx wr :
  wpx (send_opening ;; read_until_settings_ack_needed) (fun _ => Inv session) (fun _ => True) (fun _ => True) (new rx wr []).
Proof.
  wpx_step. eapply wpx_mono; [apply send_opening_spec| |done|done]. cbv beta. intros _ s Hi.
  unfold read_until_settings_ack_needed. wpx_step. apply wpx_get.
  eapply wpx_mono; [apply settings_loop_spec; [|done]; unfold loop_fuel; lia| |done|done]. by intros _ s' [].
Qed.

Lemma reachable_Inv s : reachable s -> Inv session s.
Proof.
  intros (rx & wr & s0 & Hc & Hr). pose proof (connect_spec rx wr) as H0.
  unfold connect in Hc. unfold wpx in H0. rewrite Hc in H0. clear Hc.
  induction Hr as [|s1 s2 s3 Hst _ IH]; [done|]. apply IH. destruct Hst as [c s1 Hc|evs wr' s1].
  - pose proof (good_call c Hc s1 H0) as Hg. unfold wpx in Hg.
    destruct (call c s1) as [s' [a|e| | |]]; cbn; try done. by destruct Hg.
  - exact H0.
Qed.

(** ** Properties of the connection *)

(** C3. Memory is bounded whatever the peer sends. In every state a connected
    framer can reach, through any calls that succeed, fail or are dropped midway,
    the byte counter equals what the stream buffers and the queued DATA frames
    hold, it stays within 64 MiB, every single stream within 16 MiB and the queue
    within 1024 frames; and the sets that remember streams have at most 32
    peer-opened and candidate streams together, 4096 announced file streams and
    32 evictable tombstones each for ended and reset streams. *)
Theorem h2_memory_bounded s :
  reachable s ->
  buffered_bytes (bufs s) = buf_total (bufs s) + lsum plen (pending_data_frames (bufs s)) /\
  buffered_bytes (bufs s) <= MAX_TOTAL_BUFFERED_BYTES /\
  (forall id, len (buf_of (bufs s) id) + pend_len (pending_data_frames (bufs s)) id <= MAX_BUFFERED_BYTES_PER_STREAM) /\
  (length (pending_data_frames (bufs s)) <= MAX_PENDING_DATA_FRAMES)%nat /\
  (size (peer_open_streams (streams s)) + size (file_stream_candidates (streams s)) <= MAX_UNKNOWN_BUFFERED_STREAMS)%nat /\
  (size (announced_file_streams (streams s)) <= MAX_ANNOUNCED_FILE_STREAMS)%nat /\
  (length (closed_unknown_order (streams s)) <= MAX_CLOSED_STREAMS)%nat /\
  (length (reset_unknown_order (streams s)) <= MAX_CLOSED_STREAMS)%nat.
Proof.
  intros (Hb & Hs & _)%reachable_Inv. destruct Hb as (? & ? & ? & ?). destruct Hs as (? & ? & ? & ? & _). done.
Qed.

(** C7. No call can hang or panic. From every reachable state every public
    operation comes back with a value or an error, or waits for the socket: no
    index is out of range, no counter overflows, and each of the loops that read
    frames ends. *)
Theorem h2_calls_return c s :
  reachable s -> op_ok c -> match (call c s).2 with Ok _ | Err _ | Pending => True | _ => False end.
Proof.
  intros Hi%reachable_Inv Hc. pose proof (good_call c Hc s Hi) as Hg. unfold wpx in Hg.
  by destruct (call c s) as [s' [a|e| | |]].
Qed.

(** C1. Writing delivers the data, once and in order. When [write_stream] succeeds,
    the socket has taken everything that was owed, followed by whole frames whose
    DATA payloads, all on the stream of the call and none beyond the 24-bit length
    field, add up to exactly the data; replies to the peer may be interleaved.
    When it fails or is dropped, the frames accepted so far, counting the one whose
    tail is retained for the next call, carry a prefix of the data. *)
Theorem h2_write_delivers id data s :
  reachable s ->
  match write_stream id data s with
  | (s', Ok _) => posts id data s s' /\ pending_write (io s') = None
  | (s', Err _) | (s', Pending) => exists d, d `prefix_of` data /\ posts id d s s'
  | _ => False
  end.
Proof.
  intros Hi%reachable_Inv. pose proof (write_stream_spec session eq_refl id data s Hi) as Hw. unfold wpx in Hw.
  destruct (write_stream id data s) as [s' [a|e| | |]]; try done; apply Hw.
Qed.

(** The peer always sees a well-formed HTTP/2 stream. In every reachable state,
    however calls were cut short, the bytes the socket took are the handshake
    followed by whole frames, the last of which may lack exactly the tail the
    framer retains and sends first. *)
Theorem h2_wire_well_formed s :
  reachable s ->
  exists fs, tx (io s) ++ default [] (pending_write (io s)) = client_opening ++ wires fs /\
    Forall (fun f => len (payload f) <= MAX_NEGOTIATED_FRAME_SIZE) fs.
Proof.
  intros (_ & _ & _ & (fs & Hf & Hw) & _)%reachable_Inv. exists fs. split; [done|].
  eapply Forall_impl; [done|]. by intros f [].
Qed.

(** What has poisoned a connection. *)
Definition poisoned (s : H2Framer) : bool :=
  bool_decide (is_Some (connection_error (ctl s))) || bool_decide (is_Some (open_stream_in_progress (ctl s))) ||
  window_update_in_progress (ctl s).
Definition is_marker (c : op) : bool := match c with BeginMessageBody | EndMessageBody => true | _ => false end.

Lemma ensure_open_poisoned s : poisoned s = true -> exists e, ensure_connection_open s = (s, Err e).
Proof.
  unfold poisoned, ensure_connection_open, mbind, st_bind, st_get. destruct s as [i r b st f [ce mr os wu]]. cbn.
  destruct ce; [eexists; done|]. destruct os; [eexists; done|]. destruct wu; [eexists; done|done].
Qed.

(** A poisoned connection stays poisoned. Once a protocol violation was recorded,
    or opening a stream or sending a WINDOW_UPDATE was interrupted, every further
    read, write or open is refused with an error before it touches the socket or
    any buffer. *)
Theorem h2_poison_sticky c s :
  poisoned s = true -> is_marker c = false -> exists e, call c s = (s, Err e).
Proof.
  intros (e & He)%ensure_open_poisoned Hm. exists e.
  destruct c; try done; cbn [call]; unfold read_stream, ensure_stream_available, read_next_data_frame, buffer_next_data_stream, write_stream,
    open_stream, ensure_reusable, finish_pending_write_for_read; unfold mbind, st_bind; by rewrite He.
Qed.

(** Flow control is respected. On a stream that is open, with no frame from the
    peer left to read, [write_stream] succeeds only by giving up exactly as many
    bytes of connection and stream credit as it sends; when it stops early, for
    lack of credit or because the socket fails, the credit given up covers what
    went out. In both cases no more is sent than the peer had granted, on the
    connection and on the stream. *)
Theorem h2_flow_control id data s :
  reachable s -> rx_bytes s = 0%nat -> stream_already_open s id = true -> data <> [] ->
  match write_stream id data s with
  | (s', Ok _) => charged id data s s'
  | (s', Err _) | (s', Pending) => exists d, d `prefix_of` data /\ covered id d s s'
  | _ => False
  end.
Proof.
  intros Hi%reachable_Inv Hrx Hopen Hne. pose proof (starved_write session eq_refl id data s Hne Hi Hrx Hopen) as Hw.
  unfold wpx in Hw. by destruct (write_stream id data s) as [s' [a|e| | |]].
Qed.

(** ** Witnesses *)

Definition peer_settings : bytes := build_settings_frame [].
Definition fresh : H2Framer := (connect [Chunk peer_settings] []).1.
Lemma fresh_reachable : reachable fresh.
Proof. exists [Chunk peer_settings], [], fresh. split; [vm_compute; reflexivity|apply rtc_refl]. Defined.

Lemma reachable_step s s' : reachable s -> step s s' -> reachable s'.
Proof. intros (rx & wr & s0 & Hc & Hr) Hs. exists rx, wr, s0. split; [done|by eapply rtc_r]. Qed.

(** A framer with stream 1 open. *)
Definition opened : H2Framer := (call (OpenStream 1) fresh).1.
Lemma opened_reachable : reachable opened.
Proof. apply (reachable_step fresh); [apply fresh_reachable|by apply step_call]. Qed.

(** The socket takes three bytes of HEADERS and the call is dropped. *)
Definition interrupted_open : H2Framer := (call (OpenStream 5) (set_rx [] (set_wr [Accept 3; WrStall] fresh))).1.

Lemma h2_memory_bounded_witness : buffered_bytes (bufs fresh) <= MAX_TOTAL_BUFFERED_BYTES.
Proof. apply (h2_memory_bounded fresh fresh_reachable). Defined.
Lemma h2_calls_return_witness : match (call (ReadStream 1 4) fresh).2 with Ok _ | Err _ | Pending => True | _ => False end.
Proof. apply (h2_calls_return (ReadStream 1 4) fresh fresh_reachable). vm_compute; congruence. Defined.
Lemma h2_write_delivers_witness :
  match write_stream 1 [x41; x42] fresh with
  | (s', Ok _) => posts 1 [x41; x42] fresh s' /\ pending_write (io s') = None
  | (s', Err _) | (s', Pending) => exists d, d `prefix_of` [x41; x42] /\ posts 1 d fresh s'
  | _ => False
  end.
Proof. exact (h2_write_delivers 1 [x41; x42] fresh fresh_reachable). Defined.
Lemma h2_wire_well_formed_witness :
  exists fs, tx (io fresh) ++ default [] (pending_write (io fresh)) = client_opening ++ wires fs /\
    Forall (fun f => len (payload f) <= MAX_NEGOTIATED_FRAME_SIZE) fs.
Proof. exact (h2_wire_well_formed fresh fresh_reachable). Defined.
Lemma h2_poison_sticky_witness :
  poisoned interrupted_open = true /\ exists e, call (ReadStream 1 1) interrupted_open = (interrupted_open, Err e).
Proof. split; [vm_compute; reflexivity|]. apply (h2_poison_sticky (ReadStream 1 1) interrupted_open); vm_compute; reflexivity. Defined.
Lemma h2_flow_control_witness :
  match write_stream 1 [x41; x42] opened with
  | (s', Ok _) => charged 1 [x41; x42] opened s'
  | (s', Err _) | (s', Pending) => exists d, d `prefix_of` [x41; x42] /\ covered 1 d opened s'
  | _ => False
  end.
Proof. apply (h2_flow_control 1 [x41; x42] opened opened_reachable); [vm_compute; reflexivity|vm_compute; reflexivity|done]. Defined.

(** ** Streams that end with unread data *)

(** The peer opens streams 2, 4, 6, ... in turn with one byte of DATA and
    END_STREAM. *)
Definition ended_stream (k : nat) : rx_event := Chunk (build_frame FRAME_DATA FLAG_END_STREAM (2 * Z.of_nat k) [x41]).
Definition flooded : H2Framer :=
  (call (ReadStream 1 1) (set_rx (rx (io fresh) ++ map ended_stream (seq 1 33)) (set_wr [] fresh))).1.
Lemma flooded_reachable : reachable flooded.
Proof.
  eapply reachable_step; [|apply (step_call (ReadStream 1 1)); done].
  eapply reachable_step; [apply fresh_reachable|apply (step_socket (map ended_stream (seq 1 33)) [])].
Qed.

(** The limit on unknown streams does not count streams that have ended, and
    data that arrived on them can become unreadable. A peer that opens 33 streams
    one after the other, each with one byte and END_STREAM, leaves 33 buffered
    unknown streams, although the limit for those is 32; and the byte received on
    the first of them can no longer be read, because its tombstone was evicted and
    the stream now counts as reused, while the byte stays charged to the buffer. *)
Theorem h2_ended_stream_lost :
  exists s, reachable s /\ (size (stream_bufs (bufs s)) = S MAX_UNKNOWN_BUFFERED_STREAMS)%nat /\
    buf_of (bufs s) 2 = [x41] /\
    read_stream 2 1 s =
      (s, Err (HProtocol (Msg "peer stream {stream_id} was already opened and cannot be reused" [2]))).
Proof.
  exists flooded. split; [apply flooded_reachable|]. vm_compute. done.
Qed.

End H2Conn.
