(* ===== verification/H2Recv.v ===== *)
(** What a read from the HTTP/2 framer returns
    ([crates/ios-core/src/xpc/h2_raw.rs], [read_stream] and what it calls).

    The frames of the connection interleave streams and control traffic. The
    specification is plain: parse the input into frames and keep, for one stream,
    the DATA payloads in order. [received] relates two states of the framer by it,
    and the theorem says that [read_stream] moves along [received], whether it
    returns or is dropped. *)

From S2P Require Import Prelude XpcMessage H2Framer H2Read H2Inv H2Conn.

Module H2Recv.
Import H2 H2Read H2Inv H2Conn.

(** ** Specification *)

(** Cutting a byte stream into frames. *)
Inductive parses : bytes -> list RawFrame -> bytes -> Prop :=
  | parses_nil bs : parses bs [] bs
  | parses_cons bs f rest fs tl : parse_frame bs = Some (f, rest) -> parses rest fs tl -> parses bs (f :: fs) tl.

Definition data_for (id : Z) (f : RawFrame) : bytes := if is_data f && (stream_id f =? id) then payload f else [].
(** The data of stream [id] in a sequence of frames. *)
Definition data_on (id : Z) (fs : list RawFrame) : bytes := concat (map (data_for id) fs).
Definition queued (l : list DataFrame) (id : Z) : bytes :=
  concat (map (fun f => if d_stream_id f =? id then d_payload f else []) l).
(** The bytes of stream [id] that were received and not yet handed out. *)
Definition inbox (s : H2Framer) (id : Z) : bytes := buf_of (bufs s) id ++ queued (pending_data_frames (bufs s)) id.

(** From [s] to [s'] the frames [fs] were taken from the input, and the data of
    stream [id] among them was added to its inbox, unless the peer reset it. *)
Definition received (id : Z) (fs : list RawFrame) (s s' : H2Framer) : Prop :=
  parses (input s) fs (input s') /\
  (inbox s' id = inbox s id ++ data_on id fs \/ is_Some (reset_streams (streams s') !! id)).

(** ** Triples for what a call does when it returns or is dropped *)

Definition hop {A} (m : h2 A) (Q : A -> H2Framer -> Prop) (T : H2Framer -> Prop) (s : H2Framer) : Prop :=
  match m s with (s', Ok a) => Q a s' | (s', Pending) => T s' | _ => True end.

Lemma hop_bind {A B} (m : h2 A) (f : A -> h2 B) Q T s :
  hop m (fun a s' => hop (f a) Q T s') T s -> hop (m ≫= f) Q T s.
Proof. unfold hop, mbind, st_bind. by destruct (m s) as [s' [a| | | |]]. Qed.
Lemma hop_mod g (Q : unit -> H2Framer -> Prop) T s : Q tt (g s) -> hop (st_mod g) Q T s.
Proof. done. Qed.
Lemma hop_get (Q : H2Framer -> H2Framer -> Prop) T s : Q s s -> hop st_get Q T s.
Proof. done. Qed.
Lemma hop_mono {A} (m : h2 A) (Q Q' : A -> H2Framer -> Prop) (T T' : H2Framer -> Prop) s :
  hop m Q T s -> (forall a s', Q a s' -> Q' a s') -> (forall s', T s' -> T' s') -> hop m Q' T' s.
Proof. unfold hop. destruct (m s) as [s' [a| | | |]]; auto. Qed.
Lemma hop_keep {A X} (proj : H2Framer -> X) (m : h2 A) s (Q : A -> H2Framer -> Prop) (T : H2Framer -> Prop) :
  preserves (fun s' => proj s' = proj s) m ->
  (forall a s', proj s' = proj s -> Q a s') -> (forall s', proj s' = proj s -> T s') -> hop m Q T s.
Proof.
  intros Hk HQ HT. specialize (Hk s eq_refl). unfold hop. destruct (m s) as [s' [a| | | |]]; cbn in *; auto.
Qed.
Lemma hop_good {A} o (m : h2 A) s (Q : A -> H2Framer -> Prop) (T : H2Framer -> Prop) :
  good o m -> Inv o s -> hop m Q T s ->
  wpx m (fun a s' => Inv o s' /\ (rx_bytes s' <= rx_bytes s)%nat /\ Q a s') (fun _ => True) (fun s' => Inv o s' /\ T s') s.
Proof.
  intros Hg Hi. specialize (Hg s Hi). revert Hg. unfold wpx, hop. destruct (m s) as [s' [a|e| | |]]; try done.
  by intros [].
Qed.

Lemma hop_inv {A} o (m : h2 A) s (Q : A -> H2Framer -> Prop) (T : H2Framer -> Prop) :
  good o m -> Inv o s -> hop m Q T s -> hop m (fun a s' => Inv o s' /\ Q a s') (fun s' => Inv o s' /\ T s') s.
Proof.
  intros Hg Hi. specialize (Hg s Hi). revert Hg. unfold wpx, hop. destruct (m s) as [s' [a|e| | |]]; try done.
  by intros [].
Qed.

(** Code without an await. *)
Definition swift {A} (m : h2 A) : Prop := forall s, (m s).2 <> Pending.
Lemma swift_bind {A B} (m : h2 A) (f : A -> h2 B) : swift m -> (forall a, swift (f a)) -> swift (m ≫= f).
Proof.
  intros Hm Hf s. specialize (Hm s). unfold mbind, st_bind. destruct (m s) as [s' [a| | | |]]; cbn in *; try done. apply Hf.
Qed.
Ltac swift_go := repeat (cbv beta zeta;
  lazymatch goal with
  | |- swift (_ ≫= _) => apply swift_bind; [|intros ?]
  | |- swift (if ?c then _ else _) => destruct c
  | |- swift (match ?x with _ => _ end) => destruct x
  | |- swift (connection_protocol_error _) => by intros ?
  | |- swift (mret _) => by intros ?
  | |- swift (st_fail _) => by intros ?
  | |- swift st_get => by intros ?
  | |- swift (st_mod _) => by intros ?
  end).
Lemma hop_swift {A} o (m : h2 A) s (Q : A -> H2Framer -> Prop) T :
  good o m -> swift m -> Inv o s -> hop m (fun a s' => Inv o s' -> Q a s') (fun _ => True) s -> hop m Q T s.
Proof.
  intros Hg Hw Hi. specialize (Hg s Hi). specialize (Hw s). revert Hg Hw. unfold wpx, hop.
  destruct (m s) as [s' [a|e| | |]]; cbn; try done. intros [Hi' _] _ HQ. by apply HQ.
Qed.

(** ** What leaves the input and the buffers alone *)

Definition view (s : H2Framer) : bytes * Buffers := (input s, bufs s).

Lemma view_io g s : (forall i, rx (g i) = rx i) -> view (upd_io g s) = view s.
Proof. intros Hg. unfold view, input. cbn. by rewrite Hg. Qed.
Lemma view_ctl g s : view (upd_ctl g s) = view s.
Proof. done. Qed.

Ltac keep_step :=
  lazymatch goal with
  | |- preserves _ (st_get ≫= _) => apply preserves_bind; [apply preserves_get|intros ?]
  | |- preserves _ (_ ≫= _) => apply preserves_bind; [|intros ?]
  | |- preserves _ (from_option _ _ ?o) => destruct o; cbn [from_option]
  | |- preserves _ (apply_initial_window _) => unfold apply_initial_window
  | |- preserves _ (if ?c then _ else _) => destruct c
  | |- preserves _ (match ?x with _ => _ end) => destruct x
  | |- preserves _ (mret _) => apply preserves_ret
  | |- preserves _ (st_fail _) => apply preserves_fail
  | |- preserves _ (st_lift _) => apply preserves_lift
  | |- preserves _ (connection_protocol_error _) => apply keeps_error; intros; apply view_ctl
  | |- preserves _ (st_mod _) => apply keeps_mod; intros ?; done
  end.
Ltac keep_go := repeat (cbv beta zeta; keep_step).

Section keep_view.
Context (v : bytes * Buffers).
Abbreviation keeps := (preserves (fun s => view s = v)).

Lemma keep_open : keeps ensure_connection_open.
Proof. apply keeps_ensure_open. Qed.
Lemma keep_write bs : keeps (write_all_tracked bs).
Proof. apply preserves_bind; [apply keeps_finish|intros _; apply keeps_write_loop]; apply view_io. Qed.
Lemma keep_flush : keeps flush.
Proof. apply keeps_flush, view_io. Qed.
Lemma keep_available id : keeps (ensure_stream_available id).
Proof. unfold ensure_stream_available. keep_go. apply keep_open. Qed.
Lemma keep_incoming id : keeps (ensure_incoming_stream_available id).
Proof. unfold ensure_incoming_stream_available, ensure_peer_stream_not_reused. keep_go. apply keep_available. Qed.
Lemma keep_window_update id p : keeps (process_window_update id p).
Proof. unfold process_window_update. keep_go. Qed.
Lemma keep_goaway id p : keeps (process_goaway id p).
Proof. unfold process_goaway. keep_go. Qed.
Lemma keep_mark_end id fl : keeps (st_mod (mark_end_stream id fl) : h2 unit).
Proof.
  apply keeps_mod. intros s. destruct (mark_end_rest id fl s) as (E1 & E2 & E3 & _). unfold view, input. by rewrite E1, E2, E3.
Qed.
Lemma keep_headers f : keeps (process_headers f).
Proof.
  unfold process_headers, observe_peer_headers, register_file_stream_candidate, track_peer_stream. keep_go;
    auto using keep_incoming, keep_mark_end.
Qed.
Lemma keep_scan l w fr : keeps (scan_settings l w fr).
Proof. revert w fr. induction l as [|c l IH]; intros w fr; cbn [scan_settings]; keep_go; auto. Qed.
Lemma keep_shift d l : keeps (shift_windows d l).
Proof. induction l as [|[i w] l IH]; cbn [shift_windows]; keep_go; auto. Qed.
Lemma keep_settings fl p : keeps (process_settings fl p).
Proof.
  unfold process_settings. keep_go; auto using keep_scan, keep_shift, keep_write, keep_flush.
Qed.
Lemma keep_replenish id n : keeps (replenish_receive_window id n).
Proof. apply keeps_replenish; [apply view_io|intros; apply view_ctl|done]. Qed.
End keep_view.

(** ** One frame *)

(** What dispatching [f] does to stream [id] while nothing is queued. *)
Definition got (id : Z) (f : RawFrame) (s s' : H2Framer) : Prop :=
  input s' = input s /\ pending_data_frames (bufs s') = [] /\
  (buf_of (bufs s') id = buf_of (bufs s) id ++ data_for id f \/
   is_Some (reset_streams (streams s') !! id) /\ buf_of (bufs s') id = []).

Lemma got_view id f s s' :
  pending_data_frames (bufs s) = [] -> data_for id f = [] -> view s' = view s -> got id f s s'.
Proof.
  intros Hp Hd [= E1 E2]. split; [done|]. rewrite E2, Hd, app_nil_r. split; [done|by left].
Qed.

Section dispatch.
Context (id : Z) (f : RawFrame).

(** A frame that is not DATA and leaves the buffers alone. *)
Lemma got_control (m : h2 unit) s :
  pending_data_frames (bufs s) = [] -> data_for id f = [] -> preserves (fun s' => view s' = view s) m ->
  hop m (fun _ => got id f s) (got id f s) s.
Proof. intros Hp Hd Hk. apply (hop_keep view); [done| |]; intros; by apply got_view. Qed.

Lemma observe_view i p s :
  hop (observe_peer_data_stream i p) (fun _ s' => view s' = view s) (fun _ => True) s.
Proof.
  unfold observe_peer_data_stream. apply hop_bind, hop_get. destruct (_ || _); [done|].
  destruct (bool_decide (i ∈ file_stream_candidates (streams s))).
  - cbv zeta. apply hop_bind, hop_mod. set (s1 := set_file_stream_candidate_data _ s).
    change (view s) with (view s1). destruct (_ <? _)%nat; [done|]. destruct (negb _); [done|].
    apply (hop_keep view); [|done|done]. unfold adopt_file_stream. keep_go.
  - destruct (is_file_stream_preamble i p); (apply (hop_keep view); [|done|done]);
      unfold adopt_file_stream, track_peer_stream; keep_go.
Qed.

Lemma append_hop o i p s (Q : unit -> H2Framer -> Prop) T :
  Inv o s ->
  (forall s', input s' = input s -> pending_data_frames (bufs s') = pending_data_frames (bufs s) ->
     (forall j, buf_of (bufs s') j = if j =? i then buf_of (bufs s) j ++ p else buf_of (bufs s) j) -> Q tt s') ->
  hop (append_stream_data i p) Q T s.
Proof.
  intros Hi HQ. unfold append_stream_data. destruct p as [|x l].
  { apply HQ; [done|done|]. intros j. rewrite app_nil_r. by destruct (j =? i). }
  set (p := x :: l) in *. apply hop_bind.
  pose proof (reserve_spec o i (len p) s (fun _ => reserved i (len p) s) (fun _ => False) Hi (len_nonneg p) (fun _ H => H)) as Hr.
  unfold wpx in Hr. unfold hop at 1. destruct (reserve_stream_buffer i (len p) s) as [s1 [[]| | | |]]; try done.
  destruct Hr as (-> & _). apply hop_mod. set (s2 := set_buffered_bytes _ s).
  destruct (extend_rest i p s2) as (E1 & _ & E3 & E4 & _). apply HQ.
  - unfold input. rewrite E3, E4. done.
  - by rewrite E1.
  - intros j. by rewrite extend_of.
Qed.

Lemma swift_open : swift ensure_connection_open.
Proof. unfold ensure_connection_open. swift_go. Qed.
Lemma swift_incoming i : swift (ensure_incoming_stream_available i).
Proof.
  unfold ensure_incoming_stream_available, ensure_stream_available, ensure_peer_stream_not_reused. swift_go.
  apply swift_open.
Qed.
Lemma swift_observe i p : swift (observe_peer_data_stream i p).
Proof. unfold observe_peer_data_stream, adopt_file_stream, track_peer_stream. swift_go. Qed.

Lemma got_data o s :
  Inv o s -> pending_data_frames (bufs s) = [] -> frame_type f = FRAME_DATA ->
  hop (process_data f) (fun _ => got id f s) (got id f s) s.
Proof.
  intros Hi Hp Ht. assert (data_for id f = if stream_id f =? id then payload f else []) as Hd
    by (unfold data_for, is_data; by rewrite Ht).
  unfold process_data. destruct (stream_id f =? STREAM_INIT).
  { done. }
  apply hop_bind. apply (hop_swift o); [auto with h2|apply swift_incoming|done|].
  apply (hop_keep view); [apply keep_incoming| |done]. intros _ s1 E1 Hi1.
  apply hop_bind. apply (hop_swift o); [auto with h2|apply swift_observe|done|].
  eapply hop_mono; [apply observe_view| |done]. cbv beta. intros _ s2 E2 Hi2. rewrite E1 in E2.
  apply hop_bind, (append_hop o); [done|]. intros s3 E3 P3 B3. injection E2 as E2 E2'. rewrite E2 in E3. rewrite E2' in P3, B3.
  apply hop_bind, hop_mod. set (s4 := mark_end_stream _ _ s3).
  destruct (mark_end_rest (stream_id f) (flags f) s3) as (M1 & M2 & M3 & _). fold s4 in M1, M2, M3.
  assert (got id f s s4) as Hgot.
  { split; [unfold input; by rewrite M1, M2|]. rewrite M3, P3. split; [done|]. left. rewrite B3, Hd, (Z.eqb_sym id).
    destruct (stream_id f =? id); [done|by rewrite app_nil_r]. }
  clearbody s4. apply (hop_keep (fun s => (view s, streams s))).
  - apply keeps_replenish; [|done|done]. intros g s' Hg. f_equal. by apply view_io.
  - intros _ s' [= E E' E'']. unfold got in *. by rewrite E, E', E''.
  - intros s' [= E E' E'']. unfold got in *. by rewrite E, E', E''.
Qed.

Lemma clear_view o i s :
  Inv o s -> pending_data_frames (bufs s) = [] ->
  let s1 := clear_stream_buffer i s in
  input s1 = input s /\ pending_data_frames (bufs s1) = [] /\ (forall j, buf_of (bufs s1) j = if j =? i then [] else buf_of (bufs s) j).
Proof.
  intros (Hb & _) Hp. destruct (discard_spec i s Hb) as (_ & D1 & D2 & D3 & D4 & _).
  destruct (clear_rest i s) as (C1 & C2 & C3 & _). rewrite D3 in C2. rewrite D4 in C3. rewrite Hp in D2.
  rewrite <- C1 in D1, D2. cbv zeta. split_and!; [|done|done]. unfold input. by rewrite C2, C3.
Qed.
Lemma reset_view i code w s :
  let s' := record_reset_stream i code (set_outbound_stream_windows w s) in
  input s' = input s /\ bufs s' = bufs s /\ is_Some (reset_streams (streams s') !! i).
Proof.
  destruct (record_reset_rest i code (set_outbound_stream_windows w s)) as (R1 & R2 & R3 & _). cbv zeta. split_and!.
  - unfold input. by rewrite R1, R2.
  - by rewrite R3.
  - unfold record_reset_stream. cbn. rewrite lookup_insert_eq. eauto.
Qed.
Lemma got_reset code w s s1 :
  data_for id f = [] -> input s1 = input s -> pending_data_frames (bufs s1) = [] ->
  (forall j, buf_of (bufs s1) j = if j =? stream_id f then [] else buf_of (bufs s) j) ->
  got id f s (record_reset_stream (stream_id f) code (set_outbound_stream_windows w s1)).
Proof.
  intros Hd E1 E2 E3. destruct (reset_view (stream_id f) code w s1) as (V1 & V2 & Hr). unfold got. rewrite V1, V2.
  split_and!; [done|done|]. rewrite E3, Hd, app_nil_r. destruct (Z.eqb_spec id (stream_id f)) as [->|_]; [by right|by left].
Qed.
Lemma got_rst o s :
  Inv o s -> pending_data_frames (bufs s) = [] -> frame_type f = FRAME_RST_STREAM ->
  hop (process_rst_stream f) (fun _ => got id f s) (got id f s) s.
Proof.
  intros Hi Hp Ht. assert (data_for id f = []) as Hd by (unfold data_for, is_data; by rewrite Ht).
  destruct (clear_view o (stream_id f) s Hi Hp) as (E1 & E2 & E3).
  unfold process_rst_stream. destruct (stream_id f =? STREAM_INIT); [done|]. destruct (negb _); [done|].
  apply hop_bind, hop_get. destruct (_ && _); [done|]. cbv zeta.
  apply hop_bind, hop_mod, hop_bind, hop_mod, hop_mod. by apply got_reset.
Qed.

Lemma got_dispatch o s :
  Inv o s -> pending_data_frames (bufs s) = [] ->
  hop (dispatch_frame f) (fun _ => got id f s) (got id f s) s.
Proof.
  intros Hi Hp. unfold dispatch_frame. apply hop_bind. apply (hop_swift o); [auto with h2|apply swift_open|done|].
  unfold hop, ensure_connection_open, mbind, st_bind, st_get.
  destruct (connection_error (ctl s)); [done|]. destruct (open_stream_in_progress (ctl s)); [done|].
  destruct (window_update_in_progress (ctl s)); [done|]. intros _. cbn [mret st_ret].
  change (hop (dispatch_frame_inner f) (fun _ => got id f s) (got id f s) s).
  unfold dispatch_frame_inner. cbv zeta. destruct (Z.eqb_spec (frame_type f) FRAME_DATA) as [E|E]; [by apply (got_data o)|].
  assert (data_for id f = []) as Hd by (unfold data_for, is_data; by rewrite (proj2 (Z.eqb_neq _ _) E)).
  destruct (Z.eqb_spec (frame_type f) FRAME_RST_STREAM) as [Er|_].
  { rewrite Er. by apply (got_rst o). }
  repeat match goal with |- hop (if ?c then _ else _) _ _ _ => destruct c end; try done; (apply got_control; [done|done|]);
    auto using keep_headers, keep_settings, keep_window_update, keep_goaway, preserves_ret.
Qed.
End dispatch.

(** ** Handing data out *)

Lemma drain_fold_of l s i :
  buf_of (bufs (foldl (fun s f => match d_payload f with [] => s | bs => extend_buffer (d_stream_id f) bs s end) s l)) i =
  buf_of (bufs s) i ++ queued l i.
Proof.
  revert s. induction l as [|f l IH]; intros s; cbn [foldl]; [unfold queued; cbn; by rewrite app_nil_r|].
  rewrite IH. unfold queued. cbn [map concat]. rewrite app_assoc. f_equal.
  destruct (d_payload f) as [|x bs]; [destruct (d_stream_id f =? i); by rewrite app_nil_r|].
  rewrite extend_of, (Z.eqb_sym i). destruct (d_stream_id f =? i); [done|by rewrite app_nil_r].
Qed.
Lemma drain_inbox s :
  let s' := drain_pending_data_frames s in
  input s' = input s /\ pending_data_frames (bufs s') = [] /\ (forall i, buf_of (bufs s') i = inbox s i).
Proof.
  unfold drain_pending_data_frames. destruct (drain_fold (pending_data_frames (bufs s)) s) as (_ & _ & _ & K4 & K5 & _).
  cbv zeta. split_and!; [unfold input; cbn [rd io set_pending_data_frames upd_bufs]; by rewrite K4, K5|done|].
  intros i. unfold inbox. rewrite <- drain_fold_of. done.
Qed.

Lemma take_hop id n s :
  hop (take_stream_bytes id n)
    (fun bs s' => input s' = input s /\ pending_data_frames (bufs s') = pending_data_frames (bufs s) /\
       n <= len (buf_of (bufs s) id) /\ bs = take (Z.to_nat n) (buf_of (bufs s) id) /\
       buf_of (bufs s') id = drop (Z.to_nat n) (buf_of (bufs s) id)) (fun _ => False) s.
Proof.
  unfold take_stream_bytes. apply hop_bind, hop_get. unfold stream_buffer_len. rewrite stream_buffer_buf_of.
  destruct (len (buf_of (bufs s) id) <? n) eqn:El; [done|]. apply Z.ltb_ge in El. cbv zeta. unfold buf_of in *.
  destruct (id =? STREAM_CLIENT_SERVER) eqn:E1; [|destruct (id =? STREAM_SERVER_CLIENT) eqn:E2].
  - done.
  - done.
  - destruct (stream_bufs (bufs s) !! id) as [b|] eqn:Eb; [|done]. cbn [default from_option] in *.
    apply hop_bind, hop_bind, hop_mod, hop_bind, hop_mod, hop_bind, hop_get. cbn [bufs set_buffered_bytes set_stream_bufs upd_bufs stream_bufs streams].
    rewrite lookup_insert_eq. unfold when. destruct (_ && _) eqn:Ew.
    + apply hop_bind, hop_mod. apply andb_true_iff in Ew as [Ew _]. apply andb_true_iff in Ew as [_ Ew].
      apply bool_decide_eq_true in Ew. injection Ew as Ew. split_and!; try done.
      cbn [bufs set_buffered_bytes set_stream_bufs upd_bufs stream_bufs]. rewrite lookup_delete_eq. exact (eq_sym Ew).
    + split_and!; try done. cbn [bufs set_buffered_bytes set_stream_bufs upd_bufs stream_bufs]. by rewrite lookup_insert_eq.
Qed.

(** ** Reading a stream *)

Section reading.
Context (o : base) (id n : Z).

Definition taken (fs : list RawFrame) (s s' : H2Framer) : Prop :=
  parses (input s) fs (input s') /\ buf_of (bufs s') id = buf_of (bufs s) id ++ data_on id fs.
(** The loop has stopped between frames or inside one. *)
Definition halted (s s' : H2Framer) : Prop :=
  pending_data_frames (bufs s') = [] /\
  exists fs, parses (input s) fs (input s') /\
    (buf_of (bufs s') id = buf_of (bufs s) id ++ data_on id fs \/ is_Some (reset_streams (streams s') !! id)).

Lemma taken_cons f fs s s1 s2 s' :
  parse_frame (input s) = Some (f, input s1) -> bufs s1 = bufs s -> input s2 = input s1 ->
  buf_of (bufs s2) id = buf_of (bufs s1) id ++ data_for id f -> taken fs s2 s' -> taken (f :: fs) s s'.
Proof.
  intros Hp Hb Hi Hd [H1 H2]. split; [apply (parses_cons _ f (input s1)); [done|by rewrite <- Hi]|].
  rewrite H2, Hd, Hb. unfold data_on. cbn [map concat]. by rewrite <- app_assoc.
Qed.
Lemma halted_cons f s s1 s2 s' :
  parse_frame (input s) = Some (f, input s1) -> bufs s1 = bufs s -> input s2 = input s1 ->
  buf_of (bufs s2) id = buf_of (bufs s1) id ++ data_for id f -> halted s2 s' -> halted s s'.
Proof.
  intros Hp Hb Hi Hd (Hq & fs & H1 & H2). split; [done|]. exists (f :: fs).
  split; [apply (parses_cons _ f (input s1)); [done|by rewrite <- Hi]|]. destruct H2 as [H2|H2]; [left|by right].
  rewrite H2, Hd, Hb. unfold data_on. cbn [map concat]. by rewrite <- app_assoc.
Qed.
Lemma halted_got f s s1 s2 :
  parse_frame (input s) = Some (f, input s1) -> bufs s1 = bufs s -> got id f s1 s2 -> halted s s2.
Proof.
  intros Hp Hb (Hi & Hq & Hd). split; [done|]. exists [f].
  split; [apply (parses_cons _ f (input s1)); [done|rewrite Hi; constructor]|].
  destruct Hd as [Hd|[Hd _]]; [left|by right]. rewrite Hd, Hb. unfold data_on. cbn. by rewrite app_nil_r.
Qed.

(** A stream the peer has reset is not read any further. *)
Lemma reset_stops fuel s Q T :
  is_Some (reset_streams (streams s) !! id) -> buf_of (bufs s) id = [] -> 0 < n -> (0 < fuel)%nat ->
  wpx (read_stream_loop fuel id n) Q (fun _ => True) T s.
Proof.
  intros [code Hr] Hb Hn Hf. destruct fuel as [|fuel]; [lia|]. cbn [read_stream_loop]. wpx_step. apply wpx_get.
  unfold stream_buffer_len. rewrite stream_buffer_buf_of, Hb. change (len (@nil byte)) with 0.
  rewrite (proj2 (Z.leb_gt n 0)) by lia. wpx_step. unfold ensure_stream_available, ensure_connection_open.
  wpx_step. wpx_step. apply wpx_get. destruct (connection_error (ctl s)); [done|]. destruct (open_stream_in_progress (ctl s)); [done|].
  destruct (window_update_in_progress (ctl s)); [done|]. apply wpx_ret. wpx_step. apply wpx_get. by rewrite Hr.
Qed.
Lemma not_reused_spec i s (Q : unit -> H2Framer -> Prop) (R T : H2Framer -> Prop) :
  R s -> Q tt s -> wpx (ensure_peer_stream_not_reused i) Q R T s.
Proof. intros HR HQ. unfold ensure_peer_stream_not_reused. by wpx_steps. Qed.

Lemma loop_receives fuel s :
  (rx_bytes s < fuel)%nat -> Inv o s -> pending_data_frames (bufs s) = [] ->
  wpx (read_stream_loop fuel id n)
    (fun _ s' => Inv o s' /\ pending_data_frames (bufs s') = [] /\ exists fs, taken fs s s') (fun _ => True) (halted s) s.
Proof.
  revert s. induction fuel as [|fuel IH]; intros s Hf Hi Hq; [lia|]. cbn [read_stream_loop]. wpx_step. apply wpx_get.
  unfold stream_buffer_len. rewrite stream_buffer_buf_of. wpx_step.
  { apply wpx_ret. split_and!; [done|done|]. exists []. split; [constructor|]. unfold data_on. cbn. by rewrite app_nil_r. }
  assert (0 < n) as Hn by (pose proof (len_nonneg (buf_of (bufs s) id)); lia).
  wpx_step. apply stream_available_spec; [done|]. wpx_step; [done|]. wpx_step. apply not_reused_spec; [done|]. wpx_step.
  eapply wpx_mono; [apply (wpx_keep bufs); [by apply (read_raw_frame_spec o)|by apply keeps_read_raw_frame]| |done|].
  2: { intros s1 [[Hi1 E1] E2]. split; [by rewrite E2|]. exists []. split; [rewrite E1; constructor|].
       left. unfold data_on. cbn. by rewrite E2, app_nil_r. }
  intros f s1 [(Hi1 & Hp & Hlt) Hb1]. wpx_step. rewrite <- Hb1 in Hq.
  eapply wpx_mono; [apply (hop_good o); [auto with h2|done|by apply (got_dispatch id f o)]| |done|].
  2: { intros s2 [_ Hgot]. by eapply halted_got. }
  intros _ s2 (Hi2 & Hle & Hgot). pose proof Hgot as (Hin & Hq2 & [Hd|[Hr Hd]]); [|apply reset_stops; [done|done|done|lia]].
  eapply wpx_mono; [apply IH; [lia|done|done]| |done|intros s'; by eapply halted_cons].
  intros _ s' (Hi' & Hq' & fs & Hfs). split_and!; [done|done|]. exists (f :: fs). by eapply taken_cons.
Qed.

(** [read_stream] has returned [bs]. *)
Definition moved (bs : bytes) (s s' : H2Framer) : Prop :=
  exists fs, parses (input s) fs (input s') /\ bs ++ inbox s' id = inbox s id ++ data_on id fs.

Lemma inbox_empty_queue s : pending_data_frames (bufs s) = [] -> inbox s id = buf_of (bufs s) id.
Proof. intros H. unfold inbox. rewrite H. apply app_nil_r. Qed.

Lemma read_stream_receives s :
  0 <= n -> Inv o s ->
  wpx (read_stream id n) (fun bs s' => len bs = n /\ moved bs s s') (fun _ => True)
    (fun s' => exists fs, received id fs s s') s.
Proof.
  intros Hn Hi. unfold read_stream. wpx_step. apply stream_available_spec; [done|]. wpx_step.
  eapply wpx_mono; [apply (wpx_keep view); [by apply (good_finish_pending_write o)|apply keeps_finish, view_io]| |done|].
  2: { intros s1 [_ [= E1 E2]]. exists []. split; [rewrite E1; constructor|]. left. unfold inbox, data_on. cbn. by rewrite E2, app_nil_r. }
  intros _ s1 [[Hi1 _] [= E1 E2]]. wpx_step. apply not_reused_spec; [done|]. wpx_step. apply wpx_mod.
  destruct (drain_inbox s1) as (D1 & D2 & D3). pose proof (Inv_drain o s1 Hi1) as Hi2.
  set (s2 := drain_pending_data_frames s1) in *. clearbody s2. rewrite E1 in D1.
  assert (forall i, buf_of (bufs s2) i = inbox s i) as D4 by (intros i; rewrite D3; unfold inbox; by rewrite E2).
  wpx_step. apply wpx_get. wpx_step.
  eapply wpx_mono; [apply loop_receives; [unfold loop_fuel; lia|done|done]| |done|].
  2: { intros s3 (Hq & fs & Hp & Hd). exists fs. split; [by rewrite <- D1|]. destruct Hd as [Hd|Hd]; [left|by right].
       by rewrite (inbox_empty_queue s3 Hq), Hd, D4. }
  intros _ s3 (Hi3 & Hq3 & fs & Hp & Hd).
  eapply wpx_mono; [apply (hop_good o); [by apply good_take_stream_bytes|done|apply take_hop]| |done|by intros s' []].
  intros bs s4 (_ & _ & T1 & T2 & T3 & -> & T5). split; [unfold len in *; rewrite length_take; lia|].
  exists fs. rewrite T1, <- D1. split; [done|]. rewrite (inbox_empty_queue s4), T5, take_drop, Hd, D4; [done|congruence].
Qed.
End reading.

(** C2. Reading is faithful to what the peer sent. Cut the input, from the byte
    where reading stopped last, into frames. When [read_stream] returns, its [n]
    bytes followed by what stays buffered for the stream are exactly what was
    buffered before followed by the DATA payloads of that stream in the frames it
    took, in order: nothing is lost, duplicated or taken from another stream. When
    it is dropped while it waits, the same accounting holds with nothing handed
    out, unless the peer has reset the stream. *)
Theorem h2_read_faithful id n s :
  reachable s -> 0 <= n ->
  match read_stream id n s with
  | (s', Ok bs) => len bs = n /\
      exists fs, parses (input s) fs (input s') /\ bs ++ inbox s' id = inbox s id ++ data_on id fs
  | (s', Pending) => exists fs, parses (input s) fs (input s') /\
      (inbox s' id = inbox s id ++ data_on id fs \/ is_Some (reset_streams (streams s') !! id))
  | (_, Err _) => True
  | _ => False
  end.
Proof.
  intros Hi%reachable_Inv Hn. pose proof (read_stream_receives session id n s Hn Hi) as H. unfold wpx in H.
  by destruct (read_stream id n s) as [s' [bs|e| | |]].
Qed.

(** Two DATA frames of stream 1 with one of stream 3 between them. *)
Definition interleaved : H2Framer :=
  set_rx (rx (io fresh) ++ [Chunk (build_data_frame 1 [x41; x42] ++ build_data_frame 3 [x58] ++ build_data_frame 1 [x43; x44])])
    (set_wr [] fresh).
Lemma interleaved_reachable : reachable interleaved.
Proof. apply (reachable_step fresh); [apply fresh_reachable|apply step_socket]. Qed.
Lemma h2_read_faithful_witness :
  (read_stream 1 3 interleaved).2 = Ok [x41; x42; x43] /\
  match read_stream 1 3 interleaved with
  | (s', Ok bs) => len bs = 3 /\
      exists fs, parses (input interleaved) fs (input s') /\ bs ++ inbox s' 1 = inbox interleaved 1 ++ data_on 1 fs
  | (s', Pending) => exists fs, parses (input interleaved) fs (input s') /\
      (inbox s' 1 = inbox interleaved 1 ++ data_on 1 fs \/ is_Some (reset_streams (streams s') !! 1))
  | (_, Err _) => True
  | _ => False
  end.
Proof.
  split; [vm_compute; reflexivity|]. apply (h2_read_faithful 1 3 interleaved interleaved_reachable). vm_compute. congruence.
Defined.

End H2Recv.
