(* ===== verification/H2Mark.v ===== *)
(** The message marker of the HTTP/2 framer
    ([crates/ios-core/src/xpc/h2_raw.rs], [message_read_in_progress]).

    The framer carries the flag for its client: only [begin_message_body] and
    [end_message_body] change it. That is what lets the XPC layer tell, after any
    sequence of reads and writes that fail or are dropped, whether the connection
    stands at a message boundary. *)

From S2P Require Import Prelude XpcMessage H2Framer H2Read H2Inv H2Conn H2Recv.

Module H2Mark.
Import H2 H2Inv H2Conn H2Recv.

Definition marked (s : H2Framer) : bool := message_read_in_progress (ctl s).

Create HintDb mark.

(** ** State changes *)

Lemma marked_tombstone id s : marked (remove_closed_stream_tombstone id s) = marked s.
Proof. unfold remove_closed_stream_tombstone. by split_ifs. Qed.
Lemma marked_extend id bs s : marked (extend_buffer id bs s) = marked s.
Proof. unfold extend_buffer. by split_ifs. Qed.
Lemma marked_discard id s : marked (discard_stream_data id s) = marked s.
Proof. unfold discard_stream_data, drop_stream_buffer. by split_ifs. Qed.
Lemma marked_clear id s : marked (clear_stream_buffer id s) = marked s.
Proof.
  unfold clear_stream_buffer. rewrite <- (marked_discard id s), <- (marked_tombstone id (discard_stream_data id s)). done.
Qed.
Lemma marked_end id fl s : marked (mark_end_stream id fl s) = marked s.
Proof. unfold mark_end_stream. by repeat (split_ifs; try case_match). Qed.
Lemma marked_reset id code s : marked (record_reset_stream id code s) = marked s.
Proof. unfold record_reset_stream. by repeat (split_ifs; try case_match). Qed.
Lemma marked_drain s : marked (drain_pending_data_frames s) = marked s.
Proof.
  unfold drain_pending_data_frames. change (marked (set_pending_data_frames [] ?x)) with (marked x).
  generalize (pending_data_frames (bufs s)). intros l. revert s. induction l as [|f l IH]; intros s; [done|]. cbn [foldl].
  rewrite IH. destruct (d_payload f); [done|apply marked_extend].
Qed.
Lemma marked_open id s : marked (mark_stream_open id s) = marked s.
Proof. unfold mark_stream_open. by split_ifs. Qed.
Hint Rewrite marked_tombstone marked_extend marked_clear marked_end marked_reset marked_drain marked_open : mark.

(** ** Operations *)

Section keep_mark.
Context (v : bool).
Abbreviation keeps := (preserves (fun s => marked s = v)).

Lemma mark_mod g : (forall s, marked (g s) = marked s) -> keeps (st_mod g : h2 unit).
Proof. apply (keeps_mod marked). Qed.
Lemma mark_ctl g s : (forall c, message_read_in_progress (g c) = message_read_in_progress c) -> marked (upd_ctl g s) = marked s.
Proof. intros Hg. unfold marked. cbn. by rewrite Hg. Qed.
Lemma mark_error {A} m : keeps (connection_protocol_error m : h2 A).
Proof. apply (keeps_error marked), mark_ctl. Qed.
Lemma mark_finish : keeps finish_pending_write.
Proof. by apply (keeps_finish marked). Qed.
Lemma mark_write bs : keeps (write_all_tracked bs).
Proof. apply preserves_bind; [apply mark_finish|intros _; by apply (keeps_write_loop marked)]. Qed.
Lemma mark_flush : keeps flush.
Proof. by apply (keeps_flush marked). Qed.
Lemma mark_ensure_open : keeps ensure_connection_open.
Proof. by apply (keeps_ensure_open marked). Qed.
Lemma mark_read_frame : keeps read_raw_frame.
Proof. by apply (keeps_read_raw_frame marked); [|apply mark_ctl|..]. Qed.
Lemma mark_replenish id n : keeps (replenish_receive_window id n).
Proof. by apply (keeps_replenish marked); [|apply mark_ctl|]. Qed.
Hint Resolve mark_error mark_finish mark_write mark_flush mark_ensure_open mark_read_frame mark_replenish : mark.

Ltac mark_step :=
  lazymatch goal with
  | |- preserves _ (st_get ≫= _) => apply preserves_bind; [apply preserves_get|intros ?]
  | |- preserves _ (_ ≫= _) => apply preserves_bind; [|intros ?]
  | |- preserves _ (when _ _) => unfold when
  | |- preserves _ (from_option _ _ ?o) => destruct o; cbn [from_option]
  | |- preserves _ (if ?c then _ else _) => destruct c
  | |- preserves _ (match ?x with _ => _ end) => destruct x
  | |- preserves _ (mret _) => apply preserves_ret
  | |- preserves _ (st_fail _) => apply preserves_fail
  | |- preserves _ (st_lift _) => apply preserves_lift
  | |- preserves _ (st_mod _) => apply mark_mod; intros ?; first [done | by autorewrite with mark]
  end.
Ltac mark_go := repeat (cbv beta zeta; mark_step); auto with mark.

Lemma mark_available id : keeps (ensure_stream_available id).
Proof. unfold ensure_stream_available. mark_go. Qed.
Lemma mark_not_reused id : keeps (ensure_peer_stream_not_reused id).
Proof. unfold ensure_peer_stream_not_reused. mark_go. Qed.
Hint Resolve mark_available mark_not_reused : mark.
Lemma mark_incoming id : keeps (ensure_incoming_stream_available id).
Proof. unfold ensure_incoming_stream_available. mark_go. Qed.
Lemma mark_adopt id : keeps (adopt_file_stream id).
Proof. unfold adopt_file_stream. mark_go. Qed.
Lemma mark_track id : keeps (track_peer_stream id).
Proof. unfold track_peer_stream. mark_go. Qed.
Hint Resolve mark_incoming mark_adopt mark_track : mark.
Lemma mark_observe id p : keeps (observe_peer_data_stream id p).
Proof. unfold observe_peer_data_stream. mark_go. Qed.
Lemma mark_reserve id n : keeps (reserve_stream_buffer id n).
Proof. unfold reserve_stream_buffer. mark_go. Qed.
Hint Resolve mark_observe mark_reserve : mark.
Lemma mark_data f : keeps (process_data f).
Proof. unfold process_data, append_stream_data. mark_go. Qed.
Lemma mark_headers f : keeps (process_headers f).
Proof. unfold process_headers, observe_peer_headers, register_file_stream_candidate. mark_go. Qed.
Lemma mark_scan l w fr : keeps (scan_settings l w fr).
Proof. revert w fr. induction l as [|c l IH]; intros w fr; cbn [scan_settings]; mark_go. Qed.
Lemma mark_shift d l : keeps (shift_windows d l).
Proof. induction l as [|[i w] l IH]; cbn [shift_windows]; mark_go. Qed.
Hint Resolve mark_scan mark_shift mark_data mark_headers : mark.
Lemma mark_initial_window w : keeps (apply_initial_window w).
Proof. unfold apply_initial_window. mark_go. Qed.
Hint Resolve mark_initial_window : mark.
Lemma mark_settings fl p : keeps (process_settings fl p).
Proof. unfold process_settings. mark_go. Qed.
Lemma mark_window_update id p : keeps (process_window_update id p).
Proof. unfold process_window_update. mark_go. Qed.
Lemma mark_goaway id p : keeps (process_goaway id p).
Proof. unfold process_goaway. mark_go. Qed.
Lemma mark_rst f : keeps (process_rst_stream f).
Proof. unfold process_rst_stream. mark_go. Qed.
Hint Resolve mark_settings mark_window_update mark_goaway mark_rst : mark.
Lemma mark_dispatch f : keeps (dispatch_frame f).
Proof. unfold dispatch_frame, dispatch_frame_inner. mark_go. Qed.
Lemma mark_queue f : keeps (queue_incoming_data_frame f).
Proof. unfold queue_incoming_data_frame. mark_go. Qed.
Lemma mark_take id n : keeps (take_stream_bytes id n).
Proof. unfold take_stream_bytes. mark_go. Qed.
Hint Resolve mark_dispatch mark_queue mark_take : mark.

Lemma mark_read_loop fuel id n : keeps (read_stream_loop fuel id n).
Proof. induction fuel as [|fuel IH]; cbn [read_stream_loop]; mark_go. Qed.
Hint Resolve mark_read_loop : mark.
Lemma mark_read_stream id n : keeps (read_stream id n).
Proof. unfold read_stream. mark_go. Qed.
Lemma mark_select : keeps select_stream.
Proof. unfold select_stream, first_ready_xpc_stream, first_unfinished_closed_stream. mark_go. Qed.
Hint Resolve mark_select : mark.
Lemma mark_buffer_loop fuel : keeps (buffer_loop fuel).
Proof. induction fuel as [|fuel IH]; cbn [buffer_loop]; mark_go. Qed.
Hint Resolve mark_buffer_loop : mark.
Lemma mark_buffer_next : keeps buffer_next_data_stream.
Proof. unfold buffer_next_data_stream. mark_go. Qed.
Lemma mark_open_stream id : keeps (open_stream id).
Proof. unfold open_stream. mark_go. Qed.
Lemma mark_budget id : keeps (outbound_budget id).
Proof. unfold outbound_budget. mark_go. Qed.
Lemma mark_consume id n : keeps (consume_outbound_window id n).
Proof. unfold consume_outbound_window. mark_go. Qed.
Hint Resolve mark_open_stream mark_budget mark_consume : mark.
Lemma mark_capacity_loop fuel id : keeps (capacity_loop fuel id).
Proof. induction fuel as [|fuel IH]; cbn [capacity_loop]; mark_go. Qed.
Hint Resolve mark_capacity_loop : mark.
Lemma mark_data_loop fuel id data : keeps (write_data_loop fuel id data).
Proof.
  revert data. induction fuel as [|fuel IH]; intros [|b data]; cbn [write_data_loop]; unfold wait_for_outbound_capacity; mark_go.
Qed.
Hint Resolve mark_data_loop : mark.
Lemma mark_write_stream id data : keeps (write_stream id data).
Proof. unfold write_stream. mark_go. Qed.
End keep_mark.

#[export] Hint Resolve mark_read_stream mark_buffer_next mark_write_stream mark_open_stream mark_finish mark_ensure_open : mark.

End H2Mark.
