(* ===== verification/H2Live.v ===== *)
(** Delivery through the raw HTTP/2 framer
    ([crates/ios-core/src/xpc/h2_raw.rs], [read_stream]).

    The theorems on reading say what a read returns if it returns. Here is when it does: from a
    framer in order, with nothing else under way, over a socket that delivers the frames
    of the request stream in pieces of any size, a read of bytes that are there returns them. *)

From S2P Require Import Prelude XpcMessage H2Framer H2Read H2Inv H2Conn.

Module H2Live.
Import H2 H2Read H2Inv H2Conn.

Definition lives {A} (m : h2 A) (Q : A -> H2Framer -> Prop) : H2Framer -> Prop := wpx m Q (fun _ => False) (fun _ => False).

(** A DATA or HEADERS frame of the request stream that does not end it. *)
Definition plain (f : RawFrame) : Prop :=
  (frame_type f = FRAME_DATA \/ frame_type f = FRAME_HEADERS) /\ in_u 8 (flags f) /\ Z.land (flags f) FLAG_END_STREAM = 0 /\
  stream_id f = STREAM_CLIENT_SERVER /\ len (payload f) <= MAX_FRAME_PAYLOAD.
Definition body_of (f : RawFrame) : bytes := if is_data f then payload f else [].
Definition payloads (fs : list RawFrame) : bytes := concat (map body_of fs).
(** A framer that is not waiting, refusing or closing anything on the request stream. *)
Definition in_order (s : H2Framer) : Prop :=
  wr (io s) = [] /\ pending_write (io s) = None /\
  (connection_error (ctl s) = None /\ open_stream_in_progress (ctl s) = None /\ window_update_in_progress (ctl s) = false) /\
  rd s = mkRd [] None None /\ pending_data_frames (bufs s) = [] /\
  reset_streams (streams s) !! STREAM_CLIENT_SERVER = None /\ goaway (streams s) = None /\ STREAM_CLIENT_SERVER ∉ closed_streams (streams s) /\
  map_Forall (fun _ v => 0 <= v < WINDOW_UPDATE_THRESHOLD) (pending_window_updates (flow s)).
(** [R] is what is left of the stream: part of it buffered, the rest in frames to come. *)
Definition Live (R : bytes) (s : H2Framer) : Prop :=
  in_order s /\ exists fs, Forall plain fs /\ data (rx (io s)) = wires fs /\ Forall event_ok (rx (io s)) /\ stalls (rx (io s)) = 0%nat /\
    R = client_server_buf (bufs s) ++ payloads fs /\ len R <= MAX_BUFFERED_BYTES_PER_STREAM /\ 0 <= buffered_bytes (bufs s) /\
    buffered_bytes (bufs s) + len (payloads fs) <= MAX_TOTAL_BUFFERED_BYTES.

Lemma plain_ok f : plain f -> frame_ok f.
Proof. intros (Ht & Hf & _ & Hi & Hl). unfold frame_ok. rewrite Hi. by destruct Ht as [Ht|Ht]; rewrite Ht; split_and!. Qed.

(** The frame at the front is read. *)
Lemma read_frame_lives f rest s : plain f -> in_order s -> Forall event_ok (rx (io s)) -> stalls (rx (io s)) = 0%nat ->
  data (rx (io s)) = frame_wire f ++ rest ->
  lives read_raw_frame (fun f' s' => f' = f /\ exists r, s' = set_rx r s /\ data r = rest /\ Forall event_ok r /\ stalls r = 0%nat) s.
Proof.
  intros Hf%plain_ok (_ & Hw & Ho & Hr & _) Hok Hst Hd.
  pose proof (read_raw_frame_reads f rest s Hf Hw Ho (rx (io s)) [] None None) as H.
  assert (at_read s (rx (io s)) [] None None = s) as E by (destruct s as [[] []]; cbn in *; by inversion Hr). rewrite E in H.
  eapply wpx_mono; [apply H; [|done]| |done|]; cbv beta.
  - apply (in_header _ _ _ [] (header_of f)); [done|]. by rewrite Hd, frame_wire_split, <- app_assoc.
  - intros f' s' (-> & r & -> & Hd' & Hok' & Hs'). split; [done|]. exists r. split_and!; [|done..|lia].
    destruct s as [[] rds]; cbn in *. by subst.
  - intros s' (r & h & m & b & _ & _ & _ & Hs'). lia.
Qed.
Lemma write_frame_lives bs s (Q : unit -> H2Framer -> Prop) : wr (io s) = [] -> Q tt (set_tx (tx (io s) ++ bs) s) -> lives (write_frame_bytes bs) Q s.
Proof.
  intros Hw HQ. unfold lives, wpx, write_frame_bytes. destruct bs as [|b bs]; cbn [length write_frame_loop].
  { cbn. rewrite app_nil_r in HQ. by destruct s as [[]]. }
  set (l := b :: bs) in *. unfold sock_write. rewrite Hw. change (length l) with (S (length bs)). cbv iota beta.
  rewrite drop_ge by done. by destruct (length bs).
Qed.
Lemma write_lives bs s (Q : unit -> H2Framer -> Prop) : wr (io s) = [] -> pending_write (io s) = None -> Q tt (set_tx (tx (io s) ++ bs) s) -> lives (write_all_tracked bs) Q s.
Proof.
  intros Hw Hp HQ. unfold lives, write_all_tracked, finish_pending_write. wpx_steps. rewrite Hp. wpx_steps. by apply write_frame_lives.
Qed.
Lemma write_frames_lives l s (Q : unit -> H2Framer -> Prop) : wr (io s) = [] -> pending_write (io s) = None -> (forall t, Q tt (set_tx t s)) -> lives (write_all_frames l) Q s.
Proof.
  intros Hw Hp. revert s Hw Hp. induction l as [|bs l IH]; intros s Hw Hp HQ; cbn [write_all_frames].
  - apply wpx_ret. specialize (HQ (tx (io s))). by destruct s as [[]].
  - apply wpx_bind, write_lives; [done..|]. by apply IH.
Qed.
(** Steps that touch neither what is to be read nor what is buffered. *)
Definition calm (s s' : H2Framer) : Prop := in_order s' /\ rx (io s') = rx (io s) /\ bufs s' = bufs s.
Lemma open_lives s (Q : unit -> H2Framer -> Prop) : in_order s -> Q tt s -> lives ensure_connection_open Q s.
Proof. intros (_ & _ & (E1 & E2 & E3) & _) HQ. unfold lives, ensure_connection_open. wpx_steps. by rewrite E1, E2, E3; wpx_steps. Qed.
Lemma available_lives s (Q : unit -> H2Framer -> Prop) : in_order s -> Q tt s -> lives (ensure_stream_available STREAM_CLIENT_SERVER) Q s.
Proof.
  intros Hs HQ. unfold lives, ensure_stream_available. wpx_step. eapply open_lives; [done|]. destruct Hs as (_ & _ & _ & _ & _ & Er & Eg & _).
  wpx_steps. rewrite Er, Eg. by wpx_steps.
Qed.
Lemma not_reused_lives s (Q : unit -> H2Framer -> Prop) : Q tt s -> lives (ensure_peer_stream_not_reused STREAM_CLIENT_SERVER) Q s.
Proof. intros HQ. unfold lives, ensure_peer_stream_not_reused. wpx_step. apply wpx_get. by apply wpx_ret. Qed.
Lemma in_order_io v s : in_order s -> in_order (set_tx v s).
Proof. done. Qed.
Lemma replenish_lives n s : in_order s -> 0 <= n <= MAX_FRAME_PAYLOAD -> lives (replenish_receive_window STREAM_CLIENT_SERVER n) (fun _ => calm s) s.
Proof.
  intros Hs Hn. unfold lives, replenish_receive_window. wpx_step. eapply open_lives; [done|].
  destruct (Z.eqb_spec n 0) as [->|Hn0]; [by wpx_steps|]. unfold MAX_FRAME_PAYLOAD, u32_max in *. rewrite (proj2 (Z.ltb_ge _ n)) by lia.
  wpx_step. apply wpx_get. cbv zeta. pose proof Hs as (Hw & Hp & Ho & Hr & Hq & H1 & H2 & H3 & Hwin).
  assert (forall i, 0 <= default 0 (pending_window_updates (flow s) !! i) < WINDOW_UPDATE_THRESHOLD) as Hb.
  { intros i. destruct (_ !! i) as [v|] eqn:E; [exact (Hwin i v E)|done]. }
  pose proof (Hb STREAM_INIT) as B0. pose proof (Hb STREAM_CLIENT_SERVER) as B1. set (p0 := default 0 (pending_window_updates (flow s) !! STREAM_INIT)) in *.
  set (p1 := default 0 (pending_window_updates (flow s) !! STREAM_CLIENT_SERVER)) in *. clearbody p0 p1. unfold WINDOW_UPDATE_THRESHOLD in *.
  change (STREAM_CLIENT_SERVER =? STREAM_INIT) with false. cbn [negb andb]. rewrite !(proj2 (Z.ltb_ge _ _)) by lia.
  unfold when. wpx_step. apply wpx_mod. wpx_step. apply wpx_mod.
  match goal with |- wpx (match ?x with [] => _ | _ => _ end) _ _ _ ?s2 => set (l := x); set (s1 := s2) end.
  assert (calm s s1) as Hc.
  { split; [|done]. unfold s1. split_and!; try done; try apply Ho. cbn.
    apply map_Forall_insert_2; [unfold WINDOW_UPDATE_THRESHOLD; split_ifs; lia|].
    apply map_Forall_insert_2; [unfold WINDOW_UPDATE_THRESHOLD; split_ifs; lia|]. exact Hwin. }
  clearbody l s1. destruct l as [|f l]; [by apply wpx_ret|]. destruct Hc as ((Hw1 & Hp1 & Ho1 & Hrest) & Hx & Hbf). wpx_step. apply wpx_mod. wpx_step.
  apply write_frames_lives; [done..|]. intros t. wpx_step. unfold wpx at 1, flush. cbn [io set_tx upd_io wr set_window_update_in_progress upd_ctl]. rewrite Hw1.
  apply wpx_mod. split; [|done]. split_and!; try apply Hrest; try done; apply Ho1.
Qed.

(** What a DATA frame does: its payload is behind the others. *)
Lemma append_lives p s (Q : unit -> H2Framer -> Prop) : in_order s ->
  len (client_server_buf (bufs s)) + len p <= MAX_BUFFERED_BYTES_PER_STREAM -> 0 <= buffered_bytes (bufs s) -> buffered_bytes (bufs s) + len p <= MAX_TOTAL_BUFFERED_BYTES ->
  Q tt (set_client_server_buf (client_server_buf (bufs s) ++ p) (set_buffered_bytes (buffered_bytes (bufs s) + len p) s)) ->
  lives (append_stream_data STREAM_CLIENT_SERVER p) Q s.
Proof.
  intros Hs Hl H0 Ht HQ. unfold lives, append_stream_data. destruct p as [|b p].
  { apply wpx_ret. rewrite app_nil_r in HQ. change (len (@nil byte)) with 0 in HQ. rewrite Z.add_0_r in HQ. by destruct s as [? ? [] ? ? ?]. }
  set (l := b :: p) in *. assert (0 < len l) by (unfold len, l; cbn; lia). pose proof Hs as (_ & _ & _ & _ & Hq & _). pose proof (len_nonneg (client_server_buf (bufs s))).
  wpx_step. unfold reserve_stream_buffer. rewrite (proj2 (Z.eqb_neq _ 0)) by lia. wpx_step. apply wpx_get.
  change (is_known_stream s STREAM_CLIENT_SERVER) with true. cbn [negb andb]. cbv zeta.
  assert (stream_buffer_len s STREAM_CLIENT_SERVER + pending_stream_buffer_len s STREAM_CLIENT_SERVER = len (client_server_buf (bufs s))) as ->.
  { unfold pending_stream_buffer_len. rewrite Hq. unfold stream_buffer_len, stream_buffer. cbn. lia. }
  unfold MAX_BUFFERED_BYTES_PER_STREAM, MAX_TOTAL_BUFFERED_BYTES, usize_max in *. rewrite !(proj2 (Z.ltb_ge _ _)) by lia.
  apply wpx_mod. apply wpx_mod. exact HQ.
Qed.
Lemma dispatch_lives f s : plain f -> in_order s ->
  len (client_server_buf (bufs s)) + len (body_of f) <= MAX_BUFFERED_BYTES_PER_STREAM -> 0 <= buffered_bytes (bufs s) -> buffered_bytes (bufs s) + len (body_of f) <= MAX_TOTAL_BUFFERED_BYTES ->
  lives (dispatch_frame f) (fun _ s' => in_order s' /\ rx (io s') = rx (io s) /\
    client_server_buf (bufs s') = client_server_buf (bufs s) ++ body_of f /\ buffered_bytes (bufs s') = buffered_bytes (bufs s) + len (body_of f)) s.
Proof.
  intros (Ht & _ & Hfl & Hid & Hm) Hs. unfold body_of, is_data.
  assert (forall s1, mark_end_stream STREAM_CLIENT_SERVER (flags f) s1 = s1) as Hend by (intros s1; unfold mark_end_stream; by rewrite Hfl).
  assert (forall s1 (Q : unit -> H2Framer -> Prop), in_order s1 -> Q tt s1 -> lives (ensure_incoming_stream_available STREAM_CLIENT_SERVER) Q s1) as Hin.
  { intros s1 Q H1 HQ. unfold lives, ensure_incoming_stream_available. wpx_step. apply available_lives; [done|]. wpx_step. apply wpx_get.
    pose proof H1 as (_ & _ & _ & _ & _ & _ & _ & Hc & _). rewrite bool_decide_eq_false_2 by done. by apply not_reused_lives. }
  intros Hl H0 Hb. unfold lives, dispatch_frame. wpx_step. apply open_lives; [done|]. unfold dispatch_frame_inner.
  destruct Ht as [Ht|Ht]; rewrite Ht in *; cbn [Z.eqb Pos.eqb FRAME_DATA FRAME_HEADERS] in *.
  - unfold process_data. rewrite Hid. change (STREAM_CLIENT_SERVER =? STREAM_INIT) with false. cbv iota. wpx_step. apply Hin; [done|].
    wpx_step. unfold observe_peer_data_stream. wpx_step. apply wpx_get. change (is_known_stream s STREAM_CLIENT_SERVER) with true. cbn [orb]. apply wpx_ret.
    wpx_step. apply append_lives; [done..|]. wpx_step. apply wpx_mod. rewrite Hend.
    eapply wpx_mono; [apply replenish_lives; [exact Hs|pose proof (len_nonneg (payload f)); lia]| |done|done]. cbv beta. intros _ s' (Hs' & Hx & Hbf).
    rewrite Hbf, Hx. by split_and!.
  - unfold process_headers. rewrite Hid. change (STREAM_CLIENT_SERVER =? STREAM_INIT) with false. cbv iota. wpx_step. apply Hin; [done|].
    wpx_step. unfold observe_peer_headers. wpx_step. apply wpx_get. change (is_known_stream s STREAM_CLIENT_SERVER) with true. cbn [orb]. apply wpx_ret.
    apply wpx_mod. rewrite Hend, app_nil_r. change (len (@nil byte)) with 0. rewrite Z.add_0_r. by split_and!.
Qed.

Lemma payloads_cons f fs : payloads (f :: fs) = body_of f ++ payloads fs.
Proof. done. Qed.
Lemma loop_lives fuel n R s : Live R s -> n <= len R -> (length (data (rx (io s))) < fuel)%nat ->
  lives (read_stream_loop fuel STREAM_CLIENT_SERVER n) (fun _ s' => Live R s' /\ n <= len (client_server_buf (bufs s'))) s.
Proof.
  revert s. induction fuel as [|fuel IH]; intros s HL Hn Hf; [lia|]. cbn [read_stream_loop]; unfold lives. wpx_step. apply wpx_get.
  change (stream_buffer_len s STREAM_CLIENT_SERVER) with (len (client_server_buf (bufs s))).
  destruct (Z.leb_spec n (len (client_server_buf (bufs s)))) as [Hle|Hgt]; [by apply wpx_ret|].
  destruct HL as (Hs & fs & Hp & Hd & Hok & Hst & -> & Hl & H0 & Ht). rewrite len_app in Hn, Hl.
  destruct Hp as [|f fs Hpf Hp]; [unfold payloads, len in Hn; cbn in Hn; unfold len in Hgt; lia|]. rewrite payloads_cons in *. rewrite len_app in *.
  pose proof (len_nonneg (payloads fs)). change (wires (f :: fs)) with (frame_wire f ++ wires fs) in Hd.
  wpx_step. apply available_lives; [done|]. pose proof Hs as (_ & _ & _ & _ & _ & _ & _ & Hc & _). rewrite bool_decide_eq_false_2 by done.
  wpx_step. apply not_reused_lives. wpx_step. eapply wpx_mono; [by apply (read_frame_lives f (wires fs))| |done|done]. cbv beta.
  intros f' s' (-> & r & -> & Hd' & Hok' & Hst'). wpx_step.
  eapply wpx_mono; [apply dispatch_lives; [done|exact Hs|cbn [bufs set_rx upd_io]; lia..]| |done|done]. cbv beta. cbn [bufs set_rx upd_io io rx].
  intros _ s' (Hs' & Hx & Hb & Hbb). apply IH; [|rewrite !len_app; lia|].
  - split; [done|]. exists fs. rewrite Hx, Hb, Hbb. rewrite <- app_assoc, !len_app. pose proof (len_nonneg (body_of f)). split_and!; try done; lia.
  - rewrite Hx, Hd'. rewrite Hd, frame_wire_split, !length_app, length_header_of in Hf. lia.
Qed.
Lemma drain_idle s : pending_data_frames (bufs s) = [] -> drain_pending_data_frames s = s.
Proof. intros H. unfold drain_pending_data_frames. rewrite H. cbn. destruct s as [? ? [] ? ? ?]. cbn in H. by subst. Qed.
(** A read of bytes that are there gives them out, and leaves the others there. *)
Lemma read_stream_lives n R s : 0 <= n <= len R -> Live R s ->
  lives (read_stream STREAM_CLIENT_SERVER n) (fun bs s' => bs = take (Z.to_nat n) R /\ Live (drop (Z.to_nat n) R) s') s.
Proof.
  intros Hn HL. unfold lives, read_stream. pose proof HL as (Hs & _). wpx_step. apply available_lives; [done|]. wpx_step.
  unfold finish_pending_write. wpx_step. apply wpx_get. pose proof Hs as (_ & -> & _ & _ & Hq & _). apply wpx_ret.
  wpx_step. apply not_reused_lives. wpx_step. apply wpx_mod. rewrite (drain_idle s Hq). wpx_step. apply wpx_get. wpx_step.
  eapply wpx_mono; [apply loop_lives; [exact HL|lia|]| |done|done].
  { unfold loop_fuel, rx_bytes. clear -n. generalize (rx (io s)). intros l. enough (length (data l) <= sum_list_with event_bytes l)%nat by lia.
    unfold data. induction l as [|[] l IH]; cbn; rewrite ?length_app; cbn; lia. }
  cbv beta. intros _ s1 [(Hs1 & fs & Hp & Hd & Hok & Hst & -> & Hl & H0 & Ht) Hle]. unfold take_stream_bytes. wpx_step. apply wpx_get.
  change (stream_buffer_len s1 STREAM_CLIENT_SERVER) with (len (client_server_buf (bufs s1))). rewrite (proj2 (Z.ltb_ge _ n)) by lia. cbv zeta.
  change (STREAM_CLIENT_SERVER =? STREAM_CLIENT_SERVER) with true. cbv iota. wpx_step. wpx_step. apply wpx_mod. apply wpx_ret. wpx_step. apply wpx_mod. wpx_step. apply wpx_get.
  cbn [negb andb when]. wpx_step. apply wpx_ret. apply wpx_ret.
  set (k := Z.to_nat n). assert (k <= length (client_server_buf (bufs s1)))%nat as Hk by (unfold k, len in *; lia). clearbody k.
  rewrite take_app_le, drop_app_le by done. split; [done|]. split; [exact Hs1|]. exists fs. cbn [bufs set_buffered_bytes upd_bufs set_client_server_buf client_server_buf buffered_bytes io].
  rewrite len_app in *. pose proof (len_nonneg (payloads fs)). split_and!; try done; [unfold len in *; rewrite length_drop; lia|unfold sat_sub; lia..].
Qed.
End H2Live.
