(* ===== verification/XpcPending.v ===== *)
(** Replies parked by an XPC connection
    ([crates/ios-core/src/xpc/rsd.rs], from [MAX_PENDING_MESSAGES_PER_STREAM] to
    [clear_pending_stream]).

    While a caller waits for the reply with a certain id, other messages of the
    stream are parked. [Parked] holds the two fields of [XpcConnection] that
    keep them, the queues and the byte budget; the methods that touch only
    those fields are state transformers on it. What a message occupies is a
    sum over the allocations of the decoded value: the capacities and the sizes
    of the Rust types are the operations of the class [Allocation]. *)

From S2P Require Import Prelude Utf8 XpcMessage.

Module Pending.
Import Xpc.

Definition MAX_PENDING_MESSAGES_PER_STREAM : nat := Z.to_nat 1024.
Definition DEFAULT_PENDING_BYTES_PER_STREAM : Z := 128 * 1024 * 1024.
Definition DEFAULT_PENDING_BYTES_CONNECTION : Z := 512 * 1024 * 1024.

(** [size_of::<T>()] of the stored types and [capacity()] of a decoded [String],
    [Vec] and [IndexMap]. *)
Class Allocation := {
  size_of_value : Z;
  size_of_entry : Z;
  size_of_message : Z;
  string_capacity : bytes -> Z;
  array_capacity : list XpcValue -> Z;
  dict_capacity : list (bytes * XpcValue) -> Z;
}.
(** What Rust documents about them: a container has room for what it holds. *)
Class AllocationLaws `(Allocation) := {
  size_of_value_pos : 0 < size_of_value;
  size_of_entry_pos : 0 < size_of_entry;
  size_of_message_pos : 0 < size_of_message;
  string_capacity_len s : len s <= string_capacity s;
  array_capacity_len l : len l <= array_capacity l;
  dict_capacity_len l : len l <= dict_capacity l;
}.

(** ** The size of a message *)

Section sizes.
Context `{!Allocation}.

Definition add_pending_size (size amount : Z) (kind : string) : outcome XpcError Z :=
  if usize_max <? size + amount
  then Err (Tls (Msg ("XPC pending message size overflow while accounting " +:+ kind) []))
  else Ok (size + amount).
(** [checked_mul(size_of::<T>())] *)
Definition checked_slots (capacity slot : Z) (text : string) : outcome XpcError Z :=
  if usize_max <? capacity * slot then Err (Tls (Msg text [])) else Ok (capacity * slot).

Fixpoint xpc_value_memory_size (value : XpcValue) : outcome XpcError Z :=
  match value with
  | Data data => add_pending_size 0 (len data) "data"
  | String s => add_pending_size 0 (string_capacity s) "string"
  | Array values =>
      slots ← checked_slots (array_capacity values) size_of_value
        "XPC pending message size overflow while accounting array slots";
      size ← add_pending_size 0 slots "array slots";
      foldM (fun child size => n ← xpc_value_memory_size child; add_pending_size size n "array values") values size
  | Dictionary entries =>
      slots ← checked_slots (dict_capacity entries) size_of_entry
        "XPC pending message size overflow while accounting dictionary slots";
      size ← add_pending_size 0 slots "dictionary slots";
      foldM (fun '(key, child) size =>
        size ← add_pending_size size (string_capacity key) "dictionary key";
        n ← xpc_value_memory_size child;
        add_pending_size size n "dictionary values") entries size
  | FileTransfer _ data =>
      size ← add_pending_size 0 size_of_value "file-transfer value";
      n ← xpc_value_memory_size data;
      if usize_max <? size + n
      then Err (Tls (Msg "XPC pending message size overflow while accounting file-transfer data" []))
      else Ok (size + n)
  | Null | Bool _ | Int64 _ | Uint64 _ | Double _ | Date _ | Uuid _ => Ok 0
  end.

Definition xpc_message_memory_size (message : XpcMessage) : outcome XpcError Z :=
  n ← match body message with Some v => xpc_value_memory_size v | None => Ok 0 end;
  if usize_max <? size_of_message + n
  then Err (Tls (Msg "XPC pending message size overflow" []))
  else Ok (size_of_message + n).
End sizes.

(** ** The byte budget *)

Record PendingMessageBudget := mkBudget {
  per_stream_limit : Z;
  connection_limit : Z;
  per_stream_bytes : gmap Z Z;
  total_bytes : Z;
}.
Definition budget_new (per_stream_limit connection_limit : Z) : PendingMessageBudget :=
  mkBudget per_stream_limit connection_limit ∅ 0.
Definition set_usage (per_stream : gmap Z Z) (total : Z) (b : PendingMessageBudget) : PendingMessageBudget :=
  mkBudget (per_stream_limit b) (connection_limit b) per_stream total.
(** [if n == 0 { remove } else { insert }] *)
Definition set_or_remove (id n : Z) (m : gmap Z Z) : gmap Z Z := if n =? 0 then delete id m else <[id := n]> m.

Abbreviation budget_op := (st PendingMessageBudget XpcError).

Definition reserve (stream_id bytes : Z) : budget_op unit :=
  b ← st_get;
  let current_stream := default 0 (per_stream_bytes b !! stream_id) in
  let next_stream := current_stream + bytes in
  if usize_max <? next_stream
  then st_fail (Tls (Msg "XPC pending bytes overflow on stream {stream_id}: current {current_stream}, incoming {bytes}" [stream_id; current_stream; bytes])) else
  let next_total := total_bytes b + bytes in
  if usize_max <? next_total
  then st_fail (Tls (Msg "XPC pending connection bytes overflow: current {}, incoming {bytes}" [total_bytes b; bytes])) else
  if per_stream_limit b <? next_stream
  then st_fail (Tls (Msg "XPC pending bytes {next_stream} on stream {stream_id} exceed per-stream limit {} (current {current_stream}, incoming {bytes})" [next_stream; stream_id; per_stream_limit b; current_stream; bytes])) else
  if connection_limit b <? next_total
  then st_fail (Tls (Msg "XPC pending connection bytes {next_total} exceed limit {} (current {}, incoming {bytes})" [next_total; connection_limit b; total_bytes b; bytes])) else
  st_mod (set_usage (<[stream_id := next_stream]> (per_stream_bytes b)) next_total).

Definition replace (stream_id old_bytes new_bytes : Z) : budget_op unit :=
  b ← st_get;
  let current_stream := default 0 (per_stream_bytes b !! stream_id) in
  let base_stream := current_stream - old_bytes in
  if base_stream <? 0
  then st_fail (Tls (Msg "XPC pending byte accounting underflow on stream {stream_id}: current {current_stream}, replacing {old_bytes}" [stream_id; current_stream; old_bytes])) else
  let base_total := total_bytes b - old_bytes in
  if base_total <? 0
  then st_fail (Tls (Msg "XPC pending connection byte accounting underflow: current {}, replacing {old_bytes}" [total_bytes b; old_bytes])) else
  let next_stream := base_stream + new_bytes in
  if usize_max <? next_stream
  then st_fail (Tls (Msg "XPC pending bytes overflow on stream {stream_id}: base {base_stream}, replacement {new_bytes}" [stream_id; base_stream; new_bytes])) else
  let next_total := base_total + new_bytes in
  if usize_max <? next_total
  then st_fail (Tls (Msg "XPC pending connection bytes overflow: base {base_total}, replacement {new_bytes}" [base_total; new_bytes])) else
  if per_stream_limit b <? next_stream
  then st_fail (Tls (Msg "XPC replacement pending bytes {next_stream} on stream {stream_id} exceed per-stream limit {} (old {old_bytes}, new {new_bytes})" [next_stream; stream_id; per_stream_limit b; old_bytes; new_bytes])) else
  if connection_limit b <? next_total
  then st_fail (Tls (Msg "XPC replacement pending connection bytes {next_total} exceed limit {} (old {old_bytes}, new {new_bytes})" [next_total; connection_limit b; old_bytes; new_bytes])) else
  st_mod (set_usage (set_or_remove stream_id next_stream (per_stream_bytes b)) next_total).

Definition release (stream_id bytes : Z) : budget_op unit :=
  b ← st_get;
  (match per_stream_bytes b !! stream_id with
   | Some current_stream =>
       debug_assert (bytes <=? current_stream) ;;
       st_mod (fun b => set_usage (set_or_remove stream_id (sat_sub current_stream bytes) (per_stream_bytes b)) (total_bytes b) b)
   | None => mret tt
   end) ;;
  debug_assert (bytes <=? total_bytes b) ;;
  st_mod (fun b => set_usage (per_stream_bytes b) (sat_sub (total_bytes b) bytes) b).

Definition clear_stream (stream_id : Z) : budget_op unit :=
  b ← st_get;
  match per_stream_bytes b !! stream_id with
  | Some bytes =>
      debug_assert (bytes <=? total_bytes b) ;;
      st_mod (fun b => set_usage (delete stream_id (per_stream_bytes b)) (sat_sub (total_bytes b) bytes) b)
  | None => mret tt
  end.
Definition clear (b : PendingMessageBudget) : PendingMessageBudget := set_usage ∅ 0 b.

(** ** The queues *)

Record PendingMessage := mkPending { message : XpcMessage; bytes_of : Z }.
Record Parked := mkParked {
  pending_messages : gmap Z (list PendingMessage);
  pending_budget : PendingMessageBudget;
}.
Definition parked_new (per_stream_limit connection_limit : Z) : Parked :=
  mkParked ∅ (budget_new per_stream_limit connection_limit).

Abbreviation parked_op := (st Parked XpcError).

Definition set_messages (m : gmap Z (list PendingMessage)) (p : Parked) : Parked := mkParked m (pending_budget p).
Definition on_budget {A} (m : budget_op A) : parked_op A := fun p =>
  let '(b, o) := m (pending_budget p) in (mkParked (pending_messages p) b, o).

(** [iter().position(|entry| entry.message.msg_id == id)] *)
Definition position (id : Z) (l : list PendingMessage) : option nat :=
  fst <$> list_find (fun e => msg_id (message e) = id) l.

Section queues.
Context `{!Allocation}.

Definition replace_pending_message (stream_id : Z) (index : nat) (m : XpcMessage) (bytes : Z) : parked_op unit :=
  p ← st_get;
  match pending_messages p !! stream_id ≫= (fun pending => pending !! index) with
  | None => st_fail (Tls (Msg "XPC pending message replacement index {index} missing on stream {stream_id}" [Z.of_nat index; stream_id]))
  | Some entry =>
      let old_bytes := bytes_of entry in
      on_budget (replace stream_id old_bytes bytes) ;;
      p ← st_get;
      match pending_messages p !! stream_id with
      | Some pending =>
          if (index <? length pending)%nat
          then st_mod (set_messages (<[stream_id := <[index := mkPending m bytes]> pending]> (pending_messages p)))
          else
            (fun p => ((on_budget (replace stream_id bytes old_bytes) p).1, Ok tt)) ;;
            st_fail (Tls (Msg "XPC pending message replacement index {index} disappeared on stream {stream_id}" [Z.of_nat index; stream_id]))
      | None =>
          (fun p => ((on_budget (replace stream_id bytes old_bytes) p).1, Ok tt)) ;;
          st_fail (Tls (Msg "XPC pending message replacement index {index} disappeared on stream {stream_id}" [Z.of_nat index; stream_id]))
      end
  end.

Definition push_pending_message (stream_id : Z) (m : XpcMessage) : parked_op unit :=
  bytes ← st_lift (xpc_message_memory_size m);
  p ← st_get;
  let replacement_index :=
    if msg_id m =? 0 then None else pending_messages p !! stream_id ≫= position (msg_id m) in
  match replacement_index with
  | Some index => replace_pending_message stream_id index m bytes
  | None =>
      let pending_len := from_option length O (pending_messages p !! stream_id) in
      if (MAX_PENDING_MESSAGES_PER_STREAM <=? pending_len)%nat
      then st_fail (Tls (Msg "XPC: more than {MAX_PENDING_MESSAGES_PER_STREAM} unmatched messages buffered on stream {stream_id} while waiting for a reply" [stream_id])) else
      on_budget (reserve stream_id bytes) ;;
      st_mod (fun p => set_messages
        (<[stream_id := default [] (pending_messages p !! stream_id) ++ [mkPending m bytes]]> (pending_messages p)) p)
  end.

(** What is left of a queue is stored back; an empty queue is removed. *)
Definition put_queue (stream_id : Z) (q : list PendingMessage) (p : Parked) : Parked :=
  set_messages (match q with [] => delete stream_id (pending_messages p) | _ => <[stream_id := q]> (pending_messages p) end) p.

Definition pop_next_pending_message (stream_id : Z) : parked_op (option XpcMessage) :=
  p ← st_get;
  match pending_messages p !! stream_id with
  | Some (entry :: pending) =>
      st_mod (put_queue stream_id pending) ;;
      on_budget (release stream_id (bytes_of entry)) ;;
      mret (Some (message entry))
  | _ => mret None
  end.

Definition take_pending_message (stream_id id : Z) : parked_op (option XpcMessage) :=
  p ← st_get;
  match pending_messages p !! stream_id with
  | None => mret None
  | Some pending =>
      match position id pending with
      | None => mret None
      | Some index =>
          match pending !! index with
          | None => mret None
          | Some entry =>
              st_mod (put_queue stream_id (delete index pending)) ;;
              on_budget (release stream_id (bytes_of entry)) ;;
              mret (Some (message entry))
          end
      end
  end.

Definition clear_pending_stream (stream_id : Z) : parked_op unit :=
  st_mod (fun p => set_messages (delete stream_id (pending_messages p)) p) ;;
  on_budget (clear_stream stream_id).

(** [Drop] of the connection. *)
Definition drop_parked (p : Parked) : Parked := mkParked ∅ (clear (pending_budget p)).
Definition pending_memory_bytes_used (p : Parked) : Z := total_bytes (pending_budget p).
End queues.

(** ** Specification

    What a message occupies, without overflow checks. *)
Section heap.
Context `{!Allocation}.

Fixpoint heap (v : XpcValue) : Z :=
  match v with
  | Data data => len data
  | String s => string_capacity s
  | Array values => array_capacity values * size_of_value + lsum heap values
  | Dictionary entries =>
      dict_capacity entries * size_of_entry + lsum (fun kv => string_capacity kv.1 + heap kv.2) entries
  | FileTransfer _ data => size_of_value + heap data
  | _ => 0
  end.
Definition message_heap (m : XpcMessage) : Z := size_of_message + from_option heap 0 (body m).
End heap.

(** The queue of one stream: a message with a nonzero id takes the place of the
    parked one with the same id, any other goes to the end. *)
Fixpoint park (m : XpcMessage) (q : list XpcMessage) : list XpcMessage :=
  match q with
  | [] => [m]
  | m' :: q => if (msg_id m' =? msg_id m) && negb (msg_id m =? 0) then m :: q else m' :: park m q
  end.
(** The first message with id [id], and the others. *)
Fixpoint pick (id : Z) (q : list XpcMessage) : option (XpcMessage * list XpcMessage) :=
  match q with
  | [] => None
  | m :: q =>
      if msg_id m =? id then Some (m, q)
      else '(r, q) ← pick id q; Some (r, m :: q)
  end.
Definition parked_on (p : Parked) (stream_id : Z) : list XpcMessage :=
  map message (default [] (pending_messages p !! stream_id)).

Definition queue_bytes (q : list PendingMessage) : Z := lsum bytes_of q.
#[global] Arguments queue_bytes : simpl never.
Definition queue_ids (q : list PendingMessage) : list Z := filter (fun id => id <> 0) (map (fun e => msg_id (message e)) q).

Section invariant.
Context `{!Allocation} (stream_max conn_max : Z).

(** A queue within its limits whose entries carry the true sizes. *)
Definition queue_ok (q : list PendingMessage) : Prop :=
  (length q <= MAX_PENDING_MESSAGES_PER_STREAM)%nat /\ NoDup (queue_ids q) /\
  Forall (fun e => bytes_of e = message_heap (message e)) q /\ queue_bytes q <= stream_max.

(** The budget is the sum of what is parked, per stream and in total. *)
Definition Accounted (p : Parked) : Prop :=
  let b := pending_budget p in
  map_Forall (fun _ q => q <> [] /\ queue_ok q) (pending_messages p) /\
  per_stream_bytes b = queue_bytes <$> pending_messages p /\
  total_bytes b = msum queue_bytes (pending_messages p) /\
  total_bytes b <= conn_max /\ per_stream_limit b = stream_max /\ connection_limit b = conn_max.

(** Only the queue of one stream has changed, and it is now [q]. *)
Definition requeued (stream_id : Z) (q : list XpcMessage) (p p' : Parked) : Prop :=
  Accounted p' /\ forall i, parked_on p' i = if i =? stream_id then q else parked_on p i.
End invariant.

(** ** Sizes *)

Section sizes_spec.
Context `{A0 : !Allocation} `{L0 : !AllocationLaws A0}.

(** A checked sum: the exact value, or an error when it does not fit a [usize]. *)
Definition sums (o : outcome XpcError Z) (n : Z) : Prop :=
  match o with Ok k => k = n /\ n <= usize_max | Err _ => usize_max < n | _ => False end.

Lemma sums_bind o f n n' : sums o n -> n <= n' -> (n <= usize_max -> sums (f n) n') -> sums (o ≫= f) n'.
Proof.
  destruct o; cbn; try done; [intros [-> Hn] _ Hf; by apply Hf|]. intros Hn Hle _. lia.
Qed.
Lemma sums_add size n kind : sums (add_pending_size size n kind) (size + n).
Proof. unfold add_pending_size. destruct (usize_max <? size + n) eqn:E; cbn; lia. Qed.
Lemma sums_slots capacity slot text : sums (checked_slots capacity slot text) (capacity * slot).
Proof. unfold checked_slots. destruct (usize_max <? capacity * slot) eqn:E; cbn; lia. Qed.
Lemma sums_fold {A} (f : A -> Z -> outcome XpcError Z) (g : A -> Z) l size :
  Forall (fun a => 0 <= g a /\ forall k, 0 <= k -> sums (f a k) (k + g a)) l -> 0 <= size <= usize_max ->
  sums (foldM f l size) (size + lsum g l).
Proof.
  intros Hl. revert size. induction Hl as [|a l [Ha Hf] Hl IH]; intros size Hs; cbn [foldM]; [split; [cbn; lia|cbn; lia]|]. cbn [lsum foldr].
  assert (0 <= lsum g l) by (apply lsum_nonneg; eapply Forall_impl; [exact Hl|by intros ? []]).
  change (foldr (fun a s => g a + s) 0 l) with (lsum g l). apply (sums_bind _ _ (size + g a)); [apply Hf; lia|lia|].
  intros Hle. rewrite Z.add_assoc. apply IH. lia.
Qed.

Lemma slots_nonneg {A} (l : list A) c k : len l <= c -> 0 < k -> 0 <= c * k.
Proof. pose proof (len_nonneg l). nia. Qed.
Lemma capacity_nonneg s : 0 <= string_capacity s.
Proof. pose proof (string_capacity_len s). pose proof (len_nonneg s). lia. Qed.
Lemma heap_nonneg v : 0 <= heap v.
Proof.
  induction v using XpcValue_nested_ind; cbn [heap]; try lia.
  - apply len_nonneg.
  - apply capacity_nonneg.
  - pose proof (slots_nonneg _ _ _ (array_capacity_len arr) size_of_value_pos). pose proof (lsum_nonneg heap arr H). lia.
  - pose proof (slots_nonneg _ _ _ (dict_capacity_len map) size_of_entry_pos).
    assert (0 <= lsum (fun kv => string_capacity kv.1 + heap kv.2) map); [|lia].
    apply lsum_nonneg. eapply Forall_impl; [exact H|]. intros [k v] Hv. cbn in *. pose proof (capacity_nonneg k). lia.
  - pose proof size_of_value_pos. lia.
Qed.
Lemma message_heap_pos m : 0 < message_heap m.
Proof.
  unfold message_heap. pose proof size_of_message_pos. destruct (body m) as [v|]; cbn; [pose proof (heap_nonneg v)|]; lia.
Qed.

Lemma value_size_sums v : sums (xpc_value_memory_size v) (heap v).
Proof.
  induction v using XpcValue_nested_ind; cbn [xpc_value_memory_size heap]; try done; try apply (sums_add 0).
  - pose proof (lsum_nonneg heap arr (Forall_true _ _ heap_nonneg)).
    pose proof (slots_nonneg _ _ _ (array_capacity_len arr) size_of_value_pos).
    eapply sums_bind; [apply sums_slots|lia|]. intros Hle. eapply sums_bind; [apply sums_add|lia|]. intros _.
    rewrite Z.add_0_l. apply sums_fold; [|lia]. eapply Forall_impl; [exact H|]. intros v Hv.
    pose proof (heap_nonneg v). split; [done|]. intros k Hk. eapply sums_bind; [exact Hv|lia|intros _; apply sums_add].
  - assert (Forall (fun kv => 0 <= string_capacity kv.1 + heap kv.2) map) as Hn%lsum_nonneg.
    { apply Forall_true. intros [k v]. pose proof (capacity_nonneg k). pose proof (heap_nonneg v). cbn. lia. }
    pose proof (slots_nonneg _ _ _ (dict_capacity_len map) size_of_entry_pos).
    eapply sums_bind; [apply sums_slots|lia|]. intros Hle. eapply sums_bind; [apply sums_add|lia|]. intros _.
    rewrite Z.add_0_l. apply (sums_fold _ (fun kv => string_capacity kv.1 + heap kv.2)); [|lia].
    eapply Forall_impl; [exact H|]. intros [key v] Hv. cbn [fst snd] in *.
    pose proof (heap_nonneg v). pose proof (capacity_nonneg key). split; [lia|]. intros k Hk.
    rewrite Z.add_assoc. eapply sums_bind; [apply sums_add|lia|]. intros _.
    eapply sums_bind; [exact Hv|lia|intros _; apply sums_add].
  - pose proof (heap_nonneg v). pose proof size_of_value_pos.
    eapply sums_bind; [apply (sums_add 0)|lia|]. intros _. eapply sums_bind; [exact IHv|lia|]. intros _.
    rewrite Z.add_0_l. destruct (usize_max <? size_of_value + heap v) eqn:E; cbn; lia.
Qed.
Lemma message_size_sums m : sums (xpc_message_memory_size m) (message_heap m).
Proof.
  unfold xpc_message_memory_size, message_heap. pose proof size_of_message_pos.
  eapply (sums_bind _ _ (from_option heap 0 (body m))).
  - destruct (body m) as [v|]; [apply value_size_sums|done].
  - lia.
  - intros _. destruct (usize_max <? _) eqn:E; cbn; lia.
Qed.

(** ** Queues *)

Lemma queue_bytes_app q1 q2 : queue_bytes (q1 ++ q2) = queue_bytes q1 + queue_bytes q2.
Proof. apply lsum_app. Qed.
Lemma sized_pos q : Forall (fun e => bytes_of e = message_heap (message e)) q -> Forall (fun e => 0 < bytes_of e) q.
Proof. intros H. eapply Forall_impl; [exact H|]. intros e ->. apply message_heap_pos. Qed.
Lemma queue_bytes_pos q : Forall (fun e => bytes_of e = message_heap (message e)) q -> q <> [] -> 0 < queue_bytes q.
Proof.
  intros H%sized_pos Hq. destruct H as [|e q He H]; [done|]. unfold queue_bytes. cbn.
  assert (0 <= lsum bytes_of q); [|unfold lsum in *; lia].
  apply lsum_nonneg. eapply Forall_impl; [exact H|]. cbv beta. lia.
Qed.

(** [position], [park] and [pick] look for the same entry. *)
Lemma position_cons id e q :
  position id (e :: q) = if msg_id (message e) =? id then Some O else S <$> position id q.
Proof.
  unfold position. cbn [list_find]. destruct (Z.eqb_spec (msg_id (message e)) id) as [E|E].
  - by rewrite decide_True.
  - rewrite decide_False by done. by destruct (list_find _ q) as [[]|].
Qed.
Lemma position_lookup id q i : position id q = Some i -> exists e, q !! i = Some e /\ msg_id (message e) = id.
Proof.
  revert i. induction q as [|e q IH]; intros i; [done|]. rewrite position_cons.
  destruct (Z.eqb_spec (msg_id (message e)) id); [intros [= <-]; by exists e|].
  destruct (position id q) as [j|]; [|done]. intros [= <-]. by apply IH.
Qed.
Lemma pick_position id q :
  pick id (map message q) = i ← position id q; e ← q !! i; Some (message e, map message (delete i q)).
Proof.
  induction q as [|e q IH]; [done|]. rewrite position_cons. cbn [map pick].
  destruct (msg_id (message e) =? id); [done|]. rewrite IH. destruct (position id q) as [i|] eqn:E; [|done]. cbn.
  by destruct (q !! i).
Qed.
Lemma park_position m b q :
  map message (from_option (fun i => <[i := mkPending m b]> q) (q ++ [mkPending m b])
    (if msg_id m =? 0 then None else position (msg_id m) q)) = park m (map message q).
Proof.
  induction q as [|e q IH]; [by destruct (msg_id m =? 0)|]. rewrite position_cons. cbn [map park].
  destruct (msg_id m =? 0) eqn:E0; cbn [negb andb from_option] in *.
  - rewrite andb_false_r. cbn. f_equal. exact IH.
  - rewrite andb_true_r. destruct (msg_id (message e) =? msg_id m); [done|]. rewrite <- IH.
    by destruct (position (msg_id m) q).
Qed.
Lemma queue_ids_same_ids q i e e' :
  q !! i = Some e -> msg_id (message e') = msg_id (message e) -> queue_ids (<[i := e']> q) = queue_ids q.
Proof.
  intros Hi He. unfold queue_ids. f_equal. rewrite list_fmap_insert. by rewrite He, list_insert_id; [|rewrite list_lookup_fmap, Hi].
Qed.
Lemma position_None id q : position id q = None -> id ∉ map (fun e => msg_id (message e)) q.
Proof.
  induction q as [|e q IH]; [intros _; apply not_elem_of_nil|]. rewrite position_cons. cbn [map].
  destruct (Z.eqb_spec (msg_id (message e)) id); [done|]. destruct (position id q); [done|]. intros _.
  apply not_elem_of_cons. split; [done|by apply IH].
Qed.
Lemma queue_ids_push q m b :
  NoDup (queue_ids q) -> (if msg_id m =? 0 then None else position (msg_id m) q) = None ->
  NoDup (queue_ids (q ++ [mkPending m b])).
Proof.
  intros Hq Hp. unfold queue_ids. rewrite map_app, filter_app. apply NoDup_app. split; [done|].
  cbn [map message]. rewrite filter_cons, filter_nil. case_decide as E; [|split; [set_solver|constructor]].
  split; [|apply NoDup_singleton]. rewrite (proj2 (Z.eqb_neq _ _) E) in Hp. apply position_None in Hp.
  intros x [_ Hx]%list_elem_of_filter. rewrite list_elem_of_singleton. intros ->. by apply Hp.
Qed.
Lemma queue_ids_delete q i : NoDup (queue_ids q) -> NoDup (queue_ids (delete i q)).
Proof.
  intros Hq. apply (sublist_NoDup _ _ Hq). clear Hq. revert i. unfold queue_ids.
  induction q as [|e q IH]; intros [|i]; cbn [delete list_delete map]; [done|done| |].
  { rewrite filter_cons. case_decide; [by apply sublist_cons|done]. }
  rewrite !(filter_cons _ (msg_id (message e))). case_decide; [apply sublist_skip|]; apply IH.
Qed.
End sizes_spec.

(** ** The operations on parked messages *)

Section parked_spec.
Context `{A0 : !Allocation} `{L0 : !AllocationLaws A0} (stream_max conn_max : Z).
Abbreviation queue_ok := (queue_ok stream_max).
Abbreviation Accounted := (Accounted stream_max conn_max).
Abbreviation requeued := (requeued stream_max conn_max).

Definition queue_of (p : Parked) (i : Z) : list PendingMessage := default [] (pending_messages p !! i).

Lemma parked_new_accounted : 0 <= conn_max -> Accounted (parked_new stream_max conn_max).
Proof. intros Hc. split; [apply map_Forall_empty|]. cbn. by rewrite fmap_empty, msum_empty. Qed.

Lemma sized_bytes_nonneg q : Forall (fun e => bytes_of e = message_heap (message e)) q -> 0 <= queue_bytes q.
Proof. intros H%sized_pos. apply lsum_nonneg. eapply Forall_impl; [exact H|]. cbv beta. lia. Qed.
Lemma queue_of_ok p i : 0 <= stream_max -> Accounted p -> queue_ok (queue_of p i).
Proof.
  intros Hs (Hq & _). unfold queue_of. destruct (pending_messages p !! i) as [q|] eqn:E; [apply (Hq _ _ E)|].
  split_and!; [cbn; lia|constructor|constructor|done].
Qed.
Lemma budget_stream p i : Accounted p -> default 0 (per_stream_bytes (pending_budget p) !! i) = queue_bytes (queue_of p i).
Proof. intros (_ & -> & _). rewrite lookup_fmap. unfold queue_of. by destruct (pending_messages p !! i). Qed.
Lemma budget_total p i : Accounted p -> queue_bytes (queue_of p i) <= total_bytes (pending_budget p).
Proof.
  intros (Hq & _ & -> & _). assert (map_Forall (fun _ q => 0 <= queue_bytes q) (pending_messages p)) as Hn.
  { intros j q Hj. apply sized_bytes_nonneg, (Hq _ _ Hj). }
  unfold queue_of. destruct (pending_messages p !! i) as [q|] eqn:E; [by apply (msum_lookup queue_bytes _ i q)|].
  by apply msum_nonneg.
Qed.
Lemma total_max p : Accounted p -> total_bytes (pending_budget p) <= conn_max.
Proof. by intros (_ & _ & _ & ? & _). Qed.

(** Storing a queue together with the budget that accounts for it. *)
Lemma put_queue_of i q p j : queue_of (put_queue i q p) j = if j =? i then q else queue_of p j.
Proof.
  unfold queue_of, put_queue, set_messages. cbn. destruct (Z.eqb_spec j i) as [->|]; destruct q as [|e q].
  - by rewrite lookup_delete_eq.
  - by rewrite lookup_insert_eq.
  - by rewrite lookup_delete_ne.
  - by rewrite lookup_insert_ne.
Qed.
Lemma parked_on_of p i : parked_on p i = map message (queue_of p i).
Proof. done. Qed.
Lemma put_requeued i q p b :
  Accounted p -> queue_ok q ->
  per_stream_bytes b = set_or_remove i (queue_bytes q) (per_stream_bytes (pending_budget p)) ->
  total_bytes b = total_bytes (pending_budget p) - queue_bytes (queue_of p i) + queue_bytes q ->
  total_bytes b <= conn_max -> per_stream_limit b = stream_max -> connection_limit b = conn_max ->
  requeued i (map message q) p (mkParked (pending_messages (put_queue i q p)) b).
Proof.
  intros (Hq & Hb & Ht & _) Hok Hpb Htb Hmax Hl1 Hl2. split.
  2: { intros j. rewrite !parked_on_of. pose proof (put_queue_of i q p j) as E. unfold queue_of in *. cbn in *.
       rewrite E. by destruct (j =? i). }
  rewrite Hb in Hpb. rewrite Ht in Htb. unfold queue_of in Htb. unfold put_queue, set_messages, Pending.Accounted. cbn.
  destruct q as [|e q].
  - split_and!; try done; cbn in *.
    + by apply map_Forall_delete.
    + by rewrite fmap_delete.
    + rewrite Htb. destruct (pending_messages p !! i) as [q|] eqn:E; cbn.
      * rewrite (msum_delete queue_bytes _ i q E). cbn [default from_option]. change (queue_bytes []) with 0. lia.
      * rewrite delete_id by done. change (queue_bytes []) with 0. lia.
  - pose proof (queue_bytes_pos (e :: q)) as Hpos. destruct Hok as (Hlen & Hnd & Hsz & Hmx). specialize (Hpos Hsz ltac:(done)).
    split_and!; try done.
    + apply map_Forall_insert_2; [|done]. by split.
    + rewrite Hpb, fmap_insert. unfold set_or_remove. by rewrite (proj2 (Z.eqb_neq _ _)) by lia.
    + rewrite Htb, msum_replace. destruct (pending_messages p !! i) as [q'|]; cbn; [lia|]. change (queue_bytes []) with 0. lia.
Qed.

(** The budget's operations, on a queue that grows, changes or shrinks. *)
Lemma wpx_on_budget {A} (m : budget_op A) p Q (R T : Parked -> Prop) :
  wpx m (fun a b => Q a (mkParked (pending_messages p) b)) (fun b => R (mkParked (pending_messages p) b))
    (fun b => T (mkParked (pending_messages p) b)) (pending_budget p) -> wpx (on_budget m) Q R T p.
Proof. unfold wpx, on_budget. by destruct (m (pending_budget p)) as [b [a| | | |]]. Qed.
Lemma parked_eta p : mkParked (pending_messages p) (pending_budget p) = p.
Proof. by destruct p. Qed.

Lemma budget_reserve_spec i n b Q (T : PendingMessageBudget -> Prop) :
  (default 0 (per_stream_bytes b !! i) + n <= per_stream_limit b -> total_bytes b + n <= connection_limit b ->
   Q tt (set_usage (<[i := default 0 (per_stream_bytes b !! i) + n]> (per_stream_bytes b)) (total_bytes b + n) b)) ->
  wpx (reserve i n) Q (fun b' => b' = b) T b.
Proof. intros HQ. unfold reserve. wpx_step. apply wpx_get. cbv zeta. wpx_steps; try done. apply HQ; lia. Qed.
Lemma budget_replace_spec i old new b Q (T : PendingMessageBudget -> Prop) :
  let n := default 0 (per_stream_bytes b !! i) - old + new in
  let t := total_bytes b - old + new in
  (n <= per_stream_limit b -> t <= connection_limit b -> Q tt (set_usage (set_or_remove i n (per_stream_bytes b)) t b)) ->
  wpx (replace i old new) Q (fun b' => b' = b) T b.
Proof. intros n t HQ. unfold replace. wpx_step. apply wpx_get. cbv zeta. wpx_steps; try done. apply HQ; lia. Qed.
Lemma budget_release_spec i n b Q (R T : PendingMessageBudget -> Prop) k :
  per_stream_bytes b !! i = Some k -> 0 <= n <= k -> n <= total_bytes b ->
  Q tt (set_usage (set_or_remove i (k - n) (per_stream_bytes b)) (total_bytes b - n) b) -> wpx (release i n) Q R T b.
Proof.
  intros Hk Hn Ht HQ. unfold release. wpx_step. apply wpx_get. wpx_step. rewrite Hk. wpx_step.
  unfold debug_assert. rewrite (proj2 (Z.leb_le n k)) by lia. apply wpx_ret, wpx_mod. wpx_step.
  rewrite (proj2 (Z.leb_le n _)) by lia. apply wpx_ret, wpx_mod. unfold sat_sub.
  cbn [set_usage total_bytes]. rewrite !Z.max_r by lia. exact HQ.
Qed.

Definition unchanged (p p' : Parked) : Prop := p' = p.

Lemma replace_pending_spec i k m e p :
  0 <= stream_max -> Accounted p -> queue_of p i !! k = Some e -> msg_id (message e) = msg_id m ->
  wpx (replace_pending_message i k m (message_heap m))
    (fun _ p' => requeued i (map message (<[k := mkPending m (message_heap m)]> (queue_of p i))) p p')
    (unchanged p) (fun _ => False) p.
Proof.
  intros Hs Ha Hk Hid. pose proof (queue_of_ok p i Hs Ha) as (Hlen & Hnd & Hsz & Hmx).
  assert (exists q, pending_messages p !! i = Some q /\ queue_of p i = q) as (q & Hq & Eq).
  { unfold queue_of in *. destruct (pending_messages p !! i) as [q|]; [by exists q|done]. }
  rewrite Eq in *. pose proof (lookup_lt_Some _ _ _ Hk) as Hlt.
  assert (bytes_of e = message_heap (message e)) as He by (by eapply Forall_lookup_1 in Hsz).
  unfold replace_pending_message. wpx_step. apply wpx_get. rewrite Hq. cbn [mbind option_bind]. rewrite Hk. cbv zeta.
  wpx_step. apply wpx_on_budget. eapply wpx_mono; [apply (budget_replace_spec _ _ _ _ (fun _ b =>
    b = set_usage (set_or_remove i (queue_bytes q - bytes_of e + message_heap m) (per_stream_bytes (pending_budget p)))
          (total_bytes (pending_budget p) - bytes_of e + message_heap m) (pending_budget p) /\
    queue_bytes q - bytes_of e + message_heap m <= stream_max /\ total_bytes b <= conn_max) (fun _ => False))| | |done].
  - cbv zeta. rewrite (budget_stream p i Ha), Eq. destruct Ha as (_ & _ & _ & _ & -> & ->). done.
  - intros _ b (-> & Hn & Ht). wpx_step. apply wpx_get. cbn [pending_messages]. rewrite Hq.
    rewrite (proj2 (Nat.ltb_lt _ _)) by done. apply wpx_mod.
    assert (queue_bytes (<[k := mkPending m (message_heap m)]> q) = queue_bytes q - bytes_of e + message_heap m) as Ebytes
      by (unfold queue_bytes; by rewrite (lsum_insert bytes_of q k e)).
    assert (<[k := mkPending m (message_heap m)]> q <> []) as Hne.
    { intros E%(f_equal length). rewrite length_insert in E. cbn in E. lia. }
    match goal with |- requeued _ _ _ ?p' => assert (p' = mkParked (pending_messages (put_queue i (<[k := mkPending m (message_heap m)]> q) p)) (pending_budget p')) as -> end.
    { unfold set_messages, put_queue. cbn. by destruct (<[k := _]> q). }
    cbn [set_messages pending_budget]. apply put_requeued; cbn; try done.
    + split_and!; [by rewrite length_insert| | |lia].
      * by rewrite (queue_ids_same_ids q k e).
      * apply Forall_insert; [done|done].
    + by rewrite Ebytes.
    + rewrite Eq. lia.
    + by destruct Ha as (_ & _ & _ & _ & ? & ?).
    + by destruct Ha as (_ & _ & _ & _ & ? & ?).
  - intros b ->. apply parked_eta.
Qed.

Lemma push_spec i m p :
  0 <= stream_max -> Accounted p ->
  wpx (push_pending_message i m) (fun _ p' => requeued i (park m (parked_on p i)) p p') (unchanged p) (fun _ => False) p.
Proof.
  intros Hs Ha. pose proof (queue_of_ok p i Hs Ha) as (Hlen & Hnd & Hsz & Hmx). unfold push_pending_message. wpx_step.
  pose proof (message_size_sums m) as Hsum. unfold wpx at 1, st_lift.
  destruct (xpc_message_memory_size m) as [n|err| | |]; try done. destruct Hsum as [-> _].
  wpx_step. apply wpx_get. cbv zeta. rewrite parked_on_of, <- (park_position m (message_heap m)).
  assert ((if msg_id m =? 0 then None else pending_messages p !! i ≫= position (msg_id m)) =
    if msg_id m =? 0 then None else position (msg_id m) (queue_of p i)) as ->.
  { destruct (msg_id m =? 0); [done|]. unfold queue_of. by destruct (pending_messages p !! i). }
  destruct (if msg_id m =? 0 then None else _) as [k|] eqn:Ek; cbn [from_option].
  - destruct (msg_id m =? 0); [done|]. apply position_lookup in Ek as (e & Hk & Hid). by apply (replace_pending_spec i k m e).
  - assert (from_option length O (pending_messages p !! i) = length (queue_of p i)) as ->.
    { unfold queue_of. by destruct (pending_messages p !! i). }
    destruct (_ <=? _)%nat eqn:El; [done|]. apply Nat.leb_gt in El. wpx_step. apply wpx_on_budget.
    eapply wpx_mono; [apply (budget_reserve_spec _ _ _ (fun _ b =>
      b = set_usage (<[i := queue_bytes (queue_of p i) + message_heap m]> (per_stream_bytes (pending_budget p)))
            (total_bytes (pending_budget p) + message_heap m) (pending_budget p) /\
      queue_bytes (queue_of p i) + message_heap m <= stream_max /\ total_bytes b <= conn_max) (fun _ => False))| | |done].
    + rewrite (budget_stream p i Ha). destruct Ha as (_ & _ & _ & _ & -> & ->). done.
    + intros _ b (-> & Hn & Ht). apply wpx_mod. set (q := queue_of p i) in *.
      assert (queue_bytes (q ++ [mkPending m (message_heap m)]) = queue_bytes q + message_heap m) as Ebytes.
      { rewrite queue_bytes_app. unfold queue_bytes at 2. cbn. lia. }
      match goal with |- requeued _ _ _ ?p' => assert (p' = mkParked (pending_messages (put_queue i (q ++ [mkPending m (message_heap m)]) p)) (pending_budget p')) as -> end.
      { unfold set_messages, put_queue. cbn. fold (queue_of p i). fold q. by destruct q. }
      cbn [set_messages pending_budget]. pose proof (sized_bytes_nonneg q Hsz). pose proof (message_heap_pos m).
      apply put_requeued; cbn; try done.
      * split_and!; [rewrite length_app; cbn; lia|by apply queue_ids_push| |lia]. apply Forall_app_2; [done|by repeat constructor].
      * rewrite Ebytes. unfold set_or_remove. by rewrite (proj2 (Z.eqb_neq _ _)) by lia.
      * fold q. lia.
      * by destruct Ha as (_ & _ & _ & _ & ? & ?).
      * by destruct Ha as (_ & _ & _ & _ & ? & ?).
    + intros b ->. apply parked_eta.
Qed.

Lemma remove_spec {A} i k e p (a : A) (Q : A -> Parked -> Prop) :
  0 <= stream_max -> Accounted p -> queue_of p i !! k = Some e ->
  (forall p', requeued i (map message (delete k (queue_of p i))) p p' -> Q a p') ->
  wpx (st_mod (put_queue i (delete k (queue_of p i))) ;; on_budget (release i (bytes_of e)) ;; mret a) Q
    (fun _ => False) (fun _ => False) p.
Proof.
  intros Hs Ha Hk HQ. pose proof (queue_of_ok p i Hs Ha) as (Hlen & Hnd & Hsz & Hmx). pose proof (budget_total p i Ha) as Ht.
  assert (per_stream_bytes (pending_budget p) !! i = Some (queue_bytes (queue_of p i))) as Hb.
  { destruct Ha as (_ & -> & _). rewrite lookup_fmap. unfold queue_of in *. by destruct (pending_messages p !! i). }
  set (q := queue_of p i) in *. pose proof (lookup_lt_Some _ _ _ Hk) as Hlt.
  assert (queue_bytes q = bytes_of e + queue_bytes (delete k q)) as Eq.
  { rewrite <- (take_drop_middle q k e Hk) at 1. rewrite delete_take_drop, !queue_bytes_app. unfold queue_bytes. cbn [lsum foldr]. unfold lsum. lia. }
  assert (Forall (fun e => bytes_of e = message_heap (message e)) (delete k q)) as Hsz' by (by apply Forall_delete).
  pose proof (sized_bytes_nonneg _ Hsz'). assert (0 < bytes_of e) by (by eapply Forall_lookup_1 in Hk; [|by apply sized_pos]).
  pose proof (total_max p Ha). wpx_step. apply wpx_mod. wpx_step. apply wpx_on_budget. cbn [put_queue set_messages pending_budget pending_messages].
  eapply (budget_release_spec _ _ _ _ _ _ (queue_bytes q)); [done|lia|lia|]. apply wpx_ret, HQ.
  apply put_requeued; try done.
  - pose proof (length_delete q k (ltac:(eauto))). split_and!; [lia|by apply queue_ids_delete|done|lia].
  - cbn. by replace (queue_bytes q - bytes_of e) with (queue_bytes (delete k q)) by lia.
  - cbn. fold q. lia.
  - cbn. lia.
  - by destruct Ha as (_ & _ & _ & _ & ? & ?).
  - by destruct Ha as (_ & _ & _ & _ & ? & ?).
Qed.
Lemma pop_spec i p :
  0 <= stream_max -> Accounted p ->
  wpx (pop_next_pending_message i)
    (fun r p' => match parked_on p i with [] => r = None /\ p' = p | m :: q => r = Some m /\ requeued i q p p' end)
    (fun _ => False) (fun _ => False) p.
Proof.
  intros Hs Ha. unfold pop_next_pending_message. wpx_step. apply wpx_get. rewrite parked_on_of.
  pose proof (fun e => remove_spec i 0 e p (Some (message e))) as Hr. unfold queue_of in *.
  destruct (pending_messages p !! i) as [[|e q]|]; cbn [default from_option map]; [by apply wpx_ret| |by apply wpx_ret].
  by apply Hr.
Qed.
Lemma take_spec i id p :
  0 <= stream_max -> Accounted p ->
  wpx (take_pending_message i id)
    (fun r p' => match pick id (parked_on p i) with
                 | None => r = None /\ p' = p | Some (m, q) => r = Some m /\ requeued i q p p' end)
    (fun _ => False) (fun _ => False) p.
Proof.
  intros Hs Ha. unfold take_pending_message. wpx_step. apply wpx_get. rewrite parked_on_of, pick_position.
  pose proof (fun k e => remove_spec i k e p (Some (message e))) as Hr. unfold queue_of in *.
  destruct (pending_messages p !! i) as [q|]; cbn [default from_option] in *; unfold Datatypes.id in *; [|by apply wpx_ret].
  destruct (position id q) as [k|] eqn:Ek; cbn [mbind option_bind]; [|by apply wpx_ret].
  apply position_lookup in Ek as (e & Hk & _). rewrite Hk. by apply Hr.
Qed.
Lemma clear_pending_spec i p :
  0 <= stream_max -> Accounted p ->
  wpx (clear_pending_stream i) (fun _ => requeued i [] p) (fun _ => False) (fun _ => False) p.
Proof.
  intros Hs Ha. pose proof (budget_total p i Ha) as Ht. pose proof (budget_stream p i Ha) as Hb. pose proof (total_max p Ha).
  pose proof (sized_bytes_nonneg _ (proj1 (proj2 (proj2 (queue_of_ok p i Hs Ha))))).
  assert (queue_ok []) as Hnil by (split_and!; [cbn; lia|constructor|constructor|done]).
  assert (forall b, per_stream_bytes b = delete i (per_stream_bytes (pending_budget p)) ->
    total_bytes b = total_bytes (pending_budget p) - queue_bytes (queue_of p i) -> per_stream_limit b = stream_max ->
    connection_limit b = conn_max -> requeued i [] p (mkParked (delete i (pending_messages p)) b)) as Hput.
  { intros b H1 H2 H3 H4. apply (put_requeued i [] p b); try done; change (queue_bytes []) with 0; lia. }
  pose proof Ha as (_ & _ & _ & _ & Hl1 & Hl2).
  unfold clear_pending_stream. wpx_step. apply wpx_mod, wpx_on_budget. cbn [set_messages pending_budget pending_messages].
  unfold clear_stream. wpx_step. apply wpx_get. destruct (per_stream_bytes (pending_budget p) !! i) as [n|] eqn:E; cbn in Hb.
  - wpx_step. unfold debug_assert. rewrite (proj2 (Z.leb_le n _)) by lia. apply wpx_ret, wpx_mod.
    apply Hput; try done. cbn. unfold sat_sub. lia.
  - apply wpx_ret, Hput; try done; [by rewrite delete_id|lia].
Qed.
End parked_spec.

(** The accounting of a message's memory is exact. [xpc_message_memory_size],
    which adds up with a checked sum at every allocation of a nested value,
    returns the sum of all of them, and reports an overflow only when that sum
    does not fit a [usize]. *)
Theorem xpc_size_exact `{A0 : !Allocation} `{!AllocationLaws A0} m :
  match xpc_message_memory_size m with
  | Ok n => n = message_heap m /\ message_heap m <= usize_max
  | Err _ => usize_max < message_heap m
  | _ => False
  end.
Proof. exact (message_size_sums m). Qed.

(** Exactly filled containers, on a 64-bit target. *)
Definition tight : Allocation := Build_Allocation 40 72 64 len len len.
Lemma tight_laws : AllocationLaws tight.
Proof. by split; cbn. Defined.
Lemma xpc_size_exact_witness :
  @xpc_message_memory_size tight sample_message = Ok 293 /\
  match @xpc_message_memory_size tight sample_message with
  | Ok n => n = @message_heap tight sample_message /\ @message_heap tight sample_message <= usize_max
  | Err _ => usize_max < @message_heap tight sample_message
  | _ => False
  end.
Proof. split; [vm_compute; reflexivity|]. exact (@xpc_size_exact tight tight_laws sample_message). Defined.

End Pending.
