(* ===== verification/XpcConn.v ===== *)
(** XPC messages over the HTTP/2 framer
    ([crates/ios-core/src/xpc/rsd.rs], the bootstrap, the message reader and
    [XpcConnection]; [crates/ios-core/src/xpc/client.rs]).

    The free functions of the source that take a framer are state transformers on
    [H2Framer]; the methods of [XpcConnection] are state transformers on its
    record. An error of the framer is wrapped with the text the code puts before
    it. A future that is dropped at an await leaves the state behind, as in
    [H2Framer]; a deadline turns such a stop into an error. *)

From S2P Require Import Prelude XpcMessage H2Framer H2Read H2Inv H2Conn H2Recv XpcPending.

Module XpcConn.
Import Xpc H2 H2Inv H2Recv Pending.

Definition WANTING_REPLY : Z := HEARTBEAT_REQUEST.

(** [e.to_string()] and [format!] with a prefix. *)
Definition h2_text (prefix : string) (e : H2Error) : msg :=
  match e with
  | HIo => Msg (prefix +:+ "IO error: {0}") []
  | HProtocol m => Msg (prefix +:+ "H2 protocol error: " +:+ msg_text m) (msg_args m)
  end.
Definition map_err {E E' A} (f : E -> E') (o : outcome E A) : outcome E' A :=
  match o with
  | Ok a => Ok a
  | Err e => Err (f e)
  | Panic => Panic
  | Pending => Pending
  | OutOfFuel => OutOfFuel
  end.

Abbreviation fx := (st H2Framer XpcError).
(** [.await.map_err(|e| XpcError::Tls(..))] *)
Definition on_h2 {A} (prefix : string) (m : h2 A) : fx A := fun s =>
  let '(s', o) := m s in (s', map_err (fun e => Tls (h2_text prefix e)) o).

(** ** One message *)

Definition MAX_XPC_BODY_READ_CHUNK : Z := MAX_BUFFERED_BYTES_PER_STREAM - MAX_FRAME_PAYLOAD.

(** Every round but the last reads a full chunk. *)
Fixpoint body_chunks (fuel : nat) (stream_id remaining : Z) (body : bytes) : h2 bytes :=
  if remaining =? 0 then mret body else
  match fuel with
  | O => st_lift OutOfFuel
  | S fuel =>
      let chunk_len := Z.min remaining MAX_XPC_BODY_READ_CHUNK in
      chunk ← read_stream stream_id chunk_len;
      body_chunks fuel stream_id (remaining - chunk_len) (body ++ chunk)
  end.
Definition read_xpc_body_in_chunks (stream_id body_len : Z) : h2 bytes :=
  body_chunks (S (Z.to_nat (body_len / MAX_XPC_BODY_READ_CHUNK))) stream_id body_len [].

Definition mid_message_read : XpcError :=
  Tls (Msg "a previous XPC read was cancelled mid-message; the connection is no longer frame-aligned and must be re-established" []).
Definition mid_message_send : XpcError :=
  Tls (Msg "a previous XPC send was cancelled mid-message; the connection is no longer frame-aligned and must be re-established" []).

Definition read_raw_xpc_message (stream_id : Z) : fx (bytes * bytes) :=
  s ← st_get;
  if is_message_read_in_progress s then st_fail mid_message_read else
  header ← on_h2 "read header: " (read_stream stream_id 24);
  on_h2 "" begin_message_body ;;
  declared ← st_lift (slice header 8 16);
  message_flags ← st_lift (slice header 4 8);
  body_len ← st_lift (map_err_tls (checked_xpc_body_len (le_Z declared) (xpc_body_limit_for_flags (le_Z message_flags))));
  if body_len =? 0 then on_h2 "" end_message_body ;; mret (header, [])
  else
    body ← on_h2 "read body: " (read_xpc_body_in_chunks stream_id body_len);
    on_h2 "" end_message_body ;;
    mret (header, body).

(** The header and the body in one buffer, decoded. *)
Definition read_xpc (stream_id : Z) : fx XpcMessage :=
  raw ← read_raw_xpc_message stream_id;
  st_lift (decode_message (raw.1 ++ raw.2)).
Definition read_xpc_on_client_server : fx XpcMessage := read_xpc STREAM_CLIENT_SERVER.
Definition discard_xpc_on_client_server : fx unit := read_raw_xpc_message STREAM_CLIENT_SERVER ;; mret tt.
Definition discard_xpc_on_server_client : fx unit := read_raw_xpc_message STREAM_SERVER_CLIENT ;; mret tt.

(** ** Bootstrap *)

Definition bootstrap_init : XpcMessage := mkMessage ALWAYS_SET 0 (Some (Dictionary [])).
Definition bootstrap_terminate : XpcMessage := mkMessage (Z.lor ALWAYS_SET 0x200) 0 None.
Definition bootstrap_reply : XpcMessage := mkMessage (Z.lor INIT_HANDSHAKE ALWAYS_SET) 0 None.

Definition initialize_xpc_connection_on_framer : fx unit :=
  msg1 ← st_lift (encode_message bootstrap_init);
  on_h2 "xpc init write 1: " (write_client_server msg1) ;;
  discard_xpc_on_client_server ;;
  msg3 ← st_lift (encode_message bootstrap_terminate);
  on_h2 "xpc init open stream 3: " (open_stream STREAM_SERVER_CLIENT) ;;
  on_h2 "xpc init write 2: " (write_client_server msg3) ;;
  discard_xpc_on_client_server ;;
  msg2 ← st_lift (encode_message bootstrap_reply);
  on_h2 "xpc init write 3: " (write_server_client msg2) ;;
  discard_xpc_on_server_client.

Definition queue_rsd_handshake_bootstrap_on_framer : fx unit :=
  msg1 ← st_lift (encode_message bootstrap_init);
  on_h2 "rsd bootstrap write 1: " (write_client_server msg1) ;;
  on_h2 "rsd bootstrap open stream 3: " (open_stream STREAM_SERVER_CLIENT) ;;
  msg2 ← st_lift (encode_message bootstrap_terminate);
  on_h2 "rsd bootstrap write 2: " (write_client_server msg2) ;;
  msg3 ← st_lift (encode_message bootstrap_reply);
  on_h2 "rsd bootstrap write 3: " (write_server_client msg3).

(** ** The connection *)

Record XpcConnection := mkConn {
  framer : H2Framer;
  next_msg_id : Z;
  parked : Parked;
  sending_message_in_progress : bool;
}.
Abbreviation xc := (st XpcConnection XpcError).

Definition set_framer v (c : XpcConnection) : XpcConnection := mkConn v (next_msg_id c) (parked c) (sending_message_in_progress c).
Definition set_msg_id v (c : XpcConnection) : XpcConnection := mkConn (framer c) v (parked c) (sending_message_in_progress c).
Definition set_parked v (c : XpcConnection) : XpcConnection := mkConn (framer c) (next_msg_id c) v (sending_message_in_progress c).
Definition set_sending v (c : XpcConnection) : XpcConnection := mkConn (framer c) (next_msg_id c) (parked c) v.

Definition on_framer {A} (m : fx A) : xc A := fun c => let '(f, o) := m (framer c) in (set_framer f c, o).
Definition on_parked {A} (m : parked_op A) : xc A := fun c => let '(p, o) := m (parked c) in (set_parked p c, o).

Definition with_pending_memory_limits (f : H2Framer) (per_stream_limit connection_limit : Z) : XpcConnection :=
  mkConn f 1 (parked_new per_stream_limit connection_limit) false.
Definition conn_new (f : H2Framer) : XpcConnection :=
  with_pending_memory_limits f DEFAULT_PENDING_BYTES_PER_STREAM DEFAULT_PENDING_BYTES_CONNECTION.
Definition drop_connection (c : XpcConnection) : XpcConnection := set_parked (drop_parked (parked c)) c.

(** [self.msg_id += 1] on a [u64], wrapping as in a release build. *)
Definition next_id : xc Z :=
  c ← st_get;
  st_mod (set_msg_id ((next_msg_id c + 1) mod 2 ^ 64)) ;;
  mret (next_msg_id c).

Definition ensure_conn_reusable : xc unit :=
  on_framer (on_h2 "" ensure_reusable) ;;
  c ← st_get;
  if is_message_read_in_progress (framer c) then st_fail mid_message_read
  else if sending_message_in_progress c then st_fail mid_message_send
  else mret tt.

Definition request (id extra_flags : Z) (b : XpcValue) : XpcMessage :=
  mkMessage (Z.lor (Z.lor ALWAYS_SET DATA) extra_flags) id (Some b).
(** The flag is lowered only when the write succeeded. *)
Definition send_with_flags (b : XpcValue) (extra_flags : Z) : xc Z :=
  ensure_conn_reusable ;;
  id ← next_id;
  bs ← st_lift (encode_message (request id extra_flags b));
  st_mod (set_sending true) ;;
  on_framer (on_h2 "" (write_client_server bs)) ;;
  st_mod (set_sending false) ;;
  mret id.
Definition send (b : XpcValue) : xc unit := send_with_flags b 0 ;; mret tt.

Definition recv_fresh_on_stream_inner (stream_id : Z) : xc XpcMessage := on_framer (read_xpc stream_id).
(** [if result.is_err() { self.clear_pending_stream(..) }] *)
Definition clear_on_error {A} (stream_id : Z) (m : xc A) : xc A := fun c =>
  match m c with
  | (c, Err e) => (on_parked (clear_pending_stream stream_id) ;; st_fail e) c
  | r => r
  end.
Definition recv_fresh_on_stream (stream_id : Z) : xc XpcMessage :=
  clear_on_error stream_id (recv_fresh_on_stream_inner stream_id).

Definition recv_any_stream : xc XpcMessage :=
  ensure_conn_reusable ;;
  stream_id ← on_framer (on_h2 "" buffer_next_data_stream);
  recv_fresh_on_stream stream_id.

Definition recv_on_stream (stream_id : Z) : xc XpcMessage :=
  ensure_conn_reusable ;;
  on_framer (on_h2 "" finish_pending_write_for_read) ;;
  r ← on_parked (pop_next_pending_message stream_id);
  match r with
  | Some m => mret m
  | None => recv_fresh_on_stream stream_id
  end.
Definition recv : xc XpcMessage := recv_on_stream STREAM_SERVER_CLIENT.
Definition recv_client_server : xc XpcMessage := recv_on_stream STREAM_CLIENT_SERVER.

Section replies.
Context `{!Allocation}.

(** The loop of [recv_reply_on_stream]. *)
Fixpoint reply_loop (fuel : nat) (stream_id id : Z) : xc XpcMessage :=
  match fuel with
  | O => st_lift OutOfFuel
  | S fuel =>
      m ← recv_fresh_on_stream stream_id;
      if Xpc.msg_id m =? id then mret m
      else
        clear_on_error stream_id (on_parked (push_pending_message stream_id m)) ;;
        reply_loop fuel stream_id id
  end.
(** Every message takes at least its header from what is buffered for the stream
    and what the socket delivers. *)
Definition reply_fuel (c : XpcConnection) (stream_id : Z) : nat :=
  S (length (inbox (framer c) stream_id) + length (input (framer c))).
Definition recv_reply_on_stream (stream_id id : Z) : xc XpcMessage :=
  ensure_conn_reusable ;;
  on_framer (on_h2 "" finish_pending_write_for_read) ;;
  r ← on_parked (take_pending_message stream_id id);
  match r with
  | Some m => mret m
  | None => c ← st_get; reply_loop (reply_fuel c stream_id) stream_id id
  end.

(** ** The client *)

Definition call_on (stream_id : Z) (b : XpcValue) : xc XpcMessage :=
  id ← send_with_flags b WANTING_REPLY;
  recv_reply_on_stream stream_id id.
Definition call (b : XpcValue) : xc XpcMessage := call_on STREAM_SERVER_CLIENT b.
Definition call_recv_client_server (b : XpcValue) : xc XpcMessage := call_on STREAM_CLIENT_SERVER b.
End replies.

(** The stream of [stream_invoke]: where its generator stands. An error ends it. *)
Inductive invocation := Requested | Streaming | Ended.
Definition advance (m : xc XpcMessage) (c : XpcConnection) : XpcConnection * (invocation * outcome XpcError (option XpcMessage)) :=
  match m c with
  | (c', Ok m) => (c', (Streaming, Ok (Some m)))
  | (c', Err e) => (c', (Ended, Err e))
  | (c', Panic) => (c', (Ended, Panic))
  | (c', Pending) => (c', (Ended, Pending))
  | (c', OutOfFuel) => (c', (Ended, OutOfFuel))
  end.
Definition stream_invoke_with_flags (b : XpcValue) (extra_flags : Z) (i : invocation) (c : XpcConnection) :
  XpcConnection * (invocation * outcome XpcError (option XpcMessage)) :=
  match i with
  | Requested => advance (send_with_flags b extra_flags ;; recv) c
  | Streaming => advance recv c
  | Ended => (c, (Ended, Ok None))
  end.
Definition stream_invoke (b : XpcValue) := stream_invoke_with_flags b WANTING_REPLY.

(** [connect_stream_with_budget] on a connected socket: both stages under the
    deadline. *)
Definition init_timeout {A} (m : fx A) : fx A := fun s =>
  match m s with
  | (s', Pending) => (s', Err (Tls (Msg "XPC initialization timed out; budget shared with H2 handshake exhausted" [])))
  | r => r
  end.
Definition connect_stream_with_budget (rx : list rx_event) (wr : list wr_event) : outcome XpcError XpcConnection :=
  let '(f, o) := connect_with_deadline rx wr in
  _ ← map_err (fun e => Tls (h2_text "H2: " e)) o;
  let '(f, o) := init_timeout initialize_xpc_connection_on_framer f in
  _ ← o;
  Ok (conn_new f).

End XpcConn.
