(* ===== verification/XpcConnSpec.v ===== *)
(** What the XPC connection promises its callers
    ([crates/ios-core/src/xpc/rsd.rs], [XpcConnection];
    [crates/ios-core/src/xpc/client.rs]).

    The unread data of a stream is a byte queue: [content] is what the framer has
    buffered for it followed by the payloads in the frames that are still to come.
    A call that receives takes whole messages off the front of that queue; the
    theorems say which messages it takes, what it parks and what it returns, in
    every state that calls can reach. *)

From stdpp Require Import relations.
From S2P Require Import Prelude XpcMessage H2Framer H2Read H2Inv H2Conn H2Recv H2Mark H2Live XpcPending XpcConn.

Module XpcConnSpec.
Import Xpc H2 H2Read H2Inv H2Conn H2Recv H2Mark H2Live Pending XpcConn.

(** ** The content of a stream *)

Fixpoint frames (fuel : nat) (bs : bytes) : list RawFrame :=
  match fuel with
  | O => []
  | S fuel => match parse_frame bs with Some (f, rest) => f :: frames fuel rest | None => [] end
  end.
(** The whole frames at the front of a byte string. *)
Definition frames_of (bs : bytes) : list RawFrame := frames (length bs) bs.
(** The bytes of stream [id] that were received and not handed out, and those that
    will be. *)
Definition content (s : H2Framer) (id : Z) : bytes := inbox s id ++ data_on id (frames_of (input s)).

Lemma parse_frame_length bs f rest :
  parse_frame bs = Some (f, rest) -> length bs = (9 + length (payload f) + length rest)%nat.
Proof.
  unfold parse_frame. destruct (length bs <? 9)%nat eqn:El; [done|]. apply Nat.ltb_ge in El.
  destruct (header_meta (take 9 bs)) as [[[t fl] id] n]. destruct (_ <? n); [done|]. intros [= <- <-]. cbn [payload].
  rewrite length_take, !length_drop. lia.
Qed.
Lemma frames_fuel n m bs : (length bs <= n)%nat -> (length bs <= m)%nat -> frames n bs = frames m bs.
Proof.
  revert m bs. induction n as [|n IH]; intros [|m] bs Hn Hm; cbn [frames]; try done.
  - destruct bs; [done|simpl in Hn; lia].
  - destruct bs; [done|simpl in Hm; lia].
  - destruct (parse_frame bs) as [[f rest]|] eqn:E; [|done]. apply parse_frame_length in E. f_equal. apply IH; lia.
Qed.
Lemma frames_of_cons bs f rest : parse_frame bs = Some (f, rest) -> frames_of bs = f :: frames_of rest.
Proof.
  intros E. pose proof (parse_frame_length _ _ _ E) as Hl. unfold frames_of.
  destruct (length bs) as [|n] eqn:En; [lia|]. cbn [frames]. rewrite E. f_equal. apply frames_fuel; lia.
Qed.
Lemma parses_frames bs fs tl : parses bs fs tl -> frames_of bs = fs ++ frames_of tl.
Proof. induction 1 as [|bs f rest fs tl E _ IH]; [done|]. by rewrite (frames_of_cons _ _ _ E), IH. Qed.
Lemma parses_app bs fs1 mid fs2 tl : parses bs fs1 mid -> parses mid fs2 tl -> parses bs (fs1 ++ fs2) tl.
Proof. induction 1 as [|bs f rest fs mid E _ IH]; [done|]. intros H. apply (parses_cons _ f rest); [done|by apply IH]. Qed.
Lemma data_on_app id fs1 fs2 : data_on id (fs1 ++ fs2) = data_on id fs1 ++ data_on id fs2.
Proof. unfold data_on. by rewrite map_app, concat_app. Qed.
Lemma parses_length id bs fs tl : parses bs fs tl -> (length (data_on id fs) + length tl <= length bs)%nat.
Proof.
  induction 1 as [|bs f rest fs tl E _ IH]; [done|]. apply parse_frame_length in E.
  unfold data_on. cbn [map concat]. rewrite length_app. unfold data_on in IH.
  assert (length (data_for id f) <= length (payload f))%nat; [|lia]. unfold data_for. destruct (_ && _); [done|]. cbn. lia.
Qed.

(** ** Reads as moves along the content *)

Lemma moved_refl id s s' : view s' = view s -> moved id [] s s'.
Proof.
  intros [= E1 E2]. exists []. rewrite E1. split; [constructor|]. unfold inbox, data_on. cbn. by rewrite E2, app_nil_r.
Qed.
Lemma moved_trans id bs1 bs2 s1 s2 s3 : moved id bs1 s1 s2 -> moved id bs2 s2 s3 -> moved id (bs1 ++ bs2) s1 s3.
Proof.
  intros (fs1 & P1 & E1) (fs2 & P2 & E2). exists (fs1 ++ fs2). split; [by eapply parses_app|].
  rewrite data_on_app, <- app_assoc, E2, !app_assoc. by rewrite E1.
Qed.
Lemma moved_received id bs s1 s2 s3 :
  moved id bs s1 s2 -> (exists fs, received id fs s2 s3) ->
  exists fs, parses (input s1) fs (input s3) /\
    (bs ++ inbox s3 id = inbox s1 id ++ data_on id fs \/ is_Some (reset_streams (streams s3) !! id)).
Proof.
  intros (fs1 & P1 & E1) (fs2 & P2 & E2). exists (fs1 ++ fs2). split; [by eapply parses_app|].
  destruct E2 as [E2|E2]; [left|by right]. by rewrite data_on_app, E2, !app_assoc, E1.
Qed.
Lemma moved_content id bs s s' : moved id bs s s' -> content s id = bs ++ content s' id.
Proof.
  intros (fs & P & E). unfold content. rewrite (parses_frames _ _ _ P), data_on_app, !app_assoc. by rewrite E.
Qed.
(** What a reader can still get at bounds how often it can read. *)
Definition avail (s : H2Framer) (id : Z) : nat := (length (inbox s id) + length (input s))%nat.
Lemma moved_avail id bs s s' : moved id bs s s' -> (length bs + avail s' id <= avail s id)%nat.
Proof.
  intros (fs & P & E). pose proof (parses_length id _ _ _ P). apply (f_equal length) in E.
  rewrite !length_app in E. unfold avail. lia.
Qed.

(** ** Reading one message *)

Definition header_length (raw : bytes) : Z := le_Z (take 8 (drop 8 raw)).
(** A string that is one message as its header declares it. *)
Definition whole (raw : bytes) : Prop := len raw = 24 + header_length raw.

Lemma wpx_on_h2 {A} prefix (m : h2 A) (Q : A -> H2Framer -> Prop) R T s : wpx m Q R T s -> wpx (on_h2 prefix m) Q R T s.
Proof. unfold wpx, on_h2. by destruct (m s) as [s' [a|e| | |]]. Qed.

Section read.
Context (o : base) (id : Z).

Definition sound (v : bool) (s : H2Framer) : Prop := Inv o s /\ marked s = v.
Definition stalled (bs : bytes) (s s' : H2Framer) : Prop := exists fs, received id fs s s'.

Lemma keeps_mark_wpx {A} (m : h2 A) v (Q : A -> H2Framer -> Prop) (R T : H2Framer -> Prop) s :
  preserves (fun s' => marked s' = v) m -> marked s = v -> wpx m Q R T s ->
  wpx m (fun a s' => Q a s' /\ marked s' = v) (fun s' => R s' /\ marked s' = v) (fun s' => T s' /\ marked s' = v) s.
Proof. unfold wpx. intros Hk Hv. specialize (Hk s Hv). by destruct (m s) as [s' [a|e| | |]]. Qed.

Lemma read_stream_full n v s :
  0 <= n -> sound v s ->
  wpx (read_stream id n) (fun bs s' => sound v s' /\ len bs = n /\ moved id bs s s') (sound v)
    (fun s' => sound v s' /\ exists fs, received id fs s s') s.
Proof.
  intros Hn [Hi Hv]. eapply wpx_mono; [apply (keeps_mark_wpx _ v); [auto with mark|done|apply wpx_both;
    [by apply (good_read_stream o)|by apply (read_stream_receives o)]]| | |]; unfold sound; cbv beta; intuition.
Qed.

Lemma body_chunks_spec fuel n body v s :
  0 <= n -> n / MAX_XPC_BODY_READ_CHUNK < Z.of_nat fuel -> sound v s ->
  wpx (body_chunks fuel id n body) (fun r s' => sound v s' /\ exists bs, r = body ++ bs /\ len bs = n /\ moved id bs s s')
    (sound v) (sound v) s.
Proof.
  revert n body s. induction fuel as [|fuel IH]; intros n body s Hn Hf Hs; cbn [body_chunks].
  { pose proof (Z.div_pos n MAX_XPC_BODY_READ_CHUNK Hn ltac:(done)). lia. }
  destruct (Z.eqb_spec n 0) as [->|Hn0].
  { apply wpx_ret. split; [done|]. exists []. split; [by rewrite app_nil_r|]. split; [done|by apply moved_refl]. }
  cbv zeta. wpx_step. assert (MAX_XPC_BODY_READ_CHUNK = 16760832) as Hk by done.
  eapply wpx_mono; [apply (read_stream_full _ v); [lia|done]| |done|by intros s' []]. cbv beta. intros bs s1 (Hs1 & Hl & Hm).
  destruct (Z_le_gt_dec n MAX_XPC_BODY_READ_CHUNK) as [Hle|Hgt].
  - rewrite Z.min_l in * by lia. rewrite Z.sub_diag. destruct fuel; cbn [body_chunks]; change (0 =? 0) with true; cbv iota; apply wpx_ret;
      (split; [done|]); by exists bs.
  - rewrite Z.min_r in * by lia. eapply wpx_mono; [apply IH; [lia| |done]| |done|done].
    { replace n with (n - MAX_XPC_BODY_READ_CHUNK + 1 * MAX_XPC_BODY_READ_CHUNK) in Hf by lia.
      rewrite Z.div_add in Hf by (rewrite Hk; lia). lia. }
    cbv beta. intros r s' (Hs' & bs' & -> & Hl' & Hm'). split; [done|]. exists (bs ++ bs').
    rewrite app_assoc, len_app. split; [done|]. split; [lia|by eapply moved_trans].
Qed.

(** Between messages a dropped or failed read leaves the marker down; from the header
    on it stays up until the body is complete. *)
Lemma read_raw_spec s :
  Inv o s ->
  wpx (read_raw_xpc_message id)
    (fun r s' => sound false s' /\ whole (r.1 ++ r.2) /\ moved id (r.1 ++ r.2) s s')
    (Inv o) (fun s' => Inv o s' /\ (marked s' = true \/ exists fs, received id fs s s')) s.
Proof.
  intros Hi. unfold read_raw_xpc_message. wpx_step. apply wpx_get. wpx_step; [by apply wpx_fail|].
  assert (sound false s) as Hs by (by split).
  wpx_step. eapply wpx_mono; [apply wpx_on_h2, (read_stream_full _ false); [lia|done]| |by intros s' []|].
  2: { intros s' [[Hi' _] Hr]. split; [done|by right]. }
  cbv beta. intros h s1 ([Hi1 _] & Hl & Hm). wpx_step. apply wpx_on_h2, wpx_mod.
  set (s2 := set_message_read_in_progress true s1). assert (sound true s2) as Hs2 by done.
  assert (moved id h s s2) as Hm2 by exact Hm. clearbody s2. clear s1 Hi1 Hm.
  assert (length h = 24%nat) as Hlen by (unfold len in Hl; lia). pose proof Hs2 as [Hi2 _].
  wpx_step. rewrite slice_ok by lia. apply wpx_lift; [done| |done]. intros declared [= <-].
  wpx_step. rewrite slice_ok by lia. apply wpx_lift; [done| |done]. intros fl [= <-].
  wpx_step. change (16 - 8)%nat with 8%nat. fold (header_length h). set (n := header_length h).
  assert (0 <= n) as Hn by (unfold n, header_length; pose proof (le_Z_bound (take 8 (drop 8 h))); lia).
  apply wpx_lift; [unfold checked_xpc_body_len; by split_ifs| |done]. intros k Hk.
  assert (k = n) as -> by (revert Hk; unfold checked_xpc_body_len; split_ifs; by intros [=]). clear Hk.
  assert (forall b, len b = n -> whole (h ++ b)) as Hwhole.
  { intros b Hb. unfold whole. rewrite len_app, Hl, Hb. unfold header_length. by rewrite skipn_app, take_app_le by (rewrite ?length_drop; lia). }
  wpx_step.
  - wpx_step. apply wpx_on_h2, wpx_mod, wpx_ret. cbn [fst snd]. rewrite app_nil_r. split; [by split|].
    split; [|exact Hm2]. rewrite <- (app_nil_r h). apply Hwhole. change (len (@nil byte)) with 0. lia.
  - wpx_step. eapply wpx_mono; [apply wpx_on_h2, (body_chunks_spec _ n [] true); [done| |done]| |by intros s' []|].
    { pose proof (Z.div_pos n MAX_XPC_BODY_READ_CHUNK Hn ltac:(done)). lia. }
    2: { intros s' []. split; [done|by left]. }
    cbv beta. intros b s3 ([Hi3 _] & bs & -> & Hb & Hm3). wpx_step. apply wpx_on_h2, wpx_mod, wpx_ret.
    cbn [fst snd app]. split; [by split|]. split; [by apply Hwhole|]. exact (moved_trans _ _ _ _ _ _ Hm2 Hm3).
Qed.

(** [m] is the message at the front of the stream, and has been taken off it. *)
Definition took (m : XpcMessage) (s s' : H2Framer) : Prop :=
  exists raw, whole raw /\ decode_message raw = Ok m /\ moved id raw s s'.
Lemma read_xpc_spec s :
  Inv o s ->
  wpx (read_xpc id) (fun m s' => sound false s' /\ took m s s')
    (Inv o) (fun s' => Inv o s' /\ (marked s' = true \/ exists fs, received id fs s s')) s.
Proof.
  intros Hi. unfold read_xpc. wpx_step. eapply wpx_mono; [by apply read_raw_spec| |done|done].
  cbv beta. intros r s' (Hs & Hw & Hm). apply wpx_lift; [apply decode_returns| |by destruct Hs].
  intros m Hd. split; [done|]. by exists (r.1 ++ r.2).
Qed.
End read.

(** ** The connection *)

Section conn.
Context `{A0 : !Allocation} `{L0 : !AllocationLaws A0} (stream_max conn_max : Z) (Hmax : 0 <= stream_max).

Definition CInv (c : XpcConnection) : Prop :=
  Inv session (framer c) /\ Accounted stream_max conn_max (parked c) /\ in_u 64 (next_msg_id c).

(** What a receive leaves alone. *)
Definition steady (c c' : XpcConnection) : Prop :=
  next_msg_id c' = next_msg_id c /\ sending_message_in_progress c' = sending_message_in_progress c.
(** Only the queue of stream [id] has changed, and it is now [q]. *)
Definition holds (id : Z) (q : list XpcMessage) (c c' : XpcConnection) : Prop :=
  steady c c' /\ requeued stream_max conn_max id q (parked c) (parked c').

Lemma wpx_on_framer {A} (m : fx A) c (Q : A -> XpcConnection -> Prop) (R T : XpcConnection -> Prop) :
  wpx m (fun a f => Q a (set_framer f c)) (fun f => R (set_framer f c)) (fun f => T (set_framer f c)) (framer c) ->
  wpx (on_framer m) Q R T c.
Proof. unfold wpx, on_framer. by destruct (m (framer c)) as [f [a| | | |]]. Qed.
Lemma wpx_on_parked {A} (m : parked_op A) c (Q : A -> XpcConnection -> Prop) (R T : XpcConnection -> Prop) :
  wpx m (fun a p => Q a (set_parked p c)) (fun p => R (set_parked p c)) (fun p => T (set_parked p c)) (parked c) ->
  wpx (on_parked m) Q R T c.
Proof. unfold wpx, on_parked. by destruct (m (parked c)) as [p [a| | | |]]. Qed.

Lemma requeued_refl id p : Accounted stream_max conn_max p -> requeued stream_max conn_max id (parked_on p id) p p.
Proof. intros Ha. split; [done|]. intros i. by destruct (Z.eqb_spec i id) as [->|]. Qed.
Lemma requeued_trans id q q' p1 p2 p3 :
  requeued stream_max conn_max id q p1 p2 -> requeued stream_max conn_max id q' p2 p3 -> requeued stream_max conn_max id q' p1 p3.
Proof. intros [_ H1] [Ha H2]. split; [done|]. intros i. rewrite H2, H1. by destruct (i =? id). Qed.
Lemma requeued_at id q p p' : requeued stream_max conn_max id q p p' -> parked_on p' id = q.
Proof. intros [_ H]. by rewrite H, Z.eqb_refl. Qed.
Lemma holds_trans id q q' c1 c2 c3 : holds id q c1 c2 -> holds id q' c2 c3 -> holds id q' c1 c3.
Proof. intros [[E1 E2] H1] [[E3 E4] H2]. split; [split; congruence|by eapply requeued_trans]. Qed.

(** The queue of the stream is dropped with the error. *)
Lemma clear_on_error_spec {A} id (m : xc A) c (Q : A -> XpcConnection -> Prop) (T : XpcConnection -> Prop) :
  wpx m Q (fun c' => CInv c' /\ exists q, holds id q c c') T c ->
  wpx (clear_on_error id m) Q (fun c' => CInv c' /\ holds id [] c c') T c.
Proof.
  unfold wpx at 1. unfold clear_on_error, wpx at 1. destruct (m c) as [c1 [a|e| | |]]; try done.
  intros [(Hi & Ha & Hn) (q & Hs & Hq)].
  cut (wpx (on_parked (clear_pending_stream id) ;; st_fail e : xc A) Q (fun c' => CInv c' /\ holds id [] c c') T c1); [done|].
  wpx_step. apply wpx_on_parked. eapply wpx_mono; [by apply (clear_pending_spec stream_max conn_max)| |done|done].
  cbv beta. intros _ p Hp. apply wpx_fail. split; [split_and!; try done; by destruct Hp|]. split; [done|by eapply requeued_trans].
Qed.

(** A receive that was dropped: nothing is lost, or the marker is up. *)
Definition dropped (id : Z) (f f' : H2Framer) : Prop := marked f' = true \/ exists fs, received id fs f f'.

Lemma recv_fresh_spec id c :
  CInv c ->
  wpx (recv_fresh_on_stream id)
    (fun m c' => CInv c' /\ steady c c' /\ parked c' = parked c /\ marked (framer c') = false /\ took id m (framer c) (framer c'))
    (fun c' => CInv c' /\ holds id [] c c')
    (fun c' => CInv c' /\ steady c c' /\ parked c' = parked c /\ dropped id (framer c) (framer c')) c.
Proof.
  intros (Hi & Ha & Hn). apply clear_on_error_spec. apply wpx_on_framer.
  eapply wpx_mono; [by apply (read_xpc_spec session)| | |]; cbv beta.
  - intros m f ([Hf Hv] & Hm). by split_and!.
  - intros f Hf. split; [by split_and!|]. exists (parked_on (parked c) id). split; [done|by apply requeued_refl].
  - intros f [Hf Hd]. by split_and!.
Qed.

(** [ms] are the next messages of stream [id], in order, each whole, and have been
    taken off it. *)
Definition fetched (id : Z) (ms : list XpcMessage) (f f' : H2Framer) : Prop :=
  exists raws, Forall2 (fun raw m => whole raw /\ decode_message raw = Ok m) raws ms /\ moved id (concat raws) f f'.
Lemma fetched_nil id f f' : view f' = view f -> fetched id [] f f'.
Proof. intros Hv. exists []. split; [constructor|by apply moved_refl]. Qed.
Lemma fetched_cons id m ms f1 f2 f3 : took id m f1 f2 -> fetched id ms f2 f3 -> fetched id (m :: ms) f1 f3.
Proof.
  intros (raw & Hw & Hd & Hm) (raws & Hr & Hms). exists (raw :: raws). split; [by constructor|].
  cbn [concat]. by eapply moved_trans.
Qed.

(** Parking the messages of [ms] one after the other. *)
Definition park_all (ms : list XpcMessage) (q : list XpcMessage) : list XpcMessage := foldl (fun q m => park m q) q ms.
Definition unmatched (k : Z) (ms : list XpcMessage) : Prop := Forall (fun m => Xpc.msg_id m <> k) ms.

Definition replied (id k : Z) (m : XpcMessage) (c c' : XpcConnection) : Prop :=
  exists ms, fetched id (ms ++ [m]) (framer c) (framer c') /\ Xpc.msg_id m = k /\ unmatched k ms /\
    holds id (park_all ms (parked_on (parked c) id)) c c'.
Definition waiting (id k : Z) (c c' : XpcConnection) : Prop :=
  exists ms f, fetched id ms (framer c) f /\ unmatched k ms /\ dropped id f (framer c') /\
    holds id (park_all ms (parked_on (parked c) id)) c c'.

Lemma took_ge id m f f' : took id m f f' -> (24 + avail f' id <= avail f id)%nat.
Proof.
  intros (raw & Hw & _ & Hm%moved_avail). unfold whole, header_length in Hw.
  pose proof (le_Z_bound (take 8 (drop 8 raw))). unfold len in *. lia.
Qed.

Lemma reply_loop_spec fuel id k c :
  (avail (framer c) id < fuel)%nat -> CInv c ->
  wpx (reply_loop fuel id k) (fun m c' => CInv c' /\ marked (framer c') = false /\ replied id k m c c')
    (fun c' => CInv c' /\ holds id [] c c') (fun c' => CInv c' /\ waiting id k c c') c.
Proof.
  revert c. induction fuel as [|fuel IH]; intros c Hf Hc; [lia|]. cbn [reply_loop]. wpx_step.
  eapply wpx_mono; [by apply recv_fresh_spec| |done|]; cbv beta.
  2: { intros c1 (Hc1 & Hs & Hp & Hd). split; [done|]. exists [], (framer c).
       split; [by apply fetched_nil|]. split; [constructor|]. split; [done|]. split; [done|]. rewrite Hp.
       by apply requeued_refl; destruct Hc as (_ & ? & _). }
  intros m c1 (Hc1 & Hs & Hp & Hv & Hm). pose proof (took_ge _ _ _ _ Hm) as Hge.
  destruct (Z.eqb_spec (Xpc.msg_id m) k) as [Hk|Hk].
  { apply wpx_ret. split; [done|]. split; [done|]. exists []. cbn [app]. split; [eapply fetched_cons; [done|by apply fetched_nil]|].
    split; [done|]. split; [constructor|]. split; [done|]. rewrite Hp. by apply requeued_refl; destruct Hc as (_ & ? & _). }
  wpx_step.
  pose proof Hc1 as (Hi1 & Ha1 & Hn1).
  eapply (wpx_mono _ (fun _ c2 => CInv c2 /\ framer c2 = framer c1 /\ holds id (park m (parked_on (parked c) id)) c c2)
    _ (fun c2 => CInv c2 /\ holds id [] c1 c2) _ (fun _ => False)); [| | |done].
  - apply clear_on_error_spec, wpx_on_parked. eapply wpx_mono; [by apply (push_spec stream_max conn_max)| | |done]; cbv beta.
    + intros _ p Hq. rewrite Hp in Hq. split; [split_and!; [done|by destruct Hq|done]|]. split; [done|].
      split; [done|]. exact Hq.
    + intros p ->. split; [done|]. exists (parked_on (parked c1) id). split; [done|by apply requeued_refl].
  - intros _ c2 (Hc2 & Hf2 & Hh2).
    assert (forall q c', holds id q c2 c' -> holds id q c c') as Hcomp by (intros q c'; by eapply holds_trans).
    assert (parked_on (parked c2) id = park m (parked_on (parked c) id)) as Hq2 by (by destruct Hh2 as [_ ?%requeued_at]).
    eapply wpx_mono; [apply IH; [rewrite Hf2; lia|done]| | |]; cbv beta.
    + intros m' c' (Hc' & Hv' & ms & Hfe & Hk' & Hu & Hh). split; [done|]. split; [done|]. exists (m :: ms). rewrite Hf2 in Hfe.
      split; [by eapply fetched_cons|]. split; [done|]. split; [by constructor|]. rewrite Hq2 in Hh. by apply Hcomp.
    + intros c' [Hc' Hh]. split; [done|by apply Hcomp].
    + intros c' (Hc' & ms & f & Hfe & Hu & Hd & Hh). split; [done|]. exists (m :: ms), f. rewrite Hf2 in Hfe.
      split; [by eapply fetched_cons|]. split; [by constructor|]. split; [done|]. rewrite Hq2 in Hh. by apply Hcomp.
  - intros c2 [Hc2 [Hs2 Hh2]]. split; [done|]. split; [destruct Hs, Hs2; split; congruence|].
    rewrite Hp in Hh2. done.
Qed.

(** ** The calls *)

(** Why a connection refuses every call: the framer is poisoned, or a message was cut
    short while it was received or sent. *)
Definition unusable (c : XpcConnection) : bool :=
  poisoned (framer c) || marked (framer c) || sending_message_in_progress c.

Lemma set_framer_same c : set_framer (framer c) c = c.
Proof. by destruct c. Qed.
Lemma ensure_open_usable s : poisoned s = false -> ensure_connection_open s = (s, Ok tt).
Proof.
  unfold poisoned, ensure_connection_open, mbind, st_bind, st_get. destruct s as [i r b st f [ce mr os wu]]. cbn.
  destruct ce; [done|]. destruct os; [done|]. by destruct wu.
Qed.
Lemma ensure_refuses c : unusable c = true -> exists e, ensure_conn_reusable c = (c, Err e).
Proof.
  unfold unusable. intros Hu. unfold ensure_conn_reusable, on_framer, on_h2, mbind, st_bind, ensure_reusable.
  destruct (poisoned (framer c)) eqn:Hp.
  - destruct (ensure_open_poisoned _ Hp) as [e ->]. cbn. rewrite set_framer_same. eauto.
  - rewrite (ensure_open_usable _ Hp). cbn. rewrite set_framer_same. unfold st_get.
    unfold is_message_read_in_progress. fold (marked (framer c)). destruct (marked (framer c)); [eexists; done|].
    cbn in Hu. rewrite Hu. by eexists.
Qed.
Lemma ensure_spec c (Q : unit -> XpcConnection -> Prop) (R T : XpcConnection -> Prop) :
  R c -> (unusable c = false -> Q tt c) -> wpx ensure_conn_reusable Q R T c.
Proof.
  intros HR HQ. destruct (unusable c) eqn:Hu; unfold wpx.
  - destruct (ensure_refuses c Hu) as [e ->]. done.
  - unfold unusable in Hu. apply orb_false_iff in Hu as [[Hp Hm]%orb_false_iff Hs].
    unfold ensure_conn_reusable, on_framer, on_h2, mbind, st_bind, ensure_reusable, st_get.
    rewrite (ensure_open_usable _ Hp). cbn. rewrite set_framer_same. unfold is_message_read_in_progress.
    unfold marked in Hm. rewrite Hm, Hs. by apply HQ.
Qed.

Lemma received_view id f f' : view f' = view f -> received id [] f f'.
Proof.
  intros [= E1 E2]. split; [rewrite E1; constructor|]. left. unfold inbox, data_on. cbn. by rewrite E2, app_nil_r.
Qed.
(** Nothing was received. *)
Definition settled (c c' : XpcConnection) : Prop :=
  CInv c' /\ steady c c' /\ parked c' = parked c /\ view (framer c') = view (framer c) /\ marked (framer c') = marked (framer c).
Lemma settled_self c : CInv c -> settled c c.
Proof. by intros Hc. Qed.
Lemma finish_spec c :
  CInv c ->
  wpx (on_framer (on_h2 "" finish_pending_write_for_read)) (fun _ => settled c) (settled c) (settled c) c.
Proof.
  intros (Hi & Ha & Hn). apply wpx_on_framer, wpx_on_h2. unfold finish_pending_write_for_read.
  assert (preserves (fun s => view s = view (framer c)) (ensure_connection_open ;; finish_pending_write)) as Hk.
  { apply preserves_bind; [apply keep_open|intros _; apply keeps_finish, view_io]. }
  assert (preserves (fun s => marked s = marked (framer c)) (ensure_connection_open ;; finish_pending_write)) as Hk2.
  { apply preserves_bind; [apply mark_ensure_open|intros _; apply mark_finish]. }
  assert (good session (ensure_connection_open ;; finish_pending_write)) as Hg.
  { apply good_bind; auto with h2. }
  eapply wpx_mono; [apply (keeps_mark_wpx _ (marked (framer c))); [exact Hk2|done|apply (wpx_keep view); [by apply Hg|done]]| | |]; cbv beta.
  - intros _ f [[[Hf _] Hv] Hm]. by split_and!.
  - intros f [[Hf Hv] Hm]. by split_and!.
  - intros f [[Hf Hv] Hm]. by split_and!.
Qed.
Lemma holds_self id c c' : settled c c' -> holds id (parked_on (parked c) id) c c'.
Proof. intros ((_ & Ha & _) & Hs & Hp & _). split; [done|]. rewrite Hp in *. by apply requeued_refl. Qed.
Lemma fetched_view id ms f f' f'' : view f' = view f -> fetched id ms f' f'' -> fetched id ms f f''.
Proof. intros Hv (raws & Hr & Hm). exists raws. split; [done|]. exact (moved_trans _ [] _ _ _ _ (moved_refl id _ _ Hv) Hm). Qed.

(** The reply of [recv_reply_on_stream]: the parked message with that id, or else the
    next one to come. *)
Definition answered (id k : Z) (m : XpcMessage) (c c' : XpcConnection) : Prop :=
  match pick k (parked_on (parked c) id) with
  | Some (m', q) => m = m' /\ fetched id [] (framer c) (framer c') /\ holds id q c c'
  | None => replied id k m c c'
  end.

Lemma recv_reply_spec id k c :
  CInv c ->
  wpx (recv_reply_on_stream id k) (fun m c' => CInv c' /\ unusable c = false /\ marked (framer c') = false /\ answered id k m c c')
    (fun c' => CInv c' /\ exists q, holds id q c c') (fun c' => CInv c' /\ waiting id k c c') c.
Proof.
  intros Hc. unfold recv_reply_on_stream. wpx_step.
  apply ensure_spec; [split; [done|]; exists (parked_on (parked c) id); by apply holds_self, settled_self|]. intros Hu.
  assert (marked (framer c) = false) as Hm0.
  { unfold unusable in Hu. destruct (marked (framer c)); [|done]. by rewrite orb_true_r in Hu. }
  wpx_step. eapply wpx_mono; [by apply finish_spec| | |]; cbv beta.
  2: { intros c1 Hs. split; [apply Hs|]. exists (parked_on (parked c) id). by apply holds_self. }
  2: { intros c1 Hs. split; [apply Hs|]. exists [], (framer c). split; [by apply fetched_nil|]. split; [constructor|].
       split; [right; exists []; apply received_view; apply Hs|by apply holds_self]. }
  intros _ c1 Hset. pose proof Hset as (Hc1 & Hs & Hp & Hv & Hm). pose proof Hc1 as (Hi1 & Ha1 & Hn1). wpx_step.
  eapply (wpx_mono _ (fun r c2 => CInv c2 /\ framer c2 = framer c1 /\
    match pick k (parked_on (parked c) id) with
    | None => r = None /\ c2 = c1 | Some (m, q) => r = Some m /\ holds id q c c2 end) _ (fun _ => False) _ (fun _ => False)); [| |done|done].
  { apply wpx_on_parked. eapply wpx_mono; [by apply (take_spec stream_max conn_max)| |done|done]. cbv beta. rewrite Hp.
    intros r p. destruct (pick k _) as [[m q]|].
    - intros [-> Hq]. split; [split_and!; [done|by destruct Hq|done]|]. by split.
    - intros [-> ->]. rewrite <- Hp. by destruct c1. }
  intros r c2 (Hc2 & Hf2 & Hr). destruct (pick k (parked_on (parked c) id)) as [[m q]|] eqn:Epick; destruct Hr as [-> Hr].
  { apply wpx_ret. unfold answered. rewrite Epick, Hf2, Hm. split_and!; try done. by apply fetched_nil. }
  subst c2. wpx_step. apply wpx_get. eapply wpx_mono; [apply reply_loop_spec; [unfold reply_fuel, avail; lia|done]| | |]; cbv beta.
  - intros m c' (Hc' & Hv' & ms & Hfe & Hk & Hun & Hh). unfold answered. rewrite Epick. split; [done|]. split; [done|]. split; [done|].
    exists ms. rewrite Hp in Hh. split; [by eapply fetched_view|]. split; [done|]. split; [done|]. eapply holds_trans; [by apply holds_self|done].
  - intros c' [Hc' Hh]. split; [done|]. exists []. eapply holds_trans; [by apply (holds_self id)|done].
  - intros c' (Hc' & ms & f & Hfe & Hun & Hd & Hh). split; [done|]. exists ms, f. rewrite Hp in Hh.
    split; [by eapply fetched_view|]. split; [done|]. split; [done|]. eapply holds_trans; [by apply holds_self|done].
Qed.

(** The message of [recv_on_stream]: the oldest one parked, or else the next one to
    come. *)
Definition next_message (id : Z) (m : XpcMessage) (c c' : XpcConnection) : Prop :=
  match parked_on (parked c) id with
  | m' :: q => m = m' /\ fetched id [] (framer c) (framer c') /\ holds id q c c'
  | [] => fetched id [m] (framer c) (framer c') /\ holds id [] c c'
  end.
Lemma recv_on_spec id c :
  CInv c ->
  wpx (recv_on_stream id) (fun m c' => CInv c' /\ unusable c = false /\ marked (framer c') = false /\ next_message id m c c')
    (fun c' => CInv c' /\ exists q, holds id q c c')
    (fun c' => CInv c' /\ dropped id (framer c) (framer c') /\ holds id (parked_on (parked c) id) c c') c.
Proof.
  intros Hc. unfold recv_on_stream. wpx_step.
  apply ensure_spec; [split; [done|]; exists (parked_on (parked c) id); by apply holds_self, settled_self|]. intros Hu.
  assert (marked (framer c) = false) as Hm0.
  { unfold unusable in Hu. destruct (marked (framer c)); [|done]. by rewrite orb_true_r in Hu. }
  wpx_step. eapply wpx_mono; [by apply finish_spec| | |]; cbv beta.
  2: { intros c1 Hs. split; [apply Hs|]. exists (parked_on (parked c) id). by apply holds_self. }
  2: { intros c1 Hs. split; [apply Hs|]. split; [right; exists []; apply received_view; apply Hs|by apply holds_self]. }
  intros _ c1 Hset. pose proof Hset as (Hc1 & Hs & Hp & Hv & Hm). pose proof Hc1 as (Hi1 & Ha1 & Hn1). wpx_step.
  eapply (wpx_mono _ (fun r c2 => CInv c2 /\ framer c2 = framer c1 /\
    match parked_on (parked c) id with [] => r = None /\ c2 = c1 | m :: q => r = Some m /\ holds id q c c2 end)
    _ (fun _ => False) _ (fun _ => False)); [| |done|done].
  { apply wpx_on_parked. eapply wpx_mono; [by apply (pop_spec stream_max conn_max)| |done|done]. cbv beta. rewrite Hp.
    intros r p. destruct (parked_on (parked c) id) as [|m q].
    - intros [-> ->]. rewrite <- Hp. by destruct c1.
    - intros [-> Hq]. split; [split_and!; [done|by destruct Hq|done]|]. by split. }
  intros r c2 (Hc2 & Hf2 & Hr). pose proof (holds_self id c c1 Hset) as Hhs. unfold next_message.
  destruct (parked_on (parked c) id) as [|m q] eqn:Eq; destruct Hr as [-> Hr].
  2: { apply wpx_ret. rewrite Hf2, Hm. split_and!; try done. by apply fetched_nil. }
  subst c2. eapply wpx_mono; [by apply recv_fresh_spec| | |]; cbv beta.
  - intros m c' (Hc' & Hs' & Hp' & Hv' & Hm'). split; [done|]. split; [done|]. split; [done|].
    split; [eapply fetched_view; [done|]; eapply fetched_cons; [done|by apply fetched_nil]|].
    eapply (holds_trans id); [done|]. split; [done|]. rewrite Hp', Hp. rewrite <- Eq. apply requeued_refl. by destruct Hc as (_ & ? & _).
  - intros c' [Hc' Hh]. split; [done|]. exists []. by eapply (holds_trans id).
  - intros c' (Hc' & Hs' & Hp' & Hd). split; [done|]. split.
    + destruct Hd as [Hd|(fs & [P E])]; [by left|right]. exists fs. injection Hv as Hv1 Hv2. unfold received, inbox in *.
      by rewrite <- Hv1, <- Hv2.
    + eapply (holds_trans id); [done|]. split; [done|]. rewrite Hp', Hp. rewrite <- Eq. apply requeued_refl. by destruct Hc as (_ & ? & _).
Qed.

(** Part of the message is on the wire, and the connection knows it. *)
Definition cut_send (b : XpcValue) (fl : Z) (c c' : XpcConnection) : Prop :=
  sending_message_in_progress c' = true /\
  exists bs d, encode_message (request (next_msg_id c) fl b) = Ok bs /\ d `prefix_of` bs /\
    posts STREAM_CLIENT_SERVER d (framer c) (framer c').
Definition sent_message (b : XpcValue) (fl id : Z) (c c' : XpcConnection) : Prop :=
  id = next_msg_id c /\ next_msg_id c' = (id + 1) mod 2 ^ 64 /\ sending_message_in_progress c' = false /\
  exists bs, encode_message (request id fl b) = Ok bs /\ posts STREAM_CLIENT_SERVER bs (framer c) (framer c') /\
    pending_write (io (framer c')) = None.

Lemma send_spec b fl c :
  CInv c ->
  wpx (send_with_flags b fl)
    (fun id c' => CInv c' /\ unusable c = false /\ marked (framer c') = false /\ parked c' = parked c /\ sent_message b fl id c c')
    (fun c' => CInv c' /\ parked c' = parked c /\ (framer c' = framer c \/ cut_send b fl c c'))
    (fun c' => CInv c' /\ parked c' = parked c /\ cut_send b fl c c') c.
Proof.
  intros Hc. pose proof Hc as (Hi & Ha & Hn). unfold send_with_flags. wpx_step. apply ensure_spec; [by auto|]. intros Hu.
  assert (marked (framer c) = false) as Hm0.
  { unfold unusable in Hu. destruct (marked (framer c)); [|done]. by rewrite orb_true_r in Hu. }
  wpx_step. unfold next_id. wpx_step. apply wpx_get. wpx_step. apply wpx_mod. apply wpx_ret. wpx_step.
  set (c1 := set_msg_id ((next_msg_id c + 1) mod 2 ^ 64) c).
  assert (CInv c1) as (Hi1 & Ha1 & Hn1) by (split_and!; [done|done|apply Z.mod_pos_bound; lia]).
  apply wpx_lift; [apply encode_returns| |split; [by split_and!|split; [done|by left]]]. intros bs Hbs. wpx_step. apply wpx_mod. wpx_step.
  apply wpx_on_framer, wpx_on_h2. cbn [framer set_sending set_msg_id c1].
  eapply wpx_mono; [apply (keeps_mark_wpx _ (marked (framer c))); [apply mark_write_stream|done|by apply (write_stream_spec session)]| | |]; cbv beta.
  - intros _ f [([Hf _] & Hp & Hw) Hm]. wpx_step. apply wpx_mod, wpx_ret. split; [by split_and!|]. split; [done|].
    split; [by rewrite <- Hm0|]. split; [done|]. split_and!; [done|done|done|]. by exists bs.
  - intros f [(Hf & d & Hd & Hp) Hm]. split; [by split_and!|]. split; [done|]. right. split; [done|]. by exists bs, d.
  - intros f [(Hf & d & Hd & Hp) Hm]. split; [by split_and!|]. split; [done|]. split; [done|]. by exists bs, d.
Qed.

Lemma recv_any_good c : CInv c -> wpx recv_any_stream (fun _ => CInv) CInv CInv c.
Proof.
  intros Hc. pose proof Hc as (Hi & Ha & Hn). unfold recv_any_stream. wpx_step. apply ensure_spec; [done|]. intros _. wpx_step.
  apply wpx_on_framer, wpx_on_h2. eapply wpx_mono; [by apply (good_buffer_next session)| | |]; cbv beta.
  - intros id f [Hf _]. eapply wpx_mono; [apply recv_fresh_spec; by split_and!| | |]; cbv beta; intuition.
  - intros f Hf. by split_and!.
  - intros f Hf. by split_and!.
Qed.

(** ** The connection as a transition system *)

Inductive xop :=
  | SendWithFlags (b : XpcValue) (extra_flags : Z) | RecvOn (id : Z) | RecvReply (id k : Z) | RecvAny.
Definition xcall (p : xop) : xc unit :=
  match p with
  | SendWithFlags b fl => send_with_flags b fl ;; mret tt
  | RecvOn id => recv_on_stream id ;; mret tt
  | RecvReply id k => recv_reply_on_stream id k ;; mret tt
  | RecvAny => recv_any_stream ;; mret tt
  end.
(** A call, however it ends, or the socket's future. *)
Inductive xstep : XpcConnection -> XpcConnection -> Prop :=
  | xstep_call p c : xstep c (xcall p c).1
  | xstep_socket evs wr c : xstep c (set_framer (set_rx (rx (io (framer c)) ++ evs) (set_wr wr (framer c))) c).

Lemma xcall_good p c : CInv c -> wpx (xcall p) (fun _ => CInv) CInv CInv c.
Proof.
  intros Hc. destruct p; cbn [xcall]; wpx_step.
  - eapply wpx_mono; [by apply send_spec| | |]; cbv beta; [|by intros ? []..]. intros ? ? []. by apply wpx_ret.
  - eapply wpx_mono; [by apply recv_on_spec| | |]; cbv beta; [|by intros ? []..]. intros ? ? []. by apply wpx_ret.
  - eapply wpx_mono; [by apply recv_reply_spec| | |]; cbv beta; [|by intros ? []..]. intros ? ? []. by apply wpx_ret.
  - eapply wpx_mono; [by apply recv_any_good| | |]; cbv beta; [|done..]. intros ? ? Hc'. by apply wpx_ret.
Qed.
Lemma xstep_CInv c c' : xstep c c' -> CInv c -> CInv c'.
Proof.
  intros [p c1|evs wr c1] Hc; [|exact Hc]. pose proof (xcall_good p c1 Hc) as H. unfold wpx in H.
  by destruct (xcall p c1) as [c2 [a|e| | |]].
Qed.
End conn.

Section reachable.
Context `{A0 : !Allocation} `{L0 : !AllocationLaws A0}.

(** A connection made from a connected framer, after any calls. *)
Definition xreachable (c : XpcConnection) : Prop :=
  exists f per_stream_limit connection_limit, reachable f /\ 0 <= per_stream_limit /\ 0 <= connection_limit /\
    rtc xstep (with_pending_memory_limits f per_stream_limit connection_limit) c.

Definition limit_of (c : XpcConnection) : Z := per_stream_limit (pending_budget (parked c)).
Definition total_limit_of (c : XpcConnection) : Z := connection_limit (pending_budget (parked c)).
Lemma xreachable_CInv c : xreachable c -> 0 <= limit_of c /\ CInv (limit_of c) (total_limit_of c) c.
Proof.
  intros (f & pl & cl & Hf%reachable_Inv & Hpl & Hcl & Hr).
  assert (CInv pl cl (with_pending_memory_limits f pl cl)) as H0.
  { split_and!; [done|by apply parked_new_accounted|done]. }
  assert (CInv pl cl c) as Hc.
  { induction Hr as [|c1 c2 c3 Hs _ IH]; [done|]. apply IH. by apply (xstep_CInv pl cl Hpl c1). }
  assert (limit_of c = pl /\ total_limit_of c = cl) as [-> ->]; [|done]. by destruct Hc as (_ & (_ & _ & _ & _ & ? & ?) & _).
Qed.

(** Parked replies are accounted for to the byte, and bounded. In every state
    that calls can reach, whichever fail or are dropped, the budget's total is the
    sum of what all parked messages occupy and within the connection's limit; the
    messages of one stream stay within its limit, there are at most 1024, and no
    two of them share an id other than 0. *)
Theorem xpc_parked_accounted c :
  xreachable c ->
  let p := parked c in
  total_bytes (pending_budget p) = msum (fun q => lsum message_heap (map message q)) (pending_messages p) /\
  total_bytes (pending_budget p) <= connection_limit (pending_budget p) /\
  forall id,
    lsum message_heap (parked_on p id) <= per_stream_limit (pending_budget p) /\
    (length (parked_on p id) <= MAX_PENDING_MESSAGES_PER_STREAM)%nat /\
    NoDup (filter (fun k => k <> 0) (map Xpc.msg_id (parked_on p id))).
Proof.
  intros (Hl & _ & Ha & _)%xreachable_CInv. cbv zeta. set (p := parked c) in *.
  assert (forall q, Forall (fun e => bytes_of e = message_heap (message e)) q -> queue_bytes q = lsum message_heap (map message q)) as Hsum.
  { intros q Hq. unfold queue_bytes, lsum. induction Hq as [|e q He _ IH]; [done|]. cbn. by rewrite He, IH. }
  pose proof (fun id => queue_of_ok _ _ p id Hl Ha) as Hok. destruct Ha as (Hq & _ & Ht & Hc & Hls & Hlc).
  split_and!.
  - rewrite Ht. apply msum_ext. intros id q Hid. apply Hsum. by apply (Hq id q Hid).
  - by rewrite Hlc.
  - intros id. specialize (Hok id) as (H1 & H2 & H3 & H4). rewrite parked_on_of, <- Hsum, length_map, map_map by done. by rewrite Hls.
Qed.

(** C5. The reply is the right message, and what comes before it is parked. When
    [recv_reply_on_stream] returns [m], its id is the one asked for. It is the
    first parked message with that id, which is then no longer parked; or it is the
    next such message to come: the messages [ms] that came before it on the stream,
    each taken whole and in order from the bytes the peer sent, are parked one after
    the other, each at the end of the queue, except that one with an id other than 0
    takes the place of the message with that id if one is parked already. A wait that
    is dropped has parked in the same way the messages it took whole. Beyond those it
    has at most read frames into the buffers of the framer, where their data stays
    until the peer resets the stream; or it stopped inside a message, and then the
    marker is up with which the connection refuses every further call. The queues of
    other streams never change, after an error neither. *)
Theorem xpc_reply_exact id k c :
  xreachable c ->
  match recv_reply_on_stream id k c with
  | (c', Ok m) => Xpc.msg_id m = k /\ answered (limit_of c) (total_limit_of c) id k m c c'
  | (c', Pending) => waiting (limit_of c) (total_limit_of c) id k c c'
  | (c', Err _) => forall i, i <> id -> parked_on (parked c') i = parked_on (parked c) i
  | _ => False
  end.
Proof.
  intros [Hl Hc]%xreachable_CInv. pose proof (recv_reply_spec _ _ Hl id k c Hc) as H. unfold wpx in H.
  destruct (recv_reply_on_stream id k c) as [c' [m|e| | |]]; try done.
  - destruct H as (_ & _ & _ & H). split; [|done]. unfold answered in H.
    destruct (pick k (parked_on (parked c) id)) as [[m' q]|] eqn:E.
    + destruct H as [-> _]. revert E. generalize (parked_on (parked c) id). clear. intros l. revert q.
      induction l as [|m l IH]; intros q; [done|]. cbn [pick]. destruct (Z.eqb_spec (Xpc.msg_id m) k); [by intros [= <- <-]|].
      destruct (pick k l) as [[r q']|]; [|done]. intros [= <- <-]. by eapply IH.
    + by destruct H as (ms & _ & ? & _).
  - destruct H as [_ [q [_ [_ Hq]]]]. intros i Hi. rewrite Hq. by rewrite (proj2 (Z.eqb_neq _ _)).
  - by destruct H.
Qed.
End reachable.

(** ** Two connections *)

(** A frame's bytes parse back to the frame. *)
Lemma header_meta_of f :
  header_ok f -> len (payload f) <= MAX_NEGOTIATED_FRAME_SIZE -> header_meta (header_of f) = meta_of f.
Proof.
  intros (Ht & Hf & Hid) Hl. unfold MAX_NEGOTIATED_FRAME_SIZE in Hl. pose proof (len_nonneg (payload f)).
  assert (Z.land (stream_id f) 0x7FFFFFFF = stream_id f) as Hland.
  { change 0x7FFFFFFF with (Z.ones 31). by rewrite Z.land_ones, Z.mod_small by (done || lia). }
  change (header_of f) with ([bZ (Z.land (Z.shiftr (len (payload f)) 16) 0xFF); bZ (Z.land (Z.shiftr (len (payload f)) 8) 0xFF);
    bZ (Z.land (len (payload f)) 0xFF); bZ (frame_type f); bZ (flags f)] ++ be_bytes 4 (Z.land (stream_id f) 0x7FFFFFFF)).
  rewrite Hland. unfold header_meta, meta_of.
  match goal with |- context [drop 5 ?l] => change (drop 5 l) with (be_bytes 4 (stream_id f)) end.
  cbn [app lookup list_lookup default from_option]. unfold Datatypes.id.
  rewrite !Zb_bZ, length_bytes_24 by lia. rewrite (be_Z_be_bytes_u 4 32), Hland by (done || (unfold in_u in *; lia)).
  unfold in_u in *. by rewrite !Z.mod_small by lia.
Qed.
Lemma parse_frame_wire f rest :
  header_ok f -> len (payload f) <= MAX_NEGOTIATED_FRAME_SIZE -> parse_frame (frame_wire f ++ rest) = Some (f, rest).
Proof.
  intros Hok Hl. rewrite frame_wire_split, <- app_assoc.
  rewrite (parse_frame_app _ _ _ (frame_type f) (flags f) (stream_id f) (len (payload f))); [by destruct f|done| |done].
  by apply header_meta_of.
Qed.
Lemma parses_wires fs :
  Forall (fun f => len (payload f) <= MAX_NEGOTIATED_FRAME_SIZE /\ header_ok f) fs -> parses (wires fs) fs [].
Proof.
  induction 1 as [|f fs [Hl Hok] _ IH]; [constructor|]. apply (parses_cons _ f (wires fs)); [|done].
  unfold wires. cbn [map concat]. by apply parse_frame_wire.
Qed.
Lemma parses_extend bs fs tl w : parses bs fs tl -> parses (bs ++ w) fs (tl ++ w).
Proof.
  induction 1 as [|bs f rest fs tl E _ IH]; [constructor|]. apply (parses_cons _ f (rest ++ w)); [|done].
  revert E. unfold parse_frame. destruct (length bs <? 9)%nat eqn:El; [done|]. apply Nat.ltb_ge in El.
  rewrite (proj2 (Nat.ltb_ge _ _)) by (rewrite length_app; lia). rewrite take_app_le, drop_app_le by lia.
  destruct (header_meta (take 9 bs)) as [[[t fl] i] n]. destruct (len (drop 9 bs) <? n) eqn:En; [done|]. apply Z.ltb_ge in En.
  rewrite len_app. pose proof (len_nonneg w). rewrite (proj2 (Z.ltb_ge _ _)) by lia. intros [= <- <-].
  unfold len in *. by rewrite take_app_le, drop_app_le by lia.
Qed.

Lemma posts_data id d s s' w :
  in_u 31 id -> posts id d s s' -> out s' = out s ++ w -> exists gs, parses w gs [] /\ data_on id gs = d.
Proof.
  intros Hid (gs & E & Hd & Hgs) Ew. rewrite E in Ew. apply app_inv_head in Ew as <-. exists gs. split.
  - apply parses_wires. eapply Forall_impl; [exact Hgs|]. intros f (Hl & _ & Hok). by split; [|apply Hok].
  - rewrite <- Hd. unfold data_on, data_of. clear -Hgs. induction Hgs as [|f gs (_ & Hf & _) _ IH]; [done|].
    cbn [map concat]. rewrite filter_cons, IH. unfold data_for. case_decide as E.
    + rewrite (Hf E), Z.eqb_refl. destruct (is_data f); [done|by destruct E].
    + by destruct (is_data f); [destruct E|].
Qed.

(** The bytes arrive, in whatever pieces and with whatever delays. *)
Definition deliver (evs : list rx_event) (c : XpcConnection) : XpcConnection :=
  set_framer (set_rx (rx (io (framer c)) ++ evs) (framer c)) c.
Lemma content_deliver evs c fs gs id :
  parses (input (framer c)) fs [] -> parses (data evs) gs [] ->
  content (framer (deliver evs c)) id = content (framer c) id ++ data_on id gs.
Proof.
  intros Hc He. assert (input (framer (deliver evs c)) = input (framer c) ++ data evs) as Hin.
  { unfold input, data. cbn. by rewrite map_app, concat_app, !app_assoc. }
  unfold content. rewrite Hin. pose proof (parses_extend _ _ _ (data evs) Hc) as Hx. cbn [app] in Hx.
  rewrite (parses_frames _ _ _ Hx), (parses_frames _ _ _ He), (parses_frames _ _ _ Hc), !data_on_app.
  change (frames_of []) with (@nil RawFrame). unfold data_on at 4 6. cbn. by rewrite !app_nil_r, app_assoc.
Qed.

(** The message at the front of the content is the one that was written there. *)
Lemma front_message r rest raw tl m :
  sendable r -> wire r ++ rest = raw ++ tl -> whole raw -> decode_message raw = Ok m -> m = r /\ tl = rest.
Proof.
  intros Hr E Hw Hd. pose proof (wire_len r) as Hlen. unfold whole in Hw.
  assert (header_length raw = len (body_bytes r)) as Hh.
  { pose proof (le_Z_bound (take 8 (drop 8 raw))) as Hb. fold (header_length raw) in Hb.
    assert (16 <= length raw)%nat by (unfold len in Hw; lia). unfold header_length.
    assert (take 8 (drop 8 raw) = le_bytes 8 (len (body_bytes r))) as ->.
    { apply (f_equal (fun l => take 8 (drop 8 l))) in E. rewrite (drop_app_le raw), (take_app_le _ tl) in E by (rewrite ?length_drop; lia).
      rewrite <- E. unfold wire. rewrite <- !app_assoc, (app_assoc (le_bytes 4 _)).
      rewrite drop_app_length' by (by rewrite length_app, !length_le_bytes).
      by rewrite take_app_length' by (by rewrite length_le_bytes). }
    destruct Hr as [_ Hl]. pose proof (body_limit_le (Xpc.flags r)). pose proof (len_nonneg (body_bytes r)).
    apply (le_Z_le_bytes_u 8 64); [done|]. unfold in_u, XPC_DATA_STREAM_BODY_LIMIT in *. lia. }
  apply app_inj_1 in E as [<- <-]; [|unfold len in *; lia]. split; [|done].
  pose proof (reads_message r Hr []) as H. rewrite app_nil_r in H. unfold decode_message in Hd. rewrite H in Hd. by injection Hd.
Qed.

(** *** Delivery *)

Lemma body_lives fuel n acc R s : 0 <= n <= len R -> n / MAX_XPC_BODY_READ_CHUNK < Z.of_nat fuel -> Live R s ->
  lives (body_chunks fuel STREAM_CLIENT_SERVER n acc) (fun b s' => b = acc ++ take (Z.to_nat n) R /\ Live (drop (Z.to_nat n) R) s') s.
Proof.
  revert n acc R s. induction fuel as [|fuel IH]; intros n acc R s Hn Hf Hs; cbn [body_chunks]; unfold lives.
  { pose proof (Z.div_pos n MAX_XPC_BODY_READ_CHUNK ltac:(lia) ltac:(done)). lia. }
  destruct (Z.eqb_spec n 0) as [->|Hn0]; [apply wpx_ret; by rewrite app_nil_r|]. cbv zeta. wpx_step.
  assert (MAX_XPC_BODY_READ_CHUNK = 16760832) as Hk by done. set (k := Z.min n MAX_XPC_BODY_READ_CHUNK).
  assert (0 <= k <= n) as Hkn by lia.
  eapply wpx_mono; [apply (read_stream_lives k R); [lia|done]| |done|done]. cbv beta. intros bs s1 [-> H1].
  destruct (Z.le_gt_cases n MAX_XPC_BODY_READ_CHUNK) as [Hle|Hgt].
  - assert (k = n) as -> by lia. rewrite Z.sub_diag. destruct fuel; cbn [body_chunks]; change (0 =? 0) with true; cbv iota; by apply wpx_ret.
  - assert (k = MAX_XPC_BODY_READ_CHUNK) as -> by lia. set (K := MAX_XPC_BODY_READ_CHUNK) in *.
    eapply wpx_mono; [apply (IH (n - K) _ (drop (Z.to_nat K) R)); [unfold len in *; rewrite length_drop; lia| |done]| |done|done].
    { replace n with (n - K + 1 * K) in Hf by lia. rewrite Z.div_add in Hf by lia. lia. }
    cbv beta. intros b s' [-> H']. rewrite drop_drop in H'. replace (Z.to_nat n) with (Z.to_nat K + Z.to_nat (n - K))%nat by lia.
    rewrite <- app_assoc, take_take_drop. by split.
Qed.
Lemma wpx_lift_ok {S E A} (a : A) (Q : A -> S -> Prop) R T s : Q a s -> wpx (st_lift (E := E) (Ok a)) Q R T s.
Proof. done. Qed.
(** A message that is all there is read. *)
Lemma read_xpc_lives m s : sendable m -> marked s = false -> Live (wire m) s ->
  wpx (read_xpc STREAM_CLIENT_SERVER) (fun _ _ => True) (fun _ => False) (fun _ => False) s.
Proof.
  intros Hm Hk Hs. unfold read_xpc, read_raw_xpc_message. wpx_step. wpx_step. apply wpx_get. unfold is_message_read_in_progress. fold (marked s). rewrite Hk.
  pose proof (wire_ge m) as Hge. pose proof (wire_len m) as Hlen. pose proof (len_nonneg (body_bytes m)) as Hb0.
  wpx_step. apply wpx_on_h2. eapply wpx_mono; [apply (read_stream_lives 24 (wire m)); [lia|done]| |done|done]. cbv beta. change (Z.to_nat 24) with 24%nat.
  intros h s1 [-> H1]. set (h := take 24 (wire m)). assert (length h = 24%nat) as Hh by (unfold h; rewrite length_take; lia).
  wpx_step. apply wpx_on_h2, wpx_mod. assert (Live (drop 24 (wire m)) (set_message_read_in_progress true s1)) as H2 by exact H1. revert H2. generalize (set_message_read_in_progress true s1).
  clear s1 H1. intros s1 H1.
  pose proof (wire_header m h Hm ltac:(lia) ltac:(exists (drop 24 (wire m)); left; symmetry; apply take_drop)) as E.
  rewrite !slice_ok in E by lia. cbn [mbind outcome_bind] in E.
  assert (decode_message (wire m) = Ok m) as Hdec.
  { pose proof (reads_message m Hm []) as H. rewrite app_nil_r in H. unfold decode_message. by rewrite H. }
  wpx_step. rewrite slice_ok by lia. apply wpx_lift_ok.
  wpx_step. rewrite slice_ok by lia. apply wpx_lift_ok.
  wpx_step. rewrite E. apply wpx_lift_ok.
  destruct (Z.eqb_spec (len (body_bytes m)) 0) as [E0|E0].
  - wpx_step. apply wpx_on_h2, wpx_mod, wpx_ret. cbn [fst snd]. rewrite app_nil_r.
    assert (h = wire m) as -> by (unfold h; apply take_ge; unfold len in *; lia). rewrite Hdec. by apply wpx_lift_ok.
  - wpx_step. apply wpx_on_h2. eapply wpx_mono; [apply (body_lives _ _ _ (drop 24 (wire m))); [unfold len in *; rewrite length_drop; lia| |done]| |done|done].
    { pose proof (Z.div_pos (len (body_bytes m)) MAX_XPC_BODY_READ_CHUNK Hb0 ltac:(done)). lia. }
    cbv beta. intros b s2 [-> H2]. wpx_step. apply wpx_on_h2, wpx_mod, wpx_ret. cbn [fst snd app].
    rewrite (take_ge (drop 24 (wire m))) by (rewrite length_drop; unfold len in *; lia). unfold h. rewrite take_drop, Hdec. by apply wpx_lift_ok.
Qed.
Section link.
Context `{A0 : !Allocation} `{L0 : !AllocationLaws A0}.

(** A connection that can take a message of [n] bytes on the request stream: it is in order, nothing
    is under way, and the message fits in what the framer may buffer. *)
Definition receptive (n : Z) (d : XpcConnection) : Prop :=
  in_order (framer d) /\ rx (io (framer d)) = [] /\ marked (framer d) = false /\ sending_message_in_progress d = false /\
  n <= MAX_BUFFERED_BYTES_PER_STREAM /\ buffered_bytes (bufs (framer d)) + n <= MAX_TOTAL_BUFFERED_BYTES.
(** The bytes are HEADERS and DATA frames of the request stream, within the frame size, and come in pieces. *)
Definition unbroken (evs : list rx_event) : Prop :=
  (exists gs, Forall plain gs /\ data evs = wires gs) /\ Forall event_ok evs /\ stalls evs = 0%nat.

Lemma plain_data gs : Forall plain gs -> data_on STREAM_CLIENT_SERVER gs = payloads gs.
Proof.
  unfold data_on, payloads. induction 1 as [|g gs (_ & _ & _ & Hi & _) _ IH]; [done|]. cbn [map concat]. rewrite IH. unfold data_for, body_of. rewrite Hi. by destruct (is_data g).
Qed.
Lemma plain_parses gs : Forall plain gs -> parses (wires gs) gs [].
Proof.
  intros H. apply parses_wires. eapply Forall_impl; [exact H|]. intros g Hg. pose proof Hg as (_ & _ & _ & _ & Hl). apply plain_ok in Hg as (? & ? & ? & _).
  unfold MAX_FRAME_PAYLOAD, MAX_NEGOTIATED_FRAME_SIZE in *. split; [lia|by split_and!].
Qed.
Lemma buffered_positive o s : Inv o s -> 0 <= buffered_bytes (bufs s).
Proof.
  intros [(E & _) _]. rewrite E. unfold buf_total. pose proof (len_nonneg (client_server_buf (bufs s))). pose proof (len_nonneg (server_client_buf (bufs s))).
  assert (0 <= msum len (stream_bufs (bufs s))) by (apply msum_nonneg, map_Forall_lookup; intros; apply len_nonneg).
  assert (0 <= lsum plen (pending_data_frames (bufs s))); [apply lsum_nonneg, Forall_forall; intros; apply len_nonneg|lia].
Qed.
Lemma deliver_live r evs c gs : CInv (limit_of c) (total_limit_of c) c -> content (framer c) STREAM_CLIENT_SERVER = [] ->
  receptive (len (wire r)) c -> Forall plain gs -> data evs = wires gs -> Forall event_ok evs -> stalls evs = 0%nat -> payloads gs = wire r ->
  Live (wire r) (framer (deliver evs c)).
Proof.
  intros [Hi _] Hct (Ho & Hx & _ & _ & Hl & Ht) Hgs Hd Hok Hst Hp. split; [exact Ho|]. exists gs. cbn [deliver framer set_framer io rx set_rx upd_io bufs].
  rewrite Hx. cbn [app]. assert (client_server_buf (bufs (framer c)) = []) as ->; [|rewrite Hp; pose proof (buffered_positive _ _ Hi); by split_and!].
  unfold content, inbox in Hct. apply app_nil in Hct as [Hct _]. by apply app_nil in Hct as [Hct _].
Qed.
Lemma recv_lives r c : sendable r -> CInv (limit_of c) (total_limit_of c) c -> parked_on (parked c) STREAM_CLIENT_SERVER = [] ->
  Live (wire r) (framer c) -> marked (framer c) = false -> sending_message_in_progress c = false -> 0 <= limit_of c ->
  wpx recv_client_server (fun _ _ => True) (fun _ => False) (fun _ => False) c.
Proof.
  intros Hr (Hi & Ha & Hn) Hpk HL Hm Hs Hl. pose proof HL as [Ho _]. unfold recv_client_server, recv_on_stream. wpx_step. unfold ensure_conn_reusable.
  wpx_step. apply wpx_on_framer, wpx_on_h2, open_lives; [done|]. wpx_step. apply wpx_get. unfold is_message_read_in_progress. cbn [framer set_framer]. fold (marked (framer c)).
  rewrite Hm. cbn [sending_message_in_progress set_framer]. rewrite Hs. apply wpx_ret.
  wpx_step. apply wpx_on_framer, wpx_on_h2. unfold finish_pending_write_for_read. wpx_step. apply open_lives; [done|]. unfold finish_pending_write. wpx_step. apply wpx_get.
  cbn [framer set_framer]. pose proof Ho as (_ & -> & _). apply wpx_ret. wpx_step. apply wpx_on_parked. cbn [parked set_framer].
  eapply wpx_mono; [apply (pop_spec _ _ STREAM_CLIENT_SERVER _ Hl Ha)| |done|done]. cbv beta. rewrite Hpk. intros o p [-> ->].
  unfold recv_fresh_on_stream, recv_fresh_on_stream_inner.
  assert (wpx (on_framer (read_xpc STREAM_CLIENT_SERVER)) (fun _ _ => True) (fun _ => False) (fun _ => False) (set_parked (parked c) (set_framer (framer c) (set_framer (framer c) c)))) as H.
  { apply wpx_on_framer. cbn [framer set_parked set_framer]. eapply wpx_mono; [by apply (read_xpc_lives r)|done..]. }
  revert H. unfold wpx, clear_on_error. by destruct (on_framer _ _) as [c' []].
Qed.

(** C6. What one side sends, the other receives. Let [c] send a request and succeed,
    and let the bytes it puts on the wire reach a peer [d] that runs the same code
    and has nothing unread on the request stream, cut into any pieces and with any
    stalls between them. When the peer's next receive on that stream returns a
    message, it is the request: same flags, same id, same body; and nothing more is
    left on the stream. And it does return it if the peer is in order and has room for the
    message, and the bytes are frames of that stream only (what a sender writes that
    has nothing else to finish or to answer) and come without a stall. *)
Theorem xpc_link b fl c c' id w d fs evs :
  xreachable c -> send_with_flags b fl c = (c', Ok id) -> sendable (request id fl b) ->
  out (framer c') = out (framer c) ++ w ->
  xreachable d -> parked_on (parked d) STREAM_CLIENT_SERVER = [] -> content (framer d) STREAM_CLIENT_SERVER = [] ->
  parses (input (framer d)) fs [] -> data evs = w ->
  match recv_client_server (deliver evs d) with
  | (d', Ok m) => m = request id fl b /\ content (framer d') STREAM_CLIENT_SERVER = []
  | (_, Err _) | (_, Pending) => ~ (receptive (len (wire (request id fl b))) d /\ unbroken evs)
  | _ => False
  end.
Proof.
  intros [Hlc Hc]%xreachable_CInv Hsend Hr Hout [Hld Hd]%xreachable_CInv Hpk Hct Hin Hw.
  pose proof (send_spec _ _ b fl c Hc) as H. unfold wpx in H. rewrite Hsend in H.
  destruct H as (_ & _ & _ & _ & _ & _ & _ & bs & Hbs & Hposts & _). rewrite encode_message_wire in Hbs by done. injection Hbs as <-.
  destruct (posts_data STREAM_CLIENT_SERVER (wire (request id fl b)) (framer c) (framer c') w ltac:(done) Hposts Hout) as (gs & Hgs & Hdata).
  rewrite <- Hw in Hgs. pose proof (content_deliver evs d fs gs STREAM_CLIENT_SERVER Hin Hgs) as Hcont. rewrite Hct, Hdata in Hcont.
  assert (CInv (limit_of d) (total_limit_of d) (deliver evs d)) as Hd' by exact Hd.
  pose proof (recv_on_spec _ _ Hld STREAM_CLIENT_SERVER _ Hd') as H. unfold wpx in H.
  assert (receptive (len (wire (request id fl b))) d -> unbroken evs -> wpx recv_client_server (fun _ _ => True) (fun _ => False) (fun _ => False) (deliver evs d)) as Hlive.
  { intros Hrec ((ps & Hps & Eps) & Hok & Hst). pose proof Hrec as (_ & _ & Hm & Hs & _). apply (recv_lives (request id fl b)); try done. eapply deliver_live; [done..|].
    pose proof (plain_data ps Hps) as <-. rewrite <- Hdata. f_equal. apply plain_parses in Hps. rewrite <- Eps in Hps.
    apply parses_frames in Hps, Hgs. change (frames_of []) with (@nil RawFrame) in *. rewrite app_nil_r in Hps, Hgs. congruence. }
  unfold recv_client_server in *.
  destruct (recv_on_stream STREAM_CLIENT_SERVER (deliver evs d)) as [d' [m|e| | |]] eqn:E; try done;
    try (intros [H1 H2]; specialize (Hlive H1 H2); unfold wpx in Hlive; by rewrite E in Hlive).
  destruct H as (_ & _ & _ & H). unfold next_message in H. change (parked (deliver evs d)) with (parked d) in H. rewrite Hpk in H.
  destruct H as [(raws & Hraws & Hmv) _]. apply Forall2_cons_inv_r in Hraws as (raw & l & [Hwh Hdec] & ->%Forall2_nil_inv_r & ->).
  cbn [concat] in Hmv. rewrite app_nil_r in Hmv. apply moved_content in Hmv. rewrite Hcont in Hmv. cbn [app] in Hmv.
  rewrite <- (app_nil_r (wire _)) in Hmv. by eapply front_message.
Qed.
End link.

(** ** Failures *)

Section failures.
Context `{A0 : !Allocation} `{L0 : !AllocationLaws A0}.

(** A request is sent whole, or the connection knows that it was not. When
    [send_with_flags] succeeds it returns the connection's counter, moves it on by
    one, and the DATA that went out on stream 1 is exactly the encoding of the
    request with that id, with nothing of it left to write. When it fails, either
    the framer is untouched or the marker that makes every later call refuse is
    set; when it is dropped, the marker is set. What is on the wire then is a
    prefix of the encoding. *)
Theorem xpc_send_exact b fl c :
  xreachable c ->
  match send_with_flags b fl c with
  | (c', Ok id) => sent_message b fl id c c' /\ in_u 64 id
  | (c', Err _) => framer c' = framer c \/ cut_send b fl c c'
  | (c', Pending) => cut_send b fl c c'
  | _ => False
  end.
Proof.
  intros [Hl Hc]%xreachable_CInv. pose proof (send_spec _ _ b fl c Hc) as H. unfold wpx in H.
  destruct (send_with_flags b fl c) as [c' [id|e| | |]]; try done; try by destruct H as (_ & _ & H).
  destruct H as (_ & _ & _ & _ & H). split; [done|]. destruct H as [-> _]. by destruct Hc as (_ & _ & ?).
Qed.

(** Every call comes back, and a misaligned connection answers no call. In any
    state that calls can reach, a call returns a value or an error or waits for the
    socket: it does not panic, no debug assertion fails, and the loops end. Once a
    message was cut short, or the framer was poisoned, each call is refused with
    an error and changes nothing. *)
Theorem xpc_calls_return p c :
  xreachable c ->
  match (xcall p c).2 with Ok _ | Err _ | Pending => True | _ => False end /\
  (unusable c = true -> exists e, xcall p c = (c, Err e)).
Proof.
  intros [Hl Hc]%xreachable_CInv. split.
  - pose proof (xcall_good _ _ Hl p c Hc) as H. unfold wpx in H. by destruct (xcall p c) as [c' [a|e| | |]].
  - intros [e He]%ensure_refuses. exists e.
    destruct p; cbn [xcall]; unfold send_with_flags, recv_on_stream, recv_reply_on_stream, recv_any_stream;
      unfold mbind, st_bind; by rewrite He.
Qed.
End failures.

(** ** Witnesses *)

#[local] Existing Instance tight.
#[local] Existing Instance tight_laws.

Definition idle : XpcConnection := conn_new (set_wr [] fresh).
Lemma idle_reachable : xreachable idle.
Proof.
  exists (set_wr [] fresh), DEFAULT_PENDING_BYTES_PER_STREAM, DEFAULT_PENDING_BYTES_CONNECTION.
  split; [|split; [done|split; [done|apply rtc_refl]]].
  apply (reachable_step fresh); [apply fresh_reachable|]. pose proof (step_socket [] [] fresh) as H.
  by rewrite app_nil_r in H.
Qed.
Lemma deliver_reachable evs c : xreachable c -> wr (io (framer c)) = [] -> xreachable (deliver evs c).
Proof.
  intros (f & pl & cl & Hf & Hp & Hc & Hr) Hw. exists f, pl, cl. split_and!; [done|done|done|]. eapply rtc_r; [exact Hr|].
  pose proof (xstep_socket evs [] c) as H. rewrite <- Hw in H at 1. destruct c as [[[] ? ? ? ? ?] ? ? ?]. cbn in Hw. subst. exact H.
Qed.

Definition note (id : Z) : XpcMessage := mkMessage (ALWAYS_SET + DATA) id (Some (Dictionary [(map bZ [0x6B], Uint64 id)])).
(** The peer sends messages 9 and 5 on stream 3, the first split over two frames. *)
Definition notes : bytes := wire (note 9) ++ wire (note 5).
Definition notified : XpcConnection :=
  deliver [Chunk (build_data_frame 3 (take 30 notes)); RxStall; Chunk (build_data_frame 3 (drop 30 notes))] idle.
Lemma notified_reachable : xreachable notified.
Proof. apply deliver_reachable; [apply idle_reachable|vm_compute; reflexivity]. Qed.

(** The wait for message 5 is dropped inside the body of message 9. *)
Definition cut_short : XpcConnection := (xcall (RecvReply 3 5) notified).1.
Definition notified_twice : XpcConnection :=
  deliver [Chunk (build_data_frame 3 notes)] idle.
Lemma notified_twice_reachable : xreachable notified_twice.
Proof. apply deliver_reachable; [apply idle_reachable|vm_compute; reflexivity]. Qed.
Lemma cut_short_reachable : xreachable cut_short.
Proof.
  destruct notified_reachable as (f & pl & cl & Hf & Hp & Hc & Hr). exists f, pl, cl. split_and!; [done|done|done|].
  eapply rtc_r; [exact Hr|]. apply xstep_call.
Qed.

Lemma xpc_parked_accounted_witness :
  total_bytes (pending_budget (parked (recv_reply_on_stream 3 5 notified_twice).1)) = 137 /\
  total_bytes (pending_budget (parked cut_short)) <= connection_limit (pending_budget (parked cut_short)).
Proof. split; [vm_compute; reflexivity|]. apply (xpc_parked_accounted cut_short cut_short_reachable). Defined.
Lemma xpc_reply_exact_witness :
  (recv_reply_on_stream 3 5 notified_twice).2 = Ok (note 5) /\
  parked_on (parked (recv_reply_on_stream 3 5 notified_twice).1) 3 = [note 9] /\
  match recv_reply_on_stream 3 5 notified_twice with
  | (c', Ok m) => Xpc.msg_id m = 5 /\ answered (limit_of notified_twice) (total_limit_of notified_twice) 3 5 m notified_twice c'
  | (c', Pending) => waiting (limit_of notified_twice) (total_limit_of notified_twice) 3 5 notified_twice c'
  | (c', Err _) => forall i, i <> 3 -> parked_on (parked c') i = parked_on (parked notified_twice) i
  | _ => False
  end.
Proof.
  split; [vm_compute; reflexivity|]. split; [vm_compute; reflexivity|]. exact (xpc_reply_exact 3 5 notified_twice notified_twice_reachable).
Defined.
Lemma xpc_send_exact_witness :
  match send_with_flags (Uint64 7) WANTING_REPLY idle with
  | (c', Ok id) => sent_message (Uint64 7) WANTING_REPLY id idle c' /\ in_u 64 id
  | (c', Err _) => framer c' = framer idle \/ cut_send (Uint64 7) WANTING_REPLY idle c'
  | (c', Pending) => cut_send (Uint64 7) WANTING_REPLY idle c'
  | _ => False
  end.
Proof. exact (xpc_send_exact (Uint64 7) WANTING_REPLY idle idle_reachable). Defined.
Lemma xpc_calls_return_witness : unusable cut_short = true /\ exists e, xcall (RecvOn 3) cut_short = (cut_short, Err e).
Proof.
  assert (unusable cut_short = true) as Hu by (vm_compute; reflexivity). split; [exact Hu|].
  apply (xpc_calls_return (RecvOn 3) cut_short cut_short_reachable), Hu.
Defined.

Definition asked : XpcConnection := (send_with_flags (Uint64 7) WANTING_REPLY idle).1.
Definition asked_wire : bytes := drop (length (out (framer idle))) (out (framer asked)).
Definition arrival : list rx_event := [Chunk (take 20 asked_wire); Chunk (drop 20 asked_wire)].
Lemma idle_receptive : receptive (len (wire (request 1 WANTING_REPLY (Uint64 7)))) idle /\ unbroken arrival.
Proof.
  split.
  - assert (pending_window_updates (flow (framer idle)) = ∅) as Hw by (vm_compute; reflexivity). unfold receptive, in_order. rewrite Hw.
    split_and!; vm_compute; congruence.
  - split; [|split; [repeat constructor; vm_compute; congruence|vm_compute; reflexivity]].
    exists [mkFrame FRAME_HEADERS FLAG_END_HEADERS STREAM_CLIENT_SERVER []; mkFrame FRAME_DATA 0 STREAM_CLIENT_SERVER (wire (request 1 WANTING_REPLY (Uint64 7)))].
    split; [|vm_compute; reflexivity]. apply Forall_cons; split; [|apply Forall_singleton]; (split; [vm_compute; auto|unfold in_u; split_and!; vm_compute; congruence]).
Qed.
Lemma xpc_link_witness :
  (recv_client_server (deliver arrival idle)).2 = Ok (request 1 WANTING_REPLY (Uint64 7)) /\
  match recv_client_server (deliver arrival idle) with
  | (d', Ok m) => m = request 1 WANTING_REPLY (Uint64 7) /\ content (framer d') STREAM_CLIENT_SERVER = []
  | (_, Err _) | (_, Pending) => ~ (receptive (len (wire (request 1 WANTING_REPLY (Uint64 7)))) idle /\ unbroken arrival)
  | _ => False
  end.
Proof.
  split; [vm_compute; reflexivity|].
  apply (xpc_link (Uint64 7) WANTING_REPLY idle asked 1 asked_wire idle [] arrival).
  - exact idle_reachable.
  - vm_compute; reflexivity.
  - repeat split; vm_compute; try congruence. lia.
  - vm_compute; reflexivity.
  - exact idle_reachable.
  - vm_compute; reflexivity.
  - vm_compute; reflexivity.
  - replace (input (framer idle)) with (@nil byte) by (vm_compute; reflexivity). constructor.
  - vm_compute; reflexivity.
Defined.
End XpcConnSpec.
