(* ===== verification/Rsd.v ===== *)
(** Remote service discovery
    ([crates/ios-core/src/xpc/rsd.rs], the handshake and the service registry).

    The device sends one XPC dictionary on stream 1 that names its services and their
    ports. [parse_handshake_message] turns it into a registry, a [HashMap] from
    service names to descriptors; [get_port] looks a service up in it. Strings are
    their UTF-8 bytes. *)

From S2P Require Import Prelude Text XpcMessage H2Framer H2Read H2Inv H2Conn H2Recv H2Mark XpcPending XpcConn XpcConnSpec.

Module Rsd.
Import Text Xpc H2 H2Inv H2Conn H2Recv H2Mark XpcConn XpcConnSpec.

Definition RSD_PORT : Z := 58783.

(** ** The registry *)

Record ServiceDescriptor := mkService { port : Z; features : list bytes }.
Definition service_new (port : Z) : ServiceDescriptor := mkService port [].
Definition descriptor_supports_feature (d : ServiceDescriptor) (feature : bytes) : bool :=
  match features d with [] => true | l => existsb (fun item => bool_decide (item = feature)) l end.

Record RsdHandshake := mkHandshake { udid : bytes; services : gmap bytes ServiceDescriptor }.

(** [format!("{service}.shim.remote")] *)
Definition shim (service : bytes) : bytes := service ++ str ".shim.remote".
Definition get_service_features (h : RsdHandshake) (service : bytes) : option (list bytes) :=
  features <$> services h !! service.
Definition get_resolved_service_features (h : RsdHandshake) (service : bytes) : option (list bytes) :=
  match get_service_features h service with
  | Some features => Some features
  | None => features <$> services h !! shim service
  end.
Definition supports_feature (h : RsdHandshake) (service feature : bytes) : option bool :=
  (fun d => descriptor_supports_feature d feature) <$> services h !! service.

(** ** Parsing *)

(** [str::parse::<u16>] *)
Definition parse_u16 (s : bytes) : option Z := parse_uint 10 65535 s.

(** [u16::try_from(n).ok()] *)
Definition u16_try_from (n : Z) : option Z := if n <=? 65535 then Some n else None.

Definition get (key : string) (d : list (bytes * XpcValue)) : option XpcValue := imap_lookup (str key) d.

Definition parse_port (v : XpcValue) : option Z :=
  match v with
  | String s => parse_u16 s
  | Uint64 n => u16_try_from n
  | _ => None
  end.
Definition parse_features (svc : list (bytes * XpcValue)) : list bytes :=
  match (get "Properties" svc ≫= as_dict) ≫= get "Features" with
  | Some (Array l) => omap as_str l
  | _ => []
  end.
(** The descriptor of one entry of [Services], if it has a port. *)
Definition parse_service (v : XpcValue) : option ServiceDescriptor :=
  svc_dict ← as_dict v;
  port ← get "Port" svc_dict ≫= parse_port;
  Some (mkService port (parse_features svc_dict)).
(** [for (name, svc_val) in svc_map]: a later entry replaces an earlier one. *)
Definition add_service (m : gmap bytes ServiceDescriptor) (kv : bytes * XpcValue) : gmap bytes ServiceDescriptor :=
  match parse_service kv.2 with Some d => <[kv.1 := d]> m | None => m end.
Definition parse_services (v : option XpcValue) : gmap bytes ServiceDescriptor :=
  match v with
  | Some (Dictionary svc_map) => foldl add_service ∅ svc_map
  | _ => ∅
  end.

(** [ok_or_else] *)
Definition ok_or {A} (o : option A) (text : string) : outcome XpcError A :=
  match o with Some a => Ok a | None => Err (Tls (Msg text [])) end.
Definition parse_handshake_message (m : XpcMessage) : outcome XpcError RsdHandshake :=
  dict ← ok_or (body m ≫= as_dict) "RSD: expected XPC dict body";
  message_type ← ok_or (get "MessageType" dict ≫= as_str) "RSD: missing Handshake MessageType";
  if negb (bool_decide (message_type = str "Handshake"))
  then Err (Tls (Msg "RSD: unexpected MessageType; expected Handshake" [])) else
  udid ← ok_or (((get "Properties" dict ≫= as_dict) ≫= get "UniqueDeviceID") ≫= as_str) "RSD: missing UniqueDeviceID";
  Ok (mkHandshake udid (parse_services (get "Services" dict))).

(** ** The handshake *)

(** [for _ in 0..6], with the error of the last message that was not a handshake. *)
Fixpoint handshake_tries (n : nat) (last_err : option XpcError) : fx RsdHandshake :=
  match n with
  | O => st_fail (default (Tls (Msg "RSD: no handshake message received" [])) last_err)
  | S n =>
      m ← read_xpc_on_client_server;
      match parse_handshake_message m with
      | Err e => handshake_tries n (Some e)
      | o => st_lift o
      end
  end.
Definition read_rsd_handshake : fx RsdHandshake := handshake_tries 6 None.
Definition handshake_on_framer : fx RsdHandshake := read_rsd_handshake.

(** [handshake] once the TCP connection stands: both stages under one deadline. *)
Definition handshake (rx : list rx_event) (wr : list wr_event) : H2Framer * outcome XpcError RsdHandshake :=
  let '(f, o) := connect rx wr in
  match (_ ← st_lift (map_err (fun e => Tls (h2_text "H2: " e)) o); read_rsd_handshake) f with
  | (f, Pending) => (f, Err (XpcIo (Msg "RSD handshake with {sock_addr} timed out" [])))
  | r => r
  end.

(** ** Properties *)







(** *** What an entry of [Services] says *)




(** *** The first handshake on stream 1 *)

Lemma parse_returns m : returns (parse_handshake_message m).
Proof.
  assert (forall A (x : option A) t, returns (ok_or x t)) as Hok by (by intros A [a|] t).
  unfold parse_handshake_message. apply returns_bind; [done|]. intros dict _. apply returns_bind; [done|]. intros t _.
  destruct (negb _); [done|]. apply returns_bind; [done|done].
Qed.
Definition not_handshake (m : XpcMessage) : Prop := exists e, parse_handshake_message m = Err e.
(** Some messages that are no handshake, then the handshake [h]. *)
Definition handshake_found (n : nat) (h : RsdHandshake) (s s' : H2Framer) : Prop :=
  exists ms m, fetched STREAM_CLIENT_SERVER (ms ++ [m]) s s' /\ Forall not_handshake ms /\ parse_handshake_message m = Ok h /\
    message_wf m /\ (length ms < n)%nat.
Lemma decoded_wf raw m : decode_message raw = Ok m -> message_wf m.
Proof.
  intros Hd. pose proof (decode_message_wp raw) as H. unfold decode_message in Hd. unfold wp in H.
  destruct (decode_message_st raw) as [b o]. cbn in Hd. subst. apply H.
Qed.
Lemma handshake_tries_spec n last s :
  Inv session s ->
  wpx (handshake_tries n last) (fun h s' => Inv session s' /\ handshake_found n h s s') (Inv session) (Inv session) s.
Proof.
  revert last s. induction n as [|n IH]; intros last s Hi; cbn [handshake_tries]; [by apply wpx_fail|]. wpx_step.
  eapply wpx_mono; [by apply (read_xpc_spec session)| |done|by intros s' []]. cbv beta. intros m s1 ([Hi1 _] & Hm).
  pose proof (parse_returns m) as Hr. destruct (parse_handshake_message m) as [h|e| | |] eqn:Em; try done.
  - split; [done|]. exists [], m. cbn [app]. split; [eapply fetched_cons; [done|by apply fetched_nil]|].
    split; [constructor|]. split; [done|]. split; [|cbn; lia]. destruct Hm as (raw & _ & Hd & _). by eapply decoded_wf.
  - eapply wpx_mono; [by apply IH| |done|done]. intros h s' (Hi' & ms & m' & Hfe & Hno & Hp & Hwf & Hl). split; [done|].
    exists (m :: ms), m'. split; [by eapply fetched_cons|]. split; [constructor; [by exists e|done]|]. split; [done|]. split; [done|]. cbn; lia.
Qed.

(** The handshake is the first one the device sends. When [read_rsd_handshake]
    returns a registry, it comes from a well-formed message of stream 1; the at
    most five messages before it, all taken whole and in order, were no handshakes.
    The reader neither panics nor loops: otherwise it returns an error or waits. *)
Theorem rsd_first_handshake s :
  reachable s ->
  match read_rsd_handshake s with
  | (s', Ok h) => handshake_found 6 h s s'
  | (_, Err _) | (_, Pending) => True
  | _ => False
  end.
Proof.
  intros Hi%reachable_Inv. pose proof (handshake_tries_spec 6 None s Hi) as H. unfold wpx in H. unfold read_rsd_handshake.
  destruct (handshake_tries 6 None s) as [s' [h|e| | |]]; try done. by destruct H.
Qed.

(** ** Witnesses *)

Definition sample_services : list (bytes * XpcValue) :=
  [(str "com.apple.afc.shim.remote", Dictionary [(str "Port", String (str "+49152"))]);
   (str "com.apple.internal", Dictionary [(str "Port", Uint64 65536)])].
Definition sample_handshake : XpcMessage :=
  mkMessage (ALWAYS_SET + DATA) 1 (Some (Dictionary
    [(str "MessageType", String (str "Handshake"));
     (str "Properties", Dictionary [(str "UniqueDeviceID", String (str "00008030"))]);
     (str "Services", Dictionary sample_services)])).
Definition sample_registry : RsdHandshake :=
  match parse_handshake_message sample_handshake with Ok h => h | _ => mkHandshake [] ∅ end.


(** A heartbeat first, then the handshake. *)
Definition greeted : H2Framer :=
  set_rx (rx (io fresh) ++ [Chunk (build_data_frame 1 (wire bootstrap_terminate ++ wire sample_handshake))]) (set_wr [] fresh).
Lemma greeted_reachable : reachable greeted.
Proof. apply (reachable_step fresh); [apply fresh_reachable|apply step_socket]. Qed.
Lemma rsd_first_handshake_witness :
  (read_rsd_handshake greeted).2 = Ok sample_registry /\
  match read_rsd_handshake greeted with
  | (s', Ok h) => handshake_found 6 h greeted s'
  | (_, Err _) | (_, Pending) => True
  | _ => False
  end.
Proof. split; [vm_compute; reflexivity|]. exact (rsd_first_handshake greeted greeted_reachable). Defined.

End Rsd.
