(* ===== verification/Afc.v ===== *)
(** Apple File Conduit, the file protocol
    ([crates/ios-core/src/services/afc/mod.rs], [crates/ios-core/src/proto/afc.rs]).

    A request or reply is a 40-byte header, a header payload (paths, handles, status)
    and a payload (file data). [AfcClient] keeps the stream and the packet counter;
    each public method sends one request after the other and reads one reply for
    each. A [HashMap] of strings is a [gmap] of byte strings. A reader whose content
    is written to a file is a schedule of chunks, as a socket is. *)

From S2P Require Import Prelude Socket Utf8 Text.

Module Afc.
Import Net Socket Text.

(** ** Codes *)

Module StatusCode.
Inductive AfcStatusCode :=
| Success | Unknown | OperationHeaderInvalid | NoResources | ReadError | WriteError | UnknownPacketType
| InvalidArgument | ObjectNotFound | ObjectIsDir | PermDenied | ServiceNotConnected | Timeout | TooMuchData
| EndOfData | OpNotSupported | ObjectExists | ObjectBusy | NoSpaceLeft | OpWouldBlock | IoError | OpInterrupted
| OpInProgress | InternalError | MuxError | NoMem | NotEnoughData | DirNotEmpty
| Other (code : Z).

Definition from_u64 (code : Z) : AfcStatusCode :=
  match code with
  | 0 => Success | 1 => Unknown | 2 => OperationHeaderInvalid | 3 => NoResources | 4 => ReadError | 5 => WriteError
  | 6 => UnknownPacketType | 7 => InvalidArgument | 8 => ObjectNotFound | 9 => ObjectIsDir | 10 => PermDenied
  | 11 => ServiceNotConnected | 12 => Timeout | 13 => TooMuchData | 14 => EndOfData | 15 => OpNotSupported
  | 16 => ObjectExists | 17 => ObjectBusy | 18 => NoSpaceLeft | 19 => OpWouldBlock | 20 => IoError
  | 21 => OpInterrupted | 22 => OpInProgress | 23 => InternalError | 30 => MuxError | 31 => NoMem
  | 32 => NotEnoughData | 33 => DirNotEmpty | _ => Other code
  end.
Definition is_success (c : AfcStatusCode) : bool := match c with Success => true | _ => false end.
End StatusCode.

Module Opcode.
Inductive AfcOpcode :=
| Status | Data | ReadDir | WritePart | TruncateFile | RemovePath | MakePath | GetFileInfo | GetDeviceInfo | WriteFile
| FileRefOpen | FileRefOpenResult | FileRefRead | FileRefWrite | FileRefSeek | FileRefTell | FileRefTellResult
| FileRefClose | FileRefSetFileSize | GetConnectionInfo | SetConnectionOptions | RenamePath | SetFSBlockSize
| SetSocketBlockSize | FileRefLock | MakeLink | GetFileHash | SetModTime | GetFileHashRange | FileRefFlush
| SetFileModTime | RemovePathAndContents.

(** [opcode as u64] *)
Definition to_u64 (o : AfcOpcode) : Z :=
  match o with
  | Status => 0x01 | Data => 0x02 | ReadDir => 0x03 | WritePart => 0x06 | TruncateFile => 0x07 | RemovePath => 0x08
  | MakePath => 0x09 | GetFileInfo => 0x0A | GetDeviceInfo => 0x0B | WriteFile => 0x0C | FileRefOpen => 0x0D
  | FileRefOpenResult => 0x0E | FileRefRead => 0x0F | FileRefWrite => 0x10 | FileRefSeek => 0x11 | FileRefTell => 0x12
  | FileRefTellResult => 0x13 | FileRefClose => 0x14 | FileRefSetFileSize => 0x15 | GetConnectionInfo => 0x16
  | SetConnectionOptions => 0x17 | RenamePath => 0x18 | SetFSBlockSize => 0x19 | SetSocketBlockSize => 0x1A
  | FileRefLock => 0x1B | MakeLink => 0x1C | GetFileHash => 0x1D | SetModTime => 0x1E | GetFileHashRange => 0x1F
  | FileRefFlush => 0x20 | SetFileModTime => 0x21 | RemovePathAndContents => 0x22
  end.
End Opcode.
Import Opcode(AfcOpcode, to_u64).
Import StatusCode(AfcStatusCode).

Inductive AfcError :=
| AfcIo
| AfcStatus (c : AfcStatusCode)
| AfcProtocol (m : msg).
#[export] Instance afc_io_error : Socket.IoError AfcError := AfcIo.

(** ** Packets *)

Definition AFC_MAGIC : Z := 0x4141504C36414643.
Definition HEADER_SIZE : Z := 40.

Record AfcHeader := mkHeader { magic : Z; entire_len : Z; this_len : Z; h_packet_num : Z; operation : Z }.
Definition header_new (packet_num opcode header_payload_len payload_len : Z) : AfcHeader :=
  let this_len := HEADER_SIZE + header_payload_len in
  mkHeader AFC_MAGIC (this_len + payload_len) this_len packet_num opcode.
(** [as_bytes] and [ref_from_bytes] of the packed little-endian fields. *)
Definition as_bytes (h : AfcHeader) : bytes :=
  le_bytes 8 (magic h) ++ le_bytes 8 (entire_len h) ++ le_bytes 8 (this_len h) ++ le_bytes 8 (h_packet_num h) ++
  le_bytes 8 (operation h).
Definition ref_from_bytes (l : bytes) : AfcHeader :=
  let field i := le_Z (take 8 (drop (8 * i) l)) in
  mkHeader (field 0%nat) (field 1%nat) (field 2%nat) (field 3%nat) (field 4%nat).

Record Packet := mkPacket { opcode : Z; header_payload : bytes; payload : bytes }.

(** ** The client *)

Record AfcClient := mkClient { stream : Socket; packet_num : Z }.
Abbreviation afc := (st AfcClient AfcError).

Definition on_stream {A} (m : st Socket AfcError A) : afc A := fun c =>
  let '(s, o) := m (stream c) in (mkClient s (packet_num c), o).

Definition FILE_MODE_READ_ONLY : Z := 0x00000001.
Definition FILE_MODE_READ_WRITE : Z := 0x00000002.
Definition FILE_MODE_WRITE_ONLY_CREATE_TRUNC : Z := 0x00000003.
Definition LOCK_EXCLUSIVE : Z := Z.lor 2 4.
Definition LOCK_UNLOCK : Z := Z.lor 8 4.
Definition MAX_IN_MEMORY_FILE : Z := 256 * 1024 * 1024.
Definition MAX_AFC_MSG : Z := 256 * 1024 * 1024.

Definition client_new (s : Socket) : AfcClient := mkClient s 1.

(** [self.packet_num += 1] on a [u64], wrapping as in a release build. *)
Definition next_num (n : Z) : Z := (n + 1) mod 2 ^ 64.
Definition next_pnum : afc Z :=
  c ← st_get;
  st_mod (fun c => mkClient (stream c) (next_num (packet_num c))) ;;
  mret (packet_num c).

Definition send (op : AfcOpcode) (hp pl : bytes) : afc unit :=
  pnum ← next_pnum;
  on_stream (
    write_all (as_bytes (header_new pnum (to_u64 op) (len hp) (len pl))) ;;
    (match hp with [] => mret tt | _ => write_all hp end) ;;
    (match pl with [] => mret tt | _ => write_all pl end) ;;
    flush).

Definition recv : afc Packet :=
  hdr_buf ← on_stream (read_exact HEADER_SIZE);
  let hdr := ref_from_bytes hdr_buf in
  if negb (magic hdr =? AFC_MAGIC)
  then st_fail (AfcProtocol (Msg "bad AFC magic: 0x{:016X}" [magic hdr])) else
  let entire_len := entire_len hdr in
  let this_len := this_len hdr in
  let opcode := operation hdr in
  if this_len <? HEADER_SIZE
  then st_fail (AfcProtocol (Msg "AFC this_len is smaller than the header: {this_len_raw}" [this_len])) else
  if entire_len <? this_len
  then st_fail (AfcProtocol (Msg "AFC this_len exceeds entire_len: this_len={this_len_raw} entire_len={entire_len_raw}" [this_len; entire_len])) else
  if usize_max <? entire_len
  then st_fail (AfcProtocol (Msg "AFC entire_len does not fit in usize: {entire_len_raw}" [entire_len])) else
  if usize_max <? this_len
  then st_fail (AfcProtocol (Msg "AFC this_len does not fit in usize: {this_len_raw}" [this_len])) else
  let frame_body_len := entire_len - HEADER_SIZE in
  if MAX_AFC_MSG <? frame_body_len
  then st_fail (AfcProtocol (Msg "AFC frame too large: body={frame_body_len} limit={MAX_AFC_MSG}" [frame_body_len; MAX_AFC_MSG])) else
  let header_payload_len := this_len - HEADER_SIZE in
  let payload_len := entire_len - this_len in
  if (opcode =? to_u64 Opcode.Status) && (header_payload_len <? 8)
  then st_fail (AfcProtocol (Msg "AFC Status response is missing its 8-byte status code" [])) else
  header_payload ← (if 0 <? header_payload_len then on_stream (read_exact header_payload_len) else mret []);
  payload ← (if 0 <? payload_len then on_stream (read_exact payload_len) else mret []);
  if opcode =? to_u64 Opcode.Status then
    raw ← st_lift (slice header_payload 0 8);
    let code := StatusCode.from_u64 (le_Z raw) in
    if StatusCode.is_success code then mret (mkPacket opcode header_payload payload)
    else st_fail (AfcStatus code)
  else mret (mkPacket opcode header_payload payload).

(** One request and its reply. *)
Definition exchange (op : AfcOpcode) (hp pl : bytes) : afc Packet := send op hp pl ;; recv.

(** ** Parsing of replies *)

Definition split_null_strings (data : bytes) : list bytes :=
  map utf8_lossy (filter (fun s => s <> []) (split_on x00 data)).

(** [while let (Some(k), Some(v)) = (it.next(), it.next())] *)
Fixpoint insert_pairs (parts : list bytes) (m : gmap bytes bytes) : gmap bytes bytes :=
  match parts with
  | k :: v :: parts => insert_pairs parts (<[k := v]> m)
  | _ => m
  end.
Definition parse_kv_pairs (data : bytes) : gmap bytes bytes := insert_pairs (split_null_strings data) ∅.

Record AfcFileInfo := mkInfo {
  name : option bytes;
  file_type : option bytes;
  size : option Z;
  mode : option Z;
  link_target : option bytes;
  raw : gmap bytes bytes;
}.
Definition nonempty (s : bytes) : option bytes := match s with [] => None | _ => Some s end.
Definition slash : byte := x2f.
Definition parse_file_info (path : bytes) (raw : gmap bytes bytes) : AfcFileInfo :=
  mkInfo
    (last (split_on slash path) ≫= nonempty)
    (raw !! str "st_ifmt")
    (raw !! str "st_size" ≫= parse_uint 10 (2 ^ 64 - 1))
    (raw !! str "st_mode" ≫= parse_uint 8 u32_max)
    (raw !! str "st_linktarget" ≫= nonempty)
    raw.

Definition resolve_link_target (path : bytes) (info : AfcFileInfo) : bytes :=
  if bool_decide (file_type info = Some (str "S_IFLNK")) then
    match link_target info with
    | Some target =>
        match target with
        | b :: _ =>
            if decide (b = slash) then target else
            match rfind slash path with
            | Some O => slash :: target
            | Some i => take i path ++ slash :: target
            | None => target
            end
        | [] =>
            match rfind slash path with
            | Some O => slash :: target
            | Some i => take i path ++ slash :: target
            | None => target
            end
        end
    | None => path
    end
  else path.

(** ** Operations *)

Definition c_str (s : bytes) : bytes := s ++ [x00].

Definition list_dir (path : bytes) : afc (list bytes) :=
  pkt ← exchange Opcode.ReadDir (c_str path) [];
  mret (filter (fun s => s <> str "." /\ s <> str "..") (split_null_strings (payload pkt))).
Definition stat (path : bytes) : afc (gmap bytes bytes) :=
  pkt ← exchange Opcode.GetFileInfo (c_str path) [];
  mret (parse_kv_pairs (payload pkt)).
Definition stat_info (path : bytes) : afc AfcFileInfo :=
  raw ← stat path;
  mret (parse_file_info path raw).
Definition make_dir (path : bytes) : afc unit := exchange Opcode.MakePath (c_str path) [] ;; mret tt.
Definition remove (path : bytes) : afc unit := exchange Opcode.RemovePath (c_str path) [] ;; mret tt.
Definition remove_all (path : bytes) : afc unit := exchange Opcode.RemovePathAndContents (c_str path) [] ;; mret tt.
Definition rename (from to : bytes) : afc unit := exchange Opcode.RenamePath (c_str from ++ c_str to) [] ;; mret tt.
Definition device_info : afc (gmap bytes bytes) :=
  pkt ← exchange Opcode.GetDeviceInfo [] [];
  mret (parse_kv_pairs (payload pkt)).

Definition file_open (path : bytes) (mode : Z) : afc Z :=
  pkt ← exchange Opcode.FileRefOpen (le_bytes 8 mode ++ c_str path) [];
  if len (header_payload pkt) <? 8
  then st_fail (AfcProtocol (Msg "FileRefOpenResult: short response" [])) else
  raw ← st_lift (slice (header_payload pkt) 0 8);
  mret (le_Z raw).
Definition file_read (fd size : Z) : afc bytes :=
  pkt ← exchange Opcode.FileRefRead (le_bytes 8 fd ++ le_bytes 8 size) [];
  mret (payload pkt).
Definition file_write (fd : Z) (data : bytes) : afc unit :=
  exchange Opcode.FileRefWrite (le_bytes 8 fd) data ;; mret tt.
Definition file_close (fd : Z) : afc unit := exchange Opcode.FileRefClose (le_bytes 8 fd) [] ;; mret tt.

Definition open_file (path : bytes) (mode : Z) : afc Z := file_open path mode.
Definition lock_file (fd operation : Z) : afc unit :=
  exchange Opcode.FileRefLock (le_bytes 8 fd ++ le_bytes 8 operation) [] ;; mret tt.
Definition close_file (fd : Z) : afc unit := file_close fd.

Definition READ_CHUNK : Z := 65536.
(** Every round reads a reply and so at least its header. *)
Fixpoint read_loop (fuel : nat) (fd : Z) (data : bytes) : afc bytes :=
  match fuel with
  | O => st_lift OutOfFuel
  | S fuel =>
      buf ← file_read fd READ_CHUNK;
      match buf with
      | [] => mret data
      | _ =>
          if MAX_IN_MEMORY_FILE <? len data + len buf then
            file_close fd ;;
            st_fail (AfcProtocol (Msg "{path} exceeds the {} byte in-memory read limit" [MAX_IN_MEMORY_FILE]))
          else read_loop fuel fd (data ++ buf)
      end
  end.
Definition read_file (path : bytes) : afc bytes :=
  fd ← file_open path FILE_MODE_READ_ONLY;
  c ← st_get;
  data ← read_loop (S (rx_bytes (stream c))) fd [];
  file_close fd ;;
  mret data.

Definition resolve_read_path (path : bytes) : afc bytes :=
  info ← stat_info path;
  mret (resolve_link_target path info).
Definition read_file_follow_links (path : bytes) : afc bytes :=
  target ← resolve_read_path path;
  read_file target.

(** *** Writing from a reader *)

Definition WRITE_CHUNK : nat := Z.to_nat (1024 * 1024).
Abbreviation piping := (st (AfcClient * list rx_event) AfcError).
Definition on_client {A} (m : afc A) : piping A := fun s => let '(c, o) := m s.1 in ((c, s.2), o).
(** [reader.read(&mut buf)] *)
Definition on_reader (k : nat) : piping bytes := fun s => let '(l, o) := rx_read AfcIo k s.2 in ((s.1, l), o).

Fixpoint pipe_loop (fuel : nat) (fd : Z) : piping unit :=
  match fuel with
  | O => st_lift OutOfFuel
  | S fuel =>
      buf ← on_reader WRITE_CHUNK;
      match buf with
      | [] => mret tt
      | _ => on_client (file_write fd buf) ;; pipe_loop fuel fd
      end
  end.
(** The handle is closed whether the copy succeeded or not; its error comes first. *)
Definition close_after (fd : Z) (m : piping unit) : piping unit := fun s =>
  match m s with
  | (s, Ok _) => on_client (file_close fd) s
  | (s, Err e) =>
      match on_client (file_close fd) s with
      | (s, Ok _) | (s, Err _) => (s, Err e)
      | r => r
      end
  | r => r
  end.
Definition write_file_from_reader (path : bytes) : piping unit :=
  fd ← on_client (file_open path FILE_MODE_WRITE_ONLY_CREATE_TRUNC);
  s ← st_get;
  close_after fd (pipe_loop (S (length (data s.2))) fd).
(** A [Cursor] over the data: all of it, then end of file. *)
Definition write_file (path data : bytes) : afc unit := fun c =>
  let '((c, _), o) := write_file_from_reader path (c, [Chunk data; Chunk []]) in (c, o).

End Afc.
