(* ===== verification/AfcSpec.v ===== *)
(** What the AFC client does on the wire: every operation is a sequence of exchanges,
    each one request frame with the next packet number and one reply frame.

    [said] is that transcript. The theorems relate the bytes read and written by
    [read_file] and [write_file_from_reader] to it, show that a device that answers is
    read to the end, and that [stat] inverts the device's encoding of a property
    list with no empty value. The last section has what the client does not do:
    close the handle after a failed read, match a reply to its request, and keep an
    empty value in its place. *)

From S2P Require Import Prelude Socket Utf8 Text Afc.

Module AfcSpec.
Import Net Socket Text Afc.
Import Opcode(AfcOpcode, to_u64).

(** ** Frames *)

Definition frame (pn op : Z) (hp pl : bytes) : bytes := as_bytes (header_new pn op (len hp) (len pl)) ++ hp ++ pl.

(** What [recv] accepts. *)
Definition reply_ok (p : Packet) : Prop :=
  in_u 64 (opcode p) /\ len (header_payload p) + len (payload p) <= MAX_AFC_MSG /\
  (opcode p = to_u64 Opcode.Status -> exists rest, header_payload p = le_bytes 8 0 ++ rest).

(** A request and the packet that answered it. *)
Record call := Call { c_op : AfcOpcode; c_hp : bytes; c_pl : bytes; c_reply : Packet }.
Definition request_frame (pn : Z) (q : call) : bytes := frame pn (to_u64 (c_op q)) (c_hp q) (c_pl q).
Definition reply_frame (n : Z) (p : Packet) : bytes := frame n (opcode p) (header_payload p) (payload p).

Definition step (q : call) (c c' : AfcClient) : Prop :=
  reply_ok (c_reply q) /\ packet_num c' = next_num (packet_num c) /\
  exists n, in_u 64 n /\ traffic (reply_frame n (c_reply q)) (request_frame (packet_num c) q) (stream c) (stream c').
(** The exchange stopped: a prefix of the request was written. *)
Definition broken (op : AfcOpcode) (hp pl : bytes) (c c' : AfcClient) : Prop :=
  packet_num c' = next_num (packet_num c) /\
  exists i o, o `prefix_of` frame (packet_num c) (to_u64 op) hp pl /\ traffic i o (stream c) (stream c').

Inductive said : list call -> AfcClient -> AfcClient -> Prop :=
| said_nil c : said [] c c
| said_cons q qs c c1 c2 : step q c c1 -> said qs c1 c2 -> said (q :: qs) c c2.

(** The calls of the file operations. *)
Definition open_call (path : bytes) (mode : Z) (p : Packet) : call := Call Opcode.FileRefOpen (le_bytes 8 mode ++ c_str path) [] p.
Definition read_call (fd : Z) (p : Packet) : call := Call Opcode.FileRefRead (le_bytes 8 fd ++ le_bytes 8 READ_CHUNK) [] p.
Definition write_call (fd : Z) (d : bytes * Packet) : call := Call Opcode.FileRefWrite (le_bytes 8 fd) d.1 d.2.
Definition close_call (fd : Z) (p : Packet) : call := Call Opcode.FileRefClose (le_bytes 8 fd) [] p.
Definition handle (p : Packet) : Z := le_Z (take 8 (header_payload p)).

(** What a reader gives up to its end. *)
Fixpoint content (l : list rx_event) : bytes :=
  match l with
  | Chunk (b :: bs) :: l => (b :: bs) ++ content l
  | _ => []
  end.

(** *** Key and value as the device sends them *)
Definition kv_text (s : bytes) : Prop := s <> [] /\ x00 ∉ s /\ from_utf8 s = true.
Definition encode_kv (l : list (bytes * bytes)) : bytes := concat (map (fun kv => c_str kv.1 ++ c_str kv.2) l).

(** *** A small conversation *)
Definition demo_open : Packet := mkPacket (to_u64 Opcode.FileRefOpenResult) (le_bytes 8 42) [].
Definition demo_data : Packet := mkPacket (to_u64 Opcode.Data) [] (str "hi").
Definition demo_eof : Packet := mkPacket (to_u64 Opcode.Data) [] [].
Definition demo_ok : Packet := mkPacket (to_u64 Opcode.Status) (le_bytes 8 0) [].
Definition demo_pairs : list (bytes * bytes) := [(str "st_size", str "2"); (str "st_ifmt", str "S_IFREG")].
Definition demo_stat : Packet := mkPacket (to_u64 Opcode.Data) [] (encode_kv demo_pairs).
(** The bytes arrive in two portions, the first one cut inside a header. *)
Definition demo_client (replies : bytes) : AfcClient :=
  client_new (mkSocket [Chunk (take 60 replies); Chunk (drop 60 replies)] [] []).
Definition demo_read : bytes :=
  reply_frame 1 demo_open ++ reply_frame 2 demo_data ++ reply_frame 3 demo_eof ++ reply_frame 4 demo_ok.
Definition demo_write : bytes := reply_frame 1 demo_open ++ reply_frame 2 demo_ok ++ reply_frame 3 demo_ok.

(** ** Headers *)

Lemma as_bytes_len h : len (as_bytes h) = HEADER_SIZE.
Proof. unfold as_bytes. by rewrite !len_app, !len_le_bytes. Qed.
Lemma frame_len pn op hp pl : len (frame pn op hp pl) = HEADER_SIZE + len hp + len pl.
Proof. unfold frame. rewrite !len_app, as_bytes_len. lia. Qed.
Lemma field_bound (l : bytes) : in_u 64 (le_Z (take 8 l)).
Proof.
  pose proof (le_Z_bound (take 8 l)) as H. assert (len (take 8 l) <= 8) by (unfold len; rewrite length_take; lia).
  pose proof (Z.pow_le_mono_r 256 (len (take 8 l)) 8). change (256 ^ 8) with (2 ^ 64) in *. unfold in_u. lia.
Qed.
Lemma le_bytes_take8 (l : bytes) : (8 <= length l)%nat -> le_bytes 8 (le_Z (take 8 l)) = take 8 l.
Proof. intros H. rewrite <- (le_bytes_le_Z (take 8 l)) at 2. by rewrite length_take, Nat.min_l by lia. Qed.
Lemma take_field (n : nat) (l : bytes) : take n l ++ take 8 (drop n l) = take (n + 8) l.
Proof. by rewrite take_take_drop. Qed.
Lemma as_ref bs : len bs = HEADER_SIZE -> as_bytes (ref_from_bytes bs) = bs.
Proof.
  intros Hl. assert (length bs = 40%nat) as Hn by (unfold len, HEADER_SIZE in Hl; lia).
  unfold as_bytes, ref_from_bytes. cbn [magic entire_len this_len h_packet_num operation].
  rewrite !le_bytes_take8 by (rewrite length_drop; lia). cbn [Nat.mul Nat.add]. rewrite drop_0, !app_assoc, !take_field.
  apply take_ge. simpl. lia.
Qed.
Lemma ref_as m e t n o : in_u 64 m -> in_u 64 e -> in_u 64 t -> in_u 64 n -> in_u 64 o ->
  ref_from_bytes (as_bytes (mkHeader m e t n o)) = mkHeader m e t n o.
Proof.
  intros Hm He Ht Hn Ho. unfold ref_from_bytes, as_bytes. cbn [magic entire_len this_len h_packet_num operation].
  f_equal; match goal with |- le_Z _ = ?z => transitivity (le_Z (le_bytes 8 z)); [done|by apply (le_Z_le_bytes_u 8 64)] end.
Qed.

(** ** The client's primitives *)

Lemma wpx_on_stream {A} (m : st Socket AfcError A) (Q : A -> AfcClient -> Prop) R T c :
  wpx m (fun a s => Q a (mkClient s (packet_num c))) (fun s => R (mkClient s (packet_num c)))
    (fun s => T (mkClient s (packet_num c))) (stream c) ->
  wpx (on_stream m) Q R T c.
Proof. unfold wpx, on_stream. by destruct (m (stream c)) as [s []]. Qed.

Lemma wrote_more a b s s' : wrote_part a s s' -> wrote_part (a ++ b) s s'.
Proof. intros (o & Ho & Ht). exists o. split; [by apply prefix_app_r|done]. Qed.
Lemma wrote_after a b s s1 s' : traffic [] a s s1 -> wrote_part b s1 s' -> wrote_part (a ++ b) s s'.
Proof.
  intros Ht (o & Ho & Ht'). exists (a ++ o). split; [by apply prefix_app|]. exact (traffic_trans _ _ _ _ _ _ _ Ht Ht').
Qed.
Lemma traffic_after a b s s1 s' : traffic [] a s s1 -> traffic [] b s1 s' -> traffic [] (a ++ b) s s'.
Proof. exact (traffic_trans [] a [] b s s1 s'). Qed.

(** [if !bs.is_empty() { write_all(bs) }] *)
Lemma write_nonempty bs s :
  wpx (match bs with [] => mret tt | _ => write_all bs end : st Socket AfcError unit)
    (fun _ s' => traffic [] bs s s') (wrote_part bs s) (wrote_part bs s) s.
Proof. destruct bs; [apply wpx_ret, traffic_refl|apply write_all_traffic]. Qed.

Lemma send_wpx op hp pl c :
  wpx (send op hp pl)
    (fun _ c' => packet_num c' = next_num (packet_num c) /\
                 traffic [] (frame (packet_num c) (to_u64 op) hp pl) (stream c) (stream c'))
    (broken op hp pl c) (broken op hp pl c) c.
Proof.
  unfold send, next_pnum. wpx_steps. apply wpx_on_stream. cbn [stream packet_num]. set (s := stream c).
  unfold broken, frame. cbn [stream packet_num]. fold s. set (h := as_bytes _).
  assert (forall s', wrote_part (h ++ hp ++ pl) s s' -> next_num (packet_num c) = next_num (packet_num c) /\
    exists i o, o `prefix_of` h ++ hp ++ pl /\ traffic i o s s') as Hpart by (intros s' (o & Ho & Ht); eauto).
  wpx_step. eapply wpx_mono; [apply write_all_traffic| |by intros s' H; apply Hpart, wrote_more..]. cbv beta. intros _ s1 H1.
  wpx_step. eapply wpx_mono; [apply write_nonempty| |by intros s' H; apply Hpart; eapply wrote_after; [exact H1|]; apply wrote_more..].
  cbv beta. intros _ s2 H2. wpx_step.
  eapply wpx_mono; [apply write_nonempty| |by intros s' H; apply Hpart; do 2 (eapply wrote_after; [eassumption|])..].
  cbv beta. intros _ s3 H3. assert (traffic [] (h ++ hp ++ pl) s s3) as H by (do 2 (eapply traffic_after; [eassumption|]); done).
  assert (forall s', traffic [] [] s3 s' -> traffic [] (h ++ hp ++ pl) s s') as Hf.
  { intros s' Hf. rewrite <- (app_nil_r (h ++ hp ++ pl)). by eapply traffic_after. }
  eapply wpx_mono; [apply flush_traffic|cbv beta; auto|intros s' Hs; apply Hpart; exists (h ++ hp ++ pl); auto..].
Qed.

Definition heard (i : bytes) (c c' : AfcClient) : Prop :=
  packet_num c' = packet_num c /\ traffic i [] (stream c) (stream c').
Definition heard_part (c c' : AfcClient) : Prop := exists i, heard i c c'.

Lemma heard_after i c c1 c' : heard i c c1 -> heard_part c1 c' -> heard_part c c'.
Proof. intros [Hp Ht] (i' & Hp' & Ht'). exists (i ++ i'). split; [congruence|]. exact (traffic_trans _ _ _ _ _ _ _ Ht Ht'). Qed.
Lemma heard_trans i i' c c1 c' : heard i c c1 -> heard i' c1 c' -> heard (i ++ i') c c'.
Proof. intros [Hp Ht] [Hp' Ht']. split; [congruence|]. exact (traffic_trans _ _ _ _ _ _ _ Ht Ht'). Qed.

Lemma read_exact_heard n c :
  0 <= n -> wpx (on_stream (read_exact n)) (fun bs c' => len bs = n /\ heard bs c c') (heard_part c) (heard_part c) c.
Proof.
  intros Hn. apply wpx_on_stream. eapply wpx_mono; [by apply read_exact_traffic|..]; cbv beta.
  - intros bs s [? ?]. split; [done|by split].
  - intros s [i ?]. exists i; by split.
  - intros s [i ?]. exists i; by split.
Qed.
(** [if n > 0 { read_exact }] *)
Lemma read_positive n c :
  0 <= n -> wpx (if 0 <? n then on_stream (read_exact n) else mret []) (fun bs c' => len bs = n /\ heard bs c c') (heard_part c) (heard_part c) c.
Proof.
  intros Hn. wpx_step; [by apply read_exact_heard|]. apply wpx_ret. split; [rewrite (Z.le_antisymm n 0) by lia; done|].
  split; [done|apply traffic_refl].
Qed.

Lemma success_code l : (8 <= length l)%nat -> StatusCode.is_success (StatusCode.from_u64 (le_Z (take 8 l))) = true ->
  exists rest, l = le_bytes 8 0 ++ rest.
Proof.
  intros Hl Hs. exists (drop 8 l). rewrite <- (take_drop 8 l) at 1. f_equal. rewrite <- (le_bytes_take8 l Hl). f_equal.
  pose proof (field_bound l) as [Hz _]. destruct (le_Z (take 8 l)) as [|p|p]; [done| |lia].
  exfalso. do 7 (destruct p as [p|p|]; try discriminate Hs).
Qed.

Lemma recv_wpx c :
  wpx recv (fun p c' => reply_ok p /\ exists n, in_u 64 n /\ heard (reply_frame n p) c c') (heard_part c) (heard_part c) c.
Proof.
  unfold recv. wpx_step. eapply wpx_mono; [by apply read_exact_heard| |done|done]. cbv beta zeta.
  intros hdr c1 [Hhl Hh1]. set (h := ref_from_bytes hdr).
  pose proof (field_bound (drop 24 hdr)) as Hn. change (in_u 64 (h_packet_num h)) in Hn.
  pose proof (field_bound (drop 32 hdr)) as Ho. change (in_u 64 (operation h)) in Ho.
  do 6 (wpx_step; [apply wpx_fail; by eexists|]).
  destruct ((operation h =? _) && _) eqn:Est; [apply wpx_fail; by eexists|].
  wpx_step. eapply wpx_mono; [apply read_positive; lia| |intros s; by apply (heard_after _ _ _ _ Hh1)..]. cbv beta. intros hp c2 [Hhp Hh2].
  pose proof (heard_trans _ _ _ _ _ Hh1 Hh2) as Hh12.
  wpx_step. eapply wpx_mono; [apply read_positive; lia| |intros s; by apply (heard_after _ _ _ _ Hh12)..]. cbv beta. intros pl c3 [Hpl Hh3].
  pose proof (heard_trans _ _ _ _ _ Hh12 Hh3) as Hh. clear Hh2 Hh12 Hh3.
  assert (hdr = as_bytes (header_new (h_packet_num h) (operation h) (len hp) (len pl))) as Ehdr.
  { rewrite <- (as_ref hdr Hhl). fold h. f_equal. destruct h as [m e t n o]. unfold header_new. cbn in *. f_equal; lia. }
  rewrite <- app_assoc, Ehdr in Hh. pose proof (len_nonneg hp). pose proof (len_nonneg pl).
  assert (len hp + len pl <= MAX_AFC_MSG) as Hmax by (unfold HEADER_SIZE in *; lia).
  wpx_step.
  - wpx_step. assert (8 <= length hp)%nat as H8 by (unfold len in *; lia). rewrite slice_ok by lia. cbn [Nat.sub]. rewrite drop_0.
    unfold wpx at 1, st_lift. wpx_step; [|apply wpx_fail; by eexists]. apply wpx_ret. split; [|by exists (h_packet_num h)].
    split; [done|]. split; [done|]. intros _. by apply success_code.
  - apply wpx_ret. split; [|by exists (h_packet_num h)]. split; [done|]. split; [done|]. cbn [opcode]. lia.
Qed.

Lemma exchange_wpx op hp pl c :
  wpx (exchange op hp pl) (fun p c' => step (Call op hp pl p) c c') (broken op hp pl c) (broken op hp pl c) c.
Proof.
  unfold exchange. wpx_step. eapply wpx_mono; [apply send_wpx| |done|done]. cbv beta. intros _ c1 [Hn Ht].
  assert (forall c', heard_part c1 c' -> broken op hp pl c c') as Hpart.
  { intros c' (i & Hp & Ht'). split; [congruence|]. eexists i, _. split; [done|].
    rewrite <- (app_nil_l i), <- (app_nil_r (frame _ _ _ _)). exact (traffic_trans _ _ _ _ _ _ _ Ht Ht'). }
  eapply wpx_mono; [apply recv_wpx| |done|done]. cbv beta. intros p c' (Hok & n & Hin & Hp & Ht').
  split; [done|]. split; [cbn; congruence|]. exists n. split; [done|]. cbn [c_reply].
  rewrite <- (app_nil_l (reply_frame _ _)), <- (app_nil_r (request_frame _ _)). exact (traffic_trans _ _ _ _ _ _ _ Ht Ht').
Qed.

(** ** Transcripts *)

Lemma said_one q c c' : step q c c' -> said [q] c c'.
Proof. intros H. eapply said_cons; [exact H|apply said_nil]. Qed.
Lemma said_app qs qs' c c1 c2 : said qs c c1 -> said qs' c1 c2 -> said (qs ++ qs') c c2.
Proof. induction 1; [done|]. intros. simpl. eapply said_cons; eauto. Qed.
Lemma said_snoc qs q c c1 c2 : said qs c c1 -> step q c1 c2 -> said (qs ++ [q]) c c2.
Proof. intros H Hs. eapply said_app; [exact H|by apply said_one]. Qed.
(** A reply takes at least its header from the stream. *)
Lemma step_rx q c c' : step q c c' -> (rx_bytes (stream c') < rx_bytes (stream c))%nat.
Proof.
  intros (_ & _ & n & _ & Ht). apply traffic_rx_le in Ht.
  pose proof (frame_len n (opcode (c_reply q)) (header_payload (c_reply q)) (payload (c_reply q))) as Hl.
  unfold reply_frame, len, HEADER_SIZE in *. lia.
Qed.

(** A call that keeps nothing of its reply but what [f] takes. *)
Lemma exchange_then {A} op hp pl (f : Packet -> AfcClient -> AfcClient * outcome AfcError A) (Q : A -> AfcClient -> Prop) (R T : AfcClient -> Prop) c :
  (forall p c', step (Call op hp pl p) c c' -> wpx (f p) Q R T c') ->
  (forall c', broken op hp pl c c' -> R c' /\ T c') ->
  wpx (p ← exchange op hp pl; f p) Q R T c.
Proof.
  intros Hf Hb. apply wpx_bind. eapply wpx_mono; [apply exchange_wpx|done|by intros; apply Hb..].
Qed.

Lemma file_open_wpx path mode c :
  wpx (file_open path mode)
    (fun fd c' => exists p, step (open_call path mode p) c c' /\ (8 <= length (header_payload p))%nat /\ fd = handle p)
    (fun _ => True) (fun _ => True) c.
Proof.
  unfold file_open. apply exchange_then; [|done]. intros p c' Hs. wpx_step; [done|].
  assert (8 <= length (header_payload p))%nat by (unfold len in *; lia). wpx_step. rewrite slice_ok by lia.
  apply wpx_ret. exists p. rewrite drop_0. done.
Qed.
Lemma file_read_wpx fd c :
  wpx (file_read fd READ_CHUNK) (fun bs c' => exists p, step (read_call fd p) c c' /\ bs = payload p) (fun _ => True) (fun _ => True) c.
Proof. unfold file_read. apply exchange_then; [|done]. intros p c' Hs. apply wpx_ret. by exists p. Qed.
Lemma file_write_wpx fd bs c :
  wpx (file_write fd bs) (fun _ c' => exists p, step (write_call fd (bs, p)) c c') (fun _ => True) (fun _ => True) c.
Proof. unfold file_write. apply exchange_then; [|done]. intros p c' Hs. apply wpx_ret. by exists p. Qed.
Lemma file_close_wpx fd c :
  wpx (file_close fd) (fun _ c' => exists p, step (close_call fd p) c c') (fun _ => True) (fun _ => True) c.
Proof. unfold file_close. apply exchange_then; [|done]. intros p c' Hs. apply wpx_ret. by exists p. Qed.

Lemma read_loop_wpx fuel fd acc c :
  (rx_bytes (stream c) < fuel)%nat -> len acc <= MAX_IN_MEMORY_FILE ->
  wpx (read_loop fuel fd acc)
    (fun d c' => exists ps eof, said (map (read_call fd) (ps ++ [eof])) c c' /\ payload eof = [] /\
       Forall (fun p => payload p <> []) ps /\ d = acc ++ concat (map payload ps) /\ len d <= MAX_IN_MEMORY_FILE)
    (fun _ => True) (fun _ => True) c.
Proof.
  revert acc c. induction fuel as [|fuel IH]; intros acc c Hf Hacc; [lia|]. cbn [read_loop]. wpx_step.
  eapply wpx_mono; [apply file_read_wpx| |done|done]. cbv beta. intros buf c1 (p & Hs & ->).
  destruct (payload p) as [|b bs] eqn:Ep.
  - apply wpx_ret. exists [], p. cbn. rewrite app_nil_r. split; [by apply said_one|done].
  - rewrite <- Ep. assert (payload p <> []) as Hne by (by rewrite Ep). clear b bs Ep. wpx_step.
    + wpx_step. eapply wpx_mono; [apply file_close_wpx|done..].
    + pose proof (step_rx _ _ _ Hs). eapply wpx_mono; [apply IH; [lia|rewrite len_app; lia]| |done|done]. cbv beta.
      intros d c' (ps & eof & Hsaid & He & Hps & -> & Hd). exists (p :: ps), eof. split; [by eapply said_cons|].
      split; [done|]. split; [by constructor|]. split; [cbn; by rewrite <- app_assoc|done].
Qed.

Lemma content_read k l :
  (0 < k)%nat ->
  match rx_read AfcIo k l with
  | (l', Ok []) => content l = []
  | (l', Ok bs) => content l = bs ++ content l' /\ (length bs <= k)%nat /\ (length (data l') < length (data l))%nat
  | (_, Panic) | (_, OutOfFuel) => False
  | _ => True
  end.
Proof.
  intros Hk. unfold rx_read. destruct l as [|[[|b bs]| |] l]; try done. set (ch := b :: bs).
  assert (data (Chunk ch :: l) = ch ++ data l) as -> by done. assert (content (Chunk ch :: l) = ch ++ content l) as -> by done.
  assert (0 < length ch)%nat by (simpl; lia). destruct (length ch <=? k)%nat eqn:El.
  - apply Nat.leb_le in El. rewrite length_app. unfold ch at 1. fold ch. split; [done|]. lia.
  - apply Nat.leb_gt in El. destruct (take k ch) as [|x xs] eqn:Et.
    { apply (f_equal length) in Et. rewrite length_take in Et. change (length []) with 0%nat in Et. lia. }
    rewrite <- Et. destruct (drop k ch) as [|y ys] eqn:Ed.
    { apply (f_equal length) in Ed. rewrite length_drop in Ed. change (length []) with 0%nat in Ed. lia. }
    assert (content (Chunk (y :: ys) :: l) = drop k ch ++ content l) as -> by (by rewrite Ed).
    assert (data (Chunk (y :: ys) :: l) = drop k ch ++ data l) as -> by (by rewrite Ed).
    rewrite app_assoc, take_drop, !length_app, length_drop, length_take. split; [done|]. lia.
Qed.

(** A client operation between uses of the reader. *)
Lemma wpx_on_client {A} (m : afc A) (Q : A -> AfcClient * list rx_event -> Prop) R T s :
  wpx m (fun a c => Q a (c, s.2)) (fun c => R (c, s.2)) (fun c => T (c, s.2)) s.1 -> wpx (on_client m) Q R T s.
Proof. unfold wpx, on_client. by destruct (m s.1) as [c []]. Qed.

Lemma write_chunk_pos : (0 < WRITE_CHUNK)%nat.
Proof. unfold WRITE_CHUNK. change 0%nat with (Z.to_nat 0). apply Z2Nat.inj_lt; lia. Qed.
Lemma pipe_loop_wpx fuel fd s :
  (length (data s.2) < fuel)%nat ->
  wpx (pipe_loop fuel fd)
    (fun _ s' => exists ds, said (map (write_call fd) ds) s.1 s'.1 /\ concat ds.*1 = content s.2 /\
       Forall (fun d => 0 < length d.1 <= WRITE_CHUNK)%nat ds)
    (fun _ => True) (fun _ => True) s.
Proof.
  revert s. induction fuel as [|fuel IH]; intros [c l] Hf; [lia|]. cbn [pipe_loop fst snd] in *. wpx_step.
  pose proof (content_read WRITE_CHUNK l write_chunk_pos) as Hr.
  unfold wpx at 1, on_reader. cbn [fst snd]. destruct (rx_read AfcIo WRITE_CHUNK l) as [l' [[|b bs]|e| | |]]; try done.
  - apply wpx_ret. exists []. split; [apply said_nil|]. by rewrite Hr.
  - set (ch := b :: bs) in *. destruct Hr as (Hc & Hk & Hd). cbn [snd] in Hf. wpx_step. apply wpx_on_client. cbn [fst snd].
    eapply wpx_mono; [apply file_write_wpx| |done|done]. cbv beta. intros _ c1 (p & Hs).
    eapply wpx_mono; [apply IH; cbn [snd]; lia| |done|done]. cbv beta. intros _ s' (ds & Hsaid & Hds & Hall).
    exists ((ch, p) :: ds). split; [by eapply said_cons|]. split; [cbn; by rewrite Hds|]. constructor; [|done]. cbn [fst]. assert (0 < length ch)%nat by (unfold ch; simpl; lia). lia.
Qed.

(** ** A device that answers *)

Lemma on_stream_ok {A} (m : st Socket AfcError A) c s a :
  m (stream c) = (s, Ok a) -> on_stream m c = (mkClient s (packet_num c), Ok a).
Proof. unfold on_stream. by intros ->. Qed.
Lemma read_exact_on n bs rest s k :
  flowing s -> data (rx s) = bs ++ rest -> len bs = n ->
  exists s', on_stream (read_exact n) (mkClient s k) = (mkClient s' k, Ok bs) /\ flowing s' /\ data (rx s') = rest /\ tx s' = tx s.
Proof.
  intros Hfl Hd <-. destruct (read_exact_flows (E := AfcError) s bs rest Hfl Hd) as (s' & Hr & ?).
  exists s'. split; [by apply on_stream_ok|done].
Qed.
Lemma read_positive_on n bs rest s k :
  flowing s -> data (rx s) = bs ++ rest -> len bs = n ->
  exists s', (if 0 <? n then on_stream (read_exact n) else mret []) (mkClient s k) = (mkClient s' k, Ok bs) /\
    flowing s' /\ data (rx s') = rest /\ tx s' = tx s.
Proof.
  intros Hfl Hd Hn. destruct (0 <? n) eqn:E; [by apply read_exact_on|]. exists s.
  assert (bs = []) as -> by (destruct bs; [done|unfold len in *; simpl in *; lia]). done.
Qed.

Lemma recv_flows n p rest s k :
  flowing s -> data (rx s) = reply_frame n p ++ rest -> reply_ok p -> in_u 64 n ->
  exists s', recv (mkClient s k) = (mkClient s' k, Ok p) /\ flowing s' /\ data (rx s') = rest /\ tx s' = tx s.
Proof.
  intros Hfl Hd (Hop & Hmax & Hst) Hn. destruct p as [op hp pl]. unfold reply_frame, frame in Hd. cbn [opcode header_payload payload] in *.
  pose proof (len_nonneg hp). pose proof (len_nonneg pl). unfold MAX_AFC_MSG in Hmax.
  rewrite <- !app_assoc in Hd. set (h := header_new n op (len hp) (len pl)) in *.
  destruct (read_exact_on HEADER_SIZE _ _ _ k Hfl Hd (as_bytes_len h)) as (s1 & E1 & Hfl1 & Hd1 & Ht1).
  destruct (read_positive_on (len hp) _ _ _ k Hfl1 Hd1 eq_refl) as (s2 & E2 & Hfl2 & Hd2 & Ht2).
  destruct (read_positive_on (len pl) _ _ _ k Hfl2 Hd2 eq_refl) as (s3 & E3 & Hfl3 & Hd3 & Ht3).
  exists s3. split; [|split_and!; [done..|congruence]]. unfold recv. rewrite (st_bind_ok _ _ _ _ _ E1). cbv zeta.
  assert (ref_from_bytes (as_bytes h) = h) as -> by (apply ref_as; unfold in_u, HEADER_SIZE in *; [done|lia..|done|done]).
  unfold h, header_new. cbn [magic entire_len this_len operation]. rewrite Z.eqb_refl. cbn [negb].
  rewrite (proj2 (Z.ltb_ge _ _)) by lia. rewrite (proj2 (Z.ltb_ge _ _)) by lia.
  unfold HEADER_SIZE, usize_max, MAX_AFC_MSG. do 3 (rewrite (proj2 (Z.ltb_ge _ _)) by lia).
  replace (40 + len hp - 40) with (len hp) by lia. replace (40 + len hp + len pl - (40 + len hp)) with (len pl) by lia.
  destruct (op =? to_u64 Opcode.Status) eqn:Eop; cbn [andb].
  - apply Z.eqb_eq in Eop. destruct (Hst Eop) as [r ->]. rewrite (proj2 (Z.ltb_ge _ _)) by (rewrite len_app, len_le_bytes; unfold len; lia).
    rewrite (st_bind_ok _ _ _ _ _ E2), (st_bind_ok _ _ _ _ _ E3).
    rewrite slice_ok by (rewrite length_app, length_le_bytes; lia). done.
  - by rewrite (st_bind_ok _ _ _ _ _ E2), (st_bind_ok _ _ _ _ _ E3).
Qed.

Lemma send_open op hp pl c :
  wr (stream c) = [] ->
  send op hp pl c = (mkClient (mkSocket (rx (stream c)) [] (tx (stream c) ++ frame (packet_num c) (to_u64 op) hp pl)) (next_num (packet_num c)), Ok tt).
Proof.
  intros Hw. unfold send, next_pnum, on_stream, frame, mbind, st_bind, st_get, st_mod, mret, st_ret. cbn [stream packet_num].
  set (h := as_bytes _). rewrite write_all_open by done.
  assert (forall bs t, (match bs with [] => fun s : Socket => (s, Ok tt) | _ => write_all bs end : st Socket AfcError unit)
    (mkSocket (rx (stream c)) [] t) = (mkSocket (rx (stream c)) [] (t ++ bs), Ok tt)) as Hb.
  { intros [|b bs] t; [by rewrite app_nil_r|]. by rewrite write_all_open. }
  rewrite !Hb, flush_open by done. cbn [tx]. by rewrite <- !app_assoc.
Qed.

(** The device's part of an exchange: a numbered reply. *)
Definition answers (rs : list (Z * Packet)) : bytes := concat (map (fun r => reply_frame r.1 r.2) rs).
Definition answer_ok (r : Z * Packet) : Prop := in_u 64 r.1 /\ reply_ok r.2.

Lemma exchange_flows op hp pl r rest c :
  flowing (stream c) -> data (rx (stream c)) = reply_frame r.1 r.2 ++ rest -> answer_ok r ->
  exists c', exchange op hp pl c = (c', Ok r.2) /\ step (Call op hp pl r.2) c c' /\ flowing (stream c') /\ data (rx (stream c')) = rest.
Proof.
  intros Hfl Hd [Hn Hok]. unfold exchange. rewrite (st_bind_ok _ _ _ _ _ (send_open op hp pl c (proj1 Hfl))).
  destruct Hfl as [_ Hr]. match goal with |- context [recv (mkClient ?s ?k)] => destruct (recv_flows r.1 r.2 rest s k) as (s' & E & Hfl' & Hd' & Ht') end; try done.
  eexists. split; [exact E|]. split; [|done]. split; [done|]. split; [done|]. exists r.1. split; [done|]. cbn [stream c_reply].
  split; [by rewrite Hd'|done].
Qed.

Lemma file_read_flows fd r rest c :
  flowing (stream c) -> data (rx (stream c)) = reply_frame r.1 r.2 ++ rest -> answer_ok r ->
  exists c', file_read fd READ_CHUNK c = (c', Ok (payload r.2)) /\ step (read_call fd r.2) c c' /\ flowing (stream c') /\ data (rx (stream c')) = rest.
Proof.
  intros Hfl Hd Hr. destruct (exchange_flows Opcode.FileRefRead (le_bytes 8 fd ++ le_bytes 8 READ_CHUNK) [] r rest c Hfl Hd Hr) as (c' & E & ?).
  exists c'. split; [|done]. unfold file_read. by rewrite (st_bind_ok _ _ _ _ _ E).
Qed.

Lemma read_loop_flows fuel fd acc rs eof rest c :
  (rx_bytes (stream c) < fuel)%nat -> flowing (stream c) -> data (rx (stream c)) = answers rs ++ reply_frame eof.1 eof.2 ++ rest ->
  Forall answer_ok rs -> answer_ok eof -> Forall (fun r => payload r.2 <> []) rs -> payload eof.2 = [] ->
  len (acc ++ concat (map payload rs.*2)) <= MAX_IN_MEMORY_FILE ->
  exists c', read_loop fuel fd acc c = (c', Ok (acc ++ concat (map payload rs.*2))) /\
    said (map (read_call fd) (rs.*2 ++ [eof.2])) c c' /\ flowing (stream c') /\ data (rx (stream c')) = rest.
Proof.
  intros Hf Hfl Hd Hrs Heof Hne He. revert fuel acc c Hf Hfl Hd.
  induction Hrs as [|r rs Hr Hrs IH]; intros [|fuel] acc c Hf Hfl Hd Hmax; try lia; cbn [read_loop].
  - destruct (file_read_flows fd eof rest c Hfl Hd Heof) as (c1 & E1 & Hs1 & Hfl1 & Hd1).
    rewrite (st_bind_ok _ _ _ _ _ E1), He. exists c1. cbn. rewrite app_nil_r. split; [done|]. split; [by apply said_one|done].
  - apply Forall_cons in Hne as [Hne0 Hne]. unfold answers in Hd. cbn [map concat] in Hd. rewrite <- app_assoc in Hd.
    destruct (file_read_flows fd r _ c Hfl Hd Hr) as (c1 & E1 & Hs1 & Hfl1 & Hd1). rewrite (st_bind_ok _ _ _ _ _ E1).
    rewrite fmap_cons in *. cbn [map concat] in *. rewrite app_assoc in Hmax. pose proof (step_rx _ _ _ Hs1).
    destruct (IH Hne fuel (acc ++ payload r.2) c1 ltac:(lia) Hfl1 Hd1 Hmax) as (c' & E' & Hs' & ?).
    exists c'. rewrite len_app in Hmax. pose proof (len_nonneg (concat (map payload rs.*2))).
    destruct (payload r.2) as [|b bs]; [done|]. rewrite (proj2 (Z.ltb_ge _ _)) by (rewrite len_app in Hmax; lia).
    rewrite E', <- app_assoc. split; [done|]. split; [by eapply said_cons|done].
Qed.

(** ** Replies as text *)

Lemma split_c_strs (ss : list bytes) :
  Forall (fun s => x00 ∉ s) ss -> split_on x00 (concat (map c_str ss)) = ss ++ [[]].
Proof.
  induction 1 as [|s ss Hs Hss IH]; [done|]. cbn [map concat]. unfold c_str at 1. rewrite <- app_assoc. cbn [app].
  by rewrite split_on_app, IH.
Qed.
Lemma split_null_c_strs ss : Forall kv_text ss -> split_null_strings (concat (map c_str ss)) = ss.
Proof.
  intros Hss. unfold split_null_strings. rewrite split_c_strs by (eapply Forall_impl; [exact Hss|by intros s (? & ? & ?)]).
  rewrite filter_app. assert (filter (fun s : bytes => s <> []) [[]] = ([] : list bytes)) as -> by done. rewrite app_nil_r.
  induction Hss as [|s ss (Hne & _ & Hu) Hss IH]; [done|]. rewrite filter_cons_True by done. cbn [map]. by rewrite IH, utf8_lossy_valid.
Qed.
Definition flat (l : list (bytes * bytes)) : list bytes := concat (map (fun kv => [kv.1; kv.2]) l).
Lemma encode_kv_flat l : encode_kv l = concat (map c_str (flat l)).
Proof. induction l as [|kv l IH]; [done|]. unfold encode_kv, flat in *. cbn. by rewrite IH, <- app_assoc. Qed.
Lemma insert_pairs_flat l m : insert_pairs (flat l) m = fold_left (fun m kv => <[kv.1 := kv.2]> m) l m.
Proof. revert m. induction l as [|kv l IH]; intros m; [done|]. unfold flat in *. cbn. apply IH. Qed.
Lemma parse_encode_kv l :
  Forall (fun kv => kv_text kv.1 /\ kv_text kv.2) l -> parse_kv_pairs (encode_kv l) = list_to_map (rev l).
Proof.
  intros Hl. unfold parse_kv_pairs. rewrite encode_kv_flat, split_null_c_strs.
  - rewrite insert_pairs_flat, <- (fold_left_rev_right (fun kv (m : gmap bytes bytes) => <[kv.1 := kv.2]> m)). done.
  - induction Hl as [|kv l [? ?] Hl IH]; [constructor|]. unfold flat in *. cbn. by constructor; [|constructor].
Qed.


(** ** Properties *)

(** [read_file] returns, and what it returns is the file the device sent: its
    exchanges are one open, reads of 64 KiB on the handle the open returned until a
    read comes back empty, and one close; the result is the concatenation of the
    read payloads and at most 256 MiB. *)
Theorem afc_read_exact path c c' o :
  read_file path c = (c', o) ->
  match o with
  | Ok d => exists p ps eof pc,
      said (open_call path FILE_MODE_READ_ONLY p :: map (read_call (handle p)) (ps ++ [eof]) ++ [close_call (handle p) pc]) c c' /\
      d = concat (map payload ps) /\ Forall (fun p => payload p <> []) ps /\ payload eof = [] /\ len d <= MAX_IN_MEMORY_FILE
  | Err _ | Pending => True
  | Panic | OutOfFuel => False
  end.
Proof.
  intros Hrun. assert (wpx (read_file path) (fun d c' => exists p ps eof pc,
    said (open_call path FILE_MODE_READ_ONLY p :: map (read_call (handle p)) (ps ++ [eof]) ++ [close_call (handle p) pc]) c c' /\
    d = concat (map payload ps) /\ Forall (fun p => payload p <> []) ps /\ payload eof = [] /\ len d <= MAX_IN_MEMORY_FILE)
    (fun _ => True) (fun _ => True) c) as H; [|unfold wpx in H; rewrite Hrun in H; by destruct o].
  clear c' o Hrun. unfold read_file. wpx_step. eapply wpx_mono; [apply file_open_wpx| |done|done]. cbv beta.
  intros fd c1 (p & Hopen & _ & ->). wpx_steps.
  eapply wpx_mono; [apply read_loop_wpx; [lia|done]| |done|done]. cbv beta. intros d c2 (ps & eof & Hsaid & He & Hps & Hd & Hmax).
  wpx_step. eapply wpx_mono; [apply file_close_wpx| |done|done]. cbv beta. intros _ c3 (pc & Hclose).
  wpx_step. exists p, ps, eof, pc. split; [|done]. eapply said_cons; [exact Hopen|]. by eapply said_snoc.
Qed.

Lemma afc_read_exact_witness : exists c' p ps eof pc,
  read_file (str "/a") (demo_client demo_read) = (c', Ok (str "hi")) /\
  said (open_call (str "/a") FILE_MODE_READ_ONLY p :: map (read_call (handle p)) (ps ++ [eof]) ++ [close_call (handle p) pc]) (demo_client demo_read) c'.
Proof.
  destruct (read_file (str "/a") (demo_client demo_read)) as [c' o] eqn:E.
  assert (o = Ok (str "hi")) as -> by (apply (f_equal snd) in E; symmetry in E; cbn [snd] in E; rewrite E; vm_compute; reflexivity).
  destruct (afc_read_exact _ _ _ _ E) as (p & ps & eof & pc & H & _). by exists c', p, ps, eof, pc.
Defined.

(** C18. A file the device sends is read: when the replies that arrive are a handle,
    nonempty pieces within 256 MiB in all, an empty piece and a status, in whatever
    portions and whatever their packet numbers, [read_file] returns the pieces'
    concatenation and leaves what follows on the stream. *)
Theorem afc_read_delivers path c p rs eof pc rest :
  flowing (stream c) ->
  data (rx (stream c)) = reply_frame p.1 p.2 ++ answers rs ++ reply_frame eof.1 eof.2 ++ reply_frame pc.1 pc.2 ++ rest ->
  answer_ok p -> Forall answer_ok rs -> answer_ok eof -> answer_ok pc ->
  (8 <= length (header_payload p.2))%nat -> Forall (fun r => payload r.2 <> []) rs -> payload eof.2 = [] ->
  len (concat (map payload rs.*2)) <= MAX_IN_MEMORY_FILE ->
  exists c', read_file path c = (c', Ok (concat (map payload rs.*2))) /\ data (rx (stream c')) = rest /\
    said (open_call path FILE_MODE_READ_ONLY p.2 :: map (read_call (handle p.2)) (rs.*2 ++ [eof.2]) ++ [close_call (handle p.2) pc.2]) c c'.
Proof.
  intros Hfl Hd Hp Hrs Heof Hpc Hh Hne He Hmax. unfold read_file, file_open.
  destruct (exchange_flows Opcode.FileRefOpen (le_bytes 8 FILE_MODE_READ_ONLY ++ c_str path) [] p _ c Hfl Hd Hp) as (c1 & E1 & Hs1 & Hfl1 & Hd1).
  erewrite st_bind_ok; [|erewrite (st_bind_ok _ _ _ _ _ E1), (proj2 (Z.ltb_ge _ _)) by (unfold len; lia); rewrite slice_ok by lia; reflexivity].
  cbn [Nat.sub]. rewrite drop_0. fold (handle p.2). rewrite st_bind_get.
  destruct (read_loop_flows (S (rx_bytes (stream c1))) (handle p.2) [] rs eof _ c1 ltac:(lia) Hfl1 Hd1 Hrs Heof Hne He Hmax) as (c2 & E2 & Hs2 & Hfl2 & Hd2).
  rewrite (st_bind_ok _ _ _ _ _ E2).
  destruct (exchange_flows Opcode.FileRefClose (le_bytes 8 (handle p.2)) [] pc rest c2 Hfl2 Hd2 Hpc) as (c3 & E3 & Hs3 & Hfl3 & Hd3).
  exists c3. split; [unfold file_close; by erewrite st_bind_ok; [|by rewrite (st_bind_ok _ _ _ _ _ E3)]|]. split; [done|].
  eapply said_cons; [exact Hs1|]. by eapply said_snoc.
Qed.

Lemma demo_flowing a b : a <> [] -> b <> [] -> flowing (mkSocket [Chunk a; Chunk b] [] []).
Proof. intros Ha Hb. split; [done|]. repeat constructor; by eexists. Qed.
Lemma demo_answer n p : in_u 64 n -> reply_ok p -> answer_ok (n, p).
Proof. done. Qed.
Lemma demo_reply_ok op hp pl :
  in_u 64 op -> len hp + len pl <= MAX_AFC_MSG -> op <> to_u64 Opcode.Status \/ hp = le_bytes 8 0 -> reply_ok (mkPacket op hp pl).
Proof. intros Ho Hl Hs. split; [done|]. split; [done|]. cbn. intros E. destruct Hs as [Hs| ->]; [done|]. exists []. by rewrite app_nil_r. Qed.
Lemma afc_read_delivers_witness : exists c',
  read_file (str "/a") (demo_client demo_read) = (c', Ok (str "hi")) /\ data (rx (stream c')) = [].
Proof.
  destruct (afc_read_delivers (str "/a") (demo_client demo_read) (1, demo_open) [(2, demo_data)] (3, demo_eof) (4, demo_ok) [])
    as (c' & E & Hd & _); try done; try (apply demo_answer; [done|apply demo_reply_ok; [done|done|by (left + right)]]).
  - by apply demo_flowing.
  - repeat constructor; [done..|apply demo_reply_ok; [done|done|by left]].
  - by repeat constructor.
  - by exists c'.
Defined.

(** C17. [write_file_from_reader] returns with the device having been sent exactly the
    reader's content: one open, writes of nonempty pieces of at most 1 MiB whose
    concatenation is everything the reader gave up to its end, and one close. When
    the copy fails the close is still attempted, and the copy's error is the one
    reported. *)
Theorem afc_write_exact path s s' o :
  write_file_from_reader path s = (s', o) ->
  let mode := FILE_MODE_WRITE_ONLY_CREATE_TRUNC in
  match o with
  | Ok _ => exists p ds pc,
      said (open_call path mode p :: map (write_call (handle p)) ds ++ [close_call (handle p) pc]) s.1 s'.1 /\
      concat ds.*1 = content s.2 /\ Forall (fun d => 0 < length d.1 <= WRITE_CHUNK)%nat ds
  | Err e =>
      file_open path mode s.1 = (s'.1, Err e) \/
      exists p c1, step (open_call path mode p) s.1 c1 /\
        let copy := pipe_loop (S (length (data s.2))) (handle p) (c1, s.2) in
        s'.1 = (file_close (handle p) copy.1.1).1 /\ (forall e', copy.2 = Err e' -> e = e')
  | Pending => True
  | Panic | OutOfFuel => False
  end.
Proof.
  intros Hrun. cbv zeta. unfold write_file_from_reader, mbind, st_bind, on_client at 1 in Hrun.
  pose proof (file_open_wpx path FILE_MODE_WRITE_ONLY_CREATE_TRUNC s.1) as Ho. unfold wpx in Ho.
  destruct (file_open path FILE_MODE_WRITE_ONLY_CREATE_TRUNC s.1) as [c1 [fd|e| | |]] eqn:Eo; try done; simplify_eq; [|by left|done].
  destruct Ho as (p & Hopen & _ & ->). cbn [st_get fst snd] in Hrun. unfold close_after in Hrun.
  pose proof (pipe_loop_wpx (S (length (data s.2))) (handle p) (c1, s.2) ltac:(cbn [snd]; lia)) as Hp. unfold wpx in Hp.
  destruct (pipe_loop _ (handle p) (c1, s.2)) as [[c2 l2] [[]|e| | |]] eqn:Ep; try done; simplify_eq; [| |done];
    pose proof (file_close_wpx (handle p) c2) as Hc; unfold wpx in Hc; unfold on_client in Hrun; cbn [fst snd] in *;
    destruct (file_close (handle p) c2) as [c3 [[]|e'| | |]] eqn:Ec; try done; simplify_eq; try done.
  - destruct Hp as (ds & Hsaid & Hds & Hall), Hc as (pc & Hclose). exists p, ds, pc. split; [|done].
    eapply said_cons; [exact Hopen|]. by eapply said_snoc.
  - right. exists p, c1. rewrite Ep. cbn. by rewrite Ec.
  - right. exists p, c1. rewrite Ep. cbn. rewrite Ec. split; [done|]. split; [done|]. by intros ? [= <-].
  - right. exists p, c1. rewrite Ep. cbn. rewrite Ec. split; [done|]. split; [done|]. by intros ? [= <-].
Qed.

Lemma afc_write_exact_witness : exists s' p ds pc,
  write_file_from_reader (str "/a") (demo_client demo_write, [Chunk (str "hi"); Chunk []]) = (s', Ok tt) /\
  said (open_call (str "/a") FILE_MODE_WRITE_ONLY_CREATE_TRUNC p :: map (write_call (handle p)) ds ++ [close_call (handle p) pc])
    (demo_client demo_write) s'.1 /\ concat ds.*1 = str "hi".
Proof.
  destruct (write_file_from_reader (str "/a") (demo_client demo_write, [Chunk (str "hi"); Chunk []])) as [s' o] eqn:E.
  assert (o = Ok tt) as -> by (apply (f_equal snd) in E; symmetry in E; cbn [snd] in E; rewrite E; vm_compute; reflexivity).
  destruct (afc_write_exact _ _ _ _ E) as (p & ds & pc & H & Hc & _). by exists s', p, ds, pc.
Defined.

(** [stat] inverts the device's key and value strings: from a reply with the
    pairs [l], nonempty UTF-8 text without NUL, it returns the map of those pairs,
    the last one when a key is repeated. *)
Theorem afc_stat_roundtrip path l n op hp rest c :
  Forall (fun kv => kv_text kv.1 /\ kv_text kv.2) l ->
  flowing (stream c) -> data (rx (stream c)) = reply_frame n (mkPacket op hp (encode_kv l)) ++ rest ->
  answer_ok (n, mkPacket op hp (encode_kv l)) ->
  exists c', stat path c = (c', Ok (list_to_map (rev l))) /\ data (rx (stream c')) = rest.
Proof.
  intros Hl Hfl Hd Hok.
  destruct (exchange_flows Opcode.GetFileInfo (c_str path) [] (n, mkPacket op hp (encode_kv l)) rest c Hfl Hd Hok) as (c' & E & _ & _ & Hd').
  exists c'. split; [|done]. unfold stat. rewrite (st_bind_ok _ _ _ _ _ E). cbn [payload snd]. by rewrite parse_encode_kv.
Qed.

Lemma afc_stat_roundtrip_witness : exists c',
  stat (str "/a") (demo_client (reply_frame 1 demo_stat)) = (c', Ok {[str "st_size" := str "2"; str "st_ifmt" := str "S_IFREG"]}).
Proof.
  destruct (afc_stat_roundtrip (str "/a") demo_pairs 1 (to_u64 Opcode.Data) [] [] (demo_client (reply_frame 1 demo_stat)))
    as (c' & E & _).
  - repeat constructor; try done; cbn [fst snd]; by apply (bool_decide_unpack _).
  - by apply demo_flowing.
  - done.
  - apply demo_answer; [done|]. apply demo_reply_ok; [done|done|by left].
  - exists c'. by rewrite E.
Defined.

(** *** What the client does not do *)

(** An empty value is dropped and the pairs after it shift: with
    [st_linktarget] empty, its value becomes the next key. *)
Theorem afc_empty_value_shifts k k' v' :
  kv_text k -> kv_text k' -> kv_text v' -> parse_kv_pairs (encode_kv [(k, []); (k', v')]) = {[k := k']}.
Proof.
  intros Hk Hk' Hv. unfold parse_kv_pairs, encode_kv. cbn [map concat fst snd].
  assert (split_null_strings ((c_str k ++ c_str []) ++ (c_str k' ++ c_str v') ++ []) = [k; k'; v']) as ->; [|done].
  rewrite <- (split_null_c_strs [k; k'; v']) by (repeat (apply Forall_cons; split; [assumption|]); constructor).
  unfold split_null_strings. f_equal. rewrite split_c_strs by (repeat constructor; by destruct Hk as (? & ? & ?), Hk' as (? & ? & ?), Hv as (? & ? & ?)).
  unfold c_str. rewrite app_nil_r, <- !app_assoc. destruct Hk as (? & ? & ?), Hk' as (? & ? & ?), Hv as (? & ? & ?).
  pose proof (split_on_app x00 [] (k' ++ [x00] ++ v' ++ [x00]) (not_elem_of_nil _)) as E. cbn [app] in *.
  rewrite (split_on_app x00 k), E, !split_on_app by done. rewrite !(filter_cons_True _ k) by done.
  by rewrite filter_cons_False by (by intros []).
Qed.

(** A read that fails leaves the handle open: [read_file] stops there. *)
Theorem afc_read_leaks_handle path c c1 c2 fd e :
  file_open path FILE_MODE_READ_ONLY c = (c1, Ok fd) -> file_read fd READ_CHUNK c1 = (c2, Err e) ->
  read_file path c = (c2, Err e).
Proof. intros Ho Hr. unfold read_file. rewrite (st_bind_ok _ _ _ _ _ Ho), st_bind_get. cbn [read_loop]. unfold mbind, st_bind. by rewrite Hr. Qed.

(** Replies are not matched to requests: after a call dropped while it waited, the
    next call takes the dropped call's reply. *)
Theorem afc_stale_reply op hp pl op' hp' pl' r rest l k t :
  flowing (mkSocket l [] t) -> data l = reply_frame r.1 r.2 ++ rest -> answer_ok r ->
  exists c1 c2, exchange op hp pl (mkClient (mkSocket (RxStall :: l) [] t) k) = (c1, Pending) /\
    exchange op' hp' pl' c1 = (c2, Ok r.2).
Proof.
  intros Hfl Hd Hr. set (c1 := mkClient (mkSocket l [] (t ++ frame k (to_u64 op) hp pl)) (next_num k)). exists c1.
  destruct (exchange_flows op' hp' pl' r rest c1) as (c2 & E2 & _); [split; [done|exact (proj2 Hfl)]|done..|].
  exists c2. split; [|exact E2]. unfold exchange.
  by rewrite (st_bind_ok _ _ _ _ _ (send_open op hp pl (mkClient (mkSocket (RxStall :: l) [] t) k) eq_refl)).
Qed.

End AfcSpec.
