(* ===== verification/ActivityTrace.v ===== *)
(** The activity trace decoder ([crates/ios-core/src/services/instruments/activity_trace.rs]).

    The device sends log entries as a program for a stack machine, cut into messages.
    [ActivityTraceDecoder] keeps the stack, the tables and, between messages, the bytes
    of an opcode that was cut. The code's cursor into a message is the rest of the
    message here. The [Debug] text of a nested structure, derived over a type of the
    bytes crate, is a parameter of the rendering. *)

From S2P Require Import Prelude Utf8 Text DtxTypes DtxCodec.

Module ActivityTrace.
Import Text.
Import DtxCodec(DtxError, Protocol).

Inductive ActivityTraceValue :=
| Bytes (bs : bytes)
| Null
| Struct (items : list ActivityTraceValue).

Record ActivityTraceEntry := mkEntry {
  process : Z;
  thread : Z;
  subsystem : bytes;
  category : bytes;
  message_type : bytes;
  event_type : option bytes;
  sender_image_path : bytes;
  format_string : option bytes;
  entry_name : option bytes;
  rendered_message : bytes;
}.

Record ActivityTraceTable := mkTable { unknown0 : bytes; unknown2 : bytes; table_name : bytes; columns : list bytes }.

Record ActivityTraceDecoder := mkDecoder {
  stack : list ActivityTraceValue;
  generation : Z;
  background : Z;
  tables : list ActivityTraceTable;
  carry : bytes;
}.
Definition decoder_default : ActivityTraceDecoder := mkDecoder [] 0 0 [] [].
Definition set_stack v (d : ActivityTraceDecoder) := mkDecoder v (generation d) (background d) (tables d) (carry d).
Definition set_tables v (d : ActivityTraceDecoder) := mkDecoder (stack d) (generation d) (background d) v (carry d).
Definition set_carry v (d : ActivityTraceDecoder) := mkDecoder (stack d) (generation d) (background d) (tables d) v.

Abbreviation tr := (st ActivityTraceDecoder DtxError).

Definition CMD_DEFINE_TABLE : Z := 1.
Definition CMD_END_ROW : Z := 2.
Definition CMD_CONVERT_MACH_CONTINUOUS : Z := 5.
Definition CMD_TABLE_RESET : Z := 0x64.
Definition CMD_COPY : Z := 0x65.
Definition CMD_SENTINEL : Z := 0x68.
Definition CMD_STRUCT : Z := 0x69.
Definition CMD_PLACEHOLDER_COUNT : Z := 0x6A.
Definition CMD_DEBUG : Z := 0x6B.

(** ** Reading values *)

Fixpoint trace_value_leaf_bytes (v : ActivityTraceValue) : option bytes :=
  match v with
  | Bytes bs => Some bs
  | Struct (item :: _) => trace_value_leaf_bytes item
  | _ => None
  end.
Definition trace_value_to (n : nat) (m : msg) (v : ActivityTraceValue) : outcome DtxError Z :=
  match trace_value_leaf_bytes v with
  | Some bs => Ok (le_Z (take n bs))
  | None => Err (Protocol m)
  end.
Definition trace_value_to_u32 := trace_value_to 4 (Msg "activity trace expected byte payload for u32" []).
Definition trace_value_to_u64 := trace_value_to 8 (Msg "activity trace expected byte payload for u64" []).
Definition until_null (bs : bytes) : bytes := default [] (head (split_on x00 bs)).
Fixpoint decode_trace_string (v : ActivityTraceValue) : option bytes :=
  match v with
  | Bytes bs => Some (utf8_lossy (until_null bs))
  | Struct (item :: _) => decode_trace_string item
  | _ => None
  end.
Definition strip_one_trailing_null (bs : bytes) : bytes :=
  if bool_decide (last bs = Some x00) then take (length bs - 1) bs else bs.
Fixpoint flatten_data_value (v : ActivityTraceValue) : option bytes :=
  match v with
  | Bytes bs => Some (strip_one_trailing_null bs)
  | Struct items => foldr (fun item out => match flatten_data_value item, out with Some a, Some b => Some (a ++ b) | _, _ => None end) (Some []) items
  | Null => None
  end.
Definition into_bytes (v : ActivityTraceValue) : bytes := match v with Bytes bs => bs | _ => [] end.
Definition ok {A} (o : outcome DtxError A) : option A := match o with Ok a => Some a | _ => None end.

(** ** Rendering *)

Section rendering.
(** [format!("{items:?}")] *)
Context (debug_items : list ActivityTraceValue -> bytes).

Definition format_trace_value (v : ActivityTraceValue) : bytes :=
  match v with
  | Bytes bs => utf8_lossy (until_null bs)
  | Null => str "<None>"
  | Struct items => debug_items items
  end.
Definition hex_string (bs : bytes) : bytes := concat (map hex_byte bs).

Definition format_typed (ty : bytes) (part : ActivityTraceValue) : bytes :=
  let value := default 0 (ok (trace_value_to_u64 part)) in
  if bool_decide (ty = str "narrative-text" \/ ty = str "string") then
    match decode_trace_string part with
    | Some value => value
    | None => match part with Null => str "<None>" | _ => format_trace_value part end
    end
  else if bool_decide (ty = str "private") then str "<private>"
  else if starts_with (str "uint64") ty then
    if contains (str "hex") ty then print_hex (negb (contains (str "lowercase") ty)) value else print_int value
  else if contains (str "decimal") ty then print_int value
  else if bool_decide (ty = str "data" \/ ty = str "uuid") then
    match flatten_data_value part with Some bs => hex_string bs | None => [] end
  else format_trace_value part.
Definition format_item (item : ActivityTraceValue) : bytes :=
  match item with
  | Struct [type; part] =>
      match decode_trace_string type with
      | Some type_name => format_typed (if bool_decide (type_name = str "address") then str "uint64-hex" else type_name) part
      | None => format_trace_value item
      end
  | _ => format_trace_value item
  end.
Definition decode_message_format (message : list ActivityTraceValue) : bytes := concat (map format_item message).

(** ** The stack machine *)

Definition push (v : ActivityTraceValue) : tr unit := st_mod (fun d => set_stack (stack d ++ [v]) d).
Definition stack_len (d : ActivityTraceDecoder) : Z := len (stack d).

Definition pop_n (count : nat) : tr (list ActivityTraceValue) :=
  d ← st_get;
  if (length (stack d) <? count)%nat
  then st_fail (Protocol (Msg "activity trace stack underflow: need {count}, have {}" [Z.of_nat count; stack_len d])) else
  let at_ := (length (stack d) - count)%nat in
  st_mod (set_stack (take at_ (stack d))) ;;
  mret (drop at_ (stack d)).

(** [self.generation += 1] on a [u32], wrapping as in a release build. *)
Definition handle_table_reset : tr unit :=
  st_mod (fun d => mkDecoder [] ((generation d + 1) mod 2 ^ 32) 0 (tables d) (carry d)).

Definition handle_struct (distance : Z) : tr unit :=
  if distance =? 0xFF then st_fail (Protocol (Msg "activity trace long struct is not implemented" [])) else
  items ← pop_n (Z.to_nat distance);
  push (Struct items).

Definition handle_define_table : tr unit :=
  items ← pop_n 4;
  match items with
  | [unknown0; unknown2; name; cols] =>
      let name := default [] (decode_trace_string name) in
      match cols with
      | Struct items => st_mod (fun d => set_tables (tables d ++ [mkTable (into_bytes unknown0) (into_bytes unknown2) name (omap decode_trace_string items)]) d)
      | _ => st_fail (Protocol (Msg "activity trace table columns were not a struct" []))
      end
  | _ => st_fail (Protocol (Msg "activity trace table definition did not contain four items" []))
  end.

Definition handle_debug (word : Z) : tr unit :=
  let debug_id := Z.land word 0xFF in
  d ← st_get;
  match last (stack d) with
  | None => st_fail (Protocol (Msg "activity trace debug opcode {debug_id:#x} with empty stack" [debug_id]))
  | Some item =>
      reference ← st_lift (trace_value_to_u64 item);
      if negb (reference =? sat_sub (stack_len d) 1)
      then st_fail (Protocol (Msg "activity trace debug reference mismatch: got {reference}, expected {}" [reference; sat_sub (stack_len d) 1]))
      else st_mod (set_stack (take (length (stack d) - 1) (stack d)))
  end.

Definition handle_copy (word : Z) : tr unit :=
  let distance := Z.land word 0xFF in
  d ← st_get;
  if negb (distance =? 0xFF) then
    if stack_len d <? distance + 1
    then st_fail (Protocol (Msg "activity trace copy distance {distance} exceeds stack size {}" [distance; stack_len d])) else
    item ← st_lift (index (stack d) (Z.to_nat (stack_len d - (distance + 1))));
    push item
  else
    match last (stack d) with
    | None => st_fail (Protocol (Msg "activity trace long copy missing reference" []))
    | Some item =>
        st_mod (set_stack (take (length (stack d) - 1) (stack d))) ;;
        n ← st_lift (trace_value_to_u64 item);
        if n <? 1 then st_fail (Protocol (Msg "activity trace long copy reference underflow" [])) else
        let reference := n - 1 in
        d ← st_get;
        match stack d !! Z.to_nat reference with
        | None => st_fail (Protocol (Msg "activity trace long copy reference {reference} out of bounds" [reference]))
        | Some cloned => push cloned
        end
    end.

(** [columns.zip(row).collect()] into a map: a repeated column keeps its last value. *)
Definition row_fields (cols : list bytes) (row : list ActivityTraceValue) : gmap bytes ActivityTraceValue :=
  fold_left (fun m cv => <[cv.1 := cv.2]> m) (zip cols row) ∅.
Definition entry_of (fields : gmap bytes ActivityTraceValue) (message_value : ActivityTraceValue) : ActivityTraceEntry :=
  let number k := default 0 (fields !! str k ≫= fun v => ok (trace_value_to_u32 v)) in
  let text k := fields !! str k ≫= decode_trace_string in
  let name := text "name"%string in
  mkEntry (number "process"%string) (number "thread"%string) (default [] (text "subsystem"%string)) (default [] (text "category"%string))
    (match text "message_type"%string with Some t => t | None => default (str "unknown") (text "event_type"%string) end)
    (text "event_type"%string) (default [] (text "sender_image_path"%string)) (text "format_string"%string) name
    (match message_value with Struct items => decode_message_format items | _ => default [] name end).
Definition handle_end_row (generation : Z) : tr (option ActivityTraceEntry) :=
  d ← st_get;
  match tables d !! Z.to_nat generation with
  | None => st_fail (Protocol (Msg "activity trace row references missing table generation {generation}" [generation]))
  | Some table =>
      row ← pop_n (length (columns table));
      let fields := row_fields (columns table) row in
      mret (entry_of fields <$> fields !! str "message")
  end.

Definition handle_placeholder_count (count : Z) : tr unit :=
  if count =? 0 then mret tt else
  st_mod (fun d => set_stack (take (Z.to_nat (sat_sub (stack_len d) count)) (stack d)) d).

(** ** Words and pushes *)

Definition mid_word : DtxError := Protocol (Msg "activity trace message ended mid-word" []).
Definition is_incomplete_activity_trace_opcode (e : DtxError) : bool :=
  match e with Protocol m => bool_decide (m = Msg "activity trace message ended mid-word" []) | _ => false end.

Definition read_word (rest : bytes) : outcome DtxError (Z * bytes) :=
  match rest with
  | a :: b :: rest => Ok (le_Z [a; b], rest)
  | _ => Err mid_word
  end.
(** The chunks of a pushed value: 14 bits a word, up to the word marked [11]. *)
Fixpoint push_chunks (word : Z) (rest : bytes) : outcome DtxError (list Z * bytes) :=
  let chunk := Z.land word 0x3FFF in
  if Z.shiftr word 14 =? 3 then Ok ([chunk], rest) else
  match rest with
  | a :: b :: rest => '(chunks, rest) ← push_chunks (le_Z [a; b]) rest; Ok (chunk :: chunks, rest)
  | _ => Err mid_word
  end.
(** The chunk's bits from the highest down, each into the next bit of the buffer. *)
Definition put_bit (chunk : Z) (shift : nat) (acc : list Z * nat) : list Z * nat :=
  let '(bytes, bit_pos) := acc in
  let bit := Z.land (Z.shiftr chunk (Z.of_nat shift)) 1 in
  (if bit =? 0 then bytes
   else alter (fun b => Z.lor b (Z.shiftl bit (7 - Z.of_nat (bit_pos mod 8)%nat))) (bit_pos / 8)%nat bytes,
   S bit_pos).
Definition put_chunk (acc : list Z * nat) (chunk : Z) : list Z * nat := fold_left (fun acc shift => put_bit chunk shift acc) (rev (seq 0 14)) acc.
Definition chunk_bytes (chunks : list Z) : list Z :=
  let bit_count := (length chunks * 14)%nat in
  let padding := (8 - bit_count mod 8)%nat in
  let total_bits := (bit_count + padding)%nat in
  (fold_left put_chunk chunks (repeat 0 (total_bits / 8), 0%nat)).1.
Definition handle_push (word : Z) (rest : bytes) : outcome DtxError (ActivityTraceValue * bytes) :=
  let class := Z.shiftr word 14 in
  if negb (class =? 2) && negb (class =? 3) then Err (Protocol (Msg "invalid activity trace push word {word:#06x}" [word])) else
  '(chunks, rest) ← push_chunks word rest;
  Ok (Bytes (map bZ (chunk_bytes chunks)), rest).

(** ** Messages *)

(** What a word that needs no more input does. *)
Definition handle_word (word : Z) : option (tr (option ActivityTraceEntry)) :=
  let opcode := Z.shiftr word 8 in
  let low := Z.land word 0xFF in
  if opcode =? CMD_TABLE_RESET then Some (handle_table_reset ;; mret None)
  else if opcode =? CMD_SENTINEL then Some (push Null ;; mret None)
  else if opcode =? CMD_STRUCT then Some (handle_struct low ;; mret None)
  else if opcode =? CMD_DEFINE_TABLE then Some (handle_define_table ;; mret None)
  else if opcode =? CMD_DEBUG then Some (handle_debug word ;; mret None)
  else if opcode =? CMD_COPY then Some (handle_copy word ;; mret None)
  else if opcode =? CMD_END_ROW then Some (handle_end_row low)
  else if opcode =? CMD_PLACEHOLDER_COUNT then Some (handle_placeholder_count low ;; mret None)
  else if opcode =? CMD_CONVERT_MACH_CONTINUOUS then Some (mret None)
  else None.
Definition add_entry (entries : list ActivityTraceEntry) (e : option ActivityTraceEntry) : list ActivityTraceEntry :=
  match e with Some e => entries ++ [e] | None => entries end.

(** The cut opcode waits for the next message. *)
Definition keep (opcode_start : bytes) : tr unit := st_mod (fun d => set_carry (carry d ++ opcode_start) d).

(** Every round takes a word of two bytes. *)
Fixpoint decode_loop (fuel : nat) (message : bytes) (entries : list ActivityTraceEntry) : tr (list ActivityTraceEntry) :=
  match message with
  | [] => mret entries
  | _ =>
      match fuel with
      | O => st_lift OutOfFuel
      | S fuel =>
          match read_word message with
          | Err e => if is_incomplete_activity_trace_opcode e then keep message ;; mret entries else st_fail e
          | Ok (word, rest) =>
              match handle_word word with
              | Some handler => e ← handler; decode_loop fuel rest (add_entry entries e)
              | None =>
                  match handle_push word rest with
                  | Ok (value, rest) => push value ;; decode_loop fuel rest entries
                  | Err e => if is_incomplete_activity_trace_opcode e then keep message ;; mret entries else st_fail e
                  | Panic | Pending | OutOfFuel => st_lift OutOfFuel
                  end
              end
          | Panic | Pending | OutOfFuel => st_lift OutOfFuel
          end
      end
  end.
Definition BPLIST : bytes := str "bplist".
Definition decode_message (message : bytes) : tr (list ActivityTraceEntry) :=
  if bool_decide (message = []) || starts_with BPLIST message then mret [] else
  d ← st_get;
  let message := carry d ++ message in
  st_mod (set_carry []) ;;
  decode_loop (length message) message [].

(** One message after the other. *)
Fixpoint decode_messages (ms : list bytes) : tr (list ActivityTraceEntry) :=
  match ms with
  | [] => mret []
  | m :: ms => es ← decode_message m; es' ← decode_messages ms; mret (es ++ es')
  end.

(** ** Handlers *)

(** What an operation on the machine keeps: it returns, and leaves the carried bytes
    alone. *)
Definition machine {A} (m : tr A) : Prop := forall d, returns (m d).2 /\ carry (m d).1 = carry d.
Lemma machine_ret {A} (a : A) : machine (mret a).
Proof. done. Qed.
Lemma machine_fail {A} e : machine (st_fail e : tr A).
Proof. done. Qed.
Lemma machine_lift {A} (o : outcome DtxError A) : returns o -> machine (st_lift o).
Proof. done. Qed.
Lemma machine_mod f : (forall d, carry (f d) = carry d) -> machine (st_mod f).
Proof. intros Hf d. split; [done|apply Hf]. Qed.
Lemma machine_bind {A B} (m : tr A) (f : A -> tr B) : machine m -> (forall a, machine (f a)) -> machine (m ≫= f).
Proof.
  intros Hm Hf d. unfold mbind, st_bind. destruct (Hm d) as [Hr Hc]. destruct (m d) as [d' [a| | | |]]; try done.
  destruct (Hf a d') as [? Hc']. cbn in *. split; [done|congruence].
Qed.
Lemma machine_get {A} (f : ActivityTraceDecoder -> tr A) : (forall d, machine (f d)) -> machine (st_get ≫= f).
Proof. intros Hf d. apply (Hf d d). Qed.
Ltac machine_step :=
  lazymatch goal with
  | |- machine (mret _) => apply machine_ret
  | |- machine (st_fail _) => apply machine_fail
  | |- machine (st_mod _) => apply machine_mod; intros ?; reflexivity
  | |- machine (mbind _ st_get) => apply machine_get; intros ?
  | |- machine (mbind _ _) => apply machine_bind; [|intros ?]
  | |- machine (if ?c then _ else _) => destruct c eqn:?
  | |- machine (match ?x with _ => _ end) => destruct x eqn:?
  end.

Lemma trace_value_returns n m v : returns (trace_value_to n m v).
Proof. unfold trace_value_to. by destruct (trace_value_leaf_bytes v). Qed.
Lemma machine_pop_n n : machine (pop_n n).
Proof. unfold pop_n. repeat machine_step. Qed.
Lemma machine_push v : machine (push v).
Proof. intros d. done. Qed.
Lemma machine_copy word : machine (handle_copy word).
Proof.
  unfold handle_copy. apply machine_get. intros d. machine_step.
  - machine_step; [machine_step|]. apply machine_bind; [|intros; apply machine_push]. apply machine_lift.
    assert (0 <= Z.land word 0xFF) by (apply Z.land_nonneg; lia). unfold stack_len in *.
    destruct (index_ok (E := DtxError) (stack d) (Z.to_nat (len (stack d) - (Z.land word 0xFF + 1)))) as (a & -> & _); [unfold len in *; lia|done].
  - machine_step; [|machine_step]. apply machine_bind; [machine_step|intros _].
    apply machine_bind; [apply machine_lift, trace_value_returns|intros n]. machine_step; [machine_step|].
    apply machine_get. intros d'. machine_step; [apply machine_push|machine_step].
Qed.
Lemma machine_word word h : handle_word word = Some h -> machine h.
Proof.
  unfold handle_word. intros H. repeat (case_match; [injection H as <-|]); try done.
  - apply machine_bind; [|intros; apply machine_ret]. unfold handle_struct. machine_step; [machine_step|].
    apply machine_bind; [apply machine_pop_n|intros; apply machine_push].
  - apply machine_bind; [|intros; apply machine_ret]. unfold handle_define_table.
    apply machine_bind; [apply machine_pop_n|]. intros items. repeat machine_step.
  - apply machine_bind; [|intros; apply machine_ret]. unfold handle_debug. apply machine_get. intros d. machine_step; [|machine_step].
    apply machine_bind; [apply machine_lift, trace_value_returns|]. intros n. repeat machine_step.
  - apply machine_bind; [apply machine_copy|intros; apply machine_ret].
  - unfold handle_end_row. apply machine_get. intros d. machine_step; [|machine_step].
    apply machine_bind; [apply machine_pop_n|intros; apply machine_ret].
  - apply machine_bind; [|intros; apply machine_ret]. unfold handle_placeholder_count. repeat machine_step.
Qed.

(** ** Words and pushes, with more to come *)

Lemma read_word_app message b word rest : read_word message = Ok (word, rest) -> read_word (message ++ b) = Ok (word, rest ++ b).
Proof. destruct message as [|x [|y message]]; try done. intros [= <- <-]. done. Qed.
Lemma read_word_len message word rest : read_word message = Ok (word, rest) -> length message = S (S (length rest)).
Proof. destruct message as [|x [|y message]]; try done. by intros [= <- <-]. Qed.
Lemma push_chunks_app rest word :
  match push_chunks word rest with
  | Ok (chunks, rest') => (length rest' <= length rest)%nat /\ forall b, push_chunks word (rest ++ b) = Ok (chunks, rest' ++ b)
  | Err e => e = mid_word
  | _ => False
  end.
Proof.
  assert (forall n word rest, (length rest <= n)%nat ->
    match push_chunks word rest with
    | Ok (chunks, rest') => (length rest' <= length rest)%nat /\ forall b, push_chunks word (rest ++ b) = Ok (chunks, rest' ++ b)
    | Err e => e = mid_word
    | _ => False
    end) as H; [|by apply (H (length rest))].
  clear. induction n as [|n IH]; intros word [|x [|y rest]] Hl; try (cbn in Hl; lia);
    try (cbn [push_chunks app]; destruct (Z.shiftr word 14 =? 3) eqn:E; [|done]; split; [done|]; intros b; by destruct b; cbn; rewrite ?E).
  cbn [push_chunks app]. destruct (Z.shiftr word 14 =? 3) eqn:E; [done|]. specialize (IH (le_Z [x; y]) rest ltac:(cbn in Hl; lia)).
  destruct (push_chunks (le_Z [x; y]) rest) as [[chunks rest']|e| | |]; cbn; try done. destruct IH as [Hlen IH]. split; [cbn; lia|].
  intros b. by rewrite IH.
Qed.
Lemma handle_push_app word rest :
  match handle_push word rest with
  | Ok (v, rest') => (length rest' <= length rest)%nat /\ forall b, handle_push word (rest ++ b) = Ok (v, rest' ++ b)
  | Err e => is_incomplete_activity_trace_opcode e = true \/
             is_incomplete_activity_trace_opcode e = false /\ forall b, handle_push word (rest ++ b) = Err e
  | _ => False
  end.
Proof.
  unfold handle_push. destruct (_ && _); [right; by split|]. pose proof (push_chunks_app rest word) as H.
  destruct (push_chunks word rest) as [[chunks rest']|e| | |]; cbn; try done.
  - destruct H as [Hl H]. split; [done|]. intros b. by rewrite H.
  - left. by rewrite H.
Qed.

(** ** The loop *)

Definition after (es : list ActivityTraceEntry) (r : ActivityTraceDecoder * outcome DtxError (list ActivityTraceEntry)) :=
  let '(d, o) := r in (d, app es <$> o).

(** One round, with the loop's continuation. *)
Lemma add_entry_app es e : add_entry es e = es ++ add_entry [] e.
Proof. destruct e; [done|by rewrite app_nil_r]. Qed.
Lemma after_nil r : after [] r = r.
Proof. destruct r as [d []]; try done. Qed.
Lemma after_after es es' r : after es (after es' r) = after (es ++ es') r.
Proof. destruct r as [d []]; cbn; try done. by rewrite app_assoc. Qed.

Lemma decode_loop_entries f m es d : decode_loop f m es d = after es (decode_loop f m [] d).
Proof.
  revert m es d. induction f as [|f IH]; intros [|x m] es d; try (cbn; by rewrite ?app_nil_r). cbn [decode_loop].
  destruct (read_word (x :: m)) as [[word rest]|e| | |]; try done.
  - destruct (handle_word word) as [h|].
    + unfold mbind, st_bind. destruct (h d) as [d' [e| | | |]]; try done. rewrite IH, (IH _ (add_entry [] e)), after_after. by rewrite <- add_entry_app.
    + destruct (handle_push word rest) as [[v rest']|e| | |]; try done.
      * unfold push, mbind, st_bind, st_mod. by rewrite IH.
      * destruct (is_incomplete_activity_trace_opcode e); [unfold keep, mbind, st_bind, st_mod; cbn; by rewrite app_nil_r|done].
  - destruct (is_incomplete_activity_trace_opcode e); [unfold keep, mbind, st_bind, st_mod; cbn; by rewrite app_nil_r|done].
Qed.

(** More fuel than bytes changes nothing. *)
Lemma decode_loop_fuel f f' m d : (length m <= f)%nat -> (length m <= f')%nat -> decode_loop f m [] d = decode_loop f' m [] d.
Proof.
  revert f' m d. induction f as [|f IH]; intros [|f'] [|x m] d Hf Hf'; try (cbn in Hf, Hf'; lia); try done. cbn [decode_loop].
  destruct (read_word (x :: m)) as [[word rest]|e| | |] eqn:Er; try done. apply read_word_len in Er. cbn in Hf, Hf', Er.
  destruct (handle_word word) as [h|].
  - unfold mbind, st_bind. destruct (h d) as [d' [e| | | |]]; try done.
    rewrite (decode_loop_entries f), (decode_loop_entries f'). by rewrite (IH f') by lia.
  - pose proof (handle_push_app word rest) as Hp. destruct (handle_push word rest) as [[v rest']|e| | |]; try done.
    unfold push, mbind, st_bind, st_mod. apply IH; lia.
Qed.

(** Decoding what has arrived, and then the rest with what was kept. *)
Lemma decode_loop_cut f f' a b d :
  (length a <= f)%nat -> (length (a ++ b) <= f')%nat -> carry d = [] ->
  match decode_loop f a [] d with
  | (d1, Ok es) => (length (carry d1) <= length a)%nat /\
      decode_loop f' (a ++ b) [] d = after es (decode_loop (length (carry d1 ++ b)) (carry d1 ++ b) [] (set_carry [] d1))
  | (d1, Err e) => decode_loop f' (a ++ b) [] d = (d1, Err e)
  | _ => False
  end.
Proof.
  revert f' a d. induction f as [|f IH]; intros f' a d Hf Hf' Hc.
  { destruct a; [|cbn in Hf; lia]. cbn [decode_loop]. cbn [mret st_ret]. rewrite Hc. split; [done|]. rewrite after_nil.
    replace (set_carry [] d) with d by (destruct d; cbn in *; by rewrite Hc). by apply decode_loop_fuel. }
  destruct a as [|x a].
  { cbn [decode_loop mret st_ret]. rewrite Hc. split; [done|]. rewrite after_nil.
    replace (set_carry [] d) with d by (destruct d; cbn in *; by rewrite Hc). by apply decode_loop_fuel. }
  assert (forall m d1, keep m d = (d1, Ok tt) -> m = x :: a ->
    (length (carry d1) <= length (x :: a))%nat /\
    decode_loop f' ((x :: a) ++ b) [] d = after [] (decode_loop (length (carry d1 ++ b)) (carry d1 ++ b) [] (set_carry [] d1))) as Hkeep.
  { intros m d1 [= <-] ->. rewrite after_nil. destruct d as [s g bg t c]. cbn in Hc. subst c.
    unfold set_carry. cbn [carry stack generation background tables]. rewrite !app_nil_l. split; [done|]. by apply decode_loop_fuel. }
  destruct f' as [|f']; [cbn in Hf'; lia|]. cbn [app decode_loop]. change (x :: a ++ b) with ((x :: a) ++ b).
  destruct (read_word (x :: a)) as [[word rest]|e| | |] eqn:Er; try (by destruct a as [|? a]).
  - pose proof (read_word_app _ b _ _ Er) as Erb. rewrite Erb. apply read_word_len in Er. cbn in Hf, Hf', Er. rewrite length_app in Hf'.
    destruct (handle_word word) as [h|] eqn:Eh.
    + destruct (machine_word _ _ Eh d) as [Hr Hcd]. unfold mbind, st_bind. destruct (h d) as [d' [e|e| | |]]; try done.
      rewrite (decode_loop_entries f), (decode_loop_entries f'). cbn in Hcd.
      specialize (IH f' rest d' ltac:(lia) ltac:(rewrite length_app; lia) ltac:(congruence)).
      destruct (decode_loop f rest [] d') as [d1 [es|er| | |]]; try done; cbn.
      * destruct IH as [Hl ->]. rewrite after_after. split; [lia|done].
      * by rewrite IH.
    + pose proof (handle_push_app word rest) as Hp. destruct (handle_push word rest) as [[v rest']|e| | |]; try done.
      * destruct Hp as [Hl Hp]. rewrite Hp. unfold push, mbind, st_bind, st_mod.
        specialize (IH f' rest' (set_stack (stack d ++ [v]) d) ltac:(lia) ltac:(rewrite length_app; lia) ltac:(done)).
        destruct (decode_loop f rest' [] _) as [d1 [es|er| | |]]; try done. destruct IH as [Hl' IH]. split; [cbn; lia|done].
      * destruct Hp as [Hp|[Hp Hb]]; rewrite Hp; [|by rewrite Hb, Hp].
        cbn [mbind st_bind keep st_mod mret st_ret]. specialize (Hkeep (x :: a) _ eq_refl eq_refl).
        cbn [decode_loop app] in Hkeep. change (x :: a ++ b) with ((x :: a) ++ b) in Hkeep. rewrite Erb, Eh in Hkeep. exact Hkeep.
  - assert (is_incomplete_activity_trace_opcode e = true) as ->.
    { destruct a as [|y a]; cbn in Er; [|done]. by injection Er as <-. }
    specialize (Hkeep (x :: a) _ eq_refl eq_refl). exact Hkeep.
Qed.

(** What the loop does to a decoder with nothing carried. *)
Lemma decode_loop_ends m d :
  carry d = [] -> let '(d1, o) := decode_loop (length m) m [] d in
    returns o /\ match o with Ok _ => (length (carry d1) <= length m)%nat | _ => True end.
Proof.
  intros Hc. pose proof (decode_loop_cut (length m) (length (m ++ [])) m [] d ltac:(done) ltac:(done) Hc) as H.
  destruct (decode_loop _ m [] d) as [d1 []]; try done. by destruct H.
Qed.
Lemma decode_message_eq m d :
  m <> [] -> starts_with BPLIST m = false ->
  decode_message m d = decode_loop (length (carry d ++ m)) (carry d ++ m) [] (set_carry [] d).
Proof. intros Hm Hb. unfold decode_message. by rewrite bool_decide_false, Hb by done. Qed.

Lemma decode_two m1 m2 d :
  m1 <> [] -> m2 <> [] -> starts_with BPLIST m1 = false -> starts_with BPLIST m2 = false -> starts_with BPLIST (m1 ++ m2) = false ->
  decode_message (m1 ++ m2) d = (es ← decode_message m1; es' ← decode_message m2; mret (es ++ es')) d.
Proof.
  intros H1 H2 B1 B2 B12. rewrite decode_message_eq; [|by destruct m1|done]. unfold mbind at 1, st_bind at 1. rewrite (decode_message_eq m1) by done.
  rewrite app_assoc. pose proof (decode_loop_cut (length (carry d ++ m1)) (length ((carry d ++ m1) ++ m2)) (carry d ++ m1) m2 (set_carry [] d) ltac:(done) ltac:(done) ltac:(done)) as H.
  destruct (decode_loop (length (carry d ++ m1)) _ [] _) as [d1 [es|e| | |]]; try done. destruct H as [_ ->].
  unfold mbind, st_bind. rewrite (decode_message_eq m2) by done. by destruct (decode_loop _ (carry d1 ++ m2) [] _) as [d2 []].
Qed.

(** ** Bits of a pushed value *)

Definition bit_at (bs : list Z) (i : nat) : bool := Z.testbit (default 0 (bs !! (i / 8)%nat)) (7 - Z.of_nat (i mod 8)%nat).
Lemma byte_bit i j : (i / 8 = j / 8 -> i mod 8 = j mod 8 -> i = j)%nat.
Proof. intros Hd Hm. rewrite (Nat.div_mod_eq i 8), (Nat.div_mod_eq j 8). by rewrite Hd, Hm. Qed.
Lemma put_bit_spec chunk shift bs pos bs' pos' :
  put_bit chunk shift (bs, pos) = (bs', pos') -> (pos < 8 * length bs)%nat ->
  pos' = S pos /\ length bs' = length bs /\
  forall i, bit_at bs' i = bit_at bs i || (bool_decide (i = pos) && Z.testbit chunk (Z.of_nat shift)).
Proof.
  unfold put_bit. set (bit := Z.land _ 1). assert (bit = Z.b2z (Z.testbit chunk (Z.of_nat shift))) as Hb.
  { unfold bit. change 1 with (Z.ones 1). rewrite Z.land_ones by lia. change (2 ^ 1) with 2. rewrite <- Z.bit0_mod, Z.shiftr_spec by lia. done. }
  intros E Hpos. pose proof (f_equal fst E) as E1. pose proof (f_equal snd E) as E2. cbn [fst snd] in E1, E2. subst bs' pos'. clear E.
  split; [done|]. rewrite Hb. destruct (Z.testbit chunk (Z.of_nat shift)); cbn [Z.b2z Z.eqb].
  2: { split; [done|]. intros i. by rewrite andb_false_r, orb_false_r. }
  split; [apply length_alter|]. intros i. rewrite andb_true_r. unfold bit_at.
  assert (pos / 8 < length bs)%nat as Hlt by (apply Nat.Div0.div_lt_upper_bound; lia).
  pose proof (Nat.mod_upper_bound i 8 ltac:(lia)). pose proof (Nat.mod_upper_bound pos 8 ltac:(lia)).
  destruct (decide (i / 8 = pos / 8)%nat) as [Hd|Hd].
  - rewrite Hd, list_lookup_alter_eq. destruct (lookup_lt_is_Some_2 bs _ Hlt) as [b Eb]. rewrite Eb.
    cbn [fmap option_fmap option_map from_option]. unfold id. rewrite Z.lor_spec. f_equal. rewrite Z.shiftl_spec by lia.
    destruct (decide (i = pos)) as [->|Hne].
    + rewrite bool_decide_true by done. by rewrite Z.sub_diag.
    + rewrite bool_decide_false by done. pose proof (byte_bit i pos Hd).
      destruct (decide (i mod 8 < pos mod 8)%nat); [|by rewrite Z.testbit_neg_r by lia].
      rewrite <- (Z.pow_0_r 2). apply Z.pow2_bits_false. lia.
  - rewrite list_lookup_alter_ne by done. rewrite bool_decide_false by congruence. by rewrite orb_false_r.
Qed.

(** The bits [n, n-1, .., 0] of a chunk go to [pos, pos+1, ..]. *)
Lemma put_bits_spec chunk shifts bs pos :
  (pos + length shifts <= 8 * length bs)%nat ->
  let '(bs', pos') := fold_left (fun acc shift => put_bit chunk shift acc) shifts (bs, pos) in
  pos' = (pos + length shifts)%nat /\ length bs' = length bs /\
  forall i, bit_at bs' i = bit_at bs i ||
    (bool_decide (pos <= i < pos + length shifts)%nat && Z.testbit chunk (Z.of_nat (default 0%nat (shifts !! (i - pos)%nat)))).
Proof.
  revert bs pos. induction shifts as [|sh shifts IH]; intros bs pos Hl; cbn [fold_left length] in *.
  { split; [lia|]. split; [done|]. intros i. rewrite bool_decide_false by lia. by rewrite orb_false_r. }
  destruct (put_bit chunk sh (bs, pos)) as [bs1 pos1] eqn:E. destruct (put_bit_spec _ _ _ _ _ _ E ltac:(lia)) as (-> & Hl1 & H1).
  specialize (IH bs1 (S pos) ltac:(lia)). destruct (fold_left _ shifts (bs1, S pos)) as [bs' pos']. destruct IH as (-> & Hl' & IH).
  split; [lia|]. split; [lia|]. intros i. rewrite IH, H1. destruct (decide (i = pos)) as [->|Hne].
  - rewrite bool_decide_true by done. rewrite (bool_decide_false (S pos <= pos < _)%nat) by lia. rewrite bool_decide_true by lia.
    rewrite Nat.sub_diag. cbn. by rewrite orb_false_r.
  - rewrite (bool_decide_false (i = pos)) by done. cbn [andb]. rewrite orb_false_r. f_equal.
    destruct (decide (S pos <= i < S pos + length shifts)%nat) as [Hi|Hi].
    + rewrite !bool_decide_true by lia. cbn [andb]. do 2 f_equal. replace (i - pos)%nat with (S (i - S pos)) by lia. done.
    + rewrite !bool_decide_false by lia. done.
Qed.
Lemma put_chunk_spec chunk bs pos :
  (pos + 14 <= 8 * length bs)%nat ->
  let '(bs', pos') := put_chunk (bs, pos) chunk in
  pos' = (pos + 14)%nat /\ length bs' = length bs /\
  forall i, bit_at bs' i = bit_at bs i || (bool_decide (pos <= i < pos + 14)%nat && Z.testbit chunk (13 - Z.of_nat (i - pos)%nat)).
Proof.
  intros Hl. unfold put_chunk. pose proof (put_bits_spec chunk (rev (seq 0 14)) bs pos Hl) as H.
  destruct (fold_left _ _ _) as [bs' pos']. change (length (rev (seq 0 14))) with 14%nat in H. destruct H as (Hp & Hl' & H). split; [done|]. split; [done|].
  intros i. rewrite H. f_equal. case_bool_decide as Hi; [|done]. cbn [andb]. f_equal.
  remember (i - pos)%nat as j eqn:Ej. assert (j < 14)%nat as Hj by lia. clear -Hj.
  do 14 (destruct j as [|j]; [done|]). lia.
Qed.
Lemma put_chunks_spec chunks bs pos :
  (pos + 14 * length chunks <= 8 * length bs)%nat ->
  let '(bs', _) := fold_left put_chunk chunks (bs, pos) in
  length bs' = length bs /\
  forall i, bit_at bs' i = bit_at bs i ||
    (bool_decide (pos <= i < pos + 14 * length chunks)%nat && Z.testbit (default 0 (chunks !! ((i - pos) / 14)%nat)) (13 - Z.of_nat ((i - pos) mod 14)%nat)).
Proof.
  revert bs pos. induction chunks as [|c chunks IH]; intros bs pos Hl; cbn [fold_left length] in *.
  { split; [done|]. intros i. rewrite bool_decide_false by lia. by rewrite orb_false_r. }
  pose proof (put_chunk_spec c bs pos ltac:(lia)) as Hc. destruct (put_chunk (bs, pos) c) as [bs1 pos1]. destruct Hc as (-> & Hl1 & H1).
  specialize (IH bs1 (pos + 14)%nat ltac:(lia)). destruct (fold_left put_chunk chunks _) as [bs' pos']. destruct IH as [Hl' IH].
  split; [lia|]. intros i. rewrite IH, H1, <- orb_assoc. f_equal.
  destruct (decide (pos <= i < pos + 14)%nat) as [Hi|Hi].
  - rewrite (bool_decide_true (pos <= i < pos + 14)%nat) by lia. rewrite bool_decide_false by lia. rewrite bool_decide_true by lia.
    cbn [andb]. rewrite orb_false_r, Nat.div_small, Nat.mod_small by lia. done.
  - rewrite (bool_decide_false (pos <= i < pos + 14)%nat) by lia. cbn [andb orb].
    destruct (decide (pos + 14 <= i < pos + 14 + 14 * length chunks)%nat) as [Hj|Hj]; [|by rewrite !bool_decide_false by lia].
    rewrite !bool_decide_true by lia. cbn [andb]. replace (i - pos)%nat with ((i - (pos + 14)) + 1 * 14)%nat by lia.
    rewrite Nat.div_add, Nat.Div0.mod_add by lia. by rewrite Nat.add_1_r.
Qed.

(** ** Properties *)

(** C20. Where the device cuts its messages does not matter, if no cut makes a binary plist of
    what is decoded: decoding nonempty pieces one after the other gives the entries, the
    error and the decoder that decoding their concatenation gives, provided no piece, alone
    or joined to what follows it, begins with [bplist]. A piece that does is skipped by the
    code, so the condition cannot be left out. *)
Theorem trace_cut_invariant ms d :
  ms <> [] -> Forall (fun m => m <> []) ms -> (forall i, starts_with BPLIST (concat (drop i ms)) = false) ->
  decode_messages ms d = decode_message (concat ms) d.
Proof.
  intros Hms Hne Hb. revert d. induction Hne as [|m ms Hm Hne IH]; intros d; [done|]. clear Hms.
  assert (forall s, starts_with BPLIST (m ++ s) = false -> starts_with BPLIST m = false) as Hpre.
  { intros s Hs. destruct (starts_with BPLIST m) eqn:E; [|done]. apply starts_with_prefix in E.
    rewrite <- Hs. symmetry. apply starts_with_prefix. by apply prefix_app_r. }
  pose proof (Hb 0%nat) as H0. cbn [drop concat] in H0. destruct ms as [|m2 ms].
  { cbn [decode_messages concat]. rewrite app_nil_r. unfold mbind, st_bind. destruct (decode_message m d) as [d1 [es| | | |]]; try done.
    cbn. by rewrite app_nil_r. }
  cbn [concat]. rewrite (decode_two m (concat (m2 :: ms))).
  - change (decode_messages (m :: m2 :: ms) d) with ((es ← decode_message m; es' ← decode_messages (m2 :: ms); mret (es ++ es')) d).
    unfold mbind at 1 3, st_bind at 1 3. destruct (decode_message m d) as [d1 [es| | | |]]; try done.
    unfold mbind, st_bind. rewrite IH; [done|done|]. intros i. apply (Hb (S i)).
  - done.
  - apply Forall_cons in Hne as [Hm2 _]. cbn. by destruct m2.
  - by eapply Hpre.
  - apply (Hb 1%nat).
  - done.
Qed.
(** Every message is decoded to entries or refused: the decoder never runs past its
    input or its stack, and keeps at most what it had kept and the message. *)
Theorem trace_decode_total m d :
  let '(d', o) := decode_message m d in
  returns o /\ match o with Ok _ => len (carry d') <= len (carry d) + len m | _ => True end.
Proof.
  unfold decode_message. destruct (_ || _); [split; [done|pose proof (len_nonneg m); cbn; lia]|].
  unfold mbind, st_bind, st_get, st_mod. pose proof (decode_loop_ends (carry d ++ m) (set_carry [] d) eq_refl) as H.
  destruct (decode_loop _ _ [] _) as [d' o]. destruct H as [Hr H]. split; [done|]. destruct o; try done.
  unfold len. rewrite length_app in H. lia.
Qed.
(** A pushed value has the bits of its words: bit [i], from the highest bit of the
    first byte on, is bit [13 - i mod 14] of the word [i / 14], and past the last word
    there are only zero bits. *)
Theorem trace_push_bits chunks i :
  (i < 8 * length (chunk_bytes chunks))%nat ->
  bit_at (chunk_bytes chunks) i =
    match chunks !! (i / 14)%nat with Some c => Z.testbit c (13 - Z.of_nat (i mod 14)) | None => false end.
Proof.
  unfold chunk_bytes. set (n := (length chunks * 14)%nat). set (total := (n + (8 - n mod 8))%nat).
  assert (n < 8 * (total / 8))%nat as Hn.
  { pose proof (Nat.mod_upper_bound n 8 ltac:(lia)). pose proof (Nat.div_mod_eq n 8).
    assert (total = (n / 8 + 1) * 8)%nat as -> by (unfold total; lia). rewrite Nat.div_mul by lia. lia. }
  pose proof (put_chunks_spec chunks (repeat 0 (total / 8)) 0 ltac:(rewrite repeat_length; lia)) as H.
  destruct (fold_left put_chunk chunks _) as [bs' p]. destruct H as [Hl H]. cbn [fst]. rewrite Hl, repeat_length. intros Hi. rewrite H.
  assert (bit_at (repeat 0 (total / 8)) i = false) as ->.
  { unfold bit_at. destruct (repeat 0 (total / 8) !! (i / 8)%nat) as [b|] eqn:E; [|by rewrite Z.testbit_0_l].
    apply list_elem_of_lookup_2, list_elem_of_In, repeat_spec in E. subst. cbn. apply Z.testbit_0_l. }
  cbn [orb]. rewrite Nat.sub_0_r, Nat.add_0_l. case_bool_decide as Hc; cbn [andb].
  - destruct (lookup_lt_is_Some_2 chunks (i / 14)) as [c ->]; [apply Nat.Div0.div_lt_upper_bound; lia|done].
  - rewrite lookup_ge_None_2; [done|]. apply Nat.div_le_lower_bound; lia.
Qed.

(** *** What the decoder does not do *)

(** Words that never end a value: the carried bytes grow with every message. *)
Definition endless (n : nat) : bytes := concat (repeat [x00; x80] n).
Theorem trace_carry_unbounded k n d :
  (0 < n)%nat -> carry d = endless k -> decode_message (endless n) d = (set_carry (endless (k + n)) d, Ok []).
Proof.
  intros Hn Hc. assert (starts_with BPLIST (endless n) = false) as Hb by (destruct n; [lia|reflexivity]).
  rewrite decode_message_eq; [|destruct n; [lia|done]|done]. rewrite Hc.
  assert (endless k ++ endless n = endless (k + n)) as -> by (unfold endless; by rewrite repeat_app, concat_app).
  assert (forall j, push_chunks 0x8000 (endless j) = Err mid_word) as Hp.
  { induction j as [|j IH]; [done|]. unfold endless in *. cbn [repeat concat app push_chunks].
    change (le_Z [x00; x80]) with 0x8000. by rewrite IH. }
  destruct (k + n)%nat as [|j] eqn:E; [lia|]. unfold endless at 1 2. cbn [repeat concat app length]. fold (endless j).
  cbn [decode_loop read_word]. change (le_Z [x00; x80]) with 0x8000. change (handle_word 0x8000) with (@None (tr (option ActivityTraceEntry))).
  cbv match. unfold handle_push. cbn [negb andb]. change (negb (Z.shiftr 0x8000 14 =? 2) && negb (Z.shiftr 0x8000 14 =? 3)) with false.
  cbv match. rewrite Hp. done.
Qed.
End rendering.

(** A table of two columns and one row, cut inside the second word of a pushed value. *)
Definition no_debug (items : list ActivityTraceValue) : bytes := [].
Definition demo_words (ws : list Z) : bytes := concat (map (le_bytes 2) ws).
Definition demo_message : bytes :=
  demo_words [0x6800; 0x6800; 0x6800; (* the column "message" *) 0x9b59; 0x9737; 0x8d85; 0xe765; 0x6901; 0x0100; (* a row *) 0x6800; 0x0200].
Lemma trace_cut_invariant_witness :
  decode_messages no_debug [take 9 demo_message; drop 9 demo_message] decoder_default = decode_message no_debug demo_message decoder_default.
Proof.
  apply (trace_cut_invariant no_debug [take 9 demo_message; drop 9 demo_message] decoder_default); [done|by repeat constructor|].
  intros [|[|[|i]]]; reflexivity.
Defined.
Lemma trace_push_bits_witness : bit_at (chunk_bytes [0x1B59]) 2 = Z.testbit 0x1B59 11.
Proof. apply (trace_push_bits [0x1B59] 2). apply Nat.ltb_lt. reflexivity. Defined.
(** The row of the conversation above has a [message] and decodes to one entry. *)
Example demo_entry : exists e d, decode_message no_debug demo_message decoder_default = (d, Ok [e]) /\ message_type e = str "unknown".
Proof. eexists _, _. vm_compute. split; reflexivity. Qed.

End ActivityTrace.
