(* ===== verification/Gdb.v ===== *)
(** The GDB remote protocol of debugserver
    ([crates/ios-core/src/services/debugserver/mod.rs]).

    A packet is [$body#xx] with a checksum of two hexadecimal digits; the body may hold
    escapes and runs. [GdbRemoteClient] keeps the stream and the bytes read ahead. The
    selection of a service by the device's version is left to the semver crate's
    [major]. *)

From S2P Require Import Prelude Socket Utf8 Text.

Module Gdb.
Import Net Socket Text.

Definition LEGACY_SERVICE_NAME : bytes := str "com.apple.debugserver".
Definition SECURE_SERVICE_NAME : bytes := str "com.apple.debugserver.DVTSecureSocketProxy".

Record ParsedPacket := mkPacket { payload : bytes; consumed : nat }.

Inductive DebugserverError :=
| GdbIo
| InvalidPayload
| Checksum (expected computed : Z)
| GdbUtf8.
#[export] Instance gdb_io_error : Socket.IoError DebugserverError := GdbIo.

Definition select_service_name (major : Z) : bytes := if 15 <=? major then SECURE_SERVICE_NAME else LEGACY_SERVICE_NAME.

Definition checksum_byte (payload : bytes) : Z := fold_left (fun acc b => (acc + Zb b) mod 256) payload 0.
Definition checksum (payload : bytes) : bytes := hex_byte (bZ (checksum_byte payload)).
Definition DOLLAR : byte := x24.
Definition HASH : byte := x23.
Definition format_packet (payload : bytes) : bytes := [x2b; DOLLAR] ++ payload ++ [HASH] ++ checksum payload.

Definition nibble (b : byte) : option Z :=
  let z := Zb b in
  if (48 <=? z) && (z <=? 57) then Some (z - 48)
  else if (97 <=? z) && (z <=? 102) then Some (z - 97 + 10)
  else if (65 <=? z) && (z <=? 70) then Some (z - 65 + 10)
  else None.
Definition parse_hex_byte (digits : bytes) : option Z :=
  match digits with
  | [high; low] => h ← nibble high; l ← nibble low; Some (Z.lor (Z.shiftl h 4) l)
  | _ => None
  end.

(** [iter().position(|&b| b == c)] *)
Fixpoint position (c : byte) (l : bytes) : option nat :=
  match l with
  | [] => None
  | b :: l => if decide (b = c) then Some O else S <$> position c l
  end.

Definition ESCAPE : byte := x7d.
Definition REPEAT : byte := x2a.
Definition REPEAT_BIAS : Z := 29.
(** The output is built at its end. *)
Fixpoint decode_from (out body : bytes) : bytes :=
  match body with
  | [] => out
  | b :: body =>
      if decide (b = ESCAPE) then
        match body with
        | escaped :: body => decode_from (out ++ [bZ (Z.lxor (Zb escaped) 0x20)]) body
        | [] => out ++ [ESCAPE]
        end
      else if decide (b = REPEAT) then
        match body with
        | count :: body =>
            match last out with
            | Some previous => decode_from (out ++ repeat previous (Z.to_nat (sat_sub (Zb count) REPEAT_BIAS))) body
            | None => decode_from (out ++ [REPEAT; count]) body
            end
        | [] => out ++ [REPEAT]
        end
      else decode_from (out ++ [b]) body
  end.
Definition decode_body (body : bytes) : bytes := decode_from [] body.

Definition PACKET_SUFFIX_LEN : nat := 3.
Definition try_parse_packet (data : bytes) : outcome DebugserverError (option ParsedPacket) :=
  match position DOLLAR data, position HASH data with
  | Some start, Some end_ =>
      if (end_ <? start)%nat then Ok None
      else if (length data <? end_ + PACKET_SUFFIX_LEN)%nat then Ok None else
      body ← slice data (start + 1) end_;
      digits ← slice data (end_ + 1) (end_ + PACKET_SUFFIX_LEN);
      match parse_hex_byte digits with
      | None => Err InvalidPayload
      | Some expected =>
          let computed := checksum_byte body in
          if negb (computed =? expected) then Err (Checksum expected computed) else
          let payload := decode_body body in
          if from_utf8 payload then Ok (Some (mkPacket payload (end_ + PACKET_SUFFIX_LEN))) else Err GdbUtf8
      end
  | _, _ => Ok None
  end.
Definition parse_packet (data : bytes) : option ParsedPacket := match try_parse_packet data with Ok p => p | _ => None end.

(** ** The client *)

Record GdbRemoteClient := mkClient { stream : Socket; read_buf : bytes }.
Definition gdb_new (s : Socket) : GdbRemoteClient := mkClient s [].
Abbreviation gdb := (st GdbRemoteClient DebugserverError).
Definition on_stream {A} (m : st Socket DebugserverError A) : gdb A := fun c =>
  let '(s, o) := m (stream c) in (mkClient s (read_buf c), o).
Definition set_buf (f : bytes -> bytes) : gdb unit := st_mod (fun c => mkClient (stream c) (f (read_buf c))).

Definition send (payload : bytes) : gdb unit := on_stream (write_all (format_packet payload) ;; flush).
Definition ACK : byte := x2b.
Definition NACK : byte := x2d.
Definition write_ack (ack : byte) : gdb unit := on_stream (write_all [ack] ;; flush).

Definition SCRATCH : nat := 1024.
(** Every round without a packet reads at least one byte. *)
Fixpoint recv_loop (fuel : nat) : gdb bytes :=
  match fuel with
  | O => st_lift OutOfFuel
  | S fuel =>
      c ← st_get;
      match try_parse_packet (read_buf c) with
      | Ok (Some packet) =>
          set_buf (drop (consumed packet)) ;;
          write_ack ACK ;;
          mret (payload packet)
      | Err err =>
          set_buf (fun _ => []) ;;
          write_ack NACK ;;
          st_fail err
      | Ok None =>
          bs ← on_stream (read SCRATCH);
          match bs with
          | [] => st_fail InvalidPayload
          | _ => set_buf (fun buf => buf ++ bs) ;; recv_loop fuel
          end
      | Panic => st_lift Panic
      | Pending | OutOfFuel => st_lift OutOfFuel
      end
  end.
Definition recv : gdb bytes := c ← st_get; recv_loop (S (S (rx_bytes (stream c)))).
Definition request (payload : bytes) : gdb bytes := send payload ;; recv.

(** ** What a device sends *)

Definition special (b : byte) : bool := bool_decide (b ∈ [HASH; DOLLAR; ESCAPE; REPEAT]).
Definition escape (p : bytes) : bytes := concat (map (fun b => if special b then [ESCAPE; bZ (Z.lxor (Zb b) 0x20)] else [b]) p).
Definition framed (body : bytes) : bytes := [DOLLAR] ++ body ++ [HASH] ++ checksum body.
Definition device_packet (p : bytes) : bytes := framed (escape p).

(** ** Searching *)

Lemma position_at c l1 l2 : c ∉ l1 -> position c (l1 ++ c :: l2) = Some (length l1).
Proof.
  induction l1 as [|b l1 IH]; intros Hc; cbn; [by rewrite decide_True|]. apply not_elem_of_cons in Hc as [Hb Hc].
  by rewrite decide_False, IH.
Qed.
Lemma position_none c l : position c l = None <-> c ∉ l.
Proof.
  induction l as [|b l IH]; cbn; [split; [by intros _ ?%not_elem_of_nil|done]|]. rewrite not_elem_of_cons, <- IH.
  case_decide; [split; [done|by intros []]|]. destruct (position c l); cbn; split; try done; by intros [].
Qed.
Lemma position_split c l i : position c l = Some i -> exists l1 l2, l = l1 ++ c :: l2 /\ length l1 = i /\ c ∉ l1.
Proof.
  revert i. induction l as [|b l IH]; intros i; cbn; [done|]. case_decide as Hb.
  - intros [= <-]. subst b. exists [], l. split; [done|]. split; [done|apply not_elem_of_nil].
  - destruct (position c l) as [j|]; [|done]. intros [= <-]. destruct (IH j eq_refl) as (l1 & l2 & -> & Hj & Hc).
    exists (b :: l1), l2. split; [done|]. split; [by rewrite <- Hj|]. apply not_elem_of_cons. split; [congruence|done].
Qed.

(** ** Checksums and bodies *)

Lemma checksum_range p : 0 <= checksum_byte p < 256.
Proof.
  unfold checksum_byte. rewrite <- fold_left_rev_right. destruct (rev p) as [|b l]; cbn; [lia|]. apply Z.mod_pos_bound. lia.
Qed.
Lemma nibble_digit d : 0 <= d < 16 -> nibble (hex_digit false d) = Some d.
Proof.
  intros Hd. unfold nibble, hex_digit. rewrite Zb_bZ, Z.mod_small by (case_match; lia). destruct (d <? 10) eqn:E.
  - rewrite !(proj2 (Z.leb_le _ _)) by lia. cbn [andb]. f_equal. lia.
  - rewrite (proj2 (Z.leb_le 48 _)), (proj2 (Z.leb_gt _ 57)) by lia. cbn [andb]. rewrite !(proj2 (Z.leb_le _ _)) by lia. cbn [andb]. f_equal. lia.
Qed.
Lemma parse_checksum p : parse_hex_byte (checksum p) = Some (checksum_byte p).
Proof.
  pose proof (checksum_range p). unfold checksum, hex_byte, parse_hex_byte. rewrite Zb_bZ, (Z.mod_small (checksum_byte p)) by lia.
  rewrite !nibble_digit by (Z.div_mod_to_equations; lia). cbn [mbind option_bind]. f_equal.
  rewrite Z.shiftl_mul_pow2, lor_low by (Z.div_mod_to_equations; lia). Z.div_mod_to_equations; lia.
Qed.

Lemma decode_escape out p : decode_from out (escape p) = out ++ p.
Proof.
  revert out. induction p as [|b p IH]; intros out; [by rewrite app_nil_r|]. unfold escape. cbn [map concat]. fold (escape p).
  unfold special. case_bool_decide as Hb.
  - cbn [app decode_from]. rewrite decide_True by done. rewrite IH, <- app_assoc. cbn [app]. do 2 f_equal.
    rewrite !elem_of_cons in Hb. destruct Hb as [->|[->|[->|[->|[]%not_elem_of_nil]]]]; reflexivity.
  - cbn [app decode_from]. rewrite !elem_of_cons in Hb. rewrite !decide_False by (intros ->; apply Hb; auto). rewrite IH, <- app_assoc. done.
Qed.
Lemma escape_clean p c : c = HASH \/ c = DOLLAR -> c ∉ escape p.
Proof.
  intros Hc. induction p as [|b p IH]; [apply not_elem_of_nil|]. unfold escape. cbn [map concat]. fold (escape p).
  rewrite not_elem_of_app. split; [|done]. unfold special. case_bool_decide as Hb.
  - rewrite !elem_of_cons in Hb. destruct Hb as [->|[->|[->|[->|[]%not_elem_of_nil]]]]; destruct Hc as [-> | ->];
      by apply (bool_decide_unpack _).
  - rewrite list_elem_of_singleton. intros <-. apply Hb. destruct Hc as [-> | ->]; by apply (bool_decide_unpack _).
Qed.

(** ** Packets *)

Lemma framed_len body : length (framed body) = (length body + 4)%nat.
Proof. unfold framed, checksum, hex_byte. rewrite !length_app. cbn. lia. Qed.

(** A whole frame, with whatever follows. *)
Lemma parse_framed body rest :
  HASH ∉ body ->
  try_parse_packet (framed body ++ rest) =
    if from_utf8 (decode_body body) then Ok (Some (mkPacket (decode_body body) (length (framed body)))) else Err GdbUtf8.
Proof.
  intros Hh. unfold try_parse_packet. rewrite framed_len. unfold framed. rewrite <- !app_assoc.
  assert (position DOLLAR ([DOLLAR] ++ body ++ [HASH] ++ checksum body ++ rest) = Some 0%nat) as -> by done.
  assert (position HASH ([DOLLAR] ++ body ++ [HASH] ++ checksum body ++ rest) = Some (S (length body))) as ->.
  { rewrite app_assoc. apply (position_at HASH ([DOLLAR] ++ body)). cbn. by apply not_elem_of_cons. }
  rewrite (proj2 (Nat.ltb_ge _ _)) by lia. cbn [length app]. unfold PACKET_SUFFIX_LEN.
  rewrite (proj2 (Nat.ltb_ge _ _)) by (rewrite !length_app; cbn; lia).
  change (DOLLAR :: body ++ HASH :: checksum body ++ rest) with ([DOLLAR] ++ body ++ HASH :: checksum body ++ rest).
  assert (slice ([DOLLAR] ++ body ++ HASH :: checksum body ++ rest) (0 + 1) (S (length body)) = Ok (E := DebugserverError) body) as ->
    by exact (slice_app [DOLLAR] body (HASH :: checksum body ++ rest)).
  cbn [mbind outcome_bind].
  assert (slice ([DOLLAR] ++ body ++ HASH :: checksum body ++ rest) (S (length body) + 1) (S (length body) + 3) = Ok (E := DebugserverError) (checksum body)) as ->.
  { pose proof (slice_app (E := DebugserverError) ([DOLLAR] ++ body ++ [HASH]) (checksum body) rest) as H. rewrite <- !app_assoc in H.
    rewrite !length_app in H. change (length (checksum body)) with 2%nat in H. cbn [length app] in *.
    replace (S (length body) + 1)%nat with (1 + (length body + 1))%nat by lia. by replace (S (length body) + 3)%nat with (1 + (length body + 1) + 2)%nat by lia. }
  cbn [mbind outcome_bind]. rewrite parse_checksum, Z.eqb_refl. cbn [negb]. by replace (S (length body) + 3)%nat with (length body + 4)%nat by lia.
Qed.
(** A frame that has not arrived whole. *)
Lemma parse_part body buf more rest :
  HASH ∉ body -> buf ++ more = framed body ++ rest -> (length buf < length (framed body))%nat -> try_parse_packet buf = Ok None.
Proof.
  intros Hh E Hl. assert (buf = take (length buf) (framed body)) as Eb.
  { apply (f_equal (take (length buf))) in E. rewrite take_app_length, take_app_le in E by lia. done. }
  rewrite framed_len in Hl. unfold try_parse_packet. destruct (position DOLLAR buf) as [st|]; [|done].
  destruct (position HASH buf) as [e|] eqn:Ee; [|done]. destruct (e <? st)%nat; [done|].
  apply position_split in Ee as (l1 & l2 & El & <- & Hc). unfold PACKET_SUFFIX_LEN.
  assert (length l1 = S (length body)) as ->; [|by rewrite (proj2 (Nat.ltb_lt _ _)) by lia].
  assert (exists l3, framed body = l1 ++ HASH :: l2 ++ l3) as [l3 Ef].
  { exists (drop (length buf) (framed body)). rewrite <- (take_drop (length buf) (framed body)) at 1. rewrite <- Eb, El. by rewrite <- app_assoc. }
  assert (position HASH (framed body) = Some (length l1)) as H1 by (rewrite Ef; by apply position_at).
  assert (position HASH (framed body) = Some (S (length body))) as H2; [|congruence].
  unfold framed. rewrite app_assoc. apply (position_at HASH ([DOLLAR] ++ body)). cbn. by apply not_elem_of_cons.
Qed.

(** What the parser accepts: the first [$], up to the first [#], with its checksum. *)
Lemma try_parse_sound data :
  match try_parse_packet data with
  | Ok (Some q) => exists pre body digits rest, data = pre ++ [DOLLAR] ++ body ++ [HASH] ++ digits ++ rest /\ DOLLAR ∉ pre /\
      length digits = 2%nat /\ parse_hex_byte digits = Some (checksum_byte body) /\ payload q = decode_body body /\
      from_utf8 (payload q) = true /\ drop (consumed q) data = rest
  | Ok None | Err _ => True
  | _ => False
  end.
Proof.
  unfold try_parse_packet. destruct (position DOLLAR data) as [st|] eqn:Es; [|done]. destruct (position HASH data) as [e|] eqn:Ee; [|done].
  destruct (e <? st)%nat eqn:El; [done|]. apply Nat.ltb_ge in El. unfold PACKET_SUFFIX_LEN.
  destruct (length data <? e + 3)%nat eqn:Ed; [done|]. apply Nat.ltb_ge in Ed.
  apply position_split in Es as (pre & l2 & -> & <- & Hpre). apply position_split in Ee as (l3 & l4 & E & <- & _).
  assert (exists body, l3 = pre ++ [DOLLAR] ++ body) as [body ->].
  { assert (length pre <> length l3) as Hne.
    { intros Hl. apply app_inj_1 in E as [_ E]; [|done]. discriminate E. }
    apply app_eq_inv in E as [(k & E1 & E2)|(k & E1 & E2)].
    - apply (f_equal length) in E1. rewrite length_app in E1. lia.
    - destruct k as [|b k]; [rewrite app_nil_r in E1; congruence|]. injection E2 as -> _. by exists k. }
  rewrite E. rewrite <- !app_assoc in *. rewrite E, !length_app in Ed. cbn [length] in Ed.
  assert (exists d1 d2 rest, l4 = [d1; d2] ++ rest) as (d1 & d2 & rest & ->).
  { destruct l4 as [|d1 [|d2 rest]]; cbn in Ed; try lia. by exists d1, d2, rest. }
  rewrite slice_ok by (rewrite !length_app; cbn; lia). rewrite slice_ok by (rewrite !length_app; cbn; lia). cbn [mbind outcome_bind].
  rewrite !length_app. cbn [length].
  replace (length pre + (1 + length body) + 3 - (length pre + (1 + length body) + 1))%nat with 2%nat by lia.
  replace (length pre + (1 + length body) - (length pre + 1))%nat with (length body) by lia.
  assert (drop (length pre + (1 + length body) + 1) (pre ++ [DOLLAR] ++ body ++ HASH :: [d1; d2] ++ rest) = [d1; d2] ++ rest) as ->.
  { pose proof (drop_app_length (pre ++ [DOLLAR] ++ body ++ [HASH]) ([d1; d2] ++ rest)) as H. rewrite <- !app_assoc, !length_app in H.
    cbn [length] in H. by replace (length pre + (1 + length body) + 1)%nat with (length pre + (1 + (length body + 1)))%nat by lia. }
  assert (drop (length pre + 1) (pre ++ [DOLLAR] ++ body ++ HASH :: [d1; d2] ++ rest) = body ++ HASH :: [d1; d2] ++ rest) as ->.
  { pose proof (drop_app_length (pre ++ [DOLLAR]) (body ++ HASH :: [d1; d2] ++ rest)) as H. rewrite <- !app_assoc, !length_app in H. exact H. }
  rewrite take_app_length. change (take 2 ([d1; d2] ++ rest)) with [d1; d2].
  destruct (parse_hex_byte [d1; d2]) as [expected|] eqn:Ex; [|done].
  destruct (checksum_byte body =? expected) eqn:Ec; cbn [negb]; [|done]. apply Z.eqb_eq in Ec.
  destruct (from_utf8 (decode_body body)) eqn:Eu; [|done]. exists pre, body, [d1; d2], rest. cbn [payload consumed].
  split; [done|]. split; [done|]. split; [done|]. split; [by rewrite Ec|]. split; [done|]. split; [done|].
  pose proof (drop_app_length (pre ++ [DOLLAR] ++ body ++ [HASH; d1; d2]) rest) as H. rewrite <- !app_assoc, !length_app in H.
  cbn [length] in H. by replace (length pre + (1 + length body) + 3)%nat with (length pre + (1 + (length body + 3)))%nat by lia.
Qed.

(** ** The client *)

Lemma wpx_on_gdb_stream {A} (m : st Socket DebugserverError A) (Q : A -> GdbRemoteClient -> Prop) R T c :
  wpx m (fun a s => Q a (mkClient s (read_buf c))) (fun s => R (mkClient s (read_buf c)))
    (fun s => T (mkClient s (read_buf c))) (stream c) ->
  wpx (on_stream m) Q R T c.
Proof. unfold wpx, on_stream. by destruct (m (stream c)) as [s []]. Qed.
Lemma write_ack_wpx ack c :
  wpx (write_ack ack) (fun _ c' => read_buf c' = read_buf c /\ traffic [] [ack] (stream c) (stream c')) (fun _ => True) (fun _ => True) c.
Proof.
  unfold write_ack. apply wpx_on_gdb_stream. wpx_step. eapply wpx_mono; [apply write_all_traffic| |done|done]. cbv beta. intros _ s1 H1.
  eapply wpx_mono; [apply flush_traffic| |done|done]. cbv beta. intros _ s2 H2. split; [done|].
  exact (traffic_trans _ _ _ _ _ _ _ H1 H2).
Qed.

(** The bytes a call took in: those read ahead and those it read. *)
Definition received (c c' : GdbRemoteClient) (i : bytes) : Prop := read_buf c ++ data (rx (stream c)) = i ++ read_buf c' ++ data (rx (stream c')).
(** A frame the client may return [p] for. *)
Definition frame_of (i p : bytes) : Prop :=
  exists pre body digits, i = pre ++ [DOLLAR] ++ body ++ [HASH] ++ digits /\ DOLLAR ∉ pre /\ length digits = 2%nat /\
    parse_hex_byte digits = Some (checksum_byte body) /\ p = decode_body body /\ from_utf8 p = true.

Lemma recv_loop_wpx fuel c :
  (rx_bytes (stream c) + 1 < fuel)%nat ->
  wpx (recv_loop fuel) (fun p c' => exists i, received c c' i /\ frame_of i p /\ tx (stream c') = tx (stream c) ++ [ACK])
    (fun _ => True) (fun _ => True) c.
Proof.
  revert c. induction fuel as [|fuel IH]; intros c Hf; [lia|]. cbn [recv_loop]. wpx_step. wpx_step.
  pose proof (try_parse_sound (read_buf c)) as Hp. destruct (try_parse_packet (read_buf c)) as [[q|]|e| | |]; try done.
  - destruct Hp as (pre & body & digits & rest & Eb & Hpre & Hd & Hx & Hq & Hu & Hrest).
    wpx_step. unfold set_buf. wpx_step. wpx_step. eapply wpx_mono; [apply write_ack_wpx| |done|done]. cbv beta. cbn [stream read_buf].
    intros _ c' [Hbuf [Hdata Htx]]. apply wpx_ret. exists (pre ++ [DOLLAR] ++ body ++ [HASH] ++ digits). split; [|split; [|done]].
    + unfold received. rewrite Hbuf, Hrest, Hdata, Eb. by rewrite <- !app_assoc.
    + by exists pre, body, digits.
  - wpx_step. apply wpx_on_gdb_stream. pose proof (rx_read_spec (io_error (E := DebugserverError)) SCRATCH (rx (stream c)) ltac:(unfold SCRATCH; lia)) as Hr.
    unfold wpx at 1, read. destruct (rx_read io_error _ (rx (stream c))) as [l [bs|e| | |]]; try done.
    destruct Hr as [_ Hd]. destruct bs as [|b bs]; [done|]. set (ch := b :: bs) in *. wpx_step. unfold set_buf. wpx_step. cbn [stream read_buf].
    eapply wpx_mono; [apply IH|..]; cbn [stream]; [unfold rx_bytes in *; rewrite Hd, length_app in Hf; unfold ch in Hf; cbn [length set_rx rx] in *; lia| |done|done].
    cbv beta. intros p c' (i & Hrec & Hi & Htx). exists i. split; [|done]. unfold received in *. cbn [read_buf stream set_rx rx] in *.
    rewrite <- Hrec, Hd, <- app_assoc. done.
  - wpx_step. unfold set_buf. wpx_step. wpx_step. eapply wpx_mono; [apply write_ack_wpx|done..].
Qed.

Lemma recv_loop_flows fuel body rest c :
  (rx_bytes (stream c) + 1 < fuel)%nat -> HASH ∉ body -> from_utf8 (decode_body body) = true -> flowing (stream c) ->
  read_buf c ++ data (rx (stream c)) = framed body ++ rest ->
  exists c', recv_loop fuel c = (c', Ok (decode_body body)) /\ read_buf c' ++ data (rx (stream c')) = rest /\
    tx (stream c') = tx (stream c) ++ [ACK] /\ flowing (stream c').
Proof.
  intros Hf Hh Hu. revert c Hf. induction fuel as [|fuel IH]; intros c Hf Hfl Hd; [lia|]. cbn [recv_loop]. rewrite st_bind_get.
  destruct (decide (length (read_buf c) < length (framed body))%nat) as [Hlt|Hge].
  - rewrite (parse_part body _ _ _ Hh Hd Hlt).
    destruct (flowing_read_some (E := DebugserverError) SCRATCH (stream c) Hfl ltac:(unfold SCRATCH; lia)) as (ch & s' & Er & Hne & Hfl' & Hch & Htx).
    { intros E0. rewrite E0, app_nil_r in Hd. rewrite Hd, length_app in Hlt. lia. }
    unfold mbind, st_bind, on_stream. rewrite Er. destruct ch as [|b ch]; [done|]. set (chunk := b :: ch) in *. unfold set_buf, st_mod. cbn [stream read_buf].
    destruct (IH (mkClient s' (read_buf c ++ chunk))) as (c' & E & Hbuf & Htx' & Hfl''); cbn [stream read_buf].
    + unfold rx_bytes in *. rewrite Hch, length_app in Hf. unfold chunk in Hf. cbn in Hf. lia.
    + done.
    + by rewrite <- app_assoc, <- Hch.
    + exists c'. split; [exact E|]. split; [done|]. split; [|done]. cbn [stream] in Htx'. congruence.
  - assert (exists r, read_buf c = framed body ++ r /\ rest = r ++ data (rx (stream c))) as (r & Er & ->).
    { apply app_eq_inv in Hd as [(k & E1 & E2)|(k & E1 & E2)]; [by exists k|].
      assert (k = []) as -> by (destruct k; [done|]; apply (f_equal length) in E1; rewrite length_app in E1; cbn [length] in E1; lia).
      rewrite app_nil_r in E1. exists []. rewrite app_nil_r. by rewrite <- E1, E2. }
    rewrite Er, parse_framed, Hu by done. unfold mbind, st_bind, set_buf, st_mod, write_ack, on_stream. cbn [stream read_buf consumed payload].
    unfold mbind, st_bind. rewrite write_all_open by apply Hfl. rewrite flush_open by done. cbn [mret st_ret].
    eexists. split; [done|]. cbn [read_buf stream rx tx]. rewrite Er, drop_app_length. split; [done|]. split; [done|]. by split; [|apply Hfl].
Qed.

(** ** Properties *)

(** C21. What a device sends arrives: when the bytes read ahead and those to come start with a
    packet whose payload [p] is UTF-8, escaped as the protocol says, in whatever portions,
    [recv] returns [p], acknowledges it, and leaves what follows. The packet's [$] is the first
    unread byte; stray bytes before it are the subject of [gdb_stray_hash_blocks]. *)
Theorem gdb_recv_delivers p rest c :
  from_utf8 p = true -> flowing (stream c) -> read_buf c ++ data (rx (stream c)) = device_packet p ++ rest ->
  exists c', recv c = (c', Ok p) /\ read_buf c' ++ data (rx (stream c')) = rest /\ tx (stream c') = tx (stream c) ++ [ACK].
Proof.
  intros Hu Hfl Hd. pose proof (decode_escape [] p) as Hdec. fold (decode_body (escape p)) in Hdec. rewrite app_nil_l in Hdec.
  destruct (recv_loop_flows (S (S (rx_bytes (stream c)))) (escape p) rest c) as (c' & E & ? & ? & _); try done.
  - lia.
  - apply escape_clean. by left.
  - by rewrite Hdec.
  - rewrite Hdec in E. by exists c'.
Qed.
Definition demo_payload : bytes := str "a#b$c}d*e".
Lemma gdb_recv_delivers_witness : exists c',
  recv (gdb_new (mkSocket [Chunk (take 5 (device_packet demo_payload)); Chunk (drop 5 (device_packet demo_payload) ++ str "$OK")] [] [])) = (c', Ok demo_payload) /\
  read_buf c' ++ data (rx (stream c')) = str "$OK".
Proof.
  destruct (gdb_recv_delivers demo_payload (str "$OK")
    (gdb_new (mkSocket [Chunk (take 5 (device_packet demo_payload)); Chunk (drop 5 (device_packet demo_payload) ++ str "$OK")] [] []))) as (c' & E & Hd & _).
  - reflexivity.
  - split; [done|]. repeat constructor; by eexists.
  - reflexivity.
  - by exists c'.
Defined.

(** [recv] returns, and only frames that arrived whole and undamaged: a payload it
    returns is the decoded, UTF-8 body of the first [$] to the next [#] of what it took
    in, with the checksum the frame carries, and has been acknowledged once. *)
Theorem gdb_recv_sound c c' o :
  recv c = (c', o) ->
  match o with
  | Ok p => exists i, received c c' i /\ frame_of i p /\ tx (stream c') = tx (stream c) ++ [ACK]
  | Err _ | Pending => True
  | Panic | OutOfFuel => False
  end.
Proof.
  intros E. unfold recv in E. rewrite st_bind_get in E.
  pose proof (recv_loop_wpx (S (S (rx_bytes (stream c)))) c ltac:(lia)) as H. unfold wpx in H. rewrite E in H. by destruct o.
Qed.
Lemma gdb_recv_sound_witness : exists c' i,
  let c := gdb_new (mkSocket [Chunk (str "+$OK#9a")] [] []) in
  recv c = (c', Ok (str "OK")) /\ received c c' i /\ frame_of i (str "OK").
Proof.
  set (c := gdb_new (mkSocket [Chunk (str "+$OK#9a")] [] [])). destruct (recv c) as [c' o] eqn:E.
  assert (o = Ok (str "OK")) as -> by (apply (f_equal snd) in E; symmetry in E; cbn [snd] in E; rewrite E; vm_compute; reflexivity).
  destruct (gdb_recv_sound _ _ _ E) as (i & ? & ? & _). by exists c', i.
Defined.

(** *** What the client does not do *)

(** A [#] before the first [$] blocks the client for good: nothing that arrives later
    is a packet to it. *)
Theorem gdb_stray_hash_blocks l1 l2 more :
  HASH ∉ l1 -> DOLLAR ∉ l1 -> try_parse_packet (l1 ++ HASH :: l2 ++ more) = Ok None.
Proof.
  intros Hh Hd. unfold try_parse_packet. destruct (position DOLLAR _) as [st|] eqn:Es; [|done]. rewrite position_at by done.
  assert (length l1 < st)%nat; [|by rewrite (proj2 (Nat.ltb_lt _ _)) by done].
  apply position_split in Es as (l3 & l4 & E & <- & _). apply app_eq_inv in E as [(k & E1 & E2)|(k & E1 & E2)].
  - exfalso. destruct k as [|b k]; [discriminate E2|]. injection E2 as <- _. apply Hd. rewrite E1, elem_of_app. right. by left.
  - destruct k as [|b k]; [discriminate E2|]. rewrite E1, length_app. cbn. lia.
Qed.
(** A damaged frame read together with the start of the next one leaves the client in
    that state. *)
Example damaged_frame_blocks :
  let s := mkSocket [Chunk (str "$OK#00$qu"); Chunk (str "x#66"); Chunk (str "$OK#9a")] [] [] in
  let '(c1, o1) := recv (gdb_new s) in let '(_, o2) := recv c1 in o1 = Err (Checksum 0 154) /\ o2 = Pending.
Proof. vm_compute. split; reflexivity. Qed.
(** [send] does not escape its payload. *)
Example payload_unescaped : parse_packet (format_packet (str "a#b")) = None.
Proof. vm_compute. reflexivity. Qed.

End Gdb.
