(* ===== verification/Tunnel.v ===== *)
(** The packet tunnel ([crates/ios-core/src/tunnel/mod.rs], [forward.rs]).

    [forward_packets] copies IPv6 packets between the stream to the device and a TUN
    device. Two tasks share the work: [read_stream_packets] reads whole packets off the
    stream into a channel, and the loop of [forward_packets_inner] selects between the
    channel, the TUN device and the cancel signal. [Forward] has the state of both, and
    [step] is one move of either: a poll of the reader, a send on the channel, a branch of
    the [select!], or a part of a branch's body. Which move comes next is up to the
    scheduler, so a run is any list of events. The TUN device is a parameter: an event says
    what it returned. *)

From S2P Require Import Prelude Socket.

Module Tunnel.
Import Net Socket.

Inductive TunnelError :=
| TIo
| TProtocol (m : msg)
| TTunDevice.
#[export] Instance tunnel_io_error : IoError TunnelError := TIo.

(** ** The MTU *)

Definition IPV6_MIN_MTU : Z := 1280.
Definition IPV6_HEADER_LEN : Z := 40.
Definition MAX_TUNNEL_MTU : Z := 65535.

Record ValidatedMtu := mkMtu { as_u16 : Z }.
Definition mtu_new (value : Z) : outcome TunnelError ValidatedMtu :=
  if value <? IPV6_MIN_MTU
  then Err (TProtocol (Msg "invalid tunnel MTU {value}: IPv6 requires at least {IPV6_MIN_MTU} bytes" [value; IPV6_MIN_MTU]))
  else if 65535 <? value
  then Err (TProtocol (Msg "invalid tunnel MTU {value}: exceeds the supported maximum {MAX_TUNNEL_MTU} bytes" [value; MAX_TUNNEL_MTU]))
  else Ok (mkMtu value).
Definition as_usize (m : ValidatedMtu) : Z := as_u16 m.
Definition ipv6_payload_capacity (m : ValidatedMtu) : outcome TunnelError Z :=
  if as_usize m <? IPV6_HEADER_LEN
  then Err (TProtocol (Msg "invalid tunnel MTU {}: smaller than the IPv6 header" [as_u16 m]))
  else Ok (as_usize m - IPV6_HEADER_LEN).

(** ** Reading a packet *)

(** What the header says: the payload's length, if the packet is acceptable. *)
Definition check_header (capacity : Z) (header_buf : bytes) : outcome TunnelError Z :=
  b0 ← index header_buf 0;
  if negb (Z.shiftr (Zb b0) 4 =? 6)
  then Err (TProtocol (Msg "expected IPv6 packet, got version {}" [Z.shiftr (Zb b0) 4])) else
  b4 ← index header_buf 4;
  b5 ← index header_buf 5;
  let payload_len := be_Z [b4; b5] in
  if capacity <? payload_len
  then Err (TProtocol (Msg "IPv6 payload {payload_len} exceeds negotiated payload capacity {}" [payload_len; capacity]))
  else Ok payload_len.
(** The buffers of the code hold the header and, in front, the payload; this is both. *)
Definition read_ipv6_packet (capacity : Z) : st Socket TunnelError bytes :=
  header ← read_exact IPV6_HEADER_LEN;
  payload_len ← st_lift (check_header capacity header);
  payload ← read_exact payload_len;
  mret (header ++ payload).

(** ** The reader task

    The task is never dropped while it reads, so a read that has to wait keeps what it
    has: [Header] and [Payload] are [read_ipv6_packet] suspended in its first and second
    [read_exact]. *)

Inductive delivery := Packet (p : bytes) | Failed (e : TunnelError).
Inductive reader :=
| Header (got : bytes)
| Payload (header got : bytes) (payload_len : Z)
| Sending (d : delivery)
| Stopped.

Definition after_payload (header got : bytes) (payload_len : Z) : reader :=
  if payload_len <=? len got then Sending (Packet (header ++ got)) else Payload header got payload_len.
Definition after_header (capacity : Z) (got : bytes) : reader :=
  if IPV6_HEADER_LEN <=? len got then
    match check_header capacity got with
    | Ok payload_len => after_payload got [] payload_len
    | Err e => Sending (Failed e)
    | _ => Stopped
    end
  else Header got.
(** One read of [n] bytes of room on behalf of a suspended [read_exact]. *)
Definition poll_read (n : Z) (r : reader) (k : bytes -> reader) (l : list rx_event) : list rx_event * reader :=
  match rx_read TIo (Z.to_nat n) l with
  | (l, Ok []) => (l, Sending (Failed TIo))
  | (l, Ok bs) => (l, k bs)
  | (l, Err e) => (l, Sending (Failed e))
  | (l, _) => (l, r)
  end.
Definition poll_reader (capacity : Z) (r : reader) (l : list rx_event) : list rx_event * reader :=
  match r with
  | Header got => poll_read (IPV6_HEADER_LEN - len got) r (fun bs => after_header capacity (got ++ bs)) l
  | Payload header got n => poll_read (n - len got) r (fun bs => after_payload header (got ++ bs) n) l
  | _ => (l, r)
  end.

(** ** The loop *)

Definition STREAM_PACKET_QUEUE : nat := 64.

Inductive loop :=
| Select
| WritingTun (p : bytes)
| WritingStream (rest : bytes)
| Flushing
| Returned (o : outcome TunnelError unit).

Record Forward := mkForward {
  sock : Socket;
  task : reader;
  queue : list delivery;
  body : loop;
  (** The packets the TUN device took and the packets read from it, in order. *)
  tun_out : list bytes;
  tun_in : list bytes;
}.
Definition forward_start (s : Socket) : Forward := mkForward s (Header []) [] Select [] [].

Definition set_reader r (s : Forward) : Forward := mkForward (sock s) r (queue s) (body s) (tun_out s) (tun_in s).
Definition set_queue q (s : Forward) : Forward := mkForward (sock s) (task s) q (body s) (tun_out s) (tun_in s).
Definition set_body b (s : Forward) : Forward := mkForward (sock s) (task s) (queue s) b (tun_out s) (tun_in s).
Definition set_sock k (s : Forward) : Forward := mkForward k (task s) (queue s) (body s) (tun_out s) (tun_in s).
(** The loop returns and aborts the reader. *)
Definition finish (o : outcome TunnelError unit) (s : Forward) : Forward := set_body (Returned o) (set_reader Stopped s).

Inductive event :=
| PollReader
| SendPacket
| CancelChanged
| RecvPacket
| TunRead (r : outcome TunnelError bytes)
| TunWritten (r : outcome TunnelError unit)
| StreamWrite
| StreamFlush.

Definition step (mtu : ValidatedMtu) (capacity : Z) (e : event) (s : Forward) : option Forward :=
  match e, body s, task s with
  | _, Returned _, _ => None
  | PollReader, _, (Header _ | Payload _ _ _) as r =>
      let '(l, r) := poll_reader capacity r (rx (sock s)) in
      Some (set_reader r (set_sock (set_rx l (sock s)) s))
  | SendPacket, _, Sending d =>
      if (length (queue s) <? STREAM_PACKET_QUEUE)%nat then
        Some (set_reader (match d with Packet _ => Header [] | Failed _ => Stopped end) (set_queue (queue s ++ [d]) s))
      else None
  | CancelChanged, Select, _ => Some (finish (Ok tt) s)
  | RecvPacket, Select, r =>
      match queue s, r with
      | Packet p :: q, _ => Some (set_body (WritingTun p) (set_queue q s))
      | Failed e :: q, _ => Some (finish (Err e) (set_queue q s))
      | [], Stopped => Some (finish (Ok tt) s)
      | [], _ => None
      end
  | TunWritten r, WritingTun p, _ =>
      match r with
      | Ok _ => Some (mkForward (sock s) (task s) (queue s) Select (tun_out s ++ [p]) (tun_in s))
      | Err e => Some (finish (Err e) s)
      | _ => None
      end
  | TunRead r, Select, _ =>
      match r with
      | Ok p =>
          if as_usize mtu <? len p
          then Some (finish (Err (TProtocol (Msg "TUN packet length {} exceeds negotiated MTU {}" [len p; as_u16 mtu]))) s)
          else Some (mkForward (sock s) (task s) (queue s) (WritingStream p) (tun_out s) (tun_in s ++ [p]))
      | Err e => Some (finish (Err e) s)
      | _ => None
      end
  | StreamWrite, WritingStream rest, _ =>
      match rest with
      | [] => Some (set_body Flushing s)
      | _ =>
          match write (E := TunnelError) rest (sock s) with
          | (k, Ok O) => Some (finish (Err TIo) (set_sock k s))
          | (k, Ok n) => Some (set_body (WritingStream (drop n rest)) (set_sock k s))
          | (k, Err e) => Some (finish (Err e) (set_sock k s))
          | (k, _) => Some (set_sock k s)
          end
      end
  | StreamFlush, Flushing, _ =>
      match flush (E := TunnelError) (sock s) with
      | (k, Ok _) => Some (set_body Select (set_sock k s))
      | (k, Err e) => Some (finish (Err e) (set_sock k s))
      | (k, _) => Some (set_sock k s)
      end
  | _, _, _ => None
  end.

Fixpoint run (mtu : ValidatedMtu) (capacity : Z) (es : list event) (s : Forward) : option Forward :=
  match es with
  | [] => Some s
  | e :: es => s' ← step mtu capacity e s; run mtu capacity es s'
  end.
(** [forward_packets], driven by a scheduler that chooses [es]. *)
Definition forward_packets (mtu : Z) (es : list event) (s : Socket) : outcome TunnelError (option Forward) :=
  mtu ← mtu_new mtu;
  capacity ← ipv6_payload_capacity mtu;
  Ok (run mtu capacity es (forward_start s)).

End Tunnel.
