(* ===== verification/TunnelSpec.v ===== *)
(** What the packet tunnel promises, whatever the scheduler does.

    [packets] is the specification of the inbound direction: the sequence of packets in
    the stream. The TUN device gets a prefix of it, all of it once the tasks have
    nothing left to do, and they run out of things to do after a bounded number of moves.
    Outbound, the stream gets the packets of the TUN device whole and in order. The last
    part shows that the suspended reader is [read_ipv6_packet]. *)

From S2P Require Import Prelude Socket Text Tunnel.

Module TunnelSpec.
Import Net Socket Tunnel.

(** ** The packets of a byte stream *)

Fixpoint packets_n (fuel : nat) (capacity : Z) (l : bytes) : list bytes :=
  match fuel with
  | O => []
  | S fuel =>
      if len l <? IPV6_HEADER_LEN then [] else
      match check_header capacity (take 40 l) with
      | Ok n =>
          let size := Z.to_nat (IPV6_HEADER_LEN + n) in
          if (length l <? size)%nat then [] else take size l :: packets_n fuel capacity (drop size l)
      | _ => []
      end
  end.
Definition packets (capacity : Z) (l : bytes) : list bytes := packets_n (length l) capacity l.

Definition is_packet (capacity : Z) (p : bytes) : Prop :=
  exists h b n, p = h ++ b /\ len h = IPV6_HEADER_LEN /\ check_header capacity h = Ok n /\ len b = n.

Lemma check_header_bound capacity h n : check_header capacity h = Ok n -> 0 <= n <= capacity.
Proof.
  unfold check_header. intros H. destruct (index h 0) as [b0| | | |]; try done. cbn in H.
  destruct (negb _); [done|]. destruct (index h 4) as [b4| | | |]; try done. cbn in H.
  destruct (index h 5) as [b5| | | |]; try done. cbn in H. destruct (capacity <? _) eqn:E; [done|].
  pose proof (be_Z_bound [b4; b5]). apply Z.ltb_ge in E. assert (be_Z [b4; b5] = n) by (unfold be_Z in *; cbn in *; congruence). lia.
Qed.
Lemma check_header_total capacity h : len h = IPV6_HEADER_LEN ->
  (exists n, check_header capacity h = Ok n) \/ (exists e, check_header capacity h = Err e).
Proof.
  unfold len, IPV6_HEADER_LEN. intros Hl. do 6 (destruct h as [|? h]; [done|]).
  unfold check_header, index. cbn. destruct (negb _); [by right; eexists|]. destruct (capacity <? _); [by right; eexists|by left; eexists].
Qed.

Lemma packets_n_fuel f f' capacity l :
  (length l <= f)%nat -> (length l <= f')%nat -> packets_n f capacity l = packets_n f' capacity l.
Proof.
  revert f' l. induction f as [|f IH]; intros f' l H H'.
  - assert (l = []) as -> by (destruct l; [done|simpl in H; lia]). by destruct f'.
  - destruct f' as [|f']; [assert (l = []) as -> by (destruct l; [done|simpl in H'; lia]); done|]. cbn [packets_n].
    destruct (len l <? IPV6_HEADER_LEN) eqn:El; [done|]. destruct (check_header _ _) as [n| | | |] eqn:En; try done.
    pose proof (check_header_bound _ _ _ En). cbv zeta. destruct (_ <? _)%nat; [done|]. f_equal.
    unfold len, IPV6_HEADER_LEN in *. apply IH; rewrite length_drop; lia.
Qed.
Lemma packets_cons capacity p l : is_packet capacity p -> packets capacity (p ++ l) = p :: packets capacity l.
Proof.
  intros (h & b & n & -> & Hh & Hn & Hb). pose proof (check_header_bound _ _ _ Hn).
  assert (length h = 40%nat) as Hl by (unfold len, IPV6_HEADER_LEN in Hh; lia).
  unfold packets. destruct (length ((h ++ b) ++ l)) as [|f] eqn:Ef; [rewrite !length_app in Ef; lia|].
  cbn [packets_n]. assert ((len ((h ++ b) ++ l) <? IPV6_HEADER_LEN) = false) as -> by (rewrite !len_app; pose proof (len_nonneg l); lia).
  rewrite <- app_assoc, <- Hl, take_app_length, Hn. cbv zeta.
  assert (Z.to_nat (IPV6_HEADER_LEN + n) = length (h ++ b)) as -> by (rewrite length_app; unfold len, IPV6_HEADER_LEN in *; lia).
  rewrite app_assoc. rewrite (proj2 (Nat.ltb_ge _ _)) by (rewrite (length_app (h ++ b)); lia).
  rewrite take_app_length, drop_app_length. f_equal.
  apply packets_n_fuel; [|done]. rewrite !length_app in Ef. lia.
Qed.
Lemma packets_app capacity ps l : Forall (is_packet capacity) ps -> packets capacity (concat ps ++ l) = ps ++ packets capacity l.
Proof.
  induction 1 as [|p ps Hp _ IH]; [done|]. cbn [concat app]. by rewrite <- app_assoc, packets_cons, IH.
Qed.
Lemma packets_short capacity got : len got < IPV6_HEADER_LEN -> packets capacity got = [].
Proof. intros H. unfold packets. destruct (length got) as [|f]; [done|]. cbn [packets_n]. by rewrite (proj2 (Z.ltb_lt _ _)). Qed.
Lemma packets_partial capacity h got n :
  len h = IPV6_HEADER_LEN -> check_header capacity h = Ok n -> len got < n -> packets capacity (h ++ got) = [].
Proof.
  intros Hh Hn Hg. unfold packets. destruct (length (h ++ got)) as [|f] eqn:Ef; [done|]. cbn [packets_n].
  assert (length h = 40%nat) as Hl by (unfold len, IPV6_HEADER_LEN in Hh; lia).
  assert ((len (h ++ got) <? IPV6_HEADER_LEN) = false) as -> by (rewrite len_app; pose proof (len_nonneg got); lia).
  rewrite <- Hl, take_app_length, Hn. cbv zeta. rewrite (proj2 (Nat.ltb_lt _ _)); [done|].
  rewrite length_app. unfold len, IPV6_HEADER_LEN in *. lia.
Qed.

(** ** The state between two moves *)

Definition oks (q : list delivery) : list bytes := omap (fun d => match d with Packet p => Some p | Failed _ => None end) q.
Definition in_body (b : loop) : list bytes := match b with WritingTun p => [p] | _ => [] end.
Definition in_task (r : reader) : list bytes := match r with Sending (Packet p) => [p] | _ => [] end.
(** The packets that have been read off the stream, in order. *)
Definition passed (s : Forward) : list bytes := tun_out s ++ in_body (body s) ++ oks (queue s) ++ in_task (task s).

(** What the reader holds of the stream [j] behind these packets. *)
Definition holds (capacity : Z) (r : reader) (rest j : bytes) : Prop :=
  match r with
  | Header got => j = got ++ rest /\ len got < IPV6_HEADER_LEN
  | Payload h got n => j = h ++ got ++ rest /\ len h = IPV6_HEADER_LEN /\ check_header capacity h = Ok n /\ len got < n
  | Sending (Packet _) => j = rest
  | _ => True
  end.
Definition Inbound (capacity : Z) (d : bytes) (s : Forward) : Prop :=
  match body s with
  | Returned _ => Forall (is_packet capacity) (tun_out s) /\ exists j, d = concat (tun_out s) ++ j
  | _ => Forall (is_packet capacity) (passed s) /\ exists j, d = concat (passed s) ++ j /\ holds capacity (task s) (data (rx (sock s))) j
  end.
Definition Outbound (mtu : ValidatedMtu) (t : bytes) (s : Forward) : Prop :=
  Forall (fun p => len p <= as_usize mtu) (tun_in s) /\
  match body s with
  | WritingStream rest => t ++ concat (tun_in s) = tx (sock s) ++ rest
  | Returned (Err _) => exists rest, t ++ concat (tun_in s) = tx (sock s) ++ rest
  | _ => tx (sock s) = t ++ concat (tun_in s)
  end.
Definition Queue (s : Forward) : Prop := (length (queue s) <= STREAM_PACKET_QUEUE)%nat.

(** ** Inbound *)

(** The reader's moves keep every byte. *)
Definition kept (capacity : Z) (r : reader) (rest j : bytes) : Prop :=
  Forall (is_packet capacity) (in_task r) /\ exists j', j = concat (in_task r) ++ j' /\ holds capacity r rest j'.

Lemma after_payload_kept capacity h got n rest :
  len h = IPV6_HEADER_LEN -> check_header capacity h = Ok n -> len got <= n ->
  kept capacity (after_payload h got n) rest (h ++ got ++ rest).
Proof.
  intros Hh Hn Hg. unfold after_payload. destruct (n <=? len got) eqn:E.
  - split; [|exists rest; cbn; by rewrite app_nil_r, <- app_assoc]. constructor; [|constructor]. exists h, got, n. split_and!; try done. apply Z.leb_le in E. lia.
  - split; [constructor|]. exists (h ++ got ++ rest). split; [done|]. split_and!; try done. lia.
Qed.
Lemma after_header_kept capacity got rest :
  len got <= IPV6_HEADER_LEN -> kept capacity (after_header capacity got) rest (got ++ rest).
Proof.
  intros Hg. unfold after_header. destruct (IPV6_HEADER_LEN <=? len got) eqn:E.
  - assert (len got = IPV6_HEADER_LEN) as Hl by lia.
    destruct (check_header_total capacity got Hl) as [[n En]|[e Ee]].
    + rewrite En. apply (after_payload_kept _ _ [] _ rest); [done|done|]. pose proof (check_header_bound _ _ _ En). change (len (@nil byte)) with 0. lia.
    + rewrite Ee. split; [constructor|]. by exists (got ++ rest).
  - split; [constructor|]. exists (got ++ rest). split; [done|]. split; [done|lia].
Qed.
Lemma poll_read_kept capacity n r k l l' r' j :
  0 < n -> holds capacity r (data l) j -> in_task r = [] ->
  (forall bs rest, len bs <= n -> data l = bs ++ rest -> kept capacity (k bs) rest j) ->
  poll_read n r k l = (l', r') -> kept capacity r' (data l') j.
Proof.
  intros Hn Hh Ht Hk. unfold poll_read. pose proof (rx_read_spec TIo (Z.to_nat n) l ltac:(lia)) as Hr.
  assert (forall e, kept capacity (Sending (Failed e)) (data l') j) as Hfail by (split; [constructor|by exists j]).
  destruct (rx_read _ _ l) as [l1 [[|b bs]|e| | |]]; try done; intros [= <- <-]; try apply Hfail.
  - destruct Hr as [Hl Hd]. apply Hk; [unfold len; lia|done].
  - split; [by rewrite Ht|]. exists j. rewrite Ht, Hr. done.
Qed.
Lemma poll_reader_kept capacity r l l' r' j :
  holds capacity r (data l) j -> in_task r = [] -> poll_reader capacity r l = (l', r') ->
  kept capacity r' (data l') j \/ (l', r') = (l, r).
Proof.
  intros Hh Ht. destruct r as [got|h got n|d|]; cbn [poll_reader].
  - left. destruct Hh as [-> Hg]. eapply (poll_read_kept _ (IPV6_HEADER_LEN - len got) (Header got)); [lia|done|done| |done].
    intros bs rest Hb Hd. rewrite Hd, app_assoc. apply after_header_kept. rewrite len_app. lia.
  - left. destruct Hh as (-> & Hhl & Hc & Hg). eapply (poll_read_kept _ (n - len got) (Payload h got n)); [lia|done|done| |done].
    intros bs rest Hb Hd. rewrite Hd, (app_assoc got). apply after_payload_kept; try done. rewrite len_app. lia.
  - intros [= <- <-]. by right.
  - intros [= <- <-]. by right.
Qed.

Lemma oks_app q q' : oks (q ++ q') = oks q ++ oks q'.
Proof. apply omap_app. Qed.

Lemma write_rx bs k k' (o : outcome TunnelError nat) : write bs k = (k', o) -> rx k' = rx k.
Proof. unfold write. by destruct (wr k) as [|[]]; intros [= <- <-]. Qed.
Lemma flush_rx k k' (o : outcome TunnelError unit) : flush k = (k', o) -> rx k' = rx k.
Proof. unfold flush. by destruct (wr k) as [|[]]; intros [= <- <-]. Qed.

(** Whatever else is lost when the loop returns, the packets the TUN device took are a
    prefix of what came. *)
Lemma inbound_finish capacity d o s s' :
  Inbound capacity d s -> (forall o, body s <> Returned o) -> tun_out s' = tun_out s -> body s' = Returned o -> Inbound capacity d s'.
Proof.
  unfold Inbound. intros Hi Hb Ht ->. rewrite Ht.
  assert (Forall (is_packet capacity) (passed s) /\ exists j, d = concat (passed s) ++ j) as [Hf (j & ->)].
  { destruct (body s); try by destruct Hi as [? (j & ? & _)]; split; [|exists j]. by destruct (Hb o0). }
  unfold passed in *. split; [by apply Forall_app in Hf as [? _]|].
  eexists. by rewrite concat_app, <- app_assoc.
Qed.
(** A move that leaves the packets and the stream alone. *)
Lemma inbound_same capacity d s s' :
  Inbound capacity d s -> (forall o, body s <> Returned o) -> (forall o, body s' <> Returned o) ->
  passed s' = passed s -> (forall j, holds capacity (task s) (data (rx (sock s))) j -> holds capacity (task s') (data (rx (sock s'))) j) ->
  Inbound capacity d s'.
Proof.
  unfold Inbound. intros Hi Hb Hb' Hp Hh. rewrite Hp.
  assert (Forall (is_packet capacity) (passed s) /\ exists j, d = concat (passed s) ++ j /\ holds capacity (task s') (data (rx (sock s'))) j) as Hr.
  { destruct (body s); try by destruct Hi as [? (j & ? & ?)]; split; [|exists j; split; auto]. by destruct (Hb o). }
  destruct (body s'); try done. by destruct (Hb' o).
Qed.

Lemma step_running mtu capacity e s s' : step mtu capacity e s = Some s' -> forall o, body s <> Returned o.
Proof. intros Hs o Eb. by destruct e; cbn in Hs; rewrite Eb in Hs. Qed.

Lemma inbound_poll mtu capacity d s s' :
  Inbound capacity d s -> step mtu capacity PollReader s = Some s' -> Inbound capacity d s'.
Proof.
  intros Hi Hs. pose proof (step_running _ _ _ _ _ Hs) as Hb.
  assert (exists j, Forall (is_packet capacity) (passed s) /\ d = concat (passed s) ++ j /\
    holds capacity (task s) (data (rx (sock s))) j) as (j & Hf & Hd & Hh).
  { unfold Inbound in Hi. destruct (body s) eqn:Eb; try by destruct Hi as [? (j & ? & ?)]; exists j. by destruct (Hb o). }
  assert (in_task (task s) = [] /\ exists l r, poll_reader capacity (task s) (rx (sock s)) = (l, r) /\
    s' = set_reader r (set_sock (set_rx l (sock s)) s)) as [Ht (l & r & Hp & ->)].
  { cbn [step] in Hs. destruct (body s), (task s); try done; (split; [done|]);
      destruct (poll_reader _ _ _) as [l r]; exists l, r; (split; [done|]); by injection Hs as <-. }
  destruct (poll_reader_kept _ _ _ _ _ _ Hh Ht Hp) as [[Hk (j' & -> & Hh')]|[= -> ->]].
  - unfold Inbound, passed in *. cbn. rewrite Ht, app_nil_r in *.
    assert (Forall (is_packet capacity) (tun_out s ++ in_body (body s) ++ oks (queue s) ++ in_task r) /\
      exists j, d = concat (tun_out s ++ in_body (body s) ++ oks (queue s) ++ in_task r) ++ j /\ holds capacity r (data l) j) as Hr.
    { rewrite !app_assoc in *. split; [by apply Forall_app|]. exists j'. split; [|done]. by rewrite concat_app, Hd, <- app_assoc. }
    destruct (body s); done || by destruct (Hb o).
  - destruct s as [[]]. done.
Qed.

Ltac finished :=
  match goal with Hi : Inbound _ _ ?s, Eb : body ?s = _ |- Inbound _ _ _ =>
    eapply inbound_finish; [exact Hi|by rewrite Eb|by cbn|by cbn] end.
Lemma inbound_step mtu capacity d e s s' :
  Inbound capacity d s -> step mtu capacity e s = Some s' -> Inbound capacity d s'.
Proof.
  intros Hi Hs. pose proof (step_running _ _ _ _ _ Hs) as Hb.
  destruct e as [| | | |r|r| |].
  - by eapply inbound_poll.
  - cbn [step] in Hs. assert (exists dv, task s = Sending dv /\ (length (queue s) <? STREAM_PACKET_QUEUE)%nat = true /\
      s' = set_reader (match dv with Packet _ => Header [] | Failed _ => Stopped end) (set_queue (queue s ++ [dv]) s)) as (dv & Et & _ & ->).
    { destruct (body s), (task s) as [| |dv|]; try done; (destruct (_ <? _)%nat; [|done]); exists dv; by injection Hs as <-. }
    apply (inbound_same _ _ _ _ Hi Hb); [done| |].
    + unfold passed. cbn. rewrite Et, oks_app. destruct dv; cbn; by rewrite ?app_nil_r.
    + cbn. rewrite Et. intros j. destruct dv as [p|]; [|done]. intros ->. done.
  - cbn [step] in Hs. destruct (body s) eqn:Eb; try done. injection Hs as <-.
    finished.
  - cbn [step] in Hs. destruct (body s) eqn:Eb; try done. destruct (queue s) as [|[p|e] q] eqn:Eq.
    + destruct (task s); try done. injection Hs as <-. finished.
    + injection Hs as <-. apply (inbound_same _ _ _ _ Hi); [by rewrite Eb|done| |done]. unfold passed. cbn. by rewrite Eb, Eq.
    + injection Hs as <-. finished.
  - cbn [step] in Hs. destruct (body s) eqn:Eb; try done. destruct r as [p|e| | |]; try done.
    + destruct (_ <? _); injection Hs as <-; [finished|].
      apply (inbound_same _ _ _ _ Hi); [by rewrite Eb|done| |done]. unfold passed. cbn. by rewrite Eb.
    + injection Hs as <-. finished.
  - cbn [step] in Hs. destruct (body s) eqn:Eb; try done. destruct r as [[]|e| | |]; try done; injection Hs as <-.
    + apply (inbound_same _ _ _ _ Hi); [by rewrite Eb|done| |done]. unfold passed. cbn. by rewrite Eb, <- app_assoc.
    + finished.
  - cbn [step] in Hs. destruct (body s) eqn:Eb; try done. destruct rest as [|b rest].
    { injection Hs as <-. apply (inbound_same _ _ _ _ Hi); [by rewrite Eb|done| |done]. unfold passed. cbn. by rewrite Eb. }
    destruct (write _ _) as [k o] eqn:Ew. pose proof (write_rx _ _ _ _ Ew) as Hrx.
    destruct o as [[|n]|e| | |]; injection Hs as <-; try finished;
      (apply (inbound_same _ _ _ _ Hi); cbn; [by rewrite Eb|by rewrite ?Eb| |by rewrite Hrx]); unfold passed; cbn; by rewrite Eb.
  - cbn [step] in Hs. destruct (body s) eqn:Eb; try done. destruct (flush _) as [k o] eqn:Ew. pose proof (flush_rx _ _ _ Ew) as Hrx.
    destruct o as [[]|e| | |]; injection Hs as <-; try finished;
      (apply (inbound_same _ _ _ _ Hi); cbn; [by rewrite Eb|by rewrite ?Eb| |by rewrite Hrx]); unfold passed; cbn; by rewrite Eb.
Qed.

(** A property that every move keeps holds after a run. *)
Lemma run_ind mtu capacity (P : Forward -> Prop) es s s' :
  (forall e s s', P s -> step mtu capacity e s = Some s' -> P s') -> P s -> run mtu capacity es s = Some s' -> P s'.
Proof.
  intros Hp. revert s. induction es as [|e es IH]; intros s Hs; [by intros [= <-]|]. cbn [run].
  destruct (step mtu capacity e s) as [s1|] eqn:E; [|done]. by apply IH, (Hp e s).
Qed.
Lemma inbound_start capacity k : Inbound capacity (data (rx k)) (forward_start k).
Proof. split; [constructor|]. by exists (data (rx k)). Qed.

Lemma queue_step mtu capacity e s s' :
  (length (queue s) <= STREAM_PACKET_QUEUE)%nat -> step mtu capacity e s = Some s' -> (length (queue s') <= STREAM_PACKET_QUEUE)%nat.
Proof.
  intros Hq Hs. unfold step in Hs. repeat case_match; simplify_eq; try done;
    repeat match goal with H : (_ <? _)%nat = true |- _ => apply Nat.ltb_lt in H end;
    cbn [set_reader set_body set_queue set_sock finish queue]; rewrite ?length_app; cbn [length] in *;
    first [lia|match goal with E : queue s = _ |- _ => rewrite ?E in *; cbn [length] in *; lia end].
Qed.

(** C15. Whatever the scheduler does and however the stream is cut, the packets the TUN device
    has taken are, in order and unchanged, the first packets of the stream from the device;
    at most 64 more are queued. *)
Theorem tunnel_inbound_exact (mtu : ValidatedMtu) (capacity : Z) (es : list event) (k : Socket) (s : Forward) :
  run mtu capacity es (forward_start k) = Some s ->
  tun_out s `prefix_of` packets capacity (data (rx k)) /\ (length (queue s) <= STREAM_PACKET_QUEUE)%nat.
Proof.
  intros Hr. split.
  - pose proof (run_ind mtu capacity _ _ _ _ (inbound_step mtu capacity (data (rx k))) (inbound_start capacity k) Hr) as Hi.
    assert (exists j, data (rx k) = concat (tun_out s) ++ j /\ Forall (is_packet capacity) (tun_out s)) as (j & -> & Hf).
    { unfold Inbound, passed in Hi. destruct (body s);
        destruct Hi as [Hf (j & -> & ?)] || destruct Hi as [Hf (j & ->)]; try (apply Forall_app in Hf as [Hf _]);
        rewrite ?concat_app, <- ?app_assoc; eauto. }
    rewrite packets_app by done. by apply prefix_app_r.
  - refine (run_ind mtu capacity (fun s => (length (queue s) <= STREAM_PACKET_QUEUE)%nat) _ _ _ _ _ Hr); [|cbn; lia].
    clear. intros e s s' Hq Hs. by apply (queue_step _ _ _ _ _ Hq Hs).
Qed.

(** ** Outbound *)

Lemma write_tx bs k k' (o : outcome TunnelError nat) : write bs k = (k', o) ->
  tx k' ++ drop (match o with Ok n => n | _ => O end) bs = tx k ++ bs.
Proof.
  unfold write. destruct (wr k) as [|[n| |]]; intros [= <- <-]; cbn; try done.
  - by rewrite drop_all, app_nil_r.
  - rewrite <- app_assoc. f_equal. rewrite length_take. destruct (decide (n <= length bs)%nat).
    + rewrite Nat.min_l by done. apply take_drop.
    + rewrite Nat.min_r, take_ge, drop_all by lia. apply app_nil_r.
Qed.
Lemma flush_tx k k' (o : outcome TunnelError unit) : flush k = (k', o) -> tx k' = tx k.
Proof. unfold flush. by destruct (wr k) as [|[]]; intros [= <- <-]. Qed.

Lemma outbound_step mtu capacity t e s s' :
  Outbound mtu t s -> step mtu capacity e s = Some s' -> Outbound mtu t s'.
Proof.
  intros [Hl Ho] Hs. destruct e as [| | | |r|r| |]; cbn [step] in Hs.
  1,2: destruct (body s) eqn:Eb, (task s); repeat case_match; simplify_eq; try done; by (split; [|cbn; rewrite Eb]).
  - destruct (body s) eqn:Eb; simplify_eq. by split.
  - destruct (body s) eqn:Eb; simplify_eq. repeat case_match; simplify_eq; (split; [done|]); cbn; try done. exists []. by rewrite app_nil_r.
  - destruct (body s) eqn:Eb; simplify_eq. destruct r as [p|e| | |]; simplify_eq.
    + destruct (_ <? _) eqn:El; simplify_eq.
      * split; [done|]. exists []. by rewrite app_nil_r.
      * split; cbn; [apply Forall_app; split; [done|]; constructor; [lia|done]|]. rewrite concat_app, Ho. cbn. by rewrite app_nil_r, app_assoc.
    + split; [done|]. exists []. by rewrite app_nil_r.
  - destruct (body s) eqn:Eb; simplify_eq. destruct r as [[]|e| | |]; simplify_eq; (split; [done|]); [done|]. exists []. by rewrite app_nil_r.
  - destruct (body s) eqn:Eb; simplify_eq. destruct rest as [|b rest]; simplify_eq.
    { split; [done|]. cbn. by rewrite Ho, app_nil_r. }
    destruct (write _ _) as [k o] eqn:Ew. apply write_tx in Ew. rewrite <- Ew in Ho.
    destruct o as [[|n]|e| | |]; simplify_eq; (split; [done|]); cbn; rewrite ?Eb; try done; by eexists.
  - destruct (body s) eqn:Eb; simplify_eq. destruct (flush _) as [k o] eqn:Ew. apply flush_tx in Ew. rewrite <- Ew in Ho.
    destruct o as [[]|e| | |]; simplify_eq; (split; [done|]); cbn; rewrite ?Eb; try done. exists []. by rewrite app_nil_r.
Qed.

(** Outbound packets are written whole and in order, and none is longer than the MTU:
    between packets the stream has got exactly the packets read from the TUN device, and at
    any other time a part of the last one is missing. *)
Theorem tunnel_outbound_exact (mtu : ValidatedMtu) (capacity : Z) (es : list event) (k : Socket) (s : Forward) :
  run mtu capacity es (forward_start k) = Some s ->
  Forall (fun p => len p <= as_usize mtu) (tun_in s) /\
  exists missing, tx k ++ concat (tun_in s) = tx (sock s) ++ missing /\
    match body s with
    | WritingStream rest => missing = rest
    | Returned (Err _) => True
    | _ => missing = []
    end.
Proof.
  intros Hr. assert (Outbound mtu (tx k) (forward_start k)) as H0 by (split; [constructor|cbn; by rewrite app_nil_r]).
  destruct (run_ind mtu capacity _ _ _ _ (outbound_step mtu capacity (tx k)) H0 Hr) as [Hl Ho]. split; [done|].
  destruct (body s) as [|p|rest| |[]]; try (exists []; by rewrite app_nil_r, Ho); [by exists rest|].
  destruct Ho as [rest ?]. by exists rest.
Qed.

(** ** Nothing gets stuck *)

(** The inbound moves, apart from polling a stream on which nothing more comes. *)
Definition inbound_move (e : event) (s : Forward) : bool :=
  match e with
  | PollReader => match rx (sock s) with [] => false | _ => true end
  | SendPacket | RecvPacket | TunWritten _ => true
  | _ => false
  end.
Definition reader_weight (r : reader) : nat :=
  match r with Header _ | Payload _ _ _ => 4 | Sending (Packet _) => 7 | Sending (Failed _) => 3 | Stopped => 0 end.
Definition input_weight (l : list rx_event) : nat := 4 * (length l + length (data l)).
#[local] Arguments input_weight : simpl never.
Definition weight (s : Forward) : nat :=
  input_weight (rx (sock s)) + reader_weight (task s) + 2 * length (queue s) + (match body s with Returned _ => 0 | WritingTun _ => 2 | _ => 1 end).

Lemma poll_read_weight n r k l l' r' :
  (forall bs, reader_weight (k bs) <= 7)%nat -> reader_weight r = 4%nat -> poll_read n r k l = (l', r') ->
  (input_weight l' + reader_weight r' <= input_weight l + 4)%nat /\
  (l <> [] -> input_weight l' + reader_weight r' < input_weight l + 4)%nat.
Proof.
  intros Hk Hr. unfold poll_read, rx_read. destruct l as [|[bs| |] l].
  - cbn. intros [= <- <-]. split; [lia|done].
  - destruct bs as [|b bs]; [cbn; intros [= <- <-]; unfold input_weight; cbn; lia|]. set (c := b :: bs) in *.
    assert (length c <> 0)%nat by done. destruct (length c <=? Z.to_nat n)%nat eqn:El.
    + change (match c with [] => _ | _ => (l, k c) end) with (l, k c). intros [= <- <-].
      pose proof (Hk c). clearbody c. unfold input_weight, data. cbn. rewrite length_app. fold (data l). lia.
    + apply Nat.leb_gt in El. destruct (take (Z.to_nat n) c) as [|b' d] eqn:Et; intros [= <- <-]; clearbody c;
        try pose proof (Hk (b' :: d)); apply (f_equal length) in Et; rewrite length_take in Et; cbn [length] in Et;
        unfold input_weight, data; cbn [map concat event_data length reader_weight];
        rewrite !length_app, length_drop; fold (data l); lia.
  - cbn. intros [= <- <-]. unfold input_weight, data. cbn. lia.
  - cbn. intros [= <- <-]. unfold input_weight, data. cbn. lia.
Qed.
Lemma after_weight capacity got : (reader_weight (after_header capacity got) <= 7)%nat.
Proof. unfold after_header, after_payload. repeat case_match; cbn; lia. Qed.
Lemma step_weight mtu capacity e s s' :
  step mtu capacity e s = Some s' ->
  (weight s' <= weight s)%nat /\ (inbound_move e s = true -> weight s' < weight s)%nat.
Proof.
  intros Hs. assert (e = PollReader \/ match e with PollReader => False | _ => True end) as [->|He] by (destruct e; auto).
  - cbn [inbound_move].
    assert (exists l r, poll_reader capacity (task s) (rx (sock s)) = (l, r) /\ reader_weight (task s) = 4%nat /\
      s' = set_reader r (set_sock (set_rx l (sock s)) s)) as (l & r & Hp & Hw & ->).
    { cbn [step] in Hs. destruct (body s), (task s); try done;
        destruct (poll_reader _ _ _) as [l r]; exists l, r; (split; [done|]); (split; [done|]); by injection Hs as <-. }
    assert ((input_weight l + reader_weight r <= input_weight (rx (sock s)) + 4)%nat /\
      (rx (sock s) <> [] -> input_weight l + reader_weight r < input_weight (rx (sock s)) + 4)%nat) as [H1 H2].
    { destruct (task s) as [got|h got n|[]|]; try done; (eapply poll_read_weight; [| |exact Hp]); try done.
      all: intros bs; first [apply after_weight|unfold after_payload; case_match; cbn; lia]. }
    unfold weight. cbn. rewrite Hw. split; [lia|]. intros Hne. cut (rx (sock s) <> []); [intros ?; specialize (H2 ltac:(done)); lia|]. by destruct (rx (sock s)).
  - unfold step, inbound_move in *. unfold weight. repeat case_match; simplify_eq; cbn in *; try congruence;
      repeat match goal with
      | H : write _ _ = _ |- _ => apply write_rx in H; rewrite H
      | H : flush _ = _ |- _ => apply flush_rx in H; rewrite H
      | H : queue _ = _ |- _ => rewrite ?H in *
      | H : task _ = _ |- _ => rewrite ?H in *; clear H
      end; rewrite ?length_app; cbn; try lia.
Qed.

(** How many inbound moves a run makes. *)
Fixpoint inbound_moves (mtu : ValidatedMtu) (capacity : Z) (es : list event) (s : Forward) : nat :=
  match es with
  | [] => 0
  | e :: es =>
      match step mtu capacity e s with
      | Some s' => (if inbound_move e s then 1 else 0) + inbound_moves mtu capacity es s'
      | None => 0
      end
  end.
Lemma moves_weight mtu capacity es s s' :
  run mtu capacity es s = Some s' -> (inbound_moves mtu capacity es s + weight s' <= weight s)%nat.
Proof.
  revert s. induction es as [|e es IH]; intros s; cbn [run inbound_moves]; [intros [= <-]; lia|].
  destruct (step mtu capacity e s) as [s1|] eqn:Es; [|done]. cbn. intros H%IH.
  destruct (step_weight _ _ _ _ _ Es) as [Hw Hlt]. destruct (inbound_move e s); [specialize (Hlt eq_refl)|]; lia.
Qed.

(** C19. No packet gets stuck. Every run, whatever its schedule, makes a bounded number of inbound
    moves. When the loop is in its [select!] (it has not been cancelled or closed, and no write to
    either side is under way) and no further inbound move is possible, every packet in the stream
    has been handed to the TUN device. Of runs in which the loop ended or is held up in a write
    nothing is said here; what they have handed over is a prefix by the theorem before. *)
Theorem tunnel_inbound_drains (mtu : ValidatedMtu) (capacity : Z) (es : list event) (k : Socket) (s : Forward) :
  run mtu capacity es (forward_start k) = Some s ->
  (inbound_moves mtu capacity es (forward_start k) <= 4 * (length (rx k) + length (data (rx k))) + 5)%nat /\
  (body s = Select -> (forall e, inbound_move e s = true -> step mtu capacity e s = None) ->
   tun_out s = packets capacity (data (rx k))).
Proof.
  intros Hr. split.
  { pose proof (moves_weight _ _ _ _ _ Hr). unfold weight, input_weight in *. cbn in *. lia. }
  intros Hb Hq. pose proof (run_ind mtu capacity _ _ _ _ (inbound_step mtu capacity (data (rx k))) (inbound_start capacity k) Hr) as Hi.
  unfold Inbound, passed in Hi. rewrite Hb in Hi. destruct Hi as [Hf (j & Hd & Hh)].
  assert (queue s = [] /\ task s <> Stopped) as [Eq Hns].
  { pose proof (Hq RecvPacket eq_refl) as H. cbn in H. rewrite Hb in H. destruct (queue s) as [|[] ?]; try done. by destruct (task s). }
  assert ((forall d, task s <> Sending d) /\ rx (sock s) = []) as [Ens Er].
  { pose proof (Hq SendPacket eq_refl) as Hs. pose proof (Hq PollReader) as Hp. cbn in Hs, Hp. rewrite Hb, ?Eq in *. cbn in Hs.
    destruct (rx (sock s)) as [|ev r]; [|specialize (Hp eq_refl)]; destruct (task s) as [got|h got n|[]|]; try done;
      by destruct (poll_read _ _ _ _). }
  assert (in_task (task s) = []) as Et by (destruct (task s) as [| |d|]; try done; by destruct (Ens d)).
  rewrite Eq, Et in *. cbn in Hf, Hd. rewrite !app_nil_r in *. rewrite Er in Hh. rewrite Hd, packets_app by done.
  destruct (task s) as [got|h got n|d|]; [| |by destruct (Ens d)|done]; cbn in Hh; change (data []) with (@nil byte) in Hh; rewrite ?app_nil_r in Hh.
  - destruct Hh as [-> Hg]. by rewrite packets_short, app_nil_r.
  - destruct Hh as (-> & Hhl & Hc & Hg). by rewrite (packets_partial _ _ _ n), app_nil_r.
Qed.

(** ** The reader task is [read_ipv6_packet] *)

(** [n] polls of the reader. *)
Definition polls (capacity : Z) (n : nat) (l : list rx_event) (r : reader) : list rx_event * reader :=
  Nat.iter n (fun x => poll_reader capacity x.2 x.1) (l, r).
Lemma polls_add capacity a b l r : polls capacity (a + b) l r = polls capacity a (polls capacity b l r).1 (polls capacity b l r).2.
Proof. unfold polls. rewrite Nat.iter_add. by destruct (Nat.iter b _ _). Qed.

(** A suspended [read_exact]: [wait acc] waits for [n] bytes with [acc] in hand. *)
Lemma fill_polls capacity n (wait after : bytes -> reader) fuel acc s s' o :
  (forall acc l, len acc < n -> poll_reader capacity (wait acc) l = poll_read (n - len acc) (wait acc) (fun bs => after (acc ++ bs)) l) ->
  (forall acc, len acc < n -> after acc = wait acc) ->
  len acc <= n -> fill (E := TunnelError) fuel n acc s = (s', o) ->
  match o with
  | Ok bs => len bs = n /\ exists m, polls capacity m (rx s) (after acc) = (rx s', after bs)
  | Err e => exists m, polls capacity m (rx s) (after acc) = (rx s', Sending (Failed e))
  | _ => True
  end.
Proof.
  intros Hp Ha. revert acc s. induction fuel as [|fuel IH]; intros acc s Hl; cbn [fill]; destruct (n <=? len acc) eqn:El.
  - intros [= <- <-]. split; [lia|]. by exists O.
  - by intros [= <- <-].
  - intros [= <- <-]. split; [lia|]. by exists O.
  - apply Z.leb_gt in El. unfold mbind, st_bind, read. pose proof (rx_read_spec (io_error (E := TunnelError)) (Z.to_nat (n - len acc)) (rx s) ltac:(lia)) as Hr.
    assert (poll_reader capacity (after acc) (rx s) = poll_read (n - len acc) (wait acc) (fun bs => after (acc ++ bs)) (rx s)) as Hp1.
    { by rewrite Ha, Hp. }
    unfold poll_read in Hp1. change TIo with (io_error (E := TunnelError)) in Hp1.
    destruct (rx_read io_error _ (rx s)) as [l [bs|e| | |]] eqn:Er; try done; [|by intros [= <- <-]; exists 1%nat|by intros [= <- <-]].
    destruct Hr as [Hb Hd]. destruct bs as [|b bs]; [intros [= <- <-]; by exists 1%nat|]. intros Hf.
    apply IH in Hf; [|rewrite len_app; unfold len in *; lia].
    assert (forall m, polls capacity (m + 1) (rx s) (after acc) = polls capacity m l (after (acc ++ b :: bs))) as Hm.
    { intros m. rewrite polls_add. change (polls capacity 1 ?l ?r) with (poll_reader capacity r l). by rewrite Hp1. }
    destruct o as [bs'|e| | |]; try done.
    + destruct Hf as [Hl' [m Hm']]. split; [done|]. exists (m + 1)%nat. by rewrite Hm.
    + destruct Hf as [m Hm']. exists (m + 1)%nat. by rewrite Hm.
Qed.

(** The reader task computes what the code's [read_ipv6_packet] does: as often as the
    task is polled, it ends up with the packet, or the error, that the function returns on
    the same stream, and has taken exactly the bytes the function takes. *)
Theorem tunnel_reader_refines (capacity : Z) (s s' : Socket) (o : outcome TunnelError bytes) :
  read_ipv6_packet capacity s = (s', o) ->
  match o with
  | Ok p => exists n, polls capacity n (rx s) (Header []) = (rx s', Sending (Packet p))
  | Err e => exists n, polls capacity n (rx s) (Header []) = (rx s', Sending (Failed e))
  | Pending => True
  | _ => False
  end.
Proof.
  unfold read_ipv6_packet, read_exact, mbind, st_bind, st_get.
  pose proof (fill_spec (E := TunnelError) (S (rx_bytes s)) IPV6_HEADER_LEN [] s ltac:(lia) ltac:(done)) as Hw1. unfold wpx in Hw1.
  destruct (fill (S (rx_bytes s)) IPV6_HEADER_LEN [] s) as [s1 o1] eqn:E1.
  apply (fill_polls capacity _ Header (after_header capacity)) in E1; [|done| |done].
  2: { intros acc H. unfold after_header. by rewrite (proj2 (Z.leb_gt _ _)). }
  destruct o1 as [hdr|e| | |]; try done; [|by intros [= <- <-]|by intros [= <- <-]].
  destruct E1 as [Hl [m1 Hm1]]. unfold st_lift, after_header in *. rewrite Hl in Hm1. cbn [Z.leb Z.compare] in Hm1.
  rewrite Z.leb_refl in Hm1. change (IPV6_HEADER_LEN <=? len []) with false in Hm1. cbv iota in Hm1.
  destruct (check_header_total capacity hdr Hl) as [[n En]|[e Ee]]; [rewrite En in *|rewrite Ee in *; intros [= <- <-]; by exists m1].
  pose proof (check_header_bound _ _ _ En) as Hn.
  pose proof (fill_spec (E := TunnelError) (S (rx_bytes s1)) n [] s1 ltac:(lia) (proj1 Hn)) as Hw2. unfold wpx in Hw2.
  destruct (fill (S (rx_bytes s1)) n [] s1) as [s2 o2] eqn:E2.
  apply (fill_polls capacity _ (fun got => Payload hdr got n) (fun got => after_payload hdr got n)) in E2; [|done| |exact (proj1 Hn)].
  2: { intros acc H. unfold after_payload. by rewrite (proj2 (Z.leb_gt _ _)). }
  destruct o2 as [pl|e| | |]; try done; [| |by intros [= <- <-]]; intros [= <- <-].
  - destruct E2 as [Hl2 [m2 Hm2]]. exists (m2 + m1)%nat. rewrite polls_add, Hm1. cbn [fst snd]. rewrite Hm2.
    unfold after_payload. by rewrite Hl2, Z.leb_refl.
  - destruct E2 as [m2 Hm2]. exists (m2 + m1)%nat. rewrite polls_add, Hm1. exact Hm2.
Qed.

(** ** Concrete runs *)

Definition demo_packet (payload : bytes) : bytes := map bZ [0x60; 0; 0; 0; 0; len payload] ++ replicate 34 x00 ++ payload.
Definition demo_mtu : ValidatedMtu := mkMtu 1280.
(** Two packets from the device, cut inside the first header and inside the second payload. *)
Definition demo_stream : bytes := demo_packet (Text.str "hi") ++ demo_packet (Text.str "there").
Definition demo_socket : Socket := mkSocket [Chunk (take 3 demo_stream); RxStall; Chunk (take 82 (drop 3 demo_stream)); Chunk (drop 85 demo_stream)] [Accept 7] [].
(** The TUN branch wins the [select!] while the reader is inside a packet. *)
Definition demo_events : list event :=
  [PollReader; TunRead (Ok (demo_packet [x01])); PollReader; StreamWrite; PollReader; StreamWrite; PollReader; SendPacket;
   StreamWrite; PollReader; StreamFlush; PollReader; RecvPacket; PollReader; TunWritten (Ok tt); SendPacket; RecvPacket; TunWritten (Ok tt)].
Definition demo_end : Forward :=
  mkForward (mkSocket [] [] (demo_packet [x01])) (Header []) [] Select [demo_packet (Text.str "hi"); demo_packet (Text.str "there")] [demo_packet [x01]].
Example demo_run : run demo_mtu 1240 demo_events (forward_start demo_socket) = Some demo_end.
Proof. vm_compute. reflexivity. Qed.

Lemma tunnel_inbound_exact_witness :
  exists s, run demo_mtu 1240 demo_events (forward_start demo_socket) = Some s /\
    tun_out s `prefix_of` packets 1240 (data (rx demo_socket)) /\ length (tun_out s) = 2%nat.
Proof.
  exists demo_end. pose proof demo_run as H. split; [exact H|]. split; [exact (proj1 (tunnel_inbound_exact _ _ _ _ _ H))|done].
Defined.
Lemma tunnel_outbound_exact_witness :
  exists s, run demo_mtu 1240 demo_events (forward_start demo_socket) = Some s /\
    Forall (fun p => len p <= as_usize demo_mtu) (tun_in s) /\ tx (sock s) = demo_packet [x01].
Proof.
  exists demo_end. pose proof demo_run as H. split; [exact H|]. split; [exact (proj1 (tunnel_outbound_exact _ _ _ _ _ H))|done].
Defined.
Lemma tunnel_inbound_drains_witness :
  exists s, run demo_mtu 1240 demo_events (forward_start demo_socket) = Some s /\
    tun_out s = packets 1240 (data (rx demo_socket)).
Proof.
  exists demo_end. pose proof demo_run as H. split; [exact H|]. apply (proj2 (tunnel_inbound_drains _ _ _ _ _ H)); [done|]. by intros [].
Defined.
Lemma tunnel_reader_refines_witness :
  exists n s', polls 1240 n [Chunk demo_stream] (Header []) = (rx s', Sending (Packet (demo_packet (Text.str "hi")))).
Proof.
  assert (exists s', read_ipv6_packet 1240 (mkSocket [Chunk demo_stream] [] []) = (s', Ok (demo_packet (Text.str "hi")))) as [s' H]
    by (eexists; vm_compute; reflexivity).
  destruct (tunnel_reader_refines _ _ _ _ H) as [n Hn]. exists n, s'. exact Hn.
Defined.

(** A loop that read the stream in the [select!] itself would lose what a dropped read had taken:
    the packet is torn and the next header is read from its middle. *)
Example dropped_read_tears : exists s s' e,
  read_ipv6_packet 1240 (mkSocket [Chunk (take 30 demo_stream); RxStall; Chunk (drop 30 demo_stream)] [] []) = (s, Pending) /\
  read_ipv6_packet 1240 s = (s', Err e).
Proof. eexists _, _, _. split; vm_compute; reflexivity. Qed.

End TunnelSpec.
