(* ===== verification/Json.v ===== *)
(** JSON documents, as the program sees them through the serde_json crate.

    [Value] has the constructors of [serde_json::Value]; a number is an unsigned or a
    negative 64-bit integer or a float, by its IEEE bits; an object is the list of its
    entries. Indexing with a missing key gives [Null], as the crate's [Index] does. The
    parser and printer are the crate's: parameters of the class [JsonCodec]. *)

From S2P Require Import Prelude.

Module Json.

Inductive Value :=
| Null
| Bool (b : bool)
| PosInt (n : N)
| NegInt (n : Z)
| Float (bits : Z)
| String (s : bytes)
| Array (l : list Value)
| Object (m : list (bytes * Value)).

Definition as_u64 (v : Value) : option Z := match v with PosInt n => Some (Z.of_N n) | _ => None end.
Definition as_str (v : Value) : option bytes := match v with String s => Some s | _ => None end.
Definition as_array (v : Value) : option (list Value) := match v with Array l => Some l | _ => None end.
Definition as_object (v : Value) : option (list (bytes * Value)) := match v with Object m => Some m | _ => None end.
Definition as_bool (v : Value) : option bool := match v with Bool b => Some b | _ => None end.
Definition get (key : bytes) (v : Value) : option Value := match v with Object m => imap_lookup key m | _ => None end.
Definition field (key : bytes) (v : Value) : Value := default Null (get key v).

Class JsonCodec := {
  from_slice : bytes -> option Value;
  to_vec : Value -> option bytes;
}.

End Json.
