(* ===== verification/CdTunnel.v ===== *)
(** The CDTunnel handshake ([crates/ios-core/src/tunnel/handshake.rs]).

    Before packets flow the two sides exchange one JSON document each, behind a ten-byte
    header. The client's request states its MTU; the reply names the addresses, the port of the
    service registry and the MTU of the tunnel. The JSON text is serde_json's
    ([Json.JsonCodec]). The deadline of the public entry turns a wait into an error. *)

From S2P Require Import Prelude Socket Text Json Tunnel.

Module CdTunnel.
Import Net Socket Text Tunnel.
Import Json(JsonCodec, from_slice, to_vec, field, as_u64, as_str).

Definition MAGIC : bytes := str "CDTunnel".
Definition HEADER_LEN : Z := 10.
Definition MAX_BODY_LEN : Z := 255.

Record TunnelInfo := mkInfo { server_address : bytes; server_rsd_port : Z; client_address : bytes; client_mtu : Z }.

Definition protocol (text : string) (args : list Z) : TunnelError := TProtocol (Msg text args).
Definition ok_or {A} (o : option A) (e : TunnelError) : outcome TunnelError A := match o with Some a => Ok a | None => Err e end.

(** A field is named by its path. *)
Definition parse_nonzero_u16 (raw : Json.Value) (field : string) : outcome TunnelError Z :=
  value ← ok_or (as_u64 raw) (protocol ("missing " ++ field) []);
  if (value <=? 65535) && negb (value =? 0) then Ok value
  else Err (protocol ("invalid " ++ field ++ ": expected integer in 1..={}") [65535]).
Definition parse_supported_mtu (raw : Json.Value) (field : string) : outcome TunnelError Z :=
  raw_value ← ok_or (as_u64 raw) (protocol ("missing or invalid " ++ field) []);
  if u32_max <? raw_value then Err (protocol ("invalid " ++ field ++ ": value {raw_value} exceeds {}") [raw_value; u32_max]) else
  match mtu_new raw_value with
  | Ok _ => Ok raw_value
  | _ => Err (protocol ("invalid " ++ field ++ ": {error}") [raw_value])
  end.

Section codec.
Context `{JC : JsonCodec}.

Definition handshake_json (mtu : ValidatedMtu) : Json.Value :=
  Json.Object [(str "type", Json.String (str "clientHandshakeRequest")); (str "mtu", Json.PosInt (Z.to_N (as_u16 mtu)))].
Definition encode_handshake_request (mtu : Z) : outcome TunnelError bytes :=
  mtu ← mtu_new mtu;
  json_bytes ← ok_or (to_vec (handshake_json mtu)) (protocol "failed to serialize handshake: {e}" []);
  if MAX_BODY_LEN <? len json_bytes then Err (protocol "handshake JSON exceeds {MAX_BODY_LEN} bytes" [MAX_BODY_LEN]) else
  if 65535 <? len json_bytes then Err (protocol "handshake JSON length {} exceeds u16::MAX" [len json_bytes]) else
  Ok (MAGIC ++ be_bytes 2 (len json_bytes) ++ json_bytes).

Definition parse_tunnel_info (raw : Json.Value) : outcome TunnelError TunnelInfo :=
  server_address ← ok_or (as_str (field (str "serverAddress") raw)) (protocol "missing serverAddress" []);
  server_rsd_port ← parse_nonzero_u16 (field (str "serverRSDPort") raw) "serverRSDPort";
  client_address ← ok_or (as_str (field (str "address") (field (str "clientParameters") raw)))
    (protocol "missing clientParameters.address" []);
  client_mtu ← parse_supported_mtu (field (str "mtu") (field (str "clientParameters") raw)) "clientParameters.mtu";
  Ok (mkInfo server_address server_rsd_port client_address client_mtu).

Definition exchange_tunnel_parameters_inner : st Socket TunnelError TunnelInfo :=
  req ← st_lift (encode_handshake_request 1280);
  write_all req ;;
  flush ;;
  header ← read_exact HEADER_LEN;
  magic ← st_lift (slice header 0 (length MAGIC));
  if negb (bool_decide (magic = MAGIC)) then st_fail (protocol "invalid CDTunnel magic: {:?}" []) else
  b8 ← st_lift (index header 8);
  b9 ← st_lift (index header 9);
  body ← read_exact (be_Z [b8; b9]);
  raw ← st_lift (ok_or (from_slice body) (protocol "invalid CDTunnel JSON: {e}" []));
  st_lift (parse_tunnel_info raw).

(** [tokio::time::timeout] around the exchange: what would wait for ever is an error. *)
Definition exchange_tunnel_parameters_with_timeout (timeout_ms : Z) : st Socket TunnelError TunnelInfo := fun s =>
  match exchange_tunnel_parameters_inner s with
  | (s, Pending) => (s, Err (protocol "CDTunnel handshake timed out after {} ms" [timeout_ms]))
  | r => r
  end.

(** ** The exchange *)

(** What a parser of the single-byte-length dialect expects of the request. *)
Definition go_ios_frame (body : bytes) : bytes := MAGIC ++ [x00] ++ [bZ (len body)] ++ body.
Definition reply_frame (body : bytes) : bytes := MAGIC ++ be_bytes 2 (len body) ++ body.
Definition info_ok (raw : Json.Value) (i : TunnelInfo) : Prop :=
  field (str "serverAddress") raw = Json.String (server_address i) /\
  field (str "serverRSDPort") raw = Json.PosInt (Z.to_N (server_rsd_port i)) /\ 1 <= server_rsd_port i <= 65535 /\
  field (str "address") (field (str "clientParameters") raw) = Json.String (client_address i) /\
  field (str "mtu") (field (str "clientParameters") raw) = Json.PosInt (Z.to_N (client_mtu i)) /\ 1280 <= client_mtu i <= 65535.

Lemma ok_or_ok {A} (o : option A) e a : ok_or o e = Ok a -> o = Some a.
Proof. destruct o; cbn; congruence. Qed.
Lemma as_u64_some v n : as_u64 v = Some n -> v = Json.PosInt (Z.to_N n) /\ 0 <= n.
Proof. destruct v; cbn; try done. intros [= <-]. by rewrite N2Z.id; split; [|lia]. Qed.
Lemma as_str_some v s : as_str v = Some s -> v = Json.String s.
Proof. destruct v; cbn; congruence. Qed.

Lemma parse_tunnel_info_iff raw i : parse_tunnel_info raw = Ok i <-> info_ok raw i.
Proof.
  unfold parse_tunnel_info, parse_nonzero_u16, parse_supported_mtu. split.
  - destruct (ok_or (as_str (field (str "serverAddress") raw)) _) as [sa|e| | |] eqn:E1; try done.
    destruct (ok_or (as_u64 (field (str "serverRSDPort") raw)) _) as [port|e| | |] eqn:E2; try done. cbn [mbind outcome_bind].
    destruct ((port <=? 65535) && negb (port =? 0)) eqn:Ep; [|done]. cbn [mbind outcome_bind].
    destruct (ok_or (as_str (field (str "address") (field (str "clientParameters") raw))) _) as [ca|e| | |] eqn:E3; try done.
    destruct (ok_or (as_u64 (field (str "mtu") (field (str "clientParameters") raw))) _) as [mtu|e| | |] eqn:E4; try done. cbn [mbind outcome_bind].
    destruct (u32_max <? mtu) eqn:Em; [done|]. unfold mtu_new. destruct (mtu <? IPV6_MIN_MTU) eqn:El; [done|].
    destruct (65535 <? mtu) eqn:Eh; [done|]. cbn [mbind outcome_bind]. intros [= <-].
    apply ok_or_ok, as_str_some in E1, E3. apply ok_or_ok, as_u64_some in E2 as [E2 ?], E4 as [E4 ?].
    unfold IPV6_MIN_MTU in *. unfold info_ok. cbn [CdTunnel.server_address CdTunnel.server_rsd_port CdTunnel.client_address CdTunnel.client_mtu].
    split_and!; try done; lia.
  - intros (H1 & H2 & Hp & H3 & H4 & Hm). rewrite H1, H2, H3, H4. cbn [as_str as_u64 ok_or mbind outcome_bind].
    rewrite !Z2N.id by lia.
    assert ((server_rsd_port i <=? 65535) && negb (server_rsd_port i =? 0) = true) as -> by lia. cbn [mbind outcome_bind].
    unfold u32_max, mtu_new, IPV6_MIN_MTU. rewrite (proj2 (Z.ltb_ge _ _)) by lia. rewrite (proj2 (Z.ltb_ge (client_mtu i) _)) by lia.
    rewrite (proj2 (Z.ltb_ge 65535 _)) by lia. by destruct i.
Qed.
Lemma encode_handshake_frame mtu bs : encode_handshake_request mtu = Ok bs ->
  1280 <= mtu <= 65535 /\ exists json, to_vec (handshake_json (mkMtu mtu)) = Some json /\ len json <= 255 /\ bs = go_ios_frame json.
Proof.
  unfold encode_handshake_request, mtu_new. destruct (mtu <? IPV6_MIN_MTU) eqn:El; [done|]. destruct (65535 <? mtu) eqn:Eh; [done|]. cbn.
  destruct (to_vec _) as [json|] eqn:Ej; [|done]. cbn. destruct (MAX_BODY_LEN <? len json) eqn:Em; [done|].
  destruct (65535 <? len json); [done|]. intros [= <-]. unfold IPV6_MIN_MTU, MAX_BODY_LEN in *. split; [lia|].
  exists json. split; [done|]. split; [lia|]. unfold go_ios_frame, be_bytes. cbn [le_bytes rev app]. pose proof (len_nonneg json).
  rewrite (Z.div_small (len json) 256) by lia. done.
Qed.
End codec.

Section spec.
Context `{JC : JsonCodec}.

Lemma header_parts (header : bytes) : len header = HEADER_LEN ->
  exists m b8 b9, header = m ++ [b8; b9] /\ length m = 8%nat /\
    slice (E := TunnelError) header 0 (length MAGIC) = Ok m /\ index (E := TunnelError) header 8 = Ok b8 /\ index (E := TunnelError) header 9 = Ok b9.
Proof.
  unfold len, HEADER_LEN. intros Hl. do 10 (destruct header as [|? header]; [done|]).
  destruct header; [|cbn in Hl; lia]. eexists [_; _; _; _; _; _; _; _], _, _. by split_and!.
Qed.
Lemma be_two b8 b9 : 0 <= be_Z [b8; b9] /\ be_bytes 2 (be_Z [b8; b9]) = [b8; b9].
Proof.
  split; [apply be_Z_bound|]. unfold be_bytes, be_Z. change 2%nat with (length (rev [b8; b9])). by rewrite le_bytes_le_Z, rev_involutive.
Qed.

Lemma ok_or_returns {A} (o : option A) e : returns (ok_or o e).
Proof. by destruct o. Qed.
Lemma handshake_request_returns mtu : returns (encode_handshake_request mtu).
Proof.
  unfold encode_handshake_request, mtu_new. destruct (mtu <? _); [done|]. destruct (65535 <? mtu); [done|]. cbn.
  destruct (to_vec _) as [json|]; [|done]. cbn. by destruct (MAX_BODY_LEN <? len json), (65535 <? len json).
Qed.
Lemma tunnel_info_returns raw : returns (parse_tunnel_info raw).
Proof.
  unfold parse_tunnel_info, parse_nonzero_u16, parse_supported_mtu.
  repeat first [done|apply ok_or_returns|case_match|apply returns_bind; [|intros ? _]].
Qed.

(** The handshake. A call that succeeds has sent exactly one request, of a form both dialects of
    the protocol read, has read exactly one reply, and returns the addresses, the port and the MTU
    the reply states, the port between 1 and 65535 and the MTU between 1280 and 65535. A call that
    fails or is dropped has sent a prefix of the request. And a reply with these fields is accepted,
    however it is cut up, with nothing read beyond it. *)
Theorem cdtunnel_handshake_exact (s : Socket) :
  wpx exchange_tunnel_parameters_inner
    (fun i s' => exists json body raw,
       to_vec (handshake_json (mkMtu 1280)) = Some json /\ len json <= MAX_BODY_LEN /\
       traffic (reply_frame body) (go_ios_frame json) s s' /\ from_slice body = Some raw /\ info_ok raw i)
    (fun s' => exists json i o, o `prefix_of` go_ios_frame json /\ traffic i o s s')
    (fun s' => exists json i o, o `prefix_of` go_ios_frame json /\ traffic i o s s') s /\
  (forall json body raw i rest,
     to_vec (handshake_json (mkMtu 1280)) = Some json -> len json <= MAX_BODY_LEN -> in_u 16 (len body) ->
     flowing s -> data (rx s) = reply_frame body ++ rest -> from_slice body = Some raw -> info_ok raw i ->
     exists s', exchange_tunnel_parameters_inner s = (s', Ok i) /\ data (rx s') = rest /\ tx s' = tx s ++ go_ios_frame json).
Proof.
  split.
  - unfold exchange_tunnel_parameters_inner. wpx_step.
    apply wpx_lift; [apply handshake_request_returns| |exists [], [], []; split; [apply prefix_nil|apply traffic_refl]].
    intros req (_ & json & Hj & Hlj & ->)%encode_handshake_frame.
    assert (go_ios_frame json `prefix_of` go_ios_frame json) as Hself by (exists []; by rewrite app_nil_r).
    assert (forall i o s', traffic i o s s' -> o `prefix_of` go_ios_frame json ->
      exists json i o, o `prefix_of` go_ios_frame json /\ traffic i o s s') as Hpart by eauto.
    wpx_step. eapply wpx_mono; [apply write_all_traffic| |intros s' (o & Ho & Ht); eapply Hpart; eassumption..]. cbv beta. intros _ s1 H1.
    wpx_step. eapply wpx_mono; [apply flush_traffic| |by intros s' Ht; eapply Hpart; [exact (traffic_trans _ _ _ _ _ _ _ H1 Ht)|rewrite app_nil_r; exact Hself]..].
    cbv beta. intros _ s2 H2. pose proof (traffic_trans _ _ _ _ _ _ _ H1 H2) as H12. cbn [app] in H12. rewrite app_nil_r in H12. clear H1 H2.
    assert (forall i s', traffic i [] s2 s' -> exists json i o, o `prefix_of` go_ios_frame json /\ traffic i o s s') as Hread.
    { intros i s' Ht. pose proof (traffic_trans _ _ _ _ _ _ _ H12 Ht) as H. cbn [app] in H. rewrite app_nil_r in H. eapply Hpart; [exact H|exact Hself]. }
    wpx_step. eapply wpx_mono; [apply read_exact_traffic; done| |intros s' [i Hi]; eapply Hread; eassumption..]. cbv beta. intros header s3 [Hl H3].
    destruct (header_parts header Hl) as (m & b8 & b9 & -> & Hm & Es & E8 & E9).
    wpx_step. unfold wpx at 1, st_lift. rewrite Es. wpx_step; [apply wpx_fail; eapply Hread; eassumption|].
    wpx_step. unfold wpx at 1, st_lift. rewrite E8. wpx_step. unfold wpx at 1, st_lift. rewrite E9.
    destruct (be_two b8 b9) as [Hb Hbe].
    assert (forall i s', traffic i [] s3 s' -> traffic ((m ++ [b8; b9]) ++ i) [] s2 s') as Hread3.
    { intros i s' Ht. exact (traffic_trans _ _ _ _ _ _ _ H3 Ht). }
    wpx_step. eapply wpx_mono; [apply read_exact_traffic; done| |intros s' [i Hi]; eapply Hread, Hread3; eassumption..]. cbv beta. intros body s4 [Hlb H4%Hread3].
    wpx_step. apply wpx_lift; [apply ok_or_returns|intros raw Ej%ok_or_ok|eapply Hread; eassumption].
    apply wpx_lift; [apply tunnel_info_returns|intros i Ep%parse_tunnel_info_iff|eapply Hread; eassumption].
    exists json, body, raw. split_and!; try done. destruct (bool_decide_reflect (m = MAGIC)) as [->|]; [|done].
    unfold reply_frame. rewrite Hlb, Hbe. pose proof (traffic_trans _ _ _ _ _ _ _ H12 H4) as H. cbn [app] in H. rewrite app_nil_r in H. by rewrite <- app_assoc in H.
  - intros json body raw i rest Hj Hlj Hlb Hfl Hd Hraw Hi. unfold exchange_tunnel_parameters_inner.
    assert (encode_handshake_request 1280 = Ok (go_ios_frame json)) as He.
    { pose proof (handshake_request_returns 1280) as Hr. destruct (encode_handshake_request 1280) as [req|e| | |] eqn:E; try done.
      - apply encode_handshake_frame in E as (_ & json' & Hj' & _ & ->). by rewrite Hj in Hj'; injection Hj' as <-.
      - unfold encode_handshake_request in E. cbn [mtu_new] in E. change (mtu_new 1280) with (Ok (E := TunnelError) (mkMtu 1280)) in E.
        cbn [mbind outcome_bind] in E. rewrite Hj in E. cbn [ok_or mbind outcome_bind] in E. unfold MAX_BODY_LEN in *.
        rewrite (proj2 (Z.ltb_ge 255 _)), (proj2 (Z.ltb_ge 65535 _)) in E by lia. done. }
    assert (len MAGIC + 2 = HEADER_LEN) as Hmagic by done. unfold in_u in Hlb.
    unfold mbind, st_bind, st_lift. rewrite He, write_all_open by apply Hfl. rewrite flush_open by done.
    set (s1 := mkSocket _ _ _). assert (flowing s1) as Hfl1 by (split; [done|apply Hfl]).
    destruct (read_exact_flows (E := TunnelError) s1 (MAGIC ++ be_bytes 2 (len body)) (body ++ rest) Hfl1) as (s2 & E2 & Hfl2 & Hd2 & Ht2).
    { unfold s1. cbn [rx]. rewrite Hd. unfold reply_frame. by rewrite <- !app_assoc. }
    replace (len (MAGIC ++ be_bytes 2 (len body))) with HEADER_LEN in E2 by (rewrite len_app; unfold len at 2; by rewrite length_be_bytes).
    rewrite E2. change (MAGIC ++ be_bytes 2 (len body)) with (MAGIC ++ [bZ (len body / 256); bZ (len body)]).
    cbn -[be_Z bool_decide]. rewrite bool_decide_true by done. cbn [negb]. cbv iota.
    replace (be_Z [bZ (len body / 256); bZ (len body)]) with (len body).
    2: { change [bZ (len body / 256); bZ (len body)] with (be_bytes 2 (len body)). symmetry. apply (be_Z_be_bytes_u 2 16); done. }
    destruct (read_exact_flows (E := TunnelError) s2 body rest Hfl2 Hd2) as (s3 & E3 & _ & Hd3 & Ht3). rewrite E3, Hraw. cbn [ok_or].
    exists s3. rewrite (proj2 (parse_tunnel_info_iff raw i) Hi). split_and!; [done|done|by rewrite Ht3, Ht2].
Qed.
End spec.

(** *** A run *)

Definition demo_json : bytes := str "{type:clientHandshakeRequest,mtu:1280}".
Definition demo_body : bytes := str "reply".
Definition demo_reply : Json.Value := Json.Object
  [(str "serverAddress", Json.String (str "fd59::1")); (str "serverRSDPort", Json.PosInt 58783);
   (str "clientParameters", Json.Object [(str "address", Json.String (str "fd59::2")); (str "mtu", Json.PosInt 1280)])].
Definition demo_codec : JsonCodec := {|
  from_slice := fun bs => if bool_decide (bs = demo_body) then Some demo_reply else None;
  to_vec := fun _ => Some demo_json;
|}.
Definition demo_info : TunnelInfo := mkInfo (str "fd59::1") 58783 (str "fd59::2") 1280.
Definition demo_socket : Socket := mkSocket [Chunk (take 9 (reply_frame demo_body)); Chunk (drop 9 (reply_frame demo_body) ++ [x60])] [] [].
Lemma cdtunnel_handshake_exact_witness :
  exists s', exchange_tunnel_parameters_inner (JC := demo_codec) demo_socket = (s', Ok demo_info) /\
    data (rx s') = [x60] /\ tx s' = go_ios_frame demo_json.
Proof.
  apply (proj2 (cdtunnel_handshake_exact (JC := demo_codec) demo_socket) demo_json demo_body demo_reply demo_info [x60]); try done.
  split; [done|]. repeat constructor; by eexists.
Defined.

End CdTunnel.
