(* ===== verification/Frames.v ===== *)
(** Property lists on a stream: the framing of the plist services
    ([services/plist_frame.rs]), of lockdown ([lockdown/protocol.rs]) and of usbmux
    ([mux/protocol.rs]).

    All three send an XML property list behind a header with its length and refuse a length
    over a limit before they read. What differs is the header, the limit and the error type.
    [Channel] is what they have in common and what their clients rely on; the three
    instances at the end discharge it. A reply is deserialised straight into a Rust type by
    the plist crate and serde's derived code, the class [FromPlist]. *)

From S2P Require Import Prelude Socket Text Plist.

(** [plist::from_bytes::<T>] *)
Class FromPlist (T : Type) := from_plist : bytes -> option T.
#[export] Instance value_from_plist `{Plist.PlistCodec} : FromPlist Plist.Value := Plist.from_bytes.
Definition occurs (p s : bytes) : Prop := exists a b, s = a ++ p ++ b.
(** What an XML property list can hold exactly. Text: the characters of XML 1.0, in UTF-8, but the carriage
    return, which a reader takes for a line end. A date: whole seconds of the years 1970 to 9999, here in
    nanoseconds since 1970. A real: a finite one. A [Uid] has no XML form. *)
Definition xml_text (s : bytes) : Prop :=
  Utf8.from_utf8 s = true /\ Forall (fun b => 0x20 <= Zb b \/ Zb b = 0x09 \/ Zb b = 0x0a) s /\
  ~ occurs [xef; xbf; xbe] s /\ ~ occurs [xef; xbf; xbf] s.
Definition finite (bits : Z) : Prop := in_u 64 bits /\ Z.land (Z.shiftr bits 52) 0x7ff <> 0x7ff.
Fixpoint xml_value (v : Plist.Value) : Prop :=
  match v with
  | Plist.Array l => foldr (fun v => and (xml_value v)) True l
  | Plist.Dictionary m => NoDup m.*1 /\ foldr (fun kv => and (xml_text kv.1 /\ xml_value kv.2)) True m
  | Plist.Boolean _ | Plist.Data _ => True
  | Plist.Date t => 0 <= t < 253402300800 * 10 ^ 9 /\ t mod 10 ^ 9 = 0
  | Plist.Real r => finite r
  | Plist.Integer n => - 2 ^ 63 <= n < 2 ^ 64
  | Plist.String s => xml_text s
  | Plist.Uid _ => False
  end.
(** The XML encoding of such a value decodes to it. *)
Class XmlCodec (PC : Plist.PlistCodec) := xml_roundtrip :
  forall v bs, xml_value v -> Plist.to_writer_xml v = Some bs -> Plist.from_bytes bs = Some v.
#[export] Instance tree_xml : XmlCodec Plist.tree_codec.
Proof. intros v bs _ [= <-]. apply Plist.tree_decode. Qed.

Module PlistFrame.
Import Net Socket Plist.

Inductive PlistFrameError := Io | PlistError | Protocol (m : msg).
#[global] Instance frame_io_error : IoError PlistFrameError := Io.

Definition write_raw_plist_frame (payload : bytes) (max_len : Z) : st Socket PlistFrameError unit :=
  if max_len <? len payload
  then st_fail (Protocol (Msg "plist frame length {} exceeds max {max_len}" [len payload; max_len])) else
  if u32_max <? len payload then st_fail (Protocol (Msg "plist frame too large: {}" [len payload])) else
  write_all (be_bytes 4 (len payload)) ;;
  write_all payload ;;
  flush.
Section codec.
Context `{PC : PlistCodec}.
Definition write_xml_plist_frame (value : Value) (max_len : Z) : st Socket PlistFrameError unit :=
  match to_writer_xml value with
  | Some payload => write_raw_plist_frame payload max_len
  | None => st_fail PlistError
  end.
Definition write_binary_plist_frame (value : Value) (max_len : Z) : st Socket PlistFrameError unit :=
  match to_writer_binary value with
  | Some payload => write_raw_plist_frame payload max_len
  | None => st_fail PlistError
  end.
End codec.
Definition read_plist_frame (T : Type) `{FromPlist T} (max_len : Z) : st Socket PlistFrameError T :=
  len_buf ← read_exact 4;
  let length := be_Z len_buf in
  if max_len <? length
  then st_fail (Protocol (Msg "plist frame length {len} exceeds max {max_len}" [length; max_len])) else
  payload ← read_exact length;
  match from_plist payload with Some v => mret v | None => st_fail PlistError end.
End PlistFrame.

Module Lockdown.
Import Net Socket Plist.

Inductive LockdownError := Io | Protocol (m : msg) | PairRecord.
#[global] Instance lockdown_io_error : IoError LockdownError := Io.

Definition LOCKDOWN_PORT : Z := 62078.
Definition MAX_LOCKDOWN_FRAME_SIZE : Z := 4 * 1024 * 1024.

(** [payload.len() as u32] keeps the low 32 bits, as [be_bytes 4] does; the assertion against
    that is for debug builds. *)
Definition encode_frame (payload : bytes) : bytes := be_bytes 4 (len payload) ++ payload.
Definition recv_frame : st Socket LockdownError bytes :=
  len_buf ← read_exact 4;
  let length := be_Z len_buf in
  if MAX_LOCKDOWN_FRAME_SIZE <? length
  then st_fail (Protocol (Msg "frame too large: {length} bytes exceeds {MAX_LOCKDOWN_FRAME_SIZE}" [length; MAX_LOCKDOWN_FRAME_SIZE]))
  else read_exact length.
Definition send_lockdown `{PC : PlistCodec} (value : Value) : st Socket LockdownError unit :=
  match to_writer_xml value with
  | Some bs => write_all (encode_frame bs) ;; flush
  | None => st_fail (Protocol (Msg "{e}" []))
  end.
Definition recv_lockdown (T : Type) `{FromPlist T} : st Socket LockdownError T :=
  payload ← recv_frame;
  match from_plist payload with Some v => mret v | None => st_fail (Protocol (Msg "{e}" [])) end.
End Lockdown.

Module Mux.
Import Net Socket Plist.

Inductive MuxError := Io | Protocol (m : msg) | DeviceNotFound (s : bytes).
#[global] Instance mux_io_error : IoError MuxError := Io.

Definition MAX_MUX_MESSAGE_SIZE : Z := 16 * 1024 * 1024.
Definition HEADER : Z := 16.

Definition checked_mux_message_len (payload_len : Z) : outcome MuxError Z :=
  let total := payload_len + HEADER in
  if usize_max <? total then Err (Protocol (Msg "mux message length overflow" [])) else
  if u32_max <? total then Err (Protocol (Msg "mux message too large: {total} bytes exceeds u32::MAX" [total])) else
  Ok total.
Definition encode_message (payload : bytes) (tag : Z) : outcome MuxError bytes :=
  total ← checked_mux_message_len (len payload);
  Ok (le_bytes 4 total ++ le_bytes 4 1 ++ le_bytes 4 8 ++ le_bytes 4 tag ++ payload).
Definition send_plist `{PC : PlistCodec} (value : Value) (tag : Z) : st Socket MuxError unit :=
  match to_writer_xml value with
  | Some plist_bytes => msg ← st_lift (encode_message plist_bytes tag); write_all msg ;; flush
  | None => st_fail (Protocol (Msg "{e}" []))
  end.
Definition recv_plist (T : Type) `{FromPlist T} : st Socket MuxError T :=
  header ← read_exact HEADER;
  let length := le_Z (take 4 header) in
  if length <? HEADER then st_fail (Protocol (Msg "invalid message length: {length}" [length])) else
  if MAX_MUX_MESSAGE_SIZE <? length
  then st_fail (Protocol (Msg "message too large: {length} bytes exceeds {MAX_MUX_MESSAGE_SIZE}" [length; MAX_MUX_MESSAGE_SIZE])) else
  payload ← read_exact (length - HEADER);
  match from_plist payload with Some v => mret v | None => st_fail (Protocol (Msg "{e}" [])) end.
End Mux.

(** ** What a framing promises *)

Module Channel.
Import Net Socket Plist.

Section channel.
Context `{PC : PlistCodec}.

(** [wire p] is the frame written for the payload [p], if it [fits] the limits; [carries i p]
    says that the bytes [i] are a frame that is accepted with the payload [p]. *)
Class Channel (E : Type) `{!IoError E} := {
  send : Value -> st Socket E unit;
  recv : forall (T : Type) `{FromPlist T}, st Socket E T;
  wire : bytes -> bytes;
  carries : bytes -> bytes -> Prop;
  fits : bytes -> Prop;
  send_sound : forall v s,
    wpx (send v) (fun _ s' => exists p, to_writer_xml v = Some p /\ traffic [] (wire p) s s')
      (fun s' => exists p, wrote_part (wire p) s s') (fun s' => exists p, wrote_part (wire p) s s') s;
  recv_sound : forall (T : Type) `{FromPlist T} s,
    wpx (recv T) (fun v s' => exists i p, carries i p /\ from_plist p = Some v /\ traffic i [] s s')
      (read_part s) (read_part s) s;
  recv_flows : forall (T : Type) `{FromPlist T} s i p v rest,
    flowing s -> data (rx s) = i ++ rest -> carries i p -> from_plist p = Some v ->
    exists s', recv T s = (s', Ok v) /\ flowing s' /\ data (rx s') = rest /\ tx s' = tx s;
  send_open : forall v s p,
    wr s = [] -> to_writer_xml v = Some p -> fits p -> send v s = (mkSocket (rx s) [] (tx s ++ wire p), Ok tt);
  wire_carries : forall p, fits p -> carries (wire p) p;
}.

Section exchange.
Context {E : Type} `{!IoError E} `{CH : !Channel E}.

(** What one side sends the other receives, in order. *)
Lemma send_recv `{!XmlCodec PC} v p s s' rest :
  xml_value v -> to_writer_xml v = Some p -> fits p -> wr s = [] -> tx s = [] ->
  flowing s' -> data (rx s') = tx (fst (send v s)) ++ rest ->
  exists s'', recv Value s' = (s'', Ok v) /\ data (rx s'') = rest.
Proof.
  intros Hv Hp Hf Hw Ht Hfl Hd. rewrite (send_open v s p), Ht in Hd by done. cbn in Hd.
  destruct (recv_flows Value s' (wire p) p v rest) as (s'' & Hr & _ & Hd' & _); try done.
  - by apply wire_carries.
  - by eapply xml_roundtrip.
  - by exists s''.
Qed.

(** A request was sent and the frame with [reply] was read, and nothing else. *)
Definition asked (v : Value) (reply : bytes) (s s' : Socket) : Prop :=
  exists request i, to_writer_xml v = Some request /\ carries i reply /\ traffic i (wire request) s s'.
(** The exchange stopped: at most a part of one frame was written. *)
Definition gave_up (s s' : Socket) : Prop := exists p i o, o `prefix_of` wire p /\ traffic i o s s'.

Lemma gave_up_wrote s s' : (exists p, wrote_part (wire p) s s') -> gave_up s s'.
Proof. intros (p & o & Ho & Ht). by exists p, [], o. Qed.
Lemma gave_up_read p i s s1 s' : traffic i (wire p) s s1 -> read_part s1 s' -> gave_up s s'.
Proof.
  intros Ht [i' Ht']. exists p, (i ++ i'), (wire p). split; [exists []; by rewrite app_nil_r|].
  pose proof (traffic_trans _ _ _ _ _ _ _ Ht Ht') as H. by rewrite app_nil_r in H.
Qed.
Lemma ask_sound (T : Type) `{FromPlist T} v s :
  wpx (send v ;; recv T) (fun r s' => exists reply, from_plist reply = Some r /\ asked v reply s s') (gave_up s) (gave_up s) s.
Proof.
  wpx_step. eapply wpx_mono; [apply send_sound| |intros s' Hs; by apply gave_up_wrote..].
  cbv beta. intros _ s1 (p & Hp & H1). eapply wpx_mono; [apply recv_sound| |intros s' Hs; by eapply gave_up_read..].
  cbv beta. intros r s' (i & q & Hc & Hq & H2). exists q. split; [done|]. exists p, i. split_and!; try done.
  pose proof (traffic_trans _ _ _ _ _ _ _ H1 H2) as H12. by rewrite app_nil_r in H12.
Qed.
Lemma ask_flows (T : Type) `{FromPlist T} v q i reply r s rest :
  flowing s -> data (rx s) = i ++ rest -> carries i reply -> from_plist reply = Some r ->
  to_writer_xml v = Some q -> fits q ->
  exists s', (send v ;; recv T) s = (s', Ok r) /\ flowing s' /\ data (rx s') = rest /\ tx s' = tx s ++ wire q.
Proof.
  intros Hfl Hd Hc Hr Hq Hf. unfold mbind, st_bind. rewrite (send_open v s q) by (try done; apply Hfl).
  destruct (recv_flows T (mkSocket (rx s) [] (tx s ++ wire q)) i reply r rest) as (s' & -> & ? & ? & ?); try done.
  - split; [done|apply Hfl].
  - by exists s'.
Qed.
End exchange.

(** *** Clients: a record with a stream in it *)
Class HasStream (C : Type) := {
  stream_of : C -> Socket;
  with_stream : Socket -> C -> C;
  stream_with : forall s c, stream_of (with_stream s c) = s;
  with_with : forall s s' c, with_stream s (with_stream s' c) = with_stream s c;
}.
Definition on_stream {C E A} `{HasStream C} (m : st Socket E A) : st C E A := fun c =>
  let '(s, o) := m (stream_of c) in (with_stream s c, o).
Lemma wpx_on {C E A} `{HasStream C} (m : st Socket E A) (Q : A -> C -> Prop) R T c :
  wpx m (fun a s => Q a (with_stream s c)) (fun s => R (with_stream s c)) (fun s => T (with_stream s c)) (stream_of c) ->
  wpx (on_stream m) Q R T c.
Proof. unfold wpx, on_stream. by destruct (m (stream_of c)) as [s []]. Qed.

Lemma on_stream_ask {C E A B D} `{HasStream C} (a : st Socket E A) (b : st Socket E B) (f : B -> outcome E D) c :
  (on_stream a ;; r ← on_stream b; st_lift (f r)) c = on_stream (r ← (a ;; b); st_lift (f r)) c.
Proof.
  unfold mbind, st_bind, on_stream, st_lift. destruct (a (stream_of c)) as [s1 []]; try done. rewrite stream_with.
  destruct (b s1) as [s2 []]; by rewrite ?with_with.
Qed.

(** The call [m] asks [v] and answers from the reply: it returns [a] only for a reply [r] with
    [P r a] that was read as a whole after the request had been written as a whole; otherwise it has
    written at most a part of a frame more; and it does return [a] whenever such a reply arrives.
    [before] is what the call does to the client's own fields. *)
Definition answers {C E A T} `{HasStream C} `{!IoError E} `{FromPlist T} (CH : C -> Channel E) (before : C -> C)
    (m : st C E A) (v : Value) (P : T -> A -> Prop) : Prop := forall c,
  wpx m
    (fun a c' => exists s' reply r, c' = with_stream s' (before c) /\ from_plist reply = Some r /\ P r a /\
       asked (CH := CH c) v reply (stream_of c) s')
    (fun c' => exists s', c' = with_stream s' (before c) /\ gave_up (CH := CH c) (stream_of c) s')
    (fun c' => exists s', c' = with_stream s' (before c) /\ gave_up (CH := CH c) (stream_of c) s') c /\
  (forall q i reply r a rest,
     flowing (stream_of c) -> data (rx (stream_of c)) = i ++ rest -> carries (Channel := CH c) i reply -> from_plist reply = Some r -> P r a ->
     to_writer_xml v = Some q -> fits (Channel := CH c) q ->
     exists s', m c = (with_stream s' (before c), Ok a) /\ data (rx s') = rest /\ tx s' = tx (stream_of c) ++ wire (Channel := CH c) q).

Lemma answers_intro {C E A T} `{HasStream C} `{!IoError E} `{FromPlist T} (CH : C -> Channel E) (before : C -> C)
    (m : st C E A) (v : Value) (P : T -> A -> Prop) (f : T -> outcome E A) :
  (forall c, stream_of (before c) = stream_of c) ->
  (forall c, m c = on_stream (r ← (send (Channel := CH c) v ;; recv (Channel := CH c) T); st_lift (f r)) (before c)) ->
  (forall r, returns (f r)) -> (forall r a, f r = Ok a <-> P r a) -> answers CH before m v P.
Proof.
  intros Hb Hm Hf HP c. split.
  - unfold wpx at 1. rewrite Hm. apply wpx_on. rewrite Hb.
    wpx_step. eapply wpx_mono; [apply ask_sound| |intros s' Hs; by exists s'..].
    cbv beta. intros r s' (reply & Hr & Ha). assert (gave_up (CH := CH c) (stream_of c) s') as Hg.
    { destruct Ha as (q & i & _ & _ & Ht). exists q, i, (wire (Channel := CH c) q). split; [exists []; by rewrite app_nil_r|done]. }
    apply wpx_lift; [done|intros a Hfa; exists s', reply, r; split_and!; try done; by apply HP|by exists s'].
  - intros q i reply r a rest Hfl Hd Hc Hr Hp Hq Hfit. rewrite Hm. unfold on_stream. rewrite Hb.
    destruct (ask_flows (CH := CH c) T v q i reply r (stream_of c) rest) as (s' & Hs & _ & Hd' & Ht'); try done.
    unfold mbind at 1, st_bind at 1. rewrite Hs. unfold st_lift. rewrite (proj2 (HP r a) Hp). by exists s'.
Qed.
End channel.
End Channel.

(** ** The three framings are channels *)

Module Framings.
Import Net Socket Plist Channel.

(** The four bytes of a length. *)
Lemma be_len4 l : len l = 4 -> be_bytes 4 (be_Z l) = l /\ in_u 32 (be_Z l).
Proof.
  intros H. assert (length l = 4%nat) as Hl by (unfold len in H; lia). split.
  - unfold be_bytes, be_Z. rewrite <- Hl, <- length_rev, le_bytes_le_Z. apply rev_involutive.
  - pose proof (be_Z_bound l) as Hb. rewrite H in Hb. exact Hb.
Qed.
Lemma le_len4 l : len l = 4 -> le_bytes 4 (le_Z l) = l /\ in_u 32 (le_Z l).
Proof.
  intros H. assert (length l = 4%nat) as Hl by (unfold len in H; lia). split.
  - rewrite <- Hl. apply le_bytes_le_Z.
  - pose proof (le_Z_bound l) as Hb. rewrite H in Hb. exact Hb.
Qed.

Section writes.
Context {E : Type} `{!IoError E}.
(** A frame written in one piece or in two, and flushed. *)
Lemma write_flush_wpx bs s :
  wpx (write_all (E := E) bs ;; flush) (fun _ s' => traffic [] bs s s') (wrote_part bs s) (wrote_part bs s) s.
Proof.
  assert (forall s1 s', traffic [] bs s s1 -> traffic [] [] s1 s' -> traffic [] bs s s') as Hf.
  { intros s1 s' H1 H2. pose proof (traffic_trans _ _ _ _ _ _ _ H1 H2) as H. cbn [app] in H. by rewrite app_nil_r in H. }
  wpx_step. eapply wpx_mono; [apply write_all_traffic| |done|done]. cbv beta. intros _ s1 H1.
  assert (bs `prefix_of` bs) as Hself by (exists []; by rewrite app_nil_r).
  eapply wpx_mono; [apply flush_traffic|cbv beta; intros _ s' H2|intros s' H2; exists bs; split; [exact Hself|]..]; exact (Hf _ _ H1 H2).
Qed.
Lemma write_two_wpx a b s :
  wpx (write_all (E := E) a ;; write_all b ;; flush) (fun _ s' => traffic [] (a ++ b) s s') (wrote_part (a ++ b) s) (wrote_part (a ++ b) s) s.
Proof.
  wpx_step. eapply wpx_mono; [apply write_all_traffic| |intros s' (o & Ho & Ht); exists o; split; [by apply prefix_app_r|done]..].
  cbv beta. intros _ s1 H1. eapply wpx_mono; [apply write_flush_wpx| | |].
  - cbv beta. intros _ s' H2. exact (traffic_trans _ _ _ _ _ _ _ H1 H2).
  - intros s' (o & Ho & Ht). exists (a ++ o). split; [by apply prefix_app|]. exact (traffic_trans _ _ _ _ _ _ _ H1 Ht).
  - intros s' (o & Ho & Ht). exists (a ++ o). split; [by apply prefix_app|]. exact (traffic_trans _ _ _ _ _ _ _ H1 Ht).
Qed.
Lemma nothing_written p (s : Socket) : wrote_part p s s.
Proof. exists []. split; [apply prefix_nil|apply traffic_refl]. Qed.
Lemma write_flush_open bs s : wr s = [] -> (write_all (E := E) bs ;; flush) s = (mkSocket (rx s) [] (tx s ++ bs), Ok tt).
Proof. intros Hw. unfold mbind, st_bind. rewrite write_all_open by done. by apply flush_open. Qed.

(** A header of [h] bytes and a payload of the length it states. *)
Lemma read_two_wpx {A} (h : Z) (size : bytes -> outcome E Z) (k : bytes -> outcome E A) s :
  0 <= h -> (forall hdr, len hdr = h -> match size hdr with Ok n => 0 <= n | Err _ => True | _ => False end) ->
  (forall p, returns (k p)) ->
  wpx (hdr ← read_exact h; n ← st_lift (size hdr); p ← read_exact n; st_lift (k p))
    (fun v s' => exists hdr p, len hdr = h /\ size hdr = Ok (len p) /\ k p = Ok v /\ traffic (hdr ++ p) [] s s')
    (read_part s) (read_part s) s.
Proof.
  intros Hh Hs Hk. wpx_step. eapply wpx_mono; [by apply read_exact_traffic| |done|done]. cbv beta. intros hdr s1 [Hl H1].
  assert (read_part s s1) as Hp1 by (by exists hdr). specialize (Hs hdr Hl).
  wpx_step. apply wpx_lift; [by destruct (size hdr)|intros n En|done]. rewrite En in Hs.
  assert (forall i s', traffic i [] s1 s' -> traffic (hdr ++ i) [] s s') as Ht by (intros i s' H2; exact (traffic_trans _ _ _ _ _ _ _ H1 H2)).
  wpx_step. eapply wpx_mono; [by apply read_exact_traffic| |intros s' [i Hi]; exists (hdr ++ i); by apply Ht..].
  cbv beta. intros p s2 [Hlp H2%Ht]. apply wpx_lift; [done| |by eexists]. intros v Hv. exists hdr, p. by rewrite Hlp.
Qed.
Lemma read_two_flows {A} (h : Z) (size : bytes -> outcome E Z) (k : bytes -> outcome E A) s hdr p v rest :
  flowing s -> data (rx s) = (hdr ++ p) ++ rest -> len hdr = h -> size hdr = Ok (len p) -> k p = Ok v ->
  exists s', (hdr ← read_exact h; n ← st_lift (size hdr); p ← read_exact n; st_lift (k p)) s = (s', Ok v) /\
    flowing s' /\ data (rx s') = rest /\ tx s' = tx s.
Proof.
  intros Hfl Hd <- Hs Hk. rewrite <- app_assoc in Hd. unfold mbind, st_bind, st_lift.
  destruct (read_exact_flows (E := E) s hdr (p ++ rest) Hfl Hd) as (s1 & -> & Hfl1 & Hd1 & Ht1). rewrite Hs.
  destruct (read_exact_flows (E := E) s1 p rest Hfl1 Hd1) as (s2 & -> & Hfl2 & Hd2 & Ht2). rewrite Hk.
  exists s2. split_and!; try done. congruence.
Qed.
End writes.

(** A header that passes with a length [n], and a payload of that length. *)
Definition carried {E} (h : Z) (size : bytes -> outcome E Z) (i p : bytes) : Prop :=
  exists hdr, i = hdr ++ p /\ len hdr = h /\ size hdr = Ok (len p).
Definition decoded {E T} `{FromPlist T} (e : E) (p : bytes) : outcome E T := match from_plist p with Some v => Ok v | None => Err e end.

Lemma two_sound {E} `{!IoError E} (T : Type) `{FromPlist T} h size (e : E) (m : st Socket E T) s :
  0 <= h -> (forall hdr, len hdr = h -> match size hdr with Ok n => 0 <= n | Err _ => True | _ => False end) ->
  (forall s, m s = (hdr ← read_exact h; n ← st_lift (size hdr); p ← read_exact n; st_lift (decoded e p)) s) ->
  wpx m (fun v s' => exists i p, carried h size i p /\ from_plist p = Some v /\ traffic i [] s s') (read_part s) (read_part s) s.
Proof.
  intros Hh Hs Hm. unfold wpx at 1. rewrite Hm.
  eapply wpx_mono; [apply read_two_wpx; [done|done|intros p; unfold decoded; by destruct (from_plist p)]| |done|done].
  cbv beta. intros v s' (hdr & p & Hl & Hn & Hk & Ht). exists (hdr ++ p), p. split; [by exists hdr|]. split; [|done].
  unfold decoded in Hk. destruct (from_plist p); [|done]. by injection Hk as <-.
Qed.
Lemma two_flows {E} `{!IoError E} (T : Type) `{FromPlist T} h size (e : E) (m : st Socket E T) s i p v rest :
  (forall s, m s = (hdr ← read_exact h; n ← st_lift (size hdr); p ← read_exact n; st_lift (decoded e p)) s) ->
  flowing s -> data (rx s) = i ++ rest -> carried h size i p -> from_plist p = Some v ->
  exists s', m s = (s', Ok v) /\ flowing s' /\ data (rx s') = rest /\ tx s' = tx s.
Proof.
  intros Hm Hfl Hd (hdr & -> & Hl & Hn) Hv. rewrite Hm. apply (read_two_flows h size (decoded e) s hdr p v rest); try done.
  unfold decoded. by rewrite Hv.
Qed.

Section codec.
Context `{PC : PlistCodec}.

(** *** The plist services *)
Definition plist_size (max_len : Z) (hdr : bytes) : outcome PlistFrame.PlistFrameError Z :=
  let n := be_Z hdr in
  if max_len <? n then Err (PlistFrame.Protocol (Msg "plist frame length {len} exceeds max {max_len}" [n; max_len])) else Ok n.
Lemma read_plist_frame_two (T : Type) `{FromPlist T} max_len s :
  PlistFrame.read_plist_frame T max_len s =
  (hdr ← read_exact 4; n ← st_lift (plist_size max_len hdr); p ← read_exact n; st_lift (decoded PlistFrame.PlistError p)) s.
Proof.
  unfold PlistFrame.read_plist_frame, mbind, st_bind, plist_size. destruct (read_exact 4 s) as [s1 [hdr|e| | |]]; try done.
  cbv zeta. destruct (max_len <? be_Z hdr); [done|]. cbn [st_lift]. destruct (read_exact (be_Z hdr) s1) as [s2 [p|e| | |]]; try done.
  unfold decoded. by destruct (from_plist p).
Qed.
#[export] Program Instance plist_channel (max_len : Z) : Channel PlistFrame.PlistFrameError := {|
  send := fun v => PlistFrame.write_xml_plist_frame v max_len;
  recv := fun T _ => PlistFrame.read_plist_frame T max_len;
  wire := fun p => be_bytes 4 (len p) ++ p;
  carries := carried 4 (plist_size max_len);
  fits := fun p => len p <= max_len /\ len p <= u32_max;
|}.
Next Obligation.
  intros max_len v s. unfold PlistFrame.write_xml_plist_frame, PlistFrame.write_raw_plist_frame.
  destruct (to_writer_xml v) as [p|]; [|apply wpx_fail; exists []; apply nothing_written].
  do 2 (wpx_step; [apply wpx_fail; exists p; apply nothing_written|]).
  eapply wpx_mono; [apply write_two_wpx|cbv beta; eauto|eauto|eauto].
Qed.
Next Obligation.
  intros max_len T HT s. eapply two_sound; [done| |apply read_plist_frame_two].
  intros hdr Hl. unfold plist_size. cbv zeta. destruct (max_len <? be_Z hdr); [done|]. apply be_Z_bound.
Qed.
Next Obligation. intros max_len T HT s i p v rest. apply two_flows with PlistFrame.PlistError. apply read_plist_frame_two. Qed.
Next Obligation.
  intros max_len v s p Hw Hp [H1 H2]. cbv beta. unfold PlistFrame.write_xml_plist_frame, PlistFrame.write_raw_plist_frame. rewrite Hp.
  rewrite (proj2 (Z.ltb_ge max_len _)), (proj2 (Z.ltb_ge u32_max _)) by done.
  unfold mbind, st_bind. rewrite write_all_open by done. rewrite write_all_open by done. rewrite flush_open by done. cbn. by rewrite app_assoc.
Qed.
Next Obligation.
  intros max_len p [H1 H2]. exists (be_bytes 4 (len p)). split_and!; [done|unfold len at 1; by rewrite length_be_bytes|].
  unfold plist_size. pose proof (len_nonneg p). rewrite (be_Z_be_bytes_u 4 32) by (try done; unfold in_u, u32_max in *; lia).
  cbv zeta. by rewrite (proj2 (Z.ltb_ge max_len _)).
Qed.

(** *** Lockdown *)
Definition lockdown_size (hdr : bytes) : outcome Lockdown.LockdownError Z :=
  let n := be_Z hdr in
  if Lockdown.MAX_LOCKDOWN_FRAME_SIZE <? n
  then Err (Lockdown.Protocol (Msg "frame too large: {length} bytes exceeds {MAX_LOCKDOWN_FRAME_SIZE}" [n; Lockdown.MAX_LOCKDOWN_FRAME_SIZE]))
  else Ok n.
Lemma recv_lockdown_two (T : Type) `{FromPlist T} s :
  Lockdown.recv_lockdown T s =
  (hdr ← read_exact 4; n ← st_lift (lockdown_size hdr); p ← read_exact n; st_lift (decoded (Lockdown.Protocol (Msg "{e}" [])) p)) s.
Proof.
  unfold Lockdown.recv_lockdown, Lockdown.recv_frame, mbind, st_bind, lockdown_size. destruct (read_exact 4 s) as [s1 [hdr|e| | |]]; try done.
  cbv zeta. destruct (_ <? be_Z hdr); [done|]. cbn [st_lift]. destruct (read_exact (be_Z hdr) s1) as [s2 [p|e| | |]]; try done.
  unfold decoded. by destruct (from_plist p).
Qed.
#[export] Program Instance lockdown_channel : Channel Lockdown.LockdownError := {|
  send := Lockdown.send_lockdown;
  recv := fun T _ => Lockdown.recv_lockdown T;
  wire := Lockdown.encode_frame;
  carries := carried 4 lockdown_size;
  fits := fun p => len p <= Lockdown.MAX_LOCKDOWN_FRAME_SIZE;
|}.
Next Obligation.
  intros v s. unfold Lockdown.send_lockdown. destruct (to_writer_xml v) as [p|]; [|apply wpx_fail; exists []; apply nothing_written].
  eapply wpx_mono; [apply write_flush_wpx|cbv beta; eauto|eauto|eauto].
Qed.
Next Obligation.
  intros T HT s. eapply two_sound; [done| |apply recv_lockdown_two].
  intros hdr Hl. unfold lockdown_size. cbv zeta. destruct (_ <? be_Z hdr); [done|]. apply be_Z_bound.
Qed.
Next Obligation. intros T HT s i p v rest. eapply two_flows. apply recv_lockdown_two. Qed.
Next Obligation.
  intros v s p Hw Hp Hf. cbv beta. unfold Lockdown.send_lockdown. rewrite Hp. by apply write_flush_open.
Qed.
Next Obligation.
  intros p Hf. exists (be_bytes 4 (len p)). split_and!; [done|unfold len at 1; by rewrite length_be_bytes|].
  unfold lockdown_size. pose proof (len_nonneg p). unfold Lockdown.MAX_LOCKDOWN_FRAME_SIZE in *.
  rewrite (be_Z_be_bytes_u 4 32) by (try done; unfold in_u in *; lia). cbv zeta. by rewrite (proj2 (Z.ltb_ge _ (len p))).
Qed.

(** *** usbmux *)
Definition mux_size (hdr : bytes) : outcome Mux.MuxError Z :=
  let n := le_Z (take 4 hdr) in
  if n <? Mux.HEADER then Err (Mux.Protocol (Msg "invalid message length: {length}" [n])) else
  if Mux.MAX_MUX_MESSAGE_SIZE <? n
  then Err (Mux.Protocol (Msg "message too large: {length} bytes exceeds {MAX_MUX_MESSAGE_SIZE}" [n; Mux.MAX_MUX_MESSAGE_SIZE]))
  else Ok (n - Mux.HEADER).
Definition mux_frame (tag : Z) (p : bytes) : bytes :=
  le_bytes 4 (len p + Mux.HEADER) ++ le_bytes 4 1 ++ le_bytes 4 8 ++ le_bytes 4 tag ++ p.
Lemma recv_plist_two (T : Type) `{FromPlist T} s :
  Mux.recv_plist T s =
  (hdr ← read_exact Mux.HEADER; n ← st_lift (mux_size hdr); p ← read_exact n; st_lift (decoded (Mux.Protocol (Msg "{e}" [])) p)) s.
Proof.
  unfold Mux.recv_plist, mbind, st_bind, mux_size. destruct (read_exact Mux.HEADER s) as [s1 [hdr|e| | |]]; try done.
  cbv zeta. destruct (_ <? Mux.HEADER); [done|]. destruct (Mux.MAX_MUX_MESSAGE_SIZE <? _); [done|]. cbn [st_lift].
  destruct (read_exact _ s1) as [s2 [p|e| | |]]; try done. unfold decoded. by destruct (from_plist p).
Qed.
Lemma encode_message_ok p tag : len p + Mux.HEADER <= u32_max -> Mux.encode_message p tag = Ok (mux_frame tag p).
Proof.
  intros H. unfold Mux.encode_message, Mux.checked_mux_message_len. unfold u32_max, usize_max in *. cbv zeta.
  rewrite (proj2 (Z.ltb_ge (2 ^ 64 - 1) _)), (proj2 (Z.ltb_ge (2 ^ 32 - 1) _)) by lia. done.
Qed.
#[export] Program Instance mux_channel (tag : Z) : Channel Mux.MuxError := {|
  send := fun v => Mux.send_plist v tag;
  recv := fun T _ => Mux.recv_plist T;
  wire := mux_frame tag;
  carries := carried Mux.HEADER mux_size;
  fits := fun p => len p + Mux.HEADER <= Mux.MAX_MUX_MESSAGE_SIZE;
|}.
Next Obligation.
  intros tag v s. unfold Mux.send_plist. destruct (to_writer_xml v) as [p|]; [|apply wpx_fail; exists []; apply nothing_written].
  destruct (Z.le_gt_cases (len p + Mux.HEADER) u32_max) as [Hl|Hl].
  - wpx_step. rewrite encode_message_ok by done. unfold wpx at 1, st_lift. cbv beta iota.
    eapply wpx_mono; [apply write_flush_wpx|cbv beta; eauto|eauto|eauto].
  - wpx_step. unfold Mux.encode_message, Mux.checked_mux_message_len. cbv zeta. destruct (usize_max <? _).
    + exists []. apply nothing_written.
    + rewrite (proj2 (Z.ltb_lt u32_max _)) by done. exists []. apply nothing_written.
Qed.
Next Obligation.
  intros tag T HT s. eapply two_sound; [done| |apply recv_plist_two].
  intros hdr Hl. unfold mux_size. cbv zeta. destruct (Z.ltb_spec (le_Z (take 4 hdr)) Mux.HEADER); [done|]. destruct (Mux.MAX_MUX_MESSAGE_SIZE <? le_Z (take 4 hdr)); [done|]. lia.
Qed.
Next Obligation. intros tag T HT s i p v rest. eapply two_flows. apply recv_plist_two. Qed.
Next Obligation.
  intros tag v s p Hw Hp Hf. cbv beta. unfold Mux.send_plist. rewrite Hp. unfold mbind, st_bind, st_lift.
  rewrite encode_message_ok by (unfold Mux.MAX_MUX_MESSAGE_SIZE, u32_max in *; lia). by apply write_flush_open.
Qed.
Next Obligation.
  intros tag p Hf. exists (le_bytes 4 (len p + Mux.HEADER) ++ le_bytes 4 1 ++ le_bytes 4 8 ++ le_bytes 4 tag).
  split_and!; [unfold mux_frame; by rewrite <- !app_assoc|by rewrite !len_app, !len_le_bytes|].
  unfold mux_size. cbv zeta. pose proof (len_nonneg p). unfold Mux.MAX_MUX_MESSAGE_SIZE, Mux.HEADER in *.
  rewrite take_app_le, take_ge by (rewrite length_le_bytes; lia).
  rewrite (le_Z_le_bytes_u 4 32) by (try done; unfold in_u in *; lia).
  rewrite (proj2 (Z.ltb_ge _ 16)), (proj2 (Z.ltb_ge _ (len p + 16))) by lia. f_equal. lia.
Qed.

(** C27. The three framings deliver: a property list that XML can hold exactly, with dates of whole seconds,
    written by one side as a plist frame, a lockdown message or a usbmux message of a size the receiver
    accepts, is what the other side reads, however the bytes are cut up, and the bytes behind it stay for
    the next message. The senders of lockdown and usbmux do not check that size. *)
Theorem plist_channels_deliver `{!XmlCodec PC} (max_len tag : Z) (v : Value) (p : bytes) (s s' : Socket) (rest : bytes) :
  xml_value v -> to_writer_xml v = Some p -> wr s = [] -> tx s = [] -> flowing s' ->
  (len p <= max_len /\ len p <= u32_max -> data (rx s') = tx (fst (PlistFrame.write_xml_plist_frame v max_len s)) ++ rest ->
   exists s'', PlistFrame.read_plist_frame Value max_len s' = (s'', Ok v) /\ data (rx s'') = rest) /\
  (len p <= Lockdown.MAX_LOCKDOWN_FRAME_SIZE -> data (rx s') = tx (fst (Lockdown.send_lockdown v s)) ++ rest ->
   exists s'', Lockdown.recv_lockdown Value s' = (s'', Ok v) /\ data (rx s'') = rest) /\
  (len p + Mux.HEADER <= Mux.MAX_MUX_MESSAGE_SIZE -> data (rx s') = tx (fst (Mux.send_plist v tag s)) ++ rest ->
   exists s'', Mux.recv_plist Value s' = (s'', Ok v) /\ data (rx s'') = rest).
Proof.
  intros Hv Hp Hw Ht Hfl. split; [|split]; intros Hf Hd.
  - exact (send_recv (CH := plist_channel max_len) v p s s' rest Hv Hp Hf Hw Ht Hfl Hd).
  - exact (send_recv (CH := lockdown_channel) v p s s' rest Hv Hp Hf Hw Ht Hfl Hd).
  - exact (send_recv (CH := mux_channel tag) v p s s' rest Hv Hp Hf Hw Ht Hfl Hd).
Qed.
End codec.

Definition demo_value : Value := Dictionary [(Text.str "Status", String (Text.str "ok")); (Text.str "Date", Date (1700000000 * 10 ^ 9))].
(** [xml_text] of a concrete text: a text without the byte [xef] has neither of the two characters. *)
Lemma xml_text_ascii s : Utf8.from_utf8 s = true -> forallb (fun b => (0x20 <=? Zb b) && (Zb b <? 0x80)) s = true -> xml_text s.
Proof.
  intros Hu Hs. rewrite List.forallb_forall in Hs.
  assert (forall t, ~ occurs (xef :: t) s) as Hno.
  { intros t (a & b & ->). specialize (Hs xef). rewrite !List.in_app_iff in Hs. specialize (Hs ltac:(right; left; by left)). done. }
  split_and!; [done| |apply Hno|apply Hno]. apply Forall_forall. intros b Hb. apply list_elem_of_In in Hb. specialize (Hs b Hb). left. lia.
Qed.
Definition demo_payload : bytes := bits_of (countable.encode demo_value).
Definition demo_sender : Socket := mkSocket [] [] [].
Definition demo_wire : bytes := mux_frame 7 demo_payload.
Definition demo_receiver : Socket := mkSocket [Chunk (take 5 demo_wire); Chunk (drop 5 demo_wire ++ [x01])] [] [].
Lemma demo_xml : xml_value demo_value.
Proof.
  cbn. split; [repeat constructor; set_solver|]. split_and!; try done; by apply xml_text_ascii; vm_compute.
Qed.
Lemma plist_channels_deliver_witness :
  exists s'', Mux.recv_plist (H := value_from_plist (H := tree_codec)) Value demo_receiver = (s'', Ok demo_value) /\
    data (rx s'') = [x01].
Proof.
  apply (proj2 (proj2 (plist_channels_deliver (PC := tree_codec) 0 7 demo_value demo_payload demo_sender demo_receiver [x01]
    demo_xml eq_refl eq_refl eq_refl
    ltac:(split; [done|]; repeat constructor; by eexists)))).
  - vm_compute. done.
  - vm_compute. reflexivity.
Defined.
End Framings.
