(* ===== verification/PlistClients.v ===== *)
(** The clients that ask one question at a time over a plist stream: lockdown
    ([lockdown/client.rs], [start_service] of [lockdown/session.rs]), usbmux
    ([mux/mod.rs], [mux/client.rs], [mux/listener.rs], [socket_address_from_env] of
    [mux/connection.rs]) and DeviceLink ([services/device_link.rs]).

    A request struct is the dictionary serde's derived code writes for it: the fields in
    order under their renamed keys, without those that are skipped. The types of replies are
    records; reading one is [FromPlist]. An error that quotes a value is its template and the
    numbers in it. *)

From S2P Require Import Prelude Socket Utf8 Text Plist Frames.

Module LockdownClient.
Import Net Socket Text Plist Lockdown Channel.
#[local] Open Scope plist_scope.

Record ServiceInfo := mkInfo { port : Z; enable_service_ssl : bool }.
Record ValueOperationResponse := mkValueResponse { value_error : option bytes; value : option Value }.
Record StartServiceResponse := mkServiceResponse { service_port : option Z; service_ssl : option bool; service_error : option bytes }.

Definition skip_none (key : string) (o : option bytes) : list (bytes * Value) :=
  match o with Some s => [(str key, String s)] | None => [] end.
Definition request (name : bytes) (fields : list (bytes * Value)) : Value :=
  Dictionary ([(str "Label", String (str "ios-rs")); (str "Request", String name)] ++ fields).
Definition get_value_request (domain key : option bytes) : Value :=
  request (str "GetValue") (skip_none "Domain" domain ++ skip_none "Key" key).
Definition set_value_request (domain key : option bytes) (value : Value) : Value :=
  request (str "SetValue") (skip_none "Domain" domain ++ skip_none "Key" key ++ [(str "Value", value)]).
Definition remove_value_request (domain key : option bytes) : Value :=
  request (str "RemoveValue") (skip_none "Domain" domain ++ skip_none "Key" key).
Definition start_service_request (service : bytes) : Value := request (str "StartService") [(str "Service", String service)].
Definition stop_session_request (session_id : bytes) : Value := request (str "StopSession") [(str "SessionID", String session_id)].

Definition protocol (text : string) (args : list Z) : LockdownError := Protocol (Msg text args).

Definition redact_request_error (value : Value) : msg :=
  match value with
  | String text => Msg "<redacted error: {} chars>" [char_count text]
  | Data data => Msg "<redacted data: {} bytes>" [len data]
  | Integer n => Msg "{value:?}" [n]
  | Real _ | Boolean _ => Msg "{value:?}" []
  | _ => Msg "<redacted structured error>" []
  end.
Definition extract_get_value (response : Value) : outcome LockdownError Value :=
  match response with
  | Dictionary values =>
      match get (str "Error") values with
      | Some (String _) => Err (protocol "GetValue failed for domain={domain:?} key={key:?}: {error}" [])
      | _ =>
          match get (str "Value") values with
          | Some value => Ok value
          | None => Err (protocol "GetValue missing Value for domain={domain:?} key={key:?}: {:?}" [])
          end
      end
  | _ => Err (protocol "GetValue returned non-dictionary response for domain={domain:?} key={key:?}: {response:?}" [])
  end.
Definition value_outcome (name : string) (resp : ValueOperationResponse) : outcome LockdownError unit :=
  match value_error resp with
  | Some _ => Err (protocol (name ++ " failed for domain={domain:?} key={key:?}: {err}") [])
  | None => Ok tt
  end.
Definition failing_status (status : bytes) : bool :=
  bool_decide (to_ascii_lowercase status ∈ [str "error"; str "failed"; str "failure"; str "rejected"]).
Definition error_count (chain : Value) : Z := match as_array chain with Some l => len l | None => 1 end.
(** What [simple_request] makes of a reply. *)
Definition check_reply (request_name : bytes) (response : Value) : outcome LockdownError unit :=
  match as_dictionary response with
  | None => Err (protocol "{request_name} returned a non-dictionary response" [])
  | Some response =>
      if negb (bool_decide (get (str "Request") response ?> as_string = Some request_name))
      then Err (protocol "{request_name} returned an unexpected response request" []) else
      match get (str "Error") response with
      | Some error => Err (protocol ("{request_name} failed: " ++ msg_text (redact_request_error error)) (msg_args (redact_request_error error)))
      | None =>
          if match get (str "Status") response ?> as_string with Some status => failing_status status | None => false end
          then Err (protocol "{request_name} failed with Status={status}" []) else
          let count := match get (str "ErrorChain") response with Some chain => error_count chain | None => 0 end in
          if 0 <? count then Err (protocol "{request_name} failed with ErrorChain entries={count}" [count]) else
          if bool_decide (get (str "Result") response ?> as_string = Some (str "Failure"))
          then Err (protocol "{request_name} failed with Result=Failure" [])
          else Ok tt
      end
  end.
Definition service_outcome (resp : StartServiceResponse) : outcome LockdownError ServiceInfo :=
  match service_error resp with
  | Some _ => Err (protocol "StartService '{service}' failed: {err}" [])
  | None =>
      match service_port resp with
      | Some port => Ok (mkInfo port (default false (service_ssl resp)))
      | None => Err (protocol "StartService '{service}': missing Port field" [])
      end
  end.

Record LockdownClient := mkClient { stream : Socket; session_id : option bytes }.
#[export] Instance lockdown_stream : HasStream LockdownClient := {|
  stream_of := stream; with_stream := fun s c => mkClient s (session_id c); stream_with := fun s c => eq_refl; with_with := fun s s' c => eq_refl |}.
Abbreviation lockdown := (st LockdownClient LockdownError).

Section client.
Context `{PC : PlistCodec} `{FV : FromPlist ValueOperationResponse} `{FS : FromPlist StartServiceResponse}.

Definition get_value (domain key : option bytes) : lockdown Value :=
  on_stream (send_lockdown (get_value_request domain key)) ;;
  resp ← on_stream (recv_lockdown Value);
  st_lift (extract_get_value resp).
Definition set_value (domain key : option bytes) (value : Value) : lockdown unit :=
  on_stream (send_lockdown (set_value_request domain key value)) ;;
  resp ← on_stream (recv_lockdown ValueOperationResponse);
  st_lift (value_outcome "SetValue" resp).
Definition remove_value (domain key : option bytes) : lockdown unit :=
  on_stream (send_lockdown (remove_value_request domain key)) ;;
  resp ← on_stream (recv_lockdown ValueOperationResponse);
  st_lift (value_outcome "RemoveValue" resp).
Definition simple_request (request_name : bytes) (field : option (bytes * Value)) : lockdown unit :=
  on_stream (send_lockdown (request request_name (option_list field))) ;;
  response ← on_stream (recv_lockdown Value);
  st_lift (check_reply request_name response).
Definition activate (activation_record : Value) : lockdown unit :=
  simple_request (str "Activate") (Some (str "ActivationRecord", activation_record)).
Definition deactivate : lockdown unit := simple_request (str "Deactivate") None.
Definition start_service (service : bytes) : lockdown ServiceInfo :=
  on_stream (send_lockdown (start_service_request service)) ;;
  resp ← on_stream (recv_lockdown StartServiceResponse);
  st_lift (service_outcome resp).
(** The free function of the same name, over a session's streams. *)
Definition session_start_service (service_name : bytes) : st Socket LockdownError (Z * bool) :=
  send_lockdown (start_service_request service_name) ;;
  resp ← recv_lockdown StartServiceResponse;
  info ← st_lift (service_outcome resp);
  mret (port info, enable_service_ssl info).
(** [self.session_id.take()] *)
Definition stop_session : lockdown unit :=
  c ← st_get;
  match session_id c with
  | Some sid =>
      st_mod (fun c => mkClient (stream c) None) ;;
      on_stream (send_lockdown (stop_session_request sid))
  | None => mret tt
  end.
(** A version of two parts is filled up to the three that semver, here [parse], expects. *)
Definition normalize_version (s : bytes) : bytes :=
  match filter (fun b => b = x2e) s with
  | [] => s ++ str ".0.0"
  | [_] => s ++ str ".0"
  | _ => s
  end.
Definition product_version {V} (parse : bytes -> option V) : lockdown V :=
  val ← get_value None (Some (str "ProductVersion"));
  match as_string val with
  | None => st_fail (protocol "ProductVersion is not a string" [])
  | Some s => match parse (normalize_version s) with Some v => mret v | None => st_fail (protocol "invalid version '{s}': {e}" []) end
  end.

(** ** What the calls answer *)

(** A reply that counts as success of [name]. *)
Definition acknowledges (name : bytes) (response : Value) : Prop := exists m,
  response = Dictionary m /\ get (str "Request") m = Some (String name) /\ get (str "Error") m = None /\
  (forall s, get (str "Status") m = Some (String s) ->
     to_ascii_lowercase s ∉ [str "error"; str "failed"; str "failure"; str "rejected"]) /\
  (forall c, get (str "ErrorChain") m = Some c -> c = Array []) /\
  get (str "Result") m <> Some (String (str "Failure")).
Definition states_value (response v : Value) : Prop := exists m,
  response = Dictionary m /\ (forall s, get (str "Error") m <> Some (String s)) /\ get (str "Value") m = Some v.
Definition names_service (r : StartServiceResponse) (i : ServiceInfo) : Prop :=
  service_error r = None /\ service_port r = Some (port i) /\ enable_service_ssl i = default false (service_ssl r).

Lemma string_of (o : option Value) s : o ?> as_string = Some s <-> o = Some (String s).
Proof. split; [|by intros ->]. destruct o as [[]|]; cbn; try done. by intros [= ->]. Qed.

Lemma extract_get_value_iff r v : extract_get_value r = Ok v <-> states_value r v.
Proof.
  unfold extract_get_value, states_value. split.
  - destruct r as [|m| | | | | | |]; try done. intros H. exists m. split; [done|].
    destruct (get (str "Error") m) as [[]|]; try done; (split; [done|]); destruct (get (str "Value") m); congruence.
  - intros (m & -> & He & ->). destruct (get (str "Error") m) as [[]|]; try done. by destruct (He s).
Qed.
Lemma check_reply_iff name r a : check_reply name r = Ok a <-> acknowledges name r.
Proof.
  destruct a. unfold check_reply, acknowledges. split.
  - destruct r as [|m| | | | | | |]; try done. cbn [as_dictionary]. intros Hc. exists m. split; [done|].
    case_bool_decide as Hr; [|done]. cbn [negb] in Hc. apply string_of in Hr. split; [done|].
    destruct (get (str "Error") m); [done|]. split; [done|].
    destruct (match _ ?> as_string with Some _ => _ | None => _ end) eqn:Es; [done|]. split.
    { intros s Hs. rewrite Hs in Es. cbn [and_then as_string] in Es. unfold failing_status in Es. by apply bool_decide_eq_false in Es. }
    cbv zeta in Hc. destruct (0 <? _) eqn:Ec; [done|]. split.
    { intros c Hs. rewrite Hs in Ec. unfold error_count in Ec. destruct c as [l| | | | | | | |]; cbn [as_array] in Ec; try done. destruct l; [done|].
      unfold len in Ec. cbn in Ec. lia. }
    case_bool_decide as Hf; [done|]. intros Hs. apply Hf. by rewrite Hs.
  - intros (m & -> & Hr & He & Hs & Hc & Hf). cbn [as_dictionary]. rewrite Hr, He. cbn [and_then as_string].
    rewrite bool_decide_true by done. cbn [negb].
    destruct (match get (str "Status") m ?> as_string with Some _ => _ | None => _ end) eqn:Es.
    { destruct (get (str "Status") m ?> as_string) as [s|] eqn:E; [|done]. apply string_of in E.
      unfold failing_status in Es. apply bool_decide_eq_true in Es. by destruct (Hs s E). }
    assert (match get (str "ErrorChain") m with Some chain => error_count chain | None => 0 end = 0) as ->.
    { destruct (get (str "ErrorChain") m) as [c|]; [|done]. by rewrite (Hc c). }
    cbn. rewrite bool_decide_false; [done|]. intros E. apply string_of in E. done.
Qed.
Lemma service_outcome_iff r i : service_outcome r = Ok i <-> names_service r i.
Proof.
  unfold service_outcome, names_service. destruct r as [[p|] ssl [e|]], i as [p' ssl']; cbn; split; try done.
  - by intros (? & _).
  - by intros [= -> ->].
  - by intros (_ & [= ->] & ->).
  - by intros (? & _).
  - by intros (_ & ? & _).
Qed.
Lemma value_outcome_iff name r a : value_outcome name r = Ok a <-> value_error r = None.
Proof. destruct a. unfold value_outcome. by destruct (value_error r). Qed.

Lemma check_reply_returns name r : returns (check_reply name r).
Proof. unfold check_reply. by repeat case_match. Qed.

(** C26. Lockdown calls are exact. [activate] and [deactivate] succeed exactly on a reply that
    acknowledges the request: a dictionary that echoes its name and shows none of the five signs of
    failure. [get_value] returns exactly the stated value, [set_value] and [remove_value] succeed
    exactly when no error is named, and [start_service] returns exactly the service the reply names.
    Each sends one whole request frame and reads one whole reply frame, for any cutting of the bytes,
    and a call that stops early has sent at most a part of the frame. *)
Theorem lockdown_calls_exact (name : bytes) (field : option (bytes * Value)) (domain key : option bytes) (v : Value) (service : bytes) :
  let channel := fun _ : LockdownClient => Framings.lockdown_channel in
  answers channel id (simple_request name field) (request name (option_list field)) (fun r (_ : unit) => acknowledges name r) /\
  answers channel id (get_value domain key) (get_value_request domain key) states_value /\
  answers channel id (set_value domain key v) (set_value_request domain key v) (fun r (_ : unit) => value_error r = None) /\
  answers channel id (remove_value domain key) (remove_value_request domain key) (fun r (_ : unit) => value_error r = None) /\
  answers channel id (start_service service) (start_service_request service) names_service.
Proof.
  intros channel.
  split; [|split; [|split; [|split]]]; (eapply answers_intro; [done|intros c; apply on_stream_ask| |]).
  - apply check_reply_returns.
  - apply check_reply_iff.
  - intros r. unfold extract_get_value. by repeat case_match.
  - apply extract_get_value_iff.
  - intros r. unfold value_outcome. by case_match.
  - apply value_outcome_iff.
  - intros r. unfold value_outcome. by case_match.
  - apply value_outcome_iff.
  - intros r. unfold service_outcome. by repeat case_match.
  - apply service_outcome_iff.
Qed.
End client.
End LockdownClient.

Module MuxClient.
Import Net Socket Text Plist Mux Channel.

Definition unix_address (is_windows : bool) : bytes := if is_windows then str "tcp://127.0.0.1:27015" else str "unix:///var/run/usbmuxd".
Definition socket_address_from_env (env : option bytes) (is_windows : bool) : bytes :=
  match env with
  | Some addr =>
      if starts_with (str "tcp://") addr || starts_with (str "unix://") addr then addr
      else if contains (str ":") addr then str "tcp://" ++ addr
      else str "unix://" ++ addr
  | None => unix_address is_windows
  end.

Record DevicePropertiesRaw := mkProperties { serial_number : bytes; connection_type : bytes; product_id : option Z }.
Record DeviceEntryRaw := mkEntry { device_id : Z; properties : DevicePropertiesRaw }.
Record DeviceList := mkList { device_list : list DeviceEntryRaw }.
Record ReadBuidResponse := mkBuid { buid : bytes }.
Record ConnectResponse := mkConnect { connect_message_type : bytes; number : Z }.
Record DeviceEvent := mkEvent { event_message_type : bytes; event_device_id : Z; event_properties : option DevicePropertiesRaw }.

Record MuxDevice := mkDevice { d_device_id : Z; d_serial_number : bytes; d_connection_type : bytes; d_product_id : Z }.
Definition from_raw (raw : DeviceEntryRaw) : MuxDevice :=
  mkDevice (device_id raw) (serial_number (properties raw)) (connection_type (properties raw)) (default 0 (product_id (properties raw))).
Inductive MuxEvent := Attached (d : MuxDevice) | Detached (device_id : Z).

Definition request (name : string) (fields : list (bytes * Value)) : Value :=
  Dictionary ([(str "MessageType", String (str name)); (str "ProgName", String (str "ios-rs"));
               (str "ClientVersionString", String (str "ios-rs-0.1"))] ++ fields).
Definition bundle : list (bytes * Value) := [(str "BundleId", String (str "rs.ios")); (str "kLibUSBMuxVersion", Integer 3)].
Definition list_devices_request : Value := request "ListDevices" [].
Definition read_buid_request : Value := request "ReadBUID" bundle.
Definition read_pair_record_request (udid : bytes) : Value := request "ReadPairRecord" (bundle ++ [(str "PairRecordID", String udid)]).
(** [port.swap_bytes()] *)
Definition swap_bytes (port : Z) : Z := le_Z (be_bytes 2 port).
Definition connect_request (id port : Z) : Value :=
  request "Connect" (bundle ++ [(str "DeviceID", Integer id); (str "PortNumber", Integer (swap_bytes port))]).
Definition listen_request : Value := request "Listen" [].

Definition connect_outcome (resp : ConnectResponse) : outcome MuxError unit :=
  if negb (number resp =? 0) then Err (Protocol (Msg "usbmuxd connect failed: code {}" [number resp])) else Ok tt.
(** What an event yields; others are skipped. *)
Definition event_of (evt : DeviceEvent) : option MuxEvent :=
  if bool_decide (event_message_type evt = str "Attached") then
    match event_properties evt with
    | Some props =>
        Some (Attached (mkDevice (event_device_id evt) (serial_number props) (connection_type props) (default 0 (product_id props))))
    | None => None
    end
  else if bool_decide (event_message_type evt = str "Detached") then Some (Detached (event_device_id evt))
  else None.

Record MuxClient := mkClient { stream : Socket; tag : Z }.
#[export] Instance mux_stream : HasStream MuxClient := {|
  stream_of := stream; with_stream := fun s c => mkClient s (tag c); stream_with := fun s c => eq_refl; with_with := fun s s' c => eq_refl |}.
Abbreviation mux := (st MuxClient MuxError).

(** [self.tag += 1] on a [u32], wrapping as in a release build. *)
Definition bump_tag (c : MuxClient) : MuxClient := mkClient (stream c) ((tag c + 1) mod 2 ^ 32).
Definition next_tag : mux Z := t ← st_gets tag; st_mod bump_tag ;; mret t.
Definition connect (s : Socket) : MuxClient := mkClient s 1.

Section client.
Context `{PC : PlistCodec} `{FL : FromPlist DeviceList} `{FB : FromPlist ReadBuidResponse} `{FC : FromPlist ConnectResponse} `{FE : FromPlist DeviceEvent}.

Definition list_devices : mux (list MuxDevice) :=
  t ← next_tag;
  on_stream (send_plist list_devices_request t) ;;
  resp ← on_stream (recv_plist DeviceList);
  st_lift (Ok (map from_raw (device_list resp))).
Definition read_buid : mux bytes :=
  t ← next_tag;
  on_stream (send_plist read_buid_request t) ;;
  resp ← on_stream (recv_plist ReadBuidResponse);
  st_lift (Ok (buid resp)).
Definition read_pair_record (udid : bytes) : mux unit :=
  t ← next_tag;
  on_stream (send_plist (read_pair_record_request udid) t) ;;
  _ ← on_stream (recv_plist Value);
  st_lift (Ok tt).
(** The client is given up for its stream, which belongs to the port from then on. *)
Definition connect_to_port (id port : Z) : mux unit :=
  t ← next_tag;
  on_stream (send_plist (connect_request id port) t) ;;
  resp ← on_stream (recv_plist ConnectResponse);
  st_lift (connect_outcome resp).

(** [listen_events]: the request and its acknowledgement, then an item of the stream at a time. A
    message takes at least its header, so that the fuel of [next_event] is enough. *)
Definition listen : st Socket MuxError unit := send_plist listen_request 1 ;; _ ← recv_plist Value; mret tt.
Fixpoint event_loop (fuel : nat) : st Socket MuxError MuxEvent :=
  match fuel with
  | O => st_lift OutOfFuel
  | S fuel => evt ← recv_plist DeviceEvent; match event_of evt with Some e => mret e | None => event_loop fuel end
  end.
Definition next_event : st Socket MuxError MuxEvent := s ← st_get; event_loop (S (rx_bytes s)).

(** usbmux calls are exact: each sends one request frame with the next tag and reads one reply
    frame; [connect_to_port] succeeds exactly on code 0 and states the port with its bytes swapped, and
    the others return what the reply says, device by device. *)
Theorem mux_calls_exact (udid : bytes) (id port : Z) :
  let channel := fun c : MuxClient => Framings.mux_channel (tag c) in
  answers channel bump_tag list_devices list_devices_request (fun (r : DeviceList) ds => ds = map from_raw (device_list r)) /\
  answers channel bump_tag read_buid read_buid_request (fun (r : ReadBuidResponse) b => b = buid r) /\
  answers channel bump_tag (read_pair_record udid) (read_pair_record_request udid) (fun (_ : Value) (_ : unit) => True) /\
  answers channel bump_tag (connect_to_port id port) (connect_request id port) (fun (r : ConnectResponse) (_ : unit) => number r = 0) /\
  (in_u 16 port -> 0 <= swap_bytes port < 2 ^ 16 /\ be_bytes 2 (swap_bytes port) = le_bytes 2 port).
Proof.
  intros channel.
  split; [|split; [|split; [|split]]]; [..|];
    [(eapply answers_intro; [done|intros c; apply (on_stream_ask (C := MuxClient) _ _ _ (bump_tag c))| |])..|].
  - done.
  - intros r a. split; [by intros [= <-]|by intros ->].
  - done.
  - intros r a. split; [by intros [= <-]|by intros ->].
  - done.
  - by intros r [].
  - intros r. unfold connect_outcome. by case_match.
  - intros r []. unfold connect_outcome. destruct (number r =? 0) eqn:E; cbn; split; try done; intros; lia.
  - intros Hp. unfold swap_bytes. split; [apply le_Z_bound|]. unfold be_bytes at 1.
    change 2%nat with (length (be_bytes 2 port)) at 1. rewrite le_bytes_le_Z. unfold be_bytes. apply rev_involutive.
Qed.
End client.
End MuxClient.

Module DeviceLink.
Import Net Socket Text Plist Channel.
#[local] Open Scope plist_scope.

Inductive DeviceLinkError := Io | PlistError | Protocol (m : msg).
#[export] Instance link_io_error : IoError DeviceLinkError := Io.
(** [From<PlistFrameError>] *)
Definition from_frame (e : PlistFrame.PlistFrameError) : DeviceLinkError :=
  match e with PlistFrame.Io => Io | PlistFrame.PlistError => PlistError | PlistFrame.Protocol m => Protocol m end.
Definition map_err {A} (m : st Socket PlistFrame.PlistFrameError A) : st Socket DeviceLinkError A := fun s =>
  match m s with
  | (s, Ok a) => (s, Ok a)
  | (s, Err e) => (s, Err (from_frame e))
  | (s, Panic) => (s, Panic)
  | (s, Pending) => (s, Pending)
  | (s, OutOfFuel) => (s, OutOfFuel)
  end.

Definition MAX_PLIST_SIZE : Z := 4 * 1024 * 1024.
Abbreviation link := (st Socket DeviceLinkError).
Definition ok_or {A} (o : option A) (text : string) : link A :=
  match o with Some a => mret a | None => st_fail (Protocol (Msg text [])) end.

Section client.
Context `{PC : PlistCodec}.

Definition send_message (message : Value) : link unit := map_err (PlistFrame.write_xml_plist_frame message MAX_PLIST_SIZE).
Definition recv_message : link Value := map_err (PlistFrame.read_plist_frame Value MAX_PLIST_SIZE).

(** The elements of a message that starts with [expected]. *)
Definition message_of (expected : string) (response : Value) : link (list Value) :=
  message ← ok_or (as_array response) "expected array, got {response:?}";
  message_type ← ok_or (head message ?> as_string) "missing message type: {response:?}";
  if negb (bool_decide (message_type = str expected))
  then st_fail (Protocol (Msg ("expected " ++ expected ++ ", got {message_type}") []))
  else mret message.
Definition version_exchange : link Z :=
  response ← recv_message;
  message ← message_of "DLMessageVersionExchange" response;
  version ← ok_or (message !! 1%nat ?> as_unsigned_integer) "device link version exchange missing major version: {response:?}";
  send_message (Array [String (str "DLMessageVersionExchange"); String (str "DLVersionsOk"); Integer version]) ;;
  ready ← recv_message;
  _ ← message_of "DLMessageDeviceReady" ready;
  mret version.
Definition send_process_message (message : Value) : link unit := send_message (Array [String (str "DLMessageProcessMessage"); message]).
Definition recv_process_message : link (list (bytes * Value)) :=
  response ← recv_message;
  message ← message_of "DLMessageProcessMessage" response;
  ok_or (message !! 1%nat ?> as_dictionary) "process message missing dictionary payload: {response:?}".
Definition disconnect : link unit :=
  send_message (Array [String (str "DLMessageDisconnect"); String (str "___EmptyParameterString___")]).

(** ** The exchanges *)

#[local] Instance link_channel : Channel PlistFrame.PlistFrameError := Framings.plist_channel MAX_PLIST_SIZE.
(** A frame with the message [type :: rest] was read. *)
Definition heard (type : string) (rest : list Value) (i : bytes) : Prop :=
  exists p, carries i p /\ from_bytes p = Some (Array (String (str type) :: rest)).
Definition version_reply (v : Z) : Value := Array [String (str "DLMessageVersionExchange"); String (str "DLVersionsOk"); Integer v].

Lemma wpx_map_err {A} (m : st Socket PlistFrame.PlistFrameError A) Q R T s : wpx m Q R T s -> wpx (map_err m) Q R T s.
Proof. unfold wpx, map_err. by destruct (m s) as [s' []]. Qed.
Lemma message_of_wpx type response Q (R T : Socket -> Prop) s :
  (forall rest, response = Array (String (str type) :: rest) -> Q (String (str type) :: rest) s) -> R s ->
  wpx (message_of type response) Q R T s.
Proof.
  intros HQ HR. unfold message_of, ok_or. wpx_step. destruct response as [[|[] rest]| | | | | | | |]; cbn [as_array];
    try (by apply wpx_fail); apply wpx_ret; wpx_step; cbn [head and_then as_string]; try (by apply wpx_fail).
  apply wpx_ret. wpx_step; [by apply wpx_fail|]. apply wpx_ret. destruct (bool_decide_reflect (s0 = str type)) as [->|]; [|done]. by apply HQ.
Qed.
Lemma message_of_ok type rest s : message_of type (Array (String (str type) :: rest)) s = (s, Ok (String (str type) :: rest)).
Proof. unfold message_of, ok_or, mbind, st_bind, mret, st_ret. cbn [as_array head and_then as_string]. case_bool_decide; done. Qed.
Lemma recv_message_wpx s :
  wpx recv_message (fun v s' => exists i p, carries i p /\ from_bytes p = Some v /\ traffic i [] s s') (read_part s) (read_part s) s.
Proof. apply wpx_map_err. exact (recv_sound (Channel := link_channel) Value s). Qed.
Lemma recv_message_flows s i p v rest :
  flowing s -> data (rx s) = i ++ rest -> carries i p -> from_bytes p = Some v ->
  exists s', recv_message s = (s', Ok v) /\ flowing s' /\ data (rx s') = rest /\ tx s' = tx s.
Proof.
  intros Hfl Hd Hc Hv. destruct (recv_flows (Channel := link_channel) Value s i p v rest Hfl Hd Hc Hv) as (s' & Hs & ?).
  exists s'. split; [|done]. unfold recv_message, map_err. change (recv Value s) with (PlistFrame.read_plist_frame Value MAX_PLIST_SIZE s) in Hs. by rewrite Hs.
Qed.

(** The DeviceLink handshake. It returns a version only if the device proposed it, in order: the
    device's proposal is read, one acceptance of exactly this version is sent, and the device's ready
    message is read. If it stops earlier, it has sent at most a part of that one message, and it has
    sent nothing before a proposal arrived. A device that follows the protocol is always accepted. *)
Theorem device_link_version_exact (s : Socket) :
  wpx version_exchange
    (fun v s' => exists i1 rest i2 rest' p,
       heard "DLMessageVersionExchange" (Integer v :: rest) i1 /\ 0 <= v < 2 ^ 64 /\
       to_writer_xml (version_reply v) = Some p /\ heard "DLMessageDeviceReady" rest' i2 /\
       traffic (i1 ++ i2) (wire p) s s')
    (fun s' => read_part s s' \/ exists v rest i1 i o p, heard "DLMessageVersionExchange" (Integer v :: rest) i1 /\
       o `prefix_of` wire p /\ traffic (i1 ++ i) o s s')
    (fun s' => read_part s s' \/ exists v rest i1 i o p, heard "DLMessageVersionExchange" (Integer v :: rest) i1 /\
       o `prefix_of` wire p /\ traffic (i1 ++ i) o s s') s /\
  (forall v i1 rest i2 rest' p tail,
     flowing s -> data (rx s) = i1 ++ i2 ++ tail -> 0 <= v < 2 ^ 64 ->
     heard "DLMessageVersionExchange" (Integer v :: rest) i1 -> heard "DLMessageDeviceReady" rest' i2 ->
     to_writer_xml (version_reply v) = Some p -> fits p ->
     exists s', version_exchange s = (s', Ok v) /\ data (rx s') = tail /\ tx s' = tx s ++ wire p).
Proof.
  split.
  - unfold version_exchange. wpx_step. eapply wpx_mono; [apply recv_message_wpx| |by left..].
    cbv beta. intros response s1 (i1 & p1 & Hc1 & Hv1 & H1). assert (read_part s s1) as Hp1 by (by exists i1).
    wpx_step. apply message_of_wpx; [|by left]. intros rest ->. wpx_step. unfold ok_or.
    destruct rest as [|[| | | | | |v| |] rest]; cbn [lookup list_lookup and_then as_unsigned_integer]; try (by apply wpx_fail; left).
    destruct ((0 <=? v) && (v <? 2 ^ 64)) eqn:Ev; [|by apply wpx_fail; left]. apply wpx_ret.
    assert (heard "DLMessageVersionExchange" (Integer v :: rest) i1) as Hh1 by (by exists p1).
    assert (forall i o p s', o `prefix_of` wire p -> traffic i o s1 s' ->
      read_part s s' \/ exists v rest i1 i o p, heard "DLMessageVersionExchange" (Integer v :: rest) i1 /\
        o `prefix_of` wire p /\ traffic (i1 ++ i) o s s') as Hlate.
    { intros i o p s' Ho Ht. right. exists v, rest, i1, i, o, p. split_and!; try done. exact (traffic_trans _ _ _ _ _ _ _ H1 Ht). }
    wpx_step. eapply wpx_mono; [apply wpx_map_err, (send_sound (Channel := link_channel))| |intros s' (p & o & Ho & Ht); exact (Hlate _ _ _ _ Ho Ht)..].
    cbv beta. intros _ s2 (p & Hp & H2).
    assert (wire p `prefix_of` wire p) as Hself by (exists []; by rewrite app_nil_r).
    assert (forall i s', traffic i [] s2 s' -> traffic i (wire p) s1 s') as Hj.
    { intros i s' Ht. pose proof (traffic_trans _ _ _ _ _ _ _ H2 Ht) as H. cbn [app] in H. by rewrite app_nil_r in H. }
    wpx_step. eapply wpx_mono; [apply recv_message_wpx| |intros s' [i Ht]; exact (Hlate _ _ _ _ Hself (Hj _ _ Ht))..].
    cbv beta. intros ready s3 (i2 & p2 & Hc2 & Hv2 & H3%Hj).
    wpx_step. apply message_of_wpx; [|exact (Hlate _ _ _ _ Hself H3)]. intros rest' ->. apply wpx_ret.
    exists i1, rest, i2, rest', p. split_and!; try done; [lia|lia|by exists p2|]. exact (traffic_trans _ _ _ _ _ _ _ H1 H3).
  - intros v i1 rest i2 rest' p tail Hfl Hd Hv (p1 & Hc1 & Hv1) (p2 & Hc2 & Hv2) Hp Hf. unfold version_exchange.
    destruct (recv_message_flows s i1 p1 _ _ Hfl Hd Hc1 Hv1) as (s1 & E1 & Hfl1 & Hd1 & Ht1).
    assert (as_unsigned_integer (Integer v) = Some v) as Eu.
    { unfold as_unsigned_integer. by assert ((0 <=? v) && (v <? 2 ^ 64) = true) as -> by lia. }
    assert (send_message (version_reply v) s1 = (mkSocket (rx s1) [] (tx s1 ++ wire p), Ok tt)) as E2.
    { unfold send_message, map_err. pose proof (send_open (Channel := link_channel) (version_reply v) s1 p (proj1 Hfl1) Hp Hf) as E.
      change (send (version_reply v) s1) with (PlistFrame.write_xml_plist_frame (version_reply v) MAX_PLIST_SIZE s1) in E. by rewrite E. }
    set (s2 := mkSocket _ _ _) in E2. assert (flowing s2) as Hfl2 by (split; [done|apply Hfl1]).
    destruct (recv_message_flows s2 i2 p2 _ _ Hfl2 Hd1 Hc2 Hv2) as (s3 & E3 & _ & Hd3 & Ht3).
    unfold mbind, st_bind. rewrite E1, message_of_ok. cbn [lookup list_lookup and_then ok_or]. rewrite Eu.
    unfold ok_or, mret at 1, st_ret at 1. fold (version_reply v). rewrite E2, E3, message_of_ok. exists s3. split_and!; [done|done|]. rewrite Ht3. unfold s2. cbn. by rewrite Ht1.
Qed.
End client.

(** *** A run *)
Definition demo_frame (v : Value) : bytes := let p := Plist.bits_of (countable.encode v) in be_bytes 4 (len p) ++ p.
Definition demo_proposal : Value := Array [String (str "DLMessageVersionExchange"); Integer 300; Integer 0].
Definition demo_ready : Value := Array [String (str "DLMessageDeviceReady")].
Definition demo_replies : bytes := demo_frame demo_proposal ++ demo_frame demo_ready.
Definition demo_socket : Socket := mkSocket [Chunk (take 7 demo_replies); Chunk (drop 7 demo_replies)] [] [].
Lemma demo_heard type rest : len (Plist.bits_of (countable.encode (Array (String (str type) :: rest)))) <= MAX_PLIST_SIZE ->
  heard (PC := Plist.tree_codec) type rest (demo_frame (Array (String (str type) :: rest))).
Proof.
  intros Hl. exists (Plist.bits_of (countable.encode (Array (String (str type) :: rest)))). split; [|apply Plist.tree_decode].
  apply (wire_carries (Channel := Framings.plist_channel (PC := Plist.tree_codec) MAX_PLIST_SIZE)).
  cbn. split; [done|]. unfold MAX_PLIST_SIZE, u32_max in *. lia.
Qed.
Lemma device_link_version_exact_witness :
  exists s', version_exchange (PC := Plist.tree_codec) demo_socket = (s', Ok 300) /\ data (rx s') = [] /\
    tx s' = demo_frame (version_reply 300).
Proof.
  apply (proj2 (device_link_version_exact (PC := Plist.tree_codec) demo_socket) 300 (demo_frame demo_proposal) [Integer 0]
           (demo_frame demo_ready) [] (Plist.bits_of (countable.encode (version_reply 300))) []).
  - split; [done|]. repeat constructor; by eexists.
  - vm_compute. reflexivity.
  - lia.
  - apply demo_heard. vm_compute. done.
  - apply demo_heard. vm_compute. done.
  - done.
  - cbn. split; vm_compute; done.
Defined.
End DeviceLink.
