(* ===== verification/Mbdb.v ===== *)
(** The backup index of old iOS versions, [Manifest.mbdb]
    ([crates/ios-core/src/services/backup2/mbdb.rs]).

    The file is a magic number and records up to its end. [parse] keeps every field, so that
    [serialize] can write a filtered copy. A reader method works on what is left of the
    input; [zeroize], which wipes secrets when a record is dropped, has no effect on values.
    The SHA-1 digest is the sha1 crate's. *)

From S2P Require Import Prelude Utf8 Text.

Module Mbdb.
Import Text.

Inductive MbdbError := MbdbErr (text : string).

Definition MAGIC : bytes := str "mbdb" ++ [x05; x00].
Definition NULL_LENGTH : Z := 65535.
Definition MAX_RECORDS : Z := 1000000.
Definition MAX_FIELD_BYTES : Z := 65534.

Definition MbdbProperty : Type := option bytes * option bytes.
Record MbdbRecord := mkRecord {
  domain : option bytes;
  relative_path : option bytes;
  link_target : option bytes;
  data_hash : option bytes;
  encryption_key : option bytes;
  mode : Z;
  unknown2 : Z;
  unknown3 : Z;
  user_id : Z;
  group_id : Z;
  mtime : Z;
  atime : Z;
  ctime : Z;
  size : Z;
  flags : Z;
  properties : list MbdbProperty;
}.
Record MbdbManifest := mkManifest { records : list MbdbRecord }.

(** ** Reading *)

Abbreviation reader := (st bytes MbdbError).

Definition fixed (field : string) (n : nat) : reader bytes := fun l =>
  if (length l <? n)%nat then (l, Err (MbdbErr field)) else (drop n l, Ok (take n l)).
Definition read_byte (field : string) : reader Z := bs ← fixed field 1; mret (be_Z bs).
Definition read_u16 (field : string) : reader Z := bs ← fixed field 2; mret (be_Z bs).
Definition read_u32 (field : string) : reader Z := bs ← fixed field 4; mret (be_Z bs).
Definition read_u64 (field : string) : reader Z := bs ← fixed field 8; mret (be_Z bs).
Definition read_bytes (field : string) : reader (option bytes) :=
  length ← read_u16 field;
  if length =? NULL_LENGTH then mret None else
  if MAX_FIELD_BYTES <? length then st_fail (MbdbErr "Manifest.mbdb field is too large") else
  value ← fixed "Manifest.mbdb field is truncated" (Z.to_nat length);
  mret (Some value).
Definition read_string (field : string) : reader (option bytes) :=
  value ← read_bytes field;
  match value with
  | None => mret None
  | Some bytes => if from_utf8 bytes then mret (Some bytes) else st_fail (MbdbErr "Manifest.mbdb contains invalid UTF-8 text")
  end.
Definition read_property : reader MbdbProperty :=
  name ← read_string "property name";
  value ← read_string "property value";
  mret (name, value).
Definition read_properties : reader (list MbdbProperty) :=
  count ← read_byte "property count";
  repeatM (Z.to_nat count) read_property.
Definition read_record : reader MbdbRecord :=
  domain ← read_string "domain";
  relative_path ← read_string "relative path";
  link_target ← read_string "link target";
  data_hash ← read_bytes "data hash";
  encryption_key ← read_bytes "encryption key";
  mode ← read_u16 "mode";
  unknown2 ← read_u32 "unknown2";
  unknown3 ← read_u32 "unknown3";
  user_id ← read_u32 "user id";
  group_id ← read_u32 "group id";
  mtime ← read_u32 "mtime";
  atime ← read_u32 "atime";
  ctime ← read_u32 "ctime";
  size ← read_u64 "file size";
  flags ← read_byte "flags";
  properties ← read_properties;
  mret (mkRecord domain relative_path link_target data_hash encryption_key mode unknown2 unknown3 user_id group_id
          mtime atime ctime size flags properties).

(** Every record takes some bytes, so that the length of the input is fuel enough. *)
Fixpoint parse_loop (fuel : nat) (records : list MbdbRecord) : reader (list MbdbRecord) :=
  rest ← st_get;
  match rest with
  | [] => mret records
  | _ =>
      if MAX_RECORDS <=? len records then st_fail (MbdbErr "Manifest.mbdb exceeds the record safety limit") else
      match fuel with
      | O => st_lift OutOfFuel
      | S fuel => record ← read_record; parse_loop fuel (records ++ [record])
      end
  end.
Definition parse (input : bytes) : outcome MbdbError MbdbManifest :=
  if (length input <? length MAGIC)%nat || negb (bool_decide (take (length MAGIC) input = MAGIC))
  then Err (MbdbErr "Manifest.mbdb has an invalid magic/version") else
  let rest := drop (length MAGIC) input in
  records ← snd (parse_loop (length rest) [] rest);
  Ok (mkManifest records).

(** ** Writing *)

Definition put_bytes (value : option bytes) : outcome MbdbError bytes :=
  match value with
  | None => Ok (be_bytes 2 NULL_LENGTH)
  | Some value =>
      if len value <? NULL_LENGTH then Ok (be_bytes 2 (len value) ++ value)
      else Err (MbdbErr "Manifest.mbdb field is too large to serialize")
  end.
Definition put_string (value : option bytes) : outcome MbdbError bytes := put_bytes value.
Definition put_property (p : MbdbProperty) : outcome MbdbError bytes :=
  name ← put_string p.1; value ← put_string p.2; Ok (name ++ value).
Fixpoint put_all {A} (put : A -> outcome MbdbError bytes) (l : list A) : outcome MbdbError bytes :=
  match l with
  | [] => Ok []
  | a :: l => first ← put a; rest ← put_all put l; Ok (first ++ rest)
  end.
Definition encode (r : MbdbRecord) : outcome MbdbError bytes :=
  domain ← put_string (domain r);
  relative_path ← put_string (relative_path r);
  link_target ← put_string (link_target r);
  data_hash ← put_bytes (data_hash r);
  encryption_key ← put_bytes (encryption_key r);
  if 255 <? len (properties r) then Err (MbdbErr "Manifest.mbdb has too many properties in one record") else
  properties' ← put_all put_property (properties r);
  Ok (domain ++ relative_path ++ link_target ++ data_hash ++ encryption_key ++ be_bytes 2 (mode r) ++ be_bytes 4 (unknown2 r) ++
      be_bytes 4 (unknown3 r) ++ be_bytes 4 (user_id r) ++ be_bytes 4 (group_id r) ++ be_bytes 4 (mtime r) ++ be_bytes 4 (atime r) ++
      be_bytes 4 (ctime r) ++ be_bytes 8 (size r) ++ be_bytes 1 (flags r) ++ be_bytes 1 (len (properties r)) ++ properties').

Section serialize.
(** [Sha1::digest] *)
Context (digest : bytes -> bytes).

Definition file_id (r : MbdbRecord) : outcome MbdbError bytes :=
  match domain r, relative_path r with
  | None, _ => Err (MbdbErr "Manifest.mbdb record has no domain")
  | _, None => Err (MbdbErr "Manifest.mbdb record has no relative path")
  | Some domain, Some relative_path => Ok (flat_map hex_byte (digest (domain ++ str "-" ++ relative_path)))
  end.
(** The loop of [serialize]: a record that is not retained is skipped. *)
Fixpoint serialize_records (retain : option (gset bytes)) (l : list MbdbRecord) (output : bytes) : outcome MbdbError bytes :=
  match l with
  | [] => Ok output
  | record :: l =>
      keep ← match retain with
             | Some retain => id ← file_id record; Ok (bool_decide (id ∈ retain))
             | None => Ok true
             end;
      if keep : bool then encoded ← encode record; serialize_records retain l (output ++ encoded)
      else serialize_records retain l output
  end.
Definition serialize (m : MbdbManifest) (retain : option (gset bytes)) : outcome MbdbError bytes :=
  if MAX_RECORDS <? len (records m) then Err (MbdbErr "Manifest.mbdb exceeds the record safety limit") else
  serialize_records retain (records m) MAGIC.
End serialize.

(** ** The format

    [reads r e P]: the reader [r] accepts exactly the encodings, by [e], of the values that
    satisfy [P], and takes nothing more. *)

Definition reads {A} (r : reader A) (e : A -> outcome MbdbError bytes) (P : A -> Prop) : Prop := forall l l' a,
  r l = (l', Ok a) <-> P a /\ exists bs, e a = Ok bs /\ l = bs ++ l'.

Definition text (o : option bytes) : Prop := match o with Some s => from_utf8 s = true | None => True end.
Definition record_ok (r : MbdbRecord) : Prop :=
  text (domain r) /\ text (relative_path r) /\ text (link_target r) /\
  in_u 16 (mode r) /\ in_u 32 (unknown2 r) /\ in_u 32 (unknown3 r) /\ in_u 32 (user_id r) /\ in_u 32 (group_id r) /\
  in_u 32 (mtime r) /\ in_u 32 (atime r) /\ in_u 32 (ctime r) /\ in_u 64 (size r) /\ in_u 8 (flags r) /\
  Forall (fun p => text p.1 /\ text p.2) (properties r).

Lemma reads_fixed f n l l' bs : fixed f n l = (l', Ok bs) <-> length bs = n /\ l = bs ++ l'.
Proof.
  unfold fixed. destruct (length l <? n)%nat eqn:E; split.
  - done.
  - intros [<- ->]. apply Nat.ltb_lt in E. rewrite length_app in E. lia.
  - intros [= <- <-]. apply Nat.ltb_ge in E. split; [rewrite length_take; lia|by rewrite take_drop].
  - intros [<- ->]. by rewrite drop_app_length, take_app_length.
Qed.
Lemma reads_int (f : string) (n : nat) (w : Z) : w = 8 * Z.of_nat n ->
  reads (bs ← fixed f n; mret (be_Z bs)) (fun z => Ok (be_bytes n z)) (in_u w).
Proof.
  intros -> l l' z. unfold mbind, st_bind. split.
  - destruct (fixed f n l) as [l1 [bs|e| | |]] eqn:E; try done. apply reads_fixed in E as [Hl ->]. intros [= <- <-]. split.
    + unfold in_u. pose proof (be_Z_bound bs) as H. unfold len in H. rewrite Hl in H.
      change 256 with (2 ^ 8) in H. rewrite <- Z.pow_mul_r in H by lia. done.
    + eexists. split; [done|]. f_equal. unfold be_bytes, be_Z. by rewrite <- Hl, <- length_rev, le_bytes_le_Z, rev_involutive.
  - intros [Hz (bs & [= <-] & ->)]. rewrite (proj2 (reads_fixed f n (be_bytes n z ++ l') l' (be_bytes n z))).
    + unfold mret, st_ret. by rewrite (be_Z_be_bytes_u n (8 * Z.of_nat n)).
    + split; [by rewrite length_be_bytes|done].
Qed.
Lemma reads_byte f : reads (read_byte f) (fun z => Ok (be_bytes 1 z)) (in_u 8).
Proof. exact (reads_int f 1 8 eq_refl). Qed.
Lemma reads_u16 f : reads (read_u16 f) (fun z => Ok (be_bytes 2 z)) (in_u 16).
Proof. exact (reads_int f 2 16 eq_refl). Qed.
Lemma field_u32 f : reads (read_u32 f) (fun z => Ok (be_bytes 4 z)) (in_u 32).
Proof. exact (reads_int f 4 32 eq_refl). Qed.
Lemma field_u64 f : reads (read_u64 f) (fun z => Ok (be_bytes 8 z)) (in_u 64).
Proof. exact (reads_int f 8 64 eq_refl). Qed.
Lemma reads_bytes f : reads (read_bytes f) put_bytes (fun _ => True).
Proof.
  intros l l' o. unfold read_bytes. pose proof (reads_u16 f) as Hu. unfold mbind at 1, st_bind at 1. split.
  - destruct (read_u16 f l) as [l1 [n|e| | |]] eqn:E; try done. apply Hu in E as [Hn (b & [= <-] & ->)].
    destruct (n =? NULL_LENGTH) eqn:En; [intros [= <- <-]; apply Z.eqb_eq in En as ->; split; [done|]; by eexists|].
    destruct (MAX_FIELD_BYTES <? n) eqn:Em; [done|]. unfold mbind, st_bind.
    destruct (fixed _ _ l1) as [l2 [v|e| | |]] eqn:E; try done. apply reads_fixed in E as [Hl ->]. intros [= <- <-].
    split; [done|]. unfold put_bytes, NULL_LENGTH, MAX_FIELD_BYTES, in_u in *. assert (len v = n) as <- by (unfold len; lia).
    rewrite (proj2 (Z.ltb_lt _ _)) by lia. eexists. split; [done|]. by rewrite app_assoc.
  - intros [_ (bs & Hp & ->)]. destruct o as [v|]; cbn in Hp.
    + destruct (len v <? NULL_LENGTH) eqn:El; [|done]. injection Hp as <-. unfold NULL_LENGTH in *. pose proof (len_nonneg v).
      rewrite (proj2 (Hu (_ ++ _) (v ++ l') (len v))).
      2: { split; [unfold in_u; lia|]. eexists. split; [done|]. by rewrite app_assoc. }
      unfold NULL_LENGTH, MAX_FIELD_BYTES. rewrite (proj2 (Z.eqb_neq _ _)), (proj2 (Z.ltb_ge _ _)) by lia.
      unfold mbind, st_bind. by rewrite (proj2 (reads_fixed _ (Z.to_nat (len v)) (v ++ l') l' v)) by (split; [unfold len; lia|done]).
    + injection Hp as <-. rewrite (proj2 (Hu _ l' NULL_LENGTH)); [done|]. split; [done|]. by eexists.
Qed.
Lemma reads_string f : reads (read_string f) put_string text.
Proof.
  intros l l' o. unfold read_string, mbind, st_bind. split.
  - destruct (read_bytes f l) as [l1 [v|e| | |]] eqn:E; try done. apply reads_bytes in E as [_ Hb].
    destruct v as [s|]; [|intros [= <- <-]; by split]. destruct (from_utf8 s) eqn:Eu; [|done]. intros [= <- <-]. by split.
  - intros [Ht Hb]. rewrite (proj2 (reads_bytes f l l' o)) by done. destruct o as [s|]; [|done]. cbn in Ht. by rewrite Ht.
Qed.
Lemma field_bind {A B} (r : reader A) e P (k : A -> reader B) l l' b : reads r e P ->
  (r ≫= k) l = (l', Ok b) <-> exists a bs l1, P a /\ e a = Ok bs /\ l = bs ++ l1 /\ k a l1 = (l', Ok b).
Proof.
  intros Hr. unfold mbind, st_bind. split.
  - destruct (r l) as [l1 [a|x| | |]] eqn:E; try done. intros Hk. apply Hr in E as [Ha (bs & He & ->)]. by exists a, bs, l1.
  - intros (a & bs & l1 & Ha & He & -> & Hk). by rewrite (proj2 (Hr (bs ++ l1) l1 a)) by eauto.
Qed.
Lemma reads_property : reads read_property put_property (fun p => text p.1 /\ text p.2).
Proof.
  intros l l' [n v]. unfold read_property, put_property. rewrite (field_bind _ _ _ _ _ _ _ (reads_string _)). cbn [fst snd]. split.
  - intros (a & bs & l1 & Ha & He & -> & Hk). apply (field_bind _ _ _ _ _ _ _ (reads_string _)) in Hk as (b & bs' & l2 & Hb & He' & -> & [= <- <- <-]).
    split; [done|]. rewrite He, He'. cbn. eexists. split; [done|]. by rewrite app_assoc.
  - intros [[Hn Hv] (bs & Hp & ->)]. destruct (put_string n) as [bn| | | |] eqn:En; try done. destruct (put_string v) as [bv| | | |] eqn:Ev; try done.
    injection Hp as <-. exists n, bn, (bv ++ l'). split_and!; try done; [by rewrite app_assoc|].
    apply (field_bind _ _ _ _ _ _ _ (reads_string _)). by exists v, bv, l'.
Qed.
Lemma reads_repeat {A} (r : reader A) e P n : reads r e P ->
  forall l l' xs, repeatM n r l = (l', Ok xs) <-> length xs = n /\ Forall P xs /\ exists bs, put_all e xs = Ok bs /\ l = bs ++ l'.
Proof.
  intros Hr. induction n as [|n IH]; intros l l' xs; cbn [repeatM].
  - split; [intros [= <- <-]; split_and!; [done|constructor|by exists []]|].
    intros (Hl & _ & bs & Hp & ->). destruct xs; [|done]. injection Hp as <-. done.
  - rewrite (field_bind _ _ _ _ _ _ _ Hr). split.
    + intros (a & bs & l1 & Ha & He & -> & Hk). unfold mbind, st_bind in Hk. destruct (repeatM n r l1) as [l2 [ys|x| | |]] eqn:E; try done.
      injection Hk as <- <-. apply IH in E as (Hl & Hf & bs' & Hp & ->). split_and!; [cbn; lia|by constructor|].
      cbn [put_all]. rewrite He, Hp. cbn. eexists. split; [done|]. by rewrite app_assoc.
    + intros (Hl & Hf & bs & Hp & ->). destruct xs as [|a ys]; [done|]. apply Forall_cons in Hf as [Ha Hf]. cbn [put_all] in Hp.
      destruct (e a) as [b1| | | |] eqn:E1; try done. destruct (put_all e ys) as [b2| | | |] eqn:E2; try done. injection Hp as <-.
      exists a, b1, (b2 ++ l'). split_and!; try done; [by rewrite app_assoc|]. unfold mbind, st_bind.
      rewrite (proj2 (IH (b2 ++ l') l' ys)); [done|]. split_and!; [cbn in Hl; lia|done|by exists b2].
Qed.
Lemma reads_properties :
  reads read_properties (fun ps => if 255 <? len ps then Err (MbdbErr "Manifest.mbdb has too many properties in one record")
                                   else b ← put_all put_property ps; Ok (be_bytes 1 (len ps) ++ b))
    (Forall (fun p => text p.1 /\ text p.2)).
Proof.
  intros l l' ps. unfold read_properties. rewrite (field_bind _ _ _ _ _ _ _ (reads_byte _)). split.
  - intros (n & bs & l1 & Hn & [= <-] & -> & Hk). apply (reads_repeat _ _ _ _ reads_property) in Hk as (Hl & Hf & b & Hp & ->).
    split; [done|]. unfold in_u in Hn. assert (len ps = n) as -> by (unfold len; lia). rewrite (proj2 (Z.ltb_ge _ _)) by lia.
    rewrite Hp. cbn. eexists. split; [done|]. by rewrite app_assoc.
  - intros [Hf (bs & Hp & ->)]. destruct (255 <? len ps) eqn:El; [done|]. destruct (put_all _ ps) as [b| | | |] eqn:E; try done. injection Hp as <-.
    pose proof (len_nonneg ps). exists (len ps), (be_bytes 1 (len ps)), (b ++ l'). split_and!; [unfold in_u; lia|done|by rewrite app_assoc|].
    apply (reads_repeat _ _ _ _ reads_property). split_and!; [unfold len; lia|done|by exists b].
Qed.

(** Taking a reader of several fields apart, and putting it together. *)
Ltac read_field H :=
  apply (field_bind _ _ _ _ _ _ _ (reads_string _)) in H || apply (field_bind _ _ _ _ _ _ _ (reads_bytes _)) in H ||
  apply (field_bind _ _ _ _ _ _ _ (reads_u16 _)) in H || apply (field_bind _ _ _ _ _ _ _ (field_u32 _)) in H ||
  apply (field_bind _ _ _ _ _ _ _ (field_u64 _)) in H || apply (field_bind _ _ _ _ _ _ _ (reads_byte _)) in H ||
  apply (field_bind _ _ _ _ _ _ _ reads_properties) in H.
Ltac read_fields H := repeat (read_field H;
  let a := fresh "a" in let bs := fresh "bs" in let l := fresh "l" in let Ha := fresh "Ha" in let He := fresh "He" in
  destruct H as (a & bs & l & Ha & He & -> & H)).
Ltac give_bytes :=
  first [apply (field_bind _ _ _ _ _ _ _ (reads_string _))|apply (field_bind _ _ _ _ _ _ _ (reads_bytes _))];
  eexists _, _, _; split; [|split; [|split; [reflexivity|]]].
Ltac int_field n z :=
  first [apply (field_bind _ _ _ _ _ _ _ (reads_u16 _))|apply (field_bind _ _ _ _ _ _ _ (field_u32 _))
        |apply (field_bind _ _ _ _ _ _ _ (field_u64 _))|apply (field_bind _ _ _ _ _ _ _ (reads_byte _))];
  exists z, (be_bytes n z); eexists; split; [assumption|split; [reflexivity|split; [reflexivity|]]].

Lemma reads_record : reads read_record encode record_ok.
Proof.
  intros l l' r. split.
  - intros H. unfold read_record in H. read_fields H. injection H as <- <-.
    unfold record_ok, encode. cbn [domain relative_path link_target data_hash encryption_key mode unknown2 unknown3 user_id group_id mtime atime ctime size flags properties].
    split; [by split_and!|]. simplify_eq.
    repeat match goal with H : put_string _ = Ok _ |- _ => rewrite H; clear H | H : put_bytes _ = Ok _ |- _ => rewrite H; clear H end.
    cbn [mbind outcome_bind]. match goal with H : (if 255 <? ?n then _ else _) = Ok _ |- _ => destruct (255 <? n); [done|] end.
    match goal with H : (put_all ?p ?x ≫= _) = Ok _ |- _ => destruct (put_all p x) as [b| | | |]; try done; injection H as <- end.
    cbn [mbind outcome_bind]. eexists. split; [done|]. by rewrite <- !app_assoc.
  - intros [Hok (bs & He & ->)]. destruct r as [d rp lt dh ek mo u2 u3 ui gi mt at_ ct sz fl ps]. unfold encode in He.
    cbn [domain relative_path link_target data_hash encryption_key mode unknown2 unknown3 user_id group_id mtime atime ctime size flags properties] in He.
    unfold record_ok in Hok. cbn in Hok. destruct_and! Hok.
    destruct (put_string d) as [b1| | | |] eqn:E1; try done. destruct (put_string rp) as [b2| | | |] eqn:E2; try done.
    destruct (put_string lt) as [b3| | | |] eqn:E3; try done. destruct (put_bytes dh) as [b4| | | |] eqn:E4; try done.
    destruct (put_bytes ek) as [b5| | | |] eqn:E5; try done. cbn [mbind outcome_bind] in He. destruct (255 <? len ps) eqn:El; [done|].
    destruct (put_all put_property ps) as [b6| | | |] eqn:E6; try done. injection He as <-. unfold read_record. rewrite <- !app_assoc.
    do 5 (give_bytes; [|eassumption|]; [first [eassumption|exact I]|]).
    int_field 2%nat mo; int_field 4%nat u2; int_field 4%nat u3; int_field 4%nat ui; int_field 4%nat gi; int_field 4%nat mt;
      int_field 4%nat at_; int_field 4%nat ct; int_field 8%nat sz; int_field 1%nat fl.
    apply (field_bind _ _ _ _ _ _ _ reads_properties). exists ps, (be_bytes 1 (len ps) ++ b6), l'. rewrite <- app_assoc, El, E6. by split_and!.
Qed.

(** ** Files *)

Lemma encode_nonempty r bs : encode r = Ok bs -> (0 < length bs)%nat.
Proof.
  unfold encode. intros E. repeat (match goal with H : context [put_string ?x ≫= _] |- _ => destruct (put_string x) end; try done).
  repeat (match goal with H : context [put_bytes ?x ≫= _] |- _ => destruct (put_bytes x) end; try done). cbn [mbind outcome_bind] in E.
  destruct (255 <? _); [done|]. destruct (put_all put_property _) as [ps| | | |]; try done. cbn [mbind outcome_bind] in E.
  match type of E with Ok ?x = _ => assert (bs = x) as -> by congruence end. rewrite !length_app, !length_be_bytes. lia.
Qed.
Lemma put_all_cons {A} (e : A -> outcome MbdbError bytes) a l bs :
  put_all e (a :: l) = Ok bs <-> exists b1 b2, e a = Ok b1 /\ put_all e l = Ok b2 /\ bs = b1 ++ b2.
Proof.
  cbn [put_all]. split.
  - destruct (e a) as [b1| | | |]; try done. destruct (put_all e l) as [b2| | | |]; try done. intros [= <-]. by exists b1, b2.
  - by intros (b1 & b2 & -> & -> & ->).
Qed.
Lemma parse_loop_spec fuel rs l l' out : (length l <= fuel)%nat -> len rs <= MAX_RECORDS ->
  parse_loop fuel rs l = (l', Ok out) <->
  l' = [] /\ exists new, out = rs ++ new /\ Forall record_ok new /\ put_all encode new = Ok l /\ len out <= MAX_RECORDS.
Proof.
  revert rs l. assert (forall new, put_all encode new = Ok [] -> new = []) as Hnil.
  { intros [|r new]; [done|]. intros (b1 & b2 & H & _ & E)%put_all_cons. apply encode_nonempty in H. destruct b1; [simpl in H; lia|done]. }
  assert (forall rs, len rs <= MAX_RECORDS -> ([], Ok rs) = (l', Ok (E := MbdbError) out) <->
    l' = [] /\ exists new, out = rs ++ new /\ Forall record_ok new /\ put_all encode new = Ok [] /\ len out <= MAX_RECORDS) as Hend.
  { intros rs Hl. split.
    - intros [= <- <-]. split; [done|]. exists []. rewrite app_nil_r. by split_and!.
    - intros (-> & new & -> & _ & ->%Hnil & _). by rewrite app_nil_r. }
  induction fuel as [|fuel IH]; intros rs l Hf Hl; cbn [parse_loop]; unfold mbind, st_bind, st_get.
  { assert (l = []) as -> by (destruct l; [done|simpl in Hf; lia]). by apply Hend. }
  destruct l as [|b l0]; [by apply Hend|]. set (l := b :: l0) in *. assert (l <> []) as Hne by done. clearbody l.
  destruct (MAX_RECORDS <=? len rs) eqn:Em.
  { split; [done|]. intros (-> & new & -> & _ & Hp & Hb). exfalso. destruct new as [|r new]; [by injection Hp as <-|].
    rewrite len_app in Hb. unfold len in Hb at 2. cbn in Hb. lia. }
  assert (forall r, len (rs ++ [r]) <= MAX_RECORDS) as Hl' by (intros r; rewrite len_app; unfold len at 2; cbn; lia). split.
  - destruct (read_record l) as [l1 [r|e| | |]] eqn:E; try done. apply reads_record in E as [Hr (bs & He & ->)].
    pose proof (encode_nonempty _ _ He). rewrite length_app in Hf.
    intros (-> & new & -> & Hnew & Hp & Hb)%IH; [|lia|done]. split; [done|]. exists (r :: new). rewrite <- app_assoc in *.
    split_and!; [done|by constructor|by apply put_all_cons; exists bs, l1|done].
  - intros (-> & new & -> & Hnew & Hp & Hb). destruct new as [|r new]; [by injection Hp as <-|].
    apply Forall_cons in Hnew as [Hr Hnew]. apply put_all_cons in Hp as (bs & l1 & He & Hp & ->).
    rewrite (proj2 (reads_record (bs ++ l1) l1 r)) by eauto. pose proof (encode_nonempty _ _ He). rewrite length_app in Hf.
    apply IH; [lia|done|]. split; [done|]. exists new. rewrite <- app_assoc. by split_and!.
Qed.

Lemma serialize_all digest l out :
  serialize_records digest None l out = (b ← put_all encode l; Ok (out ++ b)).
Proof.
  revert out. induction l as [|r l IH]; intros out; cbn [serialize_records put_all]; [cbn; by rewrite app_nil_r|]. cbn [mbind outcome_bind].
  destruct (encode r) as [b| | | |]; try done. cbn [mbind outcome_bind]. rewrite IH.
  destruct (put_all encode l) as [b'| | | |]; try done. cbn. by rewrite <- app_assoc.
Qed.
Lemma parse_iff bs rs : parse bs = Ok (mkManifest rs) <->
  Forall record_ok rs /\ len rs <= MAX_RECORDS /\ exists b, put_all encode rs = Ok b /\ bs = MAGIC ++ b.
Proof.
  unfold parse. assert (forall l, snd (parse_loop (length l) [] l) = Ok rs <->
    Forall record_ok rs /\ put_all encode rs = Ok l /\ len rs <= MAX_RECORDS) as Hloop.
  { intros l. destruct (parse_loop (length l) [] l) as [l' o] eqn:E. cbn [snd]. split.
    - intros ->. apply parse_loop_spec in E as (-> & new & -> & ? & ? & ?); [done|done|done].
    - intros (Hf & Hp & Hb). assert (parse_loop (length l) [] l = ([], Ok rs)) as H.
      { apply parse_loop_spec; [done|done|]. split; [done|]. by exists rs. }
      rewrite E in H. by injection H as -> ->. }
  destruct (_ || _) eqn:Em.
  - split; [done|]. intros (_ & _ & b & _ & ->). exfalso. rewrite take_app_length, bool_decide_true in Em by done.
    rewrite length_app, (proj2 (Nat.ltb_ge _ _)) in Em by lia. done.
  - apply orb_false_iff in Em as [_ Em]. apply negb_false_iff, bool_decide_eq_true in Em.
    assert (bs = MAGIC ++ drop (length MAGIC) bs) as Hbs by (rewrite <- Em at 1; by rewrite take_drop).
    set (l := drop (length MAGIC) bs) in *. clearbody l. subst bs. clear Em. specialize (Hloop l). split.
    + destruct (snd (parse_loop (length l) [] l)) as [rs'| | | |]; try done. intros [= ->].
      destruct (proj1 Hloop eq_refl) as (? & ? & ?). split_and!; try done. by exists l.
    + intros (Hf & Hb & b & Hp & H). apply (app_inv_head MAGIC) in H as <-. by rewrite (proj2 Hloop).
Qed.

(** C40. Nothing is lost. A file is accepted exactly when it is what [serialize] writes for a manifest
    of well-formed records, and it is parsed to that manifest: so writing back what was read gives
    the same bytes, with the records' order and their uninterpreted fields, and reading what was
    written gives the same records. *)
Theorem mbdb_lossless (digest : bytes -> bytes) (bs : bytes) (m : MbdbManifest) :
  parse bs = Ok m <-> Forall record_ok (records m) /\ serialize digest m None = Ok bs.
Proof.
  destruct m as [rs]. rewrite parse_iff. unfold serialize. cbn [records]. rewrite serialize_all. split.
  - intros (Hf & Hb & b & Hp & ->). split; [done|]. rewrite (proj2 (Z.ltb_ge _ _)) by done. by rewrite Hp.
  - intros [Hf Hs]. destruct (MAX_RECORDS <? len rs) eqn:El; [done|]. apply Z.ltb_ge in El. split; [done|]. split; [done|].
    destruct (put_all encode rs) as [b| | | |]; try done. injection Hs as <-. by exists b.
Qed.

(** The records whose identifier is retained. *)
Definition retained (digest : bytes -> bytes) (retain : gset bytes) (r : MbdbRecord) : Prop :=
  match file_id digest r with Ok id => id ∈ retain | _ => False end.
#[export] Instance retained_dec digest retain r : Decision (retained digest retain r).
Proof. unfold retained. destruct (file_id digest r); apply _. Defined.

Lemma file_id_cases digest r :
  ((domain r <> None /\ relative_path r <> None) /\ exists id, file_id digest r = Ok id) \/
  (~ (domain r <> None /\ relative_path r <> None) /\ exists e, file_id digest r = Err e).
Proof.
  unfold file_id. destruct (domain r), (relative_path r); [left; split; [done|by eexists]|right..]; (split; [by intros []|by eexists]).
Qed.
Lemma serialize_filter digest retain l out bs :
  serialize_records digest (Some retain) l out = Ok bs <->
  Forall (fun r => domain r <> None /\ relative_path r <> None) l /\
  exists b, put_all encode (filter (retained digest retain) l) = Ok b /\ bs = out ++ b.
Proof.
  revert out. induction l as [|r l IH]; intros out; cbn [serialize_records].
  - split; [intros [= <-]; split; [done|]; exists []; by rewrite app_nil_r|]. intros (_ & b & [= <-] & ->). by rewrite app_nil_r.
  - rewrite Forall_cons, filter_cons. destruct (file_id_cases digest r) as [[Hr [id Eid]]|[Hr [e Ee]]].
    2: { rewrite Ee. split; [done|]. by intros [[? _] _]. }
    rewrite Eid. cbn [mbind outcome_bind]. assert (retained digest retain r <-> id ∈ retain) as Hk by (unfold retained; by rewrite Eid).
    destruct (decide (retained digest retain r)) as [Hin|Hin]; rewrite Hk in Hin.
    + rewrite bool_decide_true by done. split.
      * destruct (encode r) as [b1| | | |] eqn:E1; try done. cbn [mbind outcome_bind]. intros [Hl (b2 & Hp & ->)]%IH. split; [done|].
        exists (b1 ++ b2). split; [apply put_all_cons; by exists b1, b2|by rewrite app_assoc].
      * intros [[_ Hl] (b & (b1 & b2 & -> & Hp & ->)%put_all_cons & ->)]. cbn [mbind outcome_bind]. apply IH. split; [done|]. exists b2.
        by rewrite <- app_assoc.
    + rewrite bool_decide_false by done. rewrite IH. split; [by intros [? ?]|by intros [[_ ?] ?]].
Qed.

(** A filtered copy of a file that was read holds exactly the retained records, unchanged and in
    order, and can be read again; it is written exactly when every record has a domain and a path. *)
Theorem mbdb_filter_exact (digest : bytes -> bytes) (retain : gset bytes) (bs : bytes) (m : MbdbManifest) :
  parse bs = Ok m -> Forall (fun r => domain r <> None /\ relative_path r <> None) (records m) ->
  exists bs', serialize digest m (Some retain) = Ok bs' /\
    parse bs' = Ok (mkManifest (filter (retained digest retain) (records m))).
Proof.
  destruct m as [rs]. intros Hp Hid. apply parse_iff in Hp as (Hf & Hb & b & Hp & ->). cbn [records] in *.
  assert (exists b', put_all encode (filter (retained digest retain) rs) = Ok b') as [b' Hb'].
  { clear Hid Hf Hb. revert b Hp. induction rs as [|r rs IH]; intros b Hp; [by exists []|].
    apply put_all_cons in Hp as (b1 & b2 & H1 & H2 & ->). destruct (IH b2 H2) as [b' Hb']. rewrite filter_cons. case_decide; [|by exists b'].
    exists (b1 ++ b'). apply put_all_cons. by exists b1, b'. }
  exists (MAGIC ++ b'). split.
  - unfold serialize. cbn [records]. rewrite (proj2 (Z.ltb_ge _ _)) by done. apply serialize_filter. split; [done|]. by exists b'.
  - apply parse_iff. split_and!; [apply Forall_forall; intros r [_ Hr]%list_elem_of_filter; by eapply Forall_forall in Hf|unfold len in *; pose proof (length_filter (retained digest retain) rs); lia|by exists b'].
Qed.

(** *** A file of two records *)
Definition demo_record (path : string) : MbdbRecord :=
  mkRecord (Some (str "HomeDomain")) (Some (str path)) None None (Some [x01; x02]) 33188 0 7 501 501 1 2 3 4096 4 [(Some (str "k"), None)].
Definition demo_digest (bs : bytes) : bytes := drop (length bs - 1) bs.
Definition demo_file : bytes :=
  match serialize demo_digest (mkManifest [demo_record "a"; demo_record "b"]) None with Ok bs => bs | _ => [] end.
Lemma mbdb_filter_exact_witness :
  exists bs', serialize demo_digest (mkManifest [demo_record "a"; demo_record "b"]) (Some {[str "62"]}) = Ok bs' /\
    parse bs' = Ok (mkManifest [demo_record "b"]).
Proof.
  destruct (mbdb_filter_exact demo_digest {[str "62"]} demo_file (mkManifest [demo_record "a"; demo_record "b"])) as (bs' & Hs & Hp).
  - vm_compute. reflexivity.
  - by repeat constructor.
  - exists bs'. split; [exact Hs|]. rewrite Hp. vm_compute. reflexivity.
Defined.

(** A text field that is missing is told from an empty one. *)
Example missing_is_not_empty : put_string None <> put_string (Some []).
Proof. done. Qed.

End Mbdb.
