(* ===== verification/Fs.v ===== *)
(** The host's file system, as the program sees it through [std::path] and [std::fs] on Unix.

    [Path] has paths as the lists of their components. [Fs] has a store from locations (the
    names that lead from the root to an object, links resolved) to what is there, the
    resolution of a path by the kernel, which follows symbolic links, and the calls the backup
    code makes. A call may fail at any time: the list of verdicts in a host says which one does.
    Other processes do not change the store meanwhile, names are case sensitive, and hard links
    and permissions are not modelled. [opened] lists what was opened for reading. *)

From stdpp Require sorting.
From S2P Require Import Prelude Text.

(** ** Triples

    [hoare m Q R s]: from [s], [m] ends in [Q] with a value, in [R (Some e)] with the error [e],
    and in [R None] if it ends in another way. *)

Definition hoare {S E A} (m : st S E A) (Q : A -> S -> Prop) (R : option E -> S -> Prop) (s : S) : Prop :=
  match m s with (s', Ok a) => Q a s' | (s', Err e) => R (Some e) s' | (s', _) => R None s' end.

Section hoare_rules.
Context {S E : Type}.
Implicit Types (R : option E -> S -> Prop) (s : S).
Lemma hoare_bind {A B} (m : st S E A) (f : A -> st S E B) Q R s :
  hoare m (fun a => hoare (f a) Q R) R s -> hoare (m ≫= f) Q R s.
Proof. unfold hoare, mbind, st_bind. by destruct (m s) as [s' []]. Qed.
Lemma hoare_ret {A} (a : A) (Q : A -> S -> Prop) R s : Q a s -> hoare (mret a : st S E A) Q R s.
Proof. done. Qed.
Lemma hoare_fail {A} (e : E) (Q : A -> S -> Prop) R s : R (Some e) s -> hoare (st_fail e) Q R s.
Proof. done. Qed.
Lemma hoare_get (Q : S -> S -> Prop) R s : Q s s -> hoare (st_get : st S E S) Q R s.
Proof. done. Qed.
Lemma hoare_gets {A} (f : S -> A) Q R s : Q (f s) s -> hoare (st_gets f : st S E A) Q R s.
Proof. done. Qed.
Lemma hoare_mod (f : S -> S) (Q : unit -> S -> Prop) R s : Q tt (f s) -> hoare (st_mod f : st S E unit) Q R s.
Proof. done. Qed.
Lemma hoare_lift {A} (o : outcome E A) (Q : A -> S -> Prop) R s :
  (forall a, o = Ok a -> Q a s) -> (forall e, R e s) -> hoare (st_lift o) Q R s.
Proof. unfold hoare, st_lift. destruct o; auto. Qed.
Lemma hoare_mono {A} (m : st S E A) (Q Q' : A -> S -> Prop) R R' s :
  hoare m Q R s -> (forall a s', Q a s' -> Q' a s') -> (forall e s', R e s' -> R' e s') -> hoare m Q' R' s.
Proof. unfold hoare. destruct (m s) as [s' []]; auto. Qed.
Lemma hoare_and {A} (m : st S E A) (Q Q' : A -> S -> Prop) R R' s :
  hoare m Q R s -> hoare m Q' R' s -> hoare m (fun a s => Q a s /\ Q' a s) (fun e s => R e s /\ R' e s) s.
Proof. unfold hoare. destruct (m s) as [s' []]; auto. Qed.
End hoare_rules.

Ltac hoare_step :=
  lazymatch goal with
  | |- hoare (mbind _ _) _ _ _ => apply hoare_bind
  | |- hoare (mret _) _ _ _ => apply hoare_ret
  | |- hoare (st_fail _) _ _ _ => apply hoare_fail
  | |- hoare st_get _ _ _ => apply hoare_get
  | |- hoare (st_gets _) _ _ _ => apply hoare_gets
  | |- hoare (st_mod _) _ _ _ => apply hoare_mod
  | |- hoare (if ?c then _ else _) _ _ _ => let H := fresh "Hif" in destruct c eqn:H
  end.
Ltac hoare_steps := repeat (cbv beta; hoare_step).

(** [match m { Ok(a) => .., Err(e) => .. }] *)
Definition attempt {S E E' A} (m : st S E A) : st S E' (A + E) := fun s =>
  match m s with
  | (s, Ok a) => (s, Ok (inl a))
  | (s, Err e) => (s, Ok (inr e))
  | (s, Panic) => (s, Panic)
  | (s, Pending) => (s, Pending)
  | (s, OutOfFuel) => (s, OutOfFuel)
  end.
(** [map_err] and the conversion made by [?]. *)
Definition with_err {S E E' A} (f : E -> E') (m : st S E A) : st S E' A := fun s =>
  match m s with
  | (s, Ok a) => (s, Ok a)
  | (s, Err e) => (s, Err (f e))
  | (s, Panic) => (s, Panic)
  | (s, Pending) => (s, Pending)
  | (s, OutOfFuel) => (s, OutOfFuel)
  end.
(** The part of the state a method works on. *)
Definition zoom {S T E A} (get : S -> T) (set : T -> S -> S) (m : st T E A) : st S E A := fun s =>
  let '(t, o) := m (get s) in (set t s, o).

Lemma hoare_attempt {S E E' A} (m : st S E A) (Q : A + E -> S -> Prop) R s :
  hoare m (fun a => Q (inl a)) (fun e s => match e with Some e => Q (inr e) s | None => R None s end) s ->
  hoare (attempt (E' := E') m) Q R s.
Proof. unfold hoare, attempt. by destruct (m s) as [s' []]. Qed.
Lemma hoare_with_err {S E E' A} (f : E -> E') (m : st S E A) Q R s :
  hoare m Q (fun e => R (f <$> e)) s -> hoare (with_err f m) Q R s.
Proof. unfold hoare, with_err. by destruct (m s) as [s' []]. Qed.
Lemma hoare_zoom {S T E A} (get : S -> T) set (m : st T E A) Q R s :
  hoare m (fun a t => Q a (set t s)) (fun e t => R e (set t s)) (get s) -> hoare (zoom get set m) Q R s.
Proof. unfold hoare, zoom. by destruct (m (get s)) as [t []]. Qed.

(** ** Paths *)

Module Path.
Import Text.

Inductive Component := RootDir | CurDir | ParentDir | Normal (name : bytes).
#[global] Instance component_eq_dec : EqDecision Component.
Proof. solve_decision. Defined.
Definition PathBuf : Type := list Component.
#[global] Instance path_eq_dec : EqDecision PathBuf := list_eq_dec.

Definition slash : byte := x2f.
(** One piece between slashes: an empty one and [.] name nothing. *)
Definition component (piece : bytes) : PathBuf :=
  if bool_decide (piece = []) || bool_decide (piece = str ".") then []
  else if bool_decide (piece = str "..") then [ParentDir] else [Normal piece].
(** [Path::new(p).components()]; a leading [.] is kept in a relative path. *)
Definition components (p : bytes) : PathBuf :=
  match p with
  | [] => []
  | b :: rest =>
      if bool_decide (b = slash) then RootDir :: flat_map component (split_on slash rest) else
      match split_on slash p with
      | first :: rest => (if bool_decide (first = str ".") then [CurDir] else component first) ++ flat_map component rest
      | [] => []
      end
  end.
Definition is_absolute (p : PathBuf) : bool := match p with RootDir :: _ => true | _ => false end.
(** [join], [push] *)
Definition join (p q : PathBuf) : PathBuf :=
  match q with
  | RootDir :: _ => q
  | CurDir :: q' => match p with [] => q | _ => p ++ q' end
  | _ => p ++ q
  end.
Definition push (p : PathBuf) (c : Component) : PathBuf := join p [c].
Definition starts_with (p base : PathBuf) : bool := bool_decide (base `prefix_of` p).
Definition strip_prefix (p base : PathBuf) : option PathBuf :=
  if starts_with p base then Some (drop (length base) p) else None.
Definition parent (p : PathBuf) : option PathBuf :=
  match last p with
  | None | Some RootDir => None
  | Some _ => Some (removelast p)
  end.

(** The absolute path of a location. *)
Definition of_loc (l : list bytes) : PathBuf := RootDir :: map Normal l.

Lemma push_normal p n : push p (Normal n) = p ++ [Normal n].
Proof. done. Qed.
Lemma join_normal p l : join p (map Normal l) = p ++ map Normal l.
Proof. by destruct l. Qed.
Lemma join_of_loc r l : join (of_loc r) (map Normal l) = of_loc (r ++ l).
Proof. rewrite join_normal. unfold of_loc. by rewrite map_app. Qed.
Lemma of_loc_snoc l n : of_loc l ++ [Normal n] = of_loc (l ++ [n]).
Proof. unfold of_loc. by rewrite map_app. Qed.
#[global] Instance normal_inj : Inj (=) (=) Normal.
Proof. by intros ?? [= ->]. Qed.
Lemma of_loc_inj l l' : of_loc l = of_loc l' <-> l = l'.
Proof. split; [|by intros ->]. intros [= H]. by apply (list_fmap_eq_inj Normal normal_inj). Qed.
Lemma of_loc_prefix l l' : of_loc l `prefix_of` of_loc l' <-> l `prefix_of` l'.
Proof.
  split.
  - intros [k [= H]]. destruct (fmap_app_inv Normal l' (map Normal l) k) as (l1 & l2 & H1 & _ & ->); [done|].
    apply (list_fmap_eq_inj Normal normal_inj) in H1 as ->. by exists l2.
  - intros [k ->]. exists (map Normal k). unfold of_loc. by rewrite map_app.
Qed.
Lemma strip_of_loc r l : strip_prefix (of_loc (r ++ l)) (of_loc r) = Some (map Normal l).
Proof.
  unfold strip_prefix, starts_with. rewrite bool_decide_true by (apply of_loc_prefix; by exists l).
  unfold of_loc. rewrite map_app. cbn [length drop]. f_equal. by rewrite drop_app_length.
Qed.
End Path.

(** ** The store and the calls *)

Module Fs.
Import Path.

Abbreviation Loc := (list bytes).
(** [Special] is a device, a pipe or a socket. A link's target is not empty. *)
Inductive Node := File (content : bytes) | Directory | Symlink (target : PathBuf) | Special.
Abbreviation Store := (gmap (list bytes) Node).
(** The root is a directory and has no entry of its own. *)
Definition at_loc (s : Store) (l : Loc) : option Node := match l with [] => Some Directory | _ => s !! l end.
Definition is_dir (n : Node) : bool := match n with Directory => true | _ => false end.
Definition is_file (n : Node) : bool := match n with File _ => true | _ => false end.
Definition is_symlink (n : Node) : bool := match n with Symlink _ => true | _ => false end.

(** [std::io::Error]: its [raw_os_error] *)
Definition io_err : Type := option Z.
(** What a call may meet that the store does not show. *)
Inductive fault := EACCES | EIO | ENOSPC | EMFILE | ENAMETOOLONG.
Inductive verdict := Fine | Fault (f : fault) | Short (n : nat).

(** The platform: whether it is macOS, the size it reports for an object that is not a file, an
    object's modification time in nanoseconds from 1970, and the local offset from UTC, in
    seconds, at such a time. *)
Class Platform := {
  macos : bool;
  node_len : Node -> Z;
  modified_at : Store -> Loc -> Z;
  local_offset_at : Z -> Z;
}.

Record Host := mkHost { store : Store; cwd : Loc; verdicts : list verdict; opened : list Loc }.
Definition set_store v (h : Host) : Host := mkHost v (cwd h) (verdicts h) (opened h).
Definition set_verdicts v (h : Host) : Host := mkHost (store h) (cwd h) v (opened h).
Definition set_opened v (h : Host) : Host := mkHost (store h) (cwd h) (verdicts h) v.
Abbreviation fs := (st Host io_err).

Section calls.
Context {PF : Platform}.

Definition ENOENT : io_err := Some 2.
Definition ENXIO : io_err := Some 6.
Definition EBUSY : io_err := Some 16.
Definition EEXIST : io_err := Some 17.
Definition ENOTDIR : io_err := Some 20.
Definition EISDIR : io_err := Some 21.
Definition EINVAL : io_err := Some 22.
Definition ELOOP : io_err := Some (if macos then 62 else 40).
Definition ENOTEMPTY : io_err := Some (if macos then 66 else 39).
Definition fault_code (f : fault) : Z :=
  match f with EACCES => 13 | EIO => 5 | ENOSPC => 28 | EMFILE => 24 | ENAMETOOLONG => if macos then 63 else 36 end.
(** [error.kind() == ErrorKind::NotFound] *)
Definition not_found (e : io_err) : bool := bool_decide (e = ENOENT).
Definition already_exists (e : io_err) : bool := bool_decide (e = EEXIST).

(** The kernel's walk over a path from the directory [cur]. A link met on the way is followed, at
    most [links] times; one at the end is followed if [follow]. The last name may be missing. *)
Fixpoint walk (links : nat) (follow : bool) (s : Store) : Loc -> PathBuf -> outcome io_err Loc :=
  fix go cur todo :=
    match todo with
    | [] => Ok cur
    | RootDir :: todo => go [] todo
    | CurDir :: todo => go cur todo
    | ParentDir :: todo => go (removelast cur) todo
    | Normal n :: todo =>
        let l := cur ++ [n] in
        match s !! l with
        | None => match todo with [] => Ok l | _ => Err ENOENT end
        | Some Directory => go l todo
        | Some (Symlink target) =>
            if match todo with [] => negb follow | _ => false end then Ok l else
            match links with
            | O => Err ELOOP
            | S links => walk links follow s cur (target ++ todo)
            end
        | Some _ => match todo with [] => Ok l | _ => Err ENOTDIR end
        end
    end.
Definition MAXSYMLINKS : nat := 40.
Definition resolve (follow : bool) (h : Host) (p : PathBuf) : outcome io_err Loc :=
  match p with [] => Err ENOENT | _ => walk MAXSYMLINKS follow (store h) (cwd h) p end.

(** A call fails if the next verdict says so. *)
Definition syscall {A} (call : Host -> Host * outcome io_err A) : fs A := fun h =>
  match verdicts h with
  | Fault f :: r => (set_verdicts r h, Err (Some (fault_code f)))
  | _ => let '(h', o) := call h in (set_verdicts (tail (verdicts h)) h', o)
  end.
(** A call that changes the store at the location a path leads to. *)
Definition on_path {A} (follow : bool) (p : PathBuf) (call : Loc -> Store -> Store * outcome io_err A) : fs A :=
  syscall (fun h =>
    match resolve follow h p with
    | Ok l => let '(s, o) := call l (store h) in (set_store s h, o)
    | Err e => (h, Err e)
    | Panic => (h, Panic)
    | Pending => (h, Pending)
    | OutOfFuel => (h, OutOfFuel)
    end).

Record Metadata := mkMetadata { node : Node; length_of : Z; modified : Z }.
Definition symlink_metadata (p : PathBuf) : fs Metadata := on_path false p (fun l s =>
  match at_loc s l with
  | None => (s, Err ENOENT)
  | Some n => (s, Ok (mkMetadata n (match n with File c => len c | _ => node_len n end) (modified_at s l)))
  end).
Definition canonicalize (p : PathBuf) : fs PathBuf := on_path true p (fun l s =>
  match at_loc s l with None => (s, Err ENOENT) | Some _ => (s, Ok (of_loc l)) end).
Definition read_link (p : PathBuf) : fs PathBuf := on_path false p (fun l s =>
  match at_loc s l with
  | None => (s, Err ENOENT)
  | Some (Symlink target) => (s, Ok target)
  | Some _ => (s, Err EINVAL)
  end).
(** [Path::is_dir] *)
Definition path_is_dir (p : PathBuf) : fs bool := on_path true p (fun l s =>
  (s, Ok (match at_loc s l with Some Directory => true | _ => false end))).
Definition create_dir (p : PathBuf) : fs unit := on_path false p (fun l s =>
  match at_loc s l with None => (<[l := Directory]> s, Ok tt) | Some _ => (s, Err EEXIST) end).
(** The directory is made after its parents, unless it is there. *)
Fixpoint create_dir_all (fuel : nat) (p : PathBuf) : fs unit :=
  match p, fuel with
  | [], _ => mret tt
  | _, O => st_lift OutOfFuel
  | _, S fuel =>
      let or_is_dir (e : io_err) : fs unit := d ← attempt (path_is_dir p); match d with inl true => mret tt | _ => st_fail e end in
      r ← attempt (create_dir p);
      match r with
      | inl _ => mret tt
      | inr e =>
          if not_found e then
            match parent p with
            | None => st_fail None
            | Some q => create_dir_all fuel q ;; r ← attempt (create_dir p); match r with inl _ => mret tt | inr e => or_is_dir e end
            end
          else or_is_dir e
      end
  end.

(** What lies at a location or below it. *)
Definition below (s : Store) (l : Loc) : list Loc := filter (fun k => l `prefix_of` k) (map fst (map_to_list s)).
(** The names in a directory. *)
Definition children (s : Store) (l : Loc) : list bytes :=
  omap (fun k => if bool_decide (removelast k = l /\ k <> []) then last k else None) (map fst (map_to_list s)).
Definition read_dir (p : PathBuf) : fs (list bytes) := on_path true p (fun l s =>
  match at_loc s l with
  | Some Directory => (s, Ok (children s l))
  | Some _ => (s, Err ENOTDIR)
  | None => (s, Err ENOENT)
  end).
Definition remove_file (p : PathBuf) : fs unit := on_path false p (fun l s =>
  match at_loc s l with
  | None => (s, Err ENOENT)
  | Some Directory => (s, Err EISDIR)
  | Some _ => (delete l s, Ok tt)
  end).
Definition remove_empty (l : Loc) (s : Store) : Store * outcome io_err unit :=
  match l, at_loc s l with
  | [], _ => (s, Err EBUSY)
  | _, None => (s, Err ENOENT)
  | _, Some Directory => match children s l with [] => (delete l s, Ok tt) | _ => (s, Err ENOTEMPTY) end
  | _, Some _ => (s, Err ENOTDIR)
  end.
Definition remove_dir (p : PathBuf) : fs unit := on_path false p remove_empty.
(** [remove_dir_all] removes a directory's contents before it; each removal is a call of its own.
    A symbolic link is removed, not followed. *)
Definition longer (a b : Loc) : Prop := (length b <= length a)%nat.
#[global] Instance longer_dec : RelDecision longer.
Proof. intros a b. unfold longer. apply _. Defined.
Definition remove_at (l : Loc) : fs unit := syscall (fun h =>
  match at_loc (store h) l with
  | Some Directory => let '(s, o) := remove_empty l (store h) in (set_store s h, o)
  | Some _ => (set_store (delete l (store h)) h, Ok tt)
  | None => (h, Err ENOENT)
  end).
Fixpoint remove_each (ls : list Loc) : fs unit :=
  match ls with [] => mret tt | l :: ls => remove_at l ;; remove_each ls end.
Definition remove_dir_all (p : PathBuf) : fs unit :=
  l ← on_path false p (fun l s => (s, match at_loc s l with None => Err ENOENT | Some Directory | Some (Symlink _) => Ok l | Some _ => Err ENOTDIR end));
  h ← st_get;
  remove_each (sorting.merge_sort longer (below (store h) l)).
(** Everything at [src] or below it goes to the same place under [dst]; what was there is gone. *)
Definition rekey (src dst : Loc) (k : Loc) : Loc := dst ++ drop (length src) k.
Definition moved (src dst : Loc) (s : Store) : Store :=
  list_to_map ((fun kn => (rekey src dst kn.1, kn.2)) <$> map_to_list (filter (fun kn => src `prefix_of` kn.1) s)) ∪
  filter (fun kn => ~ src `prefix_of` kn.1 /\ ~ dst `prefix_of` kn.1) s.
Definition rename_at (src dst : Loc) (s : Store) : Store * outcome io_err unit :=
  match src, dst, at_loc s src with
  | [], _, _ | _, [], _ => (s, Err EBUSY)
  | _, _, None => (s, Err ENOENT)
  | _, _, Some n =>
      if bool_decide (src = dst) then (s, Ok tt) else
      if bool_decide (src `prefix_of` dst) then (s, Err EINVAL) else
      match at_loc s dst with
      | None => (moved src dst s, Ok tt)
      | Some Directory =>
          if negb (is_dir n) then (s, Err EISDIR) else
          match children s dst with [] => (moved src dst s, Ok tt) | _ => (s, Err ENOTEMPTY) end
      | Some _ => if is_dir n then (s, Err ENOTDIR) else (moved src dst s, Ok tt)
      end
  end.
Definition rename (src dst : PathBuf) : fs unit := syscall (fun h =>
  match resolve false h src, resolve false h dst with
  | Ok ls, Ok ld => let '(s, o) := rename_at ls ld (store h) in (set_store s h, o)
  | Err e, _ | _, Err e => (h, Err e)
  | _, _ => (h, OutOfFuel)
  end).

(** An open file: where it is and how far it was read. *)
Record Handle := mkHandle { loc : Loc; offset : nat }.
(** [OpenOptions::new().read(true)] with [O_NOFOLLOW]: a directory can be opened, not read. *)
Definition open_read (p : PathBuf) : fs Handle := syscall (fun h =>
  match resolve false h p with
  | Ok l =>
      match at_loc (store h) l with
      | None => (h, Err ENOENT)
      | Some (Symlink _) => (h, Err ELOOP)
      | Some Special => (h, Err ENXIO)
      | Some _ => (set_opened (opened h ++ [l]) h, Ok (mkHandle l 0))
      end
  | Err e => (h, Err e)
  | _ => (h, OutOfFuel)
  end).
(** [write(true).create(true).truncate(true)] with [O_NOFOLLOW]. *)
Definition open_write (p : PathBuf) : fs Handle := on_path false p (fun l s =>
  match at_loc s l with
  | None | Some (File _) => (<[l := File []]> s, Ok (mkHandle l 0))
  | Some (Symlink _) => (s, Err ELOOP)
  | Some Directory => (s, Err EISDIR)
  | Some Special => (s, Err ENXIO)
  end).
(** A read of at most [k] bytes, and of at least one unless the file ends. *)
Definition read (f : Handle) (k : nat) : fs (bytes * Handle) := fun h =>
  let k := match verdicts h with Short n :: _ => Nat.min k (S n) | _ => k end in
  syscall (fun h =>
    match at_loc (store h) (loc f) with
    | Some (File c) => let bs := take k (drop (offset f) c) in (h, Ok (bs, mkHandle (loc f) (offset f + length bs)))
    | _ => (h, Err EISDIR)
    end) h.
(** A write to a file opened for writing. It takes a part of the bytes, of at least one, and says
    how many; the next may fail, so that an error leaves a part of what was to be written. *)
Definition write (f : Handle) (bs : bytes) : fs nat := fun h =>
  let k := match verdicts h with Short n :: _ => Nat.min (length bs) (S n) | _ => length bs end in
  syscall (fun h =>
    match at_loc (store h) (loc f) with
    | Some (File c) => (set_store (<[loc f := File (c ++ take k bs)]> (store h)) h, Ok k)
    | _ => (h, Ok k)
    end) h.
(** [write_all]: as many writes as it takes. *)
Fixpoint write_loop (fuel : nat) (f : Handle) (bs : bytes) : fs unit :=
  match bs, fuel with
  | [], _ => mret tt
  | _, O => st_lift OutOfFuel
  | _, S fuel => n ← write f bs; write_loop fuel f (drop n bs)
  end.
Definition append (f : Handle) (bs : bytes) : fs unit := write_loop (length bs) f bs.
End calls.
(** ** Facts

    A store is well formed if what exists has a directory above it. A location is [linkless] if
    no link lies on the way to it, so that its path leads there and nowhere else. *)

Section facts.
Context {PF : Platform}.
Implicit Types (s : Store) (l : Loc) (h : Host).

Definition wf s : Prop := s !! ([] : Loc) = None /\ forall l n, is_Some (s !! (l ++ [n])) -> at_loc s l = Some Directory.
Definition linkless s l : Prop := forall k t, k `prefix_of` l -> at_loc s k <> Some (Symlink t).
(** The same, but for a link at the end when that is not followed. *)
Definition passable (follow : bool) s l : Prop := forall k t, k `prefix_of` l -> follow = true \/ k <> l -> at_loc s k <> Some (Symlink t).
Definition parents s l : Prop := forall k, k `prefix_of` l -> k <> l -> at_loc s k = Some Directory.
(** Outside [l] the stores agree. *)
Definition differs l s s' : Prop := forall k, ~ l `prefix_of` k -> s' !! k = s !! k.
(** The call has left everything but the verdicts. *)
Definition same h h' : Prop := store h' = store h /\ cwd h' = cwd h /\ opened h' = opened h.

Lemma at_snoc s l n : at_loc s (l ++ [n]) = s !! (l ++ [n]).
Proof. by destruct l. Qed.
Lemma at_nonempty s l : l <> [] -> at_loc s l = s !! l.
Proof. by destruct l. Qed.
Lemma prefix_snoc (k l : Loc) n : k `prefix_of` l ++ [n] -> k = l ++ [n] \/ k `prefix_of` l.
Proof.
  intros [m Hm]. destruct m as [|x m _] using rev_ind; [left; by rewrite app_nil_r in Hm|right].
  rewrite app_assoc in Hm. apply app_inj_tail in Hm as [-> _]. by exists m.
Qed.
Lemma snoc_not_nil (l : Loc) n : l ++ [n] <> [].
Proof. by destruct l. Qed.
Lemma snoc_neq (l : Loc) n : l <> l ++ [n].
Proof. intros H%(f_equal length). rewrite length_app in H. cbn in H. lia. Qed.
(** The same as a test, for concrete stores. *)
Definition wf_test s : bool :=
  forallb (fun kn => match kn.1 with [] => false | _ => match at_loc s (removelast kn.1) with Some Directory => true | _ => false end end) (map_to_list s).
Lemma wf_test_ok s : wf_test s = true -> wf s.
Proof.
  intros H. unfold wf_test in H. rewrite forallb_forall in H.
  assert (forall k x, s !! k = Some x -> k <> [] /\ at_loc s (removelast k) = Some Directory) as Hk.
  { intros k x Hx. apply elem_of_map_to_list, list_elem_of_In in Hx. specialize (H _ Hx). cbn [fst] in H. destruct k as [|n k]; [done|].
    split; [done|]. by destruct (at_loc s (removelast (n :: k))) as [[]|]. }
  split.
  - apply eq_None_not_Some. intros [x Hx]. by destruct (Hk _ _ Hx).
  - intros l n [x Hx]. destruct (Hk _ _ Hx) as [_ Hd]. by rewrite removelast_last in Hd.
Qed.
Lemma wf_parents s l : wf s -> is_Some (at_loc s l) -> parents s l.
Proof.
  intros [_ Hw] Hs k Hk Hn. revert Hs. induction l as [|n l IH] using rev_ind; intros Hs; [by apply prefix_nil_inv in Hk|].
  apply prefix_snoc in Hk as [->|Hk]; [done|]. rewrite at_snoc in Hs. apply Hw in Hs.
  destruct (decide (k = l)) as [->|Hn']; [done|]. apply IH; [done..|by eexists].
Qed.
Lemma wf_missing s l k : wf s -> k `prefix_of` l -> at_loc s k = None -> at_loc s l = None.
Proof.
  intros Hw Hk Hn. destruct (at_loc s l) eqn:E; [|done]. destruct (decide (k = l)) as [->|]; [congruence|].
  rewrite (wf_parents s l Hw) in Hn; [done|by eexists|done|done].
Qed.
Lemma parents_linkless s l : parents s l -> (forall t, at_loc s l <> Some (Symlink t)) -> linkless s l.
Proof. intros Hp Hl k t Hk. destruct (decide (k = l)) as [->|]; [done|]. by rewrite Hp. Qed.
Lemma linkless_prefix s l k : linkless s l -> k `prefix_of` l -> linkless s k.
Proof. intros Hl Hk k' t Hk'. apply Hl. by etrans. Qed.
Lemma linkless_snoc s l n : linkless s l -> (forall t, s !! (l ++ [n]) <> Some (Symlink t)) -> linkless s (l ++ [n]).
Proof. intros Hl Hn k t [->|Hk]%prefix_snoc; [by rewrite at_snoc|by apply Hl]. Qed.
Lemma linkless_below s l k : wf s -> linkless s l -> at_loc s l = None -> l `prefix_of` k -> linkless s k.
Proof.
  intros Hw Hl Hn Hk k' t Hk' Ht. destruct (prefix_weak_total k' l k Hk' Hk) as [H|H]; [by eapply Hl|].
  by rewrite (wf_missing s k' l Hw H Hn) in Ht.
Qed.
Lemma dir_linkless s l : wf s -> at_loc s l = Some Directory -> linkless s l.
Proof. intros Hw Hd. apply parents_linkless; [apply wf_parents; [done|by eexists]|]. intros t. by rewrite Hd. Qed.

(** *** Resolution *)

Lemma walk_linkless links follow s l cur : passable follow s (cur ++ l) ->
  match walk links follow s cur (map Normal l) with
  | Ok k => k = cur ++ l /\ forall k, k `prefix_of` cur ++ l -> cur `prefix_of` k -> k <> cur -> k <> cur ++ l -> at_loc s k = Some Directory
  | Err e => e = ENOENT /\ (exists k, k `prefix_of` cur ++ l /\ at_loc s k = None) \/ e = ENOTDIR
  | _ => False
  end.
Proof.
  revert cur. induction l as [|n l IH]; intros cur Hl.
  - destruct links; cbn; rewrite app_nil_r; (split; [done|]); intros k H1 H2 H3; destruct H3; by apply (anti_symm prefix).
  - assert (walk links follow s cur (map Normal (n :: l)) =
      match s !! (cur ++ [n]) with
      | None => match l with [] => Ok (cur ++ [n]) | _ => Err ENOENT end
      | Some Directory => walk links follow s (cur ++ [n]) (map Normal l)
      | Some (Symlink target) =>
          if match l with [] => negb follow | _ => false end then Ok (cur ++ [n]) else
          match links with O => Err ELOOP | S links => walk links follow s cur (target ++ map Normal l) end
      | Some _ => match l with [] => Ok (cur ++ [n]) | _ => Err ENOTDIR end
      end) as ->.
    { by destruct links, l. }
    assert (cur ++ n :: l = (cur ++ [n]) ++ l) as E by (by rewrite <- app_assoc).
    assert (cur ++ [n] `prefix_of` cur ++ n :: l) as Hpre by (rewrite E; by exists l).
    destruct (s !! (cur ++ [n])) as [[c| |t|]|] eqn:Es.
    + destruct l; [|by right]. split; [done|]. intros k H1 H2 H3 H4. destruct (prefix_snoc _ _ _ H1) as [|H]; [done|]. destruct H3. by apply (anti_symm prefix).
    + rewrite E in Hl |- *. specialize (IH (cur ++ [n]) Hl). destruct (walk links follow s (cur ++ [n]) (map Normal l)) as [k|e| | |]; try done.
      destruct IH as [-> IH]. split; [done|]. intros k H1 H2 H3 H4. destruct (decide (k = cur ++ [n])) as [->|]; [by rewrite at_snoc|].
      apply IH; try done. destruct H2 as [[|m j] ->]; [by rewrite app_nil_r in H3|]. destruct H1 as [k' H1]. rewrite <- !app_assoc in H1. apply app_inv_head in H1.
      injection H1 as <- _. exists j. by rewrite <- app_assoc.
    + destruct follow.
      { exfalso. apply (Hl (cur ++ [n]) t Hpre); [by left|by rewrite at_snoc]. }
      destruct l as [|n' l].
      * split; [done|]. intros k H1 H2 H3 H4. destruct (prefix_snoc _ _ _ H1) as [|H]; [done|]. destruct H3. by apply (anti_symm prefix).
      * exfalso. apply (Hl (cur ++ [n]) t Hpre); [right|by rewrite at_snoc]. intros H. apply (f_equal length) in H. rewrite !length_app in H. cbn in H. lia.
    + destruct l; [|by right]. split; [done|]. intros k H1 H2 H3 H4. destruct (prefix_snoc _ _ _ H1) as [|H]; [done|]. destruct H3. by apply (anti_symm prefix).
    + destruct l.
      * split; [done|]. intros k H1 H2 H3 H4. destruct (prefix_snoc _ _ _ H1) as [|H]; [done|]. destruct H3. by apply (anti_symm prefix).
      * left. split; [done|]. exists (cur ++ [n]). split; [done|by rewrite at_snoc].
Qed.
Lemma linkless_passable follow s l : linkless s l -> passable follow s l.
Proof. intros Hl k t Hk _. by apply Hl. Qed.
Lemma resolve_passable follow h l : wf (store h) -> passable follow (store h) l ->
  match resolve follow h (of_loc l) with
  | Ok k => k = l /\ parents (store h) l
  | Err e => e = ENOENT /\ at_loc (store h) l = None \/ e = ENOTDIR
  | _ => False
  end.
Proof.
  intros Hw Hl. unfold resolve, of_loc. pose proof (walk_linkless MAXSYMLINKS follow (store h) l [] Hl) as H.
  change (walk MAXSYMLINKS follow (store h) (cwd h) (RootDir :: map Normal l)) with (walk MAXSYMLINKS follow (store h) [] (map Normal l)).
  destruct (walk _ _ _ _ _) as [k|e| | |]; try done.
  - destruct H as [-> H]. split; [done|]. intros k Hk Hn. destruct k as [|n k]; [done|]. apply H; try done. apply prefix_nil.
  - destruct H as [[-> (k & Hk & Hn)]| ->]; [left|by right]. split; [done|]. by apply (wf_missing _ _ k).
Qed.
Lemma resolve_linkless follow h l : wf (store h) -> linkless (store h) l ->
  match resolve follow h (of_loc l) with
  | Ok k => k = l /\ parents (store h) l
  | Err e => e = ENOENT /\ at_loc (store h) l = None \/ e = ENOTDIR
  | _ => False
  end.
Proof. intros Hw Hl. by apply resolve_passable, linkless_passable. Qed.
Lemma resolve_parents follow h l : wf (store h) -> parents (store h) l -> (forall t, at_loc (store h) l <> Some (Symlink t)) ->
  resolve follow h (of_loc l) = Ok l.
Proof.
  intros Hw Hp Hl. unfold resolve, of_loc.
  change (walk MAXSYMLINKS follow (store h) (cwd h) (RootDir :: map Normal l)) with (walk MAXSYMLINKS follow (store h) [] (map Normal l)).
  enough (forall l' cur, cur ++ l' = l -> walk MAXSYMLINKS follow (store h) cur (map Normal l') = Ok l) as H by by apply H.
  intros l'. induction l' as [|n l' IH]; intros cur <-.
  - rewrite app_nil_r. by destruct MAXSYMLINKS.
  - assert (cur ++ n :: l' = (cur ++ [n]) ++ l') as E by (by rewrite <- app_assoc).
    destruct l' as [|n' l'].
    + cbn. destruct (store h !! (cur ++ [n])) as [[]|] eqn:Es; try done. exfalso. by apply (Hl target); rewrite at_snoc.
    + assert (store h !! (cur ++ [n]) = Some Directory) as Es.
      { rewrite <- at_snoc. apply Hp; [rewrite E; by exists (n' :: l')|]. rewrite E. intros H. apply (f_equal length) in H. rewrite !length_app in H. cbn in H. lia. }
      specialize (IH (cur ++ [n]) (eq_sym E)). rewrite <- IH. cbn [map]. unfold MAXSYMLINKS. cbn [walk]. by rewrite Es.
Qed.
(** A path that is followed to its end leads to a location without links. *)
Lemma walk_followed links s p : wf s -> forall cur k, at_loc s cur = Some Directory -> walk links true s cur p = Ok k -> linkless s k.
Proof.
  intros Hw. revert p. induction links as [|links IHl]; intros p; (induction p as [|[| | |n] p IH]; intros cur k Hd;
    [cbn; intros [= <-]; by apply dir_linkless|by apply IH|by apply IH| |]).
  1, 3: apply IH; destruct cur as [|n cur _] using rev_ind; [done|]; rewrite removelast_last; apply (wf_parents s (cur ++ [n])); [done|by eexists|by eexists|apply snoc_neq].
  all: cbn; destruct (s !! (cur ++ [n])) as [[c| |t|]|] eqn:Es; try done.
  all: try (destruct p; [intros [= <-]; apply linkless_snoc; [by apply dir_linkless|intros t; by rewrite Es]|done]).
  all: try (intros Hk; eapply IH; [|exact Hk]; by rewrite at_snoc).
  all: try (destruct p; cbn; try done; intros Hk; by eapply IHl).
Qed.
(** Only the last name of a path may be missing: there is a directory to put it in. *)
Lemma walk_missing links follow s p : wf s -> forall cur k, at_loc s cur = Some Directory -> walk links follow s cur p = Ok k ->
  at_loc s k = None -> parents s k.
Proof.
  intros Hw. revert p. induction links as [|links IHl]; intros p; (induction p as [|[| | |n] p IH]; intros cur k Hd;
    [cbn; intros [= <-]; by rewrite Hd|by apply IH|by apply IH| |]).
  1, 3: apply IH; destruct cur as [|n cur _] using rev_ind; [done|]; rewrite removelast_last; apply (wf_parents s (cur ++ [n])); [done|by eexists|by eexists|apply snoc_neq].
  all: cbn; destruct (s !! (cur ++ [n])) as [[c| |x|]|] eqn:Es; try done.
  all: try (destruct p; [intros [= <-]; rewrite at_snoc, Es; done|done]).
  all: try (intros Hk; eapply IH; [|exact Hk]; by rewrite at_snoc).
  all: try (destruct p, follow; cbn; try done; intros Hk; solve [by eapply IHl|injection Hk as <-; by rewrite at_snoc, Es]).
  all: destruct p; [intros [= <-] _ j [->|Hj]%prefix_snoc Hn; [done|]|done].
  all: destruct (decide (j = cur)) as [->|]; [done|]; apply (wf_parents s cur); [done|by eexists|done|done].
Qed.
Lemma resolve_followed h p k : wf (store h) -> at_loc (store h) (cwd h) = Some Directory -> resolve true h p = Ok k -> linkless (store h) k.
Proof. unfold resolve. destruct p; [done|]. intros Hw Hc. by apply walk_followed. Qed.
End facts.
Section changes.
Implicit Types (s : Store) (l : Loc).

Lemma differs_refl l s : differs l s s.
Proof. by intros k. Qed.
Lemma differs_trans l s1 s2 s3 : differs l s1 s2 -> differs l s2 s3 -> differs l s1 s3.
Proof. intros H1 H2 k Hk. by rewrite H2, H1. Qed.
Lemma differs_prefix l l' s s' : l `prefix_of` l' -> differs l' s s' -> differs l s s'.
Proof. intros Hl Hd k Hk. apply Hd. intros Hk'. apply Hk. by etrans. Qed.
Lemma differs_insert l s x : differs l s (<[l := x]> s).
Proof. intros k Hk. apply lookup_insert_ne. by intros ->. Qed.
Lemma differs_delete l s : differs l s (delete l s).
Proof. intros k Hk. apply lookup_delete_ne. by intros ->. Qed.
Lemma differs_at l s s' k : differs l s s' -> ~ l `prefix_of` k -> at_loc s' k = at_loc s k.
Proof. intros Hd Hk. destruct k; [done|]. by apply Hd. Qed.

(** Only directories have been added. *)
Definition grown s s' : Prop := forall k, s' !! k = s !! k \/ (s !! k = None /\ s' !! k = Some Directory).
Lemma grown_refl s : grown s s.
Proof. intros k. by left. Qed.
Lemma grown_trans s1 s2 s3 : grown s1 s2 -> grown s2 s3 -> grown s1 s3.
Proof. intros H1 H2 k. destruct (H1 k) as [E1|[E1 E1']], (H2 k) as [E2|[E2 E2']]; rewrite ?E1, ?E1' in *; auto; congruence. Qed.
Lemma grown_insert s l : s !! l = None -> grown s (<[l := Directory]> s).
Proof. intros Hl k. destruct (decide (l = k)) as [<-|]; [right; by rewrite lookup_insert_eq|left; by apply lookup_insert_ne]. Qed.
Lemma grown_linkless s s' l : grown s s' -> linkless s l -> linkless s' l.
Proof.
  intros Hg Hl k t Hk. destruct k as [|n k]; [done|]. cbn [at_loc]. destruct (Hg (n :: k)) as [->|[_ ->]]; [|done]. by apply (Hl (n :: k)).
Qed.

(** Only directories on the way to [l] have been added. *)
Definition made l s s' : Prop := forall k, s' !! k = s !! k \/ (s !! k = None /\ s' !! k = Some Directory /\ k `prefix_of` l).
Lemma made_grown l s s' : made l s s' -> grown s s'.
Proof. intros H k. destruct (H k) as [|(? & ? & _)]; [by left|by right]. Qed.
Lemma made_refl l s : made l s s.
Proof. intros k. by left. Qed.
Lemma made_prefix l l' s s' : l `prefix_of` l' -> made l s s' -> made l' s s'.
Proof. intros Hl H k. destruct (H k) as [|(? & ? & ?)]; [by left|right]. split_and!; try done. by etrans. Qed.
Lemma made_trans l s1 s2 s3 : made l s1 s2 -> made l s2 s3 -> made l s1 s3.
Proof.
  intros H1 H2 k. destruct (H1 k) as [E1|(E1 & E1' & P1)], (H2 k) as [E2|(E2 & E2' & P2)]; rewrite ?E1, ?E1' in *; try (by left); try (by right); congruence.
Qed.
Lemma made_insert s l : s !! l = None -> made l s (<[l := Directory]> s).
Proof. intros Hl k. destruct (decide (l = k)) as [<-|]; [right; by rewrite lookup_insert_eq|left; by apply lookup_insert_ne]. Qed.

Lemma children_spec s l n : n ∈ children s l <-> is_Some (s !! (l ++ [n])).
Proof.
  unfold children. rewrite list_elem_of_omap. split.
  - intros (k & ((k', x) & -> & Hx%elem_of_map_to_list)%list_elem_of_fmap & Hk). cbn [fst] in *.
    destruct (bool_decide _) eqn:E; [|done]. apply bool_decide_eq_true in E as [<- Hn].
    destruct k' as [|n' k' _] using rev_ind; [done|]. rewrite last_snoc in Hk. injection Hk as ->. rewrite removelast_last. by eexists.
  - intros [x Hx]. exists (l ++ [n]). split.
    + apply list_elem_of_fmap. exists (l ++ [n], x). split; [done|]. by apply elem_of_map_to_list.
    + rewrite bool_decide_true; [by rewrite last_snoc|]. split; [apply removelast_last|apply snoc_not_nil].
Qed.
Lemma children_nil s l : children s l = [] <-> forall n, s !! (l ++ [n]) = None.
Proof.
  split.
  - intros H n. apply eq_None_not_Some. intros Hs%children_spec. rewrite H in Hs. by apply elem_of_nil in Hs.
  - intros H. apply elem_of_nil_inv. intros n [x Hx]%children_spec. by rewrite H in Hx.
Qed.

Lemma wf_insert s l x : wf s -> l <> [] -> parents s l -> x = Directory \/ at_loc s l <> Some Directory -> wf (<[l := x]> s).
Proof.
  intros [H0 Hw] Hn Hp Hx. split; [by rewrite lookup_insert_ne|]. intros k n Hs.
  assert (at_loc s k = Some Directory) as Hk.
  { destruct (decide (l = k ++ [n])) as [->|Hne].
    - apply Hp; [by eexists|apply snoc_neq].
    - rewrite lookup_insert_ne in Hs by done. by apply (Hw k n). }
  destruct k as [|a k]; [done|]. cbn [at_loc] in *. destruct (decide (l = a :: k)) as [->|Hne].
  - rewrite lookup_insert_eq. destruct Hx as [->|Hx]; [done|]. by destruct Hx.
  - by rewrite lookup_insert_ne.
Qed.
Lemma wf_delete s l : wf s -> (forall n, s !! (l ++ [n]) = None) -> wf (delete l s).
Proof.
  intros [H0 Hw] Hn. split; [by apply lookup_delete_None; right|]. intros k n Hs.
  destruct (decide (l = k ++ [n])) as [->|Hne]; [rewrite lookup_delete_eq in Hs; by destruct Hs|].
  rewrite lookup_delete_ne in Hs by done. pose proof (Hw k n Hs) as Hk. destruct k as [|a k]; [done|]. cbn [at_loc] in *.
  rewrite lookup_delete_ne; [done|]. intros ->. rewrite Hn in Hs. by destruct Hs.
Qed.
Lemma wf_leaf s l x n : wf s -> l <> [] -> s !! l = Some x -> x <> Directory -> s !! (l ++ [n]) = None.
Proof.
  intros [_ Hw] Hl Hx Hd. apply eq_None_not_Some. intros Hs%Hw. rewrite at_nonempty in Hs by done. congruence.
Qed.

Lemma rekey_app src dst k : rekey src dst (src ++ k) = dst ++ k.
Proof. unfold rekey. by rewrite drop_app_length. Qed.
Lemma lookup_moved src dst s k : ~ src `prefix_of` dst -> ~ dst `prefix_of` src ->
  moved src dst s !! k =
    if decide (dst `prefix_of` k) then s !! (src ++ drop (length dst) k) else if decide (src `prefix_of` k) then None else s !! k.
Proof.
  intros Hsd Hds. unfold moved. set (m := list_to_map _).
  assert (forall k x, m !! k = Some x <-> exists j, k = dst ++ j /\ s !! (src ++ j) = Some x) as Hm.
  { intros k' x. unfold m. rewrite <- elem_of_list_to_map.
    - rewrite list_elem_of_fmap. split.
      + intros ([k0 x0] & [= -> ->] & [Hx [j Hj]]%elem_of_map_to_list%map_lookup_filter_Some). cbn [fst] in *. subst k0. exists j.
        by rewrite rekey_app.
      + intros (j & -> & Hx). exists (src ++ j, x). cbn [fst snd]. rewrite rekey_app. split; [done|].
        apply elem_of_map_to_list, map_lookup_filter_Some. split; [done|]. by exists j.
    - rewrite <- list_fmap_compose. apply NoDup_fmap_2_strong; [|apply NoDup_map_to_list].
      intros [k1 x1] [k2 x2] [H1 [j1 P1]]%elem_of_map_to_list%map_lookup_filter_Some [H2 [j2 P2]]%elem_of_map_to_list%map_lookup_filter_Some.
      cbn. cbn [fst] in P1, P2. subst k1 k2. rewrite !rekey_app. intros ->%app_inv_head. congruence. }
  destruct (decide (dst `prefix_of` k)) as [[j ->]|Hd].
  - rewrite drop_app_length. apply option_eq. intros x. rewrite lookup_union_Some_raw, Hm. split.
    + intros [(j' & ->%app_inv_head & Hx)|[_ [_ [_ []]]%map_lookup_filter_Some]]; [done|]. by exists j.
    + intros Hx. left. by exists j.
  - rewrite lookup_union_r.
    + destruct (decide (src `prefix_of` k)) as [Hs|Hs].
      * apply map_lookup_filter_None. right. intros x Hx []. done.
      * apply option_eq. intros x. rewrite map_lookup_filter_Some. cbn. by split; [intros [? _]|].
    + apply eq_None_not_Some. intros [x (j & -> & _)%Hm]. apply Hd. by exists j.
Qed.
Lemma differs_moved r src dst s : ~ src `prefix_of` dst -> ~ dst `prefix_of` src -> r `prefix_of` src -> r `prefix_of` dst ->
  differs r s (moved src dst s).
Proof.
  intros H1 H2 Hs Hd k Hk. rewrite lookup_moved by done. rewrite !decide_False; [done|..]; intros H; apply Hk; (etrans; [|exact H]); done.
Qed.
Lemma wf_moved src dst s : wf s -> src <> [] -> dst <> [] -> ~ src `prefix_of` dst -> ~ dst `prefix_of` src -> parents s dst ->
  wf (moved src dst s).
Proof.
  intros [H0 Hw] Hsn Hdn H1 H2 Hp. split.
  - rewrite lookup_moved by done. rewrite !decide_False; [done|..]; by intros ?%prefix_nil_inv.
  - intros k n. rewrite lookup_moved by done. intros Hs.
    assert (forall l, l <> [] -> at_loc s l = Some Directory -> ~ src `prefix_of` l -> ~ dst `prefix_of` l -> at_loc (moved src dst s) l = Some Directory) as Hkeep.
    { intros l Hl Hd Hsl Hdl. rewrite at_nonempty, lookup_moved by done. rewrite !decide_False by done. by rewrite <- at_nonempty. }
    destruct (decide (k = [])) as [->|Hk]; [done|]. case_decide as Hd.
    + destruct Hd as [j Hj]. destruct j as [|b j _] using rev_ind.
      * rewrite app_nil_r in Hj. apply Hkeep; [done|..].
        -- apply Hp; [rewrite <- Hj; by exists [n]|rewrite <- Hj; apply snoc_neq].
        -- intros H. apply H1. etrans; [exact H|]. rewrite <- Hj. by exists [n].
        -- intros [j H]. rewrite H in Hj. rewrite <- app_assoc in Hj. apply (f_equal length) in Hj. rewrite !length_app in Hj. cbn in Hj. lia.
      * rewrite app_assoc in Hj. apply app_inj_tail in Hj as [-> ->]. rewrite <- app_assoc, drop_app_length, app_assoc in Hs. apply Hw in Hs.
        rewrite at_nonempty, lookup_moved by done. rewrite decide_True by (by exists j). rewrite drop_app_length.
        rewrite <- at_nonempty; [done|]. by destruct src.
    + case_decide as Hsk; [by destruct Hs|]. apply Hw in Hs. apply Hkeep; [done..| |].
      * intros H. apply Hsk. etrans; [exact H|]. by exists [n].
      * intros H. apply Hd. etrans; [exact H|]. by exists [n].
Qed.
End changes.
(** *** What the calls do *)

Section specs.
Context {PF : Platform}.
Implicit Types (l : Loc) (h : Host).

Lemma same_refl h : same h h.
Proof. by repeat split. Qed.
Lemma same_trans h1 h2 h3 : same h1 h2 -> same h2 h3 -> same h1 h3.
Proof. intros (? & ? & ?) (? & ? & ?). split_and!; congruence. Qed.
Lemma same_verdicts v h : same h (set_verdicts v h).
Proof. by repeat split. Qed.
#[local] Hint Resolve same_verdicts same_refl : core.

Lemma hoare_on_path {A} (follow : bool) (p : PathBuf) (call : Loc -> Store -> Store * outcome io_err A) (Q : A -> Host -> Prop) (R : option io_err -> Host -> Prop) h :
  (forall f h', same h h' -> R (Some (Some (fault_code f))) h') ->
  (forall v : list verdict, match resolve follow h p with
   | Ok l => let '(s, o) := call l (store h) in
       match o with
       | Ok a => Q a (set_verdicts v (set_store s h))
       | Err e => R (Some e) (set_verdicts v (set_store s h))
       | _ => R None (set_verdicts v (set_store s h))
       end
   | Err e => R (Some e) (set_verdicts v h)
   | _ => R None (set_verdicts v h)
   end) -> hoare (on_path follow p call) Q R h.
Proof.
  intros HF H. unfold hoare, on_path, syscall.
  destruct (match verdicts h with Fault _ :: _ => true | _ => false end) eqn:E.
  { destruct (verdicts h) as [|[] vs]; try done. apply HF, same_verdicts. }
  specialize (H (tail (verdicts h))). destruct (verdicts h) as [|[] vs]; try done;
    destruct (resolve follow h p) as [k|e'| | |]; try done; destruct (call k (store h)) as [s []]; done.
Qed.
Lemma hoare_syscall {A} (call : Host -> Host * outcome io_err A) (Q : A -> Host -> Prop) (R : option io_err -> Host -> Prop) h :
  (forall f h', same h h' -> R (Some (Some (fault_code f))) h') ->
  (forall v : list verdict, let '(h', o) := call h in
     match o with Ok a => Q a (set_verdicts v h') | Err e => R (Some e) (set_verdicts v h') | _ => R None (set_verdicts v h') end) ->
  hoare (syscall call) Q R h.
Proof.
  intros HF H. unfold hoare, syscall.
  destruct (match verdicts h with Fault _ :: _ => true | _ => false end) eqn:E.
  { destruct (verdicts h) as [|[] vs]; try done. apply HF, same_verdicts. }
  specialize (H (tail (verdicts h))). destruct (verdicts h) as [|[] vs]; try done; by destruct (call h) as [h' []].
Qed.

(** Calls that only look. *)
Definition quiet {E A} (m : st Host E A) : Prop := forall h, hoare m (fun _ => same h) (fun _ => same h) h.
Lemma quiet_on_path {A} (follow : bool) (p : PathBuf) (call : Loc -> Store -> Store * outcome io_err A) :
  (forall l s, (call l s).1 = s) -> quiet (on_path follow p call).
Proof.
  intros Hc h. apply hoare_on_path; [done|]. intros v. destruct (resolve follow h p) as [l|e| | |]; try done.
  specialize (Hc l (store h)). destruct (call l (store h)) as [s o]. cbn in Hc. subst s. assert (set_store (store h) h = h) as -> by by destruct h.
  by destruct o.
Qed.
Lemma symlink_metadata_quiet p : quiet (symlink_metadata p).
Proof. apply quiet_on_path. intros l s. by destruct (at_loc s l). Qed.
Lemma canonicalize_quiet p : quiet (canonicalize p).
Proof. apply quiet_on_path. intros l s. by destruct (at_loc s l). Qed.
Lemma read_link_quiet p : quiet (read_link p).
Proof. apply quiet_on_path. intros l s. by destruct (at_loc s l) as [[]|]. Qed.
Lemma path_is_dir_quiet p : quiet (path_is_dir p).
Proof. by apply quiet_on_path. Qed.
Lemma read_dir_quiet p : quiet (read_dir p).
Proof. apply quiet_on_path. intros l s. by destruct (at_loc s l) as [[]|]. Qed.
Lemma read_quiet f k : quiet (read f k).
Proof.
  intros h. unfold read. set (k' := match verdicts h with Short n :: _ => Nat.min k (S n) | _ => k end). clearbody k'.
  apply hoare_syscall; [done|]. intros v. by destruct (at_loc (store h) (loc f)) as [[]|].
Qed.

Lemma set_store_same h : set_store (store h) h = h.
Proof. by destruct h. Qed.
Lemma fault_not_found f : Some (fault_code f) <> ENOENT.
Proof. destruct f; cbn; try done. by destruct macos. Qed.

(** The metadata of a location that is reached without links. *)
Lemma symlink_metadata_spec l h : wf (store h) -> passable false (store h) l ->
  hoare (symlink_metadata (of_loc l))
    (fun m h' => same h h' /\ at_loc (store h) l = Some (node m))
    (fun e h' => same h h' /\ (e = Some ENOENT -> at_loc (store h) l = None)) h.
Proof.
  intros Hw Hl. apply hoare_on_path.
  - intros f h' Hs. split; [done|]. intros H%(inj Some). by apply fault_not_found in H.
  - intros v. pose proof (resolve_passable false h l Hw Hl) as H. destruct (resolve false h (of_loc l)) as [k|e| | |]; try done.
    + destruct H as [-> _]. destruct (at_loc (store h) l) eqn:E; rewrite set_store_same; done.
    + split; [done|]. intros [= ->]. destruct H as [[_ H]|H]; [done|discriminate].
Qed.
Lemma canonicalize_spec l h : wf (store h) -> linkless (store h) l ->
  hoare (canonicalize (of_loc l)) (fun p h' => same h h' /\ p = of_loc l) (fun _ => same h) h.
Proof.
  intros Hw Hl. apply hoare_on_path; [done|].
  intros v. pose proof (resolve_linkless true h l Hw Hl) as H. destruct (resolve true h (of_loc l)) as [k|e| | |]; try done.
  destruct H as [-> _]. destruct (at_loc (store h) l); rewrite set_store_same; done.
Qed.
(** A canonical path leads to a location without links. *)
Lemma canonicalize_linkless p h : wf (store h) -> at_loc (store h) (cwd h) = Some Directory ->
  hoare (canonicalize p) (fun q h' => same h h' /\ exists l, q = of_loc l /\ linkless (store h) l /\ is_Some (at_loc (store h) l)) (fun _ => same h) h.
Proof.
  intros Hw Hc. apply hoare_on_path; [done|]. intros v. destruct (resolve true h p) as [k|e| | |] eqn:E; try done.
  destruct (at_loc (store h) k) eqn:Ek; rewrite set_store_same; [|done]. split; [done|]. exists k. split_and!; [done| |by eexists]. by eapply resolve_followed.
Qed.

(** Calls that change what is at a location, or below it. *)
Definition changed l h h' : Prop :=
  cwd h' = cwd h /\ opened h' = opened h /\ wf (store h') /\ differs l (store h) (store h').
Lemma changed_same l h h' : wf (store h) -> same h h' -> changed l h h'.
Proof. intros Hw (Hs & Hc & Ho). unfold changed. rewrite Hs. split_and!; try done. Qed.
Lemma changed_trans l h1 h2 h3 : changed l h1 h2 -> changed l h2 h3 -> changed l h1 h3.
Proof. intros (C1 & O1 & W1 & D1) (C2 & O2 & W2 & D2). unfold changed. split_and!; [congruence..|done|by eapply differs_trans]. Qed.
Lemma changed_prefix l l' h h' : l `prefix_of` l' -> changed l' h h' -> changed l h h'.
Proof. intros Hl (? & ? & ? & ?). unfold changed. split_and!; try done. by eapply differs_prefix. Qed.
Lemma changed_store l h v s : wf s -> differs l (store h) s -> changed l h (set_verdicts v (set_store s h)).
Proof. intros Hw Hd. unfold changed. by split_and!. Qed.
#[local] Hint Resolve changed_same changed_store : core.

Lemma create_dir_spec l h : wf (store h) -> linkless (store h) l ->
  hoare (create_dir (of_loc l)) (fun _ h' => changed l h h' /\ at_loc (store h') l = Some Directory /\ linkless (store h') l /\ made l (store h) (store h'))
    (fun _ => same h) h.
Proof.
  intros Hw Hl. apply hoare_on_path; [done|]. intros v. pose proof (resolve_linkless false h l Hw Hl) as H.
  destruct (resolve false h (of_loc l)) as [k|e| | |]; try done. destruct H as [-> Hp].
  destruct (at_loc (store h) l) eqn:E; [by rewrite set_store_same|].
  assert (l <> []) as Hn by by intros ->.
  assert (wf (<[l := Directory]> (store h))) as Hw' by (apply wf_insert; auto).
  assert (at_loc (<[l := Directory]> (store h)) l = Some Directory) as Hd by (rewrite at_nonempty by done; apply lookup_insert_eq).
  rewrite at_nonempty in E by done.
  split_and!; try done; [apply changed_store; [done|apply differs_insert]|by apply dir_linkless|by apply made_insert].
Qed.
Lemma remove_file_spec l h : wf (store h) -> linkless (store h) l ->
  hoare (remove_file (of_loc l)) (fun _ => changed l h) (fun _ => same h) h.
Proof.
  intros Hw Hl. apply hoare_on_path; [done|]. intros v. pose proof (resolve_linkless false h l Hw Hl) as H.
  destruct (resolve false h (of_loc l)) as [k|e| | |]; try done. destruct H as [-> Hp].
  destruct (at_loc (store h) l) as [n|] eqn:E; [|by rewrite set_store_same].
  destruct (is_dir n) eqn:En; [destruct n; try done; by rewrite set_store_same|].
  assert (l <> []) as Hn by (intros ->; injection E as <-; done).
  assert (changed l h (set_verdicts v (set_store (delete l (store h)) h))) as Hch.
  { apply changed_store; [|apply differs_delete]. apply wf_delete; [done|]. intros m. rewrite at_nonempty in E by done.
    apply (wf_leaf _ _ n); try done. by intros ->. }
  by destruct n.
Qed.
Lemma remove_empty_spec l s : wf s -> let '(s', o) := remove_empty l s in (o = Ok tt /\ wf s' /\ differs l s s') \/ (s' = s /\ exists e, o = Err e).
Proof.
  intros Hw. unfold remove_empty. destruct l as [|a l]; [right; split; [done|by eexists]|].
  destruct (at_loc s (a :: l)) as [[]|] eqn:E; try (right; split; [done|by eexists]).
  destruct (children s (a :: l)) eqn:Ec; [|right; split; [done|by eexists]]. left. split_and!; [done| |apply differs_delete].
  apply wf_delete; [done|]. by apply children_nil.
Qed.
Lemma remove_dir_spec l h : wf (store h) -> linkless (store h) l ->
  hoare (remove_dir (of_loc l)) (fun _ => changed l h) (fun _ => same h) h.
Proof.
  intros Hw Hl. apply hoare_on_path; [done|]. intros v. pose proof (resolve_linkless false h l Hw Hl) as H.
  destruct (resolve false h (of_loc l)) as [k|e| | |]; try done. destruct H as [-> Hp].
  pose proof (remove_empty_spec l (store h) Hw) as Hr. destruct (remove_empty l (store h)) as [s o].
  destruct Hr as [(-> & ? & ?)|[-> [e ->]]]; [by apply changed_store|by rewrite set_store_same].
Qed.
Lemma remove_at_spec l h : wf (store h) -> hoare (remove_at l) (fun _ => changed l h) (fun _ => same h) h.
Proof.
  intros Hw. apply hoare_syscall; [done|]. intros v. destruct (at_loc (store h) l) as [n|] eqn:E; [|done].
  destruct (is_dir n) eqn:En.
  - destruct n; try done. pose proof (remove_empty_spec l (store h) Hw) as Hr. destruct (remove_empty l (store h)) as [s o].
    destruct Hr as [(-> & ? & ?)|[-> [e ->]]]; [by apply changed_store|by rewrite set_store_same].
  - assert (l <> []) as Hn by (intros ->; injection E as <-; done). rewrite at_nonempty in E by done.
    assert (changed l h (set_verdicts v (set_store (delete l (store h)) h))) as Hch.
    { apply changed_store; [|apply differs_delete]. apply wf_delete; [done|]. intros m. apply (wf_leaf _ _ n); try done. by intros ->. }
    by destruct n.
Qed.
Lemma remove_each_spec l ls h : wf (store h) -> Forall (prefix l) ls -> hoare (remove_each ls) (fun _ => changed l h) (fun _ => changed l h) h.
Proof.
  revert h. induction ls as [|k ls IH]; intros h Hw Hf; [by apply changed_same|]. apply Forall_cons in Hf as [Hk Hf]. cbn [remove_each].
  apply hoare_bind. eapply hoare_mono; [by apply remove_at_spec| |intros e h' Hs; by apply changed_same].
  cbv beta. intros _ h1 H1. assert (wf (store h1)) as Hw1 by apply H1.
  eapply hoare_mono; [by apply IH|..]; intros ? h' H'; (eapply changed_trans; [by eapply changed_prefix|done]).
Qed.
Lemma remove_dir_all_spec l h : wf (store h) -> linkless (store h) l ->
  hoare (remove_dir_all (of_loc l)) (fun _ => changed l h) (fun _ => changed l h) h.
Proof.
  intros Hw Hl. unfold remove_dir_all. hoare_step.
  apply hoare_mono with (Q := fun k h' => same h h' /\ k = l) (R := fun _ => same h).
  - apply hoare_on_path; [done|]. intros v. pose proof (resolve_linkless false h l Hw Hl) as H.
    destruct (resolve false h (of_loc l)) as [k|e| | |]; try done. destruct H as [-> _]. rewrite set_store_same. by destruct (at_loc (store h) l) as [[]|].
  - intros k h1 [Hs ->]. hoare_steps. assert (changed l h h1) as H1 by by apply changed_same.
    eapply hoare_mono; [apply remove_each_spec with (l := l)|..].
    + by apply H1.
    + rewrite sorting.merge_sort_Permutation. apply Forall_forall. intros k [Hk _]%list_elem_of_filter. done.
    + intros ? h' H'. by eapply changed_trans.
    + intros ? h' H'. by eapply changed_trans.
  - intros e h' Hs. by apply changed_same.
Qed.
Lemma rename_spec r src dst h : wf (store h) -> linkless (store h) src -> linkless (store h) dst ->
  r `prefix_of` src -> r `prefix_of` dst ->
  hoare (rename (of_loc src) (of_loc dst)) (fun _ => changed r h) (fun _ => same h) h.
Proof.
  intros Hw Hs Hd Hrs Hrd. apply hoare_syscall; [done|]. intros v.
  pose proof (resolve_linkless false h src Hw Hs) as H1. pose proof (resolve_linkless false h dst Hw Hd) as H2.
  destruct (resolve false h (of_loc src)) as [ls|e1| | |]; try done; destruct (resolve false h (of_loc dst)) as [ld|e2| | |]; try done.
  destruct H1 as [-> Hp1], H2 as [-> Hp2].
  enough (let '(s, o) := rename_at src dst (store h) in (o = Ok tt /\ wf s /\ differs r (store h) s) \/ (s = store h /\ exists e, o = Err e)) as Hr.
  { destruct (rename_at src dst (store h)) as [s o]. destruct Hr as [(-> & ? & ?)|[-> [e ->]]]; [by apply changed_store|by rewrite set_store_same]. }
  unfold rename_at. destruct src as [|a src]; [right; split; [done|by eexists]|]. destruct dst as [|b dst]; [right; split; [done|by eexists]|].
  remember (a :: src) as s0 eqn:Es0. remember (b :: dst) as d0 eqn:Ed0. assert (s0 <> [] /\ d0 <> []) as [Hs0 Hd0] by by subst.
  destruct (at_loc (store h) s0) as [n|] eqn:En; [|right; split; [done|by eexists]].
  case_bool_decide as Heq; [left; split_and!; done|]. case_bool_decide as Hpre; [right; split; [done|by eexists]|].
  assert (~ d0 `prefix_of` s0 -> (Ok tt = Ok tt :> outcome io_err unit) /\ wf (moved s0 d0 (store h)) /\ differs r (store h) (moved s0 d0 (store h))) as Hok.
  { intros Hds. split_and!; [done|by apply wf_moved|by apply differs_moved]. }
  assert (d0 `prefix_of` s0 -> at_loc (store h) d0 = Some Directory /\ children (store h) d0 <> []) as Hup.
  { intros Hds. assert (at_loc (store h) d0 = Some Directory) as Hdd by (apply Hp1; [done|by intros ->]). split; [done|].
    destruct Hds as [[|m j] Hj]; [by rewrite app_nil_r in Hj|]. rewrite children_nil. intros Hc. specialize (Hc m).
    assert (d0 ++ [m] `prefix_of` s0) as Hm by (exists j; by rewrite Hj, <- app_assoc).
    rewrite <- at_nonempty in Hc by apply snoc_not_nil. by rewrite (wf_missing _ s0 _ Hw Hm Hc) in En. }
  destruct (at_loc (store h) d0) as [[]|] eqn:Ed.
  - destruct (is_dir n); [right; split; [done|by eexists]|]. left. apply Hok. intros [? _]%Hup. done.
  - destruct (negb (is_dir n)); [right; split; [done|by eexists]|]. destruct (children (store h) d0) eqn:Ec; [|right; split; [done|by eexists]].
    left. apply Hok. intros [_ []]%Hup. done.
  - destruct (is_dir n); [right; split; [done|by eexists]|]. left. apply Hok. intros [? _]%Hup. done.
  - destruct (is_dir n); [right; split; [done|by eexists]|]. left. apply Hok. intros [? _]%Hup. done.
  - left. apply Hok. intros [? _]%Hup. done.
Qed.
Lemma open_write_spec l h : wf (store h) -> linkless (store h) l ->
  hoare (open_write (of_loc l)) (fun f h' => changed l h h' /\ loc f = l /\ l <> [] /\ at_loc (store h) l <> Some Directory /\ store h' = <[l := File []]> (store h)) (fun _ => same h) h.
Proof.
  intros Hw Hl. apply hoare_on_path; [done|]. intros v. pose proof (resolve_linkless false h l Hw Hl) as H.
  destruct (resolve false h (of_loc l)) as [k|e| | |]; try done. destruct H as [-> Hp].
  assert (l <> [] -> at_loc (store h) l <> Some Directory -> changed l h (set_verdicts v (set_store (<[l := File []]> (store h)) h)) /\ l = l /\
    l <> [] /\ at_loc (store h) l <> Some Directory /\ <[l := File []]> (store h) = <[l := File []]> (store h)) as Hok.
  { intros Hn Hd. split_and!; [apply changed_store; [apply wf_insert; auto|apply differs_insert]|done..]. }
  destruct (at_loc (store h) l) as [[]|] eqn:E; try (by rewrite set_store_same); (apply Hok; [by intros ->|by rewrite ?E]).
Qed.
(** A file's contents after a write of [bs]; of a file that is gone nothing is said. *)
Definition gained (f : Handle) (bs : bytes) (s s' : Store) : Prop :=
  forall c, at_loc s (loc f) = Some (File c) -> s' = <[loc f := File (c ++ bs)]> s.
Lemma gained_nil f s : gained f [] s s.
Proof.
  intros c Hc. assert (loc f <> []) as Hn by (intros H; by rewrite H in Hc). rewrite app_nil_r, insert_id; [done|]. by rewrite <- at_nonempty.
Qed.
Lemma gained_trans f b1 b2 s1 s2 s3 : gained f b1 s1 s2 -> gained f b2 s2 s3 -> gained f (b1 ++ b2) s1 s3.
Proof.
  intros H1 H2 c Hc. assert (loc f <> []) as Hn by (intros H; by rewrite H in Hc). rewrite (H1 c Hc) in H2.
  rewrite (H2 (c ++ b1)); [by rewrite insert_insert_eq, app_assoc|]. rewrite at_nonempty by done. apply lookup_insert_eq.
Qed.
Lemma write_spec f bs h : wf (store h) ->
  hoare (write f bs) (fun n h' => changed (loc f) h h' /\ gained f (take n bs) (store h) (store h') /\ (bs <> [] -> (1 <= n <= length bs)%nat)) (fun _ => same h) h.
Proof.
  intros Hw. assert (bs <> [] -> 0 < length bs)%nat as Hp by (destruct bs; [done|cbn; lia]). unfold hoare, write. cbv beta zeta. set (k := match verdicts h with Short n :: _ => Nat.min (length bs) (S n) | _ => length bs end).
  assert (bs <> [] -> (1 <= k <= length bs)%nat) as Hk.
  { intros Hn%Hp. unfold k. destruct (verdicts h) as [|[]]; lia. }
  clearbody k. refine (hoare_syscall _ (fun n h' => changed (loc f) h h' /\ gained f (take n bs) (store h) (store h') /\ (bs <> [] -> (1 <= n <= length bs)%nat)) (fun _ => same h) h _ _); [done|]. intros v.
  destruct (at_loc (store h) (loc f)) as [[c| | |]|] eqn:E; try (split_and!; [by apply changed_same|intros c' Hc'; cbn in Hc'; congruence|exact Hk]).
  assert (loc f <> []) as Hn by (intros H; by rewrite H in E).
  split_and!; [|by intros c' Hc'; cbn in Hc'; simplify_eq|exact Hk].
  apply changed_store; [|apply differs_insert]. apply wf_insert; [done..|apply wf_parents; [done|by eexists]|right; by rewrite E].
Qed.
(** Whatever becomes of the call, the file has got what was written, or a first part of it. *)
Lemma append_spec f bs h : wf (store h) ->
  hoare (append f bs) (fun _ h' => changed (loc f) h h' /\ gained f bs (store h) (store h'))
    (fun _ h' => changed (loc f) h h' /\ exists n, gained f (take n bs) (store h) (store h')) h.
Proof.
  unfold append. generalize (length bs). intros fuel. revert bs h. induction fuel as [|fuel IH]; intros bs h Hw;
    (destruct bs as [|b bs]; cbn [write_loop]; [apply hoare_ret; split; [by apply changed_same|apply gained_nil]|]).
  { split; [by apply changed_same|]. exists O. apply gained_nil. }
  apply hoare_bind. eapply hoare_mono; [by apply write_spec|..]; cbv beta.
  - intros n h1 (H1 & G1 & _). eapply hoare_mono; [apply IH, H1|..]; cbv beta.
    + intros _ h2 [H2 G2]. split; [by eapply changed_trans|]. rewrite <- (take_drop n (b :: bs)). by eapply gained_trans.
    + intros e h2 (H2 & m & G2). split; [by eapply changed_trans|]. exists (n + m)%nat. rewrite <- (take_take_drop (b :: bs) n m). by eapply gained_trans.
  - intros e h1 Hs. split; [by apply changed_same|]. exists O. destruct Hs as (-> & _). apply gained_nil.
Qed.
Lemma open_read_spec l h : wf (store h) -> linkless (store h) l ->
  hoare (open_read (of_loc l))
    (fun f h' => loc f = l /\ offset f = 0%nat /\ store h' = store h /\ cwd h' = cwd h /\ opened h' = opened h ++ [l]) (fun _ => same h) h.
Proof.
  intros Hw Hl. apply hoare_syscall; [done|]. intros v. pose proof (resolve_linkless false h l Hw Hl) as H.
  destruct (resolve false h (of_loc l)) as [k|e| | |]; try done. destruct H as [-> Hp]. by destruct (at_loc (store h) l) as [[]|].
Qed.

(** Making the directories of a path, wherever its links lead. *)
Definition roomier h h' : Prop := grown (store h) (store h') /\ wf (store h') /\ cwd h' = cwd h /\ opened h' = opened h.
Lemma roomier_same h h' : wf (store h) -> same h h' -> roomier h h'.
Proof. intros Hw (Es & ? & ?). unfold roomier. rewrite Es. split_and!; try done. apply grown_refl. Qed.
Lemma roomier_trans h1 h2 h3 : roomier h1 h2 -> roomier h2 h3 -> roomier h1 h3.
Proof. intros (G1 & W1 & C1 & O1) (G2 & W2 & C2 & O2). unfold roomier. split_and!; [by eapply grown_trans|done|congruence..]. Qed.
Lemma grown_dir s s' l : grown s s' -> at_loc s l = Some Directory -> at_loc s' l = Some Directory.
Proof. intros Hg. destruct l as [|n l]; [done|]. cbn [at_loc]. by destruct (Hg (n :: l)) as [->|[-> ->]]. Qed.
Lemma create_dir_any p h : wf (store h) -> at_loc (store h) (cwd h) = Some Directory ->
  hoare (create_dir p) (fun _ => roomier h) (fun _ => roomier h) h.
Proof.
  intros Hw Hc. apply hoare_on_path; [intros; by apply roomier_same|]. intros v.
  destruct (resolve false h p) as [k|e| | |] eqn:E; try (by apply roomier_same).
  destruct (at_loc (store h) k) eqn:Ek; [rewrite set_store_same; by apply roomier_same|].
  assert (k <> []) as Hn by by intros ->. assert (parents (store h) k) as Hp.
  { unfold resolve in E. destruct p; [done|]. by eapply walk_missing. }
  split_and!; try done; [apply grown_insert; by rewrite <- at_nonempty|apply wf_insert; auto].
Qed.
Lemma create_dir_all_any fuel p h : wf (store h) -> at_loc (store h) (cwd h) = Some Directory ->
  hoare (create_dir_all fuel p) (fun _ => roomier h) (fun _ => roomier h) h.
Proof.
  revert p h. induction fuel as [|fuel IH]; intros p h Hw Hc; (destruct p as [|c p]; [by apply roomier_same|]); [by apply roomier_same|].
  cbn [create_dir_all].
  assert (forall (e : io_err) h', roomier h h' ->
    hoare (d ← attempt (path_is_dir (c :: p)); match d with inl true => mret tt | _ => st_fail e end : fs unit) (fun _ => roomier h) (fun _ => roomier h) h') as Hend.
  { intros e h1 H1. apply hoare_bind, hoare_attempt. assert (wf (store h1)) by apply H1.
    eapply hoare_mono; [apply path_is_dir_quiet|intros [] h2 H2|intros [x|] h2 H2]; (eapply roomier_trans; [exact H1|by apply roomier_same]). }
  assert (forall h', roomier h h' -> wf (store h') /\ at_loc (store h') (cwd h') = Some Directory) as Hok.
  { intros h' (Hg & Hw' & Ec & _). split; [done|]. rewrite Ec. by eapply grown_dir. }
  apply hoare_bind, hoare_attempt. eapply hoare_mono; [by apply create_dir_any|by intros []|].
  intros [e|] h1 H1; [|done]. destruct (not_found e); [|by apply Hend]. destruct (parent (c :: p)) as [q|]; [|done].
  destruct (Hok _ H1) as [Hw1 Hc1]. apply hoare_bind. eapply hoare_mono; [by apply IH| |intros ? h2 H2; by eapply roomier_trans].
  cbv beta. intros _ h2 H2. assert (roomier h h2) as H2' by by eapply roomier_trans. destruct (Hok _ H2') as [Hw2 Hc2].
  apply hoare_bind, hoare_attempt. eapply hoare_mono; [by apply create_dir_any|intros [] h3 H3; by eapply roomier_trans|].
  intros [x|] h3 H3; [apply Hend|]; by eapply roomier_trans.
Qed.
End specs.
End Fs.
