(* ===== verification/BackupPath.v ===== *)
(** Which files a backup may touch ([crates/ios-core/src/services/backup2/mod.rs]).

    [Filter] has the host-side selection of files, [Policy] what every path of a device goes
    through before the file system sees it and the file operations built on it. Regular
    expressions are the regex crate's, the class [RegexEngine]. *)

From S2P Require Import Prelude Utf8 Text Plist Fs Frames PlistClients.

Inductive Mobilebackup2Error := DeviceLink (e : DeviceLink.DeviceLinkError) | Io (e : Fs.io_err) | PlistError | Protocol (m : msg).
Definition protocol {S A} (text : string) : st S Mobilebackup2Error A := st_fail (Protocol (Msg text [])).

(** [regex::Regex] *)
Class RegexEngine := { Regex : Type; regex_new : bytes -> option Regex; is_match : Regex -> bytes -> bool }.

Module Filter.
Import Text.

Inductive BackupSelection := Bookmarks | CallHistory | Contacts | Messages | Sms | Whatsapp.
Record BackupSelectionRule := mkRule { domain : bytes; relative_path : bytes; recursive : bool }.
Definition rule (domain relative_path : string) (recursive : bool) : BackupSelectionRule := mkRule (str domain) (str relative_path) recursive.

Definition BOOKMARK_RULES : list BackupSelectionRule := [
  rule "HomeDomain" "Library/Safari/Bookmarks.db" false;
  rule "HomeDomain" "Library/Safari/Bookmarks.db-shm" false;
  rule "HomeDomain" "Library/Safari/Bookmarks.db-wal" false].
Definition CALL_HISTORY_RULES : list BackupSelectionRule := [
  rule "HomeDomain" "Library/CallHistoryDB/CallHistory.storedata" false;
  rule "HomeDomain" "Library/CallHistoryDB/CallHistory.storedata-shm" false;
  rule "HomeDomain" "Library/CallHistoryDB/CallHistory.storedata-wal" false].
Definition CONTACT_RULES : list BackupSelectionRule := [
  rule "HomeDomain" "Library/AddressBook/AddressBook.sqlitedb" false;
  rule "HomeDomain" "Library/AddressBook/AddressBook.sqlitedb-shm" false;
  rule "HomeDomain" "Library/AddressBook/AddressBook.sqlitedb-wal" false].
Definition MESSAGE_RULES : list BackupSelectionRule := [
  rule "HomeDomain" "Library/SMS" true;
  rule "MediaDomain" "Library/SMS" true].
Definition SMS_RULES : list BackupSelectionRule := [rule "HomeDomain" "Library/SMS/sms.db" false].
Definition WHATSAPP_RULES : list BackupSelectionRule := [
  rule "AppDomain-net.whatsapp.WhatsApp" "Documents/ChatStorage.sqlite" false;
  rule "AppDomain-net.whatsapp.WhatsApp" "Documents/ChatStorage.sqlite-shm" false;
  rule "AppDomain-net.whatsapp.WhatsApp" "Documents/ChatStorage.sqlite-wal" false;
  rule "AppDomainGroup-group.net.whatsapp.WhatsApp.shared" "ChatStorage.sqlite" false;
  rule "AppDomainGroup-group.net.whatsapp.WhatsApp.shared" "ChatStorage.sqlite-shm" false;
  rule "AppDomainGroup-group.net.whatsapp.WhatsApp.shared" "ChatStorage.sqlite-wal" false].
Definition rules (s : BackupSelection) : list BackupSelectionRule :=
  match s with
  | Bookmarks => BOOKMARK_RULES
  | CallHistory => CALL_HISTORY_RULES
  | Contacts => CONTACT_RULES
  | Messages => MESSAGE_RULES
  | Sms => SMS_RULES
  | Whatsapp => WHATSAPP_RULES
  end.
Definition selection_of (name : bytes) : option BackupSelection :=
  let named (s : string) := bool_decide (name = str s) in
  if named "bookmarks" then Some Bookmarks
  else if named "call_history" || named "call-history" then Some CallHistory
  else if named "contacts" then Some Contacts
  else if named "messages" then Some Messages
  else if named "sms" then Some Sms
  else if named "whatsapp" || named "whats_app" || named "whats-app" then Some Whatsapp
  else None.
Definition from_str (value : bytes) : outcome Mobilebackup2Error BackupSelection :=
  match selection_of (to_ascii_lowercase (trim value)) with
  | Some s => Ok s
  | None => Err (Protocol (Msg "unknown backup selection {value:?}; expected one of {}" []))
  end.

Definition strip_prefix (s p : bytes) : option bytes := if starts_with p s then Some (drop (length p) s) else None.
Definition ends_with (p s : bytes) : bool := starts_with (rev p) (rev s).
(** [trim_end_matches('/')] *)
Fixpoint drop_slashes (s : bytes) : bytes := match s with x2f :: s => drop_slashes s | _ => s end.
Definition trim_end_slashes (s : bytes) : bytes := rev (drop_slashes (rev s)).
Definition matches (r : BackupSelectionRule) (d p : bytes) : bool :=
  bool_decide (domain r = d) &&
  (bool_decide (relative_path r = p) ||
   (recursive r && match strip_prefix p (relative_path r) with Some suffix => starts_with (str "/") suffix | None => false end)).
Definition matches_device_name (r : BackupSelectionRule) (device_name : bytes) : bool :=
  let expected := trim_end_slashes (relative_path r) in
  let exact := [domain r ++ str "/" ++ expected; domain r ++ str "-" ++ expected; expected] in
  existsb (fun candidate => bool_decide (device_name = candidate) || (recursive r && starts_with (candidate ++ str "/") device_name)) exact
  || ends_with (str "/" ++ expected) device_name
  || (recursive r && contains (str "/" ++ expected ++ str "/") device_name).
Definition candidate_names (d p : bytes) : list bytes := [d ++ str "/" ++ p; d ++ str "-" ++ p; p].

Section filter.
Context `{!RegexEngine}.
Record BackupFilter := mkFilter { selections : list BackupSelection; regexes : list Regex }.
Definition filter_rules (f : BackupFilter) : list BackupSelectionRule := flat_map rules (selections f).
Definition filter_matches_device_name (f : BackupFilter) (device_name : bytes) : bool :=
  existsb (fun r => matches_device_name r device_name) (filter_rules f) || existsb (fun re => is_match re device_name) (regexes f).
Definition matches_manifest_entry (f : BackupFilter) (d p : bytes) : bool :=
  existsb (fun r => matches r d p) (filter_rules f) ||
  existsb (fun re => existsb (is_match re) (candidate_names d p)) (regexes f).
Definition is_empty (f : BackupFilter) : bool := match selections f, regexes f with [], [] => true | _, _ => false end.

Definition MAX_FILTER_TERMS : Z := 128.
Definition MAX_FILTER_PATTERN_BYTES : Z := 16 * 1024.
(** [iter().map(f).collect::<Result<Vec<_>, _>>()] *)
Fixpoint collect {A B} (f : A -> outcome Mobilebackup2Error B) (l : list A) : outcome Mobilebackup2Error (list B) :=
  match l with [] => Ok [] | a :: l => b ← f a; bs ← collect f l; Ok (b :: bs) end.
Definition compile_pattern (pattern : bytes) : outcome Mobilebackup2Error Regex :=
  if MAX_FILTER_PATTERN_BYTES <? len pattern
  then Err (Protocol (Msg "backup --only-regex pattern is too large ({} bytes; max {MAX_FILTER_PATTERN_BYTES})" [len pattern; MAX_FILTER_PATTERN_BYTES])) else
  match regex_new pattern with
  | Some re => Ok re
  | None => Err (Protocol (Msg "invalid backup --only-regex pattern {pattern:?}: {error}" []))
  end.
Definition build_backup_filter (selections regex_patterns : list bytes) : outcome Mobilebackup2Error (option BackupFilter) :=
  match selections, regex_patterns with
  | [], [] => Ok None
  | _, _ =>
      if MAX_FILTER_TERMS <? len selections + len regex_patterns
      then Err (Protocol (Msg "backup filter has too many terms ({}; max {MAX_FILTER_TERMS})" [len selections + len regex_patterns; MAX_FILTER_TERMS])) else
      selections ← collect from_str selections;
      regexes ← collect compile_pattern regex_patterns;
      Ok (Some (mkFilter selections regexes))
  end.

(** The last piece after a slash. *)
Definition last_name (file_name : bytes) : bytes := List.last (split_on x2f file_name) file_name.
Definition METADATA_NAMES : list bytes :=
  map str ["Info.plist"; "Manifest.plist"; "Manifest.db"; "Manifest.mbdb"; "Manifest.mbdx"; "Manifest.db-shm"; "Manifest.db-wal"; "Status.plist"].
Definition should_preserve_backup_file (file_name device_name : bytes) (f : BackupFilter) : bool :=
  bool_decide (last_name file_name ∈ METADATA_NAMES) || filter_matches_device_name f device_name.
End filter.
End Filter.

Module Policy.
Import Text Path Fs Plist.
#[local] Open Scope plist_scope.

(** The identifier of a backup is the name of one directory. *)
Definition has_windows_drive_prefix (value : bytes) : bool :=
  match value with
  | a :: x3a :: _ => (65 <=? Zb a) && (Zb a <=? 90) || (97 <=? Zb a) && (Zb a <=? 122)
  | _ => false
  end.
Definition refuse {A} (text : string) : outcome Mobilebackup2Error A := Err (Protocol (Msg text [])).
Definition validate_backup_identifier (identifier : bytes) : outcome Mobilebackup2Error unit :=
  if bool_decide (identifier = []) then refuse "backup identifier must not be empty" else
  if bool_decide (x00 ∈ identifier) then refuse "backup identifier must not contain NUL" else
  if bool_decide (slash ∈ identifier) || bool_decide (x5c ∈ identifier) then refuse "backup identifier must be one path component: {identifier:?}" else
  if has_windows_drive_prefix identifier then refuse "backup identifier must not contain a platform path prefix: {identifier:?}" else
  match components identifier with
  | [Normal _] => Ok tt
  | _ => refuse "backup identifier must be one normal path component: {identifier:?}"
  end.
Definition non_empty_protocol_string (value : option bytes) : option bytes :=
  match value with Some [] => None | _ => value end.

(** The loop over the components: the path built so far and whether it has one. *)
Fixpoint sanitize_loop (clean : PathBuf) (saw_component : bool) (cs : list Component) : outcome Mobilebackup2Error (PathBuf * bool) :=
  match cs with
  | [] => Ok (clean, saw_component)
  | Normal part :: cs => sanitize_loop (push clean (Normal part)) true cs
  | CurDir :: _ => refuse "backup relative path contains a current-directory component: {path:?}"
  | ParentDir :: _ | RootDir :: _ => refuse "backup path escapes backup root: {path}"
  end.
Definition sanitize_relative_path (path : bytes) : outcome Mobilebackup2Error PathBuf :=
  if bool_decide (path = []) then refuse "backup relative path must not be empty" else
  if bool_decide (x00 ∈ path) then refuse "backup relative path must not contain NUL" else
  if bool_decide (x5c ∈ path) || has_windows_drive_prefix path
  then refuse "backup relative path uses an unsupported platform separator or prefix: {path:?}" else
  '(clean, saw_component) ← sanitize_loop [] false (components path);
  if saw_component : bool then Ok clean else refuse "backup relative path must contain a normal component: {path:?}".
Definition render_component (rendered : bytes) (c : Component) : bytes :=
  match c with
  | Normal part => (if bool_decide (rendered = []) then [] else rendered ++ [slash]) ++ utf8_lossy part
  | _ => rendered
  end.
Definition manifest_relative_path_string (p : PathBuf) : bytes := foldl render_component [] p.

Record BackupDirectoryLayout := mkLayout { root : PathBuf; device_directory : PathBuf; target_identifier : bytes }.

Abbreviation host := (st Host Mobilebackup2Error).
(** [?] on an I/O result, and a [match] on one. *)
Definition io {A} (m : fs A) : host A := with_err Io m.
Definition try_io {A} (m : fs A) : host (A + io_err) := attempt m.
Definition symlink_path_error {A} : host A := protocol "backup path contains a symlink component: {}".

Section policy.
Context {PF : Platform}.

(** *** Links *)

Definition is_approved_system_alias (path : PathBuf) : host bool :=
  if macos then
    target ← try_io (read_link path);
    match target with
    | inr _ => mret false
    | inl target =>
        mret (existsb (fun '(alias, expected) => bool_decide (path = components (str alias)) && bool_decide (target = components (str expected)))
          [("/var", "private/var"); ("/tmp", "private/tmp"); ("/etc", "private/etc")]%string)
    end
  else mret false.
(** [std::env::current_dir] *)
Definition current_dir : fs PathBuf := syscall (fun h => (h, Ok (of_loc (cwd h)))).
Fixpoint reject_loop (current : PathBuf) (cs : list Component) : host unit :=
  match cs with
  | [] => mret tt
  | c :: cs =>
      let check (current : PathBuf) : host unit :=
        m ← try_io (symlink_metadata current);
        match m with
        | inl metadata =>
            if is_symlink (node metadata) then
              approved ← is_approved_system_alias current;
              if approved : bool then reject_loop current cs else symlink_path_error
            else reject_loop current cs
        | inr error => if not_found error then mret tt else st_fail (Io error)
        end in
      match c with
      | Normal part => check (push current (Normal part))
      | RootDir => check (push current RootDir)
      | CurDir => reject_loop current cs
      | ParentDir => protocol "backup path is not safe: {}"
      end
  end.
Definition reject_symlink_components (path : PathBuf) : host unit :=
  current ← (if is_absolute path then mret [] else io current_dir);
  reject_loop current path.
Definition canonicalize_simplified (path : PathBuf) : fs PathBuf := canonicalize path.
Definition canonical_backup_root (root : PathBuf) : host PathBuf :=
  reject_symlink_components root ;; io (canonicalize_simplified root).

Fixpoint ensure_loop (current : PathBuf) (relative : list Component) : host unit :=
  match relative with
  | [] => mret tt
  | Normal part :: rest =>
      let current := push current (Normal part) in
      m ← try_io (symlink_metadata current);
      match m with
      | inr error => if not_found error then mret tt else st_fail (Io error)
      | inl metadata =>
          if is_symlink (node metadata) then symlink_path_error else
          if match rest with [] => false | _ => negb (is_dir (node metadata)) end
          then protocol "backup path component is not a directory: {}" else ensure_loop current rest
      end
  | _ :: _ => protocol "backup path is not a safe relative path: {}"
  end.
Definition ensure_no_symlink_components_at_root (root relative : PathBuf) : host unit := ensure_loop root relative.
Definition safe_path_from_root (root relative : PathBuf) : host PathBuf :=
  ensure_no_symlink_components_at_root root relative ;; mret (join root relative).

Definition resolve_relative_path (layout : BackupDirectoryLayout) (rel : bytes) : host PathBuf :=
  clean ← st_lift (sanitize_relative_path rel);
  st_lift (validate_backup_identifier (target_identifier layout)) ;;
  let prefixed_with_target :=
    match clean with Normal value :: _ => from_utf8 value && bool_decide (value = target_identifier layout) | _ => false end in
  let relative := if prefixed_with_target then clean else join (components (target_identifier layout)) clean in
  root ← canonical_backup_root (root layout);
  ensure_no_symlink_components_at_root root relative ;;
  mret (join root relative).

(** *** Directories and files *)

Definition check_directory (current : PathBuf) (metadata : Metadata) : host unit :=
  if is_symlink (node metadata) then symlink_path_error else
  if negb (is_dir (node metadata)) then protocol "backup directory path is not a directory: {}" else mret tt.
(** The directory is there, or is made, and is not a link. *)
Definition make_directory (current : PathBuf) : host unit :=
  m ← try_io (symlink_metadata current);
  match m with
  | inl metadata => check_directory current metadata
  | inr error =>
      if not_found error then
        made ← try_io (create_dir current);
        match made with
        | inl _ => mret tt
        | inr error => if already_exists error then mret tt else st_fail (Io error)
        end ;;
        metadata ← io (symlink_metadata current);
        check_directory current metadata
      else st_fail (Io error)
  end.
Fixpoint create_loop (root current : PathBuf) (relative : list Component) : host PathBuf :=
  match relative with
  | [] => mret current
  | Normal part :: rest =>
      let current := push current (Normal part) in
      make_directory current ;;
      canonical ← io (canonicalize_simplified current);
      if negb (starts_with canonical root) then protocol "backup directory path escapes backup root: {}" else
      create_loop root current rest
  | _ :: _ => protocol "backup directory path is not safe: {}"
  end.
Definition create_dir_all_no_symlink (root relative : PathBuf) : host PathBuf :=
  root ← canonical_backup_root root;
  create_loop root root relative.

Definition open_file_for_read (path : PathBuf) : host Handle := reject_symlink_components path ;; io (open_read path).
Definition open_file_for_write (path : PathBuf) : host Handle := reject_symlink_components path ;; io (open_write path).

Definition layout_relative_path (layout : BackupDirectoryLayout) (path : PathBuf) : host PathBuf :=
  match strip_prefix path (root layout) with Some p => mret p | None => protocol "backup path is outside backup root: {}" end.
Definition create_layout_directory (layout : BackupDirectoryLayout) (path : PathBuf) : host unit :=
  relative ← layout_relative_path layout path;
  create_dir_all_no_symlink (root layout) relative ;; mret tt.
Definition create_layout_parent_directory (layout : BackupDirectoryLayout) (path : PathBuf) : host unit :=
  match parent path with
  | None => protocol "backup path has no parent directory: {}"
  | Some parent =>
      relative ← layout_relative_path layout parent;
      create_dir_all_no_symlink (root layout) relative ;; mret tt
  end.
Definition open_layout_file_for_write (layout : BackupDirectoryLayout) (path : PathBuf) : host Handle :=
  relative ← layout_relative_path layout path;
  ensure_no_symlink_components_at_root (root layout) relative ;;
  open_file_for_write path.
Definition open_layout_file_for_read (layout : BackupDirectoryLayout) (path : PathBuf) : host Handle :=
  relative ← layout_relative_path layout path;
  ensure_no_symlink_components_at_root (root layout) relative ;;
  open_file_for_read path.
Definition rename_layout_path (layout : BackupDirectoryLayout) (src dst : PathBuf) : host unit :=
  src_relative ← layout_relative_path layout src;
  dst_relative ← layout_relative_path layout dst;
  ensure_no_symlink_components_at_root (root layout) src_relative ;;
  ensure_no_symlink_components_at_root (root layout) dst_relative ;;
  io (rename src dst).

(** The levels of the store bound how deep a tree goes. *)
Definition depth (s : Store) : nat := max_list (map (fun kn => length kn.1) (map_to_list s)).
Fixpoint each {A} (f : A -> host unit) (l : list A) : host unit :=
  match l with [] => mret tt | a :: l => f a ;; each f l end.
Fixpoint ensure_tree_has_no_symlinks (fuel : nat) (path : PathBuf) : host unit :=
  metadata ← io (symlink_metadata path);
  if is_symlink (node metadata) then symlink_path_error else
  if is_dir (node metadata) then
    match fuel with
    | O => st_lift OutOfFuel
    | S fuel =>
        entries ← io (read_dir path);
        each (fun name => ensure_tree_has_no_symlinks fuel (push path (Normal name))) entries
    end
  else mret tt.
Definition remove_layout_path (layout : BackupDirectoryLayout) (path : PathBuf) : host unit :=
  relative ← layout_relative_path layout path;
  ensure_no_symlink_components_at_root (root layout) relative ;;
  m ← try_io (symlink_metadata path);
  match m with
  | inr error => if not_found error then mret tt else st_fail (Io error)
  | inl metadata =>
      if is_symlink (node metadata) then symlink_path_error else
      if is_dir (node metadata) then
        h ← st_get;
        ensure_tree_has_no_symlinks (S (depth (store h))) path ;;
        io (remove_dir_all path)
      else io (remove_file path)
  end.

Definition DOWNLOAD_CHUNK_SIZE : nat := 32 * 1024.
(** [std::io::copy] *)
Fixpoint copy_loop (fuel : nat) (source destination : Handle) : host unit :=
  '(bs, source) ← io (read source DOWNLOAD_CHUNK_SIZE);
  match bs, fuel with
  | [], _ => mret tt
  | _, O => st_lift OutOfFuel
  | _, S fuel => io (append destination bs) ;; copy_loop fuel source destination
  end.
Definition file_length (f : Handle) (h : Host) : nat := match at_loc (store h) (loc f) with Some (File c) => length c | _ => O end.
Definition copy (source destination : Handle) : host unit := h ← st_get; copy_loop (file_length source h) source destination.
Fixpoint copy_item (fuel : nat) (root src dst : PathBuf) : host unit :=
  match strip_prefix src root, strip_prefix dst root with
  | None, _ => protocol "backup copy source is outside backup root: {}"
  | _, None => protocol "backup copy destination is outside backup root: {}"
  | Some src_relative, Some dst_relative =>
      ensure_no_symlink_components_at_root root src_relative ;;
      ensure_no_symlink_components_at_root root dst_relative ;;
      if bool_decide (src = dst) || starts_with dst src then protocol "cannot copy a directory into itself" else
      source_metadata ← io (symlink_metadata src);
      if is_symlink (node source_metadata) then symlink_path_error else
      if is_dir (node source_metadata) then
        create_dir_all_no_symlink root dst_relative ;;
        match fuel with
        | O => st_lift OutOfFuel
        | S fuel =>
            entries ← io (read_dir src);
            each (fun name => copy_item fuel root (push src (Normal name)) (push dst (Normal name))) entries
        end
      else if is_file (node source_metadata) then
        match parent dst with
        | Some parent =>
            match strip_prefix parent root with
            | None => protocol "backup copy destination parent is outside backup root: {}"
            | Some parent_relative => create_dir_all_no_symlink root parent_relative ;; mret tt
            end
        | None => mret tt
        end ;;
        source ← open_file_for_read src;
        destination ← open_file_for_write dst;
        copy source destination
      else protocol "backup copy source is neither a file nor a directory: {}"
  end.

(** *** Listings *)

Definition APPLE_EPOCH_OFFSET : Z := 978307200 * 10 ^ 9.
(** [OffsetDateTime::to_offset] and [replace_offset] move the clock by the local offset. *)
Definition device_link_local_wall_clock (modified : Z) : Z := modified + local_offset_at modified * 10 ^ 9.
(** Whole seconds, rounded down on either side of 1970. *)
Definition truncate_system_time_to_seconds (time : Z) : Z :=
  if 0 <=? time then time / 10 ^ 9 * 10 ^ 9
  else let d := - time in - ((d / 10 ^ 9 + (if d mod 10 ^ 9 =? 0 then 0 else 1)) * 10 ^ 9).
Definition device_link_modification_date (modified : Z) : Value :=
  Date (truncate_system_time_to_seconds (device_link_local_wall_clock modified - APPLE_EPOCH_OFFSET)).
Definition file_type_name (n : Node) : string :=
  if is_symlink n then "DLFileTypeUnknown" else if is_dir n then "DLFileTypeDirectory"
  else if is_file n then "DLFileTypeRegular" else "DLFileTypeUnknown".
Fixpoint list_entries (path : PathBuf) (names : list bytes) (entries : list (bytes * Value)) : host (list (bytes * Value)) :=
  match names with
  | [] => mret entries
  | name :: names =>
      metadata ← io (symlink_metadata (push path (Normal name)));
      list_entries path names (imap_insert (utf8_lossy name)
        (Dictionary [(str "DLFileType", String (str (file_type_name (node metadata))));
                     (str "DLFileSize", Integer (length_of metadata));
                     (str "DLFileModificationDate", device_link_modification_date (modified metadata))]) entries)
  end.
Definition contents_of_directory (root path : PathBuf) : host (list (bytes * Value)) :=
  match strip_prefix path root with
  | None => protocol "backup directory is outside backup root: {}"
  | Some relative =>
      ensure_no_symlink_components_at_root root relative ;;
      metadata ← io (symlink_metadata path);
      if is_symlink (node metadata) then symlink_path_error else
      if negb (is_dir (node metadata)) then protocol "backup directory path is not a directory: {}" else
      names ← io (read_dir path);
      list_entries path names []
  end.
End policy.
End Policy.
