(* ===== verification/BackupDir.v ===== *)
(** The directory of one backup ([crates/ios-core/src/services/backup2/mod.rs]): making it, the
    files it must have, what its property lists say, and the removal of the placeholders a filtered
    backup leaves. *)

From S2P Require Import Prelude Utf8 Text Plist Fs Frames PlistClients BackupPath.

Module Dir.
Import Text Path Fs Plist Policy.
#[local] Open Scope plist_scope.

Definition MAX_BACKUP_METADATA_BYTES : Z := 16 * 1024 * 1024.
Definition INCREMENTAL_BACKUP_REQUIRED_FILES : list string := ["Manifest.plist"; "Status.plist"]%string.

Section dir.
Context {PF : Platform} {PC : PlistCodec}.
Definition named (directory : PathBuf) (file_name : string) : PathBuf := join directory (components (str file_name)).

Definition validate_seed_file_path (path : PathBuf) : host unit :=
  reject_symlink_components path ;;
  m ← try_io (symlink_metadata path);
  match m with
  | inl metadata =>
      if is_symlink (node metadata) then symlink_path_error else
      if negb (is_file (node metadata)) then protocol "backup seed path is not a regular file: {}" else mret tt
  | inr error => if not_found error then mret tt else st_fail (Io error)
  end.
(** Whether every file is there, regular and not empty. *)
Fixpoint required_files (directory : PathBuf) (names : list string) : host bool :=
  match names with
  | [] => mret true
  | name :: names =>
      let path := named directory name in
      reject_symlink_components path ;;
      m ← try_io (symlink_metadata path);
      match m with
      | inr error => if not_found error then mret false else st_fail (Io error)
      | inl metadata =>
          if is_symlink (node metadata) then symlink_path_error else
          if negb (is_file (node metadata)) || (length_of metadata =? 0) then mret false else required_files directory names
      end
  end.
Fixpoint manifest_files (directory : PathBuf) (manifest_found : bool) (names : list string) : host bool :=
  match names with
  | [] => mret manifest_found
  | name :: names =>
      let path := named directory name in
      reject_symlink_components path ;;
      m ← try_io (symlink_metadata path);
      match m with
      | inl metadata =>
          if is_symlink (node metadata) then symlink_path_error else
          manifest_files directory (if is_file (node metadata) && (0 <? length_of metadata) then true else manifest_found) names
      | inr error => if not_found error then manifest_files directory manifest_found names else st_fail (Io error)
      end
  end.
Definition has_incremental_backup_metadata (directory : PathBuf) : host bool :=
  required ← required_files directory INCREMENTAL_BACKUP_REQUIRED_FILES;
  if negb required then mret false else manifest_files directory false ["Manifest.db"; "Manifest.mbdb"]%string.
Definition should_do_full_backup (full : bool) (directory : PathBuf) : host bool :=
  if full then mret true else has ← has_incremental_backup_metadata directory; mret (negb has).

(** *** Making the directory *)

Definition status_plist (full : bool) (now : Z) (uuid : bytes) : Value :=
  Dictionary [(str "BackupState", String (str "new")); (str "Date", Date now); (str "IsFullBackup", Boolean full);
              (str "Version", String (str "3.3")); (str "SnapshotState", String (str "finished")); (str "UUID", String uuid)].
(** A property list written to an open file; the encoder reports every failure as its own. *)
Definition write_plist (f : Handle) (encoded : option bytes) : host unit :=
  match encoded with Some bs => with_err (fun _ => PlistError) (append f bs) | None => st_fail PlistError end.
Definition create_root (backup_root : PathBuf) : host PathBuf :=
  reject_symlink_components backup_root ;;
  io (create_dir_all (S (length backup_root)) backup_root) ;;
  canonical_backup_root backup_root.
(** The files the device expects; [now] and [uuid] are the clock and the fresh UUID, in capitals. *)
Definition seed_files (now : Z) (uuid : bytes) (device_directory : PathBuf) (info_plist : list (bytes * Value)) (full : bool) : host unit :=
  each (fun name => validate_seed_file_path (named device_directory name)) ["Info.plist"; "Status.plist"; "Manifest.plist"]%string ;;
  full ← should_do_full_backup full device_directory;
  info_file ← open_file_for_write (named device_directory "Info.plist");
  write_plist info_file (to_writer_xml (Dictionary info_plist)) ;;
  let status_path := named device_directory "Status.plist" in
  status ← try_io (symlink_metadata status_path);
  let status_missing := match status with inr error => not_found error | inl _ => false end in
  (if full || status_missing then
     status_file ← open_file_for_write status_path;
     write_plist status_file (to_writer_binary (status_plist full now uuid))
   else mret tt) ;;
  let manifest_path := named device_directory "Manifest.plist" in
  manifest ← try_io (symlink_metadata manifest_path);
  create_manifest ← (match manifest with
    | inl metadata =>
        if is_symlink (node metadata) then symlink_path_error else
        if full : bool then io (remove_file manifest_path) ;; mret true else mret false
    | inr error => if not_found error then mret true else st_fail (Io error)
    end : host bool);
  if create_manifest : bool then open_file_for_write manifest_path ;; mret tt else mret tt.
Definition initialize_backup_directory (now : Z) (uuid : bytes) (backup_root : PathBuf) (target_identifier : bytes)
    (info_plist : list (bytes * Value)) (full : bool) : host BackupDirectoryLayout :=
  st_lift (validate_backup_identifier target_identifier) ;;
  root ← create_root backup_root;
  device_directory ← create_dir_all_no_symlink root (components target_identifier);
  seed_files now uuid device_directory info_plist full ;;
  mret (mkLayout root device_directory target_identifier).
Definition create_runtime_layout (backup_root : PathBuf) (target_identifier : bytes) : host BackupDirectoryLayout :=
  st_lift (validate_backup_identifier target_identifier) ;;
  root ← create_root backup_root;
  device_directory ← create_dir_all_no_symlink root (components target_identifier);
  mret (mkLayout root device_directory target_identifier).
Definition ensure_backup_directory (backup_root : PathBuf) (target_identifier : bytes) : host unit :=
  root ← canonical_backup_root backup_root;
  st_lift (validate_backup_identifier target_identifier) ;;
  device_directory ← safe_path_from_root root (components target_identifier);
  each (fun name =>
    ensure_no_symlink_components_at_root root (named (components target_identifier) name) ;;
    m ← try_io (symlink_metadata (named device_directory name));
    match m with
    | inr error => if not_found error then protocol "backup directory missing required file {}" else st_fail (Io error)
    | inl metadata =>
        if is_symlink (node metadata) then symlink_path_error else
        if negb (is_file (node metadata)) then protocol "backup directory required path is not a file {}" else mret tt
    end) ["Info.plist"; "Manifest.plist"; "Status.plist"]%string.

(** *** Reading its property lists *)

Definition check_metadata_file (path : PathBuf) : host unit :=
  metadata ← io (symlink_metadata path);
  if is_symlink (node metadata) then symlink_path_error else
  if negb (is_file (node metadata)) then protocol "backup metadata path is not a file: {}" else mret tt.
Definition metadata_file_path (backup_root : PathBuf) (target_identifier : bytes) (file_name : string) : host PathBuf :=
  st_lift (validate_backup_identifier target_identifier) ;;
  root ← canonical_backup_root backup_root;
  path ← safe_path_from_root root (named (components target_identifier) file_name);
  check_metadata_file path ;; mret path.
Definition safe_file_in_directory (directory : PathBuf) (file_name : string) : host PathBuf :=
  let path := named directory file_name in
  reject_symlink_components path ;;
  check_metadata_file path ;; mret path.
Definition open_backup_metadata_for_read (path : PathBuf) : host Handle :=
  file ← open_file_for_read path;
  h ← st_get;
  let length := Z.of_nat (file_length file h) in
  if MAX_BACKUP_METADATA_BYTES <? length
  then st_fail (Protocol (Msg "backup metadata file is too large ({} bytes; max {MAX_BACKUP_METADATA_BYTES}): {}" [length; MAX_BACKUP_METADATA_BYTES]))
  else mret file.
(** [plist::Value::from_reader] *)
Fixpoint read_all (fuel : nat) (f : Handle) (got : bytes) : host bytes :=
  '(bs, f) ← with_err (fun _ => PlistError) (read f DOWNLOAD_CHUNK_SIZE);
  match bs, fuel with
  | [], _ => mret got
  | _, O => st_lift OutOfFuel
  | _, S fuel => read_all fuel f (got ++ bs)
  end.
Definition from_reader (f : Handle) : host Value :=
  h ← st_get;
  bs ← read_all (file_length f h) f [];
  match from_bytes bs with Some v => mret v | None => st_fail PlistError end.
Definition read_backup_dictionary (path : PathBuf) : host (list (bytes * Value)) :=
  file ← open_backup_metadata_for_read path;
  v ← from_reader file;
  match as_dictionary v with Some d => mret d | None => protocol "expected plist dictionary in backup metadata file {}" end.

Definition plist_value_to_bool (v : Value) : option bool :=
  match v with
  | Boolean b => Some b
  | Integer _ =>
      match as_signed_integer v with
      | Some n => Some (negb (n =? 0))
      | None => (fun n => negb (n =? 0)) <$> as_unsigned_integer v
      end
  | _ => None
  end.
Definition flag (key : string) (d : list (bytes * Value)) : bool := default false (get (str key) d ?> plist_value_to_bool).
Definition backup_status_is_full (directory : PathBuf) : host bool :=
  status_path ← safe_file_in_directory directory "Status.plist";
  status ← read_backup_dictionary status_path;
  mret (flag "IsFullBackup" status).
Definition load_backup_applications (backup_root : PathBuf) (target_identifier : bytes) : host (option Value) :=
  ensure_backup_directory backup_root target_identifier ;;
  info_path ← metadata_file_path backup_root target_identifier "Info.plist";
  file ← open_backup_metadata_for_read info_path;
  info ← from_reader file;
  mret (as_dictionary info ?> get (str "Applications")).
Definition backup_is_encrypted (backup_root : PathBuf) (target_identifier : bytes) : host bool :=
  ensure_backup_directory backup_root target_identifier ;;
  manifest_path ← metadata_file_path backup_root target_identifier "Manifest.plist";
  manifest ← read_backup_dictionary manifest_path;
  mret (flag "IsEncrypted" manifest).

(** *** Placeholders *)

(** The loop over the parents of a removed placeholder. *)
Fixpoint prune (fuel : nat) (layout : BackupDirectoryLayout) (parent_dir : option PathBuf) : host unit :=
  match parent_dir with
  | None => mret tt
  | Some directory =>
      if bool_decide (directory = device_directory layout) || negb (starts_with directory (device_directory layout)) then mret tt else
      relative ← layout_relative_path layout directory;
      ensure_no_symlink_components_at_root (root layout) relative ;;
      entries ← io (read_dir directory);
      match entries, fuel with
      | _ :: _, _ => mret tt
      | [], O => st_lift OutOfFuel
      | [], S fuel => io (remove_dir directory) ;; prune fuel layout (parent directory)
      end
  end.
Definition cleanup_discarded_files (layout : BackupDirectoryLayout) (paths : list PathBuf) : host unit :=
  each (fun path =>
    relative ← layout_relative_path layout path;
    ensure_no_symlink_components_at_root (root layout) relative ;;
    m ← try_io (symlink_metadata path);
    match m with
    | inr error => if not_found error then mret tt else st_fail (Io error)
    | inl metadata =>
        if is_symlink (node metadata) then symlink_path_error else
        if is_dir (node metadata) then protocol "filtered backup placeholder unexpectedly became a directory: {}" else
        io (remove_file path) ;;
        prune (length path) layout (parent path)
    end) paths.
End dir.
End Dir.
