(* ===== verification/Backup.v ===== *)
(** The MobileBackup2 client ([crates/ios-core/src/services/backup2/mod.rs]).

    [Transfer] has the framing of file transfers. [Backup] has the client: its state is the
    socket of its DeviceLink client, the host's file system and the fields of
    [Mobilebackup2Client]; [run_loop] answers the device's requests, one after the other, and the
    operations of the API run it inside a session. The build is one for Unix without the feature
    [backup2-manifest]. A timeout ends a call that would wait. *)

From S2P Require Import Prelude Utf8 Text Socket Plist Fs Frames PlistClients BackupPath BackupDir.

(** ** Numbers of a property list *)

Module Number.
Import Plist.

(** The value of a finite IEEE double is [(-1)^sign * mantissa * 2^exponent]. *)
Definition f64_sign (bits : Z) : bool := Z.testbit bits 63.
Definition f64_field (bits : Z) : Z := Z.land (Z.shiftr bits 52) 0x7FF.
Definition f64_mantissa (bits : Z) : Z :=
  Z.land bits (2 ^ 52 - 1) + (if f64_field bits =? 0 then 0 else 2 ^ 52).
Definition f64_exponent (bits : Z) : Z := (if f64_field bits =? 0 then 1 else f64_field bits) - 1075.
Definition f64_is_finite (bits : Z) : bool := negb (f64_field bits =? 0x7FF).
(** The whole number a double is, if it is one below 2^64. *)
Definition f64_to_u64 (bits : Z) : option Z :=
  let m := f64_mantissa bits in
  let e := f64_exponent bits in
  if negb (f64_is_finite bits) then None
  else if f64_sign bits && negb (m =? 0) then None
  else if 0 <=? e then (if m * 2 ^ e <? 2 ^ 64 then Some (m * 2 ^ e) else None)
  else if m mod 2 ^ (- e) =? 0 then Some (m / 2 ^ (- e)) else None.
(** [value as f64]: the nearest double, to even on a tie. *)
Definition f64_of_u64 (n : Z) : Z :=
  if n =? 0 then 0 else
  let k := Z.log2 n in
  if k <=? 52 then (k + 1023) * 2 ^ 52 + (n * 2 ^ (52 - k) - 2 ^ 52)
  else let d := 2 ^ (k - 52) in
       let q := n / d in
       let r := n mod d in
       let up := (d <? 2 * r) || ((2 * r =? d) && Z.odd q) in
       (k + 1023) * 2 ^ 52 + (q - 2 ^ 52) + Z.b2z up.
Definition plist_number_to_u64 (v : Value) : option Z :=
  match v with
  | Integer _ => as_unsigned_integer v
  | Real bits => f64_to_u64 bits
  | _ => None
  end.
Definition plist_number_to_f64 (v : Value) : option Z :=
  match v with
  | Integer _ => f64_of_u64 <$> as_unsigned_integer v
  | Real bits => Some bits
  | _ => None
  end.
(** [status_code as u64] *)
Definition protocol_status_value (status_code : Z) : Value := Integer (status_code mod 2 ^ 64).
End Number.

(** ** Transfers *)

Module Transfer.
Import Net Socket Policy.
#[export] Instance backup_io_error : IoError Mobilebackup2Error := Io None.
Abbreviation stream := (st Socket Mobilebackup2Error).

Definition FILE_TRANSFER_CODE_SUCCESS : Z := 0x00.
Definition FILE_TRANSFER_CODE_LOCAL_ERROR : Z := 0x06.
Definition FILE_TRANSFER_CODE_FILE_DATA : Z := 0x0c.
Definition FILE_TRANSFER_CODE_REMOTE_ERROR : Z := 0x0b.
Definition MAX_TRANSFER_ERROR_PREVIEW_SIZE : Z := 64 * 1024.
Definition MAX_PREFIXED_STRING_SIZE : Z := 64 * 1024.

Definition read_u32_be : stream Z := buf ← read_exact 4; mret (be_Z buf).
Definition read_prefixed_string : stream bytes :=
  size ← read_u32_be;
  if size =? 0 then mret [] else
  if MAX_PREFIXED_STRING_SIZE <? size
  then st_fail (Protocol (Msg "prefixed string too large: {size} bytes (max {MAX_PREFIXED_STRING_SIZE})" [size; MAX_PREFIXED_STRING_SIZE])) else
  buf ← read_exact size;
  if from_utf8 buf then mret buf else protocol "backup path was not utf-8: {err}".
(** A round takes a chunk of at least one byte; the length bounds the rounds. *)
Fixpoint discard_loop (fuel : nat) (remaining : Z) : stream unit :=
  if remaining <=? 0 then mret tt else
  match fuel with
  | O => st_lift OutOfFuel
  | S fuel =>
      let chunk_len := Z.min remaining (Z.of_nat DOWNLOAD_CHUNK_SIZE) in
      read_exact chunk_len ;;
      discard_loop fuel (remaining - chunk_len)
  end.
Definition rounds (remaining : Z) : nat := S (Z.to_nat (remaining / Z.of_nat DOWNLOAD_CHUNK_SIZE)).
Definition discard_transfer_payload (remaining : Z) : stream unit := discard_loop (rounds remaining) remaining.
Definition read_transfer_error_preview (payload_len : Z) : stream bytes :=
  let preview_len := Z.min payload_len MAX_TRANSFER_ERROR_PREVIEW_SIZE in
  preview ← read_exact preview_len;
  discard_transfer_payload (payload_len - preview_len) ;;
  mret (utf8_lossy preview).
(** [len() as u32] keeps the low 32 bits, as [be_bytes 4] does. *)
Definition write_prefixed_string (value : bytes) : stream unit :=
  write_all (be_bytes 4 (len value)) ;; write_all value.
(** The addition is of [u32]s and overflows in debug builds only on 4 GiB payloads. *)
Definition write_transfer_frame (code : Z) (payload : bytes) : stream unit :=
  write_all (be_bytes 4 (len payload + 1)) ;;
  write_all (be_bytes 1 code) ;;
  if bool_decide (payload = []) then mret tt else write_all payload.
End Transfer.

(** ** The client *)

Module Backup.
Import Text Net Socket Plist Path Fs Filter Policy Dir Number Transfer.
#[local] Open Scope plist_scope.

Section client.
Context {PF : Platform} {PC : PlistCodec} {RE : RegexEngine}.
(** [statvfs]: the free bytes of the file system a location is on. *)
Context (free_bytes_at : Store -> Loc -> Z).

Record Client := mkClient {
  link : Socket;
  disk : Host;
  reported_free_space : option Z;
  required_free_space : option Z;
  backup_filter : option BackupFilter;
  discarded_files : list PathBuf;
  transfer_files : Z;
  transfer_bytes : Z;
  write_error : option io_err;
}.
Definition set_link v (c : Client) := mkClient v (disk c) (reported_free_space c) (required_free_space c) (backup_filter c) (discarded_files c) (transfer_files c) (transfer_bytes c) (write_error c).
Definition set_disk v (c : Client) := mkClient (link c) v (reported_free_space c) (required_free_space c) (backup_filter c) (discarded_files c) (transfer_files c) (transfer_bytes c) (write_error c).
Definition set_reported v (c : Client) := mkClient (link c) (disk c) v (required_free_space c) (backup_filter c) (discarded_files c) (transfer_files c) (transfer_bytes c) (write_error c).
Definition set_required v (c : Client) := mkClient (link c) (disk c) (reported_free_space c) v (backup_filter c) (discarded_files c) (transfer_files c) (transfer_bytes c) (write_error c).
Definition set_filter v (c : Client) := mkClient (link c) (disk c) (reported_free_space c) (required_free_space c) v (discarded_files c) (transfer_files c) (transfer_bytes c) (write_error c).
Definition set_discarded v (c : Client) := mkClient (link c) (disk c) (reported_free_space c) (required_free_space c) (backup_filter c) v (transfer_files c) (transfer_bytes c) (write_error c).
Definition set_files v (c : Client) := mkClient (link c) (disk c) (reported_free_space c) (required_free_space c) (backup_filter c) (discarded_files c) v (transfer_bytes c) (write_error c).
Definition set_bytes v (c : Client) := mkClient (link c) (disk c) (reported_free_space c) (required_free_space c) (backup_filter c) (discarded_files c) (transfer_files c) v (write_error c).
Definition set_write_error v (c : Client) := mkClient (link c) (disk c) (reported_free_space c) (required_free_space c) (backup_filter c) (discarded_files c) (transfer_files c) (transfer_bytes c) v.
Definition new (stream : Socket) (h : Host) : Client := mkClient stream h None None None [] 0 0 None.

Abbreviation client := (st Client Mobilebackup2Error).
Definition on_link {A} (m : DeviceLink.link A) : client A := zoom link set_link (with_err DeviceLink m).
Definition on_stream {A} (m : stream A) : client A := zoom link set_link m.
Definition on_disk {A} (m : host A) : client A := zoom disk set_disk m.
Definition ok_or {A} (o : option A) (text : string) : client A :=
  match o with Some a => mret a | None => protocol text end.

Definition SUPPORTED_PROTOCOL_VERSIONS : list Z := [0x4000000000000000; 0x4000CCCCCCCCCCCD].
Definition BULK_OPERATION_ERROR : Z := -13.
Definition PURGE_DISK_SPACE_ERROR : Z := -1.
Definition PURGE_DISK_SPACE_ERROR_STRING : bytes := str "DLPurgeDiskSpace failed to purge".
Definition PURGE_REQUEST_OVERSHOOT : Z := 0x80000000.
Definition MB_ERROR_INSUFFICIENT_DISK_SPACE : Z := 105.
Definition EMPTY_PARAMETER_STRING : bytes := str "___EmptyParameterString___".
Definition MAX_DEVICE_TRANSFER_FILES : Z := 1000000.
Definition MAX_DEVICE_TRANSFER_BYTES : Z := 512 * 1024 * 1024 * 1024.
Definition u64_max : Z := 2 ^ 64 - 1.

(** *** Budgets *)

Definition account_transfer_file : client unit :=
  s ← st_get;
  if u64_max <? transfer_files s + 1 then protocol "backup transfer file count overflow" else
  st_mod (set_files (transfer_files s + 1)) ;;
  if MAX_DEVICE_TRANSFER_FILES <? transfer_files s + 1
  then st_fail (Protocol (Msg "backup transfer has too many files (max {MAX_DEVICE_TRANSFER_FILES})" [MAX_DEVICE_TRANSFER_FILES])) else mret tt.
Definition account_transfer_bytes (n : Z) : client unit :=
  s ← st_get;
  if u64_max <? transfer_bytes s + n then protocol "backup transfer byte count overflow" else
  st_mod (set_bytes (transfer_bytes s + n)) ;;
  if MAX_DEVICE_TRANSFER_BYTES <? transfer_bytes s + n
  then st_fail (Protocol (Msg "backup transfer exceeds byte budget (max {MAX_DEVICE_TRANSFER_BYTES} bytes)" [MAX_DEVICE_TRANSFER_BYTES])) else mret tt.

(** *** Files from the device *)

(** The file is tokio's: a write starts when it is asked for and its failure is reported by the next
    write or by [flush]. A failure that is not reported yet is in [write_error]; a file that is
    dropped takes it along. *)
Definition report_write_error : client unit :=
  s ← st_get;
  match write_error s with
  | Some e => st_mod (set_write_error None) ;; st_fail (Io e)
  | None => mret tt
  end.
Definition write_file (f : Handle) (bs : bytes) : client unit :=
  report_write_error ;;
  r ← on_disk (try_io (append f bs));
  match r with inl _ => mret tt | inr e => st_mod (set_write_error (Some e)) end.
Definition flush_file : client unit := report_write_error.
(** [copy_transfer_payload]: to the file, or nowhere if it is not kept. *)
Fixpoint copy_payload_loop (fuel : nat) (f : Handle) (remaining : Z) : client unit :=
  if remaining <=? 0 then mret tt else
  match fuel with
  | O => st_lift OutOfFuel
  | S fuel =>
      let chunk_len := Z.min remaining (Z.of_nat DOWNLOAD_CHUNK_SIZE) in
      buffer ← on_stream (read_exact chunk_len);
      write_file f buffer ;;
      copy_payload_loop fuel f (remaining - chunk_len)
  end.
Definition copy_transfer_payload (f : Handle) (remaining : Z) : client unit := copy_payload_loop (rounds remaining) f remaining.
(** The frames of one file. *)
Fixpoint receive_frames (fuel : nat) (file : option Handle) : client unit :=
  match fuel with
  | O => st_lift OutOfFuel
  | S fuel =>
      frame_size ← on_stream read_u32_be;
      code ← on_stream (read_exact 1);
      if frame_size <? 1 then protocol "backup file transfer frame too short for {file_name}" else
      let payload_len := frame_size - 1 in
      let code := be_Z code in
      if code =? FILE_TRANSFER_CODE_FILE_DATA then
        account_transfer_bytes payload_len ;;
        match file with
        | Some f => copy_transfer_payload f payload_len
        | None => on_stream (discard_transfer_payload payload_len)
        end ;;
        receive_frames fuel file
      else if code =? FILE_TRANSFER_CODE_SUCCESS then on_stream (discard_transfer_payload payload_len)
      else if code =? FILE_TRANSFER_CODE_REMOTE_ERROR then on_stream (read_transfer_error_preview payload_len) ;; mret tt
      else
        on_stream (discard_transfer_payload payload_len) ;;
        st_fail (Protocol (Msg "unknown backup file transfer code 0x{other:02x} for {file_name}" [code]))
  end.
(** Every frame and every file takes bytes from the stream. *)
Definition link_fuel (s : Client) : nat := S (rx_bytes (link s)).
Fixpoint receive_files (fuel : nat) (layout : BackupDirectoryLayout) : client unit :=
  match fuel with
  | O => st_lift OutOfFuel
  | S fuel =>
      device_name ← on_stream read_prefixed_string;
      if bool_decide (device_name = []) then mret tt else
      account_transfer_file ;;
      file_name ← on_stream read_prefixed_string;
      output_path ← on_disk (resolve_relative_path layout file_name);
      on_disk (create_layout_parent_directory layout output_path) ;;
      s ← st_get;
      let preserve := match backup_filter s with Some filter => should_preserve_backup_file file_name device_name filter | None => true end in
      file ← on_disk (open_layout_file_for_write layout output_path);
      (if preserve then st_mod (set_write_error None) else st_mod (fun s => set_discarded (discarded_files s ++ [output_path]) s)) ;;
      s ← st_get;
      receive_frames (link_fuel s) (if preserve then Some file else None) ;;
      (if preserve then flush_file else mret tt) ;;
      receive_files fuel layout
  end.
Definition receive_uploaded_files (layout : BackupDirectoryLayout) : client unit :=
  s ← st_get; receive_files (link_fuel s) layout.

(** *** Placeholders of files that are not kept *)

Definition moves_with (source : PathBuf) (is_directory : bool) (path : PathBuf) : bool :=
  bool_decide (path = source) || (is_directory && starts_with path source).
Definition relocated (source destination path : PathBuf) : PathBuf := join destination (default [] (Path.strip_prefix path source)).
Definition relocate_discarded_files (source destination : PathBuf) (is_directory : bool) : client unit :=
  st_mod (fun s => set_discarded
    (map (fun path => if moves_with source is_directory path then relocated source destination path else path) (discarded_files s)) s).
Definition copy_discarded_files (source destination : PathBuf) (is_directory : bool) : client unit :=
  st_mod (fun s => set_discarded
    (discarded_files s ++ map (relocated source destination) (List.filter (moves_with source is_directory) (discarded_files s))) s).
Definition forget_discarded_files (target : PathBuf) : client unit :=
  st_mod (fun s => set_discarded
    (List.filter (fun path => negb (bool_decide (path = target)) && negb (starts_with path target)) (discarded_files s)) s).

(** *** Answers *)

Definition status_response (status_code : Value) (status_message : bytes) (status_payload : Value) : Value :=
  Array [String (str "DLMessageStatusResponse"); status_code;
         String (match status_message with [] => EMPTY_PARAMETER_STRING | _ => status_message end); status_payload].
Definition send_status_response_value (status_code : Value) (status_message : bytes) (status_payload : Value) : client unit :=
  on_link (DeviceLink.send_message (status_response status_code status_message status_payload)).
Definition send_status_response (status_code : Z) (status_message : bytes) (status_payload : Value) : client unit :=
  send_status_response_value (protocol_status_value status_code) status_message status_payload.
Definition send_ok : client unit := send_status_response 0 [] (Dictionary []).

(** *** Files for the device *)

Definition file_error_code_from_os_error (e : io_err) : option Z :=
  match e with
  | Some 2 => Some (-6)
  | Some 17 => Some (-7)
  | Some 20 => Some (-8)
  | Some 21 => Some (-9)
  | Some 62 => Some (-10)
  | Some 5 => Some (-11)
  | Some 28 => Some (-15)
  | _ => None
  end.
(** [err.to_string()], the system's text for the error. *)
Context (error_text : io_err -> bytes).
Definition file_failure (e : io_err) : Value :=
  Dictionary ((str "DLFileErrorString", String (error_text e)) ::
    match file_error_code_from_os_error e with
    | Some code => [(str "DLFileErrorCode", protocol_status_value code)]
    | None => []
    end).
Definition insert_file_failure (rel : bytes) (e : io_err) (failures : list (bytes * Value)) : list (bytes * Value) :=
  imap_insert rel (file_failure e) failures.
(** The contents of an open file, a frame for each read; the failures afterwards. *)
Fixpoint send_contents (fuel : nat) (rel : bytes) (f : Handle) (failures : list (bytes * Value)) : client (list (bytes * Value)) :=
  r ← on_disk (try_io (read f DOWNLOAD_CHUNK_SIZE));
  match r with
  | inr e =>
      on_stream (write_transfer_frame FILE_TRANSFER_CODE_LOCAL_ERROR (error_text e)) ;;
      mret (insert_file_failure rel e failures)
  | inl ([], _) => on_stream (write_transfer_frame FILE_TRANSFER_CODE_SUCCESS []) ;; mret failures
  | inl (buf, f) =>
      match fuel with
      | O => st_lift OutOfFuel
      | S fuel =>
          account_transfer_bytes (len buf) ;;
          on_stream (write_transfer_frame FILE_TRANSFER_CODE_FILE_DATA buf) ;;
          send_contents fuel rel f failures
      end
  end.
Definition send_file (layout : BackupDirectoryLayout) (rel : bytes) (failures : list (bytes * Value)) : client (list (bytes * Value)) :=
  local_path ← on_disk (resolve_relative_path layout rel);
  account_transfer_file ;;
  on_stream (write_prefixed_string rel) ;;
  opened ← on_disk (attempt (open_layout_file_for_read layout local_path));
  match opened with
  | inl file => s ← st_get; send_contents (file_length file (disk s)) rel file failures
  | inr (Io e) =>
      on_stream (write_transfer_frame FILE_TRANSFER_CODE_LOCAL_ERROR (error_text e)) ;;
      mret (insert_file_failure rel e failures)
  | inr e => st_fail e
  end.
Fixpoint send_files (layout : BackupDirectoryLayout) (files : list Value) (failures : list (bytes * Value)) : client (list (bytes * Value)) :=
  match files with
  | [] => mret failures
  | file :: files =>
      rel ← ok_or (as_string file) "download file path was not a string: {file:?}";
      failures ← send_file layout rel failures;
      send_files layout files failures
  end.
Definition send_requested_files (layout : BackupDirectoryLayout) (files : list Value) : client (Z * bytes * Value) :=
  failures ← send_files layout files [];
  on_stream (write_all (be_bytes 4 0) ;; flush) ;;
  mret (match failures with
        | [] => (0, [], Dictionary [])
        | _ => (BULK_OPERATION_ERROR, str "Multi status", Dictionary failures)
        end).
(** *** The requests *)

(** Parts of the message, by position. *)
Definition string_at (parts : list Value) (i : nat) (text : string) : client bytes := ok_or (parts !! i ?> as_string) text.
Definition saturating_add_u64 (a b : Z) : Z := Z.min u64_max (a + b).
Definition derive_required_free_space (reported requested : option Z) : option Z :=
  match reported, requested with
  | Some reported, Some requested =>
      if requested <? PURGE_REQUEST_OVERSHOOT then None else
      if u64_max <? requested + reported then None else
      if requested + reported <? PURGE_REQUEST_OVERSHOOT then None else Some (requested + reported - PURGE_REQUEST_OVERSHOOT)
  | _, _ => None
  end.
Definition insufficient_disk_space_message (reported required : option Z) : msg :=
  match reported, required with
  | Some reported, Some required =>
      let additional := sat_sub (saturating_add_u64 required 1) reported in
      Msg "backup process returned ErrorCode={MB_ERROR_INSUFFICIENT_DISK_SPACE}: device needs more than {required} bytes free, host reported {reported} bytes ({additional} more needed) (MBErrorDomain/{MB_ERROR_INSUFFICIENT_DISK_SPACE}); {detail}; response: {response:?}"
        [MB_ERROR_INSUFFICIENT_DISK_SPACE; required; reported; additional]
  | _, _ => Msg "backup process returned ErrorCode={MB_ERROR_INSUFFICIENT_DISK_SPACE}: {response:?}; {detail}" [MB_ERROR_INSUFFICIENT_DISK_SPACE]
  end.
Definition available_space (path : PathBuf) : fs Z :=
  d ← path_is_dir path;
  let probe := if d : bool then path else default path (parent path) in
  on_path true probe (fun l s => match at_loc s l with Some _ => (s, Ok (free_bytes_at s l)) | None => (s, Err ENOENT) end).
(** [matches!(fs::symlink_metadata(p), Err(error) if error.kind() == NotFound)] *)
Definition is_missing (path : PathBuf) : host bool :=
  m ← try_io (symlink_metadata path);
  mret (match m with inr error => not_found error | inl _ => false end).
(** [self.backup_filter.is_some() && ..]: a file that was filtered out may be missing. *)
Definition filtered_out (path : PathBuf) : client bool :=
  s ← st_get;
  match backup_filter s with Some _ => on_disk (is_missing path) | None => mret false end.
Definition is_directory (path : PathBuf) : client bool :=
  metadata ← on_disk (io (symlink_metadata path)); mret (is_dir (node metadata)).

Definition move_item (layout : BackupDirectoryLayout) (src : bytes) (dst_value : Value) : client unit :=
  dst ← ok_or (as_string dst_value) "move target for {src} was not a string: {:?}";
  src_path ← on_disk (resolve_relative_path layout src);
  dst_path ← on_disk (resolve_relative_path layout dst);
  skip ← filtered_out src_path;
  if skip : bool then mret tt else
  on_disk (create_layout_parent_directory layout dst_path) ;;
  source_is_directory ← is_directory src_path;
  on_disk (rename_layout_path layout src_path dst_path) ;;
  relocate_discarded_files src_path dst_path source_is_directory.
Fixpoint move_items (layout : BackupDirectoryLayout) (items : list (bytes * Value)) : client unit :=
  match items with [] => mret tt | (src, dst) :: items => move_item layout src dst ;; move_items layout items end.
Definition remove_item (layout : BackupDirectoryLayout) (item : Value) : client unit :=
  rel ← ok_or (as_string item) "remove item path was not a string: {:?}";
  target ← on_disk (resolve_relative_path layout rel);
  on_disk (remove_layout_path layout target) ;;
  forget_discarded_files target.
Fixpoint remove_items (layout : BackupDirectoryLayout) (items : list Value) : client unit :=
  match items with [] => mret tt | item :: items => remove_item layout item ;; remove_items layout items end.
Definition copy_request (layout : BackupDirectoryLayout) (src dst : bytes) : client unit :=
  src_path ← on_disk (resolve_relative_path layout src);
  dst_path ← on_disk (resolve_relative_path layout dst);
  skip ← filtered_out src_path;
  if skip : bool then send_ok else
  source_is_directory ← is_directory src_path;
  s ← st_get;
  on_disk (copy_item (S (depth (store (disk s)))) (root layout) src_path dst_path) ;;
  copy_discarded_files src_path dst_path source_is_directory ;;
  send_ok.
Definition purge_request (parts : list Value) : client unit :=
  let requested := parts !! 1%nat ?> plist_number_to_u64 in
  s ← st_get;
  st_mod (set_required (derive_required_free_space (reported_free_space s) requested)) ;;
  send_status_response_value (protocol_status_value PURGE_DISK_SPACE_ERROR) PURGE_DISK_SPACE_ERROR_STRING (Integer 0).
(** The reply that ends the loop: its [Content]. *)
Definition process_message (parts : list Value) : client (option Value) :=
  payload ← ok_or (parts !! 1%nat ?> as_dictionary) "process message missing dictionary payload: {:?}";
  error_code ← ok_or (get (str "ErrorCode") payload ?> plist_number_to_u64) "backup process response missing numeric ErrorCode: {:?}";
  if negb (error_code =? 0) then
    s ← st_get;
    if error_code =? MB_ERROR_INSUFFICIENT_DISK_SPACE
    then st_fail (Protocol (insufficient_disk_space_message (reported_free_space s) (required_free_space s)))
    else st_fail (Protocol (Msg "backup process returned ErrorCode={error_code}: {safe_payload:?}" [error_code]))
  else mret (get (str "Content") payload).
(** Some value if the message ends the loop. *)
Definition handle (layout : BackupDirectoryLayout) (message : Value) : client (option (option Value)) :=
  let continue (m : client unit) : client (option (option Value)) := m ;; mret None in
  parts ← ok_or (as_array message) "device link loop expected array message, got {:?}";
  command ← ok_or (head parts ?> as_string) "device link message missing command: {:?}";
  let is_command (s : string) := bool_decide (command = str s) in
  if is_command "DLMessageProcessMessage" then content ← process_message parts; mret (Some content)
  else if is_command "DLMessageCreateDirectory" then continue (
    path ← string_at parts 1 "create directory missing path: {:?}";
    directory ← on_disk (resolve_relative_path layout path);
    on_disk (create_layout_directory layout directory) ;;
    send_ok)
  else if is_command "DLMessageUploadFiles" then continue (receive_uploaded_files layout ;; send_ok)
  else if is_command "DLMessageDownloadFiles" then continue (
    files ← ok_or (parts !! 1%nat ?> as_array) "download files missing array payload: {:?}";
    '(status_code, status_message, status_payload) ← send_requested_files layout files;
    send_status_response status_code status_message status_payload)
  else if is_command "DLMessageGetFreeDiskSpace" then continue (
    free_bytes ← on_disk (io (available_space (device_directory layout)));
    st_mod (set_reported (Some free_bytes)) ;;
    send_status_response 0 [] (Integer free_bytes))
  else if is_command "DLMessageMoveItems" || is_command "DLMessageMoveFiles" then continue (
    items ← ok_or (parts !! 1%nat ?> as_dictionary) "move items missing mapping payload: {:?}";
    move_items layout items ;;
    send_ok)
  else if is_command "DLMessageRemoveItems" || is_command "DLMessageRemoveFiles" then continue (
    items ← ok_or (parts !! 1%nat ?> as_array) "remove items missing array payload: {:?}";
    remove_items layout items ;;
    send_ok)
  else if is_command "DLContentsOfDirectory" then continue (
    rel ← string_at parts 1 "contents-of-directory missing path: {:?}";
    path ← on_disk (resolve_relative_path layout rel);
    listing ← on_disk (contents_of_directory (root layout) path);
    send_status_response 0 [] (Dictionary listing))
  else if is_command "DLMessageCopyItem" then continue (
    src ← string_at parts 1 "copy item missing source: {:?}";
    dst ← string_at parts 2 "copy item missing destination: {:?}";
    copy_request layout src dst)
  else if is_command "DLMessagePurgeDiskSpace" then continue (purge_request parts)
  else protocol "unsupported backup device-link command {other}: {:?}".
(** Every message takes bytes from the stream. *)
Fixpoint message_loop (fuel : nat) (layout : BackupDirectoryLayout) : client (option Value) :=
  match fuel with
  | O => st_lift OutOfFuel
  | S fuel =>
      message ← on_link DeviceLink.recv_message;
      done ← handle layout message;
      match done with
      | Some content => mret content
      | None => message_loop fuel layout
      end
  end.
Definition run_loop (layout : BackupDirectoryLayout) : client (option Value) :=
  s ← st_get; message_loop (link_fuel s) layout.

(** *** Sessions *)

Record VersionExchange := mkVersion { device_link_version : Z; protocol_version : Z }.
Definition hello_request : Value :=
  Dictionary [(str "MessageName", String (str "Hello")); (str "SupportedProtocolVersions", Array (map Real SUPPORTED_PROTOCOL_VERSIONS))].
Definition version_exchange : client VersionExchange :=
  st_mod (fun s => set_bytes 0 (set_files 0 (set_required None (set_reported None s)))) ;;
  device_link_version ← on_link DeviceLink.version_exchange;
  on_link (DeviceLink.send_process_message hello_request) ;;
  response ← on_link DeviceLink.recv_process_message;
  error_code ← ok_or (get (str "ErrorCode") response ?> plist_number_to_u64) "backup2 hello response missing ErrorCode: {:?}";
  if negb (error_code =? 0) then st_fail (Protocol (Msg "backup2 hello returned ErrorCode={error_code}: {:?}" [error_code])) else
  protocol_version ← ok_or (get (str "ProtocolVersion") response ?> plist_number_to_f64) "backup2 hello response missing ProtocolVersion: {:?}";
  if negb (bool_decide (protocol_version ∈ SUPPORTED_PROTOCOL_VERSIONS))
  then st_fail (Protocol (Msg "backup2 negotiated unsupported protocol version {protocol_version}" [protocol_version]))
  else mret (mkVersion device_link_version protocol_version).
(** [finish_session]: the farewell is sent; its failure is only logged. *)
Definition disconnect_best_effort : client unit := attempt (E' := Mobilebackup2Error) (on_link DeviceLink.disconnect) ;; mret tt.
Definition finish_session {A} (result : A + Mobilebackup2Error) : client A :=
  disconnect_best_effort ;; match result with inl a => mret a | inr e => st_fail e end.
(** [tokio::time::timeout_at]: a call that would wait longer fails instead. *)
Definition timeout {A} (m : client A) (text : string) : client A := fun s =>
  match m s with (s, Pending) => (s, Err (Protocol (Msg text []))) | r => r end.

Definition message (name : string) (fields : list (string * option Value)) : Value :=
  Dictionary ((str "MessageName", String (str name)) ::
    omap (fun '(k, v) => match v with Some v => Some (str k, v) | None => None end) fields).
Definition text (s : bytes) : option Value := Some (String s).
Definition send_request (m : Value) : client unit := on_link (DeviceLink.send_process_message m).
Definition run_session (layout : BackupDirectoryLayout) (request : Value) : client (option Value) :=
  send_request request ;;
  run_result ← attempt (run_loop layout);
  finish_session run_result.

Record BackupOptions := mkOptions { filter_option : option BackupFilter; patch_manifest : bool }.
Record BackupResult := mkResult { result_layout : BackupDirectoryLayout; result_version : VersionExchange }.
Definition backup_with_options (now : Z) (uuid : bytes) (backup_root : PathBuf) (target_identifier : bytes) (full : bool)
    (info_plist : list (bytes * Value)) (options : BackupOptions) : client BackupResult :=
  st_lift (validate_backup_identifier target_identifier) ;;
  if patch_manifest options && match filter_option options with None => true | Some _ => false end
  then protocol "patching a backup manifest requires a file selection filter" else
  if patch_manifest options then protocol "manifest patching requires the ios-core backup2-manifest feature" else
  version ← version_exchange;
  st_mod (fun s => set_discarded [] (set_filter (filter_option options) s)) ;;
  layout ← on_disk (initialize_backup_directory now uuid backup_root target_identifier info_plist (full || patch_manifest options));
  send_request (message "Backup" [("TargetIdentifier", text target_identifier)]) ;;
  run_result ← attempt (run_loop layout);
  session_result ← attempt (finish_session run_result);
  s ← st_get;
  st_mod (fun s => set_discarded [] (set_filter None s)) ;;
  cleanup_result ← attempt (E' := Mobilebackup2Error) (on_disk (cleanup_discarded_files layout (discarded_files s)));
  match session_result, cleanup_result with
  | inr e, _ => st_fail e
  | _, inr e => st_fail e
  | inl _, inl _ => mret (mkResult layout version)
  end.
Definition backup (now : Z) (uuid : bytes) (backup_root : PathBuf) (target_identifier : bytes) (full : bool)
    (info_plist : list (bytes * Value)) : client BackupResult :=
  backup_with_options now uuid backup_root target_identifier full info_plist (mkOptions None false).
Definition change_password (backup_root : PathBuf) (target_identifier : bytes) (old_password new_password : option bytes) : client unit :=
  st_lift (validate_backup_identifier target_identifier) ;;
  version_exchange ;;
  layout ← on_disk (create_runtime_layout backup_root target_identifier);
  run_session layout (message "ChangePassword"
    [("TargetIdentifier", text target_identifier); ("OldPassword", String <$> old_password); ("NewPassword", String <$> new_password)]) ;;
  mret tt.

Record RestoreOptions := mkRestore { system : bool; reboot : bool; copy : bool; settings : bool; remove : bool; password : option bytes; source_identifier : option bytes }.
Definition restore_options (o : RestoreOptions) : Value :=
  Dictionary [(str "RestoreShouldReboot", Boolean (reboot o)); (str "RestoreDontCopyBackup", Boolean (negb (copy o)));
              (str "RestorePreserveSettings", Boolean (settings o)); (str "RestoreSystemFiles", Boolean (system o));
              (str "RemoveItemsNotRestored", Boolean (remove o))].
(** The layout of a backup that must be there. *)
Definition existing_layout (backup_root : PathBuf) (identifier : bytes) : host BackupDirectoryLayout :=
  ensure_backup_directory backup_root identifier ;; create_runtime_layout backup_root identifier.
Definition restore (backup_root : PathBuf) (target_identifier : bytes) (options : RestoreOptions) : client BackupResult :=
  let source := default target_identifier (source_identifier options) in
  st_lift (validate_backup_identifier target_identifier) ;;
  st_lift (validate_backup_identifier source) ;;
  '(layout, manifest) ← on_disk (
    layout ← existing_layout backup_root source;
    path ← metadata_file_path (root layout) (Policy.target_identifier layout) "Manifest.plist";
    manifest ← read_backup_dictionary path;
    mret (layout, manifest));
  password ← (if flag "IsEncrypted" manifest
              then password ← ok_or (password options) "backup is encrypted; restore requires a password"; mret (Some password)
              else mret None);
  version ← version_exchange;
  run_session layout (message "Restore"
    [("TargetIdentifier", text target_identifier); ("SourceIdentifier", text source); ("Password", String <$> password);
     ("Options", Some (restore_options options))]) ;;
  mret (mkResult layout version).
Definition validate_source (source : option bytes) : client unit :=
  match source with Some source => st_lift (validate_backup_identifier source) | None => mret tt end.
Definition info (backup_root : PathBuf) (target_identifier : bytes) (source : option bytes) : client (option Value) :=
  st_lift (validate_backup_identifier target_identifier) ;;
  validate_source source ;;
  version_exchange ;;
  layout ← on_disk (existing_layout backup_root (default target_identifier source));
  run_session layout (message "Info" [("TargetIdentifier", text target_identifier); ("SourceIdentifier", String <$> source)]).
Definition list_request (backup_root : PathBuf) (target_identifier : bytes) (source : option bytes) : client (option Value) :=
  st_lift (validate_backup_identifier target_identifier) ;;
  validate_source source ;;
  version_exchange ;;
  let source := default target_identifier source in
  layout ← on_disk (existing_layout backup_root source);
  run_session layout (message "List" [("TargetIdentifier", text target_identifier); ("SourceIdentifier", text source)]).
(** The common part of [run_device_unback] and [run_device_extract]. *)
Definition run_device_operation (backup_root : PathBuf) (identifier : bytes) (request : Value) : client (option Value) :=
  layout ← on_disk (existing_layout backup_root identifier);
  version_exchange ;;
  send_request request ;;
  run_loop layout.
Definition run_device_unback (backup_root : PathBuf) (target_identifier : bytes) (source password : option bytes) : client (option Value) :=
  st_lift (validate_backup_identifier target_identifier) ;;
  let source := non_empty_protocol_string source in
  validate_source source ;;
  run_device_operation backup_root (default target_identifier source) (message "Unback"
    [("TargetIdentifier", text target_identifier); ("SourceIdentifier", String <$> source);
     ("Password", String <$> non_empty_protocol_string password)]).
Definition run_device_extract (backup_root : PathBuf) (target_identifier domain_name relative_path : bytes) (source password : option bytes) : client (option Value) :=
  st_lift (validate_backup_identifier target_identifier) ;;
  st_lift (validate_backup_identifier domain_name) ;;
  relative_path ← st_lift (sanitize_relative_path relative_path);
  let relative_path := manifest_relative_path_string relative_path in
  let source := non_empty_protocol_string source in
  validate_source source ;;
  run_device_operation backup_root (default target_identifier source) (message "Extract"
    [("TargetIdentifier", text target_identifier); ("DomainName", text domain_name); ("RelativePath", text relative_path);
     ("SourceIdentifier", String <$> source); ("Password", String <$> non_empty_protocol_string password)]).
Definition with_deadline (m : client (option Value)) (text : string) : client (option Value) :=
  result ← attempt (timeout m text);
  timeout (finish_session result) text.
Definition unback (backup_root : PathBuf) (target_identifier : bytes) (source password : option bytes) : client (option Value) :=
  with_deadline (run_device_unback backup_root target_identifier source password)
    "device-side Unback exceeded the total timeout of {} seconds".
Definition extract (backup_root : PathBuf) (target_identifier domain_name relative_path : bytes) (source password : option bytes) : client (option Value) :=
  with_deadline (run_device_extract backup_root target_identifier domain_name relative_path source password)
    "device-side Extract exceeded the total timeout of {} seconds".
End client.
End Backup.
