(* ===== verification/BackupSpec.v ===== *)
(** What a backup may do to the host's file system ([crates/ios-core/src/services/backup2/mod.rs]).

    The device chooses every path and every byte; the theorems say that whatever it sends, only
    the directory of the one backup is read or written. *)

From S2P Require Import Prelude Utf8 Text Socket Plist Fs Frames PlistClients BackupPath BackupDir Backup.

Module BackupSpec.
Import Text Plist Path Fs Policy Dir.

(** ** Paths of the device *)

Lemma split_on_none sep l : sep ∉ l -> split_on sep l = [l].
Proof.
  induction l as [|b l IH]; intros Hs; [done|]. apply not_elem_of_cons in Hs as [Hb Hs]. cbn [split_on]. rewrite (IH Hs).
  by rewrite decide_False by congruence.
Qed.
Lemma validate_ok id : validate_backup_identifier id = Ok tt -> components id = [Normal id].
Proof.
  unfold validate_backup_identifier. destruct (bool_decide_reflect (id = [])) as [|Hn]; [done|]. destruct (bool_decide (x00 ∈ id)); [done|].
  destruct (bool_decide_reflect (slash ∈ id)) as [|Hs]; [done|]. cbn [orb]. destruct (bool_decide (x5c ∈ id)); [done|].
  destruct (has_windows_drive_prefix id); [done|]. unfold components. destruct id as [|b rest]; [done|].
  rewrite bool_decide_false by (intros ->; apply Hs; by left). rewrite split_on_none by done. cbn [flat_map]. rewrite app_nil_r.
  destruct (bool_decide_reflect (b :: rest = str ".")) as [|Hd]; [done|]. unfold component.
  rewrite !(bool_decide_false (b :: rest = _)) by done. cbn [orb]. by destruct (bool_decide (b :: rest = str "..")).
Qed.
(** A name that a path can have: not empty, not [.] or [..], and without slashes. *)
Lemma sanitize_loop_spec clean saw cs p b : sanitize_loop clean saw cs = Ok (p, b) ->
  exists l, cs = map Normal l /\ p = clean ++ cs /\ b = (saw || match cs with [] => false | _ => true end).
Proof.
  revert clean saw. induction cs as [|[| | |n] cs IH]; intros clean saw; cbn [sanitize_loop]; try done.
  - intros [= <- <-]. exists []. by rewrite app_nil_r, orb_false_r.
  - intros (l & -> & -> & ->)%IH. exists (n :: l). rewrite push_normal, <- app_assoc. by rewrite orb_true_r.
Qed.
Lemma sanitize_ok path clean : sanitize_relative_path path = Ok clean ->
  exists l, l <> [] /\ clean = map Normal l /\ components path = clean.
Proof.
  unfold sanitize_relative_path. destruct (bool_decide (path = [])); [done|]. destruct (bool_decide (x00 ∈ path)); [done|].
  destruct (bool_decide (x5c ∈ path) || has_windows_drive_prefix path); [done|].
  destruct (sanitize_loop [] false (components path)) as [[p b]| | | |] eqn:E; try done. cbn.
  apply sanitize_loop_spec in E as (l & Hl & -> & ->). rewrite Hl. destruct l as [|n l]; [done|]. intros [= <-]. by exists (n :: l).
Qed.

Section policy.
Context {PF : Platform}.
Implicit Types (h : Host) (l : Loc).

(** ** Looking changes nothing *)

Lemma quiet_bind {E A B} (m : st Host E A) (f : A -> st Host E B) : quiet m -> (forall a, quiet (f a)) -> quiet (m ≫= f).
Proof.
  intros Hm Hf h. apply hoare_bind. eapply hoare_mono; [apply Hm| |done]. intros a h1 H1.
  eapply hoare_mono; [apply Hf|..]; intros ? h2 H2; exact (same_trans _ _ _ H1 H2).
Qed.
Lemma quiet_ret {E A} (a : A) : quiet (mret a : st Host E A).
Proof. intros h. apply same_refl. Qed.
Lemma quiet_fail {E A} (e : E) : quiet (st_fail e : st Host E A).
Proof. intros h. apply same_refl. Qed.
Lemma quiet_lift {E A} (o : outcome E A) : quiet (st_lift o : st Host E A).
Proof. intros h. apply hoare_lift; intros; apply same_refl. Qed.
Lemma quiet_io {A} (m : fs A) : quiet m -> quiet (io m).
Proof. intros Hm h. apply hoare_with_err, Hm. Qed.
Lemma quiet_attempt {E E' A} (m : st Host E A) : quiet m -> quiet (attempt (E' := E') m).
Proof. intros Hm h. apply hoare_attempt. eapply hoare_mono; [apply Hm|done|]. by intros [e|]. Qed.
Lemma quiet_current_dir : quiet current_dir.
Proof. intros h. by apply hoare_syscall. Qed.
Create HintDb quiet.
#[local] Hint Resolve quiet_ret quiet_fail quiet_lift quiet_io quiet_attempt quiet_current_dir symlink_metadata_quiet canonicalize_quiet
  read_link_quiet path_is_dir_quiet read_dir_quiet read_quiet : quiet.
Ltac quiet_step :=
  lazymatch goal with
  | |- quiet (mbind _ _) => apply quiet_bind; [|intros ?]
  | |- quiet (match ?c with _ => _ end) => destruct c
  | |- _ => progress unfold try_io, symlink_path_error, protocol || solve [eauto with quiet]
  end.
Ltac quiet_all := cbv beta zeta; repeat (quiet_step; cbv beta zeta).

Lemma quiet_alias p : quiet (is_approved_system_alias p).
Proof. unfold is_approved_system_alias. quiet_all. Qed.
#[local] Hint Resolve quiet_alias : quiet.
Lemma quiet_reject_loop cs current : quiet (reject_loop current cs).
Proof. revert current. induction cs as [|[| | |n] cs IH]; intros current; cbn [reject_loop]; quiet_all; apply IH. Qed.
Lemma quiet_reject p : quiet (reject_symlink_components p).
Proof. unfold reject_symlink_components. quiet_all; apply quiet_reject_loop. Qed.
#[local] Hint Resolve quiet_reject : quiet.
Lemma quiet_canonical_root p : quiet (canonical_backup_root p).
Proof. unfold canonical_backup_root, canonicalize_simplified. quiet_all. Qed.
Lemma quiet_ensure_loop rel current : quiet (ensure_loop current rel).
Proof. revert current. induction rel as [|[| | |n] rel IH]; intros current; cbn [ensure_loop]; quiet_all; apply IH. Qed.
#[local] Hint Resolve quiet_canonical_root quiet_ensure_loop : quiet.
Lemma quiet_ensure root rel : quiet (ensure_no_symlink_components_at_root root rel).
Proof. apply quiet_ensure_loop. Qed.
#[local] Hint Resolve quiet_ensure : quiet.
Lemma quiet_resolve layout rel : quiet (resolve_relative_path layout rel).
Proof. unfold resolve_relative_path. quiet_all. Qed.
Lemma quiet_relative layout p : quiet (layout_relative_path layout p).
Proof. unfold layout_relative_path. quiet_all. Qed.
Lemma quiet_check_directory p m : quiet (check_directory p m).
Proof. unfold check_directory. quiet_all. Qed.
Lemma quiet_each {A} (f : A -> host unit) (l : list A) : (forall a, quiet (f a)) -> quiet (each f l).
Proof. intros Hf. induction l; cbn [each]; quiet_all; auto. Qed.
#[local] Hint Resolve quiet_resolve quiet_relative quiet_check_directory : quiet.
Lemma quiet_tree fuel p : quiet (ensure_tree_has_no_symlinks fuel p).
Proof. revert p. induction fuel as [|fuel IH]; intros p; cbn [ensure_tree_has_no_symlinks]; quiet_all. by apply quiet_each. Qed.
#[local] Hint Resolve quiet_tree : quiet.
Lemma quiet_list_entries p names entries : quiet (list_entries p names entries).
Proof. revert entries. induction names as [|n names IH]; intros entries; cbn [list_entries]; quiet_all. Qed.
#[local] Hint Resolve quiet_list_entries : quiet.
Lemma quiet_contents root p : quiet (contents_of_directory root p).
Proof. unfold contents_of_directory. quiet_all. Qed.
(** ** Checked paths *)

Lemma passable_snoc s l n : linkless s l -> passable false s (l ++ [n]).
Proof. intros Hl k t [->|Hk]%prefix_snoc [Hn|Hn]; try done; by apply Hl. Qed.
Lemma symlink_false n : is_symlink n = false -> forall t, n <> Symlink t.
Proof. by intros ? ? ->. Qed.
(** A bind after a call that only looks, whatever else it finds. *)
Lemma hoare_same_bind {E A B} (m : st Host E A) (f : A -> st Host E B) Q' Q R h0 h :
  same h0 h -> hoare m Q' (fun _ => same h) h -> (forall a h', Q' a h' -> same h0 h' -> hoare (f a) Q R h') -> (forall a h', Q' a h' -> same h h') ->
  (forall e h', same h0 h' -> R e h') -> hoare (m ≫= f) Q R h.
Proof.
  intros H0 Hm Hf Hs HR. apply hoare_bind. eapply hoare_mono; [exact Hm| |].
  - intros a h' Ha. apply Hf; [done|]. exact (same_trans _ _ _ H0 (Hs _ _ Ha)).
  - intros e h' He. apply HR. exact (same_trans _ _ _ H0 He).
Qed.
Lemma same_store h h' : same h h' -> store h' = store h.
Proof. by intros [-> _]. Qed.

(** The metadata of the next name on a checked path: found, missing, or an error. *)
Lemma look_spec l n h Q R : wf (store h) -> linkless (store h) l ->
  (forall m h', same h h' -> at_loc (store h) (l ++ [n]) = Some (node m) -> Q (inl m) h') ->
  (forall e h', same h h' -> (not_found e = true -> at_loc (store h) (l ++ [n]) = None) -> Q (inr e) h') ->
  (forall h', same h h' -> R None h') ->
  hoare (try_io (symlink_metadata (of_loc (l ++ [n])))) Q R h.
Proof.
  intros Hw Hl H1 H2 H3. apply hoare_attempt. eapply hoare_mono; [apply symlink_metadata_spec; [done|by apply passable_snoc]|..]; cbv beta.
  - intros m h' [Hs Hm]. by apply H1.
  - intros [e|] h' [Hs He]; [|by apply H3]. apply H2; [done|]. intros ->%bool_decide_eq_true. by apply He.
Qed.
Lemma ensure_loop_spec rel cur h : wf (store h) -> linkless (store h) cur ->
  hoare (ensure_loop (of_loc cur) (map Normal rel)) (fun _ h' => same h h' /\ linkless (store h) (cur ++ rel)) (fun _ => same h) h.
Proof.
  intros Hw Hl. eapply hoare_mono; [apply (hoare_and _ (fun _ => same h) (fun _ _ => linkless (store h) (cur ++ rel)) (fun _ => same h) (fun _ _ => True));
    [apply quiet_ensure_loop|]|by intros ? ? []|by intros ? ? []].
  revert h cur Hw Hl. induction rel as [|n rel IH]; intros h cur Hw Hl; cbn [map ensure_loop].
  { apply hoare_ret. by rewrite app_nil_r. }
  rewrite push_normal, of_loc_snoc. apply hoare_bind.
  assert (cur ++ n :: rel = (cur ++ [n]) ++ rel) as -> by (by rewrite <- app_assoc).
  apply look_spec; [done..| | |done].
  - intros m h' Hs Hm. destruct (is_symlink (node m)) eqn:Em; [done|]. pose proof (same_store h h' Hs) as Es.
    destruct (match map Normal rel with [] => false | _ => negb (is_dir (node m)) end); [done|].
    rewrite <- Es. apply IH; rewrite Es; [done|]. apply linkless_snoc; [done|]. intros t Ht. rewrite at_snoc in Hm. rewrite Hm in Ht. injection Ht as Ht. by rewrite Ht in Em.
  - intros e h' Hs He. destruct (not_found e) eqn:E; [|done]. apply hoare_ret. apply linkless_below with (l := cur ++ [n]); [done| |by apply He|by exists rel].
    apply linkless_snoc; [done|]. intros t Ht. rewrite <- at_snoc, He in Ht by done. done.
Qed.

Section layout.
Context (R : Loc) (t : bytes).
(** The directory of the backup. *)
Let D : Loc := R ++ [t].
Context (s0 : Store) (o0 : list Loc).

(** Nothing outside the directory has changed, and nothing outside it was opened. *)
Definition Inv h : Prop :=
  wf (store h) /\ linkless (store h) R /\ differs D s0 (store h) /\ exists o, opened h = o0 ++ o /\ Forall (fun l => D `prefix_of` l) o.
Lemma inv_root h : Inv h -> linkless (store h) R.
Proof. by intros (_ & Hr & _). Qed.
Lemma inv_same h h' : Inv h -> same h h' -> Inv h'.
Proof. intros (Hw & Hr & Hd & Ho) (Es & _ & Eo). unfold Inv. by rewrite Es, Eo. Qed.
Lemma not_below_root : ~ D `prefix_of` R.
Proof. intros [k H]. apply (f_equal length) in H. unfold D in H. rewrite !length_app in H. cbn in H. lia. Qed.
Lemma inv_changed l h h' : Inv h -> D `prefix_of` l -> changed l h h' -> Inv h'.
Proof.
  intros (Hw & Hr & Hd & Ho) Hl (_ & Eo & Hw' & Hd'). apply (differs_prefix D) in Hd'; [|done]. split_and!; [done| | |by rewrite Eo].
  - intros k x Hk. rewrite (differs_at D (store h)); [by apply Hr|done|]. intros HD. apply not_below_root. by etrans.
  - by eapply differs_trans.
Qed.
Definition keeps {A} (m : host A) : Prop := forall h, Inv h -> hoare m (fun _ => Inv) (fun _ => Inv) h.
Lemma keeps_quiet {A} (m : host A) : quiet m -> keeps m.
Proof. intros Hm h Hi. eapply hoare_mono; [apply Hm|..]; intros ? h' Hs; by eapply inv_same. Qed.
Lemma keeps_bind {A B} (m : host A) (f : A -> host B) : keeps m -> (forall a, keeps (f a)) -> keeps (m ≫= f).
Proof. intros Hm Hf h Hi. apply hoare_bind. eapply hoare_mono; [by apply Hm| |done]. intros a h' Hi'. by apply Hf. Qed.
Lemma keeps_each {A} (f : A -> host unit) (l : list A) : (forall a, keeps (f a)) -> keeps (each f l).
Proof. intros Hf. induction l as [|a l IH]; cbn [each]; [apply keeps_quiet, quiet_ret|]. apply keeps_bind; [apply Hf|done]. Qed.

(** The layout of the backup, and a path of it. *)
Definition layout_of : BackupDirectoryLayout := mkLayout (of_loc R) (of_loc D) t.
Definition mine (p : PathBuf) : Prop := exists l, p = of_loc (D ++ l).
Definition checked h (p : PathBuf) : Prop := exists l, p = of_loc (D ++ l) /\ linkless (store h) (D ++ l).

Lemma canonical_root_spec h : Inv h -> hoare (canonical_backup_root (of_loc R)) (fun p h' => same h h' /\ p = of_loc R) (fun _ => same h) h.
Proof.
  intros Hi. unfold canonical_backup_root. apply hoare_bind. eapply hoare_mono; [apply quiet_reject| |done]. cbv beta. intros _ h1 Hs.
  pose proof (same_store h h1 Hs) as Es. apply hoare_with_err.
  eapply hoare_mono; [apply canonicalize_spec; rewrite Es; [apply Hi|by apply inv_root]|..]; cbv beta.
  - intros p h2 [Hs2 ->]. split; [exact (same_trans _ _ _ Hs Hs2)|done].
  - intros e h2 Hs2. exact (same_trans _ _ _ Hs Hs2).
Qed.
Lemma ensure_root_spec l h : Inv h ->
  hoare (ensure_no_symlink_components_at_root (of_loc R) (map Normal l)) (fun _ h' => same h h' /\ linkless (store h) (R ++ l)) (fun _ => same h) h.
Proof. intros Hi. apply ensure_loop_spec; [apply Hi|by apply inv_root]. Qed.
(** The names below the directory that a path of the device stands for. *)
Definition placed (rel : bytes) (l : Loc) : Prop := exists ns, sanitize_relative_path rel = Ok (map Normal ns) /\
  l = match ns with n :: rest => if from_utf8 n && bool_decide (n = t) then rest else ns | [] => [] end.
(** Whatever the device names, the path is in the backup's directory, and no link is on it. *)
Lemma resolve_spec rel h : Inv h ->
  hoare (resolve_relative_path layout_of rel) (fun p h' => same h h' /\ exists l, p = of_loc (D ++ l) /\ linkless (store h) (D ++ l) /\ placed rel l) (fun _ => same h) h.
Proof.
  intros Hi. unfold resolve_relative_path. apply hoare_bind. apply hoare_lift; [|intros; apply same_refl]. intros clean Hclean. pose proof Hclean as (l & Hl & -> & _)%sanitize_ok.
  apply hoare_bind. apply hoare_lift; [|intros; apply same_refl]. intros [] Hv%validate_ok. cbn [target_identifier layout_of root] in *. rewrite Hv.
  match goal with |- context [if ?c then map Normal l else _] => set (b := c) end.
  assert (exists k, (if b then map Normal l else join [Normal t] (map Normal l)) = map Normal ([t] ++ k) /\ placed rel k) as (k & -> & Hk).
  { unfold b, placed. destruct l as [|n l]; [done|]. cbn [map]. destruct (from_utf8 n && bool_decide (n = t)) eqn:E.
    - pose proof E as [_ ->%bool_decide_eq_true]%andb_prop. exists l. split; [done|]. exists (t :: l). by rewrite E.
    - exists (n :: l). split; [done|]. exists (n :: l). by rewrite E. }
  apply hoare_bind. eapply hoare_mono; [by apply canonical_root_spec| |done]. cbv beta. intros p h1 [Hs1 ->].
  apply hoare_bind. eapply hoare_mono; [apply ensure_root_spec; by eapply inv_same|..]; cbv beta.
  - intros _ h2 [Hs2 Hl2]. apply hoare_ret. split; [exact (same_trans _ _ _ Hs1 Hs2)|]. exists k. rewrite join_of_loc, (same_store _ _ Hs1), app_assoc in *. done.
  - intros e h2 Hs2. exact (same_trans _ _ _ Hs1 Hs2).
Qed.
Lemma relative_spec l h : hoare (layout_relative_path layout_of (of_loc (R ++ l))) (fun p h' => h' = h /\ p = map Normal l) (fun _ h' => h' = h) h.
Proof. unfold layout_relative_path. cbn [root layout_of]. rewrite strip_of_loc. by apply hoare_ret. Qed.

(** ** Every operation stays in the directory *)

Lemma hoare_quiet {A} (m : host A) (Q : A -> Host -> Prop) h : quiet m -> Inv h -> (forall a h', same h h' -> Q a h') -> hoare m Q (fun _ => Inv) h.
Proof. intros Hm Hi HQ. eapply hoare_mono; [apply Hm|..]; intros ? h' Hs; [by apply HQ|by eapply inv_same]. Qed.
Lemma check_directory_spec p m (Q : unit -> Host -> Prop) h : Inv h -> (node m = Directory -> Q tt h) -> hoare (check_directory p m) Q (fun _ => Inv) h.
Proof. intros Hi HQ. unfold check_directory. destruct (is_symlink (node m)); [done|]. destruct (node m) eqn:E; try done. by apply HQ. Qed.
Lemma make_directory_spec l n h : Inv h -> linkless (store h) l -> D `prefix_of` l ++ [n] ->
  hoare (make_directory (of_loc (l ++ [n]))) (fun _ h' => Inv h' /\ at_loc (store h') (l ++ [n]) = Some Directory /\ made (l ++ [n]) (store h) (store h')) (fun _ => Inv) h.
Proof.
  intros Hi Hl HD. assert (wf (store h)) as Hw by apply Hi. unfold make_directory. apply hoare_bind. apply look_spec; [done..| | |].
  - intros m h1 Hs Hm. apply check_directory_spec; [by eapply inv_same|]. intros Ed. split; [by eapply inv_same|].
    rewrite (same_store _ _ Hs), Hm, Ed. split; [done|apply made_refl].
  - intros e h1 Hs He. assert (Inv h1) as Hi1 by by eapply inv_same. destruct (not_found e) eqn:Ee; [|done]. specialize (He eq_refl).
    assert (linkless (store h1) (l ++ [n])) as Hl1.
    { rewrite (same_store _ _ Hs). apply linkless_snoc; [done|]. intros x Hx. rewrite <- at_snoc in Hx. congruence. }
    apply hoare_bind, hoare_attempt. assert (wf (store h1)) as Hw1 by apply Hi1.
    assert (forall h2, Inv h2 -> linkless (store h2) (l ++ [n]) -> made (l ++ [n]) (store h) (store h2) ->
      hoare (metadata ← io (symlink_metadata (of_loc (l ++ [n]))); check_directory (of_loc (l ++ [n])) metadata)
        (fun _ h' => Inv h' /\ at_loc (store h') (l ++ [n]) = Some Directory /\ made (l ++ [n]) (store h) (store h')) (fun _ => Inv) h2) as Hend.
    { intros h2 Hi2 Hl2 Hg2. apply hoare_bind, hoare_with_err. eapply hoare_mono; [apply symlink_metadata_spec; [apply Hi2|by apply linkless_passable]|..]; cbv beta.
      - intros m h3 [Hs3 Hm3]. assert (Inv h3) by by eapply inv_same. apply check_directory_spec; [done|]. intros Ed. split; [done|].
        by rewrite (same_store _ _ Hs3), Hm3, Ed.
      - intros x h3 [Hs3 _]. by eapply inv_same. }
    eapply hoare_mono; [by apply create_dir_spec|..]; cbv beta.
    + intros _ h2 (Hc & _ & Hl2 & Hg). apply hoare_bind, hoare_ret. apply Hend; [by eapply inv_changed|done|]. by rewrite <- (same_store _ _ Hs).
    + intros [x|] h2 Hs2; [|by eapply inv_same]. apply hoare_bind. destruct (already_exists x); [|by eapply inv_same].
      apply hoare_ret, Hend; [by eapply inv_same|by rewrite (same_store _ _ Hs2)|].
      rewrite (same_store _ _ Hs2), (same_store _ _ Hs). apply made_refl.
  - intros h1 Hs. by eapply inv_same.
Qed.
Lemma create_loop_spec rel cur h : Inv h -> linkless (store h) cur -> R `prefix_of` cur ->
  (forall n, head rel = Some n -> D `prefix_of` cur ++ [n]) ->
  hoare (create_loop (of_loc R) (of_loc cur) (map Normal rel)) (fun p h' => Inv h' /\ p = of_loc (cur ++ rel) /\ linkless (store h') (cur ++ rel) /\ made (cur ++ rel) (store h) (store h')) (fun _ => Inv) h.
Proof.
  revert cur h. induction rel as [|n rel IH]; intros cur h Hi Hl HR HD; cbn [map create_loop].
  { apply hoare_ret. rewrite app_nil_r. split_and!; try done. apply made_refl. }
  rewrite push_normal, of_loc_snoc. specialize (HD n eq_refl). apply hoare_bind.
  eapply hoare_mono; [by apply make_directory_spec| |done]. cbv beta. intros _ h1 (Hi1 & Hd1 & Hg1).
  assert (linkless (store h1) (cur ++ [n])) as Hl1 by (apply dir_linkless; [apply Hi1|done]).
  apply hoare_bind, hoare_with_err. eapply hoare_mono; [apply canonicalize_spec; [apply Hi1|done]|..]; cbv beta.
  - intros p h2 [Hs2 ->]. unfold starts_with. assert (R `prefix_of` cur ++ [n]) as HR' by (etrans; [exact HR|by exists [n]]).
    rewrite bool_decide_true by by apply of_loc_prefix. cbn [negb].
    assert (cur ++ n :: rel = (cur ++ [n]) ++ rel) as -> by (by rewrite <- app_assoc).
    rewrite <- (same_store _ _ Hs2) in Hg1, Hl1. eapply hoare_mono; [apply IH; [by eapply inv_same|done|done|]|..]; cbv beta; [|intros q h3 (Hi3 & Hq & Hl3 & Hg3)|done].
    + intros n' _. etrans; [exact HD|by exists [n']].
    + split_and!; try done. eapply made_trans; [|exact Hg3]. eapply made_prefix; [|exact Hg1]. by exists rel.
  - intros e h2 Hs2. by eapply inv_same.
Qed.
(** The directories [R ++ l] that the code asks for are the root itself or in the backup's directory. *)
Definition inside l : Prop := l = [] \/ D `prefix_of` R ++ l.
Lemma inside_mine l : inside (t :: l).
Proof. right. exists l. unfold D. by rewrite <- app_assoc. Qed.
Lemma inside_head l n : inside l -> head l = Some n -> D `prefix_of` R ++ [n].
Proof.
  intros [->|[k Hk]] Hn; [done|]. destruct l as [|m l]; [done|]. injection Hn as ->. unfold D in Hk. rewrite <- app_assoc in Hk.
  apply app_inv_head in Hk. cbn in Hk. injection Hk as -> _. done.
Qed.
Lemma create_dir_all_spec l h : Inv h -> inside l ->
  hoare (create_dir_all_no_symlink (of_loc R) (map Normal l)) (fun p h' => Inv h' /\ p = of_loc (R ++ l) /\ linkless (store h') (R ++ l) /\ made (R ++ l) (store h) (store h')) (fun _ => Inv) h.
Proof.
  intros Hi Hl. unfold create_dir_all_no_symlink. apply hoare_bind. eapply hoare_mono; [by apply canonical_root_spec|..]; cbv beta.
  - intros p h1 [Hs ->]. assert (Inv h1) as Hi1 by by eapply inv_same. rewrite <- (same_store _ _ Hs). apply create_loop_spec; [done|by apply inv_root|done|]. intros n. by apply inside_head.
  - intros e h1 Hs. by eapply inv_same.
Qed.
Lemma create_spec l h : Inv h -> inside l ->
  hoare (create_dir_all_no_symlink (of_loc R) (map Normal l) ;; mret tt) (fun _ h' => Inv h' /\ made (R ++ l) (store h) (store h')) (fun _ => Inv) h.
Proof.
  intros Hi Hl. apply hoare_bind. eapply hoare_mono; [by apply create_dir_all_spec| |done]. cbv beta. intros p h' (Hi' & _ & _ & Hm). by apply hoare_ret.
Qed.
Lemma keeps_create l : inside l -> keeps (create_dir_all_no_symlink (of_loc R) (map Normal l) ;; mret tt).
Proof. intros Hl h Hi. eapply hoare_mono; [by apply create_spec|by intros ? ? []|done]. Qed.
Lemma of_loc_parent l n : parent (of_loc (l ++ [n])) = Some (of_loc l).
Proof. unfold parent. rewrite <- of_loc_snoc, last_snoc, removelast_last. done. Qed.
(** The parent of a path in the directory is the root or in the directory. *)
Lemma mine_parent l : exists k, parent (of_loc (D ++ l)) = Some (of_loc (R ++ k)) /\ inside k /\ R ++ k `prefix_of` D ++ l.
Proof.
  destruct l as [|n l _] using rev_ind.
  - exists []. rewrite !app_nil_r. unfold D. rewrite of_loc_parent. split_and!; [done|by left|by eexists].
  - exists (t :: l). rewrite app_assoc, of_loc_parent. split_and!; [|apply inside_mine|]; unfold D; rewrite <- ?app_assoc; [done|]. exists [n]. by rewrite <- !app_assoc.
Qed.
Lemma mine_root l : D ++ l = R ++ t :: l.
Proof. unfold D. by rewrite <- app_assoc. Qed.
Lemma hoare_relative {B} l (f : PathBuf -> host B) Q X h :
  hoare (f (map Normal l)) Q X h -> hoare (layout_relative_path layout_of (of_loc (R ++ l)) ≫= f) Q X h.
Proof. intros H. apply hoare_bind. unfold layout_relative_path. cbn [root layout_of]. rewrite strip_of_loc. by apply hoare_ret. Qed.

Lemma keeps_create_layout p : mine p -> keeps (create_layout_directory layout_of p).
Proof. intros [l ->] h Hi. unfold create_layout_directory. rewrite mine_root. apply hoare_relative. by apply keeps_create; [apply inside_mine|]. Qed.
Lemma create_parent_spec l h : Inv h ->
  hoare (create_layout_parent_directory layout_of (of_loc (D ++ l))) (fun _ h' => Inv h' /\ made (D ++ l) (store h) (store h')) (fun _ => Inv) h.
Proof.
  intros Hi. unfold create_layout_parent_directory. destruct (mine_parent l) as (k & -> & Hk & Hp). apply hoare_relative.
  eapply hoare_mono; [by apply create_spec| |done]. cbv beta. intros _ h' [Hi' Hm]. split; [done|by eapply made_prefix].
Qed.
Lemma keeps_create_parent p : mine p -> keeps (create_layout_parent_directory layout_of p).
Proof. intros [l ->] h Hi. eapply hoare_mono; [by apply create_parent_spec|by intros ? ? []|done]. Qed.
(** A file opened by the code is one of the directory's. *)
Definition handle_mine (f : Handle) : Prop := D `prefix_of` loc f.
Lemma mine_prefix l : D `prefix_of` D ++ l.
Proof. by exists l. Qed.
Lemma open_for_write_spec l h : Inv h -> linkless (store h) (D ++ l) ->
  hoare (open_file_for_write (of_loc (D ++ l))) (fun f h' => Inv h' /\ loc f = D ++ l /\ at_loc (store h) (D ++ l) <> Some Directory /\ store h' = <[D ++ l := File []]> (store h)) (fun _ => Inv) h.
Proof.
  intros Hi Hl. unfold open_file_for_write. apply hoare_bind, hoare_quiet; [apply quiet_reject|done|]. intros _ h1 Hs.
  assert (Inv h1) as Hi1 by by eapply inv_same. apply hoare_with_err. eapply hoare_mono; [apply open_write_spec; [apply Hi1|by rewrite (same_store _ _ Hs)]|..]; cbv beta.
  - rewrite (same_store _ _ Hs). intros f h2 (Hc & Hf & _ & Hd & Es). split_and!; try done. eapply inv_changed; [exact Hi1|apply mine_prefix|exact Hc].
  - intros e h2 Hs2. by eapply inv_same.
Qed.
Lemma open_for_read_spec l h : Inv h -> linkless (store h) (D ++ l) ->
  hoare (open_file_for_read (of_loc (D ++ l))) (fun f h' => Inv h' /\ handle_mine f /\ store h' = store h) (fun _ => Inv) h.
Proof.
  intros Hi Hl. unfold open_file_for_read. apply hoare_bind, hoare_quiet; [apply quiet_reject|done|]. intros _ h1 Hs.
  assert (Inv h1) as Hi1 by by eapply inv_same. apply hoare_with_err. eapply hoare_mono; [apply open_read_spec; [apply Hi1|by rewrite (same_store _ _ Hs)]|..]; cbv beta.
  - intros f h2 (Hf & _ & Es & _ & Eo). destruct Hi1 as (Hw & Hr & Hd & o & Ho & Hf'). split_and!.
    + unfold Inv. rewrite Es, Eo, Ho. split_and!; [done..|]. exists (o ++ [D ++ l]). split; [by rewrite app_assoc|].
      apply Forall_app. split; [done|]. constructor; [apply mine_prefix|done].
    + unfold handle_mine. rewrite Hf. apply mine_prefix.
    + by rewrite Es, (same_store _ _ Hs).
  - intros e h2 Hs2. by eapply inv_same.
Qed.
(** The check that comes before every call. *)
Lemma ensure_mine l h : Inv h ->
  hoare (ensure_no_symlink_components_at_root (of_loc R) (map Normal (t :: l))) (fun _ h' => same h h' /\ linkless (store h) (D ++ l)) (fun _ => same h) h.
Proof. intros Hi. rewrite mine_root. by apply ensure_root_spec. Qed.
Lemma hoare_ensure {B} l (f : unit -> host B) Q h : Inv h ->
  (forall h', same h h' -> Inv h' -> linkless (store h') (D ++ l) -> hoare (f tt) Q (fun _ => Inv) h') ->
  hoare (ensure_no_symlink_components_at_root (of_loc R) (map Normal (t :: l)) ≫= f) Q (fun _ => Inv) h.
Proof.
  intros Hi Hf. apply hoare_bind. eapply hoare_mono; [by apply ensure_mine|..]; cbv beta.
  - intros [] h' [Hs Hl]. apply Hf; [done|by eapply inv_same|by rewrite (same_store _ _ Hs)].
  - intros e h' Hs. by eapply inv_same.
Qed.
Lemma open_layout_write l h : Inv h -> hoare (open_layout_file_for_write layout_of (of_loc (D ++ l)))
  (fun f h' => Inv h' /\ loc f = D ++ l /\ at_loc (store h) (D ++ l) <> Some Directory /\ store h' = <[D ++ l := File []]> (store h)) (fun _ => Inv) h.
Proof.
  intros Hi. unfold open_layout_file_for_write. rewrite mine_root. apply hoare_relative, hoare_ensure; [done|].
  intros h' Hs Hi' Hl. rewrite <- mine_root, <- (same_store _ _ Hs). by apply open_for_write_spec.
Qed.
Lemma open_layout_write_spec p h : Inv h -> mine p -> hoare (open_layout_file_for_write layout_of p) (fun f h' => Inv h' /\ handle_mine f) (fun _ => Inv) h.
Proof.
  intros Hi [l ->]. eapply hoare_mono; [by apply open_layout_write| |done]. cbv beta. intros f h' (Hi' & Hf & _). split; [done|].
  unfold handle_mine. rewrite Hf. apply mine_prefix.
Qed.
Lemma open_layout_read_spec p h : Inv h -> mine p -> hoare (open_layout_file_for_read layout_of p) (fun f h' => Inv h' /\ handle_mine f) (fun _ => Inv) h.
Proof.
  intros Hi [l ->]. unfold open_layout_file_for_read. rewrite mine_root. apply hoare_relative, hoare_ensure; [done|].
  intros h' _ Hi' Hl. rewrite <- mine_root. eapply hoare_mono; [by apply open_for_read_spec|by intros ? ? (? & ? & _)|done].
Qed.
Lemma keeps_rename src dst : mine src -> mine dst -> keeps (rename_layout_path layout_of src dst).
Proof.
  intros [ls ->] [ld ->] h Hi. unfold rename_layout_path. rewrite !mine_root. apply hoare_relative, hoare_relative, hoare_ensure; [done|].
  intros h1 Hs1 Hi1 Hl1. apply hoare_ensure; [done|]. intros h2 Hs2 Hi2 Hl2. apply hoare_with_err. rewrite <- !mine_root.
  eapply hoare_mono; [apply rename_spec with (r := D); [apply Hi2|by rewrite (same_store _ _ Hs2)|done|apply mine_prefix|apply mine_prefix]|..]; cbv beta.
  - intros _ h3 Hc. by eapply inv_changed.
  - intros e h3 Hs3. by eapply inv_same.
Qed.
Lemma keeps_remove p : mine p -> keeps (remove_layout_path layout_of p).
Proof.
  intros [l ->] h Hi. unfold remove_layout_path. rewrite mine_root. apply hoare_relative, hoare_ensure; [done|]. intros h1 _ Hi1 Hl1. rewrite <- mine_root.
  apply hoare_bind, hoare_quiet; [apply quiet_attempt, symlink_metadata_quiet|done|]. intros [m|e] h2 Hs2.
  2: { assert (Inv h2) by by eapply inv_same. by destruct (not_found e). }
  assert (Inv h2) as Hi2 by by eapply inv_same. rewrite <- (same_store _ _ Hs2) in Hl1. destruct (is_symlink (node m)); [done|]. destruct (is_dir (node m)).
  - apply hoare_bind, hoare_get. apply hoare_bind, hoare_quiet; [apply quiet_tree|done|]. intros _ h3 Hs3. assert (Inv h3) as Hi3 by by eapply inv_same.
    apply hoare_with_err. rewrite <- (same_store _ _ Hs3) in Hl1.
    eapply hoare_mono; [apply remove_dir_all_spec; [apply Hi3|done]|..]; cbv beta; intros ? h4 Hc; (eapply inv_changed; [exact Hi3|apply mine_prefix|exact Hc]).
  - apply hoare_with_err. eapply hoare_mono; [apply remove_file_spec; [apply Hi2|done]|..]; cbv beta.
    + intros _ h3 Hc. eapply inv_changed; [exact Hi2|apply mine_prefix|exact Hc].
    + intros e h3 Hs3. by eapply inv_same.
Qed.
Lemma keeps_append f bs : handle_mine f -> keeps (io (append f bs)).
Proof.
  intros Hf h Hi. apply hoare_with_err. eapply hoare_mono; [apply append_spec, Hi|..]; cbv beta; intros ? h1 [Hc _]; by eapply inv_changed.
Qed.
Lemma keeps_try_append f bs : handle_mine f -> keeps (try_io (append f bs)).
Proof.
  intros Hf h Hi. apply hoare_attempt. eapply hoare_mono; [apply append_spec, Hi|..]; cbv beta.
  - intros _ h1 [Hc _]. by eapply inv_changed.
  - intros [e|] h1 [Hc _]; by eapply inv_changed.
Qed.
Lemma keeps_copy_loop fuel src dst : handle_mine dst -> keeps (copy_loop fuel src dst).
Proof.
  intros Hd. revert src. induction fuel as [|fuel IH]; intros src; cbn [copy_loop]; apply keeps_bind; try apply keeps_quiet, quiet_io, read_quiet;
    intros [[|b bs] f]; try (by apply keeps_quiet, quiet_ret); try (by apply keeps_quiet, quiet_lift).
  apply keeps_bind; [by apply keeps_append|done].
Qed.
Lemma keeps_copy_item fuel src dst : mine src -> mine dst -> keeps (copy_item fuel (of_loc R) src dst).
Proof.
  revert src dst. induction fuel as [|fuel IH]; intros src dst [ls ->] [ld ->] h Hi; cbn [copy_item];
    pose proof (mine_parent ld) as (k & Ek & Hk & _); rewrite Ek, strip_of_loc, !mine_root, !strip_of_loc.
  all: apply hoare_ensure; [done|]; intros h1 Hs1 Hi1 Hl1; apply hoare_ensure; [done|]; intros h2 Hs2 Hi2 Hl2; rewrite <- !mine_root.
  all: destruct (bool_decide _ || _); [done|]; apply hoare_bind, hoare_quiet; [apply quiet_io, symlink_metadata_quiet|done|]; intros m h3 Hs3.
  all: assert (Inv h3) as Hi3 by (by eapply inv_same); destruct (is_symlink (node m)); [done|]; destruct (is_dir (node m)).
  (* a directory *)
  1, 3: apply hoare_bind; rewrite <- ?mine_root; (eapply hoare_mono; [apply create_dir_all_spec; [done|apply inside_mine]| |done]); cbv beta; intros p h4 (Hi4 & _).
  1: done.
  1: apply hoare_bind, hoare_quiet; [apply quiet_io, read_dir_quiet|done|]; intros names h5 Hs5; apply keeps_each; [|by eapply inv_same];
     intros name; rewrite !push_normal, !of_loc_snoc, <- !app_assoc; apply IH; by eexists.
  (* a file *)
  all: destruct (is_file (node m)); [|done]; apply hoare_bind, hoare_bind; (eapply hoare_mono; [by apply create_dir_all_spec| |done]);
    cbv beta; intros p h4 (Hi4 & _ & _ & Hg%made_grown); apply hoare_ret, hoare_bind.
  all: rewrite <- (same_store _ _ Hs2) in Hl1; rewrite <- (same_store _ _ Hs3) in Hl1, Hl2.
  all: eapply hoare_mono; [apply open_for_read_spec; [done|by eapply grown_linkless]| |done]; cbv beta; intros f h5 (Hi5 & _ & Es5).
  all: apply hoare_bind; eapply hoare_mono; [apply open_for_write_spec; [done|rewrite Es5; by eapply grown_linkless]| |done]; cbv beta; intros g h6 (Hi6 & Hg6 & _).
  all: unfold copy; apply hoare_bind, hoare_get; apply keeps_copy_loop; [unfold handle_mine; rewrite Hg6; apply mine_prefix|done].
Qed.
Lemma mine_prune fuel p : p = None \/ (exists l, p = Some (of_loc l)) -> keeps (prune fuel layout_of p).
Proof.
  revert p. induction fuel as [|fuel IH]; intros p Hp h Hi; (destruct p as [p|]; [|by apply hoare_ret]); destruct Hp as [|[l [= ->]]]; try done; cbn [prune device_directory layout_of];
    (destruct (bool_decide (of_loc l = of_loc D)); [done|]); cbn [orb]; unfold starts_with; (destruct (bool_decide_reflect (of_loc D `prefix_of` of_loc l)) as [[k ->]%of_loc_prefix|]; [|done]);
    cbn [negb]; rewrite mine_root; apply hoare_relative, hoare_ensure; try done; intros h1 _ Hi1 Hl1; (apply hoare_bind, hoare_quiet; [apply quiet_io, read_dir_quiet|done|]);
    intros [|n ns] h2 Hs2; try (by eapply inv_same).
  assert (Inv h2) as Hi2 by by eapply inv_same. rewrite <- mine_root. rewrite <- (same_store _ _ Hs2) in Hl1.
  apply hoare_bind, hoare_with_err. eapply hoare_mono; [apply remove_dir_spec; [apply Hi2|done]|..]; cbv beta.
  - intros _ h3 Hc. assert (Inv h3) by (eapply inv_changed; [exact Hi2|apply mine_prefix|exact Hc]). apply IH; [|done].
    destruct (mine_parent k) as (k' & -> & _). right. by eexists.
  - intros e h3 Hs3. by eapply inv_same.
Qed.
Lemma keeps_cleanup paths : Forall mine paths -> keeps (cleanup_discarded_files layout_of paths).
Proof.
  unfold cleanup_discarded_files. induction 1 as [|p paths [l ->] _ IH]; cbn [each]; [apply keeps_quiet, quiet_ret|]. apply keeps_bind; [|done].
  intros h Hi. rewrite mine_root. apply hoare_relative, hoare_ensure; [done|]. intros h1 _ Hi1 Hl1. rewrite <- mine_root.
  apply hoare_bind, hoare_quiet; [apply quiet_attempt, symlink_metadata_quiet|done|]. intros [m|e] h2 Hs2.
  2: { assert (Inv h2) by by eapply inv_same. by destruct (not_found e). }
  assert (Inv h2) as Hi2 by by eapply inv_same. rewrite <- (same_store _ _ Hs2) in Hl1. destruct (is_symlink (node m)); [done|]. destruct (is_dir (node m)); [done|].
  apply hoare_bind, hoare_with_err. eapply hoare_mono; [apply remove_file_spec; [apply Hi2|done]|..]; cbv beta.
  - intros _ h3 Hc. assert (Inv h3) by (eapply inv_changed; [exact Hi2|apply mine_prefix|exact Hc]). apply mine_prune; [|done].
    destruct (mine_parent l) as (k' & -> & _). right. by eexists.
  - intros e h3 Hs3. by eapply inv_same.
Qed.

(** ** Files next to the backup's data *)

(** The directory itself is reached without links. *)
Definition Ready h : Prop := Inv h /\ linkless (store h) D.
Lemma ready_same h h' : Ready h -> same h h' -> Ready h'.
Proof. intros [Hi Hl] Hs. split; [by eapply inv_same|]. by rewrite (same_store _ _ Hs). Qed.
Lemma ready_changed l n h h' : Ready h -> changed (D ++ l ++ [n]) h h' -> Ready h'.
Proof.
  intros [Hi Hl] Hc. split; [eapply inv_changed; [exact Hi|apply mine_prefix|exact Hc]|]. intros k x Hk.
  destruct Hc as (_ & _ & _ & Hd). rewrite (differs_at _ _ _ _ Hd); [by apply Hl|]. intros H.
  apply (prefix_length) in H, Hk. rewrite !length_app in H. cbn in H. lia.
Qed.
Definition keeps_ready {A} (m : host A) : Prop := forall h, Ready h -> hoare m (fun _ => Ready) (fun _ => Inv) h.
Lemma keeps_ready_quiet {A} (m : host A) : quiet m -> keeps_ready m.
Proof. intros Hm h Hi. eapply hoare_mono; [apply Hm|..]; intros ? h' Hs; [by eapply ready_same|]. by apply (ready_same h h'). Qed.
Lemma keeps_ready_bind {A B} (m : host A) (f : A -> host B) : keeps_ready m -> (forall a, keeps_ready (f a)) -> keeps_ready (m ≫= f).
Proof. intros Hm Hf h Hi. apply hoare_bind. eapply hoare_mono; [by apply Hm| |done]. intros a h' Hi'. by apply Hf. Qed.

Lemma reject_loop_spec rel n cur h : wf (store h) -> linkless (store h) (cur ++ rel) -> (0 < length (cur ++ rel))%nat ->
  hoare (reject_loop (of_loc cur) (map Normal (rel ++ [n]))) (fun _ _ => linkless (store h) (cur ++ rel ++ [n])) (fun _ _ => True) h.
Proof.
  intros Hw Hl Hlen. remember (store h) as s eqn:Es. revert h cur Es Hl Hlen. induction rel as [|m rel IH]; intros h cur Es Hl Hlen; cbn [app map reject_loop].
  - rewrite push_normal, of_loc_snoc, app_nil_r in *. subst s. apply hoare_bind, look_spec; [done..| | |done].
    + intros md h' Hs Hm. destruct (is_symlink (node md)) eqn:Esl.
      * apply hoare_bind. eapply hoare_mono with (Q := fun b _ => b = false) (R := fun _ _ => True); [|intros b h2 ->; done|done].
        unfold is_approved_system_alias. destruct macos; [|done]. apply hoare_bind. eapply hoare_mono with (Q := fun _ _ => True) (R := fun _ _ => True); [|intros [x|] h2 _; [|done]|done].
        { unfold hoare. destruct (try_io _ h') as [? []]; done. }
        apply hoare_ret. cbn [existsb]. assert (forall a : bytes, bool_decide (of_loc (cur ++ [n]) = of_loc [a]) = false) as Ha.
        { intros a. apply bool_decide_false. intros H%of_loc_inj. apply (f_equal length) in H. rewrite length_app in H. cbn in H. lia. }
        change (components (str "/var")) with (of_loc [str "var"]). change (components (str "/tmp")) with (of_loc [str "tmp"]). change (components (str "/etc")) with (of_loc [str "etc"]).
        by rewrite !Ha.
      * apply hoare_ret. apply linkless_snoc; [done|]. intros x Hx. rewrite at_snoc in Hm. rewrite Hm in Hx. injection Hx as Hx. by rewrite Hx in Esl.
    + intros e h' Hs He. destruct (not_found e); [|done]. apply hoare_ret. apply linkless_snoc; [done|]. intros x Hx. rewrite <- at_snoc, He in Hx by done. done.
  - rewrite push_normal, of_loc_snoc. assert (cur ++ m :: rel = (cur ++ [m]) ++ rel) as E by (by rewrite <- app_assoc). subst s.
    assert (linkless (store h) cur) as Hcur by (eapply linkless_prefix; [exact Hl|by eexists]).
    assert (cur ++ m :: rel ++ [n] = (cur ++ [m]) ++ rel ++ [n]) as -> by (by rewrite <- app_assoc).
    apply hoare_bind, look_spec; [done..| | |done].
    + intros md h' Hs Hm. destruct (is_symlink (node md)) eqn:Esl.
      * exfalso. destruct (node md) eqn:En; try done. apply (Hl (cur ++ [m]) target); [rewrite E; by eexists|done].
      * rewrite E in Hl, Hlen. rewrite <- (same_store _ _ Hs) in *. by apply IH.
    + intros e h' Hs He. destruct (not_found e); [|done]. apply hoare_ret. specialize (He eq_refl).
      apply linkless_below with (l := cur ++ [m]); [done| |done|by eexists]. eapply linkless_prefix; [exact Hl|]. rewrite E. by eexists.
Qed.
Lemma reject_spec l n h : wf (store h) -> linkless (store h) l -> (0 < length l)%nat ->
  hoare (reject_symlink_components (of_loc (l ++ [n]))) (fun _ h' => same h h' /\ linkless (store h) (l ++ [n])) (fun _ => same h) h.
Proof.
  intros Hw Hl Hlen. eapply hoare_mono; [apply (hoare_and _ (fun _ => same h) (fun _ _ => linkless (store h) (l ++ [n])) (fun _ => same h) (fun _ _ => True));
    [apply quiet_reject|]|by intros ? ? []|by intros ? ? []].
  unfold reject_symlink_components. cbn [is_absolute of_loc]. apply hoare_bind, hoare_ret. cbn [reject_loop].
  change (push [] RootDir) with (of_loc []). apply hoare_bind, hoare_attempt.
  eapply hoare_mono; [apply (symlink_metadata_spec []); [done|by intros k x ->%prefix_nil_inv]|..]; cbv beta.
  - intros m h1 [Hs [= Hm]]. rewrite <- Hm. cbn [is_symlink]. rewrite <- (same_store _ _ Hs) in *. by apply (reject_loop_spec l n []).
  - intros [e|] h1 [Hs He]; [|done]. destruct (not_found e) eqn:Ee; [|done]. apply bool_decide_eq_true in Ee as ->. by specialize (He eq_refl).
Qed.
Lemma D_length : (0 < length D)%nat.
Proof. unfold D. rewrite length_app. cbn. lia. Qed.

(** The names of the files next to the data are plain. *)
Definition plain (name : string) : Prop := components (str name) = [Normal (str name)].
Lemma named_spec name : plain name -> named (of_loc D) name = of_loc (D ++ [str name]).
Proof. intros Hp. unfold named. rewrite Hp. apply (join_of_loc D [str name]). Qed.
Lemma open_named_write name h : plain name -> Ready h ->
  hoare (open_file_for_write (named (of_loc D) name)) (fun f h' => Ready h' /\ loc f = D ++ [str name]) (fun _ => Inv) h.
Proof.
  intros Hp [Hi Hl]. rewrite named_spec by done. unfold open_file_for_write. apply hoare_bind.
  eapply hoare_mono; [apply reject_spec; [apply Hi|done|apply D_length]| |intros e h1 Hs; by eapply inv_same]. cbv beta. intros _ h1 [Hs Hl1].
  assert (Ready h1) as Hr1 by (by apply (ready_same h h1)). apply hoare_with_err. rewrite <- (same_store _ _ Hs) in Hl1.
  eapply hoare_mono; [apply open_write_spec; [apply Hr1|done]|..]; cbv beta.
  - intros f h2 (Hc & Hf & _). split; [|done]. by apply (ready_changed [] (str name) h1).
  - intros e h2 Hs2. by apply (ready_same h1 h2).
Qed.
Lemma keeps_ready_write f name encoded : loc f = D ++ [str name] -> keeps_ready (write_plist f encoded).
Proof.
  intros Hf h Hr. unfold write_plist. destruct encoded as [bs|]; [|by apply Hr]. apply hoare_with_err. eapply hoare_mono; [apply append_spec, Hr|..]; cbv beta;
    intros ? h1 [Hc _]; rewrite Hf in Hc; by apply (ready_changed [] (str name) h).
Qed.
Lemma keeps_ready_remove name : plain name -> keeps_ready (io (remove_file (named (of_loc D) name))).
Proof.
  intros Hp h Hr. rewrite named_spec by done. apply hoare_with_err. destruct Hr as [Hi Hl].
  apply hoare_on_path; [intros f h' Hs; by apply (ready_same h h')|]. intros v.
  assert (passable false (store h) (D ++ [str name])) as Hpass by by apply passable_snoc.
  pose proof (resolve_passable false h (D ++ [str name]) (proj1 Hi) Hpass) as H.
  assert (forall v, Ready (set_verdicts v h)) as Hv by (intros v'; apply (ready_same h); [done|apply same_verdicts]).
  destruct (resolve false h (of_loc (D ++ [str name]))) as [k|e| | |]; try (by apply Hv). destruct H as [-> Hpar].
  destruct (at_loc (store h) (D ++ [str name])) as [x|] eqn:E; [|rewrite set_store_same; by apply Hv].
  destruct (is_dir x) eqn:Ex; [destruct x; try done; rewrite set_store_same; by apply Hv|].
  assert (Ready (set_verdicts v (set_store (delete (D ++ [str name]) (store h)) h))) as Hd.
  { apply (ready_changed [] (str name) h); [done|]. apply changed_store; [|apply differs_delete]. apply wf_delete; [apply Hi|]. intros m.
    rewrite at_snoc in E. apply (wf_leaf _ _ x); [apply Hi|apply snoc_not_nil|done|by intros ->]. }
  by destruct x.
Qed.
Lemma plain_info : plain "Info.plist". Proof. reflexivity. Qed.
Lemma plain_status : plain "Status.plist". Proof. reflexivity. Qed.
Lemma plain_manifest : plain "Manifest.plist". Proof. reflexivity. Qed.
Lemma quiet_validate_seed p : quiet (validate_seed_file_path p).
Proof. unfold validate_seed_file_path. quiet_all. Qed.
Lemma quiet_required_files d names : quiet (required_files d names).
Proof. induction names as [|n names IH]; cbn [required_files]; quiet_all. Qed.
Lemma quiet_manifest_files d b names : quiet (manifest_files d b names).
Proof. revert b. induction names as [|n names IH]; intros b; cbn [manifest_files]; quiet_all. Qed.
#[local] Hint Resolve quiet_validate_seed quiet_required_files quiet_manifest_files : quiet.
Lemma quiet_full b d : quiet (should_do_full_backup b d).
Proof. unfold should_do_full_backup, has_incremental_backup_metadata. quiet_all. Qed.
#[local] Hint Resolve quiet_full : quiet.
Lemma keeps_ready_open name : plain name -> keeps_ready (open_file_for_write (named (of_loc D) name) ;; mret tt).
Proof. intros Hp h Hr. apply hoare_bind. eapply hoare_mono; [by apply open_named_write| |done]. cbv beta. intros f h1 [Hr1 _]. by apply hoare_ret. Qed.
Lemma keeps_ready_open_write name encoded : plain name -> keeps_ready (f ← open_file_for_write (named (of_loc D) name); write_plist f encoded).
Proof.
  intros Hp h Hr. apply hoare_bind. eapply hoare_mono; [by apply open_named_write| |done]. cbv beta. intros f h1 [Hr1 Hf]. by eapply keeps_ready_write.
Qed.
Lemma keeps_ready_seed `{PC : PlistCodec} now uuid info full : keeps_ready (seed_files now uuid (of_loc D) info full).
Proof.
  unfold seed_files. apply keeps_ready_bind; [apply keeps_ready_quiet, quiet_each; intros; apply quiet_validate_seed|intros _].
  apply keeps_ready_bind; [apply keeps_ready_quiet, quiet_full|intros full'].
  intros h Hr. apply hoare_bind. eapply hoare_mono; [by apply open_named_write, Hr| |done]. cbv beta. intros f h1 [Hr1 Hf]. revert h1 Hr1.
  apply keeps_ready_bind; [by eapply keeps_ready_write|intros _]. apply keeps_ready_bind; [apply keeps_ready_quiet, quiet_attempt, symlink_metadata_quiet|intros st].
  apply keeps_ready_bind; [destruct (full' || _); [by apply keeps_ready_open_write|apply keeps_ready_quiet, quiet_ret]|intros _].
  apply keeps_ready_bind; [apply keeps_ready_quiet, quiet_attempt, symlink_metadata_quiet|intros mf].
  apply keeps_ready_bind.
  - destruct mf as [m|e]; [|destruct (not_found e); apply keeps_ready_quiet; quiet_all].
    destruct (is_symlink (node m)); [apply keeps_ready_quiet; quiet_all|]. destruct full'; [|apply keeps_ready_quiet, quiet_ret].
    apply keeps_ready_bind; [by apply keeps_ready_remove|intros _]. apply keeps_ready_quiet, quiet_ret.
  - intros [|]; [by apply keeps_ready_open|apply keeps_ready_quiet, quiet_ret].
Qed.

(** *** Reading the backup's property lists *)

Lemma keeps_open_checked p h : Inv h -> checked h p -> hoare (open_file_for_read p) (fun _ => Inv) (fun _ => Inv) h.
Proof. intros Hi (l & -> & Hl). eapply hoare_mono; [by apply open_for_read_spec| |done]. by intros f h' (? & _). Qed.
Lemma quiet_read_all fuel f got : quiet (read_all fuel f got).
Proof.
  revert f got. induction fuel as [|fuel IH]; intros f got; cbn [read_all]; (apply quiet_bind; [intros h; apply hoare_with_err, read_quiet|intros [[|b bs] f']]);
    try apply quiet_ret; [apply quiet_lift|apply IH].
Qed.
Lemma quiet_from_reader `{PC : PlistCodec} f : quiet (from_reader f).
Proof. unfold from_reader. apply quiet_bind; [intros h; apply same_refl|intros h]. apply quiet_bind; [apply quiet_read_all|intros bs]. quiet_all. Qed.
Lemma hoare_read_dictionary `{PC : PlistCodec} p h : Inv h -> checked h p -> hoare (read_backup_dictionary p) (fun _ => Inv) (fun _ => Inv) h.
Proof.
  intros Hi Hc. unfold read_backup_dictionary. apply hoare_bind.
  assert (forall f : Handle, keeps (v ← from_reader f; match as_dictionary v with Some d => mret d | None => protocol "expected plist dictionary in backup metadata file {}" end)) as Hrest.
  { intros f. apply keeps_quiet, quiet_bind; [apply quiet_from_reader|intros v]. quiet_all. }
  unfold open_backup_metadata_for_read. apply hoare_bind. eapply hoare_mono; [by apply keeps_open_checked| |done]. cbv beta. intros f h1 Hi1.
  apply hoare_bind, hoare_get. destruct (_ <? _); [done|]. apply hoare_ret. by apply Hrest.
Qed.
Lemma metadata_path_spec name h : Inv h -> plain name ->
  hoare (metadata_file_path (of_loc R) t name) (fun p h' => same h h' /\ checked h p) (fun _ => same h) h.
Proof.
  intros Hi Hp. unfold metadata_file_path. apply hoare_bind. apply hoare_lift; [|intros; apply same_refl]. intros [] Hv%validate_ok.
  apply hoare_bind. eapply hoare_mono; [by apply canonical_root_spec| |done]. cbv beta. intros p h1 [Hs1 ->]. assert (Inv h1) as Hi1 by by eapply inv_same.
  unfold named, safe_path_from_root. rewrite Hv, Hp. change (join [Normal t] [Normal (str name)]) with (map Normal [t; str name]).
  apply hoare_bind, hoare_bind. eapply hoare_mono; [by apply ensure_mine| |intros e h2 Hs2; exact (same_trans _ _ _ Hs1 Hs2)]. cbv beta. intros _ h2 [Hs2 Hl2].
  apply hoare_ret. rewrite join_of_loc. apply hoare_bind. unfold check_metadata_file.
  assert (same h h2) as Hs by exact (same_trans _ _ _ Hs1 Hs2).
  eapply hoare_mono; [apply (quiet_bind (io (symlink_metadata (of_loc (R ++ [t; str name]))))); [apply quiet_io, symlink_metadata_quiet|intros m; quiet_all]|..]; cbv beta.
  - intros _ h3 Hs3. apply hoare_ret. split; [exact (same_trans _ _ _ Hs Hs3)|]. exists [str name]. rewrite mine_root. split; [done|].
    rewrite mine_root in Hl2. by rewrite <- (same_store _ _ Hs1).
  - intros e h3 Hs3. exact (same_trans _ _ _ Hs Hs3).
Qed.
End layout.
Lemma quiet_ensure_backup root id : quiet (ensure_backup_directory root id).
Proof.
  unfold ensure_backup_directory, safe_path_from_root. apply quiet_bind; [apply quiet_canonical_root|intros r]. apply quiet_bind; [apply quiet_lift|intros _].
  apply quiet_bind; [quiet_all|intros d]. apply quiet_each. intros name. quiet_all.
Qed.

(** ** Making the layout *)

(** From [h] to [h'] at most the directories of the path [p] were made; then only what is at the
    location it leads to, under the name [t], has changed or was opened. *)
Definition confined (p : PathBuf) (t : bytes) h h' : Prop := exists s1, grown (store h) s1 /\
  ((store h' = s1 /\ opened h' = opened h) \/
   exists R, resolve true (set_store s1 h) p = Ok R /\ differs (R ++ [t]) s1 (store h') /\
     exists o, opened h' = opened h ++ o /\ Forall (fun l => R ++ [t] `prefix_of` l) o).
(** The layout is one of such a location. *)
Definition laid (p : PathBuf) (t : bytes) h (layout : BackupDirectoryLayout) h' : Prop := exists s1 R, grown (store h) s1 /\
  resolve true (set_store s1 h) p = Ok R /\ layout = layout_of R t /\ Inv R t s1 (opened h) h'.
Lemma confined_laid p t h R s1 h' : grown (store h) s1 -> resolve true (set_store s1 h) p = Ok R -> Inv R t s1 (opened h) h' -> confined p t h h'.
Proof. intros Hg Hr (_ & _ & Hd & Ho). exists s1. split; [done|]. right. by exists R. Qed.
Lemma confined_roomier p t h h' : roomier h h' -> confined p t h h'.
Proof. intros (Hg & _ & _ & Ho). exists (store h'). split; [done|]. by left. Qed.

Lemma resolve_host follow h h' p : store h' = store h -> cwd h' = cwd h -> resolve follow h' p = resolve follow h p.
Proof. unfold resolve. by intros -> ->. Qed.
Lemma canonicalize_resolved p h : wf (store h) -> at_loc (store h) (cwd h) = Some Directory ->
  hoare (canonicalize p) (fun q h' => same h h' /\ exists l, q = of_loc l /\ linkless (store h) l /\ resolve true h p = Ok l) (fun _ => same h) h.
Proof.
  intros Hw Hc. apply hoare_on_path; [done|]. intros v. destruct (resolve true h p) as [k|e| | |] eqn:E; try done.
  destruct (at_loc (store h) k) eqn:Ek; rewrite set_store_same; [|done]. split; [done|]. exists k. split_and!; [done| |done]. by eapply resolve_followed.
Qed.
Lemma create_root_spec p t h : wf (store h) -> at_loc (store h) (cwd h) = Some Directory ->
  hoare (create_root p) (fun q h' => exists R, q = of_loc R /\ roomier h h' /\ resolve true h' p = Ok R /\ linkless (store h') R)
    (fun _ => confined p t h) h.
Proof.
  intros Hw Hc. unfold create_root.
  assert (forall h', same h h' -> confined p t h h') as Hsame by (intros; by apply confined_roomier, roomier_same).
  apply hoare_bind. eapply hoare_mono; [apply quiet_reject| |intros e h1 H1; by apply Hsame]. cbv beta. intros _ h1 H1.
  assert (wf (store h1) /\ at_loc (store h1) (cwd h1) = Some Directory) as [Hw1 Hc1] by (destruct H1 as (-> & -> & _); done).
  assert (roomier h h1) as G1 by by apply roomier_same.
  apply hoare_bind, hoare_with_err. eapply hoare_mono; [by apply create_dir_all_any| |intros e h2 H2; apply confined_roomier; by eapply roomier_trans].
  cbv beta. intros _ h2 H2. assert (roomier h h2) as G2 by by eapply roomier_trans.
  assert (wf (store h2) /\ at_loc (store h2) (cwd h2) = Some Directory) as [Hw2 Hc2].
  { destruct G2 as (Hg & Hw' & Ec & _). split; [done|]. rewrite Ec. by eapply grown_dir. }
  assert (forall h', same h2 h' -> roomier h h') as Hroom by (intros h' H'; eapply roomier_trans; [exact G2|by apply roomier_same]).
  unfold canonical_backup_root. apply hoare_bind. eapply hoare_mono; [apply quiet_reject| |intros e h3 H3; by apply confined_roomier, Hroom].
  cbv beta. intros _ h3 H3. assert (wf (store h3) /\ at_loc (store h3) (cwd h3) = Some Directory) as [Hw3 Hc3] by (destruct H3 as (-> & -> & _); done).
  apply hoare_with_err. eapply hoare_mono; [by apply canonicalize_resolved|..]; cbv beta.
  - intros q h4 [H4 (R & -> & Hl & Hr)]. exists R. split; [done|]. split; [apply Hroom; exact (same_trans _ _ _ H3 H4)|].
    destruct H4 as (Es & Ec & _). rewrite (resolve_host _ h3), Es; done.
  - intros e h4 H4. apply confined_roomier, Hroom. exact (same_trans _ _ _ H3 H4).
Qed.
(** What both ways of making a layout have in common. *)
Lemma layout_spec p t (rest : PathBuf -> host unit) h : wf (store h) -> at_loc (store h) (cwd h) = Some Directory ->
  (forall R s1, keeps_ready R t s1 (opened h) (rest (of_loc (R ++ [t])))) ->
  hoare (st_lift (validate_backup_identifier t) ;; root ← create_root p; device_directory ← create_dir_all_no_symlink root (components t);
         rest device_directory ;; mret (mkLayout root device_directory t)) (laid p t h) (fun _ => confined p t h) h.
Proof.
  intros Hw Hc Hrest. assert (confined p t h h) as Hself by (apply confined_roomier, roomier_same; [done|apply same_refl]).
  apply hoare_bind. apply hoare_lift; [|done]. intros [] Hv%validate_ok. rewrite Hv.
  apply hoare_bind. eapply hoare_mono; [by apply (create_root_spec p t)| |done]. cbv beta. intros q h1 (R & -> & (Hg & Hw1 & Ec & Eo) & Hr & Hl).
  assert (resolve true (set_store (store h1) h) p = Ok R) as Hr' by (rewrite <- Hr; by apply resolve_host).
  assert (Inv R t (store h1) (opened h) h1) as Hi1.
  { unfold Inv. split_and!; try done. exists []. by rewrite app_nil_r. }
  assert (forall h', Inv R t (store h1) (opened h) h' -> confined p t h h') as Hconf by (intros h' Hi; by eapply confined_laid).
  apply hoare_bind. eapply hoare_mono; [apply (create_dir_all_spec R t (store h1) (opened h) [t]); [done|apply inside_mine]| |intros e h2 Hi2; by apply Hconf].
  cbv beta. intros q h2 (Hi2 & -> & Hl2 & _). apply hoare_bind. eapply hoare_mono; [by apply Hrest| |intros e h3 Hi3; by apply Hconf].
  cbv beta. intros _ h3 [Hi3 _]. apply hoare_ret. by exists (store h1), R.
Qed.
Lemma initialize_spec `{PC : PlistCodec} now uuid p t info full h : wf (store h) -> at_loc (store h) (cwd h) = Some Directory ->
  hoare (initialize_backup_directory now uuid p t info full) (laid p t h) (fun _ => confined p t h) h.
Proof. intros Hw Hc. apply (layout_spec p t (fun d => seed_files now uuid d info full)); [done..|]. intros R s1. apply keeps_ready_seed. Qed.
Lemma runtime_layout_spec p t h : wf (store h) -> at_loc (store h) (cwd h) = Some Directory ->
  hoare (create_runtime_layout p t) (laid p t h) (fun _ => confined p t h) h.
Proof.
  intros Hw Hc. pose proof (layout_spec p t (fun _ => mret tt) h Hw Hc) as H. unfold create_runtime_layout.
  apply H. intros R s1. apply keeps_ready_quiet, quiet_ret.
Qed.

(** ** The client stays in the directory *)

Import Net Socket Filter Transfer Backup.

Section client.
Context {PC : PlistCodec} {RE : RegexEngine} (free_bytes_at : Store -> Loc -> Z) (error_text : io_err -> bytes).
Abbreviation client := (st Client Mobilebackup2Error).

Section session.
Context (R : Loc) (t : bytes) (s0 : Store) (o0 : list Loc) (tracked : bool).
#[local] Abbreviation Inv := (Inv R t s0 o0).
#[local] Abbreviation mine := (mine R t).
#[local] Abbreviation layout := (layout_of R t).
(** The placeholders to remove are in the directory too, in a session that keeps track of them. *)
Definition CI (c : Client) : Prop := Inv (disk c) /\ (tracked = true -> Forall mine (discarded_files c)).
Definition ckeeps {A} (m : client A) : Prop := forall c, CI c -> hoare m (fun _ => CI) (fun _ => CI) c.

Lemma ckeeps_ret {A} (a : A) : ckeeps (mret a).
Proof. by intros c Hc. Qed.
Lemma ckeeps_fail {A} e : ckeeps (st_fail e : client A).
Proof. by intros c Hc. Qed.
Lemma ckeeps_lift {A} (o : outcome Mobilebackup2Error A) : ckeeps (st_lift o).
Proof. intros c Hc. by apply hoare_lift. Qed.
Lemma ckeeps_bind {A B} (m : client A) (f : A -> client B) : ckeeps m -> (forall a, ckeeps (f a)) -> ckeeps (m ≫= f).
Proof. intros Hm Hf c Hc. apply hoare_bind. eapply hoare_mono; [by apply Hm| |done]. intros a c' Hc'. by apply Hf. Qed.
Lemma ckeeps_get {B} (f : Client -> client B) : (forall c, CI c -> hoare (f c) (fun _ => CI) (fun _ => CI) c) -> ckeeps (st_get ≫= f).
Proof. intros Hf c Hc. apply hoare_bind, hoare_get. by apply Hf. Qed.
Lemma ckeeps_mod f : (forall c, CI c -> CI (f c)) -> ckeeps (st_mod f).
Proof. intros Hf c Hc. by apply Hf. Qed.
Lemma ckeeps_link {A} (m : DeviceLink.link A) : ckeeps (on_link m).
Proof. intros c Hc. apply hoare_zoom, hoare_with_err. unfold hoare. by destruct (m (link c)) as [s []]. Qed.
Lemma ckeeps_stream {A} (m : stream A) : ckeeps (on_stream m).
Proof. intros c Hc. apply hoare_zoom. unfold hoare. by destruct (m (link c)) as [s []]. Qed.
Lemma ckeeps_disk {A} (m : host A) : keeps R t s0 o0 m -> ckeeps (on_disk m).
Proof. intros Hm c [Hi Hf]. apply hoare_zoom. eapply hoare_mono; [by apply Hm|..]; intros ? h' Hi'; by split. Qed.
Lemma ckeeps_attempt {A} (m : client A) : ckeeps m -> ckeeps (attempt (E' := Mobilebackup2Error) m).
Proof. intros Hm c Hc. apply hoare_attempt. eapply hoare_mono; [by apply Hm|done|]. by intros [e|]. Qed.
(** A value of the file system that a fact holds of. *)
Lemma ckeeps_disk_bind {A B} (m : host A) (P : A -> Prop) (f : A -> client B) :
  (forall h, Inv h -> hoare m (fun a h' => Inv h' /\ P a) (fun _ => Inv) h) -> (forall a, P a -> ckeeps (f a)) -> ckeeps (on_disk m ≫= f).
Proof.
  intros Hm Hf c [Hi Hd]. apply hoare_bind, hoare_zoom. eapply hoare_mono; [by apply Hm|..]; cbv beta.
  - intros a h' [Hi' Ha]. by apply Hf.
  - intros e h' Hi'. by split.
Qed.
Lemma ckeeps_resolve {B} rel (f : PathBuf -> client B) : (forall p, mine p -> ckeeps (f p)) -> ckeeps (on_disk (resolve_relative_path layout rel) ≫= f).
Proof.
  intros Hf. apply ckeeps_disk_bind with (P := mine); [|done]. intros h Hi. eapply hoare_mono; [by apply (resolve_spec R t s0 o0)|..]; cbv beta.
  - intros p h' [Hs (l & -> & _)]. split; [by eapply inv_same|by eexists].
  - intros e h' Hs. by eapply inv_same.
Qed.
Lemma ckeeps_quiet {A} (m : host A) : quiet m -> ckeeps (on_disk m).
Proof. intros Hm. by apply ckeeps_disk, keeps_quiet. Qed.
Lemma ckeeps_ok_or {A} (o : option A) s : ckeeps (ok_or o s).
Proof. destruct o; [apply ckeeps_ret|apply ckeeps_fail]. Qed.
Create HintDb ckeeps.
#[local] Hint Resolve ckeeps_ret ckeeps_fail ckeeps_lift ckeeps_link ckeeps_stream ckeeps_ok_or ckeeps_attempt ckeeps_quiet : ckeeps.
Ltac ckeeps_step :=
  lazymatch goal with
  | |- ckeeps (on_disk (resolve_relative_path _ _) ≫= _) => apply ckeeps_resolve; intros ? ?
  | |- ckeeps (st_get ≫= _) => apply ckeeps_get; intros ? ?
  | |- ckeeps (mbind _ _) => apply ckeeps_bind; [|intros ?]
  | |- ckeeps (match ?c with _ => _ end) => destruct c
  | |- hoare _ (fun _ => CI) (fun _ => CI) ?c => revert c; let c := fresh in let H := fresh in enough (ckeeps _) as H by (intros c; exact (H c))
  | |- _ => progress unfold protocol, string_at || solve [eauto with ckeeps]
  end.
Ltac ckeeps_all := cbv beta zeta; repeat (ckeeps_step; cbv beta zeta).

Lemma ckeeps_account_file : ckeeps account_transfer_file.
Proof. apply ckeeps_get. intros c Hc. destruct (_ <? _); [done|]. apply hoare_bind, hoare_mod. by destruct (_ <? _). Qed.
Lemma ckeeps_account_bytes n : ckeeps (account_transfer_bytes n).
Proof. apply ckeeps_get. intros c Hc. destruct (_ <? _); [done|]. apply hoare_bind, hoare_mod. by destruct (_ <? _). Qed.
#[local] Hint Resolve ckeeps_account_file ckeeps_account_bytes : ckeeps.
Lemma ckeeps_report : ckeeps report_write_error.
Proof. apply ckeeps_get. intros c Hc. destruct (write_error c); [|done]. by apply hoare_bind, hoare_mod. Qed.
Lemma ckeeps_write_file f bs : handle_mine R t f -> ckeeps (write_file f bs).
Proof.
  intros Hf. unfold write_file. apply ckeeps_bind; [apply ckeeps_report|intros _].
  apply ckeeps_bind; [by apply ckeeps_disk, keeps_try_append|]. intros [_|e]; [apply ckeeps_ret|]. by apply ckeeps_mod.
Qed.
Lemma ckeeps_copy_payload fuel f n : handle_mine R t f -> ckeeps (copy_payload_loop fuel f n).
Proof.
  intros Hf. revert n. induction fuel as [|fuel IH]; intros n; cbn [copy_payload_loop]; (destruct (n <=? 0); [apply ckeeps_ret|]); [apply ckeeps_lift|].
  apply ckeeps_bind; [apply ckeeps_stream|intros bs]. apply ckeeps_bind; [by apply ckeeps_write_file|done].
Qed.
Lemma ckeeps_frames fuel file : (forall f, file = Some f -> handle_mine R t f) -> ckeeps (receive_frames fuel file).
Proof.
  intros Hf. induction fuel as [|fuel IH]; cbn [receive_frames]; [apply ckeeps_lift|]. ckeeps_all. by apply ckeeps_copy_payload, Hf.
Qed.
Lemma ckeeps_files fuel : ckeeps (receive_files fuel layout).
Proof.
  induction fuel as [|fuel IH]; cbn [receive_files]; [apply ckeeps_lift|]. apply ckeeps_bind; [apply ckeeps_stream|intros device_name].
  destruct (bool_decide _); [apply ckeeps_ret|]. apply ckeeps_bind; [apply ckeeps_account_file|intros _]. apply ckeeps_bind; [apply ckeeps_stream|intros file_name].
  apply ckeeps_resolve. intros p Hp. apply ckeeps_bind; [by apply ckeeps_disk, keeps_create_parent|intros _]. apply ckeeps_get. intros c.
  set (preserve := match backup_filter c with Some _ => _ | None => _ end). clearbody preserve. revert c.
  apply (ckeeps_disk_bind _ (handle_mine R t)); [intros h Hi; by apply open_layout_write_spec|]. intros f Hf.
  apply ckeeps_bind; [destruct preserve; [by apply ckeeps_mod|]|intros _].
  - apply ckeeps_mod. intros c [Hi Hd]. split; [done|]. intros Ht. apply Forall_app. split; [by apply Hd|]. by constructor.
  - apply ckeeps_get. intros c. revert c. enough (forall n, ckeeps (receive_frames n (if preserve then Some f else None) ;; (if preserve then flush_file else mret tt) ;; receive_files fuel layout)) as H by (intros c; by apply H).
    intros n. apply ckeeps_bind; [apply ckeeps_frames; intros g Hg; destruct preserve; [by injection Hg as <-|done]|intros _].
    apply ckeeps_bind; [destruct preserve; [apply ckeeps_report|apply ckeeps_ret]|done].
Qed.
Lemma ckeeps_receive : ckeeps (receive_uploaded_files layout).
Proof. apply ckeeps_get. intros c Hc. by apply ckeeps_files. Qed.

(** The placeholders follow the moves and copies. *)
Lemma mine_relocated src dst p d : mine src -> mine dst -> mine p -> moves_with src d p = true -> mine (relocated src dst p).
Proof.
  intros [ls ->] [ld ->] [lp ->] Hm. unfold relocated. unfold moves_with, starts_with in Hm.
  assert (of_loc ((R ++ [t]) ++ ls) `prefix_of` of_loc ((R ++ [t]) ++ lp)) as [k Hk]%of_loc_prefix.
  { apply orb_prop in Hm as [->%bool_decide_eq_true|[_ ?%bool_decide_eq_true]%andb_prop]; done. }
  rewrite Hk, strip_of_loc. cbn [from_option id]. unfold id. exists (ld ++ k). by rewrite join_of_loc, <- app_assoc.
Qed.
Lemma ckeeps_relocate src dst d : mine src -> mine dst -> ckeeps (relocate_discarded_files src dst d).
Proof.
  intros Hs Hd. apply ckeeps_mod. intros c [Hi Hf]. split; [done|]. intros Ht. specialize (Hf Ht). cbn [discarded_files set_discarded]. apply Forall_map.
  eapply Forall_impl; [exact Hf|]. intros p Hp. cbn. destruct (moves_with src d p) eqn:E; [by eapply mine_relocated|done].
Qed.
Lemma ckeeps_copied src dst d : mine src -> mine dst -> ckeeps (copy_discarded_files src dst d).
Proof.
  intros Hs Hd. apply ckeeps_mod. intros c [Hi Hf]. split; [done|]. intros Ht. specialize (Hf Ht). cbn [discarded_files set_discarded]. apply Forall_app. split; [done|].
  apply Forall_map, Forall_forall. intros p [Hp Hm]%list_elem_of_In%filter_In. apply list_elem_of_In in Hp. eapply mine_relocated; [done..| |exact Hm].
  by eapply Forall_forall in Hf.
Qed.
Lemma ckeeps_forget target : ckeeps (forget_discarded_files target).
Proof.
  apply ckeeps_mod. intros c [Hi Hf]. split; [done|]. intros Ht. specialize (Hf Ht). cbn [discarded_files set_discarded]. apply Forall_forall. intros p [Hp _]%list_elem_of_In%filter_In.
  apply list_elem_of_In in Hp. by eapply Forall_forall in Hf.
Qed.
Lemma ckeeps_send_ok : ckeeps send_ok.
Proof. apply ckeeps_link. Qed.
Lemma ckeeps_status code m v : ckeeps (send_status_response code m v).
Proof. apply ckeeps_link. Qed.
#[local] Hint Resolve ckeeps_send_ok ckeeps_status : ckeeps.

Lemma ckeeps_contents fuel rel f failures : ckeeps (send_contents error_text fuel rel f failures).
Proof.
  revert f failures. induction fuel as [|fuel IH]; intros f failures; cbn [send_contents];
    (apply ckeeps_bind; [apply ckeeps_quiet, quiet_attempt, read_quiet|intros [[[|b bs] f']|e]]); ckeeps_all; apply IH.
Qed.
Lemma ckeeps_send_file rel failures : ckeeps (send_file error_text layout rel failures).
Proof.
  unfold send_file. apply ckeeps_resolve. intros p Hp. apply ckeeps_bind; [apply ckeeps_account_file|intros _]. apply ckeeps_bind; [apply ckeeps_stream|intros _].
  apply ckeeps_bind.
  - apply ckeeps_disk. intros h Hi. apply hoare_attempt. eapply hoare_mono; [by apply open_layout_read_spec|by intros f h' [? _]|by intros [e|]].
  - intros [f|[]]; try (by apply ckeeps_fail); [apply ckeeps_get; intros c; revert c; enough (forall n, ckeeps (send_contents error_text n rel f failures)) as H by (intros c; apply H); intros n; apply ckeeps_contents|].
    ckeeps_all.
Qed.
Lemma ckeeps_send_files files failures : ckeeps (send_files error_text layout files failures).
Proof.
  revert failures. induction files as [|v files IH]; intros failures; cbn [send_files]; [apply ckeeps_ret|].
  apply ckeeps_bind; [apply ckeeps_ok_or|intros rel]. apply ckeeps_bind; [apply ckeeps_send_file|done].
Qed.
Lemma ckeeps_requested files : ckeeps (send_requested_files error_text layout files).
Proof. unfold send_requested_files. apply ckeeps_bind; [apply ckeeps_send_files|intros failures]. ckeeps_all. Qed.

Lemma ckeeps_filtered p : ckeeps (filtered_out p).
Proof.
  apply ckeeps_get. intros c. destruct (backup_filter c); [|by apply ckeeps_ret]. revert c. apply ckeeps_quiet. unfold is_missing.
  apply quiet_bind; [apply quiet_attempt, symlink_metadata_quiet|intros; apply quiet_ret].
Qed.
Lemma ckeeps_is_directory p : ckeeps (is_directory p).
Proof. apply ckeeps_bind; [apply ckeeps_quiet, quiet_io, symlink_metadata_quiet|intros; apply ckeeps_ret]. Qed.
Lemma ckeeps_move src dst : ckeeps (move_item layout src dst).
Proof.
  unfold move_item. apply ckeeps_bind; [apply ckeeps_ok_or|intros d]. apply ckeeps_resolve. intros ps Hs. apply ckeeps_resolve. intros pd Hd.
  apply ckeeps_bind; [apply ckeeps_filtered|intros [|]]; [apply ckeeps_ret|]. apply ckeeps_bind; [by apply ckeeps_disk, keeps_create_parent|intros _].
  apply ckeeps_bind; [apply ckeeps_is_directory|intros b]. apply ckeeps_bind; [by apply ckeeps_disk, keeps_rename|intros _]. by apply ckeeps_relocate.
Qed.
Lemma ckeeps_moves items : ckeeps (move_items layout items).
Proof. induction items as [|[src dst] items IH]; cbn [move_items]; [apply ckeeps_ret|]. apply ckeeps_bind; [apply ckeeps_move|done]. Qed.
Lemma ckeeps_removes items : ckeeps (remove_items layout items).
Proof.
  induction items as [|item items IH]; cbn [remove_items]; [apply ckeeps_ret|]. apply ckeeps_bind; [|done]. unfold remove_item.
  apply ckeeps_bind; [apply ckeeps_ok_or|intros rel]. apply ckeeps_resolve. intros p Hp. apply ckeeps_bind; [by apply ckeeps_disk, keeps_remove|intros _]. apply ckeeps_forget.
Qed.
Lemma ckeeps_copy src dst : ckeeps (copy_request layout src dst).
Proof.
  unfold copy_request. apply ckeeps_resolve. intros ps Hs. apply ckeeps_resolve. intros pd Hd.
  apply ckeeps_bind; [apply ckeeps_filtered|intros [|]]; [apply ckeeps_send_ok|]. apply ckeeps_bind; [apply ckeeps_is_directory|intros b].
  apply ckeeps_get. intros c. generalize (S (depth (store (disk c)))). intros n. revert c. apply ckeeps_bind; [by apply ckeeps_disk, keeps_copy_item|intros _].
  apply ckeeps_bind; [by apply ckeeps_copied|intros _]. apply ckeeps_send_ok.
Qed.
Lemma ckeeps_purge parts : ckeeps (purge_request parts).
Proof. apply ckeeps_get. intros c. generalize (derive_required_free_space (reported_free_space c) (and_then (parts !! 1%nat) Number.plist_number_to_u64)). intros o. revert c.
  apply ckeeps_bind; [by apply ckeeps_mod|intros _]. apply ckeeps_link. Qed.
Lemma ckeeps_process parts : ckeeps (process_message parts).
Proof.
  unfold process_message. apply ckeeps_bind; [apply ckeeps_ok_or|intros payload]. apply ckeeps_bind; [apply ckeeps_ok_or|intros code].
  destruct (negb _); [|apply ckeeps_ret]. apply ckeeps_get. intros c Hc. by destruct (code =? _).
Qed.
Lemma ckeeps_handle m : ckeeps (handle free_bytes_at error_text layout m).
Proof.
  unfold handle. apply ckeeps_bind; [apply ckeeps_ok_or|intros parts]. apply ckeeps_bind; [apply ckeeps_ok_or|intros command]. cbv zeta.
  repeat match goal with |- ckeeps (if ?c then _ else _) => destruct c end; try (apply ckeeps_bind; [|intros; apply ckeeps_ret]).
  - apply ckeeps_process.
  - apply ckeeps_bind; [apply ckeeps_ok_or|intros path]. apply ckeeps_resolve. intros p Hp. apply ckeeps_bind; [by apply ckeeps_disk, keeps_create_layout|intros _]. apply ckeeps_send_ok.
  - apply ckeeps_bind; [apply ckeeps_receive|intros _]. apply ckeeps_send_ok.
  - apply ckeeps_bind; [apply ckeeps_ok_or|intros files]. apply ckeeps_bind; [apply ckeeps_requested|intros [[] ?]]. apply ckeeps_status.
  - apply ckeeps_bind; [|intros n; apply ckeeps_bind; [by apply ckeeps_mod|intros _; apply ckeeps_status]]. apply ckeeps_quiet, quiet_io. unfold available_space.
    apply quiet_bind; [apply path_is_dir_quiet|intros d]. apply quiet_on_path. intros l s. by destruct (at_loc s l).
  - apply ckeeps_bind; [apply ckeeps_ok_or|intros items]. apply ckeeps_bind; [apply ckeeps_moves|intros _]. apply ckeeps_send_ok.
  - apply ckeeps_bind; [apply ckeeps_ok_or|intros items]. apply ckeeps_bind; [apply ckeeps_removes|intros _]. apply ckeeps_send_ok.
  - apply ckeeps_bind; [apply ckeeps_ok_or|intros rel]. apply ckeeps_resolve. intros p Hp. apply ckeeps_bind; [apply ckeeps_quiet, quiet_contents|intros l; apply ckeeps_status].
  - apply ckeeps_bind; [apply ckeeps_ok_or|intros src]. apply ckeeps_bind; [apply ckeeps_ok_or|intros dst]. apply ckeeps_copy.
  - apply ckeeps_purge.
  - apply ckeeps_fail.
Qed.
Lemma ckeeps_loop fuel : ckeeps (message_loop free_bytes_at error_text fuel layout).
Proof.
  induction fuel as [|fuel IH]; cbn [message_loop]; [apply ckeeps_lift|]. apply ckeeps_bind; [apply ckeeps_link|intros m].
  apply ckeeps_bind; [apply ckeeps_handle|intros [content|]]; [apply ckeeps_ret|done].
Qed.
Lemma ckeeps_run : ckeeps (run_loop free_bytes_at error_text layout).
Proof. apply ckeeps_get. intros c. generalize (link_fuel c). intros n. revert c. apply ckeeps_loop. Qed.
Lemma ckeeps_finish {A} (r : A + Mobilebackup2Error) : ckeeps (finish_session r).
Proof.
  unfold finish_session, disconnect_best_effort. apply ckeeps_bind; [apply ckeeps_bind; [apply ckeeps_attempt, ckeeps_link|intros _; apply ckeeps_ret]|intros _].
  destruct r; [apply ckeeps_ret|apply ckeeps_fail].
Qed.
Lemma ckeeps_session request : ckeeps (run_session free_bytes_at error_text layout request).
Proof. unfold run_session. apply ckeeps_bind; [apply ckeeps_link|intros _]. apply ckeeps_bind; [apply ckeeps_attempt, ckeeps_run|intros r]. apply ckeeps_finish. Qed.
Lemma ckeeps_version : ckeeps version_exchange.
Proof.
  unfold version_exchange. apply ckeeps_bind; [by apply ckeeps_mod|intros _]. ckeeps_all.
Qed.
End session.

(** ** The operations of the API *)

(** The call changes nothing but what the backup with the identifier [t] under [p] may change. *)
Definition touches {A} (p : PathBuf) (t : bytes) (m : client A) : Prop := forall c,
  wf (store (disk c)) -> at_loc (store (disk c)) (cwd (disk c)) = Some Directory -> confined p t (disk c) (disk (fst (m c))).

Section calls.
Context (p : PathBuf) (t : bytes) (h0 : Host).
Context (Hw0 : wf (store h0)) (Hc0 : at_loc (store h0) (cwd h0) = Some Directory).
(** Before the layout is made the disk is as it was, at the end it is confined. *)
Definition before (c : Client) : Prop := same h0 (disk c).
Definition after (c : Client) : Prop := confined p t h0 (disk c).
Definition starts {A} (m : client A) : Prop := forall c, before c -> hoare m (fun _ => before) (fun _ => after) c.

Lemma confined_same h h' : same h0 h -> confined p t h h' -> confined p t h0 h'.
Proof.
  intros (Es & Ec & Eo) (s1 & Hg & Hs). unfold confined. rewrite Es in Hg. exists s1. split; [done|]. rewrite Eo in Hs.
  destruct Hs as [?|(R & Hr & Hs)]; [by left|right]. exists R. split; [|done]. rewrite <- Hr. symmetry. by apply resolve_host.
Qed.
Lemma laid_same h layout h' : same h0 h -> laid p t h layout h' -> laid p t h0 layout h'.
Proof.
  intros (Es & Ec & Eo) (s1 & R & Hg & Hr & Hl & Hi). rewrite Es in Hg. rewrite Eo in Hi. exists s1, R. split_and!; try done.
  rewrite <- Hr. symmetry. by apply resolve_host.
Qed.
Lemma before_after c : before c -> after c.
Proof. intros Hb. by apply confined_roomier, roomier_same. Qed.
Lemma starts_ret {A} (a : A) : starts (mret a).
Proof. by intros c Hc. Qed.
Lemma starts_lift {A} (o : outcome Mobilebackup2Error A) : starts (st_lift o).
Proof. intros c Hc. apply hoare_lift; [done|]. intros e. by apply before_after. Qed.
Lemma starts_mod f : (forall c, disk (f c) = disk c) -> starts (st_mod f).
Proof. intros Hf c Hc. apply hoare_mod. unfold before. by rewrite Hf. Qed.
Lemma starts_bind {A B} (m : client A) (f : A -> client B) : starts m -> (forall a, starts (f a)) -> starts (m ≫= f).
Proof. intros Hm Hf c Hc. apply hoare_bind. eapply hoare_mono; [by apply Hm| |done]. intros a c' Hc'. by apply Hf. Qed.
Lemma starts_link {A} (m : DeviceLink.link A) : starts (on_link m).
Proof.
  intros c Hc. apply before_after in Hc as Ha. apply hoare_zoom, hoare_with_err. unfold hoare. by destruct (m (link c)) as [s []].
Qed.
Lemma starts_ok_or {A} (o : option A) s : starts (ok_or o s).
Proof. intros c Hc. destruct o; [done|]. by apply before_after. Qed.
Lemma starts_version : starts version_exchange.
Proof.
  unfold version_exchange. apply starts_bind; [by apply starts_mod|intros _]. apply starts_bind; [apply starts_link|intros v].
  apply starts_bind; [apply starts_link|intros _]. apply starts_bind; [apply starts_link|intros r]. apply starts_bind; [apply starts_ok_or|intros e].
  destruct (negb _); [intros c; apply before_after|]. apply starts_bind; [apply starts_ok_or|intros pv]. destruct (negb _); [intros c; apply before_after|apply starts_ret].
Qed.
Lemma starts_source source : starts (validate_source source).
Proof. destruct source; [apply starts_lift|apply starts_ret]. Qed.

(** A session: first nothing is touched, then the layout is made, then the device may ask. *)
Definition ends {A} (m : client A) : Prop := forall c, before c -> hoare m (fun _ => after) (fun _ => after) c.
Lemma starts_ends {A B} (m : client A) (f : A -> client B) : starts m -> (forall a, ends (f a)) -> ends (m ≫= f).
Proof. intros Hm Hf c Hc. apply hoare_bind. eapply hoare_mono; [by apply Hm| |done]. intros a c' Hc'. by apply Hf. Qed.
Lemma ends_map {A B} (m : client A) (f : A -> B) : ends m -> ends (a ← m; mret (f a)).
Proof. intros Hm c Hc. apply hoare_bind. eapply hoare_mono; [by apply Hm|done|done]. Qed.
Definition host_lays {A} (lay : A -> BackupDirectoryLayout) (m : host A) : Prop := forall h, wf (store h) -> at_loc (store h) (cwd h) = Some Directory ->
  hoare m (fun a => laid p t h (lay a)) (fun _ => confined p t h) h.
Lemma laid_CI tracked c layout : laid p t h0 layout (disk c) -> (tracked = true -> discarded_files c = []) ->
  exists R s1, layout = layout_of R t /\ CI R t s1 (opened h0) tracked c /\ forall c', CI R t s1 (opened h0) tracked c' -> after c'.
Proof.
  intros (s1 & R & Hg & Hr & -> & Hi) Ht. exists R, s1. split_and!; [done| |].
  - split; [done|]. intros H. by rewrite (Ht H).
  - intros c' [Hi' _]. by eapply confined_laid.
Qed.
Lemma hoare_layout {A B} tracked lay (m : host A) (f : A -> client B) c : host_lays lay m -> before c -> (tracked = true -> discarded_files c = []) ->
  (forall R s1 a, lay a = layout_of R t -> ckeeps R t s1 (opened h0) tracked (f a)) -> hoare (on_disk m ≫= f) (fun _ => after) (fun _ => after) c.
Proof.
  intros Hm Hc Ht Hf. apply hoare_bind, hoare_zoom. assert (wf (store (disk c)) /\ at_loc (store (disk c)) (cwd (disk c)) = Some Directory) as [Hw Hd].
  { destruct Hc as (-> & -> & _). done. }
  eapply hoare_mono; [by apply Hm|..]; cbv beta.
  - intros a h' Hl. apply (laid_same (disk c)) in Hl; [|done]. destruct (laid_CI tracked (set_disk h' c) (lay a) Hl Ht) as (R & s1 & El & Hi & Ha).
    eapply hoare_mono; [by apply (Hf R s1), Hi|..]; intros ? c'; apply Ha.
  - intros e h'. by apply (confined_same (disk c)).
Qed.
Lemma ends_layout {A} (m : host BackupDirectoryLayout) (f : BackupDirectoryLayout -> client A) : host_lays id m ->
  (forall R s1, ckeeps R t s1 (opened h0) false (f (layout_of R t))) -> ends (on_disk m ≫= f).
Proof. intros Hm Hf c Hc. apply (hoare_layout false id); [done..|]. intros R s1 a Ha. change (a = layout_of R t) in Ha. by rewrite Ha. Qed.
End calls.

Lemma host_lays_runtime p t : host_lays p t id (create_runtime_layout p t).
Proof. intros h. apply runtime_layout_spec. Qed.
Lemma host_lays_quiet {A} p t (q : host A) (m : host BackupDirectoryLayout) : quiet q -> host_lays p t id m -> host_lays p t id (q ;; m).
Proof.
  intros Hq Hm h Hw Hc. apply hoare_bind. eapply hoare_mono; [apply Hq| |intros e h' Hs; by apply confined_roomier, roomier_same].
  cbv beta. intros _ h' Hs. assert (wf (store h') /\ at_loc (store h') (cwd h') = Some Directory) as [Hw' Hc'] by (destruct Hs as (-> & -> & _); done).
  eapply hoare_mono; [by apply Hm|..]; cbv beta; [intros l h2 Hl; by eapply laid_same|intros e h2 He; by eapply confined_same].
Qed.
Lemma host_lays_existing p t : host_lays p t id (existing_layout p t).
Proof. apply host_lays_quiet; [apply quiet_ensure_backup|apply host_lays_runtime]. Qed.

Lemma ends_touches {A} p t (m : client A) : (forall h0, wf (store h0) -> at_loc (store h0) (cwd h0) = Some Directory -> ends p t h0 m) -> touches p t m.
Proof.
  intros Hm c Hw Hc. specialize (Hm _ Hw Hc c (same_refl _)). unfold hoare in Hm. by destruct (m c) as [c' []].
Qed.
Lemma touches_password root t old_password new_password : touches root t (change_password free_bytes_at error_text root t old_password new_password).
Proof.
  apply ends_touches. intros h0 Hw Hc. unfold change_password. apply starts_ends; [by apply starts_lift|intros _]. apply starts_ends; [by apply starts_version|intros _].
  apply ends_layout; [done..|apply host_lays_runtime|]. intros R s1. apply ckeeps_bind; [apply ckeeps_session|intros _]. apply ckeeps_ret.
Qed.
Lemma touches_info root t source : touches root (default t source) (info free_bytes_at error_text root t source).
Proof.
  apply ends_touches. intros h0 Hw Hc. unfold info. apply starts_ends; [by apply starts_lift|intros _]. apply starts_ends; [by apply starts_source|intros _].
  apply starts_ends; [by apply starts_version|intros _]. apply ends_layout; [done..|apply host_lays_existing|]. intros R s1. apply ckeeps_session.
Qed.
Lemma touches_list root t source : touches root (default t source) (list_request free_bytes_at error_text root t source).
Proof.
  apply ends_touches. intros h0 Hw Hc. unfold list_request. apply starts_ends; [by apply starts_lift|intros _]. apply starts_ends; [by apply starts_source|intros _].
  apply starts_ends; [by apply starts_version|intros _]. apply ends_layout; [done..|apply host_lays_existing|]. intros R s1. apply ckeeps_session.
Qed.
(** The two operations on the device run in that order: layout, versions, request, loop. *)
Lemma ends_operation root id request h0 : wf (store h0) -> at_loc (store h0) (cwd h0) = Some Directory ->
  ends root id h0 (run_device_operation free_bytes_at error_text root id request).
Proof.
  intros Hw Hc. apply ends_layout; [done..|apply host_lays_existing|]. intros R s1. apply ckeeps_bind; [apply ckeeps_version|intros _].
  apply ckeeps_bind; [apply ckeeps_link|intros _]. apply ckeeps_run.
Qed.
Lemma ends_deadline root id m text h0 : wf (store h0) -> ends root id h0 m -> ends root id h0 (with_deadline m text).
Proof.
  intros Hw Hm c Hc. assert (forall A (m : client A) Q (R : Client -> Prop) c, hoare m Q (fun _ => R) c -> hoare (timeout m text) Q (fun _ => R) c) as Ht.
  { intros A m' Q R c'. unfold hoare, timeout. by destruct (m' c') as [c2 []]. }
  unfold with_deadline. apply hoare_bind, hoare_attempt.
  assert (forall (r : option Value + Mobilebackup2Error) c', after root id h0 c' -> hoare (timeout (finish_session r) text) (fun _ => after root id h0) (fun _ => after root id h0) c') as Hend.
  { intros r c' Ha. apply Ht. unfold finish_session, disconnect_best_effort. apply hoare_bind, hoare_bind, hoare_attempt, hoare_zoom, hoare_with_err.
    unfold hoare. destruct (DeviceLink.disconnect (link c')) as [s []]; try done; by destruct r. }
  eapply hoare_mono; [by apply Ht, Hm|intros a c' Ha; by apply Hend|intros [e|] c' Ha; [by apply Hend|done]].
Qed.
Lemma touches_unback root t source password : touches root (default t (non_empty_protocol_string source)) (unback free_bytes_at error_text root t source password).
Proof.
  apply ends_touches. intros h0 Hw Hc. apply ends_deadline; [done|]. unfold run_device_unback. apply starts_ends; [by apply starts_lift|intros _].
  apply starts_ends; [by apply starts_source|intros _]. by apply ends_operation.
Qed.
Lemma touches_extract root t domain path source password :
  touches root (default t (non_empty_protocol_string source)) (extract free_bytes_at error_text root t domain path source password).
Proof.
  apply ends_touches. intros h0 Hw Hc. apply ends_deadline; [done|]. unfold run_device_extract. apply starts_ends; [by apply starts_lift|intros _].
  apply starts_ends; [by apply starts_lift|intros _]. apply starts_ends; [by apply starts_lift|intros rel]. apply starts_ends; [by apply starts_source|intros _]. by apply ends_operation.
Qed.
(** The layout of a backup to restore, with its manifest. *)
Lemma host_lays_restore root source : host_lays root source fst (
  layout ← existing_layout root source;
  path ← metadata_file_path (Policy.root layout) (Policy.target_identifier layout) "Manifest.plist";
  manifest ← read_backup_dictionary path;
  mret (layout, manifest)).
Proof.
  intros h Hw1 Hc1. apply hoare_bind. eapply hoare_mono; [by apply host_lays_existing| |done]. unfold id. cbv beta. intros layout h1 (s1 & R & Hg & Hr & -> & Hi).
  assert (forall h', Inv R source s1 (opened h) h' -> confined root source h h') as Hconf by (intros h' Hi'; by eapply confined_laid).
  apply hoare_bind. eapply hoare_mono; [by apply (metadata_path_spec R source s1 (opened h))| |intros e h2 Hs; apply Hconf; by eapply inv_same].
  cbv beta. intros q h2 [Hs Hq]. assert (Inv R source s1 (opened h) h2) as Hi2 by by eapply inv_same.
  apply hoare_bind. eapply hoare_mono; [apply (hoare_read_dictionary R source s1 (opened h)); [done|]| |intros e h3 Hi3; by apply Hconf].
  - destruct Hq as (l & -> & Hl). exists l. by rewrite (same_store _ _ Hs).
  - cbv beta. intros d h3 Hi3. apply hoare_ret. cbn [fst]. by exists s1, R.
Qed.
Lemma touches_restore root t options : touches root (default t (source_identifier options)) (restore free_bytes_at error_text root t options).
Proof.
  apply ends_touches. intros h0 Hw Hc. unfold restore. cbv zeta. set (source := default t (source_identifier options)).
  apply starts_ends; [by apply starts_lift|intros _]. apply starts_ends; [by apply starts_lift|intros _]. intros c Hb.
  apply (hoare_layout _ _ _ Hw Hc false fst); [apply host_lays_restore|done..|].
  intros R s1 [layout manifest] Hlay. cbn [fst] in Hlay. subst layout. apply ckeeps_bind; [destruct (flag _ _); [apply ckeeps_bind; [apply ckeeps_ok_or|intros; apply ckeeps_ret]|apply ckeeps_ret]|intros pw].
  apply ckeeps_bind; [apply ckeeps_version|intros v]. apply ckeeps_bind; [apply ckeeps_session|intros _]. apply ckeeps_ret.
Qed.
Lemma touches_backup now uuid root t full info_plist options :
  touches root t (backup_with_options free_bytes_at error_text now uuid root t full info_plist options).
Proof.
  apply ends_touches. intros h0 Hw Hc. unfold backup_with_options. apply starts_ends; [by apply starts_lift|intros _].
  destruct (patch_manifest options && _); [intros c Hb; by apply before_after|]. destruct (patch_manifest options); [intros c Hb; by apply before_after|].
  apply starts_ends; [by apply starts_version|intros version]. intros c Hb. apply hoare_bind, hoare_mod.
  apply (hoare_layout _ _ _ Hw Hc true id); [intros h Hw1 Hc1; by apply initialize_spec|done|done|].
  intros R s1 layout Hlay. change (layout = layout_of R t) in Hlay. rewrite Hlay. apply ckeeps_bind; [apply ckeeps_link|intros _]. apply ckeeps_bind; [apply ckeeps_attempt, ckeeps_run|intros r].
  apply ckeeps_bind; [apply ckeeps_attempt, ckeeps_finish|intros r']. apply ckeeps_get. intros c1 Hc1.
  assert (Forall (mine R t) (discarded_files c1)) as Hm by by apply Hc1. revert Hm. generalize (discarded_files c1) as ps. intros ps Hm. revert c1 Hc1.
  apply ckeeps_bind; [apply ckeeps_mod; by intros c2 [Hi2 _]|intros _].
  apply ckeeps_bind; [by apply ckeeps_attempt, ckeeps_disk, keeps_cleanup|intros [u|e]]; destruct r'; [apply ckeeps_ret|apply ckeeps_fail..].
Qed.

(** C4. Whatever a device sends, a backup session leaves the rest of the host's disk alone. For every
    operation of the API, from any well-formed disk with any symbolic links on it and whatever calls fail:
    at most the missing directories of the backup root's own path are made; beyond that, only what lies in
    the directory of the backup's identifier, at the place the root leads to, is changed, and only files in
    that directory are opened for reading. *)
Theorem backup_confined now uuid root t full info_plist backup_options old_password new_password source password domain path restore_options :
  touches root t (backup_with_options free_bytes_at error_text now uuid root t full info_plist backup_options) /\
  touches root t (change_password free_bytes_at error_text root t old_password new_password) /\
  touches root (default t (source_identifier restore_options)) (restore free_bytes_at error_text root t restore_options) /\
  touches root (default t source) (info free_bytes_at error_text root t source) /\
  touches root (default t source) (list_request free_bytes_at error_text root t source) /\
  touches root (default t (non_empty_protocol_string source)) (unback free_bytes_at error_text root t source password) /\
  touches root (default t (non_empty_protocol_string source)) (extract free_bytes_at error_text root t domain path source password).
Proof.
  split_and!; [apply touches_backup|apply touches_password|apply touches_restore|apply touches_info|apply touches_list|apply touches_unback|apply touches_extract].
Qed.
End client.
End policy.
End BackupSpec.
