(* ===== verification/BackupTransfer.v ===== *)
(** What an upload leaves on the host's disk ([crates/ios-core/src/services/backup2/mod.rs],
    [receive_uploaded_files]): the files that its frames carry, at the places their names stand for. *)

From S2P Require Import Prelude Utf8 Text Socket Plist Fs Frames PlistClients BackupPath BackupDir Backup BackupSpec.

Module BackupTransfer.
Import Text Net Plist Path Fs Filter Policy Socket Transfer Backup BackupSpec.

(** ** The wire format *)

Record upload := mkUpload { device_name : bytes; file_name : bytes; chunks : list bytes; end_code : Z; end_note : bytes }.
Definition prefixed (s : bytes) : bytes := be_bytes 4 (len s) ++ s.
Definition frame (code : Z) (d : bytes) : bytes := be_bytes 4 (len d + 1) ++ be_bytes 1 code ++ d.
Definition frames_wire (u : upload) : bytes := flat_map (frame FILE_TRANSFER_CODE_FILE_DATA) (chunks u) ++ frame (end_code u) (end_note u).
Definition upload_wire (u : upload) : bytes := prefixed (device_name u) ++ prefixed (file_name u) ++ frames_wire u.
Definition wire (us : list upload) : bytes := flat_map upload_wire us ++ prefixed [].
Definition contents (u : upload) : bytes := concat (chunks u).

Lemma wpx_hoare {S E A} (m : st S E A) Q (R T : S -> Prop) s : wpx m Q R T s -> hoare m Q (fun _ _ => True) s.
Proof. unfold wpx, hoare. by destruct (m s) as [s' []]. Qed.

Section stream.
Implicit Types (s : Socket).
Lemma read_exact_hoare n s : 0 <= n -> hoare (read_exact n : stream bytes) (fun bs s' => len bs = n /\ traffic bs [] s s') (fun _ _ => True) s.
Proof. intros Hn. by eapply wpx_hoare, read_exact_traffic. Qed.
Lemma be_bytes_of_Z n bs : len bs = Z.of_nat n -> be_bytes n (be_Z bs) = bs.
Proof. intros Hl. assert (length bs = n) as <- by (unfold len in Hl; lia). unfold be_bytes, be_Z. by rewrite <- length_rev, le_bytes_le_Z, rev_involutive. Qed.
Lemma read_u32_spec s : hoare read_u32_be (fun n s' => 0 <= n /\ traffic (be_bytes 4 n) [] s s') (fun _ _ => True) s.
Proof.
  unfold read_u32_be. apply hoare_bind. eapply hoare_mono; [by apply read_exact_hoare| |done]. cbv beta. intros bs s' [Hl Ht]. apply hoare_ret.
  split; [apply be_Z_bound|]. by rewrite be_bytes_of_Z.
Qed.
Lemma traffic_nil i s1 s2 s3 j : traffic i [] s1 s2 -> traffic j [] s2 s3 -> traffic (i ++ j) [] s1 s3.
Proof. intros H1 H2. exact (traffic_trans _ _ _ _ _ _ _ H1 H2). Qed.
Lemma read_prefixed_spec s : hoare read_prefixed_string
  (fun v s' => from_utf8 v = true /\ len v <= MAX_PREFIXED_STRING_SIZE /\ traffic (prefixed v) [] s s') (fun _ _ => True) s.
Proof.
  unfold read_prefixed_string. apply hoare_bind. eapply hoare_mono; [by apply read_u32_spec| |done]. cbv beta. intros n s1 [Hn H1].
  destruct (n =? 0) eqn:E0; [apply Z.eqb_eq in E0 as ->; apply hoare_ret; split_and!; [done|done|]; by rewrite (app_nil_r _ : prefixed [] = _)|].
  destruct (MAX_PREFIXED_STRING_SIZE <? n) eqn:El; [done|]. apply hoare_bind. eapply hoare_mono; [by apply read_exact_hoare| |done]. cbv beta. intros v s2 [<- H2].
  destruct (from_utf8 v) eqn:Eu; [|done]. apply hoare_ret. split_and!; [done|lia|]. by eapply traffic_nil.
Qed.
Lemma discard_hoare fuel n s : 0 <= n -> hoare (discard_loop fuel n) (fun _ s' => exists bs, len bs = n /\ traffic bs [] s s') (fun _ _ => True) s.
Proof.
  revert n s. induction fuel as [|fuel IH]; intros n s Hn; cbn [discard_loop]; destruct (n <=? 0) eqn:E; try done;
    try (apply hoare_ret; exists []; split; [unfold len; cbn; lia|apply traffic_refl]).
  cbv zeta. apply hoare_bind. eapply hoare_mono; [apply read_exact_hoare; unfold DOWNLOAD_CHUNK_SIZE; lia| |done]. cbv beta. intros b s1 [Hb H1].
  eapply hoare_mono; [apply IH; unfold DOWNLOAD_CHUNK_SIZE in *; lia| |done]. cbv beta. intros _ s2 (b2 & Hb2 & H2). exists (b ++ b2).
  rewrite len_app. split; [lia|]. by eapply traffic_nil.
Qed.
Lemma preview_spec n s : 0 <= n -> hoare (read_transfer_error_preview n) (fun _ s' => exists bs, len bs = n /\ traffic bs [] s s') (fun _ _ => True) s.
Proof.
  intros Hn. unfold read_transfer_error_preview. apply hoare_bind. eapply hoare_mono; [apply read_exact_hoare; unfold MAX_TRANSFER_ERROR_PREVIEW_SIZE; lia| |done].
  cbv beta. intros b s1 [Hb H1]. apply hoare_bind. eapply hoare_mono; [apply discard_hoare; unfold MAX_TRANSFER_ERROR_PREVIEW_SIZE in *; lia| |done].
  cbv beta. intros _ s2 (b2 & Hb2 & H2). apply hoare_ret. exists (b ++ b2). rewrite len_app. split; [lia|]. by eapply traffic_nil.
Qed.
End stream.

Section client.
Context {PF : Platform} {PC : PlistCodec} {RE : RegexEngine}.
Abbreviation client := (st Client Mobilebackup2Error).

(** Everything but the socket and the disk; the budget counts what it should. *)
Definition rest_same (files n : Z) (c c' : Client) : Prop :=
  reported_free_space c' = reported_free_space c /\ required_free_space c' = required_free_space c /\ backup_filter c' = backup_filter c /\
  transfer_files c' = transfer_files c + files /\ transfer_bytes c' = transfer_bytes c + n.
Definition budget (c : Client) : Prop := 0 <= transfer_files c <= MAX_DEVICE_TRANSFER_FILES /\ 0 <= transfer_bytes c <= MAX_DEVICE_TRANSFER_BYTES.
Lemma rest_same_refl c : rest_same 0 0 c c.
Proof. unfold rest_same. split_and!; lia || done. Qed.
Lemma rest_same_trans f1 n1 f2 n2 c1 c2 c3 : rest_same f1 n1 c1 c2 -> rest_same f2 n2 c2 c3 -> rest_same (f1 + f2) (n1 + n2) c1 c3.
Proof. intros (? & ? & ? & ? & ?) (? & ? & ? & ? & ?). unfold rest_same. split_and!; try congruence; lia. Qed.

Lemma stream_hoare {A} (m : stream A) (P : A -> Socket -> Prop) Q c : hoare m P (fun _ _ => True) (link c) ->
  (forall a s, P a s -> Q a (set_link s c)) -> hoare (on_stream m) Q (fun _ _ => True) c.
Proof. intros Hm HQ. apply hoare_zoom. eapply hoare_mono; [exact Hm|done|done]. Qed.
Lemma disk_hoare {A} (m : host A) (P : A -> Host -> Prop) Q c : hoare m P (fun _ _ => True) (disk c) ->
  (forall a h, P a h -> Q a (set_disk h c)) -> hoare (on_disk m) Q (fun _ _ => True) c.
Proof. intros Hm HQ. apply hoare_zoom. eapply hoare_mono; [exact Hm|done|done]. Qed.

(** *** The frames of one file *)

(** What a file that is kept has got: [d] more, at its place, and nothing else changed. *)
Definition appended (file : option Handle) (d : bytes) (s s' : Store) : Prop :=
  match file with
  | None => s' = s
  | Some f => gained f d s s'
  end.
Lemma appended_refl file s : (forall f, file = Some f -> loc f <> []) -> appended file [] s s.
Proof. intros _. destruct file as [f|]; [apply gained_nil|done]. Qed.
Lemma appended_trans file d1 d2 s1 s2 s3 : appended file d1 s1 s2 -> appended file d2 s2 s3 -> appended file (d1 ++ d2) s1 s3.
Proof. destruct file as [f|]; [apply gained_trans|by intros -> ->]. Qed.

Section frames.
Context (R : Loc) (t : bytes) (s0 : Store) (o0 : list Loc).
#[local] Abbreviation Inv := (Inv R t s0 o0).
Definition file_mine (file : option Handle) : Prop := forall f, file = Some f -> handle_mine R t f.
Lemma mine_nonempty f : handle_mine R t f -> loc f <> [].
Proof. intros [k Hk] H. rewrite H in Hk. by destruct R. Qed.
(** From [c] to [c'] the bytes [i] came in and, if no write is known to have failed, the file got [d]. *)
Definition clear (file : option Handle) (c : Client) : Prop := file = None \/ write_error c = None.
Definition held (file : option Handle) (d : bytes) (c c' : Client) : Prop :=
  clear file c' -> clear file c /\ appended file d (store (disk c)) (store (disk c')).
Definition got (file : option Handle) (i d : bytes) (files n : Z) (c c' : Client) : Prop :=
  traffic i [] (link c) (link c') /\ Inv (disk c') /\ held file d c c' /\
  rest_same files n c c' /\ discarded_files c' = discarded_files c.
Lemma held_refl file c c' : file_mine file -> write_error c' = write_error c -> store (disk c') = store (disk c) -> held file [] c c'.
Proof.
  intros Hf Ew Es. unfold held, clear. rewrite Ew, Es. split; [done|]. apply appended_refl. intros f ->. by apply mine_nonempty, Hf.
Qed.
Lemma held_trans file d1 d2 c1 c2 c3 : held file d1 c1 c2 -> held file d2 c2 c3 -> held file (d1 ++ d2) c1 c3.
Proof.
  intros H1 H2 H3. destruct (H2 H3) as [Hw A2]. destruct (H1 Hw) as [Hw' A1].
  split; [done|]. by eapply appended_trans.
Qed.
Lemma got_trans file i1 d1 f1 n1 i2 d2 f2 n2 c1 c2 c3 : got file i1 d1 f1 n1 c1 c2 -> got file i2 d2 f2 n2 c2 c3 ->
  got file (i1 ++ i2) (d1 ++ d2) (f1 + f2) (n1 + n2) c1 c3.
Proof.
  intros (T1 & I1 & A1 & R1 & D1) (T2 & I2 & A2 & R2 & D2). unfold got. split_and!; [by eapply traffic_nil|done|by eapply held_trans|by eapply rest_same_trans|congruence].
Qed.
Lemma got_stream file i s c : file_mine file -> Inv (disk c) -> traffic i [] (link c) s -> got file i [] 0 0 c (set_link s c).
Proof.
  intros Hf Hi Ht. unfold got. split_and!; try done; [by apply held_refl|exact (rest_same_refl c)].
Qed.
Lemma report_spec c : hoare report_write_error (fun _ c' => c' = c /\ write_error c = None) (fun _ _ => True) c.
Proof. unfold report_write_error. apply hoare_bind, hoare_get. by destruct (write_error c) eqn:E. Qed.
Lemma write_file_spec f bs c : handle_mine R t f -> Inv (disk c) -> hoare (write_file f bs) (fun _ => got (Some f) [] bs 0 0 c) (fun _ _ => True) c.
Proof.
  intros Hf Hi. unfold write_file. apply hoare_bind. eapply hoare_mono; [apply report_spec| |done]. cbv beta. intros _ ? [-> Hw].
  apply hoare_bind. eapply disk_hoare with (P := fun r h' => Inv h' /\ (r = inl tt -> gained f bs (store (disk c)) (store h'))).
  { apply hoare_attempt. eapply hoare_mono; [apply append_spec, Hi|..]; cbv beta.
    - intros [] h' [Hc Hg]. split; [by eapply inv_changed|done].
    - intros [e|] h' [Hc _]; [|done]. split; [by eapply inv_changed|done]. }
  cbv beta. intros [[]|e] h [Hi' Hg].
  - apply hoare_ret. unfold got. split_and!; try done; [apply traffic_refl| |exact (rest_same_refl c)]. intros _. split; [by right|]. by apply Hg.
  - apply hoare_mod. unfold got. split_and!; try done; [apply traffic_refl|by intros [?|?]|exact (rest_same_refl c)].
Qed.

Lemma copy_payload_spec f fuel n c : handle_mine R t f -> Inv (disk c) -> 0 <= n ->
  hoare (copy_payload_loop fuel f n) (fun _ c' => exists d, len d = n /\ got (Some f) d d 0 0 c c') (fun _ _ => True) c.
Proof.
  intros Hf. assert (file_mine (Some f)) as Hm by by intros ? [= <-]. revert n c. induction fuel as [|fuel IH]; intros n c Hi Hn; cbn [copy_payload_loop]; destruct (n <=? 0) eqn:E; try done;
    try (apply hoare_ret; exists []; split; [unfold len; cbn; lia|]; pose proof (got_stream _ [] (link c) c Hm Hi (traffic_refl _)) as H; by destruct c).
  cbv zeta. apply hoare_bind. eapply stream_hoare; [apply read_exact_hoare; unfold DOWNLOAD_CHUNK_SIZE; lia|]. cbv beta. intros b s1 [Hb H1].
  apply hoare_bind. eapply hoare_mono; [by apply write_file_spec| |done]. cbv beta. intros _ c1 W1.
  assert (got (Some f) b b 0 0 c c1) as G1.
  { rewrite <- (app_nil_r b) at 1. exact (got_trans _ _ _ _ _ _ _ _ _ _ _ _ (got_stream _ b s1 c Hm Hi H1) W1). }
  eapply hoare_mono; [apply IH; [apply G1|unfold DOWNLOAD_CHUNK_SIZE in *; lia]| |done]. cbv beta. intros _ c2 (d & Hd & G2).
  exists (b ++ d). rewrite len_app. split; [lia|]. exact (got_trans _ _ _ _ _ _ _ _ _ _ _ _ G1 G2).
Qed.

Lemma account_bytes_spec n c : 0 <= n -> budget c ->
  hoare (account_transfer_bytes n) (fun _ c' => link c' = link c /\ disk c' = disk c /\ write_error c' = write_error c /\ discarded_files c' = discarded_files c /\ rest_same 0 n c c' /\ budget c')
    (fun _ _ => True) c.
Proof.
  intros Hn (Hf & Hb). unfold account_transfer_bytes. apply hoare_bind, hoare_get. destruct (_ <? _); [done|]. apply hoare_bind, hoare_mod.
  destruct (_ <? _) eqn:E; [done|]. apply hoare_ret. unfold rest_same, budget. cbn. split_and!; lia || done.
Qed.
Lemma account_file_spec c : budget c ->
  hoare account_transfer_file (fun _ c' => link c' = link c /\ disk c' = disk c /\ write_error c' = write_error c /\ discarded_files c' = discarded_files c /\ rest_same 1 0 c c' /\ budget c')
    (fun _ _ => True) c.
Proof.
  intros (Hf & Hb). unfold account_transfer_file. apply hoare_bind, hoare_get. destruct (_ <? _); [done|]. apply hoare_bind, hoare_mod.
  destruct (_ <? _) eqn:E; [done|]. apply hoare_ret. unfold rest_same, budget. cbn. split_and!; lia || done.
Qed.
Lemma budget_got file i d c c' : got file i d 0 0 c c' -> budget c -> budget c'.
Proof. intros (_ & _ & _ & (_ & _ & _ & E1 & E2) & _) [? ?]. unfold budget. rewrite E1, E2. lia. Qed.
(** A payload of [n] bytes is taken, to the file or to nowhere. *)
Lemma payload_spec file n c : file_mine file -> Inv (disk c) -> 0 <= n ->
  hoare (match file with Some f => copy_transfer_payload f n | None => on_stream (discard_transfer_payload n) end)
    (fun _ c' => exists d, len d = n /\ got file d (if file then d else []) 0 0 c c') (fun _ _ => True) c.
Proof.
  intros Hf Hi Hn. destruct file as [f|]; [by apply copy_payload_spec; [apply Hf|..]|].
  eapply stream_hoare; [by apply discard_hoare|]. cbv beta. intros _ s (bs & Hl & Ht). exists bs. split; [done|]. by apply got_stream.
Qed.
Lemma frames_spec fuel file c : file_mine file -> Inv (disk c) -> budget c ->
  hoare (receive_frames fuel file) (fun _ c' => budget c' /\ exists u,
      (end_code u = FILE_TRANSFER_CODE_SUCCESS \/ end_code u = FILE_TRANSFER_CODE_REMOTE_ERROR) /\
      got file (frames_wire u) (if file then contents u else []) 0 (len (contents u)) c c')
    (fun _ _ => True) c.
Proof.
  intros Hf. revert c. induction fuel as [|fuel IH]; intros c Hi Hbud; cbn [receive_frames]; [done|].
  apply hoare_bind. eapply stream_hoare; [apply read_u32_spec|]. cbv beta. intros fs s1 [Hfs H1].
  apply hoare_bind. eapply stream_hoare; [by apply read_exact_hoare|]. cbv beta. intros code s2 [Hcl H2]. cbn [link set_link] in H2.
  destruct (fs <? 1) eqn:E1; [done|]. cbv zeta. set (c1 := set_link s2 (set_link s1 c)).
  assert (traffic (be_bytes 4 fs ++ code) [] (link c) (link c1)) as Hhead by by eapply traffic_nil.
  assert (code = be_bytes 1 (be_Z code)) as Ecode by (by rewrite be_bytes_of_Z).
  assert (forall (d : bytes) k, len d = fs - 1 -> be_Z code = k -> (be_bytes 4 fs ++ code) ++ d = frame k d) as Hframe.
  { intros d k Hd <-. unfold frame. rewrite Hd, <- app_assoc, <- Ecode. do 2 f_equal. lia. }
  assert (got file (be_bytes 4 fs ++ code) [] 0 0 c c1) as G1 by (apply (got_stream file _ s2 c); [done..|exact Hhead]).
  assert (Inv (disk c1)) as Hi1 by exact Hi. assert (budget c1) as Hb1 by exact Hbud.
  assert (forall d k c2, len d = fs - 1 -> be_Z code = k -> k = FILE_TRANSFER_CODE_SUCCESS \/ k = FILE_TRANSFER_CODE_REMOTE_ERROR -> got file d [] 0 0 c1 c2 ->
    budget c2 /\ exists u, (end_code u = FILE_TRANSFER_CODE_SUCCESS \/ end_code u = FILE_TRANSFER_CODE_REMOTE_ERROR) /\
      got file (frames_wire u) (if file then contents u else []) 0 (len (contents u)) c c2) as Hend.
  { intros d k c2 Hd Hk Hc G2. split; [by eapply budget_got|]. exists (mkUpload [] [] [] k d). split; [done|].
    pose proof (got_trans _ _ _ _ _ _ _ _ _ _ _ _ G1 G2) as G. rewrite (Hframe d k Hd Hk) in G. unfold frames_wire, contents. cbn [flat_map chunks end_code end_note concat app].
    by destruct file. }
  destruct (be_Z code =? FILE_TRANSFER_CODE_FILE_DATA) eqn:Ed; [|destruct (be_Z code =? FILE_TRANSFER_CODE_SUCCESS) eqn:Es; [|destruct (be_Z code =? FILE_TRANSFER_CODE_REMOTE_ERROR) eqn:Er]].
  - apply Z.eqb_eq in Ed. apply hoare_bind. eapply hoare_mono; [apply account_bytes_spec; [lia|done]| |done]. cbv beta. intros _ c2 (El & Edk & Ewe & Edi & Hr2 & Hb2).
    apply hoare_bind. eapply hoare_mono; [apply payload_spec; [done|by rewrite Edk|lia]| |done]. cbv beta. intros _ c3 (d & Hd & G3).
    assert (got file [] [] 0 (fs - 1) c1 c2) as G2.
    { unfold got. rewrite El, Edk. split_and!; try done; [apply traffic_refl|]. apply held_refl; [done..|by rewrite Edk]. }
    eapply hoare_mono; [apply IH; [apply G3|by eapply budget_got]| |done]. cbv beta. intros _ c4 (Hb4 & u & Hu & G4). split; [done|].
    exists (mkUpload [] [] (d :: chunks u) (end_code u) (end_note u)). split; [done|].
    pose proof (got_trans _ _ _ _ _ _ _ _ _ _ _ _ (got_trans _ _ _ _ _ _ _ _ _ _ _ _ G1 G2) (got_trans _ _ _ _ _ _ _ _ _ _ _ _ G3 G4)) as G.
    rewrite !app_nil_r in G. rewrite app_assoc, (Hframe d _ Hd Ed) in G. unfold frames_wire, contents in *. cbn [flat_map chunks end_code end_note concat] in *.
    rewrite <- !app_assoc. rewrite len_app. rewrite <- Hd in G. destruct file; exact G.
  - apply Z.eqb_eq in Es. eapply stream_hoare; [apply discard_hoare; lia|]. cbv beta. intros _ s3 (d & Hd & H3). apply (Hend d _ _ Hd Es); [by left|]. by apply got_stream.
  - apply Z.eqb_eq in Er. apply hoare_bind. eapply stream_hoare; [apply preview_spec; lia|]. cbv beta. intros _ s3 (d & Hd & H3). apply hoare_ret.
    apply (Hend d _ _ Hd Er); [by right|]. by apply got_stream.
  - apply hoare_bind. eapply stream_hoare; [apply discard_hoare; lia|]. done.
Qed.

(** *** The files of an upload *)

Definition kept (filter : option BackupFilter) (u : upload) : bool :=
  match filter with Some f => should_preserve_backup_file (file_name u) (device_name u) f | None => true end.
Definition sound (u : upload) : Prop :=
  device_name u <> [] /\ from_utf8 (device_name u) = true /\ len (device_name u) <= MAX_PREFIXED_STRING_SIZE /\
  from_utf8 (file_name u) = true /\ len (file_name u) <= MAX_PREFIXED_STRING_SIZE /\
  (end_code u = FILE_TRANSFER_CODE_SUCCESS \/ end_code u = FILE_TRANSFER_CODE_REMOTE_ERROR).
(** The file [l] has the contents [d]; at most the directories above it were made. *)
Definition written (l : Loc) (d : bytes) (s s' : Store) : Prop :=
  s' !! l = Some (File d) /\ forall k, k <> l -> s' !! k = s !! k \/ (s !! k = None /\ s' !! k = Some Directory /\ k `prefix_of` l).
(** What an upload does to the disk, file after file, and the placeholders it leaves. *)
Inductive uploaded (filter : option BackupFilter) : list upload -> Store -> Store -> list PathBuf -> Prop :=
| uploaded_nil s : uploaded filter [] s s []
| uploaded_cons u us l s s1 s2 ds :
    placed t (file_name u) l -> written ((R ++ [t]) ++ l) (if kept filter u then contents u else []) s s1 ->
    uploaded filter us s1 s2 ds ->
    uploaded filter (u :: us) s s2 ((if kept filter u then [] else [of_loc ((R ++ [t]) ++ l)]) ++ ds).
#[local] Abbreviation layout := (layout_of R t).

Lemma written_open l s s1 d : made l s s1 -> written l d s (<[l := File d]> s1).
Proof. intros Hm. split; [apply lookup_insert_eq|]. intros k Hk. rewrite lookup_insert_ne by congruence. apply Hm. Qed.
Lemma sum_contents us : lsum (fun u => len (contents u)) us = len (flat_map contents us).
Proof. induction us as [|u us IH]; [done|]. cbn [lsum foldr flat_map]. unfold lsum in IH. by rewrite IH, len_app. Qed.

Lemma files_spec fuel c : Inv (disk c) -> budget c ->
  hoare (receive_files fuel layout) (fun _ c' => exists us ds,
      traffic (wire us) [] (link c) (link c') /\ Forall sound us /\ uploaded (backup_filter c) us (store (disk c)) (store (disk c')) ds /\
      discarded_files c' = discarded_files c ++ ds /\ rest_same (len us) (lsum (fun u => len (contents u)) us) c c' /\ budget c')
    (fun _ _ => True) c.
Proof.
  revert c. induction fuel as [|fuel IH]; intros c Hi Hb; cbn [receive_files]; [done|].
  apply hoare_bind. eapply stream_hoare; [apply read_prefixed_spec|]. cbv beta. intros dn s1 (Hu1 & Hl1 & H1).
  destruct (bool_decide_reflect (dn = [])) as [->|Hdn].
  { apply hoare_ret. exists [], []. split_and!; try done; [by constructor|by rewrite app_nil_r|exact (rest_same_refl c)]. }
  apply hoare_bind. eapply hoare_mono; [by apply account_file_spec| |done]. cbv beta. intros _ c1 (El1 & Ed1 & Ewe1 & Edi1 & Hr1 & Hb1). cbn [link disk discarded_files set_link] in *.
  apply hoare_bind. eapply stream_hoare; [apply read_prefixed_spec|]. cbv beta. intros fn s2 (Hu2 & Hl2 & H2). rewrite El1 in H2.
  apply hoare_bind. eapply disk_hoare with (P := fun p h' => same (disk c1) h' /\ exists l, p = of_loc ((R ++ [t]) ++ l) /\ placed t fn l).
  { eapply hoare_mono; [apply (resolve_spec R t s0 o0); cbn; by rewrite Ed1| |done]. cbv beta. intros p h' (Hs & l & -> & _ & Hp). split; [done|by exists l]. }
  cbv beta. intros p h2 (Hs2 & l & -> & Hp). assert (Inv h2) as Hi2 by (eapply inv_same; [|exact Hs2]; by rewrite Ed1).
  apply hoare_bind. eapply disk_hoare; [eapply hoare_mono; [by apply (create_parent_spec R t s0 o0)|by intros ? ? H; exact H|done]|].
  cbv beta. intros _ h3 [Hi3 Hm3]. cbn [disk set_disk] in Hm3. rewrite (same_store _ _ Hs2), Ed1 in Hm3.
  apply hoare_bind, hoare_get. set (u0 := mkUpload dn fn [] 0 []).
  change (match backup_filter (set_disk h3 _) with Some filter => _ | None => true end) with (kept (backup_filter c1) u0).
  assert (backup_filter c1 = backup_filter c) as Ef by (destruct Hr1 as (_ & _ & H & _); exact H). rewrite Ef. set (keep := kept (backup_filter c) u0).
  apply hoare_bind. eapply disk_hoare; [eapply hoare_mono; [by apply (open_layout_write R t s0 o0)|by intros ? ? H; exact H|done]|].
  cbv beta. intros f h4 (Hi4 & Hf4 & Hd4 & Es4). cbn [disk set_disk] in *.
  apply hoare_bind. set (c4 := set_disk h4 _). set (c5 := if keep then set_write_error None c4 else set_discarded (discarded_files c4 ++ [of_loc ((R ++ [t]) ++ l)]) c4).
  eapply hoare_mono with (Q := fun _ c' => c' = c5) (R := fun _ _ => True); [unfold c5; by destruct keep| |done]. intros _ ? ->.
  apply hoare_bind, hoare_get.
  assert (disk c5 = h4 /\ link c5 = s2 /\ rest_same 1 0 c c5 /\ budget c5 /\ discarded_files c5 = discarded_files c ++ (if keep then [] else [of_loc ((R ++ [t]) ++ l)]) /\ backup_filter c5 = backup_filter c) as (Ed5 & El5 & Hr5 & Hb5 & Edi5 & Ef5).
  { unfold c5, c4. destruct keep; cbn; rewrite ?app_nil_r, ?Edi1; split_and!; done. }
  set (file := if keep then Some f else None). assert (file_mine file) as Hfm.
  { unfold file. intros g. destruct keep; [|done]. intros [= <-]. unfold handle_mine. rewrite Hf4. by eexists. }
  apply hoare_bind. eapply hoare_mono; [apply frames_spec; [done|by rewrite Ed5|done]| |done]. cbv beta. intros _ c6 (Hb6 & u & Hend & G6).
  destruct G6 as (T6 & I6 & A6 & R6 & D6).
  apply hoare_bind. eapply hoare_mono with (Q := fun _ c' => c' = c6 /\ clear file c6) (R := fun _ _ => True);
    [unfold flush_file, clear, file; destruct keep; [eapply hoare_mono; [apply report_spec|intros _ ? [-> ?]; by auto|done]|by apply hoare_ret; auto]| |done].
  intros _ ? [-> W6]. eapply hoare_mono; [by apply IH| |done]. cbv beta. intros _ c7 (us & ds & T7 & S7 & U7 & D7 & R7 & B7).
  set (u' := mkUpload dn fn (chunks u) (end_code u) (end_note u)).
  exists (u' :: us), ((if kept (backup_filter c) u' then [] else [of_loc ((R ++ [t]) ++ l)]) ++ ds).
  assert (backup_filter c6 = backup_filter c) as Ef6 by (destruct R6 as (_ & _ & H & _); by rewrite H, Ef5). rewrite Ef6 in U7.
  split_and!; try done.
  - rewrite El5 in T6. unfold wire. cbn [flat_map]. change (upload_wire u') with (prefixed dn ++ prefixed fn ++ frames_wire u). rewrite <- !app_assoc.
    eapply traffic_nil; [exact H1|]. eapply traffic_nil; [exact H2|]. eapply traffic_nil; [exact T6|exact T7].
  - constructor; [|done]. split_and!; done.
  - econstructor; [exact Hp| |exact U7]. change (kept (backup_filter c) u') with keep. apply A6 in W6 as [_ A6']. clear A6. rename A6' into A6. rewrite Ed5, Es4 in A6.
    assert (at_loc (<[(R ++ [t]) ++ l := File []]> (store h3)) ((R ++ [t]) ++ l) = Some (File [])) as Hat.
    { rewrite at_nonempty by (by destruct R). apply lookup_insert_eq. }
    unfold file in A6. destruct keep; cbn [appended] in A6.
    + unfold gained in A6. rewrite Hf4 in A6. rewrite (A6 [] Hat), insert_insert_eq. cbn [app]. by apply written_open.
    + rewrite A6. by apply written_open.
  - rewrite D7, D6, Edi5, <- app_assoc. done.
  - pose proof (rest_same_trans _ _ _ _ _ _ _ (rest_same_trans _ _ _ _ _ _ _ Hr5 R6) R7) as H. unfold len at 1. cbn [length lsum foldr].
    unfold rest_same in *. change (contents u') with (contents u). unfold lsum, len in *. destruct H as (? & ? & ? & ? & ?). split_and!; try done; lia.
Qed.

End frames.

(** C10. A reception of uploaded files that succeeds has left what the frames carried, on a well-formed
    disk whose backup root is reached without symbolic links. The bytes that came in are those of a
    list of files. After each of them the file at the place its name stands for has the contents of
    its data frames, in order, or is empty if there is a filter and it does not keep the file; the
    other changes it makes are the directories above that place which did not exist. The
    placeholders of the files that are not kept are remembered, and the counters have grown by the
    files and bytes that came, within the budget. Of a reception that fails nothing is said here. *)
Theorem backup_upload_exact (R : Loc) (t : bytes) (c : Client) :
  wf (store (disk c)) -> linkless (store (disk c)) R -> budget c ->
  hoare (receive_uploaded_files (layout_of R t)) (fun _ c' => exists us ds,
      traffic (wire us) [] (link c) (link c') /\ Forall sound us /\
      uploaded R t (backup_filter c) us (store (disk c)) (store (disk c')) ds /\
      discarded_files c' = discarded_files c ++ ds /\ rest_same (len us) (len (flat_map contents us)) c c' /\ budget c')
    (fun _ _ => True) c.
Proof.
  intros Hw Hl Hb. unfold receive_uploaded_files. apply hoare_bind, hoare_get.
  eapply hoare_mono; [apply (files_spec R t (store (disk c)) (opened (disk c)))| |done].
  - split_and!; [done..|]. exists []. by rewrite app_nil_r.
  - done.
  - cbv beta. intros _ c' (us & ds & H). rewrite sum_contents in H. by exists us, ds.
Qed.
End client.

(** *** A run: two files, one of them not selected *)

Definition demo_platform : Platform := {| macos := false; node_len := fun _ => 0; modified_at := fun _ _ => 0; local_offset_at := fun _ => 0 |}.
Definition demo_regex : RegexEngine := {| Regex := unit; regex_new := fun _ => None; is_match := fun _ _ => false |}.
Definition demo_root : Loc := [str "backups"].
Definition demo_id : bytes := str "device".
Definition demo_disk : Host :=
  mkHost (<[demo_root := Directory]> (<[demo_root ++ [demo_id] := Directory]> (<[[str "home"] := File (str "private")]> ∅))) [] [] [].
Definition demo_uploads : list upload := [
  mkUpload (str "HomeDomain/Library/SMS/sms.db") (str "device/ab/abcd") [str "hel"; str "lo"] 0 [];
  mkUpload (str "HomeDomain/Library/Notes/n.db") (str "cd/cdef") [str "notes"] 0 []].
Definition demo_filter : BackupFilter (H := demo_regex) := mkFilter (H := demo_regex) [Sms] [].
Definition demo_client : Client (RE := demo_regex) :=
  mkClient (RE := demo_regex) (mkSocket [Chunk (wire demo_uploads)] [] []) demo_disk None None (Some demo_filter) [] 0 0 None.
Lemma demo_wf : wf (store demo_disk).
Proof. apply wf_test_ok. vm_compute. reflexivity. Qed.
Definition demo_run := receive_uploaded_files (PF := demo_platform) (RE := demo_regex) (layout_of demo_root demo_id) demo_client.
Lemma backup_upload_exact_witness :
  snd demo_run = Ok tt /\
  at_loc (store (disk (fst demo_run))) (demo_root ++ [demo_id; str "ab"; str "abcd"]) = Some (File (str "hello")) /\
  at_loc (store (disk (fst demo_run))) (demo_root ++ [demo_id; str "cd"; str "cdef"]) = Some (File []) /\
  exists us ds, traffic (wire us) [] (link demo_client) (link (fst demo_run)) /\ length us = 2%nat /\
    uploaded demo_root demo_id (Some demo_filter) us (store demo_disk) (store (disk (fst demo_run))) ds /\
    ds = [of_loc (demo_root ++ [demo_id; str "cd"; str "cdef"])].
Proof.
  assert (snd demo_run = Ok tt) as E by (vm_compute; reflexivity).
  assert (transfer_files (fst demo_run) = 2) as Ef by (vm_compute; reflexivity).
  assert (discarded_files (fst demo_run) = [of_loc (demo_root ++ [demo_id; str "cd"; str "cdef"])]) as Ed by (vm_compute; reflexivity).
  split; [exact E|]. split; [vm_compute; reflexivity|]. split; [vm_compute; reflexivity|].
  pose proof (backup_upload_exact (PF := demo_platform) (RE := demo_regex) demo_root demo_id demo_client demo_wf) as H.
  unfold hoare in H. fold demo_run in H. destruct demo_run as [c' o]. cbn [fst snd] in *. subst o.
  destruct H as (us & ds & Ht & _ & Hu & Hd & (_ & _ & _ & Hf & _) & _).
  - apply dir_linkless; [apply demo_wf|]. vm_compute. reflexivity.
  - vm_compute. split; split; congruence.
  - exists us, ds. split; [exact Ht|]. split; [|split; [exact Hu|]].
    + rewrite Ef in Hf. cbn in Hf. unfold len in Hf. lia.
    + rewrite <- Ed, Hd. reflexivity.
Defined.

(** *** A kept file moved onto a placeholder

    [relocate_discarded_files] moves the placeholders at the source of a move, but does not forget
    the one at its destination: the file that was kept is then removed with the placeholders. *)
Definition demo_moved := move_item (PF := demo_platform) (RE := demo_regex) (layout_of demo_root demo_id) (str "ab/abcd") (String (str "cd/cdef")) (fst demo_run).
Definition demo_cleaned :=
  Dir.cleanup_discarded_files (PF := demo_platform) (layout_of demo_root demo_id) (discarded_files (fst demo_moved)) (disk (fst demo_moved)).
Lemma kept_file_is_lost :
  snd demo_moved = Ok tt /\
  at_loc (store (disk (fst demo_moved))) (demo_root ++ [demo_id; str "cd"; str "cdef"]) = Some (File (str "hello")) /\
  snd demo_cleaned = Ok tt /\
  at_loc (store (fst demo_cleaned)) (demo_root ++ [demo_id; str "cd"; str "cdef"]) = None.
Proof. split_and!; vm_compute; reflexivity. Qed.
End BackupTransfer.
