(* ===== verification/BackupReturns.v ===== *)
(** Every call of the backup client comes to an end ([crates/ios-core/src/services/backup2/mod.rs]).

    The loops of the model carry fuel: the bytes still to come for those that read the device's
    stream, the depth of the tree for those that walk it, the length of a file or of a path for
    the rest. The fuel is enough: a call returns a value or an error, or it is dropped while it
    waits for the device; it never panics and never stops for want of fuel. *)

From S2P Require Import Prelude Utf8 Text Socket Plist Fs Frames PlistClients BackupPath BackupDir Backup BackupSpec.

Module BackupReturns.
Import Text Plist Path Fs Policy Dir BackupSpec.

(** ** Coming to an end *)

Definition stops {E A} (o : outcome E A) : Prop := match o with Ok _ | Err _ | Pending => True | _ => False end.
Definition halts {S E A} (m : st S E A) (s : S) : Prop := stops (m s).2.
(** From every state. *)
Definition always {S E A} (m : st S E A) : Prop := forall s, halts m s.

Section rules.
Context {S E : Type}.
Implicit Types s : S.
Lemma halts_bind {A B} (m : st S E A) (f : A -> st S E B) Q R s :
  halts m s -> hoare m Q R s -> (forall a s', Q a s' -> halts (f a) s') -> halts (m ≫= f) s.
Proof. unfold halts, hoare, mbind, st_bind. destruct (m s) as [s' []]; try done; auto. Qed.
Lemma halts_bind_always {A B} (m : st S E A) (f : A -> st S E B) s : halts m s -> (forall a, always (f a)) -> halts (m ≫= f) s.
Proof. unfold halts, mbind, st_bind. destruct (m s) as [s' []]; try done. intros _ Hf. apply Hf. Qed.
Lemma always_bind {A B} (m : st S E A) (f : A -> st S E B) : always m -> (forall a, always (f a)) -> always (m ≫= f).
Proof. intros Hm Hf s. by apply halts_bind_always. Qed.
Lemma always_ret {A} (a : A) : always (mret a : st S E A).
Proof. by intros s. Qed.
Lemma always_fail {A} (e : E) : always (st_fail e : st S E A).
Proof. by intros s. Qed.
Lemma always_get : always (st_get : st S E S).
Proof. by intros s. Qed.
Lemma always_mod f : always (st_mod f : st S E unit).
Proof. by intros s. Qed.
Lemma halts_get_bind {B} (f : S -> st S E B) s : halts (f s) s -> halts (st_get ≫= f) s.
Proof. done. Qed.
Lemma always_lift {A} (o : outcome E A) : stops o -> always (st_lift o : st S E A).
Proof. by intros Ho s. Qed.
Lemma halts_attempt {E' A} (m : st S E A) s : halts m s -> halts (attempt (E' := E') m) s.
Proof. unfold halts, attempt. by destruct (m s) as [s' []]. Qed.
Lemma always_attempt {E' A} (m : st S E A) : always m -> always (attempt (E' := E') m).
Proof. intros Hm s. by apply halts_attempt. Qed.
Lemma halts_with_err {E' A} (f : E -> E') (m : st S E A) s : halts m s -> halts (with_err f m) s.
Proof. unfold halts, with_err. by destruct (m s) as [s' []]. Qed.
Lemma always_with_err {E' A} (f : E -> E') (m : st S E A) : always m -> always (with_err f m).
Proof. intros Hm s. by apply halts_with_err. Qed.
Lemma halts_zoom {T A} (get : T -> S) set (m : st S E A) t : halts m (get t) -> halts (zoom get set m) t.
Proof. unfold halts, zoom. by destruct (m (get t)) as [s' []]. Qed.
(** A call that ends, and what it leaves. *)
Lemma halts_wpx {A} (m : st S E A) (Q : A -> S -> Prop) R s :
  halts m s -> hoare m Q (fun _ => R) s -> wpx m Q R (fun _ => True) s.
Proof. unfold halts, hoare, wpx. by destruct (m s) as [s' []]. Qed.
Lemma wpx_halts {A} (m : st S E A) (Q : A -> S -> Prop) R T s : wpx m Q R T s -> halts m s.
Proof. unfold halts, wpx. by destruct (m s) as [s' []]. Qed.
End rules.

Section host.
Context {PF : Platform}.
Implicit Types (h : Host) (l : Loc).

(** ** The file system *)

Lemma walk_stops links follow s cur p : returns (walk links follow s cur p).
Proof.
  revert cur p. induction links as [|links IHl]; intros cur p; revert cur; (induction p as [|[| | |n] p IH]; intros cur; [done|apply IH..|]); cbn;
    destruct (s !! (cur ++ [n])) as [[c| |x|]|]; try (by destruct p); try apply IH; by destruct (match p with [] => _ | _ => _ end).
Qed.
Lemma resolve_stops follow h p : returns (resolve follow h p).
Proof. unfold resolve. destruct p; [done|]. apply walk_stops. Qed.
Lemma always_syscall {A} (call : Host -> Host * outcome io_err A) : (forall h, stops (call h).2) -> always (syscall call).
Proof.
  intros Hc h. unfold halts, syscall. pose proof (Hc h) as H. destruct (verdicts h) as [|[|f|n] vs]; [| |done|]; by destruct (call h).
Qed.
Lemma always_on_path {A} (follow : bool) (p : PathBuf) (call : Loc -> Store -> Store * outcome io_err A) : (forall l s, stops (call l s).2) -> always (on_path follow p call).
Proof.
  intros Hc. apply always_syscall. intros h. pose proof (resolve_stops follow h p). destruct (resolve follow h p) as [l|e| | |]; try done.
  pose proof (Hc l (store h)). by destruct (call l (store h)).
Qed.
Ltac call_stops := apply always_on_path; intros l s; cbn; repeat case_match; done.
Lemma always_symlink_metadata p : always (symlink_metadata p).
Proof. call_stops. Qed.
Lemma always_canonicalize p : always (canonicalize p).
Proof. call_stops. Qed.
Lemma always_read_link p : always (read_link p).
Proof. call_stops. Qed.
Lemma always_path_is_dir p : always (path_is_dir p).
Proof. call_stops. Qed.
Lemma always_create_dir p : always (create_dir p).
Proof. call_stops. Qed.
Lemma always_read_dir p : always (read_dir p).
Proof. call_stops. Qed.
Lemma always_remove_file p : always (remove_file p).
Proof. call_stops. Qed.
Lemma remove_empty_stops l s : stops (remove_empty l s).2.
Proof. unfold remove_empty. repeat case_match; done. Qed.
Lemma always_remove_dir p : always (remove_dir p).
Proof. apply always_on_path, remove_empty_stops. Qed.
Lemma always_open_write p : always (open_write p).
Proof. call_stops. Qed.
Lemma always_open_read p : always (open_read p).
Proof.
  apply always_syscall. intros h. destruct (resolve false h p) as [l|e| | |] eqn:E; try done; [repeat case_match; done|..]; pose proof (resolve_stops false h p) as H; by rewrite E in H.
Qed.
Lemma rename_at_stops src dst s : stops (rename_at src dst s).2.
Proof. unfold rename_at. repeat case_match; done. Qed.
Lemma always_rename src dst : always (rename src dst).
Proof.
  apply always_syscall. intros h. pose proof (resolve_stops false h src). pose proof (resolve_stops false h dst).
  destruct (resolve false h src) as [ls|e| | |], (resolve false h dst) as [ld|e'| | |]; try done.
  pose proof (rename_at_stops ls ld (store h)). by destruct (rename_at ls ld (store h)).
Qed.
Lemma always_read f k : always (read f k).
Proof.
  intros h. refine (always_syscall _ _ h). clear h. intros h. repeat case_match; done.
Qed.
Lemma always_write f bs : always (write f bs).
Proof.
  intros h. refine (always_syscall _ _ h). clear h. intros h. repeat case_match; done.
Qed.
Lemma write_some f bs h : hoare (write f bs) (fun n _ => bs <> [] -> (1 <= n)%nat) (fun _ _ => True) h.
Proof.
  assert (bs <> [] -> 0 < length bs)%nat as Hp by (destruct bs; [done|cbn; lia]). unfold hoare, write. cbv beta zeta.
  refine (hoare_syscall _ (fun n _ => bs <> [] -> (1 <= n)%nat) (fun _ _ => True) h _ _); [done|]. intros v.
  destruct (at_loc (store h) (loc f)) as [[]|]; intros Hn%Hp; destruct (verdicts h) as [|[]]; lia.
Qed.
Lemma always_append f bs : always (append f bs).
Proof.
  unfold append. assert (length bs <= length bs)%nat as Hl by done. revert Hl. generalize (length bs) at 2 3. intros fuel. revert bs.
  induction fuel as [|fuel IH]; intros [|b bs] Hl; cbn [write_loop]; try apply always_ret; [cbn in Hl; lia|]. intros h.
  eapply halts_bind; [apply always_write|apply write_some|]. cbv beta. intros n h' Hn. apply IH. rewrite length_drop. specialize (Hn ltac:(done)). cbn in *. lia.
Qed.
Lemma always_remove_at l : always (remove_at l).
Proof.
  apply always_syscall. intros h. destruct (at_loc (store h) l) as [[]|]; try done. pose proof (remove_empty_stops l (store h)). by destruct (remove_empty l (store h)).
Qed.
Lemma always_remove_each ls : always (remove_each ls).
Proof. induction ls as [|l ls IH]; cbn [remove_each]; [apply always_ret|]. apply always_bind; [apply always_remove_at|done]. Qed.
Lemma always_remove_dir_all p : always (remove_dir_all p).
Proof.
  apply always_bind; [apply always_on_path; intros l s; cbn; repeat case_match; done|intros l].
  apply always_bind; [apply always_get|intros h]. apply always_remove_each.
Qed.

(** ** Calls without fuel *)

Create HintDb always discriminated.
#[local] Hint Constants Opaque : always.
#[local] Hint Resolve always_ret always_fail always_get always_mod always_attempt always_with_err always_symlink_metadata always_canonicalize
  always_read_link always_path_is_dir always_create_dir always_read_dir always_remove_file always_remove_dir always_open_write always_open_read
  always_rename always_read always_append always_remove_dir_all : always.
Lemma validate_stops id : stops (validate_backup_identifier id).
Proof. unfold validate_backup_identifier, refuse. repeat case_match; done. Qed.
Lemma sanitize_stops path : stops (sanitize_relative_path path).
Proof.
  assert (forall cs clean saw, stops (sanitize_loop clean saw cs)) as Hl by (induction cs as [|[] cs IH]; intros; cbn; done || apply IH).
  unfold sanitize_relative_path, refuse. repeat (case_match; [done|]). pose proof (Hl (components path) [] false) as H'.
  destruct (sanitize_loop [] false (components path)) as [[? []]| | | |]; done.
Qed.
Ltac always_step :=
  lazymatch goal with
  | |- always (mbind _ _) => apply always_bind; [|intros ?]
  | |- always (match ?c with _ => _ end) => destruct c
  | |- always (st_lift _) => apply always_lift
  | |- stops _ => first [apply validate_stops|apply sanitize_stops]
  | |- _ => progress unfold io, try_io, symlink_path_error, protocol || solve [eauto with always]
  end.
Ltac always_all := cbv beta zeta; repeat (always_step; cbv beta zeta).

(** A path has fewer components than its fuel. *)
Lemma length_parent p q : parent p = Some q -> (S (length q) = length p)%nat.
Proof.
  unfold parent. destruct p as [|c p _] using rev_ind; [done|]. rewrite last_snoc, removelast_last, length_app. cbn. destruct c; intros [= <-]; lia.
Qed.
Lemma always_create_dir_all fuel p : (length p <= fuel)%nat -> always (create_dir_all fuel p).
Proof.
  revert p. induction fuel as [|fuel IH]; intros [|c p] Hf; cbn [create_dir_all]; try (apply always_ret); [cbn in Hf; lia|]. cbv zeta.
  apply always_bind; [always_all|intros [u|e]; [apply always_ret|]]. destruct (not_found e); [|always_all].
  destruct (parent (c :: p)) eqn:Ep; [|apply always_fail]. apply length_parent in Ep. apply always_bind; [apply IH; cbn in Ep, Hf; lia|intros _]. always_all.
Qed.
Lemma always_alias p : always (is_approved_system_alias p).
Proof. unfold is_approved_system_alias. always_all. Qed.
#[local] Hint Resolve always_alias : always.
Lemma always_reject p : always (reject_symlink_components p).
Proof.
  assert (forall cs current, always (reject_loop current cs)) as Hl.
  { induction cs as [|[| | |n] cs IH]; intros current; cbn [reject_loop]; always_all; apply IH. }
  unfold reject_symlink_components, current_dir. always_all; try apply Hl. by apply always_with_err, always_syscall.
Qed.
#[local] Hint Resolve always_reject : always.
Lemma always_ensure root rel : always (ensure_no_symlink_components_at_root root rel).
Proof. revert root. unfold ensure_no_symlink_components_at_root. induction rel as [|[| | |n] rel IH]; intros cur; cbn [ensure_loop]; always_all; apply IH. Qed.
#[local] Hint Resolve always_ensure : always.
Lemma always_canonical_root p : always (canonical_backup_root p).
Proof. unfold canonical_backup_root, canonicalize_simplified. always_all. Qed.
#[local] Hint Resolve always_canonical_root : always.
Lemma always_resolve layout rel : always (resolve_relative_path layout rel).
Proof. unfold resolve_relative_path. always_all. Qed.
Lemma always_relative layout p : always (layout_relative_path layout p).
Proof. unfold layout_relative_path. always_all. Qed.
#[local] Hint Resolve always_resolve always_relative : always.
Lemma always_create_no_symlink root rel : always (create_dir_all_no_symlink root rel).
Proof.
  assert (forall rel root cur, always (create_loop root cur rel)) as Hl.
  { intros rel'. induction rel' as [|[| | |n] rel' IH]; intros root' cur; cbn [create_loop]; unfold make_directory, check_directory, canonicalize_simplified; always_all; apply IH. }
  unfold create_dir_all_no_symlink. always_all.
Qed.
#[local] Hint Resolve always_create_no_symlink : always.
Lemma always_open_file_write p : always (open_file_for_write p).
Proof. unfold open_file_for_write. always_all. Qed.
Lemma always_open_file_read p : always (open_file_for_read p).
Proof. unfold open_file_for_read. always_all. Qed.
#[local] Hint Resolve always_open_file_write always_open_file_read : always.
Lemma always_create_layout layout p : always (create_layout_directory layout p).
Proof. unfold create_layout_directory. always_all. Qed.
Lemma always_create_parent layout p : always (create_layout_parent_directory layout p).
Proof. unfold create_layout_parent_directory. always_all. Qed.
Lemma always_layout_write layout p : always (open_layout_file_for_write layout p).
Proof. unfold open_layout_file_for_write. always_all. Qed.
Lemma always_layout_read layout p : always (open_layout_file_for_read layout p).
Proof. unfold open_layout_file_for_read. always_all. Qed.
Lemma always_rename_layout layout src dst : always (rename_layout_path layout src dst).
Proof. unfold rename_layout_path. always_all. Qed.
Lemma always_contents root p : always (contents_of_directory root p).
Proof.
  assert (forall names entries, always (list_entries p names entries)) as Hl by (induction names as [|n names IH]; intros; cbn [list_entries]; always_all).
  unfold contents_of_directory. always_all.
Qed.
Lemma always_each {A} (f : A -> host unit) (l : list A) : (forall a, always (f a)) -> always (each f l).
Proof. intros Hf. induction l; cbn [each]; always_all; auto. Qed.
#[local] Hint Resolve always_create_layout always_create_parent always_layout_write always_layout_read always_rename_layout always_contents : always.
Lemma always_create_root p : always (create_root p).
Proof. unfold create_root. always_all. apply always_with_err, always_create_dir_all. lia. Qed.
#[local] Hint Resolve always_create_root : always.
Lemma always_seed `{PC : PlistCodec} now uuid d info full : always (seed_files now uuid d info full).
Proof.
  assert (forall names, always (required_files d names)) as H1 by (induction names; cbn [required_files]; always_all).
  assert (forall names b, always (manifest_files d b names)) as H2 by (induction names as [|n names IH]; intros; cbn [manifest_files]; always_all).
  unfold seed_files, should_do_full_backup, has_incremental_backup_metadata, write_plist. always_all; try apply H1; try apply H2.
  apply always_each. intros name. unfold validate_seed_file_path. always_all.
Qed.
#[local] Hint Resolve always_seed : always.
Lemma always_initialize `{PC : PlistCodec} now uuid root t info full : always (initialize_backup_directory now uuid root t info full).
Proof. unfold initialize_backup_directory. always_all. Qed.
Lemma always_runtime root t : always (create_runtime_layout root t).
Proof. unfold create_runtime_layout. always_all. Qed.
Lemma always_ensure_backup root t : always (ensure_backup_directory root t).
Proof. unfold ensure_backup_directory, safe_path_from_root. always_all. apply always_each. intros name. always_all. Qed.
Lemma always_metadata_path root t name : always (metadata_file_path root t name).
Proof. unfold metadata_file_path, safe_path_from_root, check_metadata_file. always_all. Qed.

(** ** Loops over a file *)

(** A call that ends, with what it then leaves. *)
Definition finishes {S E A} (m : st S E A) (Q : A -> S -> Prop) (s : S) : Prop := wpx m Q (fun _ => True) (fun _ => True) s.
Lemma finishes_bind {S E A B} (m : st S E A) (f : A -> st S E B) Q' Q R s :
  halts m s -> hoare m Q' R s -> (forall a s', Q' a s' -> finishes (f a) Q s') -> finishes (m ≫= f) Q s.
Proof.
  intros Hm Hq Hf. apply wpx_bind. eapply wpx_mono; [apply halts_wpx with (R := fun _ => True); [exact Hm|eapply hoare_mono; [exact Hq|exact Hf|done]]|done..].
Qed.
Lemma finishes_ret {S E A} (a : A) (Q : A -> S -> Prop) (s : S) : Q a s -> finishes (mret a : st S E A) Q s.
Proof. done. Qed.
Lemma finishes_halts {S E A} (m : st S E A) (Q : A -> S -> Prop) (s : S) : finishes m Q s -> halts m s.
Proof. apply wpx_halts. Qed.
Lemma wpx_and_hoare {S E A} (m : st S E A) (Q Q' : A -> S -> Prop) R' (s : S) :
  finishes m Q s -> hoare m Q' R' s -> finishes m (fun a s => Q a s /\ Q' a s) s.
Proof. unfold finishes, wpx, hoare. by destruct (m s) as [s' []]. Qed.
Lemma finishes_always {S E A} (m : st S E A) (s : S) : always m -> finishes m (fun _ _ => True) s.
Proof. intros Hm. apply halts_wpx; [apply Hm|]. unfold hoare. by destruct (m s) as [s' []]. Qed.
Lemma hoare_true {S E A} (m : st S E A) (s : S) : hoare m (fun _ _ => True) (fun _ _ => True) s.
Proof. unfold hoare. by destruct (m s) as [s' []]. Qed.

Lemma hoare_err {S E E' A} (f : E -> E') (m : st S E A) (Q : A -> S -> Prop) (R : S -> Prop) (s : S) : hoare m Q (fun _ => R) s -> hoare (with_err f m : st S E' A) Q (fun _ => R) s.
Proof. exact (hoare_with_err f m Q (fun _ => R) s). Qed.
Lemma read_more f k h : hoare (read f k)
  (fun r h' => same h h' /\ loc r.2 = loc f /\ (r.1 <> [] -> offset f < offset r.2 <= file_length f h)%nat) (fun _ => same h) h.
Proof.
  unfold read. cbv zeta. apply hoare_syscall; [done|]. intros v. unfold file_length. destruct (at_loc (store h) (loc f)) as [[c| | |]|]; try done.
  split; [done|]. split; [done|]. cbn [fst snd offset]. intros Hn.
  assert (forall j, take j (drop (offset f) c) <> [] -> offset f < offset f + length (take j (drop (offset f) c)) <= length c)%nat as H; [|by apply H].
  intros j Hj. rewrite length_take, length_drop. destruct (take j (drop (offset f) c)) eqn:E; [done|]. apply (f_equal length) in E.
  rewrite length_take, length_drop in E. cbn in E. lia.
Qed.
Lemma same_length h h' f g : same h h' -> loc g = loc f -> file_length g h' = file_length f h.
Proof. intros (E & _) El. unfold file_length. by rewrite E, El. Qed.
Lemma read_all_halts fuel f got h : (file_length f h <= fuel + offset f)%nat -> halts (read_all fuel f got) h.
Proof.
  revert f got h. induction fuel as [|fuel IH]; intros f got h Hl; cbn [read_all];
    (eapply halts_bind; [apply halts_with_err, always_read|apply hoare_err, read_more|]); intros [[|b bs] g] h' (Hs & Hg & Ho); try done; cbn [fst snd] in *; specialize (Ho ltac:(done)); [lia|].
  apply IH. rewrite (same_length _ _ _ _ Hs Hg). lia.
Qed.
Lemma always_from_reader `{PC : PlistCodec} f : always (from_reader f).
Proof.
  intros h. apply halts_get_bind. apply halts_bind_always; [apply read_all_halts; lia|]. intros bs. destruct (from_bytes bs); always_all.
Qed.
#[local] Hint Resolve always_from_reader always_initialize always_runtime always_ensure_backup always_metadata_path : always.
Lemma always_dictionary `{PC : PlistCodec} p : always (read_backup_dictionary p).
Proof. unfold read_backup_dictionary, open_backup_metadata_for_read. always_all. Qed.
Lemma always_encrypted `{PC : PlistCodec} root t : always (backup_is_encrypted root t).
Proof. pose proof always_dictionary. unfold backup_is_encrypted. always_all. Qed.

(** Nothing new has appeared. *)
Definition kept h h' : Prop := forall k, is_Some (store h' !! k) -> is_Some (store h !! k).
Definition untouched f h h' : Prop := (forall l, l <> loc f -> at_loc (store h') l = at_loc (store h) l) /\ kept h h'.
Lemma write_kept f bs h : hoare (write f bs) (fun _ => untouched f h) (fun _ => same h) h.
Proof.
  refine (hoare_syscall _ (fun _ => untouched f h) (fun _ => same h) h _ _); [done|]. intros v. destruct (at_loc (store h) (loc f)) as [[c| | |]|] eqn:E; try (split; [done|by intros k]; done).
  cbn [store set_store set_verdicts]. assert (loc f <> []) as Hn by (intros H; by rewrite H in E). split.
  - intros [|n l] Hl; [done|]. apply lookup_insert_ne. by intros H.
  - intros k Hk. cbn [store set_store set_verdicts] in Hk. destruct (decide (loc f = k)) as [<-|]; [rewrite at_nonempty in E by done; by eexists|by rewrite lookup_insert_ne in Hk].
Qed.
Lemma append_kept f bs h : hoare (append f bs) (fun _ => untouched f h) (fun _ _ => True) h.
Proof.
  unfold append. generalize (length bs). intros fuel. revert bs h. induction fuel as [|fuel IH]; intros [|b bs] h; cbn [write_loop]; try (apply hoare_ret; split; [done|by intros k]); [done|].
  apply hoare_bind. eapply hoare_mono; [apply write_kept| |done]. cbv beta. intros n h1 [A1 K1].
  eapply hoare_mono; [apply IH| |done]. cbv beta. intros _ h2 [A2 K2]. split; [intros l Hl; by rewrite A2, A1|intros k Hk; by apply K1, K2].
Qed.
Lemma copy_loop_finishes fuel src dst h : loc src <> loc dst -> (file_length src h <= fuel + offset src)%nat ->
  finishes (copy_loop fuel src dst) (fun _ => kept h) h.
Proof.
  intros Hd. revert src h Hd. induction fuel as [|fuel IH]; intros src h Hd Hl; cbn [copy_loop];
    (eapply finishes_bind; [apply halts_with_err, always_read|apply hoare_err, read_more|]); intros [[|b bs] g] h' (Hs & Hg & Ho); cbn [fst snd] in *;
    try (apply finishes_ret; intros k; by rewrite (same_store _ _ Hs)); specialize (Ho ltac:(done)); [lia|].
  eapply finishes_bind; [apply halts_with_err, always_append|apply hoare_err, append_kept|]. intros _ h2 [Hat Hk].
  eapply wpx_mono; [apply IH; [by rewrite Hg|]| |done|done].
  - unfold file_length in *. rewrite Hg, Hat, (same_store _ _ Hs) by done. lia.
  - cbv beta. intros _ h3 Hk3 k Hk'. rewrite <- (same_store _ _ Hs). by apply Hk, Hk3.
Qed.

(** ** Walks over a tree *)

Lemma depth_bound s k : is_Some (s !! k) -> (length k <= depth s)%nat.
Proof.
  intros [x Hx]. unfold depth. apply max_list_elem_of_le. apply list_elem_of_fmap. exists (k, x). split; [done|]. by apply elem_of_map_to_list.
Qed.
Lemma at_depth s k : is_Some (at_loc s k) -> (length k <= depth s)%nat.
Proof. destruct k as [|n k]; [cbn; lia|]. apply depth_bound. Qed.
Lemma each_halts {A} (f : A -> host unit) (l : list A) h :
  (forall a, quiet (f a)) -> (forall a h', a ∈ l -> same h h' -> halts (f a) h') -> halts (each f l) h.
Proof.
  intros Hq. revert h. induction l as [|a l IH]; intros h Hf; cbn [each]; [done|].
  eapply halts_bind; [apply Hf; [by left|apply same_refl]|apply Hq|]. cbv beta. intros _ h' Hs. apply IH. intros b h2 Hb H2.
  apply Hf; [by right|exact (same_trans _ _ _ Hs H2)].
Qed.
Lemma look_metadata l h : wf (store h) -> passable false (store h) l ->
  hoare (io (symlink_metadata (of_loc l))) (fun m h' => same h h' /\ at_loc (store h) l = Some (node m)) (fun _ => same h) h.
Proof. intros Hw Hp. apply hoare_err. eapply hoare_mono; [by apply symlink_metadata_spec|done|]. by intros e h' [Hs _]. Qed.
Lemma tree_halts fuel l h : wf (store h) -> passable false (store h) l -> (depth (store h) < fuel + length l)%nat ->
  halts (ensure_tree_has_no_symlinks fuel (of_loc l)) h.
Proof.
  revert l h. induction fuel as [|fuel IH]; intros l h Hw Hp Hd; cbn [ensure_tree_has_no_symlinks];
    (eapply halts_bind; [apply halts_with_err, always_symlink_metadata|apply look_metadata; done|]); cbv beta; intros m h1 [Hs Hm];
    (destruct (is_symlink (node m)) eqn:El; [done|]); (destruct (is_dir (node m)) eqn:Ed; [|done]).
  { assert (length l <= depth (store h))%nat by (apply at_depth; rewrite Hm; by eexists). lia. }
  assert (at_loc (store h) l = Some Directory) as Hm' by (rewrite Hm; by destruct (node m)).
  pose proof (same_store _ _ Hs) as Es. assert (linkless (store h) l) as Hl by by apply dir_linkless.
  eapply halts_bind; [apply halts_with_err, always_read_dir|apply quiet_io, read_dir_quiet|]. cbv beta. intros names h2 Hs2.
  apply each_halts; [intros; apply quiet_tree|]. intros n h3 _ Hs3. rewrite push_normal, of_loc_snoc.
  assert (store h3 = store h) as E3 by (by rewrite (same_store _ _ Hs3), (same_store _ _ Hs2)).
  apply IH; rewrite E3; [done|by apply passable_snoc|]. rewrite length_app. cbn. lia.
Qed.

Section layout.
Context (R : Loc) (t : bytes) (s0 : Store) (o0 : list Loc).
#[local] Abbreviation Inv := (Inv R t s0 o0).
#[local] Abbreviation D := (R ++ [t]).
#[local] Abbreviation layout := (layout_of R t).

(** Nothing new has appeared but on the way to [d]. *)
Definition written (d : Loc) h h' : Prop := forall k, is_Some (store h' !! k) -> is_Some (store h !! k) \/ k `prefix_of` d.
Lemma written_same d h h' : same h h' -> written d h h'.
Proof. intros Hs k Hk. left. by rewrite <- (same_store _ _ Hs). Qed.
Lemma written_trans d h1 h2 h3 : written d h1 h2 -> written d h2 h3 -> written d h1 h3.
Proof. intros H1 H2 k [Hk|Hk]%H2; [by apply H1|by right]. Qed.
Lemma written_made d h h' : made d (store h) (store h') -> written d h h'.
Proof. intros Hm k Hk. destruct (Hm k) as [E|(_ & _ & Hp)]; [left; by rewrite <- E|by right]. Qed.
Lemma written_insert d v h h' : store h' = <[d := v]> (store h) -> written d h h'.
Proof. intros E k Hk. rewrite E in Hk. destruct (decide (d = k)) as [<-|Hn]; [by right|left]. by rewrite lookup_insert_ne in Hk. Qed.
Lemma written_kept d h h' : kept h h' -> written d h h'.
Proof. intros Hk k Hs. left. by apply Hk. Qed.

(** A copy walks the source, and what it writes below the source is not as deep. *)
Definition bounded (S0 : Loc) (M : nat) h : Prop := forall k, S0 `prefix_of` k -> is_Some (store h !! k) -> (length k <= M)%nat.
Lemma bounded_written S0 T0 M x h h' : ~ S0 `prefix_of` T0 -> (length (S0 ++ x) <= M)%nat -> bounded S0 M h -> written (T0 ++ x) h h' -> bounded S0 M h'.
Proof.
  intros HST HM Hb Hw k HS [Hk|Hk]%Hw; [by apply Hb|]. destruct (prefix_weak_total S0 T0 (T0 ++ x)) as [|H]; [by etrans|by eexists|done|].
  apply prefix_length in Hk. apply prefix_length in H. rewrite length_app in *. lia.
Qed.

Lemma each_finishes {A} (f : A -> host unit) (l : list A) (P : Host -> Prop) h :
  (forall a h', a ∈ l -> P h' -> finishes (f a) (fun _ => P) h') -> P h -> finishes (each f l) (fun _ => P) h.
Proof.
  revert h. induction l as [|a l IH]; intros h Hf HP; cbn [each]; [done|]. apply wpx_bind. eapply wpx_mono; [apply Hf; [by left|done]| |done|done].
  cbv beta. intros _ h' HP'. apply IH; [|done]. intros b h2 Hb. apply Hf. by right.
Qed.
(** Both handles of a copy, where they should be. *)
Lemma open_read_at l h : Inv h -> linkless (store h) (D ++ l) ->
  hoare (open_file_for_read (of_loc (D ++ l))) (fun f h' => Inv h' /\ loc f = D ++ l /\ store h' = store h) (fun _ => Inv) h.
Proof.
  intros Hi Hl. unfold open_file_for_read. apply hoare_bind, hoare_quiet; [apply quiet_reject|done|]. intros _ h1 Hs.
  assert (Inv h1) as Hi1 by by eapply inv_same. apply hoare_with_err. eapply hoare_mono; [apply open_read_spec; [apply Hi1|by rewrite (same_store _ _ Hs)]|..]; cbv beta.
  - intros f h2 (Hf & _ & Es & _ & Eo). split_and!; [|done|by rewrite Es, (same_store _ _ Hs)]. destruct Hi1 as (Hw & Hr & Hd & o & Ho & Hf').
    unfold BackupSpec.Inv. rewrite Es, Eo, Ho. split_and!; [done..|]. exists (o ++ [D ++ l]). split; [by rewrite app_assoc|].
    apply Forall_app. split; [done|]. constructor; [apply mine_prefix|done].
  - intros e h2 Hs2. by eapply inv_same.
Qed.
(** The checks before a copy. *)
Lemma copy_checks {A} l d (b : bool) e (f : Metadata -> host A) Q h : Inv h ->
  (forall m h', same h h' -> Inv h' -> linkless (store h') (D ++ l) -> linkless (store h') (D ++ d) -> at_loc (store h') (D ++ l) = Some (node m) -> finishes (f m) Q h') ->
  finishes (ensure_no_symlink_components_at_root (of_loc R) (map Normal (t :: l)) ;; ensure_no_symlink_components_at_root (of_loc R) (map Normal (t :: d)) ;;
    if b then protocol e else m ← io (symlink_metadata (of_loc (D ++ l))); f m) Q h.
Proof.
  intros Hi Hf. eapply finishes_bind; [apply always_ensure|by apply (ensure_mine R t s0 o0)|]. cbv beta. intros _ h1 [Hs1 Hl1].
  assert (Inv h1) as Hi1 by (by eapply inv_same). eapply finishes_bind; [apply always_ensure|by apply (ensure_mine R t s0 o0)|]. cbv beta. intros _ h2 [Hs2 Hl2].
  destruct b; [done|]. pose proof (same_trans _ _ _ Hs1 Hs2) as Hs. assert (Inv h2) as Hi2 by by eapply inv_same. rewrite (same_store _ _ Hs1), <- (same_store _ _ Hs) in Hl2. rewrite <- (same_store _ _ Hs) in Hl1.
  eapply finishes_bind; [apply halts_with_err, always_symlink_metadata|apply look_metadata; [apply Hi2|by apply linkless_passable]|].
  cbv beta. intros m h3 [Hs3 Hm]. rewrite <- (same_store _ _ Hs3) in Hl1, Hl2, Hm. apply Hf; [exact (same_trans _ _ _ Hs Hs3)|by eapply inv_same|done..].
Qed.
Lemma copy_file_finishes l d h : D ++ l <> D ++ d -> Inv h -> linkless (store h) (D ++ l) -> linkless (store h) (D ++ d) ->
  finishes (source ← open_file_for_read (of_loc (D ++ l)); destination ← open_file_for_write (of_loc (D ++ d)); copy source destination)
    (fun _ h' => Inv h' /\ written (D ++ d) h h') h.
Proof.
  intros Hld Hi Hl Hd. eapply finishes_bind; [apply always_open_file_read|by apply open_read_at|]. cbv beta. intros f h1 (Hi1 & Hf & E1).
  eapply finishes_bind; [apply always_open_file_write|apply open_for_write_spec; [done|by rewrite E1]|]. cbv beta. intros g h2 (Hi2 & Hg & _ & E2).
  unfold copy. apply wpx_bind, wpx_get. pose proof (copy_loop_finishes (file_length f h2) f g h2 ltac:(by rewrite Hf, Hg) ltac:(lia)) as Hc.
  eapply wpx_mono; [eapply wpx_and_hoare; [exact Hc|apply keeps_copy_loop; [unfold handle_mine; rewrite Hg; apply mine_prefix|exact Hi2]]| |done|done].
  cbv beta. intros _ h3 [Hk Hi3]. split; [done|]. rewrite E1 in E2. eapply written_trans; [by eapply written_insert|by apply written_kept].
Qed.
Lemma create_written k l h : Inv h -> inside R t k -> R ++ k `prefix_of` l ->
  hoare (create_dir_all_no_symlink (of_loc R) (map Normal k) ;; mret tt) (fun _ h' => Inv h' /\ written l h h' /\ grown (store h) (store h')) (fun _ => Inv) h.
Proof.
  intros Hi Hk Hp. eapply hoare_mono; [by apply create_spec| |done]. cbv beta. intros _ h' [Hi' Hm]. split; [done|].
  split; [apply written_made; by eapply made_prefix|by eapply made_grown].
Qed.
Lemma copy_item_finishes ls ld M fuel x h : ~ (D ++ ls) `prefix_of` (D ++ ld) -> Inv h -> bounded (D ++ ls) M h -> (M < fuel + length (D ++ ls ++ x))%nat ->
  finishes (copy_item fuel (of_loc R) (of_loc (D ++ ls ++ x)) (of_loc (D ++ ld ++ x))) (fun _ h' => Inv h' /\ bounded (D ++ ls) M h') h.
Proof.
  intros HST. revert x h. induction fuel as [|fuel IH]; intros x h Hi Hb HM; cbn [copy_item];
    pose proof (mine_parent R t (ld ++ x)) as (k & Ek & Hk & Hkp); rewrite Ek, strip_of_loc, (mine_root R t (ls ++ x)), (mine_root R t (ld ++ x)), !strip_of_loc, <- !(mine_root R t (_ ++ x));
    (apply copy_checks; [done|]); intros m h1 Hs Hi1 Hl1 Hd1 Hm;
    (assert (length (D ++ ls ++ x) <= M)%nat as Hx by (apply Hb; [exists x; by rewrite (app_assoc D ls x)|]; rewrite <- (same_store _ _ Hs), <- at_nonempty by (by destruct R); rewrite Hm; by eexists)); [lia|].
  assert (forall h', written (D ++ ld ++ x) h1 h' -> bounded (D ++ ls) M h') as Hw.
  { intros h' Hw. eapply (bounded_written _ (D ++ ld) _ x); [done|by rewrite <- (app_assoc D)|exact Hb|]. rewrite <- (app_assoc D). eapply written_trans; [by apply written_same|done]. }
  destruct (is_symlink (node m)); [done|]. destruct (is_dir (node m)).
  - eapply finishes_bind; [apply always_create_no_symlink|apply (create_dir_all_spec R t s0 o0); [done|apply inside_mine]|].
    cbv beta. intros _ h2 (Hi2 & _ & _ & Hg). rewrite <- mine_root in Hg. eapply finishes_bind; [apply halts_with_err, always_read_dir|apply quiet_io, read_dir_quiet|].
    cbv beta. intros names h3 Hs3. apply each_finishes.
    + intros n h4 _ [Hi4 Hb4]. rewrite !push_normal, !of_loc_snoc, <- !(app_assoc D), <- !(app_assoc _ x). apply IH; [done|done|]. rewrite !length_app in *. cbn in *. lia.
    + split; [by eapply inv_same|]. apply Hw. eapply written_trans; [by apply written_made|by apply written_same].
  - destruct (is_file (node m)); [|done]. eapply finishes_bind; [apply halts_bind_always; [apply always_create_no_symlink|intros; apply always_ret]|by apply (create_written k (D ++ ld ++ x))|].
    cbv beta. intros _ h2 (Hi2 & Hw2 & Hg). eapply wpx_mono; [apply copy_file_finishes; [|done|by eapply grown_linkless..]| |done|done].
    + rewrite !app_assoc. intros Hc%app_inv_tail. apply HST. by rewrite Hc.
    + cbv beta. intros _ h3 [Hi3 Hw3]. split; [done|]. apply Hw. by eapply written_trans.
Qed.
Lemma copy_item_halts ls ld h : Inv h -> halts (copy_item (S (depth (store h))) (of_loc R) (of_loc (D ++ ls)) (of_loc (D ++ ld))) h.
Proof.
  intros Hi. destruct (decide (D ++ ls `prefix_of` D ++ ld)) as [Hp|Hp].
  - apply finishes_halts with (Q := fun _ _ => True). cbn [copy_item]. rewrite (mine_root R t ls), (mine_root R t ld), !strip_of_loc, <- (mine_root R t ls), <- (mine_root R t ld).
    assert (starts_with (of_loc (D ++ ld)) (of_loc (D ++ ls)) = true) as Hb by (apply bool_decide_eq_true; by apply of_loc_prefix).
    rewrite Hb, orb_true_r. by apply (copy_checks ls ld true _ (fun _ => mret tt)).
  - pose proof (copy_item_finishes ls ld (depth (store h)) (S (depth (store h))) [] h Hp Hi) as H. rewrite !app_nil_r in H.
    eapply finishes_halts, H; [intros k _; apply depth_bound|lia].
Qed.
Lemma remove_halts p h : mine R t p -> Inv h -> halts (remove_layout_path layout p) h.
Proof.
  intros [l ->] Hi. unfold remove_layout_path. apply halts_bind with (Q := fun rel h' => h' = h /\ rel = map Normal (t :: l)) (R := fun _ h' => h' = h); [apply always_relative|rewrite mine_root; apply relative_spec|].
  intros rel h' [-> ->]. eapply halts_bind; [apply always_ensure|by apply (ensure_mine R t s0 o0)|]. cbv beta. intros _ h1 [Hs1 Hl1].
  eapply halts_bind; [apply always_attempt, always_symlink_metadata|apply quiet_attempt, symlink_metadata_quiet|]. cbv beta. intros [m|e] h2 Hs2; [|by destruct (not_found e)].
  destruct (is_symlink (node m)); [done|]. destruct (is_dir (node m)); [|apply halts_with_err, always_remove_file].
  apply halts_get_bind. pose proof (same_trans _ _ _ Hs1 Hs2) as Hs. assert (Inv h2) as Hi2 by by eapply inv_same.
  apply halts_bind_always; [|intros; apply always_with_err, always_remove_dir_all]. apply tree_halts; [apply Hi2| |lia].
  rewrite (same_store _ _ Hs). by apply linkless_passable.
Qed.
Lemma prune_always fuel p : (match p with Some d => length d <= fuel | None => True end)%nat -> always (prune fuel layout p).
Proof.
  revert p. induction fuel as [|fuel IH]; intros [d|] Hl; cbn [prune]; try (by intros h).
  - destruct d; [|cbn in Hl; lia]. done.
  - destruct (_ || _); [by intros h|]. apply always_bind; [apply always_relative|intros rel]. apply always_bind; [apply always_ensure|intros _].
    apply always_bind; [apply always_with_err, always_read_dir|intros [|n ns]]; [|by intros h]. apply always_bind; [apply always_with_err, always_remove_dir|intros _].
    apply IH. destruct (parent d) eqn:E; [|done]. apply length_parent in E. lia.
Qed.
Lemma always_cleanup paths : always (cleanup_discarded_files layout paths).
Proof.
  unfold cleanup_discarded_files. apply always_each. intros p. always_all. apply prune_always. destruct (parent p) eqn:E; [|done]. apply length_parent in E. lia.
Qed.
End layout.
End host.

(** ** The client *)

Import Net Socket Filter Transfer Backup.

Section client.
Context {PF : Platform} {PC : PlistCodec} {RE : RegexEngine} (free_bytes_at : Store -> Loc -> Z) (error_text : io_err -> bytes).
Abbreviation client := (st Client Mobilebackup2Error).

(** A use of the socket ends, and nothing comes back to the bytes that are to come. *)
Definition drains {E A} (m : st Socket E A) : Prop := forall s,
  wpx m (fun _ s' => rx_bytes s' <= rx_bytes s)%nat (fun s' => rx_bytes s' <= rx_bytes s)%nat (fun _ => True) s.
(** If it has a value, something came. *)
Definition draws {E A} (m : st Socket E A) : Prop := forall s,
  wpx m (fun _ s' => rx_bytes s' < rx_bytes s)%nat (fun s' => rx_bytes s' <= rx_bytes s)%nat (fun _ => True) s.
Section drains.
Context {E : Type} `{!IoError E}.
Lemma draws_drains {A} (m : st Socket E A) : draws m -> drains m.
Proof. intros Hm s. eapply wpx_mono; [apply Hm|cbv beta; intros; lia|done|done]. Qed.
Lemma drains_ret {A} (a : A) : drains (mret a : st Socket E A).
Proof. intros s. by apply wpx_ret. Qed.
Lemma drains_fail {A} (e : E) : drains (st_fail e : st Socket E A).
Proof. intros s. by apply wpx_fail. Qed.
Lemma drains_bind {A B} (m : st Socket E A) (f : A -> st Socket E B) : drains m -> (forall a, drains (f a)) -> drains (m ≫= f).
Proof.
  intros Hm Hf s. apply wpx_bind. eapply wpx_mono; [apply Hm| |done|done]. cbv beta. intros a s1 H1.
  eapply wpx_mono; [apply Hf|..]; cbv beta; intros; try lia; done.
Qed.
Lemma draws_bind {A B} (m : st Socket E A) (f : A -> st Socket E B) : draws m -> (forall a, drains (f a)) -> draws (m ≫= f).
Proof.
  intros Hm Hf s. apply wpx_bind. eapply wpx_mono; [apply Hm| |done|done]. cbv beta. intros a s1 H1.
  eapply wpx_mono; [apply Hf|..]; cbv beta; intros; try lia; done.
Qed.
Lemma traffic_le i o s s' : traffic i o s s' -> (rx_bytes s' <= rx_bytes s)%nat.
Proof. intros H%traffic_rx_le. lia. Qed.
Lemma drains_write_all bs : drains (write_all (E := E) bs).
Proof.
  intros s. eapply wpx_mono; [apply write_all_traffic|cbv beta; intros _ s'; apply traffic_le|intros s' (o & _ & Ht); by eapply traffic_le|done].
Qed.
Lemma drains_flush : drains (flush (E := E)).
Proof. intros s. eapply wpx_mono; [apply flush_traffic|cbv beta; intros _ s'; apply traffic_le|intros s'; apply traffic_le|done]. Qed.
Lemma drains_read_exact n : 0 <= n -> drains (read_exact (E := E) n).
Proof.
  intros Hn s. eapply wpx_mono; [by apply read_exact_traffic|cbv beta; intros bs s' [_ Ht]; by eapply traffic_le|intros s' [i Ht]; by eapply traffic_le|done].
Qed.
Lemma draws_read_exact n : 0 < n -> draws (read_exact (E := E) n).
Proof.
  intros Hn s. eapply wpx_mono; [apply read_exact_traffic; lia| |intros s' [i Ht]; by eapply traffic_le|done].
  cbv beta. intros bs s' [Hl Ht%traffic_rx_le]. unfold len in Hl. lia.
Qed.
End drains.
#[local] Hint Resolve drains_ret drains_fail drains_write_all drains_flush : drains.
Ltac drains_all := cbv beta zeta; repeat (lazymatch goal with
  | |- drains (mbind _ _) => apply drains_bind; [|intros ?]
  | |- drains (match ?c with _ => _ end) => let H := fresh "Hc" in destruct c eqn:H
  | |- _ => progress unfold protocol || solve [eauto with drains]
  end; cbv beta zeta).
Lemma draws_read_u32 : draws read_u32_be.
Proof. unfold read_u32_be. apply draws_bind; [by apply draws_read_exact|intros; apply drains_ret]. Qed.
(** The lengths that were read are not negative. *)
Lemma u32_bind {A} (f : Z -> stream A) : (forall n, 0 <= n -> drains (f n)) -> draws (n ← read_u32_be; f n).
Proof.
  intros Hf. unfold read_u32_be. intros s. apply wpx_bind, wpx_bind. eapply wpx_mono; [by apply (draws_read_exact 4)| |done|done].
  cbv beta. intros bs s1 H1. apply wpx_ret. eapply wpx_mono; [apply Hf, be_Z_bound|..]; cbv beta; intros; try lia; done.
Qed.
Lemma draws_prefixed : draws read_prefixed_string.
Proof. unfold read_prefixed_string. apply u32_bind. intros n Hn. drains_all. by apply drains_read_exact. Qed.
(** The rounds are enough. *)
Definition chunk : Z := Z.of_nat DOWNLOAD_CHUNK_SIZE.
Lemma chunk_pos : 0 < chunk.
Proof. by vm_compute. Qed.
Lemma rounds_enough n : n <= Z.of_nat (rounds n) * chunk.
Proof.
  unfold rounds. pose proof chunk_pos. pose proof (Z.mod_pos_bound n chunk ltac:(done)). pose proof (Z.div_mod n chunk ltac:(lia)). unfold chunk in *.
  destruct (Z.le_gt_cases 0 (n / Z.of_nat DOWNLOAD_CHUNK_SIZE)); [nia|]. nia.
Qed.
Lemma next_round n fuel : 0 < n -> n <= Z.of_nat (S fuel) * chunk -> n - Z.min n chunk <= Z.of_nat fuel * chunk.
Proof. intros Hp Hn. pose proof chunk_pos. pose proof (Z.mul_nonneg_nonneg (Z.of_nat fuel) chunk ltac:(lia) ltac:(lia)). rewrite Nat2Z.inj_succ, Z.mul_succ_l in Hn. lia. Qed.
Lemma drains_discard n : drains (discard_transfer_payload n).
Proof.
  unfold discard_transfer_payload. pose proof (rounds_enough n) as Hr. revert Hr. generalize (rounds n). intros fuel. revert n.
  induction fuel as [|fuel IH]; intros n Hn; cbn [discard_loop]; destruct (n <=? 0) eqn:E; try apply drains_ret; [lia|]. cbv zeta. fold chunk.
  apply drains_bind; [apply drains_read_exact; unfold chunk, DOWNLOAD_CHUNK_SIZE; lia|intros _]. apply IH, next_round; [lia|done].
Qed.
Lemma drains_preview n : 0 <= n -> drains (read_transfer_error_preview n).
Proof.
  intros Hn. unfold read_transfer_error_preview. cbv zeta. apply drains_bind; [apply drains_read_exact; unfold MAX_TRANSFER_ERROR_PREVIEW_SIZE; lia|intros p].
  apply drains_bind; [apply drains_discard|intros; apply drains_ret].
Qed.
Lemma drains_write_prefixed v : drains (write_prefixed_string v).
Proof. unfold write_prefixed_string. drains_all. Qed.
Lemma drains_write_frame code p : drains (write_transfer_frame code p).
Proof. unfold write_transfer_frame. drains_all. Qed.

(** The messages of the device link. *)
Lemma drains_map_err {A} (m : st Socket PlistFrame.PlistFrameError A) : drains m -> drains (DeviceLink.map_err m).
Proof. intros Hm s. apply DeviceLink.wpx_map_err, Hm. Qed.
Lemma drains_send_message v : drains (DeviceLink.send_message v).
Proof.
  apply drains_map_err. unfold PlistFrame.write_xml_plist_frame, PlistFrame.write_raw_plist_frame. drains_all.
Qed.
Lemma draws_recv_message : draws DeviceLink.recv_message.
Proof.
  intros s. apply DeviceLink.wpx_map_err. revert s. change (draws (PlistFrame.read_plist_frame Value DeviceLink.MAX_PLIST_SIZE)). unfold PlistFrame.read_plist_frame.
  intros s. apply wpx_bind. eapply wpx_mono; [by apply (draws_read_exact 4)| |done|done]. cbv beta. intros bs s1 H1.
  enough (drains (let length := be_Z bs in if DeviceLink.MAX_PLIST_SIZE <? length then st_fail (PlistFrame.Protocol (Msg "plist frame length {len} exceeds max {max_len}" [length; DeviceLink.MAX_PLIST_SIZE])) else
    payload ← read_exact length; match from_plist payload with Some v => mret v | None => st_fail PlistFrame.PlistError end) ) as H.
  { eapply wpx_mono; [apply H|..]; cbv beta; intros; try lia; done. }
  drains_all. apply drains_read_exact, be_Z_bound.
Qed.
#[local] Hint Resolve drains_send_message : drains.
Lemma drains_recv_message : drains DeviceLink.recv_message.
Proof. apply draws_drains, draws_recv_message. Qed.
#[local] Hint Resolve drains_recv_message : drains.
Lemma drains_version : drains DeviceLink.version_exchange.
Proof. unfold DeviceLink.version_exchange, DeviceLink.message_of, DeviceLink.ok_or. drains_all. Qed.
Lemma drains_recv_process : drains DeviceLink.recv_process_message.
Proof. unfold DeviceLink.recv_process_message, DeviceLink.message_of, DeviceLink.ok_or. drains_all. Qed.
Lemma drains_disconnect : drains DeviceLink.disconnect.
Proof. apply drains_send_message. Qed.

Section session.
Context (R : Loc) (t : bytes) (s0 : Store) (o0 : list Loc) (tracked : bool).
#[local] Abbreviation Inv := (Inv R t s0 o0).
#[local] Abbreviation mine := (mine R t).
#[local] Abbreviation layout := (layout_of R t).
#[local] Abbreviation CI := (CI R t s0 o0 tracked).
#[local] Abbreviation ckeeps := (ckeeps R t s0 o0 tracked).
#[local] Abbreviation bytes_left c := (rx_bytes (link c)).

(** With fewer than [n] bytes to come the call ends; the session goes on from there. *)
Definition onward (c c' : Client) : Prop := CI c' /\ (bytes_left c' <= bytes_left c)%nat.
Definition runs {A} (n : nat) (m : client A) : Prop := forall c, CI c -> (bytes_left c < n)%nat ->
  wpx m (fun _ => onward c) (onward c) (fun _ => True) c.
Lemma onward_refl c : CI c -> onward c c.
Proof. by split. Qed.
Lemma onward_trans c1 c2 c3 : onward c1 c2 -> onward c2 c3 -> onward c1 c3.
Proof. intros [H1 L1] [H2 L2]. split; [done|lia]. Qed.
Lemma runs_ret {A} n (a : A) : runs n (mret a).
Proof. intros c Hc _. by apply wpx_ret, onward_refl. Qed.
Lemma runs_fail {A} n e : runs n (st_fail e : client A).
Proof. intros c Hc _. by apply wpx_fail, onward_refl. Qed.
Lemma runs_from {B} n (m : client B) c c' : runs n m -> onward c c' -> (bytes_left c < n)%nat ->
  wpx m (fun _ => onward c) (onward c) (fun _ => True) c'.
Proof.
  intros Hm H1 Hn. eapply wpx_mono; [apply Hm; [apply H1|destruct H1; lia]|..]; cbv beta; intros; [by eapply onward_trans|by eapply onward_trans|done].
Qed.
Lemma runs_next {A B} n (f : A -> client B) a c c' : runs n (f a) -> onward c c' -> (bytes_left c < n)%nat ->
  wpx (f a) (fun _ => onward c) (onward c) (fun _ => True) c'.
Proof.
  apply runs_from.
Qed.
Lemma runs_bind {A B} n (m : client A) (f : A -> client B) : runs n m -> (forall a, runs n (f a)) -> runs n (m ≫= f).
Proof. intros Hm Hf c Hc Hn. apply wpx_bind. eapply wpx_mono; [by apply Hm| |done|done]. cbv beta. intros a c' H1. by eapply runs_next. Qed.
Lemma runs_get {B} n (f : Client -> client B) : (forall c0, CI c0 -> (bytes_left c0 < n)%nat -> wpx (f c0) (fun _ => onward c0) (onward c0) (fun _ => True) c0) -> runs n (st_get ≫= f).
Proof. intros Hf c Hc Hn. apply wpx_bind, wpx_get. by apply Hf. Qed.
Lemma runs_mod n f : ckeeps (st_mod f) -> (forall c, link (f c) = link c) -> runs n (st_mod f).
Proof. intros Hf Hl c Hc _. apply wpx_mod. split; [exact (Hf c Hc)|by rewrite Hl]. Qed.
Lemma runs_set n f : (forall c, CI c -> CI (f c)) -> (forall c, link (f c) = link c) -> runs n (st_mod f).
Proof. intros Hf. by apply runs_mod, ckeeps_mod. Qed.
Lemma runs_ok_or {A} n (o : option A) s : runs n (ok_or o s).
Proof. destruct o; [apply runs_ret|apply runs_fail]. Qed.
Lemma runs_attempt {A} n (m : client A) : runs n m -> runs n (attempt (E' := Mobilebackup2Error) m).
Proof.
  intros Hm c Hc Hn. specialize (Hm c Hc Hn). unfold wpx, attempt in *. by destruct (m c) as [c' []].
Qed.
Lemma onward_link c s : CI c -> (rx_bytes s <= bytes_left c)%nat -> onward c (set_link s c).
Proof. intros Hc Hl. by split. Qed.
Lemma runs_stream {A} n (m : stream A) : drains m -> runs n (on_stream m).
Proof.
  intros Hm c Hc _. specialize (Hm (link c)). unfold wpx, on_stream, zoom in *. destruct (m (link c)) as [s []]; try done; by apply onward_link.
Qed.
Lemma runs_link {A} n (m : DeviceLink.link A) : drains m -> runs n (on_link m).
Proof.
  intros Hm c Hc _. specialize (Hm (link c)). unfold wpx, on_link, zoom, with_err in *. destruct (m (link c)) as [s []]; try done; by apply onward_link.
Qed.
Lemma runs_disk {A} n (m : host A) : keeps R t s0 o0 m -> (forall h, Inv h -> halts m h) -> runs n (on_disk m).
Proof.
  intros Hk Hm c Hc _. pose proof (ckeeps_disk R t s0 o0 tracked m Hk c Hc) as H. specialize (Hm (disk c) (proj1 Hc)).
  unfold halts, hoare, wpx, on_disk, zoom in *. destruct (m (disk c)) as [h []]; try done; by split.
Qed.
(** The same with what is known of the value. *)
Lemma runs_disk_bind {A B} n (m : host A) (P : A -> Prop) (f : A -> client B) : always m ->
  (forall h, Inv h -> hoare m (fun a h' => Inv h' /\ P a) (fun _ => Inv) h) -> (forall a, P a -> runs n (f a)) -> runs n (on_disk m ≫= f).
Proof.
  intros Ha Hm Hf c [Hi Hd] Hn. apply wpx_bind. specialize (Ha (disk c)). specialize (Hm (disk c) Hi).
  unfold halts, hoare in *. unfold wpx at 1, on_disk, zoom. destruct (m (disk c)) as [h []]; try done.
  destruct Hm as [Hi' Hp]. eapply runs_next; [by apply Hf|by split; [split|]|done].
Qed.
Lemma wpx_disk_bind {A B} (m : host A) (Q' : A -> Host -> Prop) (f : A -> client B) c0 c : halts m (disk c) ->
  hoare m Q' (fun _ => Inv) (disk c) -> onward c0 c -> (forall a h, Q' a h -> wpx (f a) (fun _ => onward c0) (onward c0) (fun _ => True) (set_disk h c)) ->
  wpx (on_disk m ≫= f) (fun _ => onward c0) (onward c0) (fun _ => True) c.
Proof.
  intros Hm Hq [[Hi Hd] Hl] Hf. apply wpx_bind. unfold halts, hoare in *. unfold wpx at 1, on_disk, zoom. destruct (m (disk c)) as [h []]; try done. by apply Hf.
Qed.
(** A read of a file: the end, an error, or some bytes and a handle behind them. *)
Lemma wpx_read_bind {B} f k (g : bytes * Handle + io_err -> client B) c0 c : onward c0 c ->
  (forall r h, same (disk c) h -> match r with inl (b :: bs, f') => loc f' = loc f /\ (offset f < offset f' <= file_length f (disk c))%nat | _ => True end ->
    wpx (g r) (fun _ => onward c0) (onward c0) (fun _ => True) (set_disk h c)) ->
  wpx (on_disk (try_io (Fs.read f k)) ≫= g) (fun _ => onward c0) (onward c0) (fun _ => True) c.
Proof.
  intros H1 Hg. eapply wpx_disk_bind with (Q' := fun r h => same (disk c) h /\ match r with inl (b :: bs, f') => loc f' = loc f /\ (offset f < offset f' <= file_length f (disk c))%nat | _ => True end);
    [apply always_attempt, always_read| |done|intros r h [? ?]; by apply Hg].
  apply hoare_attempt. eapply hoare_mono; [apply read_more|..]; cbv beta.
  - intros [[|b bs] f'] h (Hs & Hl & Ho); [done|]. split; [done|]. split; [done|]. by apply Ho.
  - intros [e|] h Hs; [done|]. eapply inv_same; [apply H1|exact Hs].
Qed.
Lemma runs_resolve {B} n rel (f : PathBuf -> client B) : (forall p, mine p -> runs n (f p)) -> runs n (on_disk (resolve_relative_path layout rel) ≫= f).
Proof.
  intros Hf. apply runs_disk_bind with (P := mine); [apply always_resolve| |done]. intros h Hi. eapply hoare_mono; [by apply (resolve_spec R t s0 o0)|..]; cbv beta.
  - intros p h' [Hs (l & -> & _)]. split; [by eapply inv_same|by eexists].
  - intros e h' Hs. by eapply inv_same.
Qed.
Lemma runs_disk_always {A} n (m : host A) : keeps R t s0 o0 m -> always m -> runs n (on_disk m).
Proof. intros Hk Hm. by apply runs_disk. Qed.
Lemma runs_quiet {A} n (m : host A) : quiet m -> always m -> runs n (on_disk m).
Proof. intros Hq. by apply runs_disk_always, keeps_quiet. Qed.
(** A step that took something leaves less to do. *)
Lemma runs_draw {A B} n (m : stream A) (f : A -> client B) : draws m -> (forall a, runs n (f a)) -> runs (S n) (on_stream m ≫= f).
Proof.
  intros Hm Hf c Hc Hn. apply wpx_bind. specialize (Hm (link c)). unfold wpx in Hm. unfold wpx at 1, on_stream, zoom.
  destruct (m (link c)) as [s []]; try done. pose proof (onward_link c s Hc ltac:(lia)) as H1.
  eapply wpx_mono; [apply Hf; [apply H1|cbn; lia]|..]; cbv beta; intros; [by eapply onward_trans|by eapply onward_trans|done].
Qed.
Lemma runs_draw_link {A B} n (m : DeviceLink.link A) (f : A -> client B) : draws m -> (forall a, runs n (f a)) -> runs (S n) (on_link m ≫= f).
Proof.
  intros Hm Hf c Hc Hn. apply wpx_bind. specialize (Hm (link c)). unfold wpx in Hm. unfold wpx at 1, on_link, zoom, with_err.
  destruct (m (link c)) as [s []]; try done. pose proof (onward_link c s Hc ltac:(lia)) as H1.
  eapply wpx_mono; [apply Hf; [apply H1|cbn; lia]|..]; cbv beta; intros; [by eapply onward_trans|by eapply onward_trans|done].
Qed.
Lemma runs_gets {B} n (f : Client -> client B) : (forall c, runs n (f c)) -> runs n (st_get ≫= f).
Proof. intros Hf. apply runs_get. intros c Hc Hn. by apply Hf. Qed.
(** A loop over the stream takes its fuel where it starts. *)
Lemma runs_fuel {A B} n (m : Client -> client A) (f : A -> client B) : (forall c, runs (link_fuel c) (m c)) -> (forall a, runs n (f a)) ->
  runs n (c ← st_get; a ← m c; f a).
Proof.
  intros Hm Hf. apply runs_get. intros c Hc Hn. apply wpx_bind. eapply wpx_mono; [apply Hm; [done|unfold link_fuel; lia]| |done|done].
  cbv beta. intros a c' H1. by eapply runs_next.
Qed.
Lemma runs_fuel_last {A} n (m : Client -> client A) : (forall c, runs (link_fuel c) (m c)) -> runs n (c ← st_get; m c).
Proof. intros Hm. apply runs_get. intros c Hc Hn. apply Hm; [done|unfold link_fuel; lia]. Qed.

Create HintDb runs discriminated.
#[local] Hint Constants Opaque : runs.
#[local] Hint Resolve runs_ret runs_fail runs_ok_or runs_attempt runs_stream runs_link drains_write_prefixed drains_write_frame drains_discard
  drains_send_message drains_write_all drains_flush : runs.
Ltac runs_step :=
  lazymatch goal with
  | |- runs _ (on_disk (resolve_relative_path _ _) ≫= _) => apply runs_resolve; intros ? ?
  | |- runs _ (mbind _ _) => apply runs_bind; [|intros ?]
  | |- runs _ (match ?c with _ => _ end) => destruct c
  | |- _ => progress unfold protocol, string_at || solve [eauto with runs]
  end.
Ltac runs_all := cbv beta zeta; repeat (runs_step; cbv beta zeta).

Lemma runs_account_file n : runs n account_transfer_file.
Proof.
  intros c Hc Hn. unfold account_transfer_file. apply wpx_bind, wpx_get. destruct (_ <? _); [by apply wpx_fail, onward_refl|]. apply wpx_bind, wpx_mod.
  destruct (_ <? _); by split.
Qed.
Lemma runs_account_bytes n k : runs n (account_transfer_bytes k).
Proof.
  intros c Hc Hn. unfold account_transfer_bytes. apply wpx_bind, wpx_get. destruct (_ <? _); [by apply wpx_fail, onward_refl|]. apply wpx_bind, wpx_mod.
  destruct (_ <? _); by split.
Qed.
#[local] Hint Resolve runs_account_file runs_account_bytes : runs.
Lemma runs_report n : runs n report_write_error.
Proof.
  unfold report_write_error. apply runs_gets. intros c. destruct (write_error c); [|apply runs_ret].
  apply runs_bind; [by apply runs_set|intros _; apply runs_fail].
Qed.
Lemma runs_write_file n f bs : handle_mine R t f -> runs n (write_file f bs).
Proof.
  intros Hf. unfold write_file. apply runs_bind; [apply runs_report|intros _].
  apply runs_bind; [apply runs_disk_always; [by apply keeps_try_append|apply always_attempt, always_append]|].
  intros [_|e]; [apply runs_ret|by apply runs_set].
Qed.
Lemma runs_copy_payload n f k : handle_mine R t f -> runs n (copy_transfer_payload f k).
Proof.
  intros Hf. unfold copy_transfer_payload. pose proof (rounds_enough k) as Hr. revert Hr. generalize (rounds k). intros fuel. revert k.
  induction fuel as [|fuel IH]; intros k Hk; cbn [copy_payload_loop]; destruct (k <=? 0) eqn:E; try apply runs_ret; [lia|]. cbv zeta. fold chunk.
  apply runs_bind; [apply runs_stream, drains_read_exact; unfold chunk, DOWNLOAD_CHUNK_SIZE; lia|intros bs].
  apply runs_bind; [by apply runs_write_file|intros _]. apply IH, next_round; [lia|done].
Qed.
Lemma runs_frames n fuel file : (n <= fuel)%nat -> (forall f, file = Some f -> handle_mine R t f) -> runs n (receive_frames fuel file).
Proof.
  intros Hn Hf. revert n Hn. induction fuel as [|fuel IH]; intros n Hn; cbn [receive_frames]; [intros c _ Hc; lia|].
  destruct n as [|n]; [intros c _ Hc; lia|]. apply runs_draw; [apply draws_read_u32|intros size]. apply runs_bind; [by apply runs_stream, drains_read_exact|intros code].
  destruct (size <? 1) eqn:Es; [apply runs_fail|]. cbv zeta. destruct (_ =? _).
  - apply runs_bind; [apply runs_account_bytes|intros _]. apply runs_bind; [|intros _; apply IH; lia]. destruct file as [f|]; [by apply runs_copy_payload, Hf|apply runs_stream, drains_discard].
  - destruct (_ =? _); [apply runs_stream, drains_discard|]. destruct (_ =? _).
    + apply runs_bind; [apply runs_stream, drains_preview; lia|intros; apply runs_ret].
    + apply runs_bind; [apply runs_stream, drains_discard|intros; apply runs_fail].
Qed.
Lemma runs_files n fuel : (n <= fuel)%nat -> runs n (receive_files fuel layout).
Proof.
  revert n. induction fuel as [|fuel IH]; intros n Hn; cbn [receive_files]; [intros c _ Hc; lia|].
  destruct n as [|n]; [intros c _ Hc; lia|]. apply runs_draw; [apply draws_prefixed|intros device_name].
  destruct (bool_decide _); [apply runs_ret|]. apply runs_bind; [apply runs_account_file|intros _]. apply runs_bind; [apply runs_stream, draws_drains, draws_prefixed|intros file_name].
  apply runs_resolve. intros p Hp. apply runs_bind; [apply runs_disk_always; [by apply keeps_create_parent|apply always_create_parent]|intros _]. apply runs_gets. intros c.
  set (preserve := match backup_filter c with Some _ => _ | None => _ end). clearbody preserve.
  apply (runs_disk_bind _ _ (handle_mine R t)); [apply always_layout_write|intros h Hi; by apply open_layout_write_spec|]. intros f Hf.
  apply runs_bind; [destruct preserve; [by apply runs_set|apply runs_mod; [|done]]|intros _].
  - apply ckeeps_mod. intros c' [Hi Hd]. split; [done|]. intros Ht. apply Forall_app. split; [by apply Hd|]. by constructor.
  - apply (runs_fuel _ (fun s => receive_frames (link_fuel s) (if preserve then Some f else None)) (fun _ => (if preserve then flush_file else mret tt) ;; receive_files fuel layout)); [|intros _; apply runs_bind; [destruct preserve; [apply runs_report|apply runs_ret]|intros _; apply IH; lia]]. intros c'. apply runs_frames; [done|]. intros g Hg.
    destruct preserve; [by injection Hg as <-|done].
Qed.
Lemma runs_receive n : runs n (receive_uploaded_files layout).
Proof. unfold receive_uploaded_files. apply runs_fuel_last. intros c. by apply runs_files. Qed.

(** *** Files for the device *)

(** The budget and the socket leave the disk alone. *)
Lemma disk_account k c : hoare (account_transfer_bytes k) (fun _ c' => disk c' = disk c) (fun _ _ => True) c.
Proof. unfold account_transfer_bytes. apply hoare_bind, hoare_get. destruct (_ <? _); [done|]. apply hoare_bind, hoare_mod. by destruct (_ <? _). Qed.
Lemma disk_stream {A} (m : stream A) c : hoare (on_stream m) (fun _ c' => disk c' = disk c) (fun _ _ => True) c.
Proof. apply hoare_zoom. unfold hoare. by destruct (m (link c)) as [s []]. Qed.
Lemma wpx_and_disk {A} n (m : client A) c c' : runs n m -> onward c c' -> (bytes_left c < n)%nat -> hoare m (fun _ c2 => disk c2 = disk c') (fun _ _ => True) c' ->
  wpx m (fun _ c2 => onward c c2 /\ disk c2 = disk c') (onward c) (fun _ => True) c'.
Proof. intros Hm H1 Hn Hd. pose proof (runs_from n m c c' Hm H1 Hn) as H. unfold wpx, hoare in *. by destruct (m c') as [c2 []]. Qed.
Lemma runs_contents n fuel rel f failures c : CI c -> (bytes_left c < n)%nat -> (file_length f (disk c) <= fuel + offset f)%nat ->
  wpx (send_contents error_text fuel rel f failures) (fun _ => onward c) (onward c) (fun _ => True) c.
Proof.
  revert f failures c. induction fuel as [|fuel IH]; intros f failures c Hc Hn Hf; cbn [send_contents]; (apply wpx_read_bind; [by apply onward_refl|]); intros r h Hs Hr;
    assert (onward c (set_disk h c)) as H1 by (split; [split; [by eapply inv_same; [apply Hc|]|apply Hc]|done]);
    (destruct r as [[[|b bs] f']|e]; [|destruct Hr as [Hl Ho]|]).
  1, 3, 4, 6: apply (runs_from n); [runs_all|done|done].
  1: lia.
  apply wpx_bind. eapply wpx_mono; [apply (wpx_and_disk n); [apply runs_account_bytes|exact H1|exact Hn|apply disk_account]| |done|done].
  cbv beta. intros _ c2 [H2 E2]. apply wpx_bind. eapply wpx_mono; [apply (wpx_and_disk n); [runs_all|exact H2|exact Hn|apply disk_stream]| |done|done].
  cbv beta. intros _ c3 [H3 E3]. eapply wpx_mono; [apply IH; [apply H3|destruct H3; lia|]|intros; by eapply onward_trans|intros; by eapply onward_trans|done].
  rewrite E3, E2. rewrite (same_length (disk c) h f f' Hs Hl : file_length f' (disk (set_disk h c)) = _). lia.
Qed.
Lemma runs_send_file n rel failures : runs n (send_file error_text layout rel failures).
Proof.
  unfold send_file. apply runs_resolve. intros p Hp. apply runs_bind; [apply runs_account_file|intros _]. apply runs_bind; [apply runs_stream, drains_write_prefixed|intros _].
  apply runs_bind.
  - apply runs_disk_always; [|apply always_attempt, always_layout_read]. intros h Hi. apply hoare_attempt. eapply hoare_mono; [by apply open_layout_read_spec|by intros f h' [? _]|by intros [e|]].
  - intros [f|[]]; try (by apply runs_fail); [|runs_all]. apply runs_get. intros c Hc Hn. apply (runs_contents n); [done..|lia].
Qed.
Lemma runs_requested n files : runs n (send_requested_files error_text layout files).
Proof.
  assert (forall failures, runs n (send_files error_text layout files failures)) as H.
  { induction files as [|v files IH]; intros failures; cbn [send_files]; [apply runs_ret|]. apply runs_bind; [apply runs_ok_or|intros rel]. apply runs_bind; [apply runs_send_file|done]. }
  unfold send_requested_files. apply runs_bind; [apply H|intros failures]. apply runs_bind; [apply runs_stream; drains_all|intros _; apply runs_ret].
Qed.

(** *** The loop *)

Lemma runs_filtered n p : runs n (filtered_out p).
Proof.
  apply runs_gets. intros c. destruct (backup_filter c); [|apply runs_ret]. unfold is_missing. apply runs_quiet.
  - apply quiet_bind; [apply quiet_attempt, symlink_metadata_quiet|intros; apply quiet_ret].
  - apply always_bind; [apply always_attempt, always_symlink_metadata|intros; apply always_ret].
Qed.
Lemma runs_is_directory n p : runs n (is_directory p).
Proof.
  apply runs_bind; [apply runs_quiet; [apply quiet_io, symlink_metadata_quiet|apply always_with_err, always_symlink_metadata]|intros; apply runs_ret].
Qed.
Lemma runs_send_ok n : runs n send_ok.
Proof. apply runs_link, drains_send_message. Qed.
Lemma runs_status n code m v : runs n (send_status_response code m v).
Proof. apply runs_link, drains_send_message. Qed.
Lemma runs_move n src dst : runs n (move_item layout src dst).
Proof.
  unfold move_item. apply runs_bind; [apply runs_ok_or|intros d]. apply runs_resolve. intros ps Hs. apply runs_resolve. intros pd Hd.
  apply runs_bind; [apply runs_filtered|intros [|]]; [apply runs_ret|]. apply runs_bind; [apply runs_disk_always; [by apply keeps_create_parent|apply always_create_parent]|intros _].
  apply runs_bind; [apply runs_is_directory|intros b]. apply runs_bind; [apply runs_disk_always; [by apply keeps_rename|apply always_rename_layout]|intros _].
  apply runs_mod; [by apply (ckeeps_relocate R t s0 o0 tracked)|done].
Qed.
Lemma runs_remove n item : runs n (remove_item layout item).
Proof.
  unfold remove_item. apply runs_bind; [apply runs_ok_or|intros rel]. apply runs_resolve. intros p Hp.
  apply runs_bind; [apply runs_disk; [by apply keeps_remove|intros h Hi; by apply (remove_halts R t s0 o0)]|intros _]. apply runs_mod; [apply ckeeps_forget|done].
Qed.
Lemma runs_copy n src dst : runs n (copy_request layout src dst).
Proof.
  unfold copy_request. apply runs_resolve. intros ps Hs. apply runs_resolve. intros pd Hd.
  apply runs_bind; [apply runs_filtered|intros [|]]; [apply runs_send_ok|]. apply runs_bind; [apply runs_is_directory|intros b].
  apply runs_get. intros c Hc Hn. pose proof Hs as [ls ->]. pose proof Hd as [ld ->].
  eapply wpx_disk_bind; [by apply (copy_item_halts R t s0 o0), Hc|apply keeps_copy_item; [done|done|apply Hc]|by apply onward_refl|]. cbv beta. intros _ h Hi.
  apply (runs_from n); [|split; [split; [done|apply Hc]|done]|done].
  apply runs_bind; [apply runs_mod; [by apply (ckeeps_copied R t s0 o0 tracked)|done]|intros _]. apply runs_send_ok.
Qed.
Lemma runs_handle n m : runs n (handle free_bytes_at error_text layout m).
Proof.
  unfold handle. apply runs_bind; [apply runs_ok_or|intros parts]. apply runs_bind; [apply runs_ok_or|intros command]. cbv zeta.
  repeat match goal with |- runs _ (if ?c then _ else _) => destruct c end; try (apply runs_bind; [|intros; apply runs_ret]).
  - unfold process_message. apply runs_bind; [apply runs_ok_or|intros payload]. apply runs_bind; [apply runs_ok_or|intros code].
    destruct (negb _); [|apply runs_ret]. apply runs_gets. intros c. destruct (code =? _); apply runs_fail.
  - apply runs_bind; [apply runs_ok_or|intros path]. apply runs_resolve. intros p Hp.
    apply runs_bind; [apply runs_disk_always; [by apply keeps_create_layout|apply always_create_layout]|intros _]. apply runs_send_ok.
  - apply runs_bind; [apply runs_receive|intros _]. apply runs_send_ok.
  - apply runs_bind; [apply runs_ok_or|intros files]. apply runs_bind; [apply runs_requested|intros [[] ?]]. apply runs_status.
  - apply runs_bind; [|intros k; apply runs_bind; [by apply runs_set|intros _; apply runs_status]]. apply runs_quiet.
    + apply quiet_io, quiet_bind; [apply path_is_dir_quiet|intros d]. apply quiet_on_path. intros l s. by destruct (at_loc s l).
    + apply always_with_err, always_bind; [apply always_path_is_dir|intros d]. apply always_on_path. intros l s. by destruct (at_loc s l).
  - apply runs_bind; [apply runs_ok_or|intros items]. apply runs_bind; [|intros _; apply runs_send_ok].
    induction items as [|[src dst] items IH]; cbn [move_items]; [apply runs_ret|]. apply runs_bind; [apply runs_move|done].
  - apply runs_bind; [apply runs_ok_or|intros items]. apply runs_bind; [|intros _; apply runs_send_ok].
    induction items as [|item items IH]; cbn [remove_items]; [apply runs_ret|]. apply runs_bind; [apply runs_remove|done].
  - apply runs_bind; [apply runs_ok_or|intros rel]. apply runs_resolve. intros p Hp. apply runs_bind; [apply runs_quiet; [apply quiet_contents|apply always_contents]|intros l; apply runs_status].
  - apply runs_bind; [apply runs_ok_or|intros src]. apply runs_bind; [apply runs_ok_or|intros dst]. apply runs_copy.
  - unfold purge_request. apply runs_gets. intros c. apply runs_bind; [by apply runs_set|intros _]. apply runs_link, drains_send_message.
  - apply runs_fail.
Qed.
Lemma runs_loop n fuel : (n <= fuel)%nat -> runs n (message_loop free_bytes_at error_text fuel layout).
Proof.
  revert n. induction fuel as [|fuel IH]; intros [|n] Hn; cbn [message_loop]; try (intros c _ Hc; lia).
  apply runs_draw_link; [apply draws_recv_message|intros m]. apply runs_bind; [apply runs_handle|intros [content|]]; [apply runs_ret|apply IH; lia].
Qed.
Lemma runs_run n : runs n (run_loop free_bytes_at error_text layout).
Proof. unfold run_loop. apply runs_fuel_last. intros c. by apply runs_loop. Qed.
Lemma runs_finish {A} n (r : A + Mobilebackup2Error) : runs n (finish_session r).
Proof.
  unfold finish_session, disconnect_best_effort. apply runs_bind; [apply runs_bind; [apply runs_attempt, runs_link, drains_disconnect|intros _; apply runs_ret]|intros _].
  destruct r; [apply runs_ret|apply runs_fail].
Qed.
Lemma runs_session n request : runs n (run_session free_bytes_at error_text layout request).
Proof.
  unfold run_session, send_request. apply runs_bind; [apply runs_link, drains_send_message|intros _]. apply runs_bind; [apply runs_attempt, runs_run|intros r]. apply runs_finish.
Qed.
Lemma runs_version n : runs n version_exchange.
Proof.
  unfold version_exchange. apply runs_bind; [by apply runs_set|intros _]. apply runs_bind; [apply runs_link, drains_version|intros v].
  apply runs_bind; [apply runs_link, drains_send_message|intros _]. apply runs_bind; [apply runs_link, drains_recv_process|intros r]. runs_all.
Qed.
Lemma runs_halts {A} (m : client A) c : (forall n, runs n m) -> CI c -> halts m c.
Proof. intros Hm Hc. eapply wpx_halts, (Hm (S (bytes_left c))); [done|lia]. Qed.
Lemma runs_bind_halts {A B} (m : client A) (f : A -> client B) c : (forall n, runs n m) -> CI c -> (forall a c', CI c' -> halts (f a) c') -> halts (m ≫= f) c.
Proof.
  intros Hm Hc Hf. specialize (Hm (S (bytes_left c)) c Hc ltac:(lia)). unfold wpx, onward, halts, mbind, st_bind in *.
  destruct (m c) as [c' []]; try done. apply Hf, Hm.
Qed.
End session.

(** ** The operations of the API *)

Definition placed (c : Client) : Prop := wf (store (disk c)) /\ at_loc (store (disk c)) (cwd (disk c)) = Some Directory.
(** The call ends from any well-formed disk. *)
Definition answers {A} (m : client A) : Prop := forall c, placed c -> halts m c.
(** A call that does not touch the disk. *)
Definition aside {A} (m : client A) : Prop := always m /\ forall c, hoare m (fun _ c' => disk c' = disk c) (fun _ _ => True) c.
Lemma aside_ret {A} (a : A) : aside (mret a).
Proof. by split. Qed.
Lemma aside_fail {A} e : aside (st_fail e : client A).
Proof. by split. Qed.
Lemma aside_lift {A} (o : outcome Mobilebackup2Error A) : stops o -> aside (st_lift o).
Proof. intros Ho. split; [by apply always_lift|]. intros c. by apply hoare_lift. Qed.
Lemma aside_ok_or {A} (o : option A) s : aside (ok_or o s).
Proof. destruct o; [apply aside_ret|apply aside_fail]. Qed.
Lemma aside_mod f : (forall c, disk (f c) = disk c) -> aside (st_mod f).
Proof. intros Hf. split; [by intros c|]. intros c. apply Hf. Qed.
Lemma aside_link {A} (m : DeviceLink.link A) : drains m -> aside (on_link m).
Proof.
  intros Hm. split.
  - intros c. apply halts_zoom, halts_with_err. eapply wpx_halts, Hm.
  - intros c. apply hoare_zoom, hoare_with_err. unfold hoare. by destruct (m (link c)) as [s []].
Qed.
Lemma aside_bind {A B} (m : client A) (f : A -> client B) : aside m -> (forall a, aside (f a)) -> aside (m ≫= f).
Proof.
  intros [Ha Hd] Hf. split; [apply always_bind; [done|intros a; apply Hf]|]. intros c. apply hoare_bind. eapply hoare_mono; [apply Hd| |done].
  cbv beta. intros a c1 E1. eapply hoare_mono; [apply Hf| |done]. cbv beta. intros b c2 E2. congruence.
Qed.
Lemma aside_version : aside version_exchange.
Proof.
  unfold version_exchange. apply aside_bind; [by apply aside_mod|intros _]. apply aside_bind; [apply aside_link, drains_version|intros v].
  apply aside_bind; [apply aside_link, drains_send_message|intros _]. apply aside_bind; [apply aside_link, drains_recv_process|intros r].
  apply aside_bind; [apply aside_ok_or|intros code]. destruct (negb _); [apply aside_fail|]. apply aside_bind; [apply aside_ok_or|intros v2].
  destruct (negb _); [apply aside_fail|apply aside_ret].
Qed.
Lemma aside_validate id : aside (st_lift (validate_backup_identifier id)).
Proof. apply aside_lift, validate_stops. Qed.
Lemma aside_source source : aside (validate_source source).
Proof. destruct source; [apply aside_validate|apply aside_ret]. Qed.
Lemma answers_always {A} (m : client A) : always m -> answers m.
Proof. intros Hm c _. apply Hm. Qed.
Lemma answers_bind {A B} (m : client A) (f : A -> client B) : aside m -> (forall a, answers (f a)) -> answers (m ≫= f).
Proof.
  intros [Ha Hd] Hf c Hc. eapply halts_bind; [apply Ha|apply Hd|]. cbv beta. intros a c' E. apply Hf. unfold placed. by rewrite E.
Qed.
Lemma always_finish {A} (r : A + Mobilebackup2Error) : always (finish_session r).
Proof.
  unfold finish_session, disconnect_best_effort. apply always_bind; [apply always_bind; [apply always_attempt, (aside_link _ drains_disconnect)|intros; apply always_ret]|].
  intros _. destruct r; [apply always_ret|apply always_fail].
Qed.
(** From the layout on: the session ends from wherever it is laid. *)
Lemma answers_layout {A B} tracked p t lay (m : host A) (f : A -> client B) : host_lays p t lay m -> always m ->
  (forall R s1 o a c, lay a = layout_of R t -> CI R t s1 o tracked c -> halts (f a) c) ->
  forall c, placed c -> (tracked = true -> discarded_files c = []) -> halts (on_disk m ≫= f) c.
Proof.
  intros Hm Ha Hf c [Hw Hc] Ht. eapply halts_bind with (Q := fun a c' => exists h', laid p t (disk c) (lay a) h' /\ c' = set_disk h' c) (R := fun _ _ => True); [by apply halts_zoom| |].
  - apply hoare_zoom. eapply hoare_mono; [by apply Hm| |done]. cbv beta. intros a h' Hl. by exists h'.
  - cbv beta. intros a c' (h' & Hl & ->). destruct (laid_CI p t (disk c) tracked (set_disk h' c) (lay a) Hl Ht) as (R & s1 & E & Hi & _). by eapply Hf.
Qed.
Lemma answers_session {A} p t (m : host BackupDirectoryLayout) request (f : option Value -> client A) : host_lays p t id m -> always m -> (forall v, always (f v)) ->
  answers (layout ← on_disk m; v ← run_session free_bytes_at error_text layout request; f v).
Proof.
  intros Hm Ha Hf c Hc. eapply (answers_layout false p t id); [done..| |done|done]. intros R s1 o layout c' El Hi. change (layout = layout_of R t) in El. subst layout.
  apply halts_bind_always; [|done]. eapply runs_halts; [|exact Hi]. intros n. apply runs_session.
Qed.
Lemma always_existing root id : always (existing_layout root id).
Proof. apply always_bind; [apply always_ensure_backup|intros _; apply always_runtime]. Qed.
Lemma halts_mod_bind {A} g (f : unit -> client A) c : halts (f tt) (g c) -> halts (st_mod g ≫= f) c.
Proof. done. Qed.

Lemma answers_password root t old_password new_password : answers (change_password free_bytes_at error_text root t old_password new_password).
Proof.
  unfold change_password. apply answers_bind; [apply aside_validate|intros _]. apply answers_bind; [apply aside_version|intros _].
  apply (answers_session root t); [apply host_lays_runtime|apply always_runtime|intros; apply always_ret].
Qed.
Lemma answers_info root t source : answers (info free_bytes_at error_text root t source).
Proof.
  unfold info. apply answers_bind; [apply aside_validate|intros _]. apply answers_bind; [apply aside_source|intros _]. apply answers_bind; [apply aside_version|intros _].
  intros c Hc. eapply (answers_layout false root (default t source) id); [apply host_lays_existing|apply always_existing| |done|done].
  intros R s1 o layout c' El Hi. change (layout = layout_of R (default t source)) in El. subst layout. eapply runs_halts; [|exact Hi]. intros n. apply runs_session.
Qed.
Lemma answers_list root t source : answers (list_request free_bytes_at error_text root t source).
Proof.
  unfold list_request. apply answers_bind; [apply aside_validate|intros _]. apply answers_bind; [apply aside_source|intros _]. apply answers_bind; [apply aside_version|intros _].
  intros c Hc. eapply (answers_layout false root (default t source) id); [apply host_lays_existing|apply always_existing| |done|done].
  intros R s1 o layout c' El Hi. change (layout = layout_of R (default t source)) in El. subst layout. eapply runs_halts; [|exact Hi]. intros n. apply runs_session.
Qed.
Lemma answers_operation root id request : answers (run_device_operation free_bytes_at error_text root id request).
Proof.
  intros c Hc. eapply (answers_layout false root id (fun l => l)); [apply host_lays_existing|apply always_existing| |done|done].
  intros R s1 o layout c' -> Hi. eapply runs_halts; [|exact Hi]. intros n. apply runs_bind; [apply runs_version|intros _].
  apply runs_bind; [apply runs_link, drains_send_message|intros _]. apply runs_run.
Qed.
Lemma answers_deadline m text : answers m -> answers (with_deadline m text).
Proof.
  intros Hm c Hc. assert (forall A (m : client A) c, halts m c -> halts (timeout m text) c) as Ht.
  { intros A m' c'. unfold halts, timeout. by destruct (m' c') as [c2 []]. }
  unfold with_deadline. apply halts_bind_always; [by apply halts_attempt, Ht, Hm|]. intros r c'. apply Ht, always_finish.
Qed.
Lemma answers_unback root t source password : answers (unback free_bytes_at error_text root t source password).
Proof.
  apply answers_deadline. unfold run_device_unback. apply answers_bind; [apply aside_validate|intros _]. apply answers_bind; [apply aside_source|intros _]. apply answers_operation.
Qed.
Lemma answers_extract root t domain path source password : answers (extract free_bytes_at error_text root t domain path source password).
Proof.
  apply answers_deadline. unfold run_device_extract. apply answers_bind; [apply aside_validate|intros _]. apply answers_bind; [apply aside_validate|intros _].
  apply answers_bind; [apply aside_lift, sanitize_stops|intros rel]. apply answers_bind; [apply aside_source|intros _]. apply answers_operation.
Qed.
Lemma answers_restore root t options : answers (restore free_bytes_at error_text root t options).
Proof.
  unfold restore. cbv zeta. set (source := default t (source_identifier options)).
  apply answers_bind; [apply aside_validate|intros _]. apply answers_bind; [apply aside_validate|intros _]. intros c Hc.
  eapply (answers_layout false root source fst); [apply host_lays_restore| | |done|done].
  - apply always_bind; [apply always_existing|intros l]. apply always_bind; [apply always_metadata_path|intros q]. apply always_bind; [apply always_dictionary|intros; apply always_ret].
  - intros R s1 o [layout manifest] c' El Hi. cbn [fst] in El. subst layout. eapply runs_halts; [|exact Hi]. intros n.
    apply runs_bind; [destruct (flag _ _); [apply runs_bind; [apply runs_ok_or|intros; apply runs_ret]|apply runs_ret]|intros pw].
    apply runs_bind; [apply runs_version|intros v]. apply runs_bind; [apply runs_session|intros _]. apply runs_ret.
Qed.
Lemma answers_backup now uuid root t full info_plist options : answers (backup_with_options free_bytes_at error_text now uuid root t full info_plist options).
Proof.
  unfold backup_with_options. apply answers_bind; [apply aside_validate|intros _].
  destruct (patch_manifest options && _); [by intros c|]. destruct (patch_manifest options); [by intros c|].
  apply answers_bind; [apply aside_version|intros version]. intros c Hc. 
  apply halts_mod_bind.
  eapply (answers_layout true root t (fun l => l)); [intros h; apply initialize_spec|apply always_initialize| |exact Hc|done].
  intros R s1 o layout c' -> Hi. eapply runs_bind_halts; [intros n; apply runs_link, drains_send_message|exact Hi|]. intros _ c1 H1.
  apply halts_bind_always; [eapply runs_halts; [intros n; apply runs_attempt, runs_run|exact H1]|]. intros r.
  apply always_bind; [apply always_attempt, always_finish|intros r']. apply always_bind; [apply always_get|intros c2]. apply always_bind; [apply always_mod|intros _].
  apply always_bind; [apply always_attempt; intros c3; apply halts_zoom, always_cleanup|intros cl].
  destruct r' as [?|?], cl as [?|?]; apply always_ret || apply always_fail.
Qed.

(** C11. Every operation of the backup client comes to an end: from any well-formed disk, with any links on it,
    whatever the device sends, however it cuts up what it sends, and whichever calls of the host fail, the
    operation returns its value or an error, unless it is dropped while it waits for the device. No bound of a
    loop is too small and nothing panics; a loop over the stream goes round at most once for each byte that
    came, and a loop over the disk at most once for each level, byte or name that is there. *)
Theorem backup_returns now uuid root t full info_plist backup_options old_password new_password source password domain path restore_options :
  answers (backup_with_options free_bytes_at error_text now uuid root t full info_plist backup_options) /\
  answers (change_password free_bytes_at error_text root t old_password new_password) /\
  answers (restore free_bytes_at error_text root t restore_options) /\
  answers (info free_bytes_at error_text root t source) /\
  answers (list_request free_bytes_at error_text root t source) /\
  answers (unback free_bytes_at error_text root t source password) /\
  answers (extract free_bytes_at error_text root t domain path source password).
Proof.
  split_and!; [apply answers_backup|apply answers_password|apply answers_restore|apply answers_info|apply answers_list|apply answers_unback|apply answers_extract].
Qed.
End client.
End BackupReturns.
