(* ===== verification/Slices.v ===== *)
(** Fixed layouts in byte strings: [data.get(offset..offset + n)] and records whose header is
    a sequence of pieces of given lengths. A parser that reads its fields at fixed offsets
    reads the pieces of the layout ([header_slice]), and every long enough input has such
    pieces ([header_split]). *)

From stdpp Require Import list.
From S2P Require Import Prelude.

Module Slices.

(** [data.get(offset..offset + n)] *)
Definition slice (data : bytes) (offset n : nat) : option bytes :=
  if (offset + n <=? length data)%nat then Some (take n (drop offset data)) else None.

Lemma slice_nth (l : list bytes) rest i p : l !! i = Some p -> slice (concat l ++ rest) (sum_list (map length (take i l))) (length p) = Some p.
Proof.
  revert i. induction l as [|a l IH]; intros [|i]; try done; cbn [lookup list_lookup take map].
  - intros [= ->]. unfold slice. cbn [concat sum_list]. rewrite <- app_assoc, length_app. rewrite (proj2 (Nat.leb_le _ _)) by (simpl; lia).
    cbn [sum_list]. by rewrite drop_0, take_app_length.
  - intros Hp%IH. unfold slice in *. cbn [concat]. change (sum_list (length a :: map length (take i l))) with (length a + sum_list (map length (take i l)))%nat.
    rewrite <- app_assoc. destruct (_ + _ <=? _)%nat eqn:E in Hp; [|done]. apply Nat.leb_le in E. rewrite (proj2 (Nat.leb_le _ _)) by (rewrite length_app; lia).
    by rewrite drop_app_add.
Qed.
(** A slice behind a prefix. *)
Lemma slice_behind a b c : slice (a ++ b ++ c) (length a) (length b) = Some b.
Proof. unfold slice. rewrite !length_app, (proj2 (Nat.leb_le _ _)) by lia. by rewrite drop_app_length, take_app_length. Qed.
Lemma slice_some d off n p : slice d off n = Some p -> drop off d = p ++ drop (off + n) d /\ length p = n.
Proof.
  unfold slice. destruct (off + n <=? length d)%nat eqn:E; [|done]. apply Nat.leb_le in E. intros [= <-].
  rewrite <- drop_drop, take_drop. split; [done|]. rewrite length_take, length_drop. lia.
Qed.

(** The pieces of a header. *)
Definition at_piece (l : list bytes) (i : nat) : bytes := default [] (l !! i).
Section header.
Context (layout : list nat) (l : list bytes) (rest : bytes).
Hypothesis Hl : map length l = layout.
Lemma header_slice i off n : sum_list (take i layout) = off -> layout !! i = Some n -> slice (concat l ++ rest) off n = Some (at_piece l i).
Proof.
  intros <- Hn. rewrite <- Hl in Hn. rewrite list_lookup_fmap in Hn. destruct (l !! i) as [p|] eqn:Hp; [|done]. injection Hn as <-.
  unfold at_piece. rewrite Hp. cbn [default from_option id]. rewrite <- Hl, firstn_map. apply (slice_nth _ _ _ _ Hp).
Qed.
Lemma piece_length i n : layout !! i = Some n -> length (at_piece l i) = n.
Proof.
  intros Hn. rewrite <- Hl in Hn. rewrite list_lookup_fmap in Hn. unfold at_piece. destruct (l !! i) as [p|]; [|done]. by injection Hn.
Qed.
Lemma concat_length : length (concat l) = sum_list layout.
Proof. by rewrite length_concat, Hl. Qed.
End header.

Fixpoint cut (ws : list nat) (d : bytes) : list bytes := match ws with [] => [] | w :: ws => take w d :: cut ws (drop w d) end.
Lemma cut_pieces (ws : list nat) (d : bytes) : (sum_list ws <= length d)%nat -> d = concat (cut ws d) ++ drop (sum_list ws) d /\ map length (cut ws d) = ws.
Proof.
  revert d. induction ws as [|w ws IH]; intros d Hd; [done|]. cbn [sum_list sum_list_with] in Hd. change ((w + sum_list ws <= length d)%nat) in Hd.
  destruct (IH (drop w d)) as [E1 E2]; [rewrite length_drop; lia|]. cbn [cut concat map]. rewrite E2, length_take. rewrite Nat.min_l by lia. split; [|done].
  change (sum_list (w :: ws)) with (w + sum_list ws)%nat. rewrite <- drop_drop, <- app_assoc, <- E1. by rewrite take_drop.
Qed.
Lemma header_split (layout : list nat) (d : bytes) : (sum_list layout <= length d)%nat -> exists (l : list bytes) rest, d = concat l ++ rest /\ map length l = layout.
Proof. intros Hd. destruct (cut_pieces layout d Hd) as [H1 H2]. by exists (cut layout d), (drop (sum_list layout) d). Qed.

End Slices.
