(* ===== verification/OsTrace.v ===== *)
(** The OS trace relay: the live log stream and the stored archive ([crates/ios-core/src/services/ostrace/mod.rs]).

    [OsTrace] has the severities, the filters of the client's side, the binary log record, the
    handshakes, the stream of records and the transfer of an archive, on a system that is not
    Windows. Case folding and regular expressions are the class [TextEngine]. The installation of
    an archive at its place, with its temporary files, is left out, but for the check of a tar
    file's frame. The theorems are in [OsTraceSpec]. *)

From stdpp Require Import list.
From S2P Require Import Prelude Utf8 Text Slices Socket Plist Fs Frames.

(** [str::to_lowercase] and [regex::RegexBuilder] (with or without the case, within a size). *)
Class TextEngine := {
  to_lowercase : bytes -> bytes;
  TraceRegex : Type;
  regex_build : bool -> Z -> bytes -> option TraceRegex;
  regex_is_match : TraceRegex -> bytes -> bool;
}.

Module OsTrace.
Import Slices Net Socket Text Plist.
#[local] Open Scope plist_scope.

Inductive OsTraceError := Io | PlistError | Protocol (m : msg) | Timeout.
#[export] Instance trace_io_error : IoError OsTraceError := Io.
Definition protocol (text : string) (args : list Z) : OsTraceError := Protocol (Msg text args).

Definition TRACE_FRAME_MAGIC : Z := 0x02.
Definition ARCHIVE_RESPONSE_MARKER : Z := 1.
Definition ARCHIVE_CHUNK_MAGIC : Z := 3.
Definition MAX_ARCHIVE_CHUNK_SIZE : Z := 16 * 1024 * 1024.
Definition TRACE_HEADER_SIZE : nat := 129.
Definition MAX_PLIST_SIZE : Z := 8 * 1024 * 1024.
Definition MAX_TRACE_ENTRY_SIZE : Z := 16 * 1024 * 1024.
Definition MAX_HANDSHAKE_LENGTH_BYTES : Z := 8.
Definition u64_max : Z := 2 ^ 64 - 1.

(** *** Severities *)

Definition LogLevel : Type := Z.
Definition DEFAULT : LogLevel := 0x00.
Definition INFO : LogLevel := 0x01.
Definition DEBUG : LogLevel := 0x02.
Definition USER_ACTION : LogLevel := 0x03.
Definition ERROR : LogLevel := 0x10.
Definition FAULT : LogLevel := 0x11.
Definition known_name (l : LogLevel) : option string :=
  if l =? DEFAULT then Some "Default"%string else if l =? INFO then Some "Info"%string
  else if l =? DEBUG then Some "Debug"%string else if l =? USER_ACTION then Some "UserAction"%string
  else if l =? ERROR then Some "Error"%string else if l =? FAULT then Some "Fault"%string else None.
Definition name (l : LogLevel) : bytes := str (default "Unknown"%string (known_name l)).
Definition display_name (l : LogLevel) : bytes :=
  match known_name l with Some n => str n | None => str "Unknown(" ++ print_int l ++ str ")" end.
Definition level_of (value : bytes) : option LogLevel :=
  let named s := bool_decide (value = str s) in
  if named "default" || named "notice" then Some DEFAULT
  else if named "info" then Some INFO
  else if named "debug" then Some DEBUG
  else if named "useraction" || named "user-action" || named "user_action" then Some USER_ACTION
  else if named "error" then Some ERROR
  else if named "fault" then Some FAULT
  else None.
Definition from_str (value : bytes) : outcome msg LogLevel :=
  match level_of (to_ascii_lowercase (trim value)) with
  | Some l => Ok l
  | None => Err (Msg "unknown log level {value:?}; valid levels: default, info, debug, error, fault" [])
  end.

(** [MessageFilter], [StreamFlags] *)
Definition LOG_MESSAGE : Z := Z.shiftl 1 2.
Definition STREAM_DEBUG : Z := 0x20.
Definition STREAM_ALL : Z := STREAM_DEBUG.
Record LevelFilter := mkLevels { message_filter : Z; stream_flags : Z; client_levels : list LogLevel }.
Definition default_level_filter : LevelFilter := mkLevels LOG_MESSAGE STREAM_ALL [].
(** The levels in the order of their first mention. *)
Fixpoint collect_levels (raws : list bytes) (levels : list LogLevel) : outcome msg (list LogLevel) :=
  match raws with
  | [] => Ok levels
  | raw :: raws =>
      if bool_decide (trim raw = []) then collect_levels raws levels else
      level ← from_str raw;
      collect_levels raws (if bool_decide (level ∈ levels) then levels else levels ++ [level])
  end.
Definition parse_level_filter (levels : bytes) : outcome msg LevelFilter :=
  if bool_decide (trim levels = []) then Ok default_level_filter else
  client_levels ← collect_levels (split_on x2c levels) [];
  let flags := if existsb (fun l => (l =? INFO) || (l =? DEBUG)) client_levels then STREAM_ALL else 0 in
  Ok (mkLevels LOG_MESSAGE flags client_levels).

(** *** Records *)

Record TraceTimestamp := mkTime { seconds : Z; microseconds : Z }.
Record LogLabel := mkLabel { subsystem : bytes; category : bytes }.
Record LogEntry := mkEntry {
  record_type : Z; pid : Z; procid : Z; process_uuid : bytes; activity_id : Z; parent_activity_id : Z;
  timestamp : TraceTimestamp; mach_timestamp : Z; level : LogLevel; thread_id : Z; image_uuid : bytes;
  image_name : bytes; image_offset : Z; filename : bytes; message : bytes; label : option LogLabel
}.

Definition truncated {A} (o : option A) : outcome OsTraceError A :=
  match o with Some a => Ok a | None => Err (protocol "OS trace entry truncated while reading {field}" []) end.
Definition read_u16 (data : bytes) (offset : nat) : outcome OsTraceError Z := bs ← truncated (slice data offset 2); Ok (le_Z bs).
Definition read_u32 (data : bytes) (offset : nat) : outcome OsTraceError Z := bs ← truncated (slice data offset 4); Ok (le_Z bs).
Definition read_u64 (data : bytes) (offset : nat) : outcome OsTraceError Z := bs ← truncated (slice data offset 8); Ok (le_Z bs).
Definition read_array (n : nat) (data : bytes) (offset : nat) : outcome OsTraceError bytes := truncated (slice data offset n).
(** [strip_suffix(&[0])] *)
Definition strip_nul (bs : bytes) : bytes := match last bs with Some x00 => removelast bs | _ => bs end.
Definition text_of (bs : bytes) : bytes := utf8_lossy (strip_nul bs).
(** The text and the offset behind it. *)
Definition read_string_field (data : bytes) (offset : nat) (length : Z) : outcome OsTraceError (bytes * nat) :=
  bs ← truncated (slice data offset (Z.to_nat length));
  Ok (text_of bs, (offset + Z.to_nat length)%nat).

Definition parse_entry (data : bytes) : outcome OsTraceError LogEntry :=
  if (length data <? TRACE_HEADER_SIZE)%nat
  then Err (protocol "OS trace entry too short: {} bytes, need at least {TRACE_HEADER_SIZE}" [len data]) else
  record_type ← read_u32 data 1;
  _ ← read_u32 data 5;
  pid ← read_u32 data 9;
  if 999999 <? pid then Err (protocol "OS trace pid {pid} exceeds sanity limit" [pid]) else
  procid ← read_u64 data 13;
  process_uuid ← read_array 16 data 21;
  procpath_len ← read_u16 data 37;
  activity_id ← read_u64 data 39;
  parent_activity_id ← read_u64 data 47;
  seconds ← read_u64 data 55;
  microseconds ← read_u32 data 63;
  if 1000000 <=? microseconds then Err (protocol "OS trace timestamp microseconds out of range: {microseconds}" [microseconds]) else
  level ← read_array 1 data 68;
  mach_timestamp ← read_u64 data 75;
  thread_id ← read_u32 data 83;
  image_uuid ← read_array 16 data 91;
  imagepath_len ← read_u16 data 107;
  message_len ← read_u32 data 109;
  image_offset ← read_u32 data 113;
  subsystem_len ← read_u16 data 117;
  category_len ← read_u16 data 121;
  '(filename, offset) ← read_string_field data TRACE_HEADER_SIZE procpath_len;
  '(image_name, offset) ← read_string_field data offset imagepath_len;
  '(message, offset) ← read_string_field data offset message_len;
  label ← (if (0 <? subsystem_len) && (0 <? category_len) then
             '(subsystem, offset) ← read_string_field data offset subsystem_len;
             '(category, _) ← read_string_field data offset category_len;
             Ok (Some (mkLabel subsystem category))
           else Ok None);
  Ok (mkEntry record_type pid procid process_uuid activity_id parent_activity_id (mkTime seconds microseconds) mach_timestamp
        (le_Z level) thread_id image_uuid image_name image_offset filename message label).

(** *** Filters of the client's side *)

Section filters.
Context `{TE : TextEngine}.
Record CompiledMessageFilter := mkCompiled {
  f_levels : list LogLevel; f_process : option bytes; f_subsystem : option bytes; f_category : option bytes;
  f_matches : list bytes; f_excludes : list bytes; f_regexes : list TraceRegex; f_ignore_case : bool
}.
Record MessageFilterSpec := mkSpec {
  levels : list LogLevel; process : option bytes; spec_subsystem : option bytes; spec_category : option bytes;
  spec_contains : option bytes; excludes : option bytes
}.
Definition optional {A} (o : option A) : list A := match o with Some a => [a] | None => [] end.
Definition compile_spec (s : MessageFilterSpec) : CompiledMessageFilter :=
  mkCompiled (levels s) (process s) (spec_subsystem s) (spec_category s) (optional (spec_contains s)) (optional (excludes s)) [] false.
Record MessageFilterOptions := mkFilterOptions {
  o_levels : list LogLevel; o_process : option bytes; o_subsystem : option bytes; o_category : option bytes;
  o_matches : list bytes; o_excludes : list bytes; o_regex : list bytes; o_ignore_case : bool
}.
Definition MAX_FILTER_TERMS : Z := 64.
Definition MAX_FILTER_TERM_LENGTH : Z := 4096.
Definition MAX_FILTER_REGEX_SIZE : Z := 4 * 1024 * 1024.
Fixpoint check_terms (groups : list (list bytes)) : outcome msg unit :=
  match groups with
  | [] => Ok tt
  | terms :: groups =>
      match List.find (fun term => MAX_FILTER_TERM_LENGTH <? len term) terms with
      | Some term => Err (Msg "OS trace {kind} filter is {} bytes; maximum is {MAX_FILTER_TERM_LENGTH}" [len term; MAX_FILTER_TERM_LENGTH])
      | None => check_terms groups
      end
  end.
Fixpoint build_all (ignore_case : bool) (patterns : list bytes) : outcome msg (list TraceRegex) :=
  match patterns with
  | [] => Ok []
  | pattern :: patterns =>
      re ← (match regex_build ignore_case MAX_FILTER_REGEX_SIZE pattern with
            | Some re => Ok re
            | None => Err (Msg "invalid OS trace regex {pattern:?}: {error}" [])
            end);
      res ← build_all ignore_case patterns; Ok (re :: res)
  end.
Definition compile (o : MessageFilterOptions) : outcome msg CompiledMessageFilter :=
  if (MAX_FILTER_TERMS <? len (o_matches o)) || (MAX_FILTER_TERMS <? len (o_excludes o)) || (MAX_FILTER_TERMS <? len (o_regex o))
  then Err (Msg "too many OS trace text filters; maximum is {MAX_FILTER_TERMS} per kind" [MAX_FILTER_TERMS]) else
  _ ← check_terms [o_matches o; o_excludes o; o_regex o];
  regexes ← build_all (o_ignore_case o) (o_regex o);
  let lower (v : bytes) := if o_ignore_case o then to_lowercase v else v in
  Ok (mkCompiled (o_levels o) (lower <$> o_process o) (lower <$> o_subsystem o) (lower <$> o_category o)
        (map lower (o_matches o)) (map lower (o_excludes o)) regexes (o_ignore_case o)).

Definition text_contains (f : CompiledMessageFilter) (haystack needle : bytes) : bool :=
  contains needle (if f_ignore_case f then to_lowercase haystack else haystack).
Definition text_equals (f : CompiledMessageFilter) (left right : bytes) : bool :=
  bool_decide ((if f_ignore_case f then to_lowercase left else left) = right).
Definition base_process_name (value : bytes) : bytes :=
  let name := List.hd [] (split_on x28 (List.last (split_on x2f value) value)) in
  if bool_decide (name = []) then value else name.
Definition matches_label (f : CompiledMessageFilter) (o : option bytes) (field : LogLabel -> bytes) (e : LogEntry) : bool :=
  match o with
  | None => true
  | Some wanted => match label e with Some l => text_contains f (field l) wanted | None => false end
  end.
Definition matches (f : CompiledMessageFilter) (e : LogEntry) : bool :=
  (bool_decide (f_levels f = []) || bool_decide (level e ∈ f_levels f)) &&
  match f_process f with
  | None => true
  | Some process => existsb (fun candidate => text_equals f candidate process)
      [filename e; image_name e; base_process_name (filename e); base_process_name (image_name e)]
  end &&
  matches_label f (f_subsystem f) subsystem e &&
  matches_label f (f_category f) category e &&
  negb (existsb (fun term => negb (text_contains f (message e) term)) (f_matches f)) &&
  negb (existsb (fun term => text_contains f (message e) term) (f_excludes f)) &&
  (bool_decide (f_regexes f = []) || existsb (fun re => regex_is_match re (message e)) (f_regexes f)).
End filters.

(** *** The live stream *)

Abbreviation trace := (st Socket OsTraceError).
(** [read_u8], [read_u32], [read_u32_le] *)
Definition stream_u8 : trace Z := bs ← read_exact 1; mret (be_Z bs).
Definition stream_u32 : trace Z := bs ← read_exact 4; mret (be_Z bs).
Definition stream_u32_le : trace Z := bs ← read_exact 4; mret (le_Z bs).
(** [tokio::time::timeout]: a call that would wait longer fails instead. *)
Definition with_timeout {A} (m : trace A) : trace A := fun s =>
  match m s with (s, Pending) => (s, Err Timeout) | r => r end.

(** [TraceStream::next_entry] *)
Definition next_entry : trace (option LogEntry) :=
  magic ← read 1;
  match magic with
  | [] => mret None
  | _ =>
      if negb (le_Z magic =? TRACE_FRAME_MAGIC)
      then st_fail (protocol "unexpected OS trace frame magic 0x{:02x}, expected 0x{TRACE_FRAME_MAGIC:02x}" [le_Z magic]) else
      length ← stream_u32_le;
      if length =? 0 then st_fail (protocol "OS trace frame has an empty entry" []) else
      if MAX_TRACE_ENTRY_SIZE <? length
      then st_fail (protocol "OS trace entry length {length} exceeds max {MAX_TRACE_ENTRY_SIZE}" [length; MAX_TRACE_ENTRY_SIZE]) else
      data ← read_exact length;
      e ← st_lift (parse_entry data);
      mret (Some e)
  end.
Definition next_entry_with_timeout : trace (option LogEntry) := with_timeout next_entry.
(** [into_stream]: the records up to the end or the error, which comes last; a round takes at least a byte. *)
Fixpoint into_stream (fuel : nat) : Socket -> Socket * list (LogEntry + OsTraceError) := fun s =>
  match fuel with
  | O => (s, [])
  | S fuel =>
      match next_entry s with
      | (s, Ok (Some e)) => let '(s, l) := into_stream fuel s in (s, inl e :: l)
      | (s, Err e) => (s, [inr e])
      | (s, _) => (s, [])
      end
  end.
Definition entries : Socket -> Socket * list (LogEntry + OsTraceError) := fun s => into_stream (S (rx_bytes s)) s.

Section filtered.
Context `{TE : TextEngine}.
(** The loop of [next_filtered_compiled]; every record takes bytes from the stream. *)
Fixpoint next_filtered_loop (fuel : nat) (f : CompiledMessageFilter) : trace (option LogEntry) :=
  match fuel with
  | O => st_lift OutOfFuel
  | S fuel =>
      e ← next_entry;
      match e with
      | None => mret None
      | Some e => if matches f e then mret (Some e) else next_filtered_loop fuel f
      end
  end.
Definition next_filtered_compiled (f : CompiledMessageFilter) : trace (option LogEntry) :=
  s ← st_get; next_filtered_loop (S (rx_bytes s)) f.
Definition next_filtered (f : MessageFilterSpec) : trace (option LogEntry) := next_filtered_compiled (compile_spec f).
Definition next_filtered_options (f : MessageFilterOptions) : trace (option LogEntry) :=
  match compile f with Ok f => next_filtered_compiled f | Err m => st_fail (Protocol m) | _ => st_lift OutOfFuel end.
End filtered.

(** *** The requests *)

Section requests.
Context `{PC : PlistCodec}.
Definition send_plist (value : Value) : trace unit :=
  match to_writer_xml value with
  | None => st_fail PlistError
  | Some buf =>
      if u32_max <? len buf then st_fail (protocol "request plist length {} exceeds u32" [len buf]) else
      if MAX_PLIST_SIZE <? len buf then st_fail (protocol "request plist length {} exceeds max {MAX_PLIST_SIZE}" [len buf; MAX_PLIST_SIZE]) else
      write_all (be_bytes 4 (len buf)) ;;
      write_all buf ;;
      flush
  end.
Definition dictionary_of (text : string) (buf : bytes) : trace (list (bytes * Value)) :=
  match from_bytes buf with
  | None => st_fail PlistError
  | Some v => match as_dictionary v with Some d => mret d | None => st_fail (protocol text []) end
  end.
Definition recv_prefixed_plist : trace (list (bytes * Value)) :=
  len ← stream_u32;
  if MAX_PLIST_SIZE <? len then st_fail (protocol "plist length {len} exceeds max {MAX_PLIST_SIZE}" [len; MAX_PLIST_SIZE]) else
  buf ← read_exact len;
  dictionary_of "OS trace response was not a dictionary" buf.
(** The status of a response. *)
Definition check_status (failed missing : string) (response : list (bytes * Value)) : trace unit :=
  match get (str "Status") response ?> as_string with
  | Some status => if bool_decide (status = str "RequestSuccessful") then mret tt else st_fail (protocol failed [])
  | None => st_fail (protocol missing [])
  end.
Definition get_pid_list : trace (list (bytes * Value)) :=
  send_plist (Dictionary [(str "Request", String (str "PidList"))]) ;;
  stream_u8 ;;
  recv_prefixed_plist.

Record TraceOptions := mkTraceOptions { trace_pid : Z; trace_filter : Z; trace_flags : Z }.
Definition default_trace_options : TraceOptions := mkTraceOptions (-1) (message_filter default_level_filter) (stream_flags default_level_filter).
Definition read_start_activity_handshake : trace unit :=
  length_length ← stream_u32_le;
  if negb ((1 <=? length_length) && (length_length <=? MAX_HANDSHAKE_LENGTH_BYTES))
  then st_fail (protocol "invalid OS trace handshake length-of-length {length_length}" [length_length]) else
  length_bytes ← read_exact length_length;
  let plist_len := le_Z length_bytes in
  if MAX_PLIST_SIZE <? plist_len then st_fail (protocol "OS trace handshake plist length {plist_len} exceeds max {MAX_PLIST_SIZE}" [plist_len; MAX_PLIST_SIZE]) else
  response ← read_exact plist_len;
  response ← dictionary_of "OS trace StartActivity response was not a dictionary" response;
  check_status "OS trace StartActivity failed with status {status:?}" "OS trace StartActivity response missing Status" response.
Definition start_activity_request (o : TraceOptions) : Value :=
  Dictionary [(str "Request", String (str "StartActivity")); (str "MessageFilter", Integer (trace_filter o));
              (str "Pid", Integer (trace_pid o)); (str "StreamFlags", Integer (trace_flags o))].
Definition start_activity (o : TraceOptions) : trace unit := send_plist (start_activity_request o) ;; read_start_activity_handshake.
Definition start_activity_with_timeout (o : TraceOptions) : trace unit := with_timeout (start_activity o).

End requests.

(** *** The stored archive *)

Record ArchiveOptions := mkArchive {
  size_limit : option Z; age_limit : option Z; start_time : option Z;
  max_total_bytes : Z; max_file_bytes : Z; max_extracted_bytes : Z; max_entries : Z
}.
Record ArchiveStats := mkStats { stat_bytes : Z; chunks : Z }.
(** What is kept of the bytes that came: their number, the first header and the last two blocks. *)
Record ArchiveWireState := mkWire { wire_bytes : Z; wire_prefix : bytes; wire_tail : bytes }.
Definition HEADER_BYTES : nat := 512.
Definition TRAILER_BYTES : nat := 1024.
Definition wire_default : ArchiveWireState := mkWire 0 [] [].
Definition push_tail (tail : bytes) (b : byte) : bytes :=
  (if (length tail =? TRAILER_BYTES)%nat then drop 1 tail else tail) ++ [b].
Definition push (w : ArchiveWireState) (data : bytes) : outcome OsTraceError ArchiveWireState :=
  if u64_max <? wire_bytes w + len data then Err (protocol "OS trace archive byte count overflow" []) else
  let prefix := if (length (wire_prefix w) <? HEADER_BYTES)%nat
                then wire_prefix w ++ take (HEADER_BYTES - length (wire_prefix w)) data else wire_prefix w in
  Ok (mkWire (wire_bytes w + len data) prefix (fold_left push_tail data (wire_tail w))).
Definition ustar_magic (header : bytes) : bool :=
  let magic := take 6 (drop 257 header) in bool_decide (magic = str "ustar" ++ [x00]) || bool_decide (magic = str "ustar ").
Definition all_zero (l : bytes) : bool := forallb (fun b => Zb b =? 0) l.
Definition validate_complete (w : ArchiveWireState) : outcome OsTraceError unit :=
  if (wire_bytes w <? 1024) || negb (wire_bytes w mod 512 =? 0)
  then Err (protocol "OS trace archive ended before two complete tar terminator blocks ({} bytes)" [wire_bytes w]) else
  if (length (wire_prefix w) <? 263)%nat then Err (protocol "OS trace archive is shorter than a PAX/ustar header" []) else
  if negb (ustar_magic (wire_prefix w)) then Err (protocol "OS trace archive does not have a PAX/ustar header" []) else
  if negb (length (wire_tail w) =? TRAILER_BYTES)%nat || negb (all_zero (wire_tail w))
  then Err (protocol "OS trace archive is missing its two zero tar terminator blocks" []) else Ok tt.
(** The same check of a whole file. *)
Definition validate_tar_structure (file : bytes) : outcome OsTraceError unit :=
  if len file <? 512 then Err (protocol "OS trace archive is shorter than one tar header ({length} bytes)" [len file]) else
  if (len file <? 1024) || negb (len file mod 512 =? 0)
  then Err (protocol "OS trace archive is missing complete tar terminator blocks ({length} bytes)" [len file]) else
  if negb (ustar_magic (take 512 file)) then Err (protocol "OS trace archive does not have a PAX/ustar header" []) else
  if negb (all_zero (drop (length file - 1024) file)) then Err (protocol "OS trace archive is missing its two zero tar terminator blocks" []) else Ok tt.

(** The service's stream and the writer. *)
Record Transfer := mkTransfer { service : Socket; writer : Socket }.
Definition set_service v (t : Transfer) : Transfer := mkTransfer v (writer t).
Definition set_writer v (t : Transfer) : Transfer := mkTransfer (service t) v.
Abbreviation transfer := (st Transfer OsTraceError).
Definition on_service {A} (m : trace A) : transfer A := zoom service set_service m.
Definition on_writer {A} (m : trace A) : transfer A := zoom writer set_writer m.

Definition BUFFER_SIZE : Z := 64 * 1024.
(** The payload of a chunk, in pieces that fit the buffer. *)
Fixpoint copy_chunk (fuel : nat) (remaining : Z) (w : ArchiveWireState) : transfer ArchiveWireState :=
  if remaining =? 0 then mret w else
  match fuel with
  | O => st_lift OutOfFuel
  | S fuel =>
      let read_len := Z.min remaining BUFFER_SIZE in
      buffer ← on_service (read_exact read_len);
      w ← st_lift (push w buffer);
      on_writer (write_all buffer) ;;
      copy_chunk fuel (remaining - read_len) w
  end.
Definition pieces (length : Z) : nat := S (Z.to_nat (length / BUFFER_SIZE)).
(** One frame: the counters after it, or nothing at the end of the stream. *)
Definition archive_frame (options : ArchiveOptions) (stats : ArchiveStats) (w : ArchiveWireState) : transfer (option (ArchiveStats * ArchiveWireState)) :=
  magic ← on_service (read 1);
  match magic with
  | [] => mret None
  | _ =>
      if negb (le_Z magic =? ARCHIVE_CHUNK_MAGIC)
      then st_fail (protocol "unexpected OS trace archive frame magic 0x{:02x}, expected 0x{ARCHIVE_CHUNK_MAGIC:02x}" [le_Z magic]) else
      length ← on_service stream_u32_le;
      if MAX_ARCHIVE_CHUNK_SIZE <? length
      then st_fail (protocol "OS trace archive chunk length {length} exceeds max {MAX_ARCHIVE_CHUNK_SIZE}" [length; MAX_ARCHIVE_CHUNK_SIZE]) else
      let new_total := stat_bytes stats + length in
      if u64_max <? new_total then st_fail (protocol "OS trace archive byte count overflow" []) else
      if max_total_bytes options <? new_total
      then st_fail (protocol "OS trace archive exceeds max size {} bytes (received {} bytes in {} chunks; next chunk is {} bytes)"
                     [max_total_bytes options; stat_bytes stats; chunks stats; length]) else
      w ← copy_chunk (pieces length) length w;
      mret (Some (mkStats new_total (Z.min u64_max (chunks stats + 1)), w))
  end.
Fixpoint archive_loop (fuel : nat) (options : ArchiveOptions) (stats : ArchiveStats) (w : ArchiveWireState) : transfer (ArchiveStats * ArchiveWireState) :=
  match fuel with
  | O => st_lift OutOfFuel
  | S fuel =>
      frame ← archive_frame options stats w;
      match frame with
      | None => mret (stats, w)
      | Some (stats, w) => archive_loop fuel options stats w
      end
  end.
Section create_archive.
Context `{PC : PlistCodec}.
Definition optional_integer (key : string) (o : option Z) : list (bytes * Value) := match o with Some v => [(str key, Integer v)] | None => [] end.
Definition archive_request (options : ArchiveOptions) : Value :=
  Dictionary ([(str "Request", String (str "CreateArchive"))] ++ optional_integer "SizeLimit" (size_limit options) ++
              optional_integer "AgeLimit" (age_limit options) ++ optional_integer "StartTime" (start_time options)).
Definition archive_acknowledged : trace unit :=
  marker ← stream_u8;
  if negb (marker =? ARCHIVE_RESPONSE_MARKER)
  then st_fail (protocol "OS trace CreateArchive acknowledgement was 0x{marker:02x}, expected 0x{ARCHIVE_RESPONSE_MARKER:02x}" [marker]) else
  response ← recv_prefixed_plist;
  check_status "OS trace CreateArchive failed with status {status:?}" "OS trace CreateArchive response missing Status" response.
Definition create_archive (options : ArchiveOptions) : transfer ArchiveStats :=
  on_service (send_plist (archive_request options) ;; archive_acknowledged) ;;
  t ← st_get;
  '(stats, w) ← archive_loop (S (rx_bytes (service t))) options (mkStats 0 0) wire_default;
  st_lift (validate_complete w) ;;
  on_writer flush ;;
  mret stats.
End create_archive.

End OsTrace.
