(* ===== verification/OsTraceSpec.v ===== *)
(** What the OS trace relay's client gives out ([OsTrace]).

    A record is parsed exactly, the live stream gives out the records that came, in order, and
    an archive's payload reaches the writer byte for byte, with the check of its tar frame
    equal to that of the whole file. [runs] and [ends_with] are the calls on a stream that
    flows to its end, [wpx] those on any schedule. *)

From stdpp Require Import list.
From S2P Require Import Prelude Utf8 Text Slices Socket Plist Fs Frames OsTrace.

Module OsTraceSpec.
Import Slices Net Socket Text Plist OsTrace.
#[local] Open Scope plist_scope.

(** ** The layout of a record *)

Definition layout : list nat := [1; 4; 4; 4; 8; 16; 2; 8; 8; 8; 4; 1; 1; 6; 8; 4; 4; 16; 2; 4; 4; 2; 2; 2; 6]%nat.
(** The pieces of the header, the texts, and what lies behind them. *)
Record Raw := mkRaw { pieces_of : list bytes; raw_path : bytes; raw_image : bytes; raw_message : bytes; raw_label : option (bytes * bytes); raw_rest : bytes }.
Definition piece (r : Raw) (i : nat) : bytes := default [] (pieces_of r !! i).
Definition num (r : Raw) (i : nat) : Z := le_Z (piece r i).
Definition label_bytes (o : option (bytes * bytes)) : bytes := match o with Some (s, c) => s ++ c | None => [] end.
Definition render (r : Raw) : bytes :=
  concat (pieces_of r) ++ raw_path r ++ raw_image r ++ raw_message r ++ label_bytes (raw_label r) ++ raw_rest r.
(** The lengths are those stated, and the process and the time are in range. *)
Definition raw_ok (r : Raw) : Prop :=
  map length (pieces_of r) = layout /\ num r 3 <= 999999 /\ num r 10 < 1000000 /\
  len (raw_path r) = num r 6 /\ len (raw_image r) = num r 18 /\ len (raw_message r) = num r 19 /\
  match raw_label r with
  | Some (s, c) => len s = num r 21 /\ len c = num r 23 /\ 0 < num r 21 /\ 0 < num r 23
  | None => num r 21 = 0 \/ num r 23 = 0
  end.
Definition entry_of (r : Raw) : LogEntry :=
  mkEntry (num r 1) (num r 3) (num r 4) (piece r 5) (num r 7) (num r 8) (mkTime (num r 9) (num r 10)) (num r 14) (num r 12) (num r 15)
    (piece r 17) (text_of (raw_image r)) (num r 20) (text_of (raw_path r)) (text_of (raw_message r))
    ((fun sc => mkLabel (text_of sc.1) (text_of sc.2)) <$> raw_label r).

(** The texts behind the header. *)
Definition parse_texts (n : nat -> Z) (data : bytes) : outcome OsTraceError (bytes * bytes * bytes * option LogLabel) :=
  '(filename, offset) ← read_string_field data TRACE_HEADER_SIZE (n 6%nat);
  '(image_name, offset) ← read_string_field data offset (n 18%nat);
  '(message, offset) ← read_string_field data offset (n 19%nat);
  label ← (if (0 <? n 21%nat) && (0 <? n 23%nat) then
             '(subsystem, offset) ← read_string_field data offset (n 21%nat);
             '(category, _) ← read_string_field data offset (n 23%nat);
             Ok (Some (mkLabel subsystem category))
           else Ok None);
  Ok (filename, image_name, message, label).
Definition make_entry (n : nat -> Z) (p : nat -> bytes) (texts : bytes * bytes * bytes * option LogLabel) : LogEntry :=
  let '(filename, image_name, message, label) := texts in
  mkEntry (n 1%nat) (n 3%nat) (n 4%nat) (p 5%nat) (n 7%nat) (n 8%nat) (mkTime (n 9%nat) (n 10%nat)) (n 14%nat) (n 12%nat) (n 15%nat)
    (p 17%nat) image_name (n 20%nat) filename message label.
Lemma parse_header l rest e : map length l = layout ->
  parse_entry (concat l ++ rest) = Ok e <->
    let n i := le_Z (at_piece l i) in n 3%nat <= 999999 /\ n 10%nat < 1000000 /\
    exists t, parse_texts n (concat l ++ rest) = Ok t /\ e = make_entry n (at_piece l) t.
Proof.
  intros Hl. cbv zeta. unfold parse_entry. rewrite (proj2 (Nat.ltb_ge _ _)) by (rewrite length_app, (concat_length layout l Hl); change (sum_list layout) with TRACE_HEADER_SIZE; lia).
  assert (forall i off, sum_list (take i layout) = off -> layout !! i = Some 2%nat -> read_u16 (concat l ++ rest) off = Ok (le_Z (at_piece l i))) as H2
    by (intros i off Ho Hn; unfold read_u16; by rewrite (header_slice layout l rest Hl i off 2 Ho Hn)).
  assert (forall i off, sum_list (take i layout) = off -> layout !! i = Some 4%nat -> read_u32 (concat l ++ rest) off = Ok (le_Z (at_piece l i))) as H4
    by (intros i off Ho Hn; unfold read_u32; by rewrite (header_slice layout l rest Hl i off 4 Ho Hn)).
  assert (forall i off, sum_list (take i layout) = off -> layout !! i = Some 8%nat -> read_u64 (concat l ++ rest) off = Ok (le_Z (at_piece l i))) as H8
    by (intros i off Ho Hn; unfold read_u64; by rewrite (header_slice layout l rest Hl i off 8 Ho Hn)).
  assert (forall i off n, sum_list (take i layout) = off -> layout !! i = Some n -> read_array n (concat l ++ rest) off = Ok (at_piece l i)) as HA
    by (intros i off n Ho Hn; unfold read_array; by rewrite (header_slice layout l rest Hl i off n Ho Hn)).
  rewrite (H4 1%nat 1%nat), (H4 2%nat 5%nat), (H4 3%nat 9%nat), (H8 4%nat 13%nat), (HA 5%nat 21%nat), (H2 6%nat 37%nat), (H8 7%nat 39%nat), (H8 8%nat 47%nat), (H8 9%nat 55%nat), (H4 10%nat 63%nat),
    (HA 12%nat 68%nat), (H8 14%nat 75%nat), (H4 15%nat 83%nat), (HA 17%nat 91%nat), (H2 18%nat 107%nat), (H4 19%nat 109%nat), (H4 20%nat 113%nat), (H2 21%nat 117%nat), (H2 23%nat 121%nat) by reflexivity.
  clear H2 H4 H8 HA. set (n := fun i => le_Z (at_piece l i)). cbn [mbind outcome_bind]. fold (n 3%nat). fold (n 10%nat).
  destruct (999999 <? n 3%nat) eqn:E3; [split; [done|lia]|]. destruct (1000000 <=? n 10%nat) eqn:E10; [split; [done|lia]|].
  assert (forall t, parse_texts n (concat l ++ rest) = Ok t -> e = make_entry n (at_piece l) t -> n 3%nat <= 999999 /\ n 10%nat < 1000000 /\
    exists t, parse_texts n (concat l ++ rest) = Ok t /\ e = make_entry n (at_piece l) t) as Hr by (intros t H1 H2; split_and!; [lia..|by exists t]).
  revert Hr. unfold parse_texts. change (le_Z (at_piece l 6)) with (n 6%nat). change (le_Z (at_piece l 18)) with (n 18%nat). change (le_Z (at_piece l 19)) with (n 19%nat).
  change (le_Z (at_piece l 21)) with (n 21%nat). change (le_Z (at_piece l 23)) with (n 23%nat).
  destruct (read_string_field (concat l ++ rest) TRACE_HEADER_SIZE (n 6%nat)) as [[a1 o1]| | | |]; cbn [mbind outcome_bind]; try (intros _; split; [done|by intros (_ & _ & t & ? & _)]).
  destruct (read_string_field (concat l ++ rest) o1 (n 18%nat)) as [[a2 o2]| | | |]; cbn [mbind outcome_bind]; try (intros _; split; [done|by intros (_ & _ & t & ? & _)]).
  destruct (read_string_field (concat l ++ rest) o2 (n 19%nat)) as [[a3 o3]| | | |]; cbn [mbind outcome_bind]; try (intros _; split; [done|by intros (_ & _ & t & ? & _)]).
  match goal with |- context [if ?c then ?a else ?b] => destruct (if c then a else b) as [lab| | | |] end; cbn [mbind outcome_bind]; try (intros _; split; [done|by intros (_ & _ & t & ? & _)]).
  intros Hr. split; [intros [= <-]; by eapply Hr|]. by intros (_ & _ & t & [= <-] & ->).
Qed.
Lemma read_field hd tl n t off : read_string_field (hd ++ tl) (length hd) n = Ok (t, off) <->
  exists p tl', tl = p ++ tl' /\ length p = Z.to_nat n /\ t = text_of p /\ off = length (hd ++ p).
Proof.
  unfold read_string_field. split.
  - destruct (slice (hd ++ tl) (length hd) (Z.to_nat n)) as [p|] eqn:E; [|done]. apply slice_some in E as [E Hp]. cbn. intros [= <- <-].
    rewrite drop_app_length in E. eexists p, _. split; [exact E|]. rewrite length_app, Hp. done.
  - intros (p & tl' & -> & <- & -> & ->). rewrite slice_behind. cbn. by rewrite length_app.
Qed.
Definition texts_of (path image msg : bytes) (lab : option (bytes * bytes)) : bytes * bytes * bytes * option LogLabel :=
  (text_of path, text_of image, text_of msg, (fun sc => mkLabel (text_of sc.1) (text_of sc.2)) <$> lab).
Definition label_fits (n : nat -> Z) (lab : option (bytes * bytes)) : Prop :=
  match lab with
  | Some (s, c) => length s = Z.to_nat (n 21%nat) /\ length c = Z.to_nat (n 23%nat) /\ 0 < n 21%nat /\ 0 < n 23%nat
  | None => ~ (0 < n 21%nat /\ 0 < n 23%nat)
  end.
Lemma parse_texts_exact n hd tl t : length hd = TRACE_HEADER_SIZE ->
  parse_texts n (hd ++ tl) = Ok t <-> exists path image msg lab rest, tl = path ++ image ++ msg ++ label_bytes lab ++ rest /\
    length path = Z.to_nat (n 6%nat) /\ length image = Z.to_nat (n 18%nat) /\ length msg = Z.to_nat (n 19%nat) /\ label_fits n lab /\ t = texts_of path image msg lab.
Proof.
  intros Hh. unfold parse_texts. rewrite <- Hh. split.
  - destruct (read_string_field _ _ (n 6%nat)) as [[a1 o1]| | | |] eqn:E1; try done. cbn [mbind outcome_bind]. apply read_field in E1 as (path & t1 & -> & H1 & -> & ->). rewrite (app_assoc hd).
    destruct (read_string_field _ _ (n 18%nat)) as [[a2 o2]| | | |] eqn:E2; try done. cbn [mbind outcome_bind]. apply read_field in E2 as (image & t2 & -> & H2 & -> & ->). rewrite (app_assoc (hd ++ path)).
    destruct (read_string_field _ _ (n 19%nat)) as [[a3 o3]| | | |] eqn:E3; try done. cbn [mbind outcome_bind]. apply read_field in E3 as (msg & t3 & -> & H3 & -> & ->). rewrite (app_assoc ((hd ++ path) ++ image)).
    destruct ((0 <? n 21%nat) && (0 <? n 23%nat)) eqn:E.
    + apply andb_prop in E as [?%Z.ltb_lt ?%Z.ltb_lt].
      destruct (read_string_field _ _ (n 21%nat)) as [[a4 o4]| | | |] eqn:E4; try done. cbn [mbind outcome_bind]. apply read_field in E4 as (s & t4 & -> & H4 & -> & ->). rewrite (app_assoc (((hd ++ path) ++ image) ++ msg)).
      destruct (read_string_field _ _ (n 23%nat)) as [[a5 o5]| | | |] eqn:E5; try done. cbn [mbind outcome_bind]. apply read_field in E5 as (c & t5 & -> & H5 & -> & ->).
      intros [= <-]. exists path, image, msg, (Some (s, c)), t5. cbn [label_bytes label_fits]. rewrite <- app_assoc. done.
    + cbn [mbind outcome_bind]. intros [= <-]. exists path, image, msg, None, t3. split_and!; try done. intros [?%Z.ltb_lt ?%Z.ltb_lt]. by rewrite H, H0 in E.
  - intros (path & image & msg & lab & rest & -> & H1 & H2 & H3 & Hl & ->).
    rewrite (proj2 (read_field hd _ (n 6%nat) _ _)) by (by exists path, (image ++ msg ++ label_bytes lab ++ rest)). cbn [mbind outcome_bind]. rewrite (app_assoc hd).
    rewrite (proj2 (read_field (hd ++ path) _ (n 18%nat) _ _)) by (by exists image, (msg ++ label_bytes lab ++ rest)). cbn [mbind outcome_bind]. rewrite (app_assoc (hd ++ path)).
    rewrite (proj2 (read_field ((hd ++ path) ++ image) _ (n 19%nat) _ _)) by (by exists msg, (label_bytes lab ++ rest)). cbn [mbind outcome_bind]. rewrite (app_assoc ((hd ++ path) ++ image)).
    destruct lab as [[s c]|]; cbn [label_fits label_bytes] in *.
    + destruct Hl as (H4 & H5 & ?%Z.ltb_lt & ?%Z.ltb_lt). rewrite H, H0. cbn [andb]. rewrite <- (app_assoc s c rest).
      rewrite (proj2 (read_field (((hd ++ path) ++ image) ++ msg) _ (n 21%nat) _ _)) by (by exists s, (c ++ rest)). cbn [mbind outcome_bind]. rewrite (app_assoc (((hd ++ path) ++ image) ++ msg)).
      rewrite (proj2 (read_field ((((hd ++ path) ++ image) ++ msg) ++ s) _ (n 23%nat) _ _)) by (by exists c, rest). done.
    + destruct ((0 <? n 21%nat) && (0 <? n 23%nat)) eqn:E; [|done]. apply andb_prop in E as [?%Z.ltb_lt ?%Z.ltb_lt]. by destruct Hl.
Qed.
(** A header read succeeds or fails; nothing in the parse waits. *)
Lemma truncated_returns {A} (o : option A) : returns (truncated o).
Proof. by destruct o. Qed.
Lemma read_string_field_returns d off n : returns (read_string_field d off n).
Proof. unfold read_string_field. by destruct (slice _ _ _). Qed.
Lemma parse_entry_returns data : returns (parse_entry data).
Proof.
  unfold parse_entry, read_u16, read_u32, read_u64, read_array.
  repeat first [ done | apply read_string_field_returns | apply truncated_returns | apply returns_bind; intros | case_match ].
Qed.

Lemma len_eq_nat (b : bytes) n : 0 <= n -> len b = n <-> length b = Z.to_nat n.
Proof. unfold len. lia. Qed.
Lemma label_fits_ok (n : nat -> Z) lab : 0 <= n 21%nat -> 0 <= n 23%nat ->
  label_fits n lab <-> match lab with
    | Some (s, c) => len s = n 21%nat /\ len c = n 23%nat /\ 0 < n 21%nat /\ 0 < n 23%nat
    | None => n 21%nat = 0 \/ n 23%nat = 0
    end.
Proof. intros H1 H2. destruct lab as [[s c]|]; cbn [label_fits]; [unfold len|]; lia. Qed.

(** C14. A log record is read exactly. [parse_entry] succeeds on some bytes if and only if they are a header of
    the layout, its process number at most 999999 and its microseconds below a million, followed by the path
    of the process, that of the image and the message, and by a subsystem and a category if both have a
    length, each as long as the header says; the entry it returns has the header's numbers and these texts,
    less one NUL at the end and with invalid UTF-8 replaced. Otherwise it returns an error. *)
Theorem trace_entry_exact data :
  (forall e, parse_entry data = Ok e <-> exists r, raw_ok r /\ data = render r /\ e = entry_of r) /\ returns (parse_entry data).
Proof.
  split; [|apply parse_entry_returns]. intros e.
  assert (forall (l : list bytes) i, 0 <= le_Z (at_piece l i)) as Hpos by (intros; apply le_Z_bound).
  split.
  - intros He. destruct (decide (TRACE_HEADER_SIZE <= length data)%nat) as [Hlen|Hlen].
    2: { unfold parse_entry in He. rewrite (proj2 (Nat.ltb_lt _ _)) in He by lia. done. }
    destruct (header_split layout data Hlen) as (l & rest & -> & Hl). apply (parse_header l rest e Hl) in He as (H3 & H10 & t & Ht & ->).
    apply (parse_texts_exact _ _ _ _ (concat_length layout l Hl)) in Ht as (path & image & msg & lab & tl & -> & H6 & H18 & H19 & Hlab & ->).
    exists (mkRaw l path image msg lab tl). split; [|split; [done|by destruct lab as [[]|]]].
    apply label_fits_ok in Hlab; [|apply Hpos..]. unfold raw_ok, num, piece. cbn [pieces_of raw_path raw_image raw_message raw_label]. fold (at_piece l 3) (at_piece l 10) (at_piece l 6) (at_piece l 18) (at_piece l 19) (at_piece l 21) (at_piece l 23).
    split_and!; try done; by apply len_eq_nat; [apply Hpos|].
  - intros ([l path image msg lab tl] & (Hl & H3 & H10 & H6 & H18 & H19 & Hlab) & -> & ->).
    apply (parse_header l _ _ Hl). split_and!; [done..|]. exists (texts_of path image msg lab).
    split; [|by destruct lab as [[]|]].
    apply (parse_texts_exact _ _ _ _ (concat_length layout l Hl)). exists path, image, msg, lab, tl.
    apply len_eq_nat in H6; [|apply Hpos]. apply len_eq_nat in H18; [|apply Hpos]. apply len_eq_nat in H19; [|apply Hpos].
    split_and!; try done. by apply (label_fits_ok (fun i => le_Z (at_piece l i))); [apply Hpos..|].
Qed.

(** ** The archive *)

(** What the tracker keeps of the bytes [d]. *)
Definition suffix_of (n : nat) (d : bytes) : bytes := drop (length d - n) d.
Definition wire_of (d : bytes) : ArchiveWireState := mkWire (len d) (take HEADER_BYTES d) (suffix_of TRAILER_BYTES d).
Lemma suffix_short n (d : bytes) : (length d <= n)%nat -> suffix_of n d = d.
Proof. intros. unfold suffix_of. by replace (length d - n)%nat with 0%nat by lia. Qed.
Lemma push_tail_suffix (d : bytes) b : push_tail (suffix_of TRAILER_BYTES d) b = suffix_of TRAILER_BYTES (d ++ [b]).
Proof.
  unfold push_tail, suffix_of. rewrite length_app, length_drop. change (length [b]) with 1%nat.
  destruct (Nat.eqb_spec (length d - (length d - TRAILER_BYTES)) TRAILER_BYTES) as [E|E].
  - rewrite drop_drop. replace (length d + 1 - TRAILER_BYTES)%nat with (length d - TRAILER_BYTES + 1)%nat by (unfold TRAILER_BYTES in *; lia).
    rewrite drop_app_le by (unfold TRAILER_BYTES in *; lia). done.
  - replace (length d - TRAILER_BYTES)%nat with 0%nat by lia. replace (length d + 1 - TRAILER_BYTES)%nat with 0%nat by lia. done.
Qed.
Lemma push_tails (d e : bytes) : fold_left push_tail e (suffix_of TRAILER_BYTES d) = suffix_of TRAILER_BYTES (d ++ e).
Proof. revert d. induction e as [|b e IH]; intros d; [by rewrite app_nil_r|]. cbn [fold_left]. by rewrite push_tail_suffix, IH, <- app_assoc. Qed.
Lemma push_wire (d e : bytes) : len (d ++ e) <= u64_max -> push (wire_of d) e = Ok (wire_of (d ++ e)).
Proof.
  intros Hle. unfold push, wire_of. cbn [wire_bytes wire_prefix wire_tail]. rewrite len_app in *. rewrite (proj2 (Z.ltb_ge _ _)) by lia.
  do 2 f_equal; [|apply push_tails]. rewrite length_take. destruct (Nat.ltb_spec (HEADER_BYTES `min` length d) HEADER_BYTES) as [E|E].
  - rewrite Nat.min_r by lia. rewrite take_app_ge by lia. by rewrite take_ge by lia.
  - by rewrite take_app_le by lia.
Qed.
Lemma push_bounded w (e : bytes) : returns (push w e).
Proof. unfold push. by case_match. Qed.
(** The tracker's check of what it kept is the check of the whole. *)
Lemma validate_wire (d : bytes) : validate_complete (wire_of d) = Ok tt <-> validate_tar_structure d = Ok tt.
Proof.
  unfold validate_complete, validate_tar_structure, wire_of. cbn [wire_bytes wire_prefix wire_tail].
  destruct (len d <? 1024) eqn:E.
  { cbn [orb]. destruct (len d <? 512); split; done. }
  apply Z.ltb_ge in E. rewrite (proj2 (Z.ltb_ge (len d) 512)) by lia. cbn [orb].
  destruct (negb (len d mod 512 =? 0)); [done|]. unfold len in E.
  rewrite (proj2 (Nat.ltb_ge _ _)) by (rewrite length_take; unfold HEADER_BYTES; lia). unfold HEADER_BYTES.
  destruct (negb (ustar_magic (take 512 d))); [done|].
  assert (length (suffix_of TRAILER_BYTES d) = TRAILER_BYTES) as -> by (unfold suffix_of; rewrite length_drop; unfold TRAILER_BYTES; lia).
  rewrite Nat.eqb_refl. cbn [negb orb]. unfold suffix_of. change TRAILER_BYTES with 1024%nat. by destruct (all_zero _).
Qed.
Lemma validate_complete_returns w : returns (validate_complete w).
Proof. unfold validate_complete. by repeat case_match. Qed.

(** The service sent [i], got [o], and the writer got [w]. *)
Definition moved (i o w : bytes) (t t' : Transfer) : Prop := traffic i o (service t) (service t') /\ traffic [] w (writer t) (writer t').
Lemma transfer_refl t : moved [] [] [] t t.
Proof. split; apply traffic_refl. Qed.
Lemma transfer_trans i1 o1 w1 i2 o2 w2 t1 t2 t3 : moved i1 o1 w1 t1 t2 -> moved i2 o2 w2 t2 t3 -> moved (i1 ++ i2) (o1 ++ o2) (w1 ++ w2) t1 t3.
Proof. intros [? H1] [? H2]. split; [by eapply traffic_trans|]. exact (traffic_trans _ _ _ _ _ _ _ H1 H2). Qed.
Lemma moved_bytes i o w t t' : moved i o w t t' -> (length i + rx_bytes (service t') = rx_bytes (service t))%nat.
Proof. intros [H _]. by eapply traffic_rx_le. Qed.
Lemma on_service_wpx {A} (m : trace A) i o (Q : A -> Transfer -> Prop) R T t :
  wpx m i o o (service t) ->
  (forall a s, i a s -> Q a (set_service s t)) -> (forall s, o s -> R (set_service s t) /\ T (set_service s t)) -> wpx (on_service m) Q R T t.
Proof. unfold wpx, on_service, zoom. destruct (m (service t)) as [s []]; try done; intros H HQ HR; [by apply HQ|by apply HR..]. Qed.
Lemma on_writer_wpx {A} (m : trace A) i o (Q : A -> Transfer -> Prop) R T t :
  wpx m i o o (writer t) ->
  (forall a s, i a s -> Q a (set_writer s t)) -> (forall s, o s -> R (set_writer s t) /\ T (set_writer s t)) -> wpx (on_writer m) Q R T t.
Proof. unfold wpx, on_writer, zoom. destruct (m (writer t)) as [s []]; try done; intros H HQ HR; [by apply HQ|by apply HR..]. Qed.

(** A chunk as it is framed. *)
Definition chunk_frame (c : bytes) : bytes := x03 :: le_bytes 4 (len c) ++ c.
Definition chunk_frames (cs : list bytes) : bytes := concat (map chunk_frame cs).
(** The next read finds the end of the stream. *)
Definition at_end (s : Socket) : Prop := exists r, rx s = Chunk [] :: r.

Lemma read_one_wpx s : wpx (E := OsTraceError) (read 1)
  (fun bs s' => (bs = [] /\ s' = s /\ at_end s) \/ exists b, bs = [b] /\ traffic [b] [] s s') (traffic [] [] s) (traffic [] [] s) s.
Proof.
  unfold wpx, read. pose proof (rx_read_spec (io_error (E := OsTraceError)) 1 (rx s) ltac:(lia)) as Hr.
  destruct (rx_read io_error 1 (rx s)) as [l [bs|e| | |]] eqn:E; try done; try (split; [done|by rewrite app_nil_r]).
  destruct Hr as [Hl Hd]. destruct bs as [|b [|b' bs]]; [left|right|simpl in Hl; lia].
  - unfold rx_read in E. destruct (rx s) as [|[[|c cs]| |] r] eqn:Er; try done.
    + injection E as <-. split_and!; [done| |by exists r]. destruct s. cbn in *. by subst.
    + destruct (length (c :: cs) <=? 1)%nat; [by injection E|]. by injection E.
  - exists b. split; [done|]. split; [done|by rewrite app_nil_r].
Qed.
Lemma stream_u32_le_wpx s : wpx stream_u32_le (fun n s' => in_u 32 n /\ traffic (le_bytes 4 n) [] s s') (read_part s) (read_part s) s.
Proof.
  unfold stream_u32_le. wpx_step. eapply wpx_mono; [by apply read_exact_traffic| |done|done]. cbv beta.
  intros bs s' [Hl Ht]. wpx_step. destruct (Framings.le_len4 bs Hl) as [-> ?]. done.
Qed.

(** A part of the payload [c] came, and a part of that was written. *)
Definition copied (t t' : Transfer) : Prop := exists c o, o `prefix_of` c /\ moved c [] o t t'.
Lemma copied_after c t t1 t' : moved c [] c t t1 -> copied t1 t' -> copied t t'.
Proof. intros H1 (c' & o & Ho & H2). exists (c ++ c'), (c ++ o). split; [by apply prefix_app|]. exact (transfer_trans _ _ _ _ _ _ _ _ _ H1 H2). Qed.
Lemma copy_chunk_wpx fuel n d t : 0 <= n -> n <= (Z.of_nat fuel) * BUFFER_SIZE -> len d + n <= u64_max ->
  wpx (copy_chunk fuel n (wire_of d)) (fun w t' => exists c, len c = n /\ w = wire_of (d ++ c) /\ moved c [] c t t') (copied t) (copied t) t.
Proof.
  revert n d t. induction fuel as [|fuel IH]; intros n d t Hn Hf Hd; cbn [copy_chunk].
  { rewrite (proj2 (Z.eqb_eq _ _)) by lia. apply wpx_ret. exists []. rewrite app_nil_r. split_and!; [change (len []) with 0; lia|done|apply transfer_refl]. }
  wpx_step. { apply wpx_ret. exists []. rewrite app_nil_r. split_and!; [change (len []) with 0; lia|done|apply transfer_refl]. }
  apply Z.eqb_neq in Hif. assert (0 < BUFFER_SIZE) by done. wpx_step.
  eapply on_service_wpx; [apply read_exact_traffic; lia| |].
  2: { intros s' [i Hi]. split; (exists i, []; split; [apply prefix_nil|]; split; [exact Hi|apply traffic_refl]). }
  intros c s1 [Hc Ht]. assert (len (d ++ c) <= u64_max) as Hdc by (rewrite len_app; lia).
  wpx_step. rewrite (push_wire d c Hdc). apply wpx_lift; [done|intros w [= <-]|].
  2: { exists c, []. split; [apply prefix_nil|]. split; [exact Ht|apply traffic_refl]. }
  wpx_step. eapply on_writer_wpx; [apply write_all_traffic| |].
  2: { intros s' (o & Ho & Hs'). split; (exists c, o; split; [done|]; split; [exact Ht|exact Hs']). }
  intros [] s2 Hw. set (t2 := set_writer s2 (set_service s1 t)). assert (moved c [] c t t2) as Hm by (by split).
  eapply wpx_mono; [apply (IH _ (d ++ c) t2); [lia|lia|rewrite len_app in *; lia]| |intros t'; exact (copied_after _ _ _ _ Hm)..].
  cbv beta. intros w t' (c' & Hc' & -> & Hm'). exists (c ++ c'). split_and!; [rewrite len_app; lia|by rewrite app_assoc|].
  exact (transfer_trans _ _ _ _ _ _ _ _ _ Hm Hm').
Qed.
Lemma pieces_enough n : 0 <= n -> n <= Z.of_nat (pieces n) * BUFFER_SIZE.
Proof. unfold pieces, BUFFER_SIZE. intros. pose proof (Z.mul_succ_div_gt n (64 * 1024) ltac:(lia)). pose proof (Z.div_pos n (64 * 1024)). lia. Qed.

(** Part of a frame came, and part of its payload was written. *)
Definition framed (t t' : Transfer) : Prop := exists i o, o `prefix_of` drop 5 i /\ moved i [] o t t'.
Lemma framed_read s t i : traffic i [] (service t) s -> framed t (set_service s t).
Proof. intros H. exists i, []. split; [apply prefix_nil|]. split; [exact H|apply traffic_refl]. Qed.
Lemma archive_frame_wpx options d k t : len d <= u64_max ->
  wpx (archive_frame options (mkStats (len d) k) (wire_of d))
    (fun r t' => match r with
       | None => t' = t /\ at_end (service t)
       | Some (stats, w) => exists c, stats = mkStats (len (d ++ c)) (Z.min u64_max (k + 1)) /\ w = wire_of (d ++ c) /\
           len (d ++ c) <= max_total_bytes options /\ len (d ++ c) <= u64_max /\ len c <= MAX_ARCHIVE_CHUNK_SIZE /\ moved (chunk_frame c) [] c t t'
       end) (framed t) (framed t) t.
Proof.
  intros Hd. unfold archive_frame. wpx_step. eapply on_service_wpx; [apply read_one_wpx| |].
  2: { intros s' Hs. split; by apply framed_read with (i := []). }
  intros bs s1 [(-> & -> & He)|(b & -> & H1)].
  { apply wpx_ret. split; [by destruct t|done]. }
  wpx_step; [by apply framed_read in H1|]. apply negb_false_iff, Z.eqb_eq in Hif.
  assert (b = x03) as -> by (by destruct b). wpx_step. set (t1 := set_service s1 t).
  assert (forall i s, traffic i [] s1 s -> traffic (x03 :: i) [] (service t) s) as Hs by (intros i s H2; exact (traffic_trans _ _ _ _ _ _ _ H1 H2)).
  eapply on_service_wpx; [apply stream_u32_le_wpx| |].
  2: { intros s' [i Hi%Hs]. split; by apply framed_read in Hi. }
  intros n s2 [Hn H2%Hs]. cbv zeta. set (t2 := set_service s2 t1). change (set_service s2 t1) with t2.
  assert (moved (x03 :: le_bytes 4 n) [] [] t t2) as Hm by (split; [exact H2|apply traffic_refl]).
  wpx_step; [by apply framed_read in H2|]. wpx_step; [by apply framed_read in H2|]. wpx_step; [by apply framed_read in H2|].
  cbn [stat_bytes chunks] in *. wpx_step. destruct Hn as [Hn _].
  eapply wpx_mono; [apply (copy_chunk_wpx _ n d t2); [done|by apply pieces_enough|lia]| | |].
  - cbv beta. intros w t' (c & <- & -> & Hm'). wpx_step. exists c. rewrite len_app. split_and!; try done; try lia.
    exact (transfer_trans _ _ _ _ _ _ _ _ _ Hm Hm').
  - intros t' (c & o & Ho & Hm'). exists (x03 :: le_bytes 4 n ++ c), o. split; [done|exact (transfer_trans _ _ _ _ _ _ _ _ _ Hm Hm')].
  - intros t' (c & o & Ho & Hm'). exists (x03 :: le_bytes 4 n ++ c), o. split; [done|exact (transfer_trans _ _ _ _ _ _ _ _ _ Hm Hm')].
Qed.

(** Whole frames came and were written, and then part of one. *)
Definition broke_off (t t' : Transfer) : Prop :=
  exists cs i o, o `prefix_of` drop 5 i /\ moved (chunk_frames cs ++ i) [] (concat cs ++ o) t t'.
Lemma archive_loop_wpx fuel options d k t : (rx_bytes (service t) < fuel)%nat -> len d <= u64_max ->
  wpx (archive_loop fuel options (mkStats (len d) k) (wire_of d))
    (fun r t' => exists cs, r = (mkStats (len (d ++ concat cs)) (if cs is [] then k else Z.min u64_max (k + len cs)), wire_of (d ++ concat cs)) /\
       (cs <> [] -> len (d ++ concat cs) <= max_total_bytes options) /\ Forall (fun c => len c <= MAX_ARCHIVE_CHUNK_SIZE) cs /\
       at_end (service t') /\ moved (chunk_frames cs) [] (concat cs) t t')
    (broke_off t) (broke_off t) t.
Proof.
  revert d k t. induction fuel as [|fuel IH]; intros d k t Hf Hd; [lia|]. cbn [archive_loop]. wpx_step.
  eapply wpx_mono; [by apply archive_frame_wpx| |intros t' (i & o & ? & ?); by exists [], i, o..].
  cbv beta. intros [[stats w]|] t1.
  2: { intros [-> He]. wpx_step. exists []. rewrite app_nil_r. split_and!; try done. apply transfer_refl. }
  intros (c & -> & -> & Hmax & Hu & Hc & Hm). pose proof (moved_bytes _ _ _ _ _ Hm) as Hb. unfold chunk_frame in Hb. cbn [length] in Hb.
  eapply wpx_mono; [apply IH; [lia|done]| | |].
  - cbv beta. intros r t' (cs & -> & Hmax' & Hcs & He & Hm'). exists (c :: cs). cbn [concat]. rewrite app_assoc. split_and!.
    + do 2 f_equal. destruct cs as [|c' cs]; [done|]. unfold len. cbn [length]. lia.
    + intros _. destruct cs; [by rewrite app_nil_r|by apply Hmax'].
    + by constructor.
    + done.
    + exact (transfer_trans _ _ _ _ _ _ _ _ _ Hm Hm').
  - intros t' (cs & i & o & Ho & Hm'). exists (c :: cs), i, o. split; [done|]. unfold chunk_frames. cbn [map concat]. rewrite <- !app_assoc.
    exact (transfer_trans _ _ _ _ _ _ _ _ _ Hm Hm').
  - intros t' (cs & i & o & Ho & Hm'). exists (c :: cs), i, o. split; [done|]. unfold chunk_frames. cbn [map concat]. rewrite <- !app_assoc.
    exact (transfer_trans _ _ _ _ _ _ _ _ _ Hm Hm').
Qed.

(** *** The request and its answer *)

Section archive.
Context `{PC : PlistCodec}.
(** A request as it is framed. *)
Definition request_frame (p : bytes) : bytes := be_bytes 4 (len p) ++ p.
Lemma send_plist_wpx v s : wpx (send_plist v) (fun _ s' => exists p, to_writer_xml v = Some p /\ traffic [] (request_frame p) s s')
  (fun s' => traffic [] [] s s' \/ exists p, to_writer_xml v = Some p /\ wrote_part (request_frame p) s s')
  (fun s' => exists p, to_writer_xml v = Some p /\ wrote_part (request_frame p) s s') s.
Proof.
  unfold send_plist. destruct (to_writer_xml v) as [p|]; [|apply wpx_fail; left; apply traffic_refl].
  do 2 (wpx_step; [left; apply traffic_refl|]).
  eapply wpx_mono; [apply Framings.write_two_wpx|intros [] s' Hs; by exists p|intros s' Hs; right; by exists p|intros s' Hs; by exists p].
Qed.
(** What the service answers to a request it accepts. *)
Definition acknowledgement (a : bytes) : Prop :=
  exists q d, a = x01 :: be_bytes 4 (len q) ++ q /\ len q <= MAX_PLIST_SIZE /\ from_bytes q = Some (Dictionary d) /\
    get (str "Status") d ?> as_string = Some (str "RequestSuccessful").
Lemma recv_prefixed_wpx s : wpx recv_prefixed_plist (fun d s' => exists q, len q <= MAX_PLIST_SIZE /\ from_bytes q = Some (Dictionary d) /\
    traffic (be_bytes 4 (len q) ++ q) [] s s') (read_part s) (read_part s) s.
Proof.
  unfold recv_prefixed_plist, stream_u32. wpx_step. wpx_step. eapply wpx_mono; [by apply read_exact_traffic| |done|done].
  cbv beta. intros h s1 [Hl H1]. destruct (Framings.be_len4 h Hl) as [Eh [Hn _]]. wpx_step. wpx_step; [by exists h|]. wpx_step.
  eapply wpx_mono; [by apply read_exact_traffic| |intros s' [i Hi]; exists (h ++ i); exact (traffic_trans _ _ _ _ _ _ _ H1 Hi)..].
  cbv beta. intros q s2 [Hq H2]. pose proof (traffic_trans _ _ _ _ _ _ _ H1 H2) as H. unfold dictionary_of.
  assert (read_part s s2) as Hr by (by exists (h ++ q)).
  destruct (from_bytes q) as [v|] eqn:Ev; [|by apply wpx_fail]. destruct v; cbn [as_dictionary]; try by apply wpx_fail.
  apply wpx_ret. exists q. split_and!; [lia|done|]. rewrite Hq, Eh. exact H.
Qed.
Lemma acknowledged_wpx s : wpx archive_acknowledged (fun _ s' => exists a, acknowledgement a /\ traffic a [] s s') (read_part s) (read_part s) s.
Proof.
  unfold archive_acknowledged, stream_u8. wpx_step. wpx_step. eapply wpx_mono; [by apply read_exact_traffic| |done|done].
  cbv beta. intros m s1 [Hl H1]. wpx_step. wpx_step; [by exists m|]. apply negb_false_iff, Z.eqb_eq in Hif.
  assert (m = [x01]) as ->. { destruct m as [|b [|b' m]]; [done| |unfold len in Hl; cbn in Hl; lia]. f_equal. by destruct b. }
  wpx_step. eapply wpx_mono; [apply recv_prefixed_wpx| |intros s' [i Hi]; exists ([x01] ++ i); exact (traffic_trans _ _ _ _ _ _ _ H1 Hi)..].
  cbv beta. intros d s2 (q & Hq & Ed & H2). pose proof (traffic_trans _ _ _ _ _ _ _ H1 H2) as H.
  assert (read_part s s2) as Hr by (by eexists). unfold check_status.
  destruct (get (str "Status") d ?> as_string) as [status|] eqn:Es; [|by apply wpx_fail].
  wpx_step; [|done]. apply bool_decide_eq_true in Hif0 as ->. wpx_step. eexists. split; [|exact H]. by exists q, d.
Qed.

(** The bytes of the request are out; the answer [a] is in. *)
Lemma archive_asked_wpx v t :
  wpx (on_service (send_plist v ;; archive_acknowledged))
    (fun _ t' => exists p a, to_writer_xml v = Some p /\ acknowledgement a /\ moved a (request_frame p) [] t t')
    (fun t' => exists i o, moved i o [] t t') (fun t' => exists i o, moved i o [] t t') t.
Proof.
  assert (forall i o s, traffic i o (service t) s -> moved i o [] t (set_service s t)) as Hm by (intros i o s H; split; [exact H|apply traffic_refl]).
  eapply on_service_wpx with (i := fun _ s => exists p a, to_writer_xml v = Some p /\ acknowledgement a /\ traffic a (request_frame p) (service t) s)
    (o := fun s => exists i o, traffic i o (service t) s).
  - wpx_step. eapply wpx_mono; [apply send_plist_wpx| | |].
    + cbv beta. intros _ s1 (p & Hp & H1). eapply wpx_mono; [apply acknowledged_wpx| |intros s' [i Hi]; eexists _, _; exact (traffic_trans _ _ _ _ _ _ _ H1 Hi)..].
      cbv beta. intros _ s2 (a & Ha & H2). exists p, a. split_and!; try done.
      pose proof (traffic_trans _ _ _ _ _ _ _ H1 H2) as H. by rewrite app_nil_r in H.
    + intros s' [H|(p & _ & o & _ & H)]; by eexists _, _.
    + intros s' (p & _ & o & _ & H). by eexists _, _.
  - intros _ s (p & a & Hp & Ha & H). exists p, a. split_and!; try done. by apply Hm.
  - intros s (i & o & H). split; exists i, o; by apply Hm.
Qed.

(** The writer has nothing yet, or the payload of the frames that came. *)
Definition archive_part (v : Value) (t t' : Transfer) : Prop :=
  (exists i o, moved i o [] t t') \/
  exists p a cs i o, to_writer_xml v = Some p /\ acknowledgement a /\ o `prefix_of` drop 5 i /\
    moved (a ++ chunk_frames cs ++ i) (request_frame p) (concat cs ++ o) t t'.
Lemma archive_part_moved v p a t t1 t' : to_writer_xml v = Some p -> acknowledgement a -> moved a (request_frame p) [] t t1 -> broke_off t1 t' -> archive_part v t t'.
Proof.
  intros Hp Ha H1 (cs & i & o & Ho & H2). right. exists p, a, cs, i, o. split_and!; try done.
  pose proof (transfer_trans _ _ _ _ _ _ _ _ _ H1 H2) as H. by rewrite app_nil_r in H.
Qed.

Definition archived (options : ArchiveOptions) (stats : ArchiveStats) (cs : list bytes) : Prop :=
  stats = mkStats (len (concat cs)) (Z.min u64_max (len cs)) /\ len (concat cs) <= max_total_bytes options /\
  Forall (fun c => len c <= MAX_ARCHIVE_CHUNK_SIZE) cs /\ validate_tar_structure (concat cs) = Ok tt.
Lemma archive_sound options t :
  wpx (create_archive options)
    (fun stats t' => exists p a cs, to_writer_xml (archive_request options) = Some p /\ acknowledgement a /\ archived options stats cs /\
       at_end (service t') /\ moved (a ++ chunk_frames cs) (request_frame p) (concat cs) t t')
    (archive_part (archive_request options) t) (archive_part (archive_request options) t) t.
Proof.
  unfold create_archive. wpx_step. eapply wpx_mono; [apply archive_asked_wpx| |intros t' H; by left..].
  cbv beta. intros _ t1 (p & a & Hp & Ha & H1). do 3 wpx_step.
  eapply wpx_mono; [apply (archive_loop_wpx _ options [] 0 t1); [lia|by vm_compute]| |intros t'; exact (archive_part_moved _ _ _ _ _ _ Hp Ha H1)..].
  cbv beta. intros r t2 (cs & -> & Hmax & Hcs & He & H2). cbn [app].
  pose proof (transfer_trans _ _ _ _ _ _ _ _ _ H1 H2) as H. rewrite app_nil_r in H. cbn [app] in H.
  assert (forall t', moved [] [] [] t2 t' -> archive_part (archive_request options) t t') as Hpart.
  { intros t' H3. right. exists p, a, cs, [], []. split_and!; [done|done|apply prefix_nil|].
    pose proof (transfer_trans _ _ _ _ _ _ _ _ _ H H3) as H4. by rewrite !app_nil_r in *. }
  wpx_step. apply wpx_lift; [apply validate_complete_returns|intros [] Hv|by apply Hpart, transfer_refl].
  apply validate_wire in Hv. wpx_step. eapply on_writer_wpx; [apply flush_traffic| |].
  2: { intros s' Hs. split; by apply Hpart; split; [apply traffic_refl|]. }
  intros [] s' Hs. wpx_step. exists p, a, cs. split_and!; try done.
  - split_and!; try done.
    + by destruct cs.
    + apply Hmax. intros ->. done.
  - assert (moved [] [] [] t2 (set_writer s' t2)) as H3 by (split; [apply traffic_refl|done]).
    pose proof (transfer_trans _ _ _ _ _ _ _ _ _ H H3) as H4. by rewrite !app_nil_r in H4.
Qed.
End archive.

(** *** A stream that flows to its end *)

(** [d] is to come, in nonempty pieces, and then the end of the stream. *)
Definition ends_with (s : Socket) (d : bytes) : Prop :=
  wr s = [] /\ exists l, rx s = l ++ [Chunk []] /\ Forall (fun e => exists bs, e = Chunk bs /\ bs <> []) l /\ data l = d.
Section ending.
Context {E : Type} `{!IoError E}.
Definition more (e : list rx_event) (s : Socket) : Socket := set_rx (rx s ++ e) s.
Lemma read_extended e k s s' bs : flowing s -> read (E := E) k s = (s', Ok bs) -> read (E := E) k (more e s) = (more e s', Ok bs) /\ flowing s'.
Proof.
  intros [Hw Hr] He. destruct s as [l w x]. cbn [rx wr] in *. unfold read, more, set_rx in *. cbn [rx wr tx] in *.
  destruct Hr as [|ev r (c & -> & Hc) Hr]; [done|]. destruct c as [|b c]; [done|]. cbn [app rx_read] in *.
  destruct (length (b :: c) <=? k)%nat eqn:El; injection He as <- <-; cbn [rx wr tx app]; (split; [done|]); [by split|].
  apply Nat.leb_gt in El. split; [done|]. constructor; [|done]. eexists. split; [done|]. intros E0%(f_equal length). rewrite length_drop in E0.
  change (length (@nil byte)) with 0%nat in E0. lia.
Qed.
Lemma fill_more e fuel fuel' n acc s s' r : (fuel <= fuel')%nat -> flowing s ->
  fill (E := E) fuel n acc s = (s', Ok r) -> fill (E := E) fuel' n acc (more e s) = (more e s', Ok r).
Proof.
  revert fuel' acc s. induction fuel as [|fuel IH]; intros [|fuel'] acc s Hle Hf; cbn [fill]; try lia; destruct (n <=? len acc); try done; try by intros [= <- <-].
  unfold mbind, st_bind. destruct (read (Z.to_nat (n - len acc)) s) as [s1 [bs| | | |]] eqn:Er; try done.
  apply (read_extended e) in Er as [-> Hf1]; [|done]. destruct bs; [done|]. apply IH; [lia|done].
Qed.
Lemma read_exact_ends s bs rest : ends_with s (bs ++ rest) ->
  exists s', read_exact (E := E) (len bs) s = (s', Ok bs) /\ ends_with s' rest /\ tx s' = tx s.
Proof.
  intros (Hw & l & Hl & Hf & Hd). assert (s = more [Chunk []] (set_rx l s)) as -> by (destruct s; cbn in *; by subst).
  destruct (read_exact_flows (E := E) (set_rx l s) bs rest) as (s' & Hs & [Hw' Hf'] & Hd' & Ht); [by split|done|].
  unfold read_exact in *. unfold mbind, st_bind, st_get in *. exists (more [Chunk []] s'). split_and!; [|by split; [|exists (rx s')]|done].
  eapply fill_more; [|by split|exact Hs]. unfold rx_bytes, more. cbn [set_rx rx]. unfold data. rewrite map_app, concat_app, length_app. lia.
Qed.
Lemma read_one_ends s b rest : ends_with s (b :: rest) -> exists s', read (E := E) 1 s = (s', Ok [b]) /\ ends_with s' rest /\ tx s' = tx s.
Proof.
  intros (Hw & l & Hl & Hf & Hd). assert (s = more [Chunk []] (set_rx l s)) as -> by (destruct s; cbn in *; by subst).
  destruct (flowing_read (E := E) 1 [b] rest (set_rx l s)) as (c & bs' & s' & Hs & Hc & Eb & Hf' & Hd' & Ht); [by split|lia|done|simpl; lia|].
  destruct c as [|b' c]; [done|]. injection Eb as -> Eb. symmetry in Eb. apply app_nil in Eb as [-> ->]. cbn [app] in Hd'.
  apply (read_extended [Chunk []]) in Hs as [Hs [Hw' Hfl]]; [|by split]. exists (more [Chunk []] s'). split_and!; [done| |done]. split; [done|by exists (rx s')].
Qed.
Lemma read_end s : ends_with s [] -> read (E := E) 1 s = (s, Ok []).
Proof.
  intros (Hw & l & Hl & Hf & Hd). destruct Hf as [|ev l (c & -> & Hc) Hf]; [|by destruct c].
  unfold read. rewrite Hl. cbn. destruct s. cbn in *. by subst.
Qed.
End ending.
Lemma stream_u32_le_ends s n rest : in_u 32 n -> ends_with s (le_bytes 4 n ++ rest) ->
  exists s', stream_u32_le s = (s', Ok n) /\ ends_with s' rest /\ tx s' = tx s.
Proof.
  intros Hn He. destruct (read_exact_ends (E := OsTraceError) s _ _ He) as (s' & Hs & He' & Ht). exists s'. split; [|done].
  unfold stream_u32_le, mbind, st_bind. rewrite len_le_bytes in Hs. change (Z.of_nat 4) with 4 in Hs. rewrite Hs.
  by rewrite (le_Z_le_bytes_u 4 32).
Qed.

(** What is left of a transfer: the service's bytes to come, and a writer that takes everything. *)
Definition to_come (d : bytes) (t : Transfer) : Prop := ends_with (service t) d /\ wr (writer t) = [].
(** A call that reads [i], writes nothing to the service and [o] to the writer, and gives [a]. *)
Definition runs {A} (m : transfer A) (i o : bytes) (a : A) : Prop := forall t rest, to_come (i ++ rest) t ->
  exists t', m t = (t', Ok a) /\ to_come rest t' /\ tx (service t') = tx (service t) /\ tx (writer t') = tx (writer t) ++ o.
Lemma runs_seq {A B} (m : transfer A) (f : A -> transfer B) i1 o1 a i2 o2 b :
  runs m i1 o1 a -> runs (f a) i2 o2 b -> runs (m ≫= f) (i1 ++ i2) (o1 ++ o2) b.
Proof.
  intros Hm Hf t rest Ht. rewrite <- app_assoc in Ht. destruct (Hm _ _ Ht) as (t1 & E1 & Ht1 & S1 & W1).
  destruct (Hf _ _ Ht1) as (t2 & E2 & Ht2 & S2 & W2). exists t2. unfold mbind, st_bind. rewrite E1. split_and!; try done; [congruence|].
  by rewrite W2, W1, app_assoc.
Qed.
Lemma runs_then {A B} (m : transfer A) (f : A -> transfer B) i1 o1 a i2 o2 b i o :
  runs m i1 o1 a -> runs (f a) i2 o2 b -> i = i1 ++ i2 -> o = o1 ++ o2 -> runs (m ≫= f) i o b.
Proof. intros H1 H2 -> ->. by eapply runs_seq. Qed.
Lemma runs_return {A} (a : A) : runs (mret a) [] [] a.
Proof. intros t rest Ht. exists t. split_and!; try done. by rewrite app_nil_r. Qed.
Lemma runs_lift {A} (o : outcome OsTraceError A) a : o = Ok a -> runs (st_lift o) [] [] a.
Proof. intros -> t rest Ht. exists t. split_and!; try done. by rewrite app_nil_r. Qed.
Lemma runs_service {A} (m : trace A) i a :
  (forall s rest, ends_with s (i ++ rest) -> exists s', m s = (s', Ok a) /\ ends_with s' rest /\ tx s' = tx s) -> runs (on_service m) i [] a.
Proof.
  intros Hm t rest [Hs Hw]. destruct (Hm _ _ Hs) as (s' & E & Hs' & Ht). exists (set_service s' t). unfold on_service, zoom. rewrite E.
  split_and!; try done. cbn. by rewrite app_nil_r.
Qed.
Lemma runs_write bs : runs (on_writer (write_all bs)) [] bs tt.
Proof.
  intros t rest [Hs Hw]. eexists. unfold on_writer, zoom. rewrite (write_all_open (E := OsTraceError) _ _ Hw). split_and!; try done.
Qed.
Lemma runs_flush : runs (on_writer flush) [] [] tt.
Proof. intros t rest [Hs Hw]. exists t. unfold on_writer, zoom. rewrite (flush_open (E := OsTraceError) _ Hw). destruct t. by rewrite app_nil_r. Qed.
Lemma runs_eq {A} (m : transfer A) i o a i' o' a' : runs m i o a -> i = i' -> o = o' -> a = a' -> runs m i' o' a'.
Proof. by intros ? -> -> ->. Qed.

Lemma copy_chunk_runs fuel (c d : bytes) : len c <= Z.of_nat fuel * BUFFER_SIZE -> len (d ++ c) <= u64_max ->
  runs (copy_chunk fuel (len c) (wire_of d)) c c (wire_of (d ++ c)).
Proof.
  revert c d. induction fuel as [|fuel IH]; intros c d Hf Hd; cbn [copy_chunk]; (destruct (len c =? 0) eqn:E0;
    [apply Z.eqb_eq in E0; assert (c = []) as -> by (destruct c; [done|unfold len in E0; cbn in E0; lia]); rewrite app_nil_r; apply runs_return|apply Z.eqb_neq in E0]).
  { unfold len in *. lia. }
  cbv zeta. set (n := Z.min (len c) BUFFER_SIZE). assert (0 < BUFFER_SIZE) by done. assert (0 <= n <= len c) as Hn by (unfold n, len in *; lia).
  assert (len (take (Z.to_nat n) c) = n) as En by (unfold len in *; rewrite length_take; lia).
  assert (len c - n = len (drop (Z.to_nat n) c)) as -> by (unfold len in *; rewrite length_drop; lia).
  rewrite <- (take_drop (Z.to_nat n) c) in Hd |- * at 1. set (c1 := take (Z.to_nat n) c) in *. set (c2 := drop (Z.to_nat n) c) in *. rewrite app_assoc in Hd.
  eapply runs_eq; [eapply runs_seq; [apply (runs_service _ c1); intros s rest Hs; rewrite <- En; by apply (read_exact_ends (E := OsTraceError))|]| | |].
  - eapply runs_seq; [apply runs_lift, push_wire; rewrite len_app in Hd; unfold len in *; lia|].
    eapply runs_seq; [apply runs_write|]. apply IH; [|done]. assert (len c2 = len c - n) as -> by (subst c2; unfold len in *; rewrite length_drop; lia). unfold n. lia.
  - by subst c1 c2; cbn [app]; rewrite take_drop.
  - by subst c1 c2; cbn [app]; rewrite take_drop.
  - subst c1 c2. by rewrite <- app_assoc, take_drop.
Qed.
Lemma archive_frame_runs options d k c : len c <= MAX_ARCHIVE_CHUNK_SIZE -> len (d ++ c) <= max_total_bytes options -> len (d ++ c) <= u64_max ->
  runs (archive_frame options (mkStats (len d) k) (wire_of d)) (chunk_frame c) c (Some (mkStats (len (d ++ c)) (Z.min u64_max (k + 1)), wire_of (d ++ c))).
Proof.
  intros Hc Hmax Hu. unfold archive_frame. assert (in_u 32 (len c)) as H32 by (split; [unfold len; lia|]; eapply Z.le_lt_trans; [exact Hc|done]).
  eapply runs_then; [apply (runs_service _ [x03]); intros s rest Hs; by apply (read_one_ends (E := OsTraceError))| |done|done].
  cbn [stat_bytes chunks]. change (negb (le_Z [x03] =? ARCHIVE_CHUNK_MAGIC)) with false. cbv iota.
  eapply runs_then; [apply (runs_service _ (le_bytes 4 (len c))); intros s rest Hs; by apply stream_u32_le_ends| |done|done].
  rewrite len_app in *. rewrite !(proj2 (Z.ltb_ge _ _)) by lia.
  eapply runs_then; [apply copy_chunk_runs; [apply pieces_enough; unfold len; lia|by rewrite len_app]|apply runs_return|by rewrite app_nil_r..].
Qed.
Lemma archive_loop_ends cs : forall fuel options d k t, (length cs < fuel)%nat ->
  Forall (fun c => len c <= MAX_ARCHIVE_CHUNK_SIZE) cs -> len (d ++ concat cs) <= max_total_bytes options -> len (d ++ concat cs) <= u64_max ->
  0 <= k <= u64_max -> to_come (chunk_frames cs) t ->
  exists t', archive_loop fuel options (mkStats (len d) k) (wire_of d) t =
      (t', Ok (mkStats (len (d ++ concat cs)) (Z.min u64_max (k + len cs)), wire_of (d ++ concat cs))) /\
    to_come [] t' /\ tx (service t') = tx (service t) /\ tx (writer t') = tx (writer t) ++ concat cs.
Proof.
  induction cs as [|c cs IH]; intros [|fuel] options d k t Hf Hcs Hmax Hu Hk Ht; try (cbn [length] in Hf; lia); cbn [archive_loop].
  - exists t. unfold mbind, st_bind, archive_frame, on_service, zoom. unfold mbind, st_bind. destruct Ht as [Hs Hw]. rewrite (read_end (E := OsTraceError) _ Hs).
    cbn [concat]. rewrite app_nil_r. unfold mret, st_ret. change (len []) with 0. rewrite Z.min_r by lia. rewrite Z.add_0_r.
    destruct t. rewrite app_nil_r. by split_and!.
  - inversion_clear Hcs as [|? ? Hc Hcs']. cbn [concat] in *. rewrite app_assoc in Hmax, Hu.
    assert (len (d ++ c) <= len ((d ++ c) ++ concat cs)) as Hle by (rewrite (len_app (d ++ c)); unfold len; lia).
    destruct (archive_frame_runs options d k c Hc ltac:(lia) ltac:(lia) t (chunk_frames cs) Ht) as (t1 & E1 & Ht1 & S1 & W1).
    unfold mbind, st_bind. rewrite E1.
    destruct (IH fuel options (d ++ c) (Z.min u64_max (k + 1)) t1) as (t' & E' & Ht' & S' & W'); [cbn [length] in Hf; lia|done..|unfold u64_max in *; lia|done|].
    exists t'. rewrite E'. rewrite app_assoc. split_and!; [|done|congruence|by rewrite W', W1, app_assoc].
    do 4 f_equal. unfold len. cbn [length]. lia.
Qed.
Lemma chunk_frames_length cs : (length cs <= length (chunk_frames cs))%nat.
Proof. unfold chunk_frames. induction cs as [|c cs IH]; [done|]. cbn [map concat length]. rewrite length_app. unfold chunk_frame at 1. cbn [length]. lia. Qed.

Section archive_runs.
Context `{PC : PlistCodec}.
Lemma recv_prefixed_ends q d s rest : len q <= MAX_PLIST_SIZE -> from_bytes q = Some (Dictionary d) -> ends_with s ((be_bytes 4 (len q) ++ q) ++ rest) ->
  exists s', recv_prefixed_plist s = (s', Ok d) /\ ends_with s' rest /\ tx s' = tx s.
Proof.
  intros Hq Ed Hs. rewrite <- app_assoc in Hs. apply (read_exact_ends (E := OsTraceError)) in Hs as (s1 & E1 & H1 & T1).
  apply (read_exact_ends (E := OsTraceError)) in H1 as (s2 & E2 & H2 & T2). exists s2. split; [|split; [done|congruence]].
  unfold recv_prefixed_plist, stream_u32, mbind, st_bind. unfold len in E1 at 1. rewrite length_be_bytes in E1. change (Z.of_nat 4) with 4 in E1. rewrite E1. unfold mret, st_ret.
  rewrite (be_Z_be_bytes_u 4 32) by (done || (split; [unfold len; lia|]; eapply Z.le_lt_trans; [exact Hq|done])).
  rewrite (proj2 (Z.ltb_ge _ _)) by lia. rewrite E2. unfold dictionary_of. by rewrite Ed.
Qed.
Lemma acknowledged_ends a s rest : acknowledgement a -> ends_with s (a ++ rest) -> exists s', archive_acknowledged s = (s', Ok tt) /\ ends_with s' rest /\ tx s' = tx s.
Proof.
  intros (q & d & -> & Hq & Ed & Hd) Hs. change ((x01 :: be_bytes 4 (len q) ++ q) ++ rest) with ([x01] ++ (be_bytes 4 (len q) ++ q) ++ rest) in Hs.
  apply (read_exact_ends (E := OsTraceError)) in Hs as (s1 & E1 & H1 & T1). change (len [x01]) with 1 in E1.
  destruct (recv_prefixed_ends q d s1 rest Hq Ed H1) as (s2 & E2 & H2 & T2). exists s2. split; [|split; [done|congruence]].
  unfold archive_acknowledged, stream_u8, mbind, st_bind. rewrite E1. unfold mret, st_ret. change (negb (be_Z [x01] =? ARCHIVE_RESPONSE_MARKER)) with false. cbv iota.
  cbv beta. rewrite E2. unfold check_status. rewrite Hd. by rewrite bool_decide_eq_true_2.
Qed.
Lemma send_plist_open v p s : wr s = [] -> to_writer_xml v = Some p -> len p <= MAX_PLIST_SIZE -> send_plist v s = (mkSocket (rx s) [] (tx s ++ request_frame p), Ok tt).
Proof.
  intros Hw Ep Hp. unfold send_plist. rewrite Ep. assert (MAX_PLIST_SIZE < u32_max) by done. rewrite !(proj2 (Z.ltb_ge _ _)) by lia.
  unfold mbind, st_bind. rewrite (write_all_open (E := OsTraceError)) by done. rewrite (write_all_open (E := OsTraceError)) by done.
  rewrite (flush_open (E := OsTraceError)) by done. cbn. by rewrite <- app_assoc.
Qed.
Lemma archive_delivers options stats t p a cs : max_total_bytes options <= u64_max ->
  to_writer_xml (archive_request options) = Some p -> len p <= MAX_PLIST_SIZE -> acknowledgement a -> archived options stats cs -> to_come (a ++ chunk_frames cs) t ->
  exists t', create_archive options t = (t', Ok stats) /\ to_come [] t' /\ tx (service t') = tx (service t) ++ request_frame p /\ tx (writer t') = tx (writer t) ++ concat cs.
Proof.
  intros Hmu Ep Hp Ha (-> & Hmax & Hcs & Hv) [[Hw Hs] Ht]. unfold create_archive.
  assert (exists s1, (send_plist (archive_request options) ;; archive_acknowledged) (service t) = (s1, Ok tt) /\ ends_with s1 (chunk_frames cs) /\ tx s1 = tx (service t) ++ request_frame p) as (s1 & E1 & H1 & T1).
  { unfold mbind at 1, st_bind at 1. rewrite (send_plist_open _ p) by done. by eapply acknowledged_ends. }
  unfold mbind at 1, st_bind at 1. unfold on_service at 1, zoom. rewrite E1. set (t1 := set_service s1 t).
  unfold mbind at 1, st_bind at 1, st_get. change (service t1) with s1.
  assert (rx_bytes s1 = length (chunk_frames cs)) as ->.
  { destruct H1 as (_ & l & El & _ & Ed). unfold rx_bytes. rewrite El. unfold data in *. rewrite map_app, concat_app, length_app, Ed. cbn. lia. }
  pose proof (chunk_frames_length cs).
  destruct (archive_loop_ends cs (S (length (chunk_frames cs))) options [] 0 t1) as (t2 & E2 & [Hs2 Hw2] & S2 & W2);
    [lia|done|done|cbn [app]; lia|unfold u64_max; lia|by split|].
  cbn [app] in E2. change (len []) with 0 in E2. change (wire_of []) with wire_default in E2.
  unfold mbind at 1, st_bind at 1. rewrite E2. rewrite Z.add_0_l. unfold mbind at 1, st_bind at 1, st_lift. rewrite (proj2 (validate_wire _) Hv).
  unfold mbind, st_bind, on_writer, zoom. rewrite (flush_open (E := OsTraceError) _ Hw2). eexists. split; [done|].
  split_and!; [by split| |done]. cbn. by rewrite S2.
Qed.
End archive_runs.

(** ** The live stream *)

(** A record as it is framed. *)
Definition entry_frame (d : bytes) : bytes := x02 :: le_bytes 4 (len d) ++ d.
Definition entry_frames (ds : list bytes) : bytes := concat (map entry_frame ds).
Definition readable (d : bytes) (e : LogEntry) : Prop := len d <= MAX_TRACE_ENTRY_SIZE /\ parse_entry d = Ok e.
Lemma readable_long d e : readable d e -> 0 < len d.
Proof. intros [_ H]. unfold parse_entry in H. destruct (length d <? TRACE_HEADER_SIZE)%nat eqn:E; [done|]. apply Nat.ltb_ge in E. unfold TRACE_HEADER_SIZE in E. unfold len. lia. Qed.

Lemma next_entry_wpx s : wpx next_entry
  (fun r s' => match r with None => s' = s /\ at_end s | Some e => exists d, readable d e /\ traffic (entry_frame d) [] s s' end) (read_part s) (read_part s) s.
Proof.
  unfold next_entry. wpx_step. eapply wpx_mono; [apply read_one_wpx| |intros s' H; by exists []..].
  cbv beta. intros bs s1 [(-> & -> & He)|(b & -> & H1)]; [by wpx_step|]. wpx_step; [by exists [b]|]. apply negb_false_iff, Z.eqb_eq in Hif.
  assert (b = x02) as -> by (by destruct b). wpx_step.
  assert (forall i s', traffic i [] s1 s' -> traffic (x02 :: i) [] s s') as Ht by (intros i s' H2; exact (traffic_trans _ _ _ _ _ _ _ H1 H2)).
  eapply wpx_mono; [apply stream_u32_le_wpx| |intros s' [i Hi%Ht]; by eexists..].
  cbv beta. intros n s2 [[Hn _] H2]. pose proof (Ht _ _ H2) as H2'. do 2 (wpx_step; [by eexists|]). wpx_step.
  eapply wpx_mono; [by apply read_exact_traffic| |intros s' [i Hi]; pose proof (Ht _ _ (traffic_trans _ _ _ _ _ _ _ H2 Hi)); by eexists..].
  cbv beta. intros d s3 [<- H3]. pose proof (Ht _ _ (traffic_trans _ _ _ _ _ _ _ H2 H3)) as H. wpx_step.
  apply wpx_lift; [apply parse_entry_returns| |by eexists]. intros e He. wpx_step. exists d. split; [|exact H]. split; [lia|done].
Qed.
Lemma next_entry_ends d e s rest : readable d e -> ends_with s (entry_frame d ++ rest) ->
  exists s', next_entry s = (s', Ok (Some e)) /\ ends_with s' rest /\ tx s' = tx s.
Proof.
  intros Hr Hs. pose proof (readable_long d e Hr) as Hl. destruct Hr as [Hm Hp]. unfold entry_frame in Hs. cbn [app] in Hs. rewrite <- app_assoc in Hs.
  apply (read_one_ends (E := OsTraceError)) in Hs as (s1 & E1 & H1 & T1).
  apply stream_u32_le_ends in H1 as (s2 & E2 & H2 & T2). 2: { split; [lia|]. eapply Z.le_lt_trans; [exact Hm|done]. }
  apply (read_exact_ends (E := OsTraceError)) in H2 as (s3 & E3 & H3 & T3). exists s3. split; [|split; [done|congruence]].
  unfold next_entry, mbind, st_bind. rewrite E1. change (negb (le_Z [x02] =? TRACE_FRAME_MAGIC)) with false. cbv iota beta. rewrite E2.
  rewrite (proj2 (Z.eqb_neq _ _)), (proj2 (Z.ltb_ge _ _)) by lia. rewrite E3. unfold st_lift. by rewrite Hp.
Qed.
Lemma next_entry_end s : ends_with s [] -> next_entry s = (s, Ok None).
Proof. intros Hs. unfold next_entry, mbind, st_bind. by rewrite (read_end (E := OsTraceError) _ Hs). Qed.
Lemma entry_frames_length ds : (length ds <= length (entry_frames ds))%nat.
Proof. unfold entry_frames. induction ds as [|d ds IH]; [done|]. cbn [map concat length]. rewrite length_app. unfold entry_frame at 1. cbn [length]. lia. Qed.
Lemma ends_bytes s d : ends_with s d -> rx_bytes s = length d.
Proof. intros (_ & l & El & _ & <-). unfold rx_bytes. rewrite El. unfold data. rewrite map_app, concat_app, length_app. cbn. lia. Qed.

(** Records came whole and in order, up to the first read that gave none: an error, the end or a drop. *)
Definition streamed (s : Socket) (r : Socket * list (LogEntry + OsTraceError)) : Prop :=
  exists ds es s1 (res : outcome OsTraceError (option LogEntry)), Forall2 readable ds es /\ traffic (entry_frames ds) [] s s1 /\ next_entry s1 = (r.1, res) /\
    (forall e, res <> Ok (Some e)) /\ r.2 = map inl es ++ match res with Err e => [inr e] | _ => [] end.
Lemma entry_frame_shorter d s s1 : traffic (entry_frame d) [] s s1 -> (rx_bytes s1 < rx_bytes s)%nat.
Proof. intros H%traffic_rx_le. unfold entry_frame in H. cbn [length] in H. lia. Qed.
Lemma into_stream_sound fuel s : (rx_bytes s < fuel)%nat -> streamed s (into_stream fuel s).
Proof.
  revert s. induction fuel as [|fuel IH]; intros s Hf; [lia|]. cbn [into_stream].
  pose proof (next_entry_wpx s) as H. unfold wpx in H.
  destruct (next_entry s) as [s1 [[e|]|e| | |]] eqn:E; try done; try (exists [], [], s, (next_entry s).2; rewrite E; split_and!; [constructor|apply traffic_refl|done..]).
  destruct H as (d & Hd & Ht). specialize (IH s1). destruct (into_stream fuel s1) as [s' l].
  destruct IH as (ds & es & s2 & res & Hds & Ht' & E2 & Hres & El); [apply entry_frame_shorter in Ht; lia|].
  cbn [fst snd] in *. exists (d :: ds), (e :: es), s2, res. split_and!; [by constructor|exact (traffic_trans _ _ _ _ _ _ _ Ht Ht')|done|done|by rewrite El].
Qed.
Lemma into_stream_ends fuel ds es s : (length ds < fuel)%nat -> Forall2 readable ds es -> ends_with s (entry_frames ds) ->
  exists s', into_stream fuel s = (s', map inl es) /\ ends_with s' [] /\ tx s' = tx s.
Proof.
  intros Hf H. revert fuel s Hf. induction H as [|d e ds es Hd H IH]; intros [|fuel] s Hf Hs; try (cbn [length] in Hf; lia); cbn [into_stream map].
  - rewrite next_entry_end by done. by exists s.
  - destruct (next_entry_ends d e s _ Hd Hs) as (s1 & -> & H1 & T1). destruct (IH fuel s1) as (s' & -> & H' & T'); [cbn [length] in Hf; lia|done|].
    exists s'. split_and!; try done. congruence.
Qed.

Section filtered_entries.
Context `{TE : TextEngine}.
(** The first of the records that matches. *)
Lemma next_filtered_ends fuel f ds es s : (length ds < fuel)%nat -> Forall2 readable ds es -> ends_with s (entry_frames ds) ->
  exists s', next_filtered_loop fuel f s = (s', Ok (List.find (matches f) es)) /\ tx s' = tx s /\
    match List.find (matches f) es with
    | None => ends_with s' []
    | Some e => exists pre post, es = pre ++ e :: post /\ Forall (fun e => matches f e = false) pre /\
        ends_with s' (entry_frames (drop (S (length pre)) ds))
    end.
Proof.
  intros Hf H. revert fuel s Hf. induction H as [|d e ds es Hd H IH]; intros [|fuel] s Hf Hs; try (cbn [length] in Hf; lia); cbn [next_filtered_loop List.find].
  - unfold mbind, st_bind. rewrite next_entry_end by done. by exists s.
  - unfold mbind, st_bind. destruct (next_entry_ends d e s _ Hd Hs) as (s1 & -> & H1 & T1). destruct (matches f e) eqn:Em.
    + exists s1. split_and!; [done..|]. exists [], es. by split_and!.
    + destruct (IH fuel s1) as (s' & -> & T' & H'); [cbn [length] in Hf; lia|done|]. exists s'. split_and!; [done|congruence|].
      destruct (List.find (matches f) es) as [e'|]; [|done]. destruct H' as (pre & post & -> & Hpre & Hs'). exists (e :: pre), post. split_and!; [done|by constructor|done].
Qed.
(** The records before it do not match. *)
Definition found (f : CompiledMessageFilter) (s : Socket) (r : option LogEntry) (s' : Socket) : Prop :=
  exists ds es, Forall2 readable ds es /\ Forall (fun e => matches f e = false) es /\
    match r with
    | None => traffic (entry_frames ds) [] s s' /\ at_end s'
    | Some e => exists d, readable d e /\ matches f e = true /\ traffic (entry_frames ds ++ entry_frame d) [] s s'
    end.
Lemma next_filtered_sound fuel f s : (rx_bytes s < fuel)%nat -> wpx (next_filtered_loop fuel f) (found f s) (read_part s) (read_part s) s.
Proof.
  revert s. induction fuel as [|fuel IH]; intros s Hf; [lia|]. cbn [next_filtered_loop]. wpx_step.
  eapply wpx_mono; [apply next_entry_wpx| |done|done]. cbv beta. intros [e|] s1.
  2: { intros [-> He]. wpx_step. exists [], []. split_and!; [constructor|constructor|apply traffic_refl|done]. }
  intros (d & Hd & Ht). wpx_step; [wpx_step; exists [], []; split_and!; [constructor|constructor|exists d; by split_and!]|].
  eapply wpx_mono; [apply IH; apply entry_frame_shorter in Ht; lia| |intros s' [i Hi]; eexists; exact (traffic_trans _ _ _ _ _ _ _ Ht Hi)..].
  cbv beta. intros r s' (ds & es & Hds & Hes & H). exists (d :: ds), (e :: es). split_and!; [by constructor|by constructor|].
  destruct r as [e'|].
  - destruct H as (d' & Hd' & Hm & Ht'). exists d'. split_and!; [done|done|]. unfold entry_frames. cbn [map concat]. rewrite <- app_assoc.
    exact (traffic_trans _ _ _ _ _ _ _ Ht Ht').
  - destruct H as [Ht' He]. split; [exact (traffic_trans _ _ _ _ _ _ _ Ht Ht')|done].
Qed.
End filtered_entries.

(** ** What the clients get *)

(** C13. The live stream delivers the records in order. Whatever the service does, the entries given out are
    what [parse_entry] makes of the frames that came, one for one and in their order, up to the first read
    that gives none, whose error is given out last; a filtered read returns, and what it returns is the record
    of a frame that matches, behind frames that do not, or nothing at the end of the stream. When the frames
    come whole, in any pieces, and then the end, all the entries are given out and nothing else, and a
    filtered read returns the first that matches and leaves the frames behind it, or nothing if none does. *)
Theorem trace_stream_exact `{TE : TextEngine} (f : CompiledMessageFilter) s :
  streamed s (entries s) /\
  wpx (next_filtered_compiled f) (found f s) (read_part s) (read_part s) s /\
  (forall ds es, Forall2 readable ds es -> ends_with s (entry_frames ds) ->
    (exists s', entries s = (s', map inl es) /\ ends_with s' [] /\ tx s' = tx s) /\
    (exists s', next_filtered_compiled f s = (s', Ok (List.find (matches f) es)) /\ tx s' = tx s /\
      match List.find (matches f) es with
      | None => ends_with s' []
      | Some e => exists pre post, es = pre ++ e :: post /\ Forall (fun e => matches f e = false) pre /\
          ends_with s' (entry_frames (drop (S (length pre)) ds))
      end)).
Proof.
  split; [apply into_stream_sound; lia|]. split; [unfold next_filtered_compiled; do 2 wpx_step; apply next_filtered_sound; lia|]. intros ds es H Hs.
  assert (length ds < S (rx_bytes s))%nat as Hf by (rewrite (ends_bytes _ _ Hs); pose proof (entry_frames_length ds); lia).
  split; [by apply (into_stream_ends _ ds)|]. exact (next_filtered_ends _ f ds es s Hf H Hs).
Qed.

(** A record of 129 bytes and a message of two. *)
Definition small_header : list bytes :=
  [[x00]; le_bytes 4 1; le_bytes 4 0; le_bytes 4 57; le_bytes 8 9; replicate 16 x00; le_bytes 2 0; le_bytes 8 0; le_bytes 8 0; le_bytes 8 7; le_bytes 4 5;
   [x00]; [x10]; replicate 6 x00; le_bytes 8 0; le_bytes 4 3; le_bytes 4 0; replicate 16 x00; le_bytes 2 0; le_bytes 4 2; le_bytes 4 0;
   le_bytes 2 0; le_bytes 2 0; le_bytes 2 0; replicate 6 x00].
Definition small_record : bytes := concat small_header ++ str "hi".
Definition small_entry : LogEntry :=
  mkEntry 1 57 9 (replicate 16 x00) 0 0 (mkTime 7 5) 0 ERROR 3 (replicate 16 x00) [] 0 [] (str "hi") None.
Lemma small_readable : readable small_record small_entry.
Proof. split; [by vm_compute|]. by vm_compute. Qed.
#[local] Instance no_text : TextEngine := {| to_lowercase b := b; TraceRegex := unit; regex_build _ _ _ := Some tt; regex_is_match _ _ := true |}.
Definition errors_only : CompiledMessageFilter := compile_spec (mkSpec [ERROR] None None None None None).
Lemma trace_stream_witness :
  let s := mkSocket [Chunk [x02]; Chunk (le_bytes 4 131); Chunk (take 60 small_record); Chunk (drop 60 small_record); Chunk []] [] [] in
  ends_with s (entry_frames [small_record]) /\ exists s', next_filtered_compiled errors_only s = (s', Ok (Some small_entry)).
Proof.
  cbv zeta. set (s := mkSocket _ _ _). assert (ends_with s (entry_frames [small_record])) as Hs.
  { split; [done|]. exists [Chunk [x02]; Chunk (le_bytes 4 131); Chunk (take 60 small_record); Chunk (drop 60 small_record)].
    split; [done|]. split; [|by vm_compute]. repeat constructor; eexists; (split; [done|by vm_compute]). }
  split; [exact Hs|]. destruct (trace_stream_exact errors_only s) as (_ & _ & H).
  destruct (H [small_record] [small_entry] ltac:(constructor; [apply small_readable|constructor]) Hs) as [_ (s' & Hr & _)].
  exists s'. rewrite Hr. vm_compute. reflexivity.
Defined.

(** C12. An archive is copied exactly. If [create_archive] returns counters, one request was sent, the service
    acknowledged it and sent framed chunks up to the end of its stream, none above the limit of a chunk, and
    the writer got their payloads, one after the other and nothing else; together they are within the caller's
    limit, have the frame of a tar file (as the check of a whole file finds, though only the first and last
    blocks were kept), and are what the counters say. If it fails or is dropped, the writer has the payloads
    of the frames that came whole and a prefix of that of the frame that did not. And such a stream, in any
    pieces, and a writer that takes everything make the call return. *)
Theorem trace_archive_exact `{PC : PlistCodec} options t :
  wpx (create_archive options)
    (fun stats t' => exists p a cs, to_writer_xml (archive_request options) = Some p /\ acknowledgement a /\ archived options stats cs /\
       at_end (service t') /\ moved (a ++ chunk_frames cs) (request_frame p) (concat cs) t t')
    (archive_part (archive_request options) t) (archive_part (archive_request options) t) t /\
  (forall stats p a cs, max_total_bytes options <= u64_max -> to_writer_xml (archive_request options) = Some p -> len p <= MAX_PLIST_SIZE ->
     acknowledgement a -> archived options stats cs -> to_come (a ++ chunk_frames cs) t ->
     exists t', create_archive options t = (t', Ok stats) /\ to_come [] t' /\
       tx (service t') = tx (service t) ++ request_frame p /\ tx (writer t') = tx (writer t) ++ concat cs).
Proof. split; [apply archive_sound|]. intros. by eapply archive_delivers. Qed.

Definition small_tar : bytes := replicate 257 x61 ++ str "ustar" ++ replicate 250 x00 ++ replicate 1024 x00.
Definition small_options : ArchiveOptions := mkArchive None (Some 3) None 4096 0 0 0.
Definition small_reply : bytes := default [] (to_writer_xml (PlistCodec := tree_codec) (Dictionary [(str "Status", String (str "RequestSuccessful"))])).
Definition small_ack : bytes := x01 :: be_bytes 4 (len small_reply) ++ small_reply.
Lemma trace_archive_witness :
  let t := mkTransfer (mkSocket [Chunk small_ack; Chunk (chunk_frame (take 700 small_tar) ++ chunk_frame (drop 700 small_tar)); Chunk []] [] []) (mkSocket [] [] []) in
  exists t', create_archive (PC := tree_codec) small_options t = (t', Ok (mkStats 1536 2)) /\ tx (writer t') = small_tar.
Proof.
  cbv zeta. set (t := mkTransfer _ _). destruct (trace_archive_exact (PC := tree_codec) small_options t) as [_ H].
  destruct (H (mkStats 1536 2) (default [] (to_writer_xml (PlistCodec := tree_codec) (archive_request small_options))) small_ack [take 700 small_tar; drop 700 small_tar])
    as (t' & E & _ & _ & W); [by vm_compute|by vm_compute|by vm_compute| | | |].
  - exists small_reply, [(str "Status", String (str "RequestSuccessful"))]. split_and!; [done|by vm_compute..].
  - split_and!; [by vm_compute|by vm_compute|repeat constructor; by vm_compute|by vm_compute].
  - split; [|done]. split; [done|]. eexists [_; _]. split; [done|]. split; [|by vm_compute]. repeat constructor; eexists; (split; [done|by vm_compute]).
  - exists t'. split; [exact E|]. rewrite W. vm_compute. reflexivity.
Defined.

End OsTraceSpec.
