(* ===== verification/Capture.v ===== *)
(** Packet capture: the network packets of [com.apple.pcapd] ([crates/ios-core/src/services/pcap/mod.rs])
    and the Bluetooth packets of [com.apple.bluetooth.BTPacketLogger] ([services/bt_packet_logger.rs]).

    [Pcap] has the packet frames, the search for the device's addresses, the filter and the pcap
    file; [BtLog] the records, their conversion and the pcapng file. A file is a [Socket]
    that is only written. The clock of the search's deadline is a parameter: whether it allows the
    deadline at all and, at a read that stalls, whether the deadline passes before the caller gives up. *)

From stdpp Require Import list.
From Stdlib Require Import SpecFloat.
From S2P Require Import Prelude Utf8 Text Slices Socket Plist Frames.

(** ** Files that are only written *)

Module Sink.
Import Net Socket.
Section sink.
Context {E : Type} `{!IoError E}.
(** The call succeeds with [a] on a file that takes everything, and appends [bs]. *)
Definition appends {A} (m : st Socket E A) (bs : bytes) (a : A) : Prop := forall s, wr s = [] -> m s = (mkSocket (rx s) [] (tx s ++ bs), Ok a).
Lemma appends_ret {A} (a : A) : appends (mret a) [] a.
Proof. intros [] Hw. cbn in Hw. subst. cbn. by rewrite app_nil_r. Qed.
Lemma appends_bind {A B} (m : st Socket E A) (f : A -> st Socket E B) x a y b bs :
  appends m x a -> appends (f a) y b -> bs = x ++ y -> appends (m ≫= f) bs b.
Proof. intros Hm Hf -> s Hw. unfold mbind, st_bind. rewrite (Hm s Hw), Hf by done. cbn. by rewrite app_assoc. Qed.
Lemma appends_lift {A} (o : outcome E A) a : o = Ok a -> appends (st_lift o) [] a.
Proof. intros ->. apply appends_ret. Qed.
Lemma appends_write bs : appends (write_all bs) bs tt.
Proof. intros s Hw. by apply write_all_open. Qed.
Lemma appends_flush : appends flush [] tt.
Proof. intros [] Hw. cbn in Hw. subst. rewrite flush_open by done. cbn. by rewrite app_nil_r. Qed.
(** The calls for the elements of a list, one after the other. *)
Fixpoint write_each {A B} (f : A -> st Socket E B) (l : list A) : st Socket E unit :=
  match l with [] => mret tt | a :: l => f a ;; write_each f l end.
Lemma appends_each {A B} (f : A -> st Socket E B) (g : A -> bytes) l :
  Forall (fun a => exists b, appends (f a) (g a) b) l -> appends (write_each f l) (concat (map g l)) tt.
Proof. induction 1 as [|a l [b Hb] H IH]; [apply appends_ret|]. by eapply appends_bind. Qed.
End sink.
End Sink.

Module Pcap.
Import Slices Net Socket Text Plist.
#[local] Open Scope plist_scope.

Inductive PcapError := Io | PlistError | Protocol (m : msg).
#[export] Instance pcap_io_error : IoError PcapError := Io.
Definition protocol (text : string) (args : list Z) : PcapError := Protocol (Msg text args).
Abbreviation pcap := (st Socket PcapError).

Definition DEFAULT_HEADER_SIZE : Z := 95.
Definition FAKE_ETHERNET_HEADER : bytes := [xbe; xfe; xbe; xfe; xbe; xfe; xbe; xfe; xbe; xfe; xbe; xfe; x08; x00].
Definition MAX_PLIST_SIZE : Z := 4 * 1024 * 1024.

Record CapturedPacket := mkPacket {
  ts_sec : Z; ts_usec : Z; interface_name : bytes; pid : Z; pid2 : Z; proc_name : bytes; proc_name2 : bytes; payload : bytes
}.

(** *** A packet *)

Definition missing {A} (what : string) (offset : nat) (o : option A) : outcome PcapError A :=
  match o with Some a => Ok a | None => Err (protocol what [Z.of_nat offset]) end.
Definition be_u32 (buf : bytes) (offset : nat) : outcome PcapError Z :=
  bs ← missing "missing u32 at offset {offset}" offset (slice buf offset 4); Ok (be_Z bs).
Definition le_i32 (buf : bytes) (offset : nat) : outcome PcapError Z :=
  bs ← missing "missing i32 at offset {offset}" offset (slice buf offset 4); Ok (signed 32 (le_Z bs)).
Fixpoint until_nul (l : bytes) : bytes := match l with [] => [] | b :: l => if Zb b =? 0 then [] else b :: until_nul l end.
Definition parse_fixed_string (buf : bytes) (offset length : nat) : outcome PcapError bytes :=
  bs ← missing "missing string at offset {offset}" offset (slice buf offset length);
  if from_utf8 (until_nul bs) then Ok (until_nul bs) else Err (protocol "invalid string: {e}" []).
Definition decode_packet (buf : bytes) : outcome PcapError CapturedPacket :=
  if len buf <? DEFAULT_HEADER_SIZE then Err (protocol "pcap frame too short for header: {}" [len buf]) else
  hdr_size ← be_u32 buf 0;
  if hdr_size <? DEFAULT_HEADER_SIZE then Err (protocol "pcap header too small: {hdr_size}" [hdr_size]) else
  if len buf <? hdr_size then Err (protocol "pcap frame shorter than header size: {} < {hdr_size}" [len buf; hdr_size]) else
  frame_pre_length ← be_u32 buf 17;
  interface_name ← parse_fixed_string buf 25 16;
  pid ← le_i32 buf 41;
  proc_name ← parse_fixed_string buf 45 17;
  pid2 ← le_i32 buf 66;
  proc_name2 ← parse_fixed_string buf 70 17;
  ts_sec ← be_u32 buf 87;
  ts_usec ← be_u32 buf 91;
  let payload := drop (Z.to_nat hdr_size) buf in
  Ok (mkPacket ts_sec ts_usec interface_name pid pid2 proc_name proc_name2
        (if frame_pre_length =? 0 then FAKE_ETHERNET_HEADER ++ payload else payload)).

Section client.
Context `{PC : PlistCodec}.
Definition next_packet : pcap CapturedPacket :=
  len_buf ← read_exact 4;
  let len := be_Z len_buf in
  if MAX_PLIST_SIZE <? len then st_fail (protocol "plist length {len} exceeds maximum of {MAX_PLIST_SIZE}" [len; MAX_PLIST_SIZE]) else
  buf ← read_exact len;
  match from_bytes buf with
  | None => st_fail PlistError
  | Some v => match as_data v with Some payload => st_lift (decode_packet payload) | None => st_fail (protocol "pcap plist payload was not data" []) end
  end.
End client.

(** *** The device's addresses *)

Record NetworkInfo := mkInfo { mac : bytes; ipv4 : bytes; ipv6 : bytes }.
Definition complete (i : NetworkInfo) : bool :=
  negb (bool_decide (mac i = [])) && negb (bool_decide (ipv4 i = [])) && negb (bool_decide (ipv6 i = [])).
(** A time is in nanoseconds. *)
Record FindIpLimits := mkLimits { timeout : Z; max_packets : Z; max_bytes : Z }.
Definition default_limits : FindIpLimits := mkLimits (10 * 10 ^ 9) 512 (16 * 1024 * 1024).

Definition hex_value (b : byte) : option Z :=
  let z := Zb b in
  if (48 <=? z) && (z <=? 57) then Some (z - 48)
  else if (97 <=? z) && (z <=? 102) then Some (z - 87)
  else if (65 <=? z) && (z <=? 70) then Some (z - 55) else None.
(** [u8::from_str_radix(part, 16)] of two bytes; a sign may stand for the first digit. *)
Definition parse_octet (part : bytes) : option byte :=
  match part with
  | [a; b] => if Zb a =? 43 then bZ <$> hex_value b else h ← hex_value a; l ← hex_value b; Some (bZ (16 * h + l))
  | _ => None
  end.
Definition parse_mac (mac : bytes) : option bytes :=
  let parts := split_on x3a mac in
  if (length parts =? 6)%nat then mapM parse_octet parts else None.
(** [join] of a list of texts. *)
Fixpoint join (sep : bytes) (l : list bytes) : bytes := match l with [] => [] | [a] => a | a :: l => a ++ sep ++ join sep l end.
Definition format_mac (mac : bytes) : bytes := join (str ":") (map hex_byte mac).

(** [Ipv4Addr] and [Ipv6Addr] as text: the longest run of zero groups, the first of them, is
    left out if it is longer than one; an IPv4-mapped address ends in the dotted form. *)
Definition ipv4_text (a b c d : Z) : bytes := join (str ".") (map print_int [a; b; c; d]).
Fixpoint zero_run (l : list Z) : nat := match l with 0 :: l => S (zero_run l) | _ => O end.
(** The start and the length of the longest run. *)
Fixpoint longest_run (start : nat) (l : list Z) (best : nat * nat) : nat * nat :=
  match l with
  | [] => best
  | _ :: l' => let n := zero_run l in longest_run (S start) l' (if (best.2 <? n)%nat then (start, n) else best)
  end.
Definition ipv6_text (groups : list Z) : bytes :=
  let hex l := join (str ":") (map (print_hex false) l) in
  if bool_decide (take 5 groups = [0; 0; 0; 0; 0]) && bool_decide (groups !! 5%nat = Some 0xffff) then
    let g6 := default 0 (groups !! 6%nat) in let g7 := default 0 (groups !! 7%nat) in
    str "::ffff:" ++ ipv4_text (g6 / 256) (g6 mod 256) (g7 / 256) (g7 mod 256)
  else
    let '(start, n) := longest_run 0 groups (0%nat, 0%nat) in
    if (1 <? n)%nat then hex (take start groups) ++ str "::" ++ hex (drop (start + n) groups) else hex groups.
Fixpoint groups_of (l : bytes) : list Z := match l with a :: b :: l => be_Z [a; b] :: groups_of l | _ => [] end.

Definition VLAN_TYPES : list Z := [0x8100; 0x88a8; 0x9100].
(** The type and the offset behind the tags; every tag has four bytes. *)
Fixpoint skip_tags (fuel : nat) (packet : bytes) (network_offset : nat) (ether_type : Z) : option (nat * Z) :=
  if negb (bool_decide (ether_type ∈ VLAN_TYPES)) then Some (network_offset, ether_type) else
  match fuel with
  | O => None
  | S fuel =>
      match slice packet (network_offset + 2) 2 with
      | None => None
      | Some bs => skip_tags fuel packet (network_offset + 4) (be_Z bs)
      end
  end.
Definition find_ips_in_packet (packet : bytes) (mac : bytes) (info : NetworkInfo) : NetworkInfo :=
  if (length packet <? 14)%nat || negb (bool_decide (take 6 (drop 6 packet) = mac)) then info else
  match skip_tags (length packet) packet 14 (be_Z (take 2 (drop 12 packet))) with
  | None => info
  | Some (network_offset, ether_type) =>
      let ip := drop network_offset packet in
      let version := Z.shiftr (byte_at ip 0) 4 in
      if (ether_type =? 0x0800) && (network_offset + 20 <=? length packet)%nat then
        let ihl := Z.land (byte_at ip 0) 0x0f * 4 in
        if (version =? 4) && (20 <=? ihl) && (ihl <=? len ip)
        then mkInfo (Pcap.mac info) (ipv4_text (byte_at ip 12) (byte_at ip 13) (byte_at ip 14) (byte_at ip 15)) (ipv6 info) else info
      else if (ether_type =? 0x86dd) && (network_offset + 40 <=? length packet)%nat then
        if version =? 6 then mkInfo (Pcap.mac info) (ipv4 info) (ipv6_text (groups_of (take 16 (drop 8 ip)))) else info
      else info
  end.

Section find_ip.
Context `{PC : PlistCodec}.
(** [Instant::now().checked_add(timeout)] succeeds. *)
Context (deadline_fits : Z -> bool).
(** When a read stalls either the deadline passes, and the wait becomes an error, or the caller
    drops the search before. *)
Context (deadline_passes : bool).
Definition timed_out : PcapError := protocol "IP finder timed out" [].
Definition timeout_at {A} (m : pcap A) : pcap A := fun s =>
  match m s with (s, Pending) => (s, if deadline_passes then Err timed_out else Pending) | r => r end.
Definition limit_reached (limits : FindIpLimits) (packets : Z) : PcapError :=
  if max_packets limits <=? packets then protocol "IP finder packet limit reached ({})" [max_packets limits]
  else protocol "IP finder byte limit reached ({})" [max_bytes limits].
(** A packet takes bytes from the stream. *)
Fixpoint find_loop (fuel : nat) (limits : FindIpLimits) (mac_bytes : bytes) (info : NetworkInfo) (packets bytes : Z) : pcap NetworkInfo :=
  if (packets <? max_packets limits) && (bytes <? max_bytes limits) then
    match fuel with
    | O => st_lift OutOfFuel
    | S fuel =>
        packet ← timeout_at next_packet;
        let packets := packets + 1 in
        let bytes := Z.min usize_max (bytes + len (payload packet)) in
        if max_bytes limits <? bytes then st_fail (limit_reached limits packets) else
        let info := find_ips_in_packet (payload packet) mac_bytes info in
        if complete info then mret info else find_loop fuel limits mac_bytes info packets bytes
    end
  else st_fail (limit_reached limits packets).
Definition find_ip (mac : bytes) (limits : FindIpLimits) : pcap NetworkInfo :=
  match parse_mac mac with
  | None => st_fail (protocol "invalid Wi-Fi MAC address: {mac:?}" [])
  | Some mac_bytes =>
      if timeout limits =? 0 then st_fail (protocol "IP finder timeout must be non-zero" []) else
      if (max_packets limits =? 0) || (max_bytes limits =? 0) then st_fail (protocol "IP finder packet and byte limits must be non-zero" []) else
      if negb (deadline_fits (timeout limits)) then st_fail (protocol "IP finder timeout is too large" []) else
      s ← st_get;
      find_loop (S (rx_bytes s)) limits mac_bytes (mkInfo (format_mac mac_bytes) [] []) 0 0
  end.
End find_ip.

(** *** The filter and the file *)

Record PacketFilter := mkFilter { filter_pid : option Z; process_prefix : option bytes }.
Definition matches (f : PacketFilter) (p : CapturedPacket) : bool :=
  match filter_pid f with Some wanted => (pid p =? wanted) || (pid2 p =? wanted) | None => true end &&
  match process_prefix f with Some prefix => starts_with prefix (proc_name p) || starts_with prefix (proc_name2 p) | None => true end.
Definition GLOBAL_HEADER : bytes :=
  [xd4; xc3; xb2; xa1; x02; x00; x04; x00; x00; x00; x00; x00; x00; x00; x00; x00; xff; xff; x00; x00; x01; x00; x00; x00].
Definition write_global_header : pcap unit := write_all GLOBAL_HEADER.
Definition checked_packet_record_len (n : Z) : outcome PcapError Z :=
  if u32_max <? n then Err (protocol "packet payload too large for pcap: {len}" [n]) else Ok n.
Definition write_packet_record (p : CapturedPacket) : pcap unit :=
  length ← st_lift (checked_packet_record_len (len (payload p)));
  write_all (le_bytes 4 (ts_sec p)) ;;
  write_all (le_bytes 4 (ts_usec p)) ;;
  write_all (le_bytes 4 length) ;;
  write_all (le_bytes 4 length) ;;
  write_all (payload p).
Example mac_text : format_mac <$> parse_mac (str "AA:bb:00:+1:7f:0C") = Some (str "aa:bb:00:01:7f:0c"). Proof. vm_compute. reflexivity. Qed.
Example mac_short : parse_mac (str "AA:bb:00:01:7f") = None. Proof. vm_compute. reflexivity. Qed.
Example v6a : ipv6_text [0xfe80; 0; 0; 0; 1; 0; 0; 0x1a2b] = str "fe80::1:0:0:1a2b". Proof. vm_compute. reflexivity. Qed.
Example v6b : ipv6_text [0; 0; 0; 0; 0; 0; 0; 0] = str "::". Proof. vm_compute. reflexivity. Qed.
Example v6c : ipv6_text [0; 0; 0; 0; 0; 0; 0; 1] = str "::1". Proof. vm_compute. reflexivity. Qed.
Example v6d : ipv6_text [0; 0; 0; 0; 0; 0xffff; 0x7f00; 1] = str "::ffff:127.0.0.1". Proof. vm_compute. reflexivity. Qed.
Example v6e : ipv6_text [1; 0; 2; 3; 4; 5; 6; 0] = str "1:0:2:3:4:5:6:0". Proof. vm_compute. reflexivity. Qed.
Example v6f : ipv6_text [1; 0; 0; 3; 0; 0; 6; 7] = str "1::3:0:0:6:7". Proof. vm_compute. reflexivity. Qed.

(** ** The layout of a packet *)

(** Size of the header, thirteen bytes, length before the frame, four bytes, interface, process and its
    name, four bytes, second process and its name, time. *)
Definition layout : list nat := [4; 13; 4; 4; 16; 4; 17; 4; 4; 17; 4; 4]%nat.
Record Frame := mkFrame { pieces_of : list bytes; extra : bytes; body : bytes }.
Definition piece (f : Frame) (i : nat) : bytes := at_piece (pieces_of f) i.
Definition frame_bytes (f : Frame) : bytes := concat (pieces_of f) ++ extra f ++ body f.
Definition frame_ok (f : Frame) : Prop :=
  map length (pieces_of f) = layout /\ be_Z (piece f 0) = DEFAULT_HEADER_SIZE + len (extra f) /\
  from_utf8 (until_nul (piece f 4)) = true /\ from_utf8 (until_nul (piece f 6)) = true /\ from_utf8 (until_nul (piece f 9)) = true.
Definition packet_of (f : Frame) : CapturedPacket :=
  mkPacket (be_Z (piece f 10)) (be_Z (piece f 11)) (until_nul (piece f 4)) (signed 32 (le_Z (piece f 5))) (signed 32 (le_Z (piece f 8)))
    (until_nul (piece f 6)) (until_nul (piece f 9)) (if be_Z (piece f 2) =? 0 then FAKE_ETHERNET_HEADER ++ body f else body f).

Lemma decode_header l rest p : map length l = layout ->
  decode_packet (concat l ++ rest) = Ok p <->
    exists extra body, rest = extra ++ body /\ frame_ok (mkFrame l extra body) /\ p = packet_of (mkFrame l extra body).
Proof.
  intros Hl. unfold decode_packet, frame_ok, packet_of, piece. cbn [pieces_of extra body].
  assert (len (concat l) = DEFAULT_HEADER_SIZE) as Hlen by (unfold len; by rewrite (concat_length layout l Hl)).
  rewrite (proj2 (Z.ltb_ge (len _) _)) by (rewrite len_app; unfold len in *; lia).
  assert (forall i off, sum_list (take i layout) = off -> layout !! i = Some 4%nat -> be_u32 (concat l ++ rest) off = Ok (be_Z (at_piece l i))) as HB
    by (intros i off Ho Hn; unfold be_u32; by rewrite (header_slice layout l rest Hl i off 4 Ho Hn)).
  assert (forall i off, sum_list (take i layout) = off -> layout !! i = Some 4%nat -> le_i32 (concat l ++ rest) off = Ok (signed 32 (le_Z (at_piece l i)))) as HI
    by (intros i off Ho Hn; unfold le_i32; by rewrite (header_slice layout l rest Hl i off 4 Ho Hn)).
  assert (forall i off n, sum_list (take i layout) = off -> layout !! i = Some n -> parse_fixed_string (concat l ++ rest) off n =
      if from_utf8 (until_nul (at_piece l i)) then Ok (until_nul (at_piece l i)) else Err (protocol "invalid string: {e}" [])) as HS
    by (intros i off n Ho Hn; unfold parse_fixed_string; by rewrite (header_slice layout l rest Hl i off n Ho Hn)).
  rewrite (HB 0%nat 0%nat), (HB 2%nat 17%nat), (HB 10%nat 87%nat), (HB 11%nat 91%nat), (HI 5%nat 41%nat), (HI 8%nat 66%nat), (HS 4%nat 25%nat 16%nat), (HS 6%nat 45%nat 17%nat), (HS 9%nat 70%nat 17%nat) by reflexivity.
  clear HB HI HS. cbn [mbind outcome_bind]. set (n := be_Z (at_piece l 0)).
  destruct (n <? DEFAULT_HEADER_SIZE) eqn:En; [split; [done|intros (e & b & _ & (_ & H & _) & _); unfold len in *; lia]|].
  destruct (len (concat l ++ rest) <? n) eqn:En2.
  { split; [done|]. intros (e & b & -> & (_ & H & _) & _). rewrite !len_app in En2. unfold len in *. lia. }
  rewrite len_app in En2. assert (0 <= n - DEFAULT_HEADER_SIZE <= len rest) as Hn by (unfold len in *; lia).
  assert (drop (Z.to_nat n) (concat l ++ rest) = drop (Z.to_nat (n - DEFAULT_HEADER_SIZE)) rest) as ->.
  { replace (Z.to_nat n) with (length (concat l) + Z.to_nat (n - DEFAULT_HEADER_SIZE))%nat by (unfold len in *; lia). apply drop_app_add. }
  assert (forall e b, rest = e ++ b -> n = DEFAULT_HEADER_SIZE + len e -> e = take (Z.to_nat (n - DEFAULT_HEADER_SIZE)) rest /\ b = drop (Z.to_nat (n - DEFAULT_HEADER_SIZE)) rest) as Hcut.
  { intros e b -> ->. replace (Z.to_nat _) with (length e) by (unfold len; lia). by rewrite take_app_length, drop_app_length. }
  destruct (from_utf8 (until_nul (at_piece l 4))), (from_utf8 (until_nul (at_piece l 6))), (from_utf8 (until_nul (at_piece l 9))); cbn [mbind outcome_bind];
    try (split; [done|by intros (e & b & _ & (_ & _ & ? & ? & ?) & _)]).
  split.
  - intros [= <-]. exists (take (Z.to_nat (n - DEFAULT_HEADER_SIZE)) rest), (drop (Z.to_nat (n - DEFAULT_HEADER_SIZE)) rest).
    rewrite take_drop. split_and!; try done. unfold len in *. rewrite length_take. lia.
  - intros (e & b & Er & (_ & H & _) & ->). by destruct (Hcut e b Er H) as [_ <-].
Qed.
Lemma decode_packet_returns d : returns (decode_packet d).
Proof.
  unfold decode_packet, be_u32, le_i32, parse_fixed_string.
  repeat first [ done | apply returns_bind; intros | match goal with |- returns (missing _ _ ?o) => by destruct o end | case_match ].
Qed.

(** A captured packet is read exactly. [decode_packet] succeeds on some bytes if and only if they are a
    header of the layout, which states its own size and has three names in UTF-8, what the header is longer,
    and a payload; the packet has the header's numbers (the processes signed), the names up to their first
    NUL, and the payload, behind a made-up Ethernet header when the device says that it has none. Otherwise
    it returns an error. *)
Theorem pcap_decode_exact d :
  (forall p, decode_packet d = Ok p <-> exists f, frame_ok f /\ d = frame_bytes f /\ p = packet_of f) /\ returns (decode_packet d).
Proof.
  split; [|apply decode_packet_returns]. intros p. split.
  - intros Hp. destruct (decide (sum_list layout <= length d)%nat) as [Hlen|Hlen].
    2: { unfold decode_packet in Hp. rewrite (proj2 (Z.ltb_lt _ _)) in Hp; [done|]. change (sum_list layout) with 95%nat in Hlen. unfold len, DEFAULT_HEADER_SIZE. lia. }
    destruct (header_split layout d Hlen) as (l & rest & -> & Hl). apply (decode_header l rest p Hl) in Hp as (e & b & -> & Hf & ->).
    by exists (mkFrame l e b).
  - intros ([l e b] & Hf & -> & ->). apply (decode_header l (e ++ b) _ (proj1 Hf)). by exists e, b.
Qed.

(** ** The search for the addresses *)

Definition total (ps : list CapturedPacket) : Z := foldr (fun p n => len (payload p) + n) 0 ps.
(** What the packets say, one after the other. *)
Definition addresses (mac : bytes) (ps : list CapturedPacket) (info : NetworkInfo) : NetworkInfo :=
  fold_left (fun info p => find_ips_in_packet (payload p) mac info) ps info.
Lemma total_pos ps : 0 <= total ps.
Proof. unfold total. induction ps as [|p ps IH]; [done|]. cbn [foldr]. unfold len in *. lia. Qed.

(** The packet behind the first [k] of [ps] is asked for: both limits leave room and the addresses are
    not complete yet. *)
Definition going (limits : FindIpLimits) (mac : bytes) (pk by_ : Z) (info : NetworkInfo) (ps : list CapturedPacket) (k : nat) : Prop :=
  pk + Z.of_nat k < max_packets limits /\ Z.min usize_max (by_ + total (take k ps)) < max_bytes limits /\
  ((0 < k)%nat -> complete (addresses mac (take k ps) info) = false).
(** The last of the packets is the first to complete the addresses, within the limits. *)
Definition completes (limits : FindIpLimits) (mac : bytes) (pk by_ : Z) (info : NetworkInfo) (ps : list CapturedPacket) : Prop :=
  ps <> [] /\ (forall k, (k < length ps)%nat -> going limits mac pk by_ info ps k) /\
  complete (addresses mac ps info) = true /\ Z.min usize_max (by_ + total ps) <= max_bytes limits.
(** The last of the packets is the first to go beyond the limit on bytes, or leaves the addresses
    incomplete and is the first to reach a limit. *)
Definition exhausts (limits : FindIpLimits) (mac : bytes) (pk by_ : Z) (info : NetworkInfo) (ps : list CapturedPacket) : Prop :=
  ps <> [] /\ (forall k, (k < length ps)%nat -> going limits mac pk by_ info ps k) /\
  (max_bytes limits < Z.min usize_max (by_ + total ps) \/
   complete (addresses mac ps info) = false /\ (max_packets limits <= pk + len ps \/ max_bytes limits <= Z.min usize_max (by_ + total ps))).
(** After the packets one more is asked for. *)
Definition searching (limits : FindIpLimits) (mac : bytes) (pk by_ : Z) (info : NetworkInfo) (ps : list CapturedPacket) : Prop :=
  forall k, (k <= length ps)%nat -> going limits mac pk by_ info ps k.

Lemma len_cons {A} pk (p : A) ps : pk + len (p :: ps) = pk + 1 + len ps.
Proof. unfold len. cbn [length]. lia. Qed.
Lemma going_0 limits mac pk by_ info ps : going limits mac pk by_ info ps 0 <-> pk < max_packets limits /\ Z.min usize_max by_ < max_bytes limits.
Proof. unfold going. cbn [take total foldr]. rewrite !Z.add_0_r. split; [tauto|]. intros [? ?]. split_and!; [done|done|lia]. Qed.

Section cons.
Context (limits : FindIpLimits) (mac : bytes) (pk by_ : Z) (info : NetworkInfo) (p : CapturedPacket).
Let by' := Z.min usize_max (by_ + len (payload p)).
Let info' := find_ips_in_packet (payload p) mac info.
Lemma total_cons qs : Z.min usize_max (by' + total qs) = Z.min usize_max (by_ + total (p :: qs)).
Proof. unfold by'. cbn [total foldr]. fold (total qs). pose proof (total_pos qs). unfold len. lia. Qed.
Lemma going_cons ps k : going limits mac pk by_ info (p :: ps) (S k) <->
  going limits mac (pk + 1) by' info' ps k /\ (k = 0%nat -> complete info' = false).
Proof.
  unfold going. cbn [take]. rewrite total_cons. change (addresses mac (p :: take k ps) info) with (addresses mac (take k ps) info').
  replace (pk + 1 + Z.of_nat k) with (pk + Z.of_nat (S k)) by lia. split.
  - intros (H1 & H2 & H3). split_and!; [done|done|intros ?; apply H3; lia|intros ->; exact (H3 ltac:(lia))].
  - intros [(H1 & H2 & H3) H4]. split_and!; [done|done|]. intros _. destruct k; [by apply H4|apply H3; lia].
Qed.
Lemma goings_cons ps : (forall k, (k < length (p :: ps))%nat -> going limits mac pk by_ info (p :: ps) k) <->
  going limits mac pk by_ info [] 0 /\ (ps <> [] -> complete info' = false) /\ (forall k, (k < length ps)%nat -> going limits mac (pk + 1) by' info' ps k).
Proof.
  split.
  - intros H. split_and!.
    + apply going_0, (going_0 limits mac pk by_ info (p :: ps)), H. cbn. lia.
    + intros Hne. destruct (H 1%nat) as (_ & _ & E); [destruct ps; [done|cbn; lia]|]. exact (E ltac:(lia)).
    + intros k Hk. apply (going_cons ps k), H. cbn. lia.
  - intros (H0 & Hc & H) [|k] Hk; [by apply going_0, (going_0 limits mac pk by_ info [])|]. cbn in Hk. apply going_cons. split; [apply H; lia|].
    intros ->. apply Hc. by destruct ps; [cbn in Hk; lia|].
Qed.
Lemma searching_cons ps : searching limits mac pk by_ info (p :: ps) <->
  going limits mac pk by_ info [] 0 /\ complete info' = false /\ searching limits mac (pk + 1) by' info' ps.
Proof.
  unfold searching. split.
  - intros H. split_and!.
    + apply going_0, (going_0 limits mac pk by_ info (p :: ps)), H. lia.
    + destruct (H 1%nat) as (_ & _ & E); [cbn; lia|]. exact (E ltac:(lia)).
    + intros k Hk. apply (going_cons ps k), H. cbn. lia.
  - intros (H0 & Hc & H) [|k] Hk; [by apply going_0, (going_0 limits mac pk by_ info [])|]. apply going_cons. split; [|done]. apply H. cbn in Hk. lia.
Qed.
Lemma completes_cons ps : completes limits mac pk by_ info (p :: ps) <->
  going limits mac pk by_ info [] 0 /\ by' <= max_bytes limits /\
  (if complete info' then ps = [] else completes limits mac (pk + 1) by' info' ps).
Proof.
  unfold completes. rewrite goings_cons, <- total_cons. change (addresses mac (p :: ps) info) with (addresses mac ps info').
  pose proof (total_pos ps) as Hpos. assert (by' <= usize_max) as Hu by (unfold by'; lia).
  split.
  - intros (_ & (H0 & Hne & H) & Hc & Hb). split_and!; [done|unfold by' in *; lia|]. destruct (complete info') eqn:E.
    + destruct ps; [done|]. by specialize (Hne ltac:(done)).
    + split_and!; [by intros ->; cbn in Hc; congruence|done|done|done].
  - intros (H0 & Hb & H). destruct (complete info') eqn:E.
    + subst ps. split_and!; [done|done|done|intros k Hk; cbn in Hk; lia|exact E|cbn [total foldr]; lia].
    + destruct H as (Hne & H & Hc & Hb'). by split_and!.
Qed.
Lemma exhausts_cons ps : exhausts limits mac pk by_ info (p :: ps) <->
  going limits mac pk by_ info [] 0 /\
  (if max_bytes limits <? by' then ps = [] else complete info' = false /\
     (if (pk + 1 <? max_packets limits) && (by' <? max_bytes limits) then exhausts limits mac (pk + 1) by' info' ps else ps = [])).
Proof.
  unfold exhausts. rewrite goings_cons, <- total_cons, len_cons. change (addresses mac (p :: ps) info) with (addresses mac ps info').
  pose proof (total_pos ps) as Hpos. assert (by' <= usize_max) as Hu by (unfold by'; lia). assert (ps = [] \/ ps <> []) as Hps by (destruct ps; auto).
  assert (ps <> [] -> (forall k, (k < length ps)%nat -> going limits mac (pk + 1) by' info' ps k) -> pk + 1 < max_packets limits /\ by' < max_bytes limits) as Hgo.
  { intros Hne H. specialize (H 0%nat ltac:(destruct ps; [done|cbn; lia])) as (H1 & H2 & _). change (total (take 0 ps)) with 0 in H2. lia. }
  split.
  - intros (_ & (H0 & Hne & H) & Hx). split; [done|]. destruct (max_bytes limits <? by') eqn:Eb.
    { apply Z.ltb_lt in Eb. destruct Hps as [->|Hps]; [done|]. specialize (Hgo Hps H). lia. }
    apply Z.ltb_ge in Eb. destruct Hps as [->|Hps].
    + cbn [total foldr] in Hx. unfold len in Hx. cbn in Hx. destruct Hx as [Hx|[E Hx]]; [lia|]. split; [exact E|].
      destruct (_ && _) eqn:Eg; [|done]. apply andb_prop in Eg as [?%Z.ltb_lt ?%Z.ltb_lt]. lia.
    + split; [by apply Hne|]. destruct (Hgo Hps H) as [?%Z.ltb_lt ?%Z.ltb_lt]. by rewrite H1, H2.
  - intros (H0 & H). split; [done|]. destruct (max_bytes limits <? by') eqn:Eb.
    { apply Z.ltb_lt in Eb. subst ps. split; [split_and!; [done|done|intros k Hk; cbn in Hk; lia]|]. left. cbn [total foldr]. lia. }
    destruct H as [E H]. destruct (_ && _) eqn:Eg.
    + destruct H as (Hne & H & Hx). by split_and!.
    + subst ps. split; [split_and!; [done|done|intros k Hk; cbn in Hk; lia]|]. right. split; [exact E|].
      cbn [total foldr]. unfold len. cbn. apply andb_false_iff in Eg as [?%Z.ltb_ge|?%Z.ltb_ge]; lia.
Qed.
End cons.
(** An address comes from a packet of the device. *)
Lemma addresses_from mac ps info : (forall p, p ∈ ps -> take 6 (drop 6 (payload p)) <> mac) -> addresses mac ps info = info.
Proof.
  unfold addresses. revert info. induction ps as [|p ps IH]; intros info Hp; [done|]. cbn [fold_left].
  replace (find_ips_in_packet (payload p) mac info) with info; [apply IH; intros q Hq; apply Hp; by right|].
  unfold find_ips_in_packet. rewrite bool_decide_eq_false_2 by (apply Hp; left). by rewrite orb_true_r.
Qed.

Section search.
Context `{PC : PlistCodec}.
(** A packet as it is sent. *)
Definition packet_frame (q : bytes) (p : CapturedPacket) : Prop := len q <= MAX_PLIST_SIZE /\ exists d, from_bytes q = Some (Data d) /\ decode_packet d = Ok p.
Definition framed (q : bytes) : bytes := be_bytes 4 (len q) ++ q.
Definition frames (qs : list bytes) : bytes := concat (map framed qs).
(** The most a packet takes from the stream. *)
Definition MAX_FRAME : Z := 4 + MAX_PLIST_SIZE.
Lemma next_packet_wpx s :
  wpx next_packet (fun p s' => exists q, packet_frame q p /\ traffic (framed q) [] s s') (read_upto MAX_FRAME s) (read_upto MAX_FRAME s) s.
Proof.
  assert (forall n s', n <= MAX_FRAME -> read_upto n s s' -> read_upto MAX_FRAME s s') as Hle by (intros n s' ? (i & ? & ?); exists i; split; [lia|done]).
  unfold next_packet. wpx_step. eapply wpx_mono; [by apply read_exact_upto| |intros s'; by apply Hle..]. cbv beta. intros h s1 [Hl H1].
  destruct (Framings.be_len4 h Hl) as [Eh [Hn _]]. cbv zeta. wpx_step; [apply wpx_fail; exists h; split; [by rewrite Hl|done]|].
  apply Z.ltb_ge in Hif. wpx_step. assert (forall s', read_upto (be_Z h) s1 s' -> read_upto MAX_FRAME s s') as Hmore.
  { intros s' (i & Hi & H2). exists (h ++ i). split; [rewrite len_app; unfold MAX_FRAME; lia|exact (traffic_trans _ _ _ _ _ _ _ H1 H2)]. }
  eapply wpx_mono; [by apply read_exact_upto| |exact Hmore..].
  cbv beta. intros q s2 [Hq H2]. pose proof (traffic_trans _ _ _ _ _ _ _ H1 H2) as H. assert (read_upto MAX_FRAME s s2) as Hr by (apply Hmore; exists q; split; [lia|done]).
  destruct (from_bytes q) as [v|] eqn:Ev; [|by apply wpx_fail]. destruct v as [| | |d| | | | |]; cbn [as_data]; try by apply wpx_fail.
  apply wpx_lift; [apply decode_packet_returns| |done]. intros p Hp. exists q. split; [split; [lia|by exists d]|]. unfold framed. by rewrite Hq, Eh.
Qed.
Lemma next_packet_flows q p s rest : packet_frame q p -> flowing s -> data (rx s) = framed q ++ rest ->
  exists s', next_packet s = (s', Ok p) /\ flowing s' /\ data (rx s') = rest /\ tx s' = tx s.
Proof.
  intros (Hq & d & Ed & Hp) Hf Hd. unfold framed in Hd. rewrite <- app_assoc in Hd.
  destruct (read_exact_flows (E := PcapError) s _ _ Hf Hd) as (s1 & E1 & Hf1 & Hd1 & T1).
  destruct (read_exact_flows (E := PcapError) s1 _ _ Hf1 Hd1) as (s2 & E2 & Hf2 & Hd2 & T2).
  exists s2. split; [|split_and!; [done|done|congruence]]. unfold next_packet, mbind, st_bind.
  unfold len in E1 at 1. rewrite length_be_bytes in E1. change (Z.of_nat 4) with 4 in E1. rewrite E1.
  rewrite (be_Z_be_bytes_u 4 32) by (done || (split; [unfold len; lia|]; eapply Z.le_lt_trans; [exact Hq|done])).
  rewrite (proj2 (Z.ltb_ge _ _)) by lia. rewrite E2, Ed. cbn [as_data]. unfold st_lift. by rewrite Hp.
Qed.
Lemma framed_shorter q s s1 : traffic (framed q) [] s s1 -> (rx_bytes s1 < rx_bytes s)%nat.
Proof. intros H%traffic_rx_le. unfold framed in H. rewrite length_app, length_be_bytes in H. lia. Qed.
(** What is left of a search: the packets [ps] were taken whole, and
    - with a result, they complete the addresses;
    - with an error, they reach a limit and nothing more is read; or one more packet is asked for, of which no
      more than a packet's size is read;
    - when it is dropped, the latter. *)
Definition stopped (limits : FindIpLimits) (mac : bytes) (pk by_ : Z) (info : NetworkInfo) (s s' : Socket) : Prop :=
  exists qs ps part, Forall2 packet_frame qs ps /\ searching limits mac pk by_ info ps /\ len part <= MAX_FRAME /\ traffic (frames qs ++ part) [] s s'.
Definition searched (limits : FindIpLimits) (mac : bytes) (pk by_ : Z) (info : NetworkInfo) (s s' : Socket) (o : outcome PcapError NetworkInfo) : Prop :=
  match o with
  | Ok r => exists qs ps, Forall2 packet_frame qs ps /\ traffic (frames qs) [] s s' /\ completes limits mac pk by_ info ps /\ r = addresses mac ps info
  | Err e =>
      (exists qs ps, Forall2 packet_frame qs ps /\ traffic (frames qs) [] s s' /\ exhausts limits mac pk by_ info ps /\ e = limit_reached limits (pk + len ps)) \/
      stopped limits mac pk by_ info s s'
  | Pending => stopped limits mac pk by_ info s s'
  | _ => False
  end.
Lemma searched_cons limits mac pk by_ info p q s s1 s' o :
  let by' := Z.min usize_max (by_ + len (payload p)) in let info' := find_ips_in_packet (payload p) mac info in
  packet_frame q p -> traffic (framed q) [] s s1 -> going limits mac pk by_ info [] 0 -> by' <= max_bytes limits -> complete info' = false ->
  pk + 1 < max_packets limits -> by' < max_bytes limits ->
  searched limits mac (pk + 1) by' info' s1 s' o -> searched limits mac pk by_ info s s' o.
Proof.
  intros by' info' Hq Ht H0 Hb E Hp' Hb' H.
  assert (forall i, traffic i [] s1 s' -> traffic (framed q ++ i) [] s s') as Ht' by (intros i Hi; exact (traffic_trans _ _ _ _ _ _ _ Ht Hi)).
  assert (stopped limits mac (pk + 1) by' info' s1 s' -> stopped limits mac pk by_ info s s') as Hs.
  { intros (qs & ps & part & Hps & Hse & Hl & Hi). exists (q :: qs), (p :: ps), part. split_and!; [by constructor| |done|].
    - apply searching_cons. by split_and!.
    - unfold frames. cbn [map concat]. rewrite <- app_assoc. by apply Ht'. }
  destruct o as [r|e| | |]; cbn [searched] in *; [| |done|by apply Hs|done].
  - destruct H as (qs & ps & Hps & Hi & Hc & ->). exists (q :: qs), (p :: ps). split_and!; [by constructor|by apply Ht'| |done].
    apply completes_cons. fold by' info'. by rewrite E.
  - destruct H as [(qs & ps & Hps & Hi & Hx & ->)|H]; [left|right; by apply Hs]. exists (q :: qs), (p :: ps). split_and!; [by constructor|by apply Ht'| |by rewrite len_cons].
    apply exhausts_cons. fold by' info'. rewrite (proj2 (Z.ltb_ge _ _)), (proj2 (Z.ltb_lt _ _)), (proj2 (Z.ltb_lt _ _)) by done. done.
Qed.
Lemma find_loop_searched pass fuel limits mac info pk by_ s s' o : (rx_bytes s < fuel)%nat -> 0 <= by_ <= usize_max -> pk < max_packets limits -> by_ < max_bytes limits ->
  find_loop pass fuel limits mac info pk by_ s = (s', o) -> searched limits mac pk by_ info s s' o.
Proof.
  revert info pk by_ s. induction fuel as [|fuel IH]; intros info pk by_ s Hf Hby H1 H2 E; [lia|]. cbn [find_loop] in E.
  rewrite (proj2 (Z.ltb_lt pk _)), (proj2 (Z.ltb_lt by_ _)) in E by done. cbn [andb] in E.
  assert (going limits mac pk by_ info [] 0) as H0 by (apply going_0; lia).
  assert (forall s1, read_upto MAX_FRAME s s1 -> stopped limits mac pk by_ info s s1) as Hstop.
  { intros s1 (part & Hl & Hi). exists [], [], part. split_and!; [constructor| |done|done]. intros k Hk. assert (k = 0%nat) as -> by (cbn in Hk; lia). done. }
  pose proof (next_packet_wpx s) as Hn. unfold mbind, st_bind, timeout_at, wpx in *. destruct (next_packet s) as [s1 [p|e| | |]]; try done.
  - destruct Hn as (q & Hq & Ht). cbv zeta in E. set (by' := Z.min usize_max (by_ + len (payload p))) in *. set (info' := find_ips_in_packet (payload p) mac info) in *.
    assert (0 <= by' <= usize_max) as Hby' by (unfold by', len, usize_max in *; lia).
    assert (exhausts limits mac pk by_ info [p] -> s' = s1 /\ o = Err (limit_reached limits (pk + 1)) -> searched limits mac pk by_ info s s' o) as Hlim.
    { intros Hx [-> ->]. left. exists [q], [p]. split_and!; [by constructor|unfold frames; cbn; by rewrite app_nil_r|done|done]. }
    destruct (max_bytes limits <? by') eqn:Eb.
    { apply Hlim; [|by inversion E]. apply exhausts_cons. fold by'. by rewrite Eb. }
    apply Z.ltb_ge in Eb. destruct (complete info') eqn:Ec.
    { inversion E; subst. exists [q], [p]. split_and!; [by constructor|unfold frames; cbn; by rewrite app_nil_r| |done].
      apply completes_cons. fold by' info'. by rewrite Ec. }
    destruct ((pk + 1 <? max_packets limits) && (by' <? max_bytes limits)) eqn:Eg.
    + apply andb_prop in Eg as [?%Z.ltb_lt ?%Z.ltb_lt]. eapply searched_cons; try done. apply IH; [apply framed_shorter in Ht; lia|done|done|done|exact E].
    + apply Hlim; [|destruct fuel; cbn [find_loop] in E; rewrite Eg in E; by inversion E].
      apply exhausts_cons. fold by' info'. rewrite (proj2 (Z.ltb_ge _ _)) by done. by rewrite Eg.
  - inversion E; subst. right. by apply Hstop.
  - destruct pass; inversion E; subst; [right|]; by apply Hstop.
Qed.
(** The packets come and the search ends with them. *)
Lemma find_loop_flows pass fuel limits mac qs ps : Forall2 packet_frame qs ps -> forall info pk by_ s rest,
  (length qs <= fuel)%nat -> 0 <= by_ <= usize_max -> flowing s -> data (rx s) = frames qs ++ rest ->
  (completes limits mac pk by_ info ps -> exists s', find_loop pass fuel limits mac info pk by_ s = (s', Ok (addresses mac ps info)) /\ data (rx s') = rest /\ tx s' = tx s) /\
  (exhausts limits mac pk by_ info ps -> exists s', find_loop pass fuel limits mac info pk by_ s = (s', Err (limit_reached limits (pk + len ps))) /\ data (rx s') = rest /\ tx s' = tx s).
Proof.
  intros H. revert fuel. induction H as [|q p qs ps Hq H IH]; intros fuel info pk by_ s rest Hf Hby Hfl Hd; [by split; intros [? _]|].
  destruct fuel as [|fuel]; [cbn [length] in Hf; lia|]. rewrite completes_cons, exhausts_cons.
  set (by' := Z.min usize_max (by_ + len (payload p))). set (info' := find_ips_in_packet (payload p) mac info).
  unfold frames in Hd. cbn [map concat] in Hd. rewrite <- app_assoc in Hd. destruct (next_packet_flows q p s _ Hq Hfl Hd) as (s1 & E1 & Hf1 & Hd1 & T1).
  specialize (IH fuel info' (pk + 1) by' s1 rest ltac:(cbn [length] in Hf; lia) ltac:(unfold by', len, usize_max in *; lia) Hf1 Hd1) as [IH1 IH2].
  assert (going limits mac pk by_ info [] 0 -> find_loop pass (S fuel) limits mac info pk by_ s =
    (if max_bytes limits <? by' then st_fail (limit_reached limits (pk + 1)) else if complete info' then mret info' else find_loop pass fuel limits mac info' (pk + 1) by') s1) as Estep.
  { intros [Hp Hb]%going_0. cbn [find_loop]. rewrite (proj2 (Z.ltb_lt pk _)), (proj2 (Z.ltb_lt by_ _)) by lia. cbn [andb].
    unfold mbind, st_bind, timeout_at. by rewrite E1. }
  rewrite len_cons. split.
  - intros (H0 & Hb & Hc). rewrite Estep by done. rewrite (proj2 (Z.ltb_ge _ _)) by done. destruct (complete info') eqn:E.
    + subst ps. inversion H; subst. exists s1. split_and!; [done|exact Hd1|done].
    + destruct (IH1 Hc) as (s' & E' & Hd' & T'). exists s'. split_and!; [exact E'|done|congruence].
  - intros (H0 & Hx). rewrite Estep by done. destruct (max_bytes limits <? by') eqn:Eb.
    + subst ps. inversion H; subst. exists s1. split_and!; [unfold len; cbn; by rewrite Z.add_0_r|exact Hd1|done].
    + destruct Hx as [E Hx]. rewrite E. destruct (_ && _) eqn:Eg.
      * destruct (IH2 Hx) as (s' & E' & Hd' & T'). exists s'. split_and!; [exact E'|done|congruence].
      * subst ps. inversion H; subst. exists s1. split_and!; [|exact Hd1|done].
        replace (pk + 1 + len []) with (pk + 1) by (unfold len; cbn; lia). destruct fuel; cbn [find_loop]; by rewrite Eg.
Qed.

Definition limits_ok (deadline_fits : Z -> bool) (limits : FindIpLimits) : Prop :=
  timeout limits <> 0 /\ 0 < max_packets limits /\ 0 < max_bytes limits /\ deadline_fits (timeout limits) = true.
(** The search runs its loop exactly if the text is an address and the limits are proper. *)
Lemma find_ip_steps deadline_fits deadline_passes text limits s mac : parse_mac text = Some mac ->
  (~ limits_ok deadline_fits limits /\ exists e, find_ip deadline_fits deadline_passes text limits s = (s, Err e)) \/
  (limits_ok deadline_fits limits /\ find_ip deadline_fits deadline_passes text limits s =
     find_loop deadline_passes (S (rx_bytes s)) limits mac (mkInfo (format_mac mac) [] []) 0 0 s).
Proof.
  intros Em. unfold find_ip, limits_ok. rewrite Em. destruct (timeout limits =? 0) eqn:E1; [left; split; [lia|by eexists]|].
  destruct (_ || _) eqn:E2; [left; split; [apply orb_prop in E2; lia|by eexists]|]. apply orb_false_iff in E2 as [E2 E3].
  destruct (deadline_fits (timeout limits)) eqn:E4; [|left; split; [by intros (_ & _ & _ & ?)|by eexists]].
  destruct ((0 <? max_packets limits) && (0 <? max_bytes limits)) eqn:E5.
  - right. split; [|done]. split_and!; lia || done.
  - left. split; [lia|]. cbn [negb]. unfold mbind, st_bind, st_get. cbn [find_loop]. rewrite E5. by eexists.
Qed.
Lemma find_ip_no_mac deadline_fits deadline_passes text limits s : parse_mac text = None -> exists e, find_ip deadline_fits deadline_passes text limits s = (s, Err e).
Proof. intros Em. unfold find_ip. rewrite Em. by eexists. Qed.
Lemma find_loop_passes fuel limits mac info pk by_ s s' : find_loop true fuel limits mac info pk by_ s <> (s', Pending).
Proof.
  revert info pk by_ s. induction fuel as [|fuel IH]; intros info pk by_ s; cbn [find_loop]; (destruct (_ && _); [|done]); [done|].
  unfold mbind, st_bind, timeout_at. destruct (next_packet s) as [s1 []]; try done. cbv zeta. case_match; [done|]. case_match; [done|]. apply IH.
Qed.
Lemma completes_from limits mac pk by_ ps : completes limits mac pk by_ (mkInfo (format_mac mac) [] []) ps ->
  exists p, p ∈ ps /\ take 6 (drop 6 (payload p)) = mac.
Proof.
  intros (_ & _ & Hc & _). destruct (decide (Exists (fun p => take 6 (drop 6 (payload p)) = mac) ps)) as [Hx|Hx].
  - apply Exists_exists in Hx as (p & ? & ?). by exists p.
  - exfalso. rewrite addresses_from in Hc; [|intros p Hp E; apply Hx, Exists_exists; by exists p].
    unfold complete in Hc. cbn in Hc. by rewrite andb_false_r in Hc.
Qed.
Lemma frames_longer qs : (length qs <= length (frames qs))%nat.
Proof.
  unfold frames. induction qs as [|q qs IH]; [done|]. cbn [map concat length]. rewrite length_app. unfold framed at 1. rewrite length_app, length_be_bytes. lia.
Qed.
(** C38. The search for the device's addresses is bounded and finds them. [find_ip] refuses a text that is
    no hardware address and a limit of zero before it reads anything. Otherwise it takes packets, whole and in
    order. If it returns addresses, the last packet was the first to complete them, within both limits, and a
    packet from that hardware address was among them. It fails with the limit's error exactly at the packet
    that reaches a limit first, and reads nothing behind it; any other error, the deadline and a dropped call
    find it asking for one more packet within the limits, of which it has read no more than a packet's size.
    It writes nothing, and if the deadline passes nothing is left waiting. And when packets come in any
    pieces, it returns the addresses they complete and fails at the limits they exhaust. *)
Theorem find_ip_exact deadline_fits deadline_passes text limits s :
  (let '(s', o) := find_ip deadline_fits deadline_passes text limits s in
   (parse_mac text = None \/ ~ limits_ok deadline_fits limits -> s' = s /\ exists e, o = Err e) /\
   (forall mac, parse_mac text = Some mac -> limits_ok deadline_fits limits -> searched limits mac 0 0 (mkInfo (format_mac mac) [] []) s s' o) /\
   (o = Pending -> deadline_passes = false)) /\
  (forall mac qs ps rest, parse_mac text = Some mac -> limits_ok deadline_fits limits -> Forall2 packet_frame qs ps -> flowing s -> data (rx s) = frames qs ++ rest ->
     let info := mkInfo (format_mac mac) [] [] in
     (completes limits mac 0 0 info ps -> exists p s', p ∈ ps /\ take 6 (drop 6 (payload p)) = mac /\
        find_ip deadline_fits deadline_passes text limits s = (s', Ok (addresses mac ps info)) /\ data (rx s') = rest /\ tx s' = tx s) /\
     (exhausts limits mac 0 0 info ps -> exists s',
        find_ip deadline_fits deadline_passes text limits s = (s', Err (limit_reached limits (len ps))) /\ data (rx s') = rest /\ tx s' = tx s)).
Proof.
  split.
  - pose proof (find_ip_steps deadline_fits deadline_passes text limits s) as Hst.
    destruct (find_ip _ _ text limits s) as [s' o] eqn:E. split_and!.
    + intros [Em|Hn]; [destruct (find_ip_no_mac deadline_fits deadline_passes text limits s Em) as [e H]; rewrite H in E; injection E as <- <-; split; [done|by eexists]|]. destruct (parse_mac text) as [mac|] eqn:Em; [|destruct (find_ip_no_mac deadline_fits deadline_passes text limits s Em) as [e H]; rewrite H in E; injection E as <- <-; split; [done|by eexists]].
      specialize (Hst mac eq_refl) as [[_ [e H]]|[H _]]; [|done]. injection H as -> ->. split; [done|by eexists].
    + intros mac Em Hok. specialize (Hst mac Em) as [[H _]|[_ H]]; [done|]. destruct Hok as (_ & Hp & Hb & _). symmetry in H. eapply find_loop_searched; [..|exact H]; lia || done.
    + intros ->. destruct (parse_mac text) as [mac|] eqn:Em; [|destruct (find_ip_no_mac deadline_fits deadline_passes text limits s Em) as [e H]; by rewrite H in E].
      specialize (Hst mac eq_refl) as [[_ [e H]]|[_ H]]; [done|]. destruct deadline_passes; [|done]. symmetry in H. by apply find_loop_passes in H.
  - intros mac qs ps rest Em Hok Hps Hfl Hd info. destruct (find_ip_steps deadline_fits deadline_passes text limits s mac Em) as [[? _]|[_ ->]]; [done|].
    pose proof (find_loop_flows deadline_passes (S (rx_bytes s)) limits mac qs ps Hps info 0 0 s rest) as [H1 H2]; [|done|done|done|].
    { pose proof (frames_longer qs). unfold rx_bytes. rewrite Hd, length_app. lia. }
    split; [|exact H2]. intros Hc. destruct (completes_from limits mac 0 0 ps Hc) as (p & Hp & Hsrc). exists p. destruct (H1 Hc) as (s' & ?). by exists s'.
Qed.
End search.

(** The least packets: version four behind a tag, and version six. *)
Definition some_mac : bytes := [x02; x11; x22; x33; x44; x55].
Definition v4_payload : bytes := replicate 6 xff ++ some_mac ++ [x81; x00; x00; x05; x08; x00] ++ [x45] ++ replicate 11 x00 ++ [xc0; xa8; x01; x07] ++ replicate 4 x00.
Definition v6_payload : bytes := replicate 6 xff ++ some_mac ++ [x86; xdd] ++ [x60] ++ replicate 7 x00 ++ [xfe; x80] ++ replicate 13 x00 ++ [x09] ++ replicate 16 x00.
Definition blob (payload : bytes) : bytes := be_bytes 4 95 ++ replicate 13 x00 ++ be_bytes 4 1 ++ replicate 74 x00 ++ payload.
Definition blob_packet (payload : bytes) : CapturedPacket := mkPacket 0 0 [] 0 0 [] [] payload.
Definition blob_plist (payload : bytes) : bytes := default [] (to_writer_xml (PlistCodec := tree_codec) (Data (blob payload))).
Lemma blob_framed payload : payload = v4_payload \/ payload = v6_payload -> packet_frame (PC := tree_codec) (blob_plist payload) (blob_packet payload).
Proof. intros [-> | ->]; (split; [by vm_compute|]); eexists; (split; [by vm_compute|by vm_compute]). Qed.
Lemma find_ip_witness :
  let s := mkSocket [Chunk (framed (blob_plist v4_payload)); Chunk (framed (blob_plist v6_payload) ++ [x00])] [] [] in
  (exists s', find_ip (PC := tree_codec) (fun _ => true) true (str "02:11:22:33:44:55") default_limits s =
    (s', Ok (mkInfo (str "02:11:22:33:44:55") (str "192.168.1.7") (str "fe80::9"))) /\ data (rx s') = [x00]) /\
  (exists s', find_ip (PC := tree_codec) (fun _ => true) true (str "02:11:22:33:44:55") (mkLimits 1 1 100) s =
    (s', Err (Protocol (Msg "IP finder packet limit reached ({})" [1]))) /\ data (rx s') = framed (blob_plist v6_payload) ++ [x00]).
Proof.
  cbv zeta. set (s := mkSocket _ _ _). set (text := str "02:11:22:33:44:55"). assert (parse_mac text = Some some_mac) as Em by (vm_compute; reflexivity).
  assert (flowing s) as Hfl by (split; [done|]; repeat constructor; eexists; (split; [done|by vm_compute])).
  split.
  - destruct (find_ip_exact (PC := tree_codec) (fun _ => true) true text default_limits s) as [_ H].
    destruct (H some_mac [blob_plist v4_payload; blob_plist v6_payload] [blob_packet v4_payload; blob_packet v6_payload] [x00]) as [Hc _].
    + exact Em.
    + split_and!; done.
    + constructor; [apply blob_framed; by left|]. constructor; [apply blob_framed; by right|constructor].
    + exact Hfl.
    + vm_compute. reflexivity.
    + destruct Hc as (_ & s' & _ & _ & E & Hd & _); [|exists s'; split; [rewrite E; vm_compute; reflexivity|exact Hd]].
      apply completes_cons. split_and!; [by apply going_0|by vm_compute|].
      change (complete _) with false. cbv iota. apply completes_cons. split_and!; [by apply going_0; vm_compute|by vm_compute|].
      change (complete _) with true. reflexivity.
  - destruct (find_ip_exact (PC := tree_codec) (fun _ => true) true text (mkLimits 1 1 100) s) as [_ H].
    destruct (H some_mac [blob_plist v4_payload] [blob_packet v4_payload] (framed (blob_plist v6_payload) ++ [x00])) as [_ Hx].
    + exact Em.
    + split_and!; done.
    + constructor; [apply blob_framed; by left|constructor].
    + exact Hfl.
    + vm_compute. reflexivity.
    + destruct Hx as (s' & E & Hd & _); [|exists s'; split; [rewrite E; vm_compute; reflexivity|exact Hd]].
      apply exhausts_cons. split; [by apply going_0|]. change (_ <? _) with false at 1. cbv iota. split; [by vm_compute|].
      change (_ && _) with false. reflexivity.
Defined.

(** ** The pcap file *)

(** A reader of the format: the magic of little endian and microseconds, the link type of Ethernet, and
    records of a header of sixteen bytes and as many bytes as it says. *)
Fixpoint read_records (fuel : nat) (d : bytes) : option (list (Z * Z * bytes)) :=
  match d, fuel with
  | [], _ => Some []
  | _, O => None
  | _, S fuel =>
      head ← slice d 0 16;
      let n := Z.to_nat (le_Z (take 4 (drop 8 head))) in
      body ← slice d 16 n;
      rest ← read_records fuel (drop (16 + n) d);
      Some ((le_Z (take 4 head), le_Z (take 4 (drop 4 head)), body) :: rest)
  end.
Definition read_pcap (d : bytes) : option (list (Z * Z * bytes)) :=
  head ← slice d 0 24;
  if (le_Z (take 4 head) =? 0xa1b2c3d4) && (le_Z (drop 20 head) =? 1) then read_records (length d) (drop 24 d) else None.
Definition record_bytes (p : CapturedPacket) : bytes :=
  le_bytes 4 (ts_sec p) ++ le_bytes 4 (ts_usec p) ++ le_bytes 4 (len (payload p)) ++ le_bytes 4 (len (payload p)) ++ payload p.
Definition recordable (p : CapturedPacket) : Prop := in_u 32 (ts_sec p) /\ in_u 32 (ts_usec p) /\ len (payload p) <= u32_max.
Lemma write_record_appends p : recordable p -> Sink.appends (write_packet_record p) (record_bytes p) tt.
Proof.
  intros (_ & _ & Hl). unfold write_packet_record. eapply Sink.appends_bind; [apply Sink.appends_lift; unfold checked_packet_record_len; by rewrite (proj2 (Z.ltb_ge _ _)) by lia| |reflexivity].
  do 4 (eapply Sink.appends_bind; [apply Sink.appends_write| |reflexivity]). apply Sink.appends_write.
Qed.
Lemma read_records_app ps : Forall recordable ps -> forall fuel, (length ps <= fuel)%nat ->
  read_records fuel (concat (map record_bytes ps)) = Some (map (fun p => (ts_sec p, ts_usec p, payload p)) ps).
Proof.
  induction 1 as [|p ps (Hs & Hu & Hl) H IH]; intros [|fuel] Hf; try done; [cbn [length] in Hf; lia|].
  cbn [map concat]. unfold record_bytes at 1. set (tl := concat (map record_bytes ps)) in *. assert (in_u 32 (len (payload p))) as Hn by (unfold in_u, u32_max, len in *; lia).
  set (head := le_bytes 4 (ts_sec p) ++ le_bytes 4 (ts_usec p) ++ le_bytes 4 (len (payload p)) ++ le_bytes 4 (len (payload p))).
  replace ((le_bytes 4 (ts_sec p) ++ _) ++ tl) with (head ++ payload p ++ tl) by (unfold head; by rewrite <- !app_assoc).
  assert (length head = 16%nat) as Hh by (unfold head; by rewrite !length_app, !length_le_bytes).
  destruct (head ++ payload p ++ tl) as [|b d] eqn:Ed; [by destruct head|]. cbn [read_records]. rewrite <- Ed. clear b d Ed.
  pose proof (slice_behind [] head (payload p ++ tl)) as S1. cbn [app length] in S1. rewrite Hh in S1. rewrite S1. cbn [mbind option_bind].
  assert (le_Z (take 4 (drop 8 head)) = len (payload p)) as ->.
  { change (drop 8 head) with (le_bytes 4 (len (payload p)) ++ le_bytes 4 (len (payload p))).
    rewrite take_app_length' by (by rewrite length_le_bytes). by apply (le_Z_le_bytes_u 4 32). }
  assert (Z.to_nat (len (payload p)) = length (payload p)) as -> by (unfold len; lia).
  pose proof (slice_behind head (payload p) tl) as S2. rewrite Hh in S2. rewrite S2. cbn [mbind option_bind].
  replace (drop (16 + length (payload p)) (head ++ payload p ++ tl)) with tl.
  2: { rewrite app_assoc, <- Hh, <- length_app. by rewrite drop_app_length. }
  rewrite IH by (cbn [length] in Hf; lia). cbn [mbind option_bind]. do 4 f_equal.
  - unfold head. rewrite take_app_length' by (by rewrite length_le_bytes). by apply (le_Z_le_bytes_u 4 32).
  - change (drop 4 head) with (le_bytes 4 (ts_usec p) ++ le_bytes 4 (len (payload p)) ++ le_bytes 4 (len (payload p))).
    rewrite take_app_length' by (by rewrite length_le_bytes). by apply (le_Z_le_bytes_u 4 32).
Qed.

(** The pcap file reads back. A header and a record for each packet, written to a file that takes what
    is written, leave a file that a reader of the format reads as these packets, with their times, in order. *)
Theorem pcap_file_reads_back ps s : Forall recordable ps -> wr s = [] -> tx s = [] ->
  exists s', (write_global_header ;; Sink.write_each write_packet_record ps) s = (s', Ok tt) /\
    read_pcap (tx s') = Some (map (fun p => (ts_sec p, ts_usec p, payload p)) ps).
Proof.
  intros Hps Hw Ht.
  assert (Sink.appends (write_global_header ;; Sink.write_each write_packet_record ps) (GLOBAL_HEADER ++ concat (map record_bytes ps)) tt) as Ha.
  { eapply Sink.appends_bind; [apply Sink.appends_write| |reflexivity]. apply Sink.appends_each.
    eapply Forall_impl; [exact Hps|]. intros p Hp. exists tt. by apply write_record_appends. }
  eexists. split; [by apply Ha|]. cbn [tx]. rewrite Ht. cbn [app]. unfold read_pcap.
  pose proof (slice_behind [] GLOBAL_HEADER (concat (map record_bytes ps))) as S1. cbn [app] in S1. change (length GLOBAL_HEADER) with 24%nat in S1. change (length []) with 0%nat in S1. rewrite S1.
  cbn [mbind option_bind]. change ((le_Z (take 4 GLOBAL_HEADER) =? 0xa1b2c3d4) && (le_Z (drop 20 GLOBAL_HEADER) =? 1)) with true. cbv iota.
  change 24%nat with (length GLOBAL_HEADER) at 1. rewrite drop_app_length. apply read_records_app; [done|]. rewrite length_app.
  assert (length ps <= length (concat (map record_bytes ps)))%nat; [|lia]. clear. induction ps as [|p ps IH]; [done|]. cbn [map concat length]. rewrite length_app.
  unfold record_bytes at 1. rewrite length_app, length_le_bytes. lia.
Qed.
Lemma pcap_file_witness :
  let ps := [mkPacket 5 6 [] 1 2 [] [] [x01; x02]; mkPacket 7 8 [] 1 2 [] [] []] in
  exists s', (write_global_header ;; Sink.write_each write_packet_record ps) (mkSocket [] [] []) = (s', Ok tt) /\ read_pcap (tx s') = Some [(5, 6, [x01; x02]); (7, 8, [])].
Proof. apply pcap_file_reads_back; [|done|done]. repeat constructor; vm_compute; done. Defined.
End Pcap.

Module BtLog.
Import Net Socket Text.

Inductive BtPacketLoggerError := Io | PlistError | Protocol (m : msg).
#[export] Instance bt_io_error : IoError BtPacketLoggerError := Io.
Definition protocol (text : string) (args : list Z) : BtPacketLoggerError := Protocol (Msg text args).
Abbreviation bt := (st Socket BtPacketLoggerError).

Definition PACKETLOGGER_RECORD_HEADER_SIZE : nat := 13.
Definition SERVICE_PACKET_SIZE_HEADER : Z := 2.
Definition MAX_PACKETLOGGER_RECORD_SIZE : Z := 16 * 1024 * 1024.
Definition PCAPNG_LINKTYPE_BLUETOOTH_HCI_H4_WITH_PHDR : Z := 201.
Inductive PacketLoggerPacketType := HciCommand | HciEvent | SentAclData | RecvAclData | SentScoData | RecvScoData.
Definition type_value (t : PacketLoggerPacketType) : Z :=
  match t with HciCommand => 0x00 | HciEvent => 0x01 | SentAclData => 0x02 | RecvAclData => 0x03 | SentScoData => 0x08 | RecvScoData => 0x09 end.
Record PacketLoggerRecord := mkRecord { length_field : Z; seconds : Z; microseconds : Z; packet_type : Z; payload : bytes }.

(** The loop; an empty frame takes two bytes of the stream. *)
Fixpoint next_loop (fuel : nat) : bt bytes :=
  match fuel with
  | O => st_lift OutOfFuel
  | S fuel =>
      head ← read_exact SERVICE_PACKET_SIZE_HEADER;
      let len := le_Z head in
      if len =? 0 then next_loop fuel else
      if MAX_PACKETLOGGER_RECORD_SIZE <? len
      then st_fail (protocol "BTPacketLogger record length {len} exceeds maximum {MAX_PACKETLOGGER_RECORD_SIZE}" [len; MAX_PACKETLOGGER_RECORD_SIZE]) else
      read_exact len
  end.
Definition next_packetlogger_record : bt bytes := s ← st_get; next_loop (S (rx_bytes s)).
Definition parse_packetlogger_record (data : bytes) : outcome BtPacketLoggerError PacketLoggerRecord :=
  if (length data <? PACKETLOGGER_RECORD_HEADER_SIZE)%nat then Err (protocol "packet logger record too short: {} bytes" [len data]) else
  Ok (mkRecord (be_Z (take 4 data)) (be_Z (take 4 (drop 4 data))) (be_Z (take 4 (drop 8 data))) (byte_at data 12) (drop PACKETLOGGER_RECORD_HEADER_SIZE data)).
Definition next_record : bt PacketLoggerRecord := raw ← next_packetlogger_record; st_lift (parse_packetlogger_record raw).

(** The H4 type and the direction. *)
Definition h4_type (t : Z) : option (Z * Z) :=
  if t =? type_value HciCommand then Some (0x01, 0)
  else if t =? type_value SentAclData then Some (0x02, 0)
  else if t =? type_value RecvAclData then Some (0x02, 1)
  else if t =? type_value SentScoData then Some (0x03, 0)
  else if t =? type_value RecvScoData then Some (0x03, 1)
  else if t =? type_value HciEvent then Some (0x04, 1)
  else None.
Definition packetlogger_record_to_hci_h4_phdr (r : PacketLoggerRecord) : option bytes :=
  '(hci_h4_type, direction_in) ← h4_type (packet_type r); Some (be_bytes 4 direction_in ++ [bZ hci_h4_type] ++ payload r).

(** *** The time stamp

    An [f64] is a [spec_float] of 53 bits, rounded to even. *)
Definition f64 : Type := spec_float.
Definition f64_of_Z (n : Z) : f64 := binary_normalize 53 1024 n 0 false.
Definition is_sign_negative (x : f64) : bool :=
  match x with S754_zero s | S754_infinity s | S754_finite s _ _ => s | S754_nan => false end.
(** [as u64]: towards zero, saturating, zero for a NaN. *)
Definition f64_as_u64 (x : f64) : Z :=
  match x with
  | S754_infinity false => 2 ^ 64 - 1
  | S754_finite false m e => Z.min (2 ^ 64 - 1) (Z.shiftl (Zpos m) e)
  | _ => 0
  end.
Definition packetlogger_timestamp_microseconds (r : PacketLoggerRecord) (tz_offset_seconds : f64) : Z :=
  let timestamp := SFadd 53 1024 (SFmul 53 1024 (SFsub 53 1024 (f64_of_Z (seconds r)) tz_offset_seconds) (f64_of_Z 1000000)) (f64_of_Z (microseconds r)) in
  if is_sign_negative timestamp then 0 else f64_as_u64 timestamp.
Example timestamp_berlin : packetlogger_timestamp_microseconds (mkRecord 0 1700000000 999999 0 []) (f64_of_Z 3600) = 1699996400999999.
Proof. vm_compute. reflexivity. Qed.
Example timestamp_fraction :
  packetlogger_timestamp_microseconds (mkRecord 0 10 0 0 []) (SFdiv 53 1024 (f64_of_Z 1) (f64_of_Z 2)) = 9500000.
Proof. vm_compute. reflexivity. Qed.

(** *** The files *)

Definition write_packetlogger_record (raw_record : bytes) : bt unit := write_all raw_record ;; flush.
Definition options_end : bytes := le_bytes 2 0 ++ le_bytes 2 0.
Definition pad_to_32bit (buf : bytes) : bytes := buf ++ replicate (Z.to_nat ((4 - len buf mod 4) mod 4)) x00.
Definition write_pcapng_block (block_type : Z) (body : bytes) : bt unit :=
  let total_length := len body + 12 in
  if u32_max <? total_length then st_fail (protocol "pcapng block too large: {}" [len body]) else
  write_all (le_bytes 4 block_type) ;;
  write_all (le_bytes 4 total_length) ;;
  write_all body ;;
  write_all (le_bytes 4 total_length) ;;
  flush.
Definition SECTION_BLOCK : Z := 0x0A0D0D0A.
Definition INTERFACE_BLOCK : Z := 0x00000001.
Definition PACKET_BLOCK : Z := 0x00000006.
Definition section_body : bytes := le_bytes 4 0x1A2B3C4D ++ le_bytes 2 1 ++ le_bytes 2 0 ++ le_bytes 8 (-1) ++ options_end.
Definition interface_body : bytes := le_bytes 2 PCAPNG_LINKTYPE_BLUETOOTH_HCI_H4_WITH_PHDR ++ le_bytes 2 0 ++ le_bytes 4 u32_max ++ options_end.
Definition write_pcapng_header : bt unit :=
  write_pcapng_block SECTION_BLOCK section_body ;;
  write_pcapng_block INTERFACE_BLOCK interface_body.
Definition packet_body (frame : bytes) (timestamp : Z) : bytes :=
  pad_to_32bit (le_bytes 4 0 ++ le_bytes 4 (Z.shiftr timestamp 32) ++ le_bytes 4 timestamp ++
    le_bytes 4 (len frame) ++ le_bytes 4 (len frame) ++ frame) ++ options_end.
Definition write_pcapng_record (r : PacketLoggerRecord) (tz_offset_seconds : f64) : bt bool :=
  match packetlogger_record_to_hci_h4_phdr r with
  | None => mret false
  | Some frame =>
      let timestamp_microseconds := packetlogger_timestamp_microseconds r tz_offset_seconds in
      if u32_max <? len frame then st_fail (protocol "pcapng frame too large: {}" [len frame]) else
      write_pcapng_block PACKET_BLOCK (packet_body frame timestamp_microseconds) ;;
      mret true
  end.

(** ** The records *)

(** Empty frames and then one with the record. *)
Definition record_frame (k : nat) (raw : bytes) : bytes := replicate (2 * k) x00 ++ le_bytes 2 (len raw) ++ raw.
Lemma next_loop_wpx fuel s : (rx_bytes s < fuel)%nat ->
  wpx (next_loop fuel) (fun raw s' => raw <> [] /\ exists k, traffic (record_frame k raw) [] s s') (read_part s) (read_part s) s.
Proof.
  revert s. induction fuel as [|fuel IH]; intros s Hf; [lia|]. cbn [next_loop]. wpx_step.
  eapply wpx_mono; [by apply read_exact_traffic| |done|done]. cbv beta. intros h s1 [Hl H1]. unfold SERVICE_PACKET_SIZE_HEADER in Hl. cbv zeta.
  assert (length h = 2%nat) as Hl2 by (unfold len in Hl; lia). pose proof (le_bytes_le_Z h) as Eh. rewrite Hl2 in Eh.
  assert (0 <= le_Z h) as Hn by apply le_Z_bound. pose proof (traffic_rx_le _ _ _ _ H1).
  wpx_step.
  - apply Z.eqb_eq in Hif. assert (h = [x00; x00]) as -> by (rewrite Hif in Eh; by rewrite <- Eh).
    eapply wpx_mono; [apply IH; cbn [length] in *; lia| |intros s' [i Hi]; eexists; exact (traffic_trans _ _ _ _ _ _ _ H1 Hi)..].
    cbv beta. intros raw s' (Hne & k & Ht). split; [done|]. exists (S k). unfold record_frame in *.
    replace (2 * S k)%nat with (S (S (2 * k))) by lia. exact (traffic_trans _ _ _ _ _ _ _ H1 Ht).
  - apply Z.eqb_neq in Hif. wpx_step; [wpx_step; by eexists|].
    eapply wpx_mono; [by apply read_exact_traffic| |intros s' [i Hi]; eexists; exact (traffic_trans _ _ _ _ _ _ _ H1 Hi)..].
    cbv beta. intros raw s2 [Hr H2]. split; [by intros ->|]. exists 0%nat. unfold record_frame. rewrite Hr, Eh. exact (traffic_trans _ _ _ _ _ _ _ H1 H2).
Qed.

(** The next Bluetooth record is the next frame that is not empty: [next_packetlogger_record] skips empty
    frames, and returns the bytes of the first other one, whole. It never turns forever: it returns, unless
    it is dropped while it waits, and a call that fails has only read. *)
Theorem bt_next_exact s :
  wpx next_packetlogger_record (fun raw s' => raw <> [] /\ exists k, traffic (record_frame k raw) [] s s') (read_part s) (read_part s) s.
Proof. unfold next_packetlogger_record. wpx_step. wpx_step. apply next_loop_wpx. lia. Qed.

(** ** The pcapng file *)

(** A reader of the blocks: type, length, body and the length again, a multiple of four. *)
Fixpoint read_blocks (fuel : nat) (d : bytes) : option (list (Z * bytes)) :=
  match d, fuel with
  | [], _ => Some []
  | _, O => None
  | _, S fuel =>
      head ← Slices.slice d 0 8;
      let n := le_Z (drop 4 head) in
      if (n <? 12) || negb (n mod 4 =? 0) then None else
      body ← Slices.slice d 8 (Z.to_nat (n - 12));
      tail ← Slices.slice d (8 + Z.to_nat (n - 12)) 4;
      if negb (le_Z tail =? n) then None else
      rest ← read_blocks fuel (drop (8 + Z.to_nat (n - 12) + 4) d);
      Some ((le_Z (take 4 head), body) :: rest)
  end.
(** The time and the bytes of a packet block. *)
Definition read_packet_body (body : bytes) : Z * bytes :=
  (le_Z (take 4 (drop 4 body)) * 2 ^ 32 + le_Z (take 4 (drop 8 body)), take (Z.to_nat (le_Z (take 4 (drop 12 body)))) (drop 20 body)).
Definition block_bytes (b : Z * bytes) : bytes := le_bytes 4 b.1 ++ le_bytes 4 (len b.2 + 12) ++ b.2 ++ le_bytes 4 (len b.2 + 12).
Definition block_ok (b : Z * bytes) : Prop := in_u 32 b.1 /\ len b.2 mod 4 = 0 /\ len b.2 + 12 <= u32_max.
Lemma write_block_appends b : block_ok b -> Sink.appends (write_pcapng_block b.1 b.2) (block_bytes b) tt.
Proof.
  intros (_ & _ & Hl). unfold write_pcapng_block. cbv zeta. rewrite (proj2 (Z.ltb_ge _ _)) by lia.
  do 3 (eapply Sink.appends_bind; [apply Sink.appends_write| |reflexivity]).
  eapply Sink.appends_bind; [apply Sink.appends_write|apply Sink.appends_flush|by rewrite app_nil_r].
Qed.
Lemma read_blocks_app bs : Forall block_ok bs -> forall fuel, (length bs <= fuel)%nat -> read_blocks fuel (concat (map block_bytes bs)) = Some bs.
Proof.
  induction 1 as [|[t body] bs (Ht & Hm & Hl) H IH]; intros [|fuel] Hf; try done; [cbn [length] in Hf; lia|].
  cbn [map concat]. cbn [fst snd] in *. set (tl := concat (map block_bytes bs)) in *.
  assert (in_u 32 (len body + 12)) as Hn by (unfold in_u, u32_max, len in *; lia).
  set (head := le_bytes 4 t ++ le_bytes 4 (len body + 12)). set (tail := le_bytes 4 (len body + 12)).
  replace (block_bytes (t, body) ++ tl) with (head ++ body ++ tail ++ tl) by (unfold block_bytes, head, tail; cbn [fst snd]; by rewrite <- !app_assoc).
  assert (length head = 8%nat) as Hh by (unfold head; by rewrite !length_app, !length_le_bytes).
  assert (length tail = 4%nat) as Htl by (unfold tail; by rewrite length_le_bytes).
  destruct (head ++ body ++ tail ++ tl) as [|b d] eqn:Ed; [by destruct head|]. cbn [read_blocks]. rewrite <- Ed. clear b d Ed.
  pose proof (Slices.slice_behind [] head (body ++ tail ++ tl)) as S1. cbn [app length] in S1. rewrite Hh in S1. rewrite S1. cbn [mbind option_bind].
  assert (le_Z (drop 4 head) = len body + 12) as ->.
  { change (drop 4 head) with (le_bytes 4 (len body + 12)). by apply (le_Z_le_bytes_u 4 32). }
  rewrite (proj2 (Z.ltb_ge _ _)) by (unfold len; lia). rewrite (proj2 (Z.eqb_eq ((len body + 12) mod 4) 0)) by (Z.div_mod_to_equations; lia). cbn [orb negb].
  assert (Z.to_nat (len body + 12 - 12) = length body) as -> by (unfold len; lia).
  pose proof (Slices.slice_behind head body (tail ++ tl)) as S2. rewrite Hh in S2. rewrite S2. cbn [mbind option_bind].
  pose proof (Slices.slice_behind (head ++ body) tail tl) as S3. rewrite length_app, Hh, Htl, <- app_assoc in S3. rewrite S3. cbn [mbind option_bind].
  assert (le_Z tail = len body + 12) as -> by (by apply (le_Z_le_bytes_u 4 32)). rewrite Z.eqb_refl. cbn [negb].
  replace (drop (8 + length body + 4) (head ++ body ++ tail ++ tl)) with tl.
  2: { rewrite !app_assoc. replace (8 + length body + 4)%nat with (length ((head ++ body) ++ tail)) by (rewrite !length_app; lia). by rewrite drop_app_length. }
  rewrite IH by (cbn [length] in Hf; lia). cbn [mbind option_bind]. do 3 f_equal.
  unfold head. rewrite take_app_length' by (by rewrite length_le_bytes). by apply (le_Z_le_bytes_u 4 32).
Qed.

Lemma f64_as_u64_bound x : 0 <= f64_as_u64 x < 2 ^ 64.
Proof.
  unfold f64_as_u64. destruct x as [|[]| |[] m e]; try lia. assert (0 <= Z.shiftl (Zpos m) e) by (apply Z.shiftl_nonneg; lia). lia.
Qed.
Lemma timestamp_bound r tz : in_u 64 (packetlogger_timestamp_microseconds r tz).
Proof. unfold packetlogger_timestamp_microseconds, in_u. cbv zeta. case_match; [lia|]. apply f64_as_u64_bound. Qed.
Definition short (r : PacketLoggerRecord) : Prop := len (payload r) <= u32_max - 48.
Lemma packet_body_ok frame ts : len frame <= u32_max - 43 -> in_u 64 ts ->
  block_ok (PACKET_BLOCK, packet_body frame ts) /\ read_packet_body (packet_body frame ts) = (ts, frame).
Proof.
  intros Hl Hts. unfold packet_body, pad_to_32bit.
  set (fixed := le_bytes 4 0 ++ le_bytes 4 (Z.shiftr ts 32) ++ le_bytes 4 ts ++ le_bytes 4 (len frame) ++ le_bytes 4 (len frame)).
  replace (le_bytes 4 0 ++ _ ++ _ ++ _ ++ _ ++ frame) with (fixed ++ frame) by (unfold fixed; by rewrite <- !app_assoc).
  assert (length fixed = 20%nat) as Hf by (unfold fixed; by rewrite !length_app, !length_le_bytes).
  set (n := len (fixed ++ frame)). assert (n = 20 + len frame) as En by (unfold n; rewrite len_app; unfold len; lia).
  assert (0 <= (4 - n mod 4) mod 4 <= 3) as Hp by (pose proof (Z.mod_pos_bound (4 - n mod 4) 4 ltac:(lia)); lia).
  set (pad := replicate _ x00). assert (len pad = (4 - n mod 4) mod 4) as Epad by (unfold pad, len; rewrite length_replicate; lia).
  split.
  - split_and!; [done|..]; cbn [snd]; rewrite (len_app _ options_end), (len_app _ pad); fold n; rewrite Epad; change (len options_end) with 4.
    + rewrite (Z.add_mod (n + _)), (Z.add_mod n) by lia. pose proof (Z.mod_pos_bound n 4 ltac:(lia)).
      assert (n mod 4 = 0 \/ n mod 4 = 1 \/ n mod 4 = 2 \/ n mod 4 = 3) as [-> | [-> | [-> | ->]]] by lia; done.
    + unfold len, u32_max in *. lia.
  - unfold read_packet_body. rewrite <- !app_assoc.
    assert (drop 20 (fixed ++ frame ++ pad ++ options_end) = frame ++ pad ++ options_end) as -> by (rewrite <- Hf; apply drop_app_length).
    assert (forall k, (k <= 16)%nat -> take 4 (drop k (fixed ++ frame ++ pad ++ options_end)) = take 4 (drop k fixed)) as Ht.
    { intros k Hk. rewrite drop_app_le, take_app_le by (rewrite ?length_drop; lia). done. }
    rewrite !Ht by lia. change (drop 4 fixed) with (le_bytes 4 (Z.shiftr ts 32) ++ le_bytes 4 ts ++ le_bytes 4 (len frame) ++ le_bytes 4 (len frame)).
    change (drop 8 fixed) with (le_bytes 4 ts ++ le_bytes 4 (len frame) ++ le_bytes 4 (len frame)).
    change (drop 12 fixed) with (le_bytes 4 (len frame) ++ le_bytes 4 (len frame)).
    rewrite !(take_app_length' (le_bytes 4 _) _ 4) by (by rewrite length_le_bytes). rewrite (le_Z_le_bytes_u 4 32 (len frame)) by (done || (unfold in_u, u32_max, len in *; lia)).
    replace (Z.to_nat (len frame)) with (length frame) by (unfold len; lia). rewrite take_app_length. f_equal.
    rewrite Z.shiftr_div_pow2 by lia. unfold in_u in Hts. rewrite !le_Z_le_bytes. change (256 ^ Z.of_nat 4) with (2 ^ 32).
    rewrite (Z.mod_small (ts / 2 ^ 32)) by (split; [apply Z.div_pos; lia|apply Z.div_lt_upper_bound; lia]). pose proof (Z.div_mod ts (2 ^ 32) ltac:(lia)). lia.
Qed.
(** The blocks of the records that are packets. *)
Definition packet_blocks (tz : f64) (r : PacketLoggerRecord) : list (Z * bytes) :=
  match packetlogger_record_to_hci_h4_phdr r with Some frame => [(PACKET_BLOCK, packet_body frame (packetlogger_timestamp_microseconds r tz))] | None => [] end.
Lemma h4_length r frame : short r -> packetlogger_record_to_hci_h4_phdr r = Some frame -> len frame <= u32_max - 43.
Proof.
  unfold short, packetlogger_record_to_hci_h4_phdr. intros Hr. destruct (h4_type _) as [[t d]|]; [|done]. cbn [mbind option_bind]. intros E.
  assert (frame = be_bytes 4 d ++ [bZ t] ++ payload r) as -> by congruence. rewrite !len_app. unfold len at 1. rewrite length_be_bytes. change (len [bZ t]) with 1. lia.
Qed.
Lemma write_pcapng_appends r tz : short r -> exists b, Sink.appends (write_pcapng_record r tz) (concat (map block_bytes (packet_blocks tz r))) b.
Proof.
  intros Hr. unfold write_pcapng_record, packet_blocks. destruct (packetlogger_record_to_hci_h4_phdr r) as [frame|] eqn:Ef; [|exists false; apply Sink.appends_ret].
  pose proof (h4_length r frame Hr Ef) as Hl. exists true. cbv zeta. rewrite (proj2 (Z.ltb_ge _ _)) by lia.
  destruct (packet_body_ok frame (packetlogger_timestamp_microseconds r tz) Hl (timestamp_bound r tz)) as [Hok _].
  eapply Sink.appends_bind; [exact (write_block_appends _ Hok)|apply Sink.appends_ret|done].
Qed.
Lemma packet_blocks_ok tz rs : Forall short rs -> Forall block_ok (concat (map (packet_blocks tz) rs)).
Proof.
  induction 1 as [|r rs Hr H IH]; [constructor|]. cbn [map concat]. apply Forall_app. split; [|done].
  unfold packet_blocks. destruct (packetlogger_record_to_hci_h4_phdr r) as [frame|] eqn:Ef; [|constructor].
  constructor; [|constructor]. apply packet_body_ok; [by eapply h4_length|apply timestamp_bound].
Qed.

Lemma blocks_length bs : (length bs <= length (concat (map block_bytes bs)))%nat.
Proof.
  induction bs as [|b bs IH]; [done|]. cbn [map concat length]. rewrite length_app. unfold block_bytes at 1. rewrite length_app, length_le_bytes. lia.
Qed.

(** C39. The pcapng file reads back. The header and the records, written to a file that takes what is written,
    leave well-formed blocks: the section and the interface, of the link type for Bluetooth, and for each
    record of a known type, in order, a packet block with its time, in two halves, and its frame: the
    direction, the H4 type and the payload. *)
Theorem pcapng_file_reads_back rs tz s : Forall short rs -> wr s = [] -> tx s = [] ->
  exists s' blocks, (write_pcapng_header ;; Sink.write_each (fun r => write_pcapng_record r tz) rs) s = (s', Ok tt) /\
    read_blocks (length (tx s')) (tx s') = Some ((SECTION_BLOCK, section_body) :: (INTERFACE_BLOCK, interface_body) :: blocks) /\
    map (fun b => (b.1, read_packet_body b.2)) blocks =
      omap (fun r => (fun frame => (PACKET_BLOCK, (packetlogger_timestamp_microseconds r tz, frame))) <$> packetlogger_record_to_hci_h4_phdr r) rs.
Proof.
  intros Hrs Hw Ht. set (blocks := concat (map (packet_blocks tz) rs)).
  set (all := (SECTION_BLOCK, section_body) :: (INTERFACE_BLOCK, interface_body) :: blocks).
  assert (block_ok (SECTION_BLOCK, section_body) /\ block_ok (INTERFACE_BLOCK, interface_body)) as [H1 H2] by (split; (split_and!; [done|by vm_compute|by vm_compute])).
  assert (Forall block_ok all) as Hall by (constructor; [done|]; constructor; [done|]; by apply packet_blocks_ok).
  assert (Sink.appends (write_pcapng_header ;; Sink.write_each (fun r => write_pcapng_record r tz) rs) (concat (map block_bytes all)) tt) as Ha.
  { unfold write_pcapng_header. eapply Sink.appends_bind; [eapply Sink.appends_bind; [apply (write_block_appends _ H1)|apply (write_block_appends _ H2)|reflexivity]| |].
    - apply (Sink.appends_each _ (fun r => concat (map block_bytes (packet_blocks tz r)))). eapply Forall_impl; [exact Hrs|]. intros r Hr. by apply write_pcapng_appends.
    - unfold all, blocks. cbn [map concat]. rewrite <- app_assoc. do 2 f_equal. clear. induction rs as [|r rs IH]; [done|]. cbn [map concat]. by rewrite map_app, concat_app, IH. }
  eexists _, blocks. split; [by apply Ha|]. cbn [tx]. rewrite Ht. cbn [app]. split.
  - apply read_blocks_app; [done|apply blocks_length].
  - unfold blocks. clear - Hrs. induction Hrs as [|r rs Hr H IH]; [done|]. cbn [map concat omap list_omap]. rewrite map_app, IH. unfold packet_blocks at 1.
    destruct (packetlogger_record_to_hci_h4_phdr r) as [frame|] eqn:Ef; [|done]. cbn [map app fst snd fmap option_map].
    destruct (packet_body_ok frame (packetlogger_timestamp_microseconds r tz)) as [_ ->]; [by eapply h4_length|apply timestamp_bound|done].
Qed.
Lemma pcapng_file_witness :
  let rs := [mkRecord 9 3 4 0 [x01]; mkRecord 9 3 4 7 [x02]; mkRecord 9 3 5 1 [x03]] in
  exists s' blocks, (write_pcapng_header ;; Sink.write_each (fun r => write_pcapng_record r (f64_of_Z 1)) rs) (mkSocket [] [] []) = (s', Ok tt) /\
    read_blocks (length (tx s')) (tx s') = Some ((SECTION_BLOCK, section_body) :: (INTERFACE_BLOCK, interface_body) :: blocks) /\
    map (fun b => (b.1, read_packet_body b.2)) blocks = [(PACKET_BLOCK, (2000004, [x00; x00; x00; x00; x01; x01])); (PACKET_BLOCK, (2000005, [x00; x00; x00; x01; x04; x03]))].
Proof.
  cbv zeta. destruct (pcapng_file_reads_back [mkRecord 9 3 4 0 [x01]; mkRecord 9 3 4 7 [x02]; mkRecord 9 3 5 1 [x03]] (f64_of_Z 1) (mkSocket [] [] []))
    as (s' & blocks & H1 & H2 & H3); [repeat constructor; by vm_compute|done|done|].
  exists s', blocks. split; [exact H1|]. split; [exact H2|]. rewrite H3. vm_compute. reflexivity.
Defined.
End BtLog.
