(* ===== verification/Pasteboard.v ===== *)
(** The pasteboard client ([crates/ios-core/src/services/pasteboard/mod.rs]), a RemoteXPC service.

    [Pasteboard] has the snapshots and their budgets, the requests, the client and the
    subscription, on the connection of [XpcConn]. The text forms of a UUID and of a double
    are the class [TextForms]. A call that waits beyond its deadline fails; whether the deadline
    comes first or the caller drops the call is the parameter [fires]. The theorems are in
    [PasteboardSpec]. *)

From S2P Require Import Prelude Utf8 Text XpcMessage H2Framer XpcPending XpcConn.

(** [Uuid::parse_str], [Uuid::to_string] and [f64::to_string] (of the bits). *)
Class TextForms := { uuid_parse : bytes -> option bytes; uuid_text : bytes -> bytes; f64_text : Z -> bytes }.

Module Pasteboard.
Import Xpc H2 Pending XpcConn Text.

Definition GENERAL_PASTEBOARD : bytes := str "general".
Definition PULL_COMMAND : bytes := str "PULL".
Definition PULL_REPLY_COMMAND : bytes := str "PULL_REPLY".
Definition SET_COMMAND : bytes := str "SET".
Definition SET_REPLY_COMMAND : bytes := str "SET_REPLY".
Definition DATA_COMMAND : bytes := str "DATA".
Definition PUSH_COMMAND : bytes := str "PUSH".
Definition AUTONOTIFY_COMMAND : bytes := str "AUTONOTIFY".
Definition RESOLVE_COMMAND : bytes := str "RESOLVE".
Definition UTI_UTF8_PLAIN_TEXT : bytes := str "public.utf8-plain-text".
Definition UTI_PLAIN_TEXT : bytes := str "public.plain-text".
Definition UTI_TEXT : bytes := str "public.text".
Definition UTI_URL : bytes := str "public.url".
Definition TEXT_UTIS : list bytes := [UTI_UTF8_PLAIN_TEXT; UTI_PLAIN_TEXT; UTI_TEXT].
(** In seconds. *)
Definition REQUEST_TIMEOUT : Z := 10.

Record PasteboardLimits := mkLimits { max_items : Z; max_representations : Z; max_data_bytes : Z; max_metadata_bytes : Z; max_events : Z }.
Definition default_limits : PasteboardLimits := mkLimits 256 2048 (64 * 1024 * 1024) (1024 * 1024) 128.

Inductive PasteboardError :=
| XpcFailed (e : XpcError)
| Protocol (m : msg)
| Service (domain code description : bytes)
| Timeout (seconds : Z)
| Closed
| Limit (m : msg).
Definition protocol {A} (text : string) (args : list Z) : outcome PasteboardError A := Err (Protocol (Msg text args)).
Definition limit {A} (text : string) (args : list Z) : outcome PasteboardError A := Err (Limit (Msg text args)).
(** [a.checked_add(b).ok_or_else(..)] of [usize]. *)
Definition checked_sum (text : string) (a b : Z) : outcome PasteboardError Z := if usize_max <? a + b then limit text [] else Ok (a + b).
(** [option.map(f).transpose()] *)
Definition transpose {A B} (f : A -> outcome PasteboardError B) (o : option A) : outcome PasteboardError (option B) :=
  match o with Some a => b ← f a; Ok (Some b) | None => Ok None end.
Definition or_else {A} (a b : option A) : option A := match a with Some _ => a | None => b end.
Definition dict : Type := list (bytes * XpcValue).
Definition get (key : string) (d : dict) : option XpcValue := imap_lookup (str key) d.

(** *** Policies *)

Inductive DataInclusionPolicy := AllResolved | AllPromised | MatchSource | PromiseSecondary | Threshold (bytes : Z).
Definition to_xpc (p : DataInclusionPolicy) : XpcValue :=
  let '(key, value) := match p with
    | AllResolved => ("allResolved", Dictionary [])
    | AllPromised => ("allPromised", Dictionary [])
    | MatchSource => ("matchSource", Dictionary [])
    | PromiseSecondary => ("promiseSecondary", Dictionary [])
    | Threshold bytes => ("thresholdData", Dictionary [(str "_0", Int64 bytes)])
    end%string in
  Dictionary [(str key, value)].
Definition validate (p : DataInclusionPolicy) : outcome PasteboardError unit :=
  match p with
  | Threshold bytes => if bytes <? 0 then limit "data policy threshold must be non-negative, got {bytes}" [bytes] else Ok tt
  | _ => Ok tt
  end.

(** *** Snapshots *)

Inductive PasteboardPayload := Inline (d : bytes) | Promised (size : option Z) | PayloadError (text : bytes).
Record PasteboardEntry := mkEntry { uti : bytes; payload : PasteboardPayload }.
Record PasteboardSnapshotItem := mkSnapshotItem { index : Z; item_types : list bytes; entries_of : list PasteboardEntry }.
Record PasteboardSnapshot := mkSnapshot {
  command : option bytes; pasteboard_name : option bytes; change_count : option Z; snapshot_uuid : option bytes;
  metadata : option XpcValue; source_metadata : option XpcValue; items : list PasteboardSnapshotItem
}.
Record PromisedItem := mkPromised { item_index : Z; promised_uti : bytes; size : option Z }.

Definition xpc_value_kind (v : XpcValue) : string :=
  match v with
  | Null => "null" | Bool _ => "bool" | Int64 _ => "int64" | Uint64 _ => "uint64" | Double _ => "double" | Date _ => "date"
  | Data _ => "data" | String _ => "string" | Uuid _ => "uuid" | Array _ => "array" | Dictionary _ => "dictionary"
  | FileTransfer _ _ => "file-transfer"
  end.
Definition parse_i64 (v : XpcValue) : outcome PasteboardError Z :=
  match v with
  | Int64 n => Ok n
  | Uint64 n => if n <? 2 ^ 63 then Ok n else protocol "integer {value} does not fit in i64" [n]
  | other => protocol ("expected signed integer, got " +:+ xpc_value_kind other) []
  end.
Definition parse_bool (text : string) (args : list Z) (v : XpcValue) : outcome PasteboardError bool :=
  match v with Bool b => Ok b | _ => protocol text args end.
Definition parse_str (text : string) (v : XpcValue) : outcome PasteboardError bytes :=
  match as_str v with Some s => Ok s | None => protocol text [] end.

Definition MAX_DIAGNOSTIC_BYTES : nat := 512.
Definition bounded_text (s : bytes) : bytes :=
  if (length s <=? MAX_DIAGNOSTIC_BYTES)%nat then s else take (boundary_below s MAX_DIAGNOSTIC_BYTES) s ++ [xe2; x80; xa6].

Definition MAX_DEPTH : nat := 64.
(** The levels below are counted down. *)
Fixpoint estimate_value_size (levels : nat) (v : XpcValue) : outcome PasteboardError Z :=
  let nested (v : XpcValue) := match levels with O => limit "metadata nesting exceeds {MAX_DEPTH} levels" [64] | S levels => estimate_value_size levels v end in
  match v with
  | Null | Bool _ | Int64 _ | Uint64 _ | Double _ | Date _ | Uuid _ => Ok 16
  | Data d => Ok (len d)
  | String s => Ok (len s)
  | Array values => foldM (fun v total => n ← nested v; checked_sum "metadata size overflow" total n) values (len values)
  | Dictionary values =>
      foldM (fun '(key, v) total =>
        total ← checked_sum "metadata size overflow" total (len key);
        n ← nested v; checked_sum "metadata size overflow" total n) values (len values)
  | FileTransfer _ data => nested data
  end.
(** The size of an optional value. *)
Definition optional_size (o : option XpcValue) : outcome PasteboardError Z :=
  n ← transpose (estimate_value_size MAX_DEPTH) o; Ok (default 0 n).

Section texts.
Context `{TF : TextForms}.
Definition parse_uuid (v : XpcValue) : outcome PasteboardError bytes :=
  match v with
  | Uuid u => Ok u
  | String s => match uuid_parse s with Some u => Ok u | None => protocol "invalid pasteboard UUID {:?}" [] end
  | other => protocol ("pasteboard UUID has unexpected type " +:+ xpc_value_kind other) []
  end.
Fixpoint first_uuid (keys : list string) (snapshot root : dict) : outcome PasteboardError (option bytes) :=
  match keys with
  | [] => Ok None
  | key :: keys =>
      match or_else (get key snapshot) (get key root) with
      | Some v => u ← parse_uuid v; Ok (Some u)
      | None => first_uuid keys snapshot root
      end
  end.
Definition parse_optional_uuid (snapshot root : dict) : outcome PasteboardError (option bytes) :=
  first_uuid ["UUID"; "uuid"; "pasteboardUUID"]%string snapshot root.
Definition format_scalar_bounded (v : XpcValue) : bytes :=
  bounded_text match v with
  | String s => s
  | Int64 n | Uint64 n | Date n => print_int n
  | Bool b => print_bool b
  | Double bits => f64_text bits
  | Uuid u => uuid_text u
  | Null => str "null"
  | Data d => str "<data: " ++ print_int (len d) ++ str " bytes>"
  | Array l => str "<array: " ++ print_int (len l) ++ str " values>"
  | Dictionary m => str "<dictionary: " ++ print_int (len m) ++ str " entries>"
  | FileTransfer id _ => str "<file-transfer: " ++ print_int id ++ str ">"
  end.

(** The payload and the bytes of inline data so far. *)
Definition parse_payload (v : XpcValue) (item_index : Z) (total_data_bytes : Z) (limits : PasteboardLimits) : outcome PasteboardError (PasteboardPayload * Z) :=
  match as_dict v with
  | None => protocol "payload for item {item_index} UTI {uti:?} is not a dictionary" [item_index]
  | Some d =>
      match get "data" d with
      | Some (Data data) =>
          total ← checked_sum "pasteboard data size overflow" total_data_bytes (len data);
          if max_data_bytes limits <? total then limit "inline data size {} exceeds limit {}" [total; max_data_bytes limits] else
          Ok (Inline data, total)
      | Some _ => protocol "payload for item {item_index} UTI {uti:?} has non-data `data`" [item_index]
      | None =>
          match get "error" d with
          | Some error => Ok (PayloadError (format_scalar_bounded error), total_data_bytes)
          | None =>
              is_promised ← transpose (parse_bool "promise marker for item {item_index} UTI {uti:?} is not a boolean" [item_index]) (get "isPromised" d);
              is_available ← transpose (parse_bool "availability marker for item {item_index} UTI {uti:?} is not a boolean" [item_index]) (get "isAvailable" d);
              if bool_decide (is_promised = Some false) then protocol "item {item_index} UTI {uti:?} is marked non-promised but has no data" [item_index] else
              if bool_decide (is_available = Some true) then protocol "item {item_index} UTI {uti:?} is marked available but has no data" [item_index] else
              size ← transpose parse_i64 (get "size" d);
              match size with
              | None =>
                  if negb (bool_decide (is_promised = Some true)) && negb (bool_decide (is_available = Some false))
                  then protocol "payload for item {item_index} UTI {uti:?} is neither inline data nor a promise" [item_index]
                  else Ok (Promised None, total_data_bytes)
              | Some size =>
                  if size <? 0 then protocol "promised size for item {item_index} UTI {uti:?} is negative: {size}" [item_index; size] else
                  if max_data_bytes limits <? size then limit "promised size {size} for item {item_index} UTI {uti:?} exceeds limit {}" [size; item_index; max_data_bytes limits] else
                  Ok (Promised (Some size), total_data_bytes)
              end
          end
      end
  end.
Definition parse_string_array (o : option XpcValue) : outcome PasteboardError (list bytes) :=
  match o with
  | None => Ok []
  | Some (Array values) => foldM (fun v l => s ← parse_str "{field}[{index}] is not a string" v; Ok (l ++ [s])) values []
  | Some _ => protocol "{field} is not an array" []
  end.
Definition parse_data (data_map : dict) (index : Z) (limits : PasteboardLimits) (total : Z) : outcome PasteboardError (list PasteboardEntry * Z) :=
  foldM (fun '(uti, datum) '(data, total) =>
    if bool_decide (uti = []) then protocol "pasteboard item {index} contains an empty UTI" [index] else
    '(payload, total) ← parse_payload datum index total limits;
    Ok (data ++ [mkEntry uti payload], total)) data_map ([], total).
(** The counters of representations and of inline bytes. *)
Definition parse_item (v : XpcValue) (index : Z) (limits : PasteboardLimits) (totals : Z * Z) : outcome PasteboardError (PasteboardSnapshotItem * (Z * Z)) :=
  let '(total_representations, total_data_bytes) := totals in
  match as_dict v with
  | None => protocol "pasteboard item {index} is not a dictionary" [index]
  | Some item =>
      types ← parse_string_array (get "types" item);
      data_map ← match get "data" item with
        | None | Some Null => Ok []
        | Some (Dictionary data) => Ok data
        | Some _ => protocol "pasteboard item {index} data is not a dictionary" [index]
        end;
      count ← checked_sum "representation count overflow" total_representations (len data_map);
      count ← checked_sum "representation count overflow" count (len types);
      if max_representations limits <? count
      then limit "representation count {total_representations} exceeds limit {}" [count; max_representations limits] else
      '(data, total_data_bytes) ← parse_data data_map index limits total_data_bytes;
      Ok (mkSnapshotItem index types data, (count, total_data_bytes))
  end.
Fixpoint parse_items (values : list XpcValue) (index : Z) (limits : PasteboardLimits) (totals : Z * Z) : outcome PasteboardError (list PasteboardSnapshotItem) :=
  match values with
  | [] => Ok []
  | v :: values =>
      '(item, totals) ← parse_item v index limits totals;
      items ← parse_items values (index + 1) limits totals; Ok (item :: items)
  end.
(** [None] for [Null]. *)
Definition non_null (o : option XpcValue) : option XpcValue := match o with Some Null => None | o => o end.
Definition parse_snapshot (reply : XpcValue) (limits : PasteboardLimits) : outcome PasteboardError PasteboardSnapshot :=
  match as_dict reply with
  | None => protocol "pasteboard snapshot is not a dictionary" []
  | Some root =>
      command ← transpose (parse_str "pasteboard command is not a string") (get "command" root);
      let snapshot := default root ((get "pasteboard" root : option XpcValue) ≫= as_dict) in
      let metadata := get "metadata" snapshot in
      let source_metadata := non_null (or_else (get "sourceMetadata" snapshot) (get "sourceMetadata" root)) in
      metadata_bytes ← optional_size metadata;
      source_metadata_bytes ← optional_size source_metadata;
      metadata_total ← checked_sum "metadata size overflow" metadata_bytes source_metadata_bytes;
      if max_metadata_bytes limits <? metadata_total
      then limit "metadata size {metadata_total} exceeds limit {}" [metadata_total; max_metadata_bytes limits] else
      uuid ← parse_optional_uuid snapshot root;
      pasteboard_name ← transpose (parse_str "pasteboardName is not a string")
        (or_else (get "pasteboardName" snapshot) ((metadata ≫= as_dict) ≫= get "pasteboardName"));
      change_count ← transpose parse_i64 ((metadata ≫= as_dict) ≫= get "changeCount");
      item_values ← (match get "items" snapshot with
        | None | Some Null => Ok []
        | Some (Array values) => Ok values
        | Some _ => protocol "pasteboard items is not an array" []
        end : outcome PasteboardError (list XpcValue));
      if max_items limits <? len item_values then limit "item count {} exceeds limit {}" [len item_values; max_items limits] else
      items ← parse_items item_values 0 limits (0, 0);
      Ok (mkSnapshot command pasteboard_name change_count uuid metadata source_metadata items)
  end.
End texts.

(** What a snapshot offers. *)
Definition inline (e : PasteboardEntry) : option bytes := match payload e with Inline d => Some d | _ => None end.
Fixpoint first_some {A B} (f : A -> option B) (l : list A) : option B :=
  match l with [] => None | a :: l => match f a with Some b => Some b | None => first_some f l end end.
Definition text (s : PasteboardSnapshot) : option bytes :=
  first_some (fun item => first_some (fun wanted =>
    match List.find (fun e => bool_decide (uti e = wanted)) (entries_of item) ≫= inline with
    | Some bytes => if from_utf8 bytes then Some bytes else None
    | None => None
    end) TEXT_UTIS) (items s).
Definition data_for_uti (s : PasteboardSnapshot) (wanted : bytes) : option bytes :=
  first_some (fun e => if bool_decide (uti e = wanted) then inline e else None) (concat (map entries_of (items s))).
Definition promised_items (s : PasteboardSnapshot) : list PromisedItem :=
  concat (map (fun item => omap (fun e =>
    match payload e with
    | Promised size => if index item <? 2 ^ 63 then Some (mkPromised (index item) (uti e) size) else None
    | _ => None
    end) (entries_of item)) (items s)).
Definition snapshot_entries (s : PasteboardSnapshot) : list (Z * PasteboardEntry) :=
  concat (map (fun item => map (fun e => (index item, e)) (entries_of item)) (items s)).
(** The same from a raw reply, where an empty text does not count. *)
Definition snapshot_dictionary (reply : XpcValue) : option dict :=
  d ← as_dict reply; or_else (get "pasteboard" d ≫= as_dict) (Some d).
Definition as_array (v : XpcValue) : option (list XpcValue) := match v with Array l => Some l | _ => None end.
Definition item_text (utis : list bytes) (item : XpcValue) : option bytes :=
  item ← as_dict item;
  data ← get "data" item;
  data ← as_dict data;
  first_some (fun uti =>
    datum ← imap_lookup uti data;
    datum ← as_dict datum;
    v ← get "data" datum;
    match v with
    | Data bytes => if bool_decide (bytes = []) || negb (from_utf8 bytes) then None else Some bytes
    | _ => None
    end) utis.
Definition snapshot_uti_texts (reply : XpcValue) (utis : list bytes) : option bytes :=
  snapshot ← snapshot_dictionary reply;
  items ← get "items" snapshot;
  items ← as_array items;
  first_some (item_text utis) items.
Definition snapshot_text (reply : XpcValue) : option bytes := snapshot_uti_texts reply TEXT_UTIS.
Definition snapshot_uti_text (reply : XpcValue) (uti : bytes) : option bytes := snapshot_uti_texts reply [uti].

(** *** Requests *)

Record PasteboardItem := mkItem { types : list bytes; data : list (bytes * bytes) }.
Definition item_data (uti data : bytes) : PasteboardItem := mkItem [uti] [(uti, data)].
Definition write_text (text : bytes) (utis : list bytes) : PasteboardItem := mkItem utis (foldl (fun m uti => imap_insert uti text m) [] utis).
Definition text_item (text : bytes) : PasteboardItem := write_text text TEXT_UTIS.
Definition url_item (url : bytes) : PasteboardItem := item_data UTI_URL url.

Definition build_pull_request_with_policy (pasteboard_name : bytes) (policy : DataInclusionPolicy) : XpcValue :=
  Dictionary [(str "command", String PULL_COMMAND); (str "pasteboardName", String pasteboard_name); (str "dataPolicy", to_xpc policy)].
Definition build_pull_request (pasteboard_name : bytes) : XpcValue := build_pull_request_with_policy pasteboard_name AllResolved.
Definition build_autonotify_request (enable : bool) (pasteboard_name : bytes) (policy : option DataInclusionPolicy) : XpcValue :=
  Dictionary [(str "command", String AUTONOTIFY_COMMAND); (str "enable", Bool enable); (str "pasteboardName", String pasteboard_name);
              (str "dataPolicy", match policy with Some p => to_xpc p | None => Null end)].
Definition build_resolve_request (pasteboard_name : bytes) (item_index : Z) (uti : bytes) : XpcValue :=
  Dictionary [(str "command", String RESOLVE_COMMAND); (str "pasteboardName", String pasteboard_name); (str "itemIndex", Int64 item_index); (str "type", String uti)].
Definition wire_datum (d : bytes * bytes) : bytes * XpcValue := (d.1, Dictionary [(str "data", Data d.2)]).
Definition wire_item (item : PasteboardItem) : XpcValue :=
  Dictionary [(str "types", Array (map String (types item))); (str "data", Dictionary (map wire_datum (data item)))].
Definition build_set_request (pasteboard_name : bytes) (items : list PasteboardItem) (source_metadata : option XpcValue) : XpcValue :=
  Dictionary [(str "command", String SET_COMMAND); (str "pasteboardName", String pasteboard_name);
              (str "items", Array (map wire_item items)); (str "sourceMetadata", default Null source_metadata)].
(** The budget of the data of an item. *)
Definition check_data (d : list (bytes * bytes)) (index : Z) (limits : PasteboardLimits) (data_bytes : Z) : outcome PasteboardError Z :=
  foldM (fun '(uti, bytes) data_bytes =>
    if bool_decide (uti = []) then limit "item {index} contains an empty data UTI" [index] else
    data_bytes ← checked_sum "pasteboard data size overflow" data_bytes (len bytes);
    if max_data_bytes limits <? data_bytes then limit "outgoing data size {data_bytes} exceeds limit {}" [data_bytes; max_data_bytes limits] else
    Ok data_bytes) d data_bytes.
Fixpoint check_items (items : list PasteboardItem) (index : Z) (limits : PasteboardLimits) (representations data_bytes : Z) : outcome PasteboardError unit :=
  match items with
  | [] => Ok tt
  | item :: items =>
      count ← checked_sum "representation count overflow" representations (len (types item));
      count ← checked_sum "representation count overflow" count (len (data item));
      if max_representations limits <? count then limit "representation count {representations} exceeds limit {}" [count; max_representations limits] else
      if existsb (fun uti => bool_decide (uti = [])) (types item) then limit "item {index} contains an empty UTI" [index] else
      data_bytes ← check_data (data item) index limits data_bytes;
      check_items items (index + 1) limits count data_bytes
  end.
Definition try_build_set_request (pasteboard_name : bytes) (items : list PasteboardItem) (source_metadata : option XpcValue) (limits : PasteboardLimits) : outcome PasteboardError XpcValue :=
  if max_items limits <? len items then limit "item count {} exceeds limit {}" [len items; max_items limits] else
  metadata_size ← optional_size (non_null source_metadata);
  if max_metadata_bytes limits <? metadata_size then limit "source metadata size {metadata_size} exceeds limit {}" [metadata_size; max_metadata_bytes limits] else
  check_items items 0 limits 0 0 ;;
  Ok (build_set_request pasteboard_name items source_metadata).
Definition validate_resolve_arguments (pasteboard_name : bytes) (item_index : Z) (uti : bytes) : outcome PasteboardError unit :=
  if bool_decide (pasteboard_name = []) then limit "pasteboard name is empty" [] else
  if item_index <? 0 then limit "promise item index must be non-negative, got {item_index}" [item_index] else
  if bool_decide (uti = []) then limit "promise UTI is empty" [] else Ok tt.

(** *** Replies *)

Record PasteboardData := mkData {
  d_name : option bytes; d_index : option Z; d_uti : option bytes; d_uuid : option bytes; d_data : option bytes; d_error : option bytes
}.
Inductive PasteboardEvent := Push (snapshot : PasteboardSnapshot) | DataEvent (d : PasteboardData).

Definition optional_arg (o : option Z) : list Z := match o with Some n => [n] | None => [] end.
Definition has {A} (o : option A) : bool := match o with Some _ => true | None => false end.
Section replies.
Context `{TF : TextForms}.
Definition parse_service_error (error : XpcValue) : PasteboardError :=
  match as_dict error with
  | None => Service (str "unknown") (str "unknown") (str "malformed error value: " ++ format_scalar_bounded error)
  | Some error =>
      let text o := match o ≫= as_str with Some s => Some (bounded_text s) | None => None end in
      Service (default (str "unknown") (text (get "domain" error)))
        (match get "code" error with Some code => format_scalar_bounded code | None => str "unknown" end)
        (default (str "unknown service error")
           (text (user_info ← get "userInfo" error ≫= as_dict; or_else (get "NSLocalizedDescription" user_info) (get "NSDebugDescription" user_info))))
  end.
Definition parse_reply (body : XpcValue) : outcome PasteboardError XpcValue :=
  match as_dict body with
  | None => protocol ("pasteboard reply is not a dictionary: " +:+ xpc_value_kind body) []
  | Some d => match get "error" d with Some error => Err (parse_service_error error) | None => Ok body end
  end.
Definition validate_reply_command (reply : XpcValue) (expected : bytes) : outcome PasteboardError unit :=
  match as_dict reply ≫= get "command" with
  | None => Ok tt
  | Some command =>
      match as_str command with
      | None => protocol "pasteboard reply command is not a string" []
      | Some command => if bool_decide (command = expected) then Ok tt else protocol "expected pasteboard command {expected:?}, got {command:?}" []
      end
  end.
Definition parse_data_reply (reply : XpcValue) (limits : PasteboardLimits) : outcome PasteboardError PasteboardData :=
  match as_dict reply with
  | None => protocol "DATA reply is not a dictionary" []
  | Some d =>
      if match get "command" d with Some command => negb (bool_decide (as_str command = Some DATA_COMMAND)) | None => false end
      then protocol "RESOLVE returned unexpected command {:?}" [] else
      data ← (match get "data" d with
        | None | Some Null => Ok None
        | Some (Data data) =>
            if max_data_bytes limits <? len data then limit "resolved data size {} exceeds limit {}" [len data; max_data_bytes limits] else Ok (Some data)
        | Some _ => protocol "DATA reply has unexpected data value {}" []
        end : outcome PasteboardError (option bytes));
      item_index ← transpose parse_i64 (get "itemIndex" d);
      if match item_index with Some i => i <? 0 | None => false end then protocol "DATA itemIndex is negative: {item_index}" (optional_arg item_index) else
      uti ← transpose (parse_str "DATA type is not a string") (or_else (get "type" d) (get "uti" d));
      pasteboard_name ← transpose (parse_str "DATA pasteboardName is not a string") (get "pasteboardName" d);
      uuid ← parse_optional_uuid d d;
      let error := format_scalar_bounded <$> get "error" d in
      if negb (has data) && negb (has error) && negb (has (get "data" d))
      then protocol "DATA reply contains neither data nor an explicit null data field" [] else
      Ok (mkData pasteboard_name item_index uti uuid data error)
  end.
Definition validate_data_identity (d : PasteboardData) (pasteboard_name : bytes) (item_index : Z) (uti : bytes) : outcome PasteboardError unit :=
  if match d_name d with Some n => negb (bool_decide (n = pasteboard_name)) | None => false end
  then protocol "DATA reply is for pasteboard {reply_name:?}, requested {pasteboard_name:?}" [] else
  if match d_index d with Some i => negb (i =? item_index) | None => false end
  then protocol "DATA reply is for item {reply_index}, requested {item_index}" [item_index] else
  if match d_uti d with Some u => negb (bool_decide (u = uti)) | None => false end
  then protocol "DATA reply is for UTI {reply_uti:?}, requested {uti:?}" [] else Ok tt.
Definition validate_snapshot_uuid (expected : option bytes) (d : PasteboardData) : outcome PasteboardError unit :=
  match expected, d_uuid d with
  | Some expected, Some actual => if bool_decide (expected = actual) then Ok tt else protocol "DATA reply UUID {} does not match snapshot UUID {}" []
  | _, _ => Ok tt
  end.
Definition parse_event (body : XpcValue) (limits : PasteboardLimits) : outcome PasteboardError PasteboardEvent :=
  match (as_dict body ≫= get "command") ≫= as_str with
  | None => protocol "pasteboard event is missing command" []
  | Some command =>
      if bool_decide (command = PUSH_COMMAND) then s ← parse_snapshot body limits; Ok (Push s)
      else if bool_decide (command = DATA_COMMAND) then d ← parse_data_reply body limits; Ok (DataEvent d)
      else protocol "unexpected pasteboard event command {:?}" []
  end.
End replies.

(** *** The client *)

(** A time is in nanoseconds. *)
Record PasteboardClient := mkClient { client : option XpcConnection; timeout : Z; limits : PasteboardLimits }.
Abbreviation pb := (st PasteboardClient PasteboardError).
Definition set_client v (s : PasteboardClient) : PasteboardClient := mkClient v (timeout s) (limits s).
Definition new (c : XpcConnection) : PasteboardClient := mkClient (Some c) (REQUEST_TIMEOUT * 10 ^ 9) default_limits.
Definition with_timeout_and_limits (c : XpcConnection) (timeout : Z) (limits : PasteboardLimits) : PasteboardClient := mkClient (Some c) timeout limits.
Definition set_limits v (s : PasteboardClient) : PasteboardClient := mkClient (client s) (timeout s) v.
Definition timed_out (timeout : Z) : PasteboardError := Timeout (timeout / 10 ^ 9).

(** A message without a body, or with an empty dictionary. *)
Definition populated (m : XpcMessage) : option XpcValue := match body m with Some (Dictionary []) => None | b => b end.
(** Every message takes one of those parked, or its header from what the stream has. *)
Definition stream_fuel (c : XpcConnection) (stream_id : Z) : nat := (length (parked_on (parked c) stream_id) + reply_fuel c stream_id)%nat.

Section calls.
Context `{TF : TextForms}.
(** The rest of the loop of [receive_reply], once the stream has given [r]. *)
Definition heard (rest : invocation -> XpcConnection -> XpcConnection * outcome PasteboardError XpcValue)
  (r : XpcConnection * (invocation * outcome XpcError (option XpcMessage))) : XpcConnection * outcome PasteboardError XpcValue :=
  match r with
  | (c, (_, Ok None)) => (c, protocol "pasteboard service closed before sending a populated reply" [])
  | (c, (i, Ok (Some m))) => match populated m with None => rest i c | Some b => (c, parse_reply b) end
  | (c, (_, Err e)) => (c, Err (XpcFailed e))
  | (c, (_, Panic)) => (c, Panic)
  | (c, (_, Pending)) => (c, Pending)
  | (c, (_, OutOfFuel)) => (c, OutOfFuel)
  end.
Fixpoint receive_from (fuel : nat) (request : XpcValue) (i : invocation) (c : XpcConnection) : XpcConnection * outcome PasteboardError XpcValue :=
  match fuel with
  | O => (c, OutOfFuel)
  | S fuel => heard (receive_from fuel request) (stream_invoke request i c)
  end.
(** The first pass sends the request. *)
Definition receive_reply (request : XpcValue) (i : invocation) (c : XpcConnection) : XpcConnection * outcome PasteboardError XpcValue :=
  heard (fun i c => receive_from (stream_fuel c STREAM_SERVER_CLIENT) request i c) (stream_invoke request i c).
Context (fires : bool).
Definition send_receive (request : XpcValue) : pb XpcValue := fun s =>
  match client s with
  | None => (s, Err Closed)
  | Some c =>
      match receive_reply request Requested c with
      | (c, Pending) => if fires then (set_client None s, Err (timed_out (timeout s))) else (set_client (Some c) s, Pending)
      | (c, o) => (set_client (Some c) s, o)
      end
  end.
Definition get_named_with_policy (pasteboard_name : bytes) (policy : DataInclusionPolicy) : pb XpcValue :=
  st_lift (validate policy) ;;
  reply ← send_receive (build_pull_request_with_policy pasteboard_name policy);
  st_lift (validate_reply_command reply PULL_REPLY_COMMAND) ;;
  mret reply.
Definition get_named (pasteboard_name : bytes) : pb XpcValue := get_named_with_policy pasteboard_name AllResolved.
Definition get_general : pb XpcValue := get_named GENERAL_PASTEBOARD.
Definition get_with_policy (pasteboard_name : bytes) (policy : DataInclusionPolicy) : pb PasteboardSnapshot :=
  st_lift (validate policy) ;;
  reply ← send_receive (build_pull_request_with_policy pasteboard_name policy);
  s ← st_get;
  st_lift (parse_snapshot reply (limits s)).
Definition get_text_named (pasteboard_name : bytes) : pb (option bytes) := reply ← get_named pasteboard_name; mret (snapshot_text reply).
Definition get_text : pb (option bytes) := get_text_named GENERAL_PASTEBOARD.
Definition get_url_named (pasteboard_name : bytes) : pb (option bytes) := reply ← get_named pasteboard_name; mret (snapshot_uti_text reply UTI_URL).
Definition get_url : pb (option bytes) := get_url_named GENERAL_PASTEBOARD.
Definition set_items (pasteboard_name : bytes) (items : list PasteboardItem) (source_metadata : option XpcValue) : pb XpcValue :=
  s ← st_get;
  request ← st_lift (try_build_set_request pasteboard_name items source_metadata (limits s));
  reply ← send_receive request;
  st_lift (validate_reply_command reply SET_REPLY_COMMAND) ;;
  mret reply.
Definition set_named (pasteboard_name : bytes) (items : list PasteboardItem) : pb XpcValue := set_items pasteboard_name items None.
Definition set_general (items : list PasteboardItem) : pb XpcValue := set_named GENERAL_PASTEBOARD items.
Definition set_text_named (pasteboard_name text : bytes) : pb XpcValue := set_named pasteboard_name [text_item text].
Definition set_text (text : bytes) : pb XpcValue := set_text_named GENERAL_PASTEBOARD text.
Definition set_url_named (pasteboard_name url : bytes) : pb XpcValue := set_named pasteboard_name [url_item url].
Definition set_url (url : bytes) : pb XpcValue := set_url_named GENERAL_PASTEBOARD url.
Definition resolve_data (pasteboard_name : bytes) (item_index : Z) (uti : bytes) : pb PasteboardData :=
  st_lift (validate_resolve_arguments pasteboard_name item_index uti) ;;
  reply ← send_receive (build_resolve_request pasteboard_name item_index uti);
  s ← st_get;
  d ← st_lift (parse_data_reply reply (limits s));
  st_lift (validate_data_identity d pasteboard_name item_index uti) ;;
  mret d.
Definition resolve (pasteboard_name : bytes) (item_index : Z) (uti : bytes) : pb (option bytes) := d ← resolve_data pasteboard_name item_index uti; mret (d_data d).
Definition resolve_promise (pasteboard_name : bytes) (promise : PromisedItem) : pb PasteboardData := resolve_data pasteboard_name (item_index promise) (promised_uti promise).
Definition resolve_data_for_snapshot (pasteboard_name : bytes) (snapshot : PasteboardSnapshot) (item_index : Z) (uti : bytes) : pb PasteboardData :=
  d ← resolve_data pasteboard_name item_index uti;
  st_lift (validate_snapshot_uuid (snapshot_uuid snapshot) d) ;;
  mret d.
Definition resolve_promise_for_snapshot (pasteboard_name : bytes) (snapshot : PasteboardSnapshot) (promise : PromisedItem) : pb PasteboardData :=
  resolve_data_for_snapshot pasteboard_name snapshot (item_index promise) (promised_uti promise).

(** *** The subscription *)

Record PasteboardSubscription := mkSubscription {
  s_client : option XpcConnection; s_name : bytes; s_timeout : Z; s_limits : PasteboardLimits; closed : bool; pending : list PasteboardEvent
}.
Abbreviation sub := (st PasteboardSubscription PasteboardError).
Definition set_s_client v (s : PasteboardSubscription) : PasteboardSubscription := mkSubscription v (s_name s) (s_timeout s) (s_limits s) (closed s) (pending s).
Definition set_closed v (s : PasteboardSubscription) : PasteboardSubscription := mkSubscription (s_client s) (s_name s) (s_timeout s) (s_limits s) v (pending s).
Definition set_pending v (s : PasteboardSubscription) : PasteboardSubscription := mkSubscription (s_client s) (s_name s) (s_timeout s) (s_limits s) (closed s) v.
(** The client moves into the call: if the call fails or is dropped, it is gone. *)
Definition subscribe (pasteboard_name : bytes) (policy : option DataInclusionPolicy) : pb PasteboardSubscription :=
  _ ← st_lift (transpose validate policy);
  s ← st_get;
  match client s with
  | None => st_fail Closed
  | Some c =>
      st_mod (set_client None) ;;
      match send (build_autonotify_request true pasteboard_name policy) c with
      | (c, Ok _) => mret (mkSubscription (Some c) pasteboard_name (timeout s) (limits s) false [])
      | (_, Err e) => st_fail (XpcFailed e)
      | (_, Pending) => if fires then st_fail (timed_out (timeout s)) else st_lift Pending
      | (_, Panic) => st_lift Panic
      | (_, OutOfFuel) => st_lift OutOfFuel
      end
  end.
Definition listen_for_changes := subscribe.
Definition is_closed (s : PasteboardSubscription) : bool := closed s || negb (has (s_client s)).
(** [self.client.take(); self.closed = true] *)
Definition shut (s : PasteboardSubscription) : PasteboardSubscription := set_closed true (set_s_client None s).
Fixpoint read_wire_loop (fuel : nat) : sub PasteboardEvent := fun s =>
  match fuel with
  | O => (s, OutOfFuel)
  | S fuel =>
      match s_client s with
      | None => (s, Err Closed)
      | Some c =>
          match recv_client_server c with
          | (c, Ok m) =>
              let s := set_s_client (Some c) s in
              match populated m with
              | None => read_wire_loop fuel s
              | Some b => match parse_event b (s_limits s) with Err e => (shut s, Err e) | o => (s, o) end
              end
          | (_, Err e) => (shut s, Err (XpcFailed e))
          | (c, Pending) => if fires then (shut s, Err (timed_out (s_timeout s))) else (set_s_client (Some c) s, Pending)
          | (c, Panic) => (set_s_client (Some c) s, Panic)
          | (c, OutOfFuel) => (set_s_client (Some c) s, OutOfFuel)
          end
      end
  end.
Definition wire_fuel (s : PasteboardSubscription) : nat := match s_client s with Some c => stream_fuel c STREAM_CLIENT_SERVER | None => 1%nat end.
Definition read_wire_event : sub PasteboardEvent := s ← st_get; read_wire_loop (wire_fuel s).
Definition next_event : sub PasteboardEvent :=
  s ← st_get;
  match pending s with
  | e :: rest => st_mod (set_pending rest) ;; mret e
  | [] => read_wire_event
  end.
(** The loop of [next_push]; [deferred] is its own, and goes with it if it is dropped. *)
Fixpoint push_loop (fuel : nat) (deferred : list PasteboardEvent) : sub PasteboardSnapshot := fun s =>
  match fuel with
  | O => (s, OutOfFuel)
  | S fuel =>
      match next_event s with
      | (s, Ok (Push snapshot)) => (set_pending (deferred ++ pending s) s, Ok snapshot)
      | (s, Ok (DataEvent d)) =>
          if max_events (s_limits s) <=? len deferred then (shut s, limit "pending event count reached limit {}" [max_events (s_limits s)])
          else push_loop fuel (deferred ++ [DataEvent d]) s
      | (s, Err e) => (set_pending (deferred ++ pending s) s, Err e)
      | (s, Panic) => (s, Panic)
      | (s, Pending) => (s, Pending)
      | (s, OutOfFuel) => (s, OutOfFuel)
      end
  end.
Definition next_push : sub PasteboardSnapshot := s ← st_get; push_loop (length (pending s) + wire_fuel s) [].
Definition s_resolve (pasteboard_name : bytes) (item_index : Z) (uti : bytes) : sub PasteboardData := fun s =>
  match validate_resolve_arguments pasteboard_name item_index uti with
  | Err e => (s, Err e)
  | _ =>
      match s_client s with
      | None => (s, Err Closed)
      | Some c =>
          match receive_reply (build_resolve_request pasteboard_name item_index uti) Requested c with
          | (c, Ok reply) =>
              (set_s_client (Some c) s,
               d ← parse_data_reply reply (s_limits s); validate_data_identity d pasteboard_name item_index uti ;; Ok d)
          | (c, Pending) => if fires then (shut s, Err (timed_out (s_timeout s))) else (set_s_client (Some c) s, Pending)
          | (c, Err e) => (set_s_client (Some c) s, Err e)
          | (c, Panic) => (set_s_client (Some c) s, Panic)
          | (c, OutOfFuel) => (set_s_client (Some c) s, OutOfFuel)
          end
      end
  end.
Definition s_resolve_promise (promise : PromisedItem) : sub PasteboardData := s ← st_get; s_resolve (s_name s) (item_index promise) (promised_uti promise).
Definition s_resolve_for_snapshot (snapshot : PasteboardSnapshot) (item_index : Z) (uti : bytes) : sub PasteboardData :=
  s ← st_get;
  d ← s_resolve (s_name s) item_index uti;
  st_lift (validate_snapshot_uuid (snapshot_uuid snapshot) d) ;;
  mret d.
Definition s_resolve_promise_for_snapshot (snapshot : PasteboardSnapshot) (promise : PromisedItem) : sub PasteboardData :=
  s_resolve_for_snapshot snapshot (item_index promise) (promised_uti promise).
Definition enqueue (event : PasteboardEvent) : sub unit := fun s =>
  if closed s then (s, Err Closed)
  else if max_events (s_limits s) <=? len (pending s) then (shut s, limit "pending event count reached limit {}" [max_events (s_limits s)])
  else (set_pending (pending s ++ [event]) s, Ok tt).
Definition unsubscribe : sub unit := fun s =>
  if closed s then (s, Ok tt) else
  match s_client s with
  | None => (set_closed true s, Ok tt)
  | Some c =>
      match send (build_autonotify_request false (s_name s) None) c with
      | (_, Ok _) => (shut s, Ok tt)
      | (_, Err e) => (shut s, Err (XpcFailed e))
      | (_, Pending) => if fires then (shut s, Err (timed_out (s_timeout s))) else (set_s_client None s, Pending)
      | (_, Panic) => (set_s_client None s, Panic)
      | (_, OutOfFuel) => (set_s_client None s, OutOfFuel)
      end
  end.
Definition close : sub unit := unsubscribe.
(** What the task that [drop] spawns does with the connection, where there is a runtime. *)
Definition drop_subscription (s : PasteboardSubscription) : option XpcConnection :=
  if closed s then None else (fun c => (send (build_autonotify_request false (s_name s) None) c).1) <$> s_client s.
End calls.
End Pasteboard.
