(* ===== verification/PasteboardSpec.v ===== *)
(** What the pasteboard client promises ([Pasteboard]).

    - A request to set a pasteboard that the client accepts reads back under the same limits,
      and a snapshot that is read stays within them.
    - The reply of a request is the first message with a body on the reply stream.
    - A subscription, after any calls: its queue is bounded, a closed one stays closed, its
      calls come back, and [next_push] takes the events in order. *)

From stdpp Require Import relations.
From S2P Require Import Prelude Utf8 Text XpcMessage H2Framer H2Read H2Inv H2Conn H2Recv H2Mark XpcPending XpcConn XpcConnSpec Pasteboard.

Module PasteboardSpec.
Import Xpc H2 H2Read H2Inv H2Conn H2Recv H2Mark Pending XpcConn XpcConnSpec Text Pasteboard.

(** ** Reading snapshots *)

Lemma checked_sum_ok text a b n : checked_sum text a b = Ok n <-> n = a + b /\ a + b <= usize_max.
Proof. unfold checked_sum, limit. destruct (Z.ltb_spec usize_max (a + b)); split; [done|lia|intros [= <-]; lia|by intros [-> _]]. Qed.
Lemma checked_sum_value text a b : a + b <= usize_max -> checked_sum text a b = Ok (a + b).
Proof. intros H. by apply checked_sum_ok. Qed.
(** [ok H] takes the value out of the first step of a computation that succeeded. *)
Ltac ok_step H :=
  match type of H with
  | (?o ≫= _) = Ok _ => let E := fresh "E" in destruct o as [?| | | |] eqn:E; cbn [mbind outcome_bind] in H; [|discriminate H..]
  | (if ?b then _ else _) = Ok _ => let E := fresh "E" in destruct b eqn:E; try discriminate H
  end.
Ltac ok_steps H := repeat (ok_step H; simpl in H).

Lemma foldM_snoc {E A B} (f : A -> outcome E B) (l : list A) (acc : list B) r :
  foldM (fun a acc => b ← f a; Ok (acc ++ [b])) l acc = Ok r <-> exists bs, r = acc ++ bs /\ Forall2 (fun a b => f a = Ok b) l bs.
Proof.
  revert acc. induction l as [|a l IH]; intros acc; cbn [foldM].
  - split; [intros [= <-]; exists []; by rewrite app_nil_r|]. intros (bs & -> & H). inversion H. by rewrite app_nil_r.
  - split.
    + destruct (f a) as [b| | | |] eqn:Ef; cbn; try done. intros (bs & -> & H)%IH. exists (b :: bs). rewrite <- app_assoc. by split; [|constructor].
    + intros (bs & -> & H). inversion H as [|? b ? bs' Hb Hbs]; subst. rewrite Hb. cbn. apply IH. exists bs'. by rewrite <- app_assoc.
Qed.
Lemma parse_types_wire l : parse_string_array (Some (Array (map String l))) = Ok l.
Proof.
  cbn [parse_string_array]. apply foldM_snoc. exists l. split; [done|]. induction l; constructor; done.
Qed.

Section texts.
Context `{TF : TextForms}.

(** What is read of an item that was written. *)
Definition read_entry (d : bytes * bytes) : PasteboardEntry := mkEntry d.1 (Inline d.2).
Definition read_item (index : Z) (item : PasteboardItem) : PasteboardSnapshotItem :=
  mkSnapshotItem index (types item) (map read_entry (data item)).
Definition read_items (items : list PasteboardItem) : list PasteboardSnapshotItem := imap (fun i item => read_item (Z.of_nat i) item) items.

Lemma parse_data_wire d index lim total total' acc :
  check_data d index lim total = Ok total' ->
  foldM (fun '(uti, datum) '(data, total) =>
    if bool_decide (uti = []) then protocol "pasteboard item {index} contains an empty UTI" [index] else
    '(payload, total) ← parse_payload datum index total lim;
    Ok (data ++ [mkEntry uti payload], total)) (map wire_datum d) (acc, total) = Ok (acc ++ map read_entry d, total').
Proof.
  revert total acc. induction d as [|[uti bs] d IH]; intros total acc; cbn [check_data foldM map].
  { intros [= ->]. by rewrite app_nil_r. }
  change (wire_datum (uti, bs)) with (uti, Dictionary [(str "data", Data bs)]). cbv iota beta. destruct (bool_decide (uti = [])); [done|].
  destruct (checked_sum _ total (len bs)) as [n| | | |] eqn:En; try done. cbn [mbind outcome_bind].
  destruct (Z.ltb_spec (max_data_bytes lim) n); [done|]. intros Hd.
  pose proof (IH n (acc ++ [mkEntry uti (Inline bs)]) Hd) as Hi. rewrite <- app_assoc in Hi. cbn [mbind outcome_bind]. cbn [app] in Hi.
  assert (parse_payload (Dictionary [(str "data", Data bs)]) index total lim = Ok (Inline bs, n)) as ->; [|exact Hi].
  unfold parse_payload. cbn [as_dict]. unfold get. cbn [imap_lookup]. rewrite decide_True by done. rewrite En. cbn.
  by destruct (Z.ltb_spec (max_data_bytes lim) n); [lia|].
Qed.
Lemma parse_items_wire items index lim count total :
  0 <= count -> check_items items index lim count total = Ok tt ->
  parse_items (map wire_item items) index lim (count, total) = Ok (imap (fun i item => read_item (index + Z.of_nat i) item) items).
Proof.
  revert index count total. induction items as [|item items IH]; intros index count total Hc; cbn [check_items map parse_items]; [done|].
  intros H. ok_steps H. apply checked_sum_ok in E as [-> Hle1], E0 as [-> Hle2]. pose proof (len_nonneg (types item)). pose proof (len_nonneg (data item)).
  assert (parse_item (wire_item item) index lim (count, total) =
    Ok (read_item index item, (count + len (data item) + len (types item), a1))) as ->.
  { unfold parse_item, wire_item. cbn [as_dict].
    set (d := [_; _] : dict). change (get "types" d) with (Some (Array (map String (types item)))).
    change (get "data" d) with (Some (Dictionary (map wire_datum (data item)))). rewrite parse_types_wire. cbn [mbind outcome_bind].
    assert (len (map wire_datum (data item)) = len (data item)) as -> by (unfold len; by rewrite length_map).
    rewrite checked_sum_value by lia. cbn [mbind outcome_bind]. rewrite checked_sum_value by lia. cbn [mbind outcome_bind].
    replace (count + len (data item) + len (types item)) with (count + len (types item) + len (data item)) by lia. rewrite E1.
    unfold parse_data. rewrite (parse_data_wire (data item) index lim total a1 []) by done. done. }
  cbn [mbind outcome_bind]. replace (count + len (data item) + len (types item)) with (count + len (types item) + len (data item)) by lia.
  rewrite (IH (index + 1)) by (done || lia). cbn. f_equal. f_equal; [by rewrite Z.add_0_r|]. apply imap_ext. intros i x _. cbn. f_equal. lia.
Qed.

(** What the client accepts to put on a pasteboard reads back: a request that
    [try_build_set_request] builds is a snapshot within the same limits, with the name, the
    source metadata unless it is null, and each item with its types and its data inline. *)
Theorem set_request_reads_back name items source lim request :
  max_metadata_bytes lim <= usize_max ->
  try_build_set_request name items source lim = Ok request ->
  parse_snapshot request lim = Ok (mkSnapshot (Some SET_COMMAND) (Some name) None None None (non_null source) (read_items items)).
Proof.
  intros Hu H. unfold try_build_set_request in H. ok_steps H. injection H as <-. destruct a0. apply Z.ltb_ge in E, E1.
  unfold parse_snapshot, build_set_request. cbn [as_dict]. set (root := [_; _; _; _] : dict).
  change (get "command" root) with (Some (String SET_COMMAND)). change (get "pasteboard" root) with (@None XpcValue). cbn [mbind option_bind default].
  change (get "metadata" root) with (@None XpcValue). change (get "sourceMetadata" root) with (Some (default Null source)).
  assert (parse_optional_uuid root root = Ok None) as -> by done. change (get "pasteboardName" root) with (Some (String name)).
  change (get "items" root) with (Some (Array (map wire_item items))).
  assert (non_null (Some (default Null source)) = non_null source) as Hs by (by destruct source). cbn [or_else]. rewrite Hs, E0.
  cbn [transpose mbind outcome_bind parse_str as_str optional_size default]. change (optional_size None) with (Ok 0 : outcome PasteboardError Z).
  cbn [mbind outcome_bind]. rewrite checked_sum_value by lia. cbn [mbind outcome_bind]. rewrite Z.add_0_l, (proj2 (Z.ltb_ge _ _) E1).
  cbn [mbind outcome_bind option_bind or_else]. assert (len (map wire_item items) = len items) as -> by (unfold len; by rewrite length_map).
  rewrite (proj2 (Z.ltb_ge _ _) E). cbn [mbind outcome_bind]. by rewrite (parse_items_wire items 0 lim 0 0 ltac:(done) E2).
Qed.

(** *** Budgets *)

Definition inline_size (e : PasteboardEntry) : Z := match payload e with Inline d => len d | _ => 0 end.
Definition item_size (i : PasteboardSnapshotItem) : Z := lsum inline_size (entries_of i).
Definition representations (i : PasteboardSnapshotItem) : Z := len (item_types i) + len (entries_of i).
(** An entry that a reader may rely on. *)
Definition entry_ok (lim : PasteboardLimits) (e : PasteboardEntry) : Prop :=
  uti e <> [] /\ match payload e with Promised (Some size) => 0 <= size <= max_data_bytes lim | _ => True end.
Definition item_ok (lim : PasteboardLimits) (i : PasteboardSnapshotItem) : Prop := Forall (entry_ok lim) (entries_of i).

Lemma parse_payload_ok v index total lim p total' :
  parse_payload v index total lim = Ok (p, total') ->
  (forall uti, uti <> [] -> entry_ok lim (mkEntry uti p)) /\ total' = total + inline_size (mkEntry [] p) /\ (total <= max_data_bytes lim -> total' <= max_data_bytes lim).
Proof.
  unfold parse_payload. destruct (as_dict v) as [d|]; [|done]. destruct (get "data" d) as [dv|].
  { destruct dv; try done. intros H. ok_steps H. apply checked_sum_ok in E as [-> _]. apply Z.ltb_ge in E0. injection H as <- <-. done. }
  destruct (get "error" d); [intros [= <- <-]; by rewrite Z.add_0_r|].
  intros H. ok_steps H. destruct a1 as [size|]; ok_steps H; injection H as <- <-; rewrite Z.add_0_r; unfold entry_ok; cbn; [|done].
  split; [|done]. intros u Hu. split; [done|lia].
Qed.
Lemma parse_data_ok d index lim total l total' :
  parse_data d index lim total = Ok (l, total') ->
  Forall (entry_ok lim) l /\ map uti l = map fst d /\ total' = total + lsum inline_size l /\ (total <= max_data_bytes lim -> total' <= max_data_bytes lim).
Proof.
  unfold parse_data. set (f := fun _ : bytes * XpcValue => _).
  cut (forall acc, foldM f d (acc, total) = Ok (l, total') -> exists r, l = acc ++ r /\ Forall (entry_ok lim) r /\ map uti r = map fst d /\
    total' = total + lsum inline_size r /\ (total <= max_data_bytes lim -> total' <= max_data_bytes lim)).
  { intros Hc (r & -> & Hr)%Hc. exact Hr. }
  revert total. induction d as [|[u v] d IH]; intros total acc; cbn [foldM].
  { intros [= <- <-]. exists []. rewrite app_nil_r. split_and!; [done|constructor|done|unfold lsum; cbn; lia|done]. }
  destruct (f (u, v) (acc, total)) as [[l1 t1]| | | |] eqn:Ef; cbn [mbind outcome_bind]; try (intros Hx; discriminate Hx).
  unfold f in Ef. destruct (bool_decide_reflect (u = [])) as [|Hne]; [discriminate Ef|].
  destruct (parse_payload v index total lim) as [[p t]| | | |] eqn:Ep; try discriminate Ef. cbn [mbind outcome_bind] in Ef. injection Ef as <- <-.
  apply parse_payload_ok in Ep as (He & Ht & Hm). intros (r & -> & Hr & Hu & Ht' & Hm')%IH. exists (mkEntry u p :: r).
  rewrite <- app_assoc. split; [done|]. split; [constructor; [by apply He|done]|]. cbn [map fst uti]. split; [by rewrite Hu|].
  split; [|tauto]. unfold lsum in *. cbn [foldr]. change (inline_size (mkEntry u p)) with (inline_size (mkEntry [] p)). lia.
Qed.
Lemma parse_item_ok v index lim count total item count' total' :
  parse_item v index lim (count, total) = Ok (item, (count', total')) ->
  index = Pasteboard.index item /\ item_ok lim item /\ count' = count + representations item /\ count' <= max_representations lim /\
  total' = total + item_size item /\ (total <= max_data_bytes lim -> total' <= max_data_bytes lim).
Proof.
  unfold parse_item. destruct (as_dict v) as [d|]; [|done]. intros H. ok_steps H.
  rename a into ts, a0 into data_map. destruct a3 as [l t]. injection H as <- <- <-. apply checked_sum_ok in E1 as [-> _], E2 as [-> _].
  apply parse_data_ok in E4 as (Hl & Hu & Ht & Hm). apply (f_equal length) in Hu. rewrite !length_map in Hu. cbn. unfold representations, item_size. cbn.
  split_and!; try done; unfold len in *; lia.
Qed.
Lemma parse_items_ok values lim index count total items :
  total <= max_data_bytes lim -> count <= max_representations lim ->
  parse_items values index lim (count, total) = Ok items ->
  Forall (item_ok lim) items /\ map Pasteboard.index items = seqZ index (len values) /\
  count + lsum representations items <= max_representations lim /\ total + lsum item_size items <= max_data_bytes lim.
Proof.
  revert index count total items. induction values as [|v values IH]; intros index count total items Ht Hc; cbn [parse_items].
  { intros [= <-]. unfold lsum. cbn. split_and!; [constructor|done|lia|lia]. }
  intros H. ok_step H. destruct a as [item [count' total']]. cbn [mbind outcome_bind] in H. ok_steps H. injection H as <-.
  apply parse_item_ok in E as (-> & Hi & -> & Hc' & -> & Ht'). apply IH in E0 as (Hf & Hx & Hlc & Hlt); [|auto..].
  unfold lsum in *. cbn [foldr]. split_and!; [by constructor| |lia|lia].
  cbn [map]. rewrite Hx. rewrite (seqZ_cons _ (len (v :: values))) by (unfold len; cbn; lia). f_equal. f_equal; unfold len; cbn; lia.
Qed.

(** C32. A snapshot that is read stays within the limits, whatever the service sent: the items
    are at most [max_items] and numbered from 0, their types and representations together at
    most [max_representations], their inline data at most [max_data_bytes]; every UTI is
    non-empty and every promised size is between 0 and the limit on the data. *)
Theorem snapshot_within_limits reply lim s :
  0 <= max_representations lim -> 0 <= max_data_bytes lim ->
  parse_snapshot reply lim = Ok s ->
  len (items s) <= max_items lim /\ map Pasteboard.index (items s) = seqZ 0 (len (items s)) /\
  lsum representations (items s) <= max_representations lim /\ lsum item_size (items s) <= max_data_bytes lim /\
  Forall (item_ok lim) (items s).
Proof.
  intros Hr Hd. unfold parse_snapshot. destruct (as_dict reply) as [root|]; [|done]. intros H. ok_steps H. injection H as <-. cbn [items].
  match goal with E : parse_items ?v _ _ _ = Ok _ |- _ => apply parse_items_ok in E as (Hi & Hx & Hc & Ht); [|done..]; rename v into values end.
  assert (forall l, map Pasteboard.index l = seqZ 0 (len values) -> len l = len values) as Hl.
  { intros l Hs%(f_equal length). rewrite length_map, length_seqZ in Hs. unfold len in *. lia. }
  rewrite (Hl _ Hx). split_and!; try done; lia.
Qed.
End texts.

(** ** Messages taken from the connection *)

Section calls.
Context `{TF : TextForms} `{A0 : !Allocation} `{L0 : !AllocationLaws A0}.

Lemma fetched_app id ms1 ms2 f1 f2 f3 : fetched id ms1 f1 f2 -> fetched id ms2 f2 f3 -> fetched id (ms1 ++ ms2) f1 f3.
Proof.
  intros (r1 & H1 & M1) (r2 & H2 & M2). exists (r1 ++ r2). split; [by apply Forall2_app|]. rewrite concat_app. by eapply moved_trans.
Qed.
Definition ignored (ms : list XpcMessage) : Prop := Forall (fun m => populated m = None) ms.

Section limits.
Context (sl cl : Z) (Hmax : 0 <= sl).
(** [ms] are the next messages of a stream: those parked, oldest first, then those to come. *)
Definition next_messages (id : Z) (ms : list XpcMessage) (c c' : XpcConnection) : Prop :=
  exists taken fresh rest, ms = taken ++ fresh /\ parked_on (parked c) id = taken ++ rest /\ (fresh = [] \/ rest = []) /\
    fetched id fresh (framer c) (framer c') /\ holds sl cl id rest c c'.
Lemma next_messages_nil id c : CInv sl cl c -> next_messages id [] c c.
Proof.
  intros (_ & Ha & _). exists [], [], (parked_on (parked c) id). split_and!; try done; [by left|by apply fetched_nil|split; [done|by apply requeued_refl]].
Qed.
Lemma next_messages_cons id m ms c c1 c2 :
  next_message sl cl id m c c1 -> next_messages id ms c1 c2 -> next_messages id (m :: ms) c c2.
Proof.
  intros Hm (taken & fresh & rest & -> & Hp & Hor & Hf & Hh). unfold next_message in Hm.
  destruct (parked_on (parked c) id) as [|m' q] eqn:Eq.
  - destruct Hm as [Hf1 Hh1]. pose proof Hh1 as [_ Hq%requeued_at]. rewrite Hp in Hq. apply app_eq_nil in Hq as [-> ->].
    exists [], (m :: fresh), []. split_and!; try done; [by right|exact (fetched_app id [m] fresh _ _ _ Hf1 Hf)|by eapply holds_trans..].
  - destruct Hm as (-> & Hf1 & Hh1). pose proof Hh1 as [_ Hq%requeued_at]. rewrite Hp in Hq. subst q.
    exists (m' :: taken), fresh, rest. split_and!; try done; [exact (fetched_app id [] fresh _ _ _ Hf1 Hf)|by eapply holds_trans..].
Qed.
Lemma next_message_fuel id m c c' : next_message sl cl id m c c' -> (stream_fuel c' id < stream_fuel c id)%nat.
Proof.
  unfold next_message, stream_fuel, reply_fuel. fold (avail (framer c) id) (avail (framer c') id).
  destruct (parked_on (parked c) id) as [|m' q].
  - intros [(raws & Hr & Hm) [_ ->%requeued_at]]. inversion Hr as [|raw ? raws' ? [Hw Hd] Hr']; subst. inversion Hr'; subst.
    assert (took id m (framer c) (framer c')) as Ht%took_ge by (exists raw; cbn [concat] in Hm; rewrite app_nil_r in Hm; done).
    unfold avail in *. cbn [length]. lia.
  - intros (_ & (raws & Hr & Hm) & [_ ->%requeued_at]). inversion Hr; subst. apply moved_avail in Hm. unfold avail in *. cbn [length concat] in *. lia.
Qed.

(** *** The reply of a request *)

(** What the loop makes of the messages it takes. *)
Definition replies (c c' : XpcConnection) (o : outcome PasteboardError XpcValue) : Prop :=
  match o with
  | Pending | Err (XpcFailed _) => True
  | Panic | OutOfFuel => False
  | Ok _ | Err _ =>
      exists ms m b, next_messages STREAM_SERVER_CLIENT (ms ++ [m]) c c' /\ ignored ms /\ populated m = Some b /\ parse_reply b = o
  end.
Lemma replies_skip m c c1 c2 o : populated m = None -> next_message sl cl STREAM_SERVER_CLIENT m c c1 -> replies c1 c2 o -> replies c c2 o.
Proof.
  intros Hp Hm. unfold replies.
  assert ((exists ms m' b, next_messages STREAM_SERVER_CLIENT (ms ++ [m']) c1 c2 /\ ignored ms /\ populated m' = Some b /\ parse_reply b = o) ->
    exists ms m' b, next_messages STREAM_SERVER_CLIENT (ms ++ [m']) c c2 /\ ignored ms /\ populated m' = Some b /\ parse_reply b = o).
  { intros (ms & m' & b & Hn & Hi & Hb & Ho). exists (m :: ms), m', b. split_and!; [by eapply (next_messages_cons _ m)|by constructor|done|done]. }
  destruct o as [v|[]| | |]; auto.
Qed.
Lemma parse_reply_replies m b c c' :
  CInv sl cl c' -> populated m = Some b -> next_message sl cl STREAM_SERVER_CLIENT m c c' -> replies c c' (parse_reply b).
Proof.
  intros Hc Hb Hm. assert (exists ms m' b', next_messages STREAM_SERVER_CLIENT (ms ++ [m']) c c' /\ ignored ms /\ populated m' = Some b' /\ parse_reply b' = parse_reply b) as H.
  { exists [], m, b. split_and!; [|constructor|done|done]. eapply next_messages_cons; [exact Hm|by apply next_messages_nil]. }
  unfold replies. unfold parse_reply, parse_service_error, protocol in *. destruct (as_dict b) as [d|]; [|exact H].
  destruct (get "error" d) as [e|]; [|exact H]. by destruct (as_dict e).
Qed.
Lemma receive_from_spec fuel request c :
  (stream_fuel c STREAM_SERVER_CLIENT <= fuel)%nat -> CInv sl cl c ->
  let '(c', o) := receive_from fuel request Streaming c in CInv sl cl c' /\ replies c c' o.
Proof.
  revert c. induction fuel as [|fuel IH]; intros c Hf Hc; [unfold stream_fuel, reply_fuel in Hf; lia|]. cbn [receive_from].
  unfold stream_invoke, stream_invoke_with_flags, advance.
  pose proof (recv_on_spec sl cl Hmax STREAM_SERVER_CLIENT c Hc) as H. unfold wpx in H. fold recv in H.
  destruct (recv c) as [c1 [m|e| | |]]; cbn [heard]; try done; [|by split; [apply H|]..].
  destruct H as (Hc1 & _ & _ & Hm). destruct (populated m) as [b|] eqn:Eb.
  - split; [done|by eapply parse_reply_replies].
  - pose proof (next_message_fuel _ _ _ _ Hm). specialize (IH c1 ltac:(lia) Hc1). destruct (receive_from fuel request Streaming c1) as [c2 o].
    split; [apply IH|]. by eapply replies_skip; [..|apply IH].
Qed.
(** The request went out, and the messages were taken after that. *)
Definition invoked (request : XpcValue) (c c' : XpcConnection) (o : outcome PasteboardError XpcValue) : Prop :=
  match o with
  | Pending | Err (XpcFailed _) => True
  | _ => exists c1 k, sent_message request WANTING_REPLY k c c1 /\ parked c1 = parked c /\ replies c1 c' o
  end.
Lemma receive_reply_spec request c :
  CInv sl cl c ->
  let '(c', o) := receive_reply request Requested c in CInv sl cl c' /\ invoked request c c' o.
Proof.
  intros Hc. unfold receive_reply, stream_invoke, stream_invoke_with_flags, advance, mbind, st_bind.
  pose proof (send_spec sl cl request WANTING_REPLY c Hc) as H. unfold wpx in H.
  destruct (send_with_flags request WANTING_REPLY c) as [c1 [k|e| | |]]; cbn [heard]; try done; [|by split; [apply H|]..].
  destruct H as (Hc1 & _ & _ & Hp & Hs).
  assert (forall c' o, replies c1 c' o -> invoked request c c' o) as Hi.
  { intros c' o Hr. unfold invoked. destruct o as [v|[]| | |]; try done; by exists c1, k. }
  pose proof (recv_on_spec sl cl Hmax STREAM_SERVER_CLIENT c1 Hc1) as H. unfold wpx in H. fold recv in H.
  destruct (recv c1) as [c2 [m|e| | |]]; cbn [heard]; try done; [|by split; [apply H|]..].
  destruct H as (Hc2 & _ & _ & Hm). destruct (populated m) as [b|] eqn:Eb.
  - split; [done|]. apply Hi. by eapply parse_reply_replies.
  - pose proof (receive_from_spec _ request c2 (le_n _) Hc2) as H. destruct (receive_from _ request Streaming c2) as [c3 o].
    split; [apply H|]. apply Hi. by eapply replies_skip; [..|apply H].
Qed.
End limits.

(** C29. A request is answered by the first message on the reply stream that has a body. In any
    state that calls can reach: when a reply comes back, the request was sent whole, the
    messages taken from the stream after it are the oldest there, in order, all of them without
    a body but the last, and the reply is what [parse_reply] makes of that one. A service error
    or a malformed reply keeps the connection; a call whose deadline passes gives the
    connection up, and every later request fails without touching anything. *)
Theorem pasteboard_reply_exact fires request s c :
  client s = Some c -> xreachable c ->
  match send_receive fires request s with
  | (s', Ok v) => exists c', s' = set_client (Some c') s /\ invoked (limit_of c) (total_limit_of c) request c c' (Ok v)
  | (s', Err (Timeout n)) =>
      fires = true /\ s' = set_client None s /\ n = timeout s / 10 ^ 9 /\
      forall fires' request', send_receive fires' request' s' = (s', Err Closed)
  | (s', Err e) => exists c', s' = set_client (Some c') s /\ invoked (limit_of c) (total_limit_of c) request c c' (Err e)
  | (s', Pending) => fires = false /\ exists c', s' = set_client (Some c') s
  | _ => False
  end.
Proof.
  intros Hs [Hl Hc]%xreachable_CInv. unfold send_receive at 1. rewrite Hs. pose proof (receive_reply_spec _ _ Hl request c Hc) as H.
  destruct (receive_reply request Requested c) as [c' [v|e| | |]].
  - exists c'. split; [done|apply H].
  - destruct e; try (exists c'; split; [done|apply H]). destruct H as (_ & c1 & k & _ & _ & ms & m & b & _ & _ & _ & Hr).
    exfalso. revert Hr. unfold parse_reply, parse_service_error, protocol. destruct (as_dict b) as [d|]; [|done].
    destruct (get "error" d) as [e|]; [|done]. by destruct (as_dict e).
  - by destruct H as (_ & c1 & k & _ & _ & []).
  - destruct fires; [by split_and!|]. split; [done|by exists c'].
  - by destruct H as (_ & c1 & k & _ & _ & []).
Qed.

(** ** The subscription *)

Definition sane (c : XpcConnection) : Prop := 0 <= limit_of c /\ CInv (limit_of c) (total_limit_of c) c.
Lemma CInv_limits sl cl c : CInv sl cl c -> limit_of c = sl /\ total_limit_of c = cl.
Proof. by intros (_ & (_ & _ & _ & _ & ? & ?) & _). Qed.
Lemma CInv_sane sl cl c : 0 <= sl -> CInv sl cl c -> sane c.
Proof. intros Hl Hc. pose proof (CInv_limits _ _ _ Hc) as [E1 E2]. unfold sane. by rewrite E1, E2. Qed.
(** Nothing but the connection has changed, or the subscription has shut. *)
Definition same_queue (s s' : PasteboardSubscription) : Prop :=
  pending s' = pending s /\ s_limits s' = s_limits s /\ s_timeout s' = s_timeout s /\ s_name s' = s_name s.
Definition sub_ok (s : PasteboardSubscription) : Prop :=
  (closed s = true -> s_client s = None) /\ match s_client s with Some c => sane c | None => True end.

(** The next event on the wire is in the first message of the root stream that has a body. *)
Definition on_wire (s s' : PasteboardSubscription) (e : PasteboardEvent) : Prop :=
  exists c c' ms m b, s_client s = Some c /\ s_client s' = Some c' /\ next_messages (limit_of c) (total_limit_of c) STREAM_CLIENT_SERVER (ms ++ [m]) c c' /\
    ignored ms /\ populated m = Some b /\ parse_event b (s_limits s) = Ok e.
Definition wire_outcome (s s' : PasteboardSubscription) (o : outcome PasteboardError PasteboardEvent) : Prop :=
  sub_ok s' /\ same_queue s s' /\
  match o with
  | Ok e => on_wire s s' e /\ closed s' = closed s /\ (wire_fuel s' < wire_fuel s)%nat
  | Err e => (s' = s /\ s_client s = None /\ e = Closed) \/ s' = shut s
  | Pending => closed s' = closed s /\ is_Some (s_client s')
  | _ => False
  end.
Lemma checked_sum_returns text a b : returns (checked_sum text a b).
Proof. unfold checked_sum. by split_ifs. Qed.
Lemma transpose_returns {A B} (f : A -> outcome PasteboardError B) o : (forall a, returns (f a)) -> returns (transpose f o).
Proof. intros H. destruct o as [a|]; [|done]. by apply returns_bind. Qed.
Lemma foldM_returns {A B} (f : A -> B -> outcome PasteboardError B) l acc : (forall a b, returns (f a b)) -> returns (foldM f l acc).
Proof.
  intros H. revert acc. induction l as [|a l IH]; intros acc; cbn [foldM]; [done|]. apply returns_bind; [apply H|]. intros b _. apply IH.
Qed.
Lemma parse_i64_returns v : returns (parse_i64 v).
Proof. destruct v; try done. cbn. by split_ifs. Qed.
Lemma parse_str_returns text v : returns (parse_str text v).
Proof. by destruct v. Qed.
Lemma parse_bool_returns text args v : returns (parse_bool text args v).
Proof. by destruct v. Qed.
Lemma parse_uuid_returns v : returns (parse_uuid v).
Proof. destruct v; try done. cbn. by destruct (uuid_parse _). Qed.
Lemma parse_optional_uuid_returns d d' : returns (parse_optional_uuid d d').
Proof.
  unfold parse_optional_uuid. generalize ["UUID"; "uuid"; "pasteboardUUID"]%string. intros keys.
  induction keys as [|k keys IH]; [done|]. cbn [first_uuid]. destruct (or_else _ _); [|done]. apply returns_bind; [apply parse_uuid_returns|done].
Qed.
Lemma estimate_returns levels v : returns (estimate_value_size levels v).
Proof.
  revert v. induction levels as [|levels IH]; intros v; destruct v; try done; cbn [estimate_value_size]; try apply IH; apply foldM_returns.
  - by intros a b.
  - intros [k a] b. by apply returns_bind; [apply checked_sum_returns|].
  - intros a b. apply returns_bind; [apply IH|intros ? _; apply checked_sum_returns].
  - intros [k a] b. apply returns_bind; [apply checked_sum_returns|intros ? _]. apply returns_bind; [apply IH|intros ? _; apply checked_sum_returns].
Qed.
#[local] Hint Resolve checked_sum_returns parse_i64_returns parse_str_returns parse_bool_returns parse_optional_uuid_returns estimate_returns : pb.
#[local] Hint Extern 1 (returns (transpose _ _)) => apply transpose_returns; intros ? : pb.
(** One step of a computation of which every step returns. *)
Ltac returns_step :=
  match goal with
  | |- returns (_ ≫= _) => apply returns_bind; [|intros ? _]
  | |- returns (if ?b then _ else _) => destruct b
  | |- returns (match ?x with _ => _ end) => destruct x
  | |- returns ((let '(_, _) := ?x in _) _) => destruct x
  | |- _ => progress auto with pb
  | |- returns _ => done
  end.
Lemma parse_payload_returns v index total lim : returns (parse_payload v index total lim).
Proof. unfold parse_payload. repeat returns_step. Qed.
Lemma parse_item_returns v index lim totals : returns (parse_item v index lim totals).
Proof.
  unfold parse_item, parse_data, parse_string_array. repeat ((apply foldM_returns; intros ??) || apply parse_payload_returns || returns_step).
Qed.
Lemma parse_items_returns values index lim totals : returns (parse_items values index lim totals).
Proof.
  revert index totals. induction values as [|v values IH]; intros index totals; [done|]. cbn [parse_items].
  repeat (apply IH || apply parse_item_returns || returns_step).
Qed.
Lemma parse_snapshot_returns v lim : returns (parse_snapshot v lim).
Proof. unfold parse_snapshot, optional_size. repeat (apply parse_items_returns || returns_step). Qed.
Lemma parse_data_reply_returns v lim : returns (parse_data_reply v lim).
Proof. unfold parse_data_reply. repeat returns_step. Qed.
Lemma parse_event_returns v lim : returns (parse_event v lim).
Proof. unfold parse_event. repeat (apply parse_snapshot_returns || apply parse_data_reply_returns || returns_step). Qed.
Lemma read_wire_loop_spec fires fuel s :
  (wire_fuel s <= fuel)%nat -> sub_ok s ->
  let '(s', o) := read_wire_loop fires fuel s in wire_outcome s s' o.
Proof.
  revert s. induction fuel as [|fuel IH]; intros s Hf [Hcl Hsane].
  { unfold wire_fuel, stream_fuel, reply_fuel in Hf. destruct (s_client s); lia. }
  cbn [read_wire_loop]. destruct (s_client s) as [c|] eqn:Es.
  2: { split; [by split; rewrite Es|]. split; [done|]. by left. }
  destruct Hsane as [Hl Hc]. assert (closed s = false) as Hopen by (destruct (closed s); [by discriminate Hcl|done]).
  pose proof (recv_on_spec _ _ Hl STREAM_CLIENT_SERVER c Hc) as H. unfold wpx in H. fold recv_client_server in H.
  assert (forall e, wire_outcome s (shut s) (Err e)) as Hshut.
  { intros e. split; [done|]. split; [done|by right]. }
  assert (forall c', CInv (limit_of c) (total_limit_of c) c' -> sub_ok (set_s_client (Some c') s)) as Hok.
  { intros c' Hc'. split; [cbn; by rewrite Hopen|]. by eapply CInv_sane. }
  destruct (recv_client_server c) as [c1 [m|e| | |]]; try done; try apply Hshut.
  2: { destruct fires; [apply Hshut|]. split; [by apply Hok, H|]. by split. }
  destruct H as (Hc1 & _ & _ & Hm). pose proof (next_message_fuel _ _ _ _ _ _ Hm) as Hlt. specialize (Hok c1 Hc1).
  set (s1 := set_s_client (Some c1) s) in *.
  assert (wire_fuel s1 < wire_fuel s)%nat as Hlt' by (unfold wire_fuel; by rewrite Es).
  destruct (populated m) as [b|] eqn:Eb.
  - change (s_limits s1) with (s_limits s). pose proof (parse_event_returns b (s_limits s)) as Hr. unfold returns in Hr.
    destruct (parse_event b (s_limits s)) as [ev|e| | |] eqn:Ee; try done. split; [done|]. split; [done|]. split; [|done].
    exists c, c1, [], m, b. split_and!; try done; [|constructor]. by eapply next_messages_cons, next_messages_nil.
  - specialize (IH s1 ltac:(lia) Hok). destruct (read_wire_loop fires fuel s1) as [s2 o]. destruct IH as (Ho2 & Hq2 & Hr).
    split; [done|]. split; [done|]. destruct o as [ev|e| | |]; try done; [|destruct Hr as [(_ & Hx & _)| ->]; [done|by right]].
    destruct Hr as ((c' & c2 & ms & m' & b & Hc' & Hc2 & Hn & Hi & Hb & He) & Hcl' & Hf'). split; [|split; [done|lia]].
    injection Hc' as <-.
    pose proof (CInv_limits _ _ _ Hc1) as [E1 E2]. rewrite E1, E2 in Hn.
    exists c, c2, (m :: ms), m', b. split_and!; try done; [by eapply (next_messages_cons _ _ _ m)|by constructor].
Qed.

(** *** Events in order *)

(** Calls of [next_event] that return the events of a list. *)
Inductive takes (fires : bool) : PasteboardSubscription -> list PasteboardEvent -> PasteboardSubscription -> Prop :=
  | takes_nil s : takes fires s [] s
  | takes_cons e es s s1 s2 : next_event fires s = (s1, Ok e) -> takes fires s1 es s2 -> takes fires s (e :: es) s2.
Lemma takes_app fires s es1 s1 es2 s2 : takes fires s es1 s1 -> takes fires s1 es2 s2 -> takes fires s (es1 ++ es2) s2.
Proof. induction 1 as [|e es s s1 s3 He _ IH]; [done|]. intros H2. apply (takes_cons fires e _ s s1); [done|by apply IH]. Qed.
Lemma set_pending_same s : set_pending (pending s) s = s.
Proof. by destruct s. Qed.
(** Events at the front of the queue are the next ones. *)
Lemma takes_pending fires es q s : takes fires (set_pending (es ++ q) s) es (set_pending q s).
Proof. induction es as [|e es IH]; [constructor|]. by apply (takes_cons fires e es _ (set_pending (es ++ q) s)). Qed.

Definition event_fuel (s : PasteboardSubscription) : nat := (length (pending s) + wire_fuel s)%nat.
(** The queue with [n] more events is within its bound. *)
Definition room (n : Z) (s : PasteboardSubscription) : Prop := n + len (pending s) <= max_events (s_limits s).
Lemma next_event_spec fires s :
  sub_ok s ->
  let '(s', o) := next_event fires s in
  sub_ok s' /\ s_limits s' = s_limits s /\
  match o with
  | Ok e => (event_fuel s' < event_fuel s)%nat /\ closed s' = closed s /\
      (pending s = e :: pending s' /\ s_client s' = s_client s \/ pending s = [] /\ pending s' = [] /\ on_wire s s' e)
  | Err e => pending s = [] /\ pending s' = [] /\ (s' = s /\ s_client s = None /\ e = Closed \/ s' = shut s)
  | Pending => pending s = [] /\ pending s' = [] /\ closed s' = closed s
  | _ => False
  end.
Proof.
  intros Hs. unfold next_event, read_wire_event, mbind, st_bind, st_get, st_mod, event_fuel. destruct (pending s) as [|e q] eqn:Ep.
  2: { cbn. unfold wire_fuel. cbn. split_and!; try done; [lia|by left]. }
  pose proof (read_wire_loop_spec fires (wire_fuel s) s (le_n _) Hs) as H. destruct (read_wire_loop fires (wire_fuel s) s) as [s' o].
  destruct H as (Hs' & (Hp & Hl & _) & H). rewrite Ep in Hp. split; [done|]. split; [done|]. rewrite Hp.
  destruct o as [e|e| | |]; try done.
  - destruct H as (Hw & Hc & Hf). split; [cbn; lia|]. split; [done|by right].
  - by destruct H.
Qed.

(** How [next_push] ends, with the events [ds] put aside. *)
Definition pushed (fires : bool) (s s' : PasteboardSubscription) (ds : list PasteboardData) (o : outcome PasteboardError PasteboardSnapshot) : Prop :=
  exists s1,
  match o with
  | Ok p => takes fires s (map DataEvent ds ++ [Push p]) s1 /\ s' = set_pending (map DataEvent ds ++ pending s1) s1 /\
      takes fires s' (map DataEvent ds) s1
  | Err e => takes fires s (map DataEvent ds) s1 /\
      ((exists s2, next_event fires s1 = (s2, Err e) /\ s' = set_pending (map DataEvent ds ++ pending s2) s2) \/
       (s' = shut s1 /\ max_events (s_limits s1) < len ds))
  | Pending => takes fires s (map DataEvent ds) s1 /\ next_event fires s1 = (s', Pending)
  | _ => False
  end.
Lemma still_closed fires s s1 o : sub_ok s -> next_event fires s = (s1, o) -> is_closed s = true -> is_closed s1 = true.
Proof.
  intros Hs En Hc. pose proof (next_event_spec fires s Hs) as H. rewrite En in H. destruct H as (Hs1 & _ & H).
  assert (s_client s = None) as Hn.
  { unfold is_closed in Hc. destruct Hs as [Hs _]. destruct (closed s); [by apply Hs|]. by destruct (s_client s). }
  destruct o as [e|e| | |]; try done.
  - destruct H as (_ & Hcl & [[_ Hcc]|(_ & _ & c & c' & ms & m & b & Hx & _)]); [|congruence]. unfold is_closed in *. by rewrite Hcl, Hcc.
  - by destruct H as (_ & _ & [[-> _]| ->]).
  - unfold next_event, read_wire_event, mbind, st_bind, st_get in En. destruct (pending s); [|done].
    unfold wire_fuel in En. rewrite Hn in En. cbn [read_wire_loop] in En. by rewrite Hn in En.
Qed.
Lemma push_loop_spec fires fuel s ds s0 :
  (event_fuel s <= fuel)%nat -> sub_ok s -> room (len ds) s -> takes fires s0 (map DataEvent ds) s ->
  let '(s', o) := push_loop fires fuel (map DataEvent ds) s in
  sub_ok s' /\ room 0 s' /\ (is_closed s = true -> is_closed s' = true) /\ exists ds', pushed fires s0 s' ds' o.
Proof.
  revert s ds. induction fuel as [|fuel IH]; intros s ds Hf Hs Hr Ht.
  { unfold event_fuel, wire_fuel, stream_fuel, reply_fuel in Hf. destruct (s_client s); lia. }
  cbn [push_loop]. pose proof (next_event_spec fires s Hs) as H. pose proof (still_closed fires s) as Hcl.
  destruct (next_event fires s) as [s1 o] eqn:En. specialize (Hcl _ _ Hs eq_refl). destruct H as (Hs1 & Hl1 & H).
  assert (forall es, len es = len ds -> len es + len (pending s1) <= max_events (s_limits s) -> room 0 (set_pending (es ++ pending s1) s1)) as Hroom.
  { intros es _ Hle. unfold room. cbn. rewrite Hl1, len_app. lia. }
  assert (len (map DataEvent ds) = len ds) as Hlen by (unfold len; by rewrite length_map). unfold room in Hr.
  destruct o as [e|e| | |]; try done.
  - destruct H as (Hlt & _ & Hp).
    assert (len ds + len (pending s1) <= max_events (s_limits s)) as Hle.
    { destruct Hp as [[Hp _]|(Hp & -> & _)]; rewrite Hp in Hr; unfold len in *; cbn [length] in *; lia. }
    assert (takes fires s0 (map DataEvent ds ++ [e]) s1) as Ht1.
    { eapply takes_app; [exact Ht|]. eapply takes_cons; [exact En|constructor]. }
    destruct e as [p|d].
    + split; [exact Hs1|]. split; [by apply Hroom; [|lia]|]. split; [exact Hcl|]. exists ds, s1. split; [done|]. split; [done|].
      rewrite <- (set_pending_same s1) at 3. apply takes_pending.
    + rewrite Hl1, Hlen. change (map DataEvent ds ++ [DataEvent d]) with (map DataEvent ds ++ map DataEvent [d]) in *. rewrite <- map_app in *.
      assert (len (ds ++ [d]) = len ds + 1) as Hd by (by rewrite len_app).
      destruct (Z.leb_spec (max_events (s_limits s)) (len ds)) as [Hfull|Hspace].
      * split; [done|]. pose proof (len_nonneg ds).
        split; [change (0 + len (pending s1) <= max_events (s_limits s1)); rewrite Hl1; lia|]. split; [done|]. exists (ds ++ [d]), s1. split; [done|].
        right. split; [done|]. rewrite Hl1, Hd. lia.
      * specialize (IH s1 (ds ++ [d]) ltac:(lia) Hs1). destruct (push_loop fires fuel (map DataEvent (ds ++ [d])) s1) as [s2 o].
        destruct IH as (H1 & H2 & H3 & H4); [|exact Ht1|split_and!; auto].
        unfold room. rewrite Hl1, Hd. destruct Hp as [[Hp _]|(Hp & -> & _)]; [rewrite Hp in Hr|]; unfold len in *; cbn [length] in *; lia.
  - destruct H as (Hp & Hp1 & _). split; [exact Hs1|]. rewrite Hp, Hp1 in *. split; [unfold room; cbn; rewrite Hl1, app_nil_r; unfold len in *; cbn in Hr; lia|].
    split; [exact Hcl|]. exists ds, s. split; [done|]. left. exists s1. by rewrite Hp1.
  - destruct H as (Hp & Hp1 & _). split; [done|]. rewrite Hp in Hr. split; [unfold room; rewrite Hp1, Hl1; unfold len in *; cbn in *; lia|].
    split; [exact Hcl|]. by exists ds, s.
Qed.

(** *** What calls can reach *)

Inductive sub_op := NextEvent | NextPush | Resolve (name : bytes) (index : Z) (uti : bytes) | Enqueue (e : PasteboardEvent) | Unsubscribe.
Definition sub_call (fires : bool) (op : sub_op) : st PasteboardSubscription PasteboardError unit :=
  match op with
  | NextEvent => next_event fires ;; mret tt
  | NextPush => next_push fires ;; mret tt
  | Resolve name index uti => s_resolve fires name index uti ;; mret tt
  | Enqueue e => enqueue e
  | Unsubscribe => unsubscribe fires
  end.
Inductive sub_step : PasteboardSubscription -> PasteboardSubscription -> Prop :=
  | sub_step_call fires op s : sub_step s (sub_call fires op s).1
  | sub_step_socket evs wr c s : s_client s = Some c ->
      sub_step s (set_s_client (Some (set_framer (set_rx (rx (io (framer c)) ++ evs) (set_wr wr (framer c))) c)) s).
Definition sub_reachable (s : PasteboardSubscription) : Prop :=
  exists fires name policy p c s0, client p = Some c /\ xreachable c /\ 0 <= max_events (limits p) /\
    (subscribe fires name policy p).2 = Ok s0 /\ rtc sub_step s0 s.
Definition sub_inv (s : PasteboardSubscription) : Prop := sub_ok s /\ room 0 s.

(** What every call keeps. *)
Definition keeps {A} (s s' : PasteboardSubscription) (o : outcome PasteboardError A) : Prop :=
  sub_inv s' /\ (is_closed s = true -> is_closed s' = true) /\ match o with Ok _ | Err _ | Pending => True | _ => False end.
Lemma open_client s c : sub_ok s -> s_client s = Some c -> closed s = false /\ sane c.
Proof. intros [Hcl Hc] Es. rewrite Es in *. split; [|done]. destruct (closed s); [by discriminate Hcl|done]. Qed.
Lemma keeps_client {A} s c c' (o : outcome PasteboardError A) :
  sub_inv s -> s_client s = Some c -> sane c' -> match o with Ok _ | Err _ | Pending => True | _ => False end -> keeps s (set_s_client (Some c') s) o.
Proof.
  intros [Hs Hr] Es Hc Ho. pose proof (open_client s c Hs Es) as [Hopen _]. split; [|split; [|done]].
  - split; [|exact Hr]. split; [cbn; by rewrite Hopen|done].
  - unfold is_closed. by rewrite Hopen, Es.
Qed.
Lemma keeps_shut {A} s (o : outcome PasteboardError A) : sub_inv s -> match o with Ok _ | Err _ | Pending => True | _ => False end -> keeps s (shut s) o.
Proof. by intros [Hs Hr] Ho. Qed.
Lemma validate_data_identity_returns d name index uti : returns (validate_data_identity d name index uti).
Proof. unfold validate_data_identity. repeat returns_step. Qed.
Lemma s_resolve_spec fires name index uti s : sub_inv s -> let '(s', o) := s_resolve fires name index uti s in keeps s s' o.
Proof.
  intros Hi. pose proof Hi as [Hs Hr]. unfold s_resolve.
  assert (match validate_resolve_arguments name index uti with Ok _ | Err _ => True | _ => False end) as Hv by (unfold validate_resolve_arguments; by split_ifs).
  destruct (validate_resolve_arguments name index uti); try done. destruct (s_client s) as [c|] eqn:Es; [|done].
  pose proof (open_client s c Hs Es) as [_ [Hl Hc]]. pose proof (receive_reply_spec _ _ Hl (build_resolve_request name index uti) c Hc) as H.
  destruct (receive_reply _ Requested c) as [c' o]. destruct H as [Hc'%CInv_sane Ho]; [|done].
  destruct o as [v|e| | |]; try (by destruct Ho as (? & ? & _ & _ & [])); try (by apply (keeps_client s c c')).
  - apply (keeps_client s c c'); [done..|].
    assert (returns (d ← parse_data_reply v (s_limits s); validate_data_identity d name index uti ;; Ok d)) as Hret; [|revert Hret; by destruct (d ← parse_data_reply v (s_limits s); validate_data_identity d name index uti ;; Ok d)].
    repeat (apply parse_data_reply_returns || apply validate_data_identity_returns || returns_step).
  - destruct fires; [by apply keeps_shut|by apply (keeps_client s c c')].
Qed.
Lemma send_good b sl cl c : 0 <= sl -> CInv sl cl c -> match (send b c).2 with Ok _ | Err _ | Pending => True | _ => False end.
Proof.
  intros Hl Hc. pose proof (send_spec sl cl b 0 c Hc) as H. unfold wpx in H. unfold send, mbind, st_bind. by destruct (send_with_flags b 0 c) as [c' [k|e| | |]].
Qed.
Lemma unsubscribe_spec fires s : sub_inv s -> let '(s', o) := unsubscribe fires s in keeps s s' o.
Proof.
  intros Hi. pose proof Hi as [Hs Hr]. unfold unsubscribe. destruct (closed s) eqn:Ecl; [done|]. destruct (s_client s) as [c|] eqn:Es.
  2: { split; [split; [by split; [|cbn; rewrite Es]|exact Hr]|done]. }
  pose proof (open_client s c Hs Es) as [_ [Hl Hc]]. pose proof (send_good (build_autonotify_request false (s_name s) None) _ _ c Hl Hc) as H.
  destruct (send _ c) as [c' [u|e| | |]]; try done; try by apply keeps_shut. destruct fires; [by apply keeps_shut|].
  split; [by split|]. split; [|done]. intros _. unfold is_closed. cbn. by rewrite orb_true_r.
Qed.
Lemma sub_call_spec fires op s :
  sub_inv s -> let '(s', o) := sub_call fires op s in keeps s s' o.
Proof.
  intros [Hs Hr]. destruct op as [| |name index uti|e|]; cbn [sub_call].
  - pose proof (next_event_spec fires s Hs) as H. pose proof (still_closed fires s) as Hcl.
    unfold mbind, st_bind. destruct (next_event fires s) as [s1 o]. specialize (Hcl _ _ Hs eq_refl). destruct H as (Hs1 & Hl & H).
    assert (sub_inv s1) as Hi.
    { split; [done|]. unfold room in *. rewrite Hl. destruct o as [e|e| | |]; try done.
      - destruct H as (_ & _ & [[Hp _]|(_ & -> & _)]); [rewrite Hp in Hr|]; unfold len in *; cbn [length] in *; lia.
      - destruct H as (_ & -> & _). unfold len in *. cbn. lia.
      - destruct H as (_ & -> & _). unfold len in *. cbn. lia. }
    destruct o; try done; by split_and!.
  - unfold next_push, mbind, st_bind, st_get. pose proof (push_loop_spec fires (event_fuel s) s [] s (le_n _) Hs Hr (takes_nil _ _)) as H.
    unfold event_fuel in H. cbn [map] in H. destruct (push_loop fires _ [] s) as [s1 o]. destruct H as (H1 & H2 & H3 & ds & s2 & H4).
    destruct o; try done; by split_and!.
  - pose proof (s_resolve_spec fires name index uti s (conj Hs Hr)) as H. unfold mbind, st_bind.
    destruct (s_resolve fires name index uti s) as [s1 o]. destruct H as (H1 & H2 & H3). by destruct o.
  - unfold enqueue. destruct (closed s) eqn:Ec; [by split_and!|]. unfold room in Hr. destruct (Z.leb_spec (max_events (s_limits s)) (len (pending s))); [by split_and!|].
    split; [|done]. split; [done|]. unfold room. cbn. rewrite len_app. unfold len in *. cbn. lia.
  - by apply unsubscribe_spec.
Qed.

Lemma sub_reachable_inv s : sub_reachable s -> sub_inv s.
Proof.
  intros (fires & name & policy & p & c & s0 & Hp & [Hl Hc]%xreachable_CInv & Hm & Hs0 & Hr).
  assert (sub_inv s0) as Hi0.
  { revert Hs0. unfold subscribe, mbind, st_bind, st_get, st_lift. destruct (transpose validate policy); try done. rewrite Hp. cbn [st_mod].
    pose proof (send_spec _ _ (build_autonotify_request true name policy) 0 c Hc) as H. unfold wpx in H. unfold send, mbind, st_bind.
    cbn. destruct (send_with_flags _ 0 c) as [c' [k|e| | |]]; try done; [|by destruct fires]. cbn. intros [= <-].
    split; [split; [done|eapply CInv_sane; [exact Hl|apply H]]|]. exact Hm. }
  clear Hs0. induction Hr as [|s1 s2 s3 Hstep _ IH]; [done|]. apply IH. clear IH. destruct Hstep as [fires' op s|evs wr c1 s Es].
  - pose proof (sub_call_spec fires' op s Hi0) as H. destruct (sub_call fires' op s) as [s' o]. apply H.
  - destruct Hi0 as [Hs Hroom]. pose proof (open_client s c1 Hs Es) as [Hopen [Hl1 Hc1]]. split; [|exact Hroom].
    split; [cbn; by rewrite Hopen|]. split; [exact Hl1|exact Hc1].
Qed.

(** C31. A subscription stays within its bound and never comes back to life. In every state that
    its calls can reach, however they end and whatever the service sends: at most [max_events]
    events are queued; a closed subscription has no connection; every call returns, fails or
    waits; a subscription that is closed remains so, its reads go no further than its queue,
    and [resolve] fails without touching anything. *)
Theorem subscription_bounded s :
  sub_reachable s ->
  len (pending s) <= max_events (s_limits s) /\ (closed s = true -> s_client s = None) /\
  (forall fires op, match (sub_call fires op s).2 with Ok _ | Err _ | Pending => True | _ => False end /\
    (is_closed s = true -> is_closed (sub_call fires op s).1 = true)) /\
  (is_closed s = true -> forall fires,
    next_event fires s = match pending s with e :: q => (set_pending q s, Ok e) | [] => (s, Err Closed) end /\
    forall name index uti, name <> [] -> 0 <= index -> uti <> [] -> s_resolve fires name index uti s = (s, Err Closed)).
Proof.
  intros Hi%sub_reachable_inv. pose proof Hi as [[Hcl Hc] Hr]. unfold room in Hr. split; [lia|]. split; [done|]. split.
  { intros fires op. pose proof (sub_call_spec fires op s Hi) as H. destruct (sub_call fires op s) as [s' o]. split; apply H. }
  intros Hclosed fires. assert (s_client s = None) as Hn.
  { unfold is_closed in Hclosed. destruct (closed s); [by apply Hcl|]. by destruct (s_client s). }
  split.
  - unfold next_event, read_wire_event, mbind, st_bind, st_get, st_mod, wire_fuel. destruct (pending s); [|done]. rewrite Hn. cbn [read_wire_loop]. by rewrite Hn.
  - intros name index uti Hname Hindex Huti. unfold s_resolve, validate_resolve_arguments. rewrite !bool_decide_false by done.
    rewrite (proj2 (Z.ltb_ge _ _) Hindex). by rewrite Hn.
Qed.

(** C30. [next_push] retains the DATA events that it passes over. When it returns or fails, the events it
    took are those that calls of [next_event] give, in order: DATA events [ds], then the PUSH it returns. If it
    returns, or fails because a read fails, the DATA events are at the front of the queue, where the
    next calls find them in order. The queue is bounded: if there are more DATA events than it may hold, the call
    reports that as an error and shuts the subscription. *)
Theorem next_push_in_order fires s :
  sub_reachable s ->
  match next_push fires s with
  | (_, Pending) => True
  | (s', o) => exists ds, pushed fires s s' ds o
  end.
Proof.
  intros [Hs Hr]%sub_reachable_inv. unfold next_push, mbind, st_bind, st_get.
  pose proof (push_loop_spec fires (event_fuel s) s [] s (le_n _) Hs Hr (takes_nil _ _)) as H. unfold event_fuel in H. cbn [map] in H.
  destruct (push_loop fires _ [] s) as [s1 []]; try apply H. exact I.
Qed.
End calls.

(** ** Witnesses *)

#[local] Existing Instance tight.
#[local] Existing Instance tight_laws.
(** Text forms that are not used below. *)
Definition plain : TextForms := Build_TextForms (fun _ => None) (fun _ => []) (fun _ => []).
#[local] Existing Instance plain.

Definition note_item : PasteboardItem := text_item (str "hello").
Lemma set_request_reads_back_witness :
  exists request, try_build_set_request (str "general") [note_item; url_item (str "http://x")] (Some Null) default_limits = Ok request /\
  (s ← parse_snapshot request default_limits; Ok (Pasteboard.text s, data_for_uti s UTI_URL)) = Ok (Some (str "hello"), Some (str "http://x")) /\
  parse_snapshot request default_limits =
    Ok (mkSnapshot (Some SET_COMMAND) (Some (str "general")) None None None None (read_items [note_item; url_item (str "http://x")])).
Proof.
  eexists. split; [vm_compute; reflexivity|]. split; [vm_compute; reflexivity|].
  apply (set_request_reads_back (str "general") [note_item; url_item (str "http://x")] (Some Null) default_limits); [vm_compute; congruence|vm_compute; reflexivity].
Defined.

Definition body_message (v : option XpcValue) : XpcMessage := mkMessage (ALWAYS_SET + DATA) 0 v.
Definition on_stream (id : Z) (bodies : list (option XpcValue)) : list rx_event :=
  [Chunk (build_data_frame id (concat (map (fun v => wire (body_message v)) bodies)))].
Definition pull_reply (name : string) : XpcValue := Dictionary [(str "command", String PULL_REPLY_COMMAND); (str "pasteboardName", String (str name))].
Definition push_event (name : string) : XpcValue := Dictionary [(str "command", String PUSH_COMMAND); (str "pasteboardName", String (str name))].
Definition data_event : XpcValue := Dictionary [(str "command", String DATA_COMMAND); (str "data", Null)].

Definition answered_client : PasteboardClient := new (deliver (on_stream 3 [None; Some (Dictionary []); Some (pull_reply "a")]) idle).
Lemma pasteboard_reply_exact_witness :
  (send_receive true (build_pull_request (str "a")) answered_client).2 = Ok (pull_reply "a") /\
  match send_receive true (build_pull_request (str "a")) answered_client with
  | (s', Ok v) => exists c c', client answered_client = Some c /\ s' = set_client (Some c') answered_client /\
      invoked (limit_of c) (total_limit_of c) (build_pull_request (str "a")) c c' (Ok v)
  | _ => False
  end.
Proof.
  split; [vm_compute; reflexivity|].
  pose proof (pasteboard_reply_exact true (build_pull_request (str "a")) answered_client _ eq_refl (deliver_reachable _ idle idle_reachable eq_refl)) as H.
  assert ((send_receive true (build_pull_request (str "a")) answered_client).2 = Ok (pull_reply "a")) as Ho by (vm_compute; reflexivity).
  destruct (send_receive true (build_pull_request (str "a")) answered_client) as [s' o]. cbn [snd] in Ho. subst o.
  destruct H as (c' & Hs & Hi). eexists _, c'. split; [reflexivity|]. exact (conj Hs Hi).
Defined.

(** A request that is dropped while it waits leaves its reply for the next one. *)
Definition arrive (evs : list rx_event) (s : PasteboardClient) : PasteboardClient := set_client (deliver evs <$> client s) s.
Example dropped_request_misleads_next :
  let '(s1, o1) := get_named false (str "a") (new idle) in
  let '(s2, o2) := get_named false (str "b") (arrive (on_stream 3 [Some (pull_reply "a")]) s1) in
  o1 = Pending /\ o2 = Ok (pull_reply "a").
Proof. vm_compute. split; reflexivity. Qed.

(** *** A subscription *)

Definition subscribed : PasteboardSubscription :=
  match (subscribe false (str "a") None (new idle)).2 with Ok s => s | _ => mkSubscription None [] 0 default_limits true [] end.
Definition arrive_sub (evs : list rx_event) (s : PasteboardSubscription) : PasteboardSubscription := set_s_client (deliver evs <$> s_client s) s.
Definition eventful : PasteboardSubscription := arrive_sub (on_stream 1 [None; Some data_event; Some (push_event "a")]) subscribed.
Definition interrupted : PasteboardSubscription := arrive_sub (on_stream 1 [Some data_event]) subscribed.
Lemma arrive_reachable evs c s : s_client s = Some c -> wr (io (framer c)) = [] -> sub_reachable s -> sub_reachable (arrive_sub evs s).
Proof.
  intros Es Hw (fires & name & policy & p & c0 & s0 & Hp & Hc & Hm & Hs & Hr). exists fires, name, policy, p, c0, s0. split_and!; try done.
  eapply rtc_r; [exact Hr|]. pose proof (sub_step_socket evs [] c s Es) as H. unfold arrive_sub. rewrite Es. cbn [option_fmap option_map fmap].
  rewrite <- Hw in H at 1. destruct c as [[[] ? ? ? ? ?] ? ? ?]. cbn in Hw. subst. exact H.
Qed.
Lemma subscribed_reachable : sub_reachable subscribed.
Proof.
  exists false, (str "a"), None, (new idle), idle, subscribed. split; [reflexivity|]. split; [apply idle_reachable|]. split; [done|].
  split; [vm_compute; reflexivity|constructor].
Qed.
Lemma eventful_reachable : sub_reachable eventful.
Proof. eapply arrive_reachable; [vm_compute; reflexivity|vm_compute; reflexivity|exact subscribed_reachable]. Qed.
Lemma interrupted_reachable : sub_reachable interrupted.
Proof. eapply arrive_reachable; [vm_compute; reflexivity|vm_compute; reflexivity|exact subscribed_reachable]. Qed.

Lemma subscription_bounded_witness :
  is_closed (sub_call true NextPush interrupted).1 = true /\ len (pending (sub_call true NextPush interrupted).1) = 1 /\
  len (pending interrupted) <= max_events (s_limits interrupted).
Proof.
  split; [vm_compute; reflexivity|]. split; [vm_compute; reflexivity|]. exact (proj1 (subscription_bounded interrupted interrupted_reachable)).
Defined.
Lemma next_push_in_order_witness :
  len (pending (next_push false eventful).1) = 1 /\
  match next_push false eventful with (s', Ok p) => exists ds, pushed false eventful s' ds (Ok p) | _ => False end.
Proof.
  split; [vm_compute; reflexivity|]. pose proof (next_push_in_order false eventful eventful_reachable) as H.
  assert (match (next_push false eventful).2 with Ok _ => True | _ => False end) as Ho by (vm_compute; exact I).
  destruct (next_push false eventful) as [s' []]; try destruct Ho. exact H.
Defined.
(** A call of [next_push] that is dropped loses the DATA event it had put aside. *)
Example dropped_push_loses_data :
  let '(s, o) := next_push false interrupted in o = Pending /\ pending s = [] /\ (next_event false s).2 = Pending.
Proof. vm_compute. split_and!; reflexivity. Qed.

Lemma snapshot_within_limits_witness :
  exists s, parse_snapshot (Dictionary [(str "items", Array [wire_item note_item])]) default_limits = Ok s /\ lsum item_size (items s) = 15 /\
  lsum item_size (items s) <= max_data_bytes default_limits.
Proof.
  eexists. split; [vm_compute; reflexivity|]. split; [vm_compute; reflexivity|].
  apply (snapshot_within_limits (Dictionary [(str "items", Array [wire_item note_item])]) default_limits); [done|done|vm_compute; reflexivity].
Defined.
End PasteboardSpec.
