(* ===== verification/FileService.v ===== *)
(** The CoreDevice file service ([crates/ios-core/src/services/fileservice/mod.rs]).

    Requests go over the connection of [XpcConn]; the bytes of a file go over a socket of their
    own, behind a header of 40 bytes. [FileService] has both and their composition; the
    theorems say what a download hands out, what an upload sends, and that the two agree. *)

From S2P Require Import Prelude Socket Text XpcMessage H2Framer XpcPending XpcConn XpcConnSpec.

Module FileService.
Import Net Socket Text Xpc Pending XpcConn.

Definition MAX_FILE_SIZE : Z := 1024 * 1024 * 1024.
Definition MAX_INLINE_DATA_SIZE : Z := 500.
Definition FILE_WIRE_MAGIC : bytes := str "rwb!FILE".
Definition FILE_WIRE_HEADER_LEN : Z := 40.
Definition FILE_TRANSFER_CHUNK_SIZE : Z := 256 * 1024.

(** A text of the client, or one that the device sent. *)
Inductive report := Client (m : msg) | Device (text : bytes).
Inductive FileServiceError := XpcFailed (e : XpcError) | Io | Protocol (r : report).
#[export] Instance io_fs : IoError FileServiceError := Io.
Definition protocol {A} (text : string) (args : list Z) : outcome FileServiceError A := Err (Protocol (Client (Msg text args))).

Inductive Domain := AppDataContainer | AppGroupDataContainer | Temporary | RootStaging | SystemCrashLogs.
Definition domain_value (d : Domain) : Z :=
  match d with AppDataContainer => 1 | AppGroupDataContainer => 2 | Temporary => 3 | RootStaging => 4 | SystemCrashLogs => 5 end.
Record FileTransferTicket := mkTicket { response_token : Z; file_id : Z }.
Record FileWriteOptions := mkOptions { permissions : Z; uid : Z; gid : Z; creation_time : Z; last_modification_time : Z }.
(** [n as i64] of a [u64]. *)
Definition as_i64 (n : Z) : Z := (n + 2 ^ 63) mod 2 ^ 64 - 2 ^ 63.
(** At a time in seconds; a clock before 1970 counts as 1970. The permissions are octal 644. *)
Definition mobile_defaults_now (now : option Z) : FileWriteOptions :=
  let now := match now with Some secs => as_i64 secs | None => 0 end in mkOptions 420 501 501 now now.

Definition dict : Type := list (bytes * XpcValue).
Definition get (key : string) (d : dict) : option XpcValue := imap_lookup (str key) d.
Definition text (s : string) : XpcValue := String (str s).

(** *** Requests *)

Definition build_create_session_request (d : Domain) (identifier : bytes) : XpcValue :=
  Dictionary [(str "Cmd", text "CreateSession"); (str "Domain", Uint64 (domain_value d)); (str "Identifier", String identifier);
              (str "Session", text ""); (str "User", text "mobile")].
(** [uuid] is the text of a fresh UUID. *)
Definition build_retrieve_directory_list_request (uuid session_id path : bytes) : XpcValue :=
  Dictionary [(str "Cmd", text "RetrieveDirectoryList"); (str "MessageUUID", String uuid); (str "Path", String path); (str "SessionID", String session_id)].
Definition build_retrieve_file_request (session_id path : bytes) : XpcValue :=
  Dictionary [(str "Cmd", text "RetrieveFile"); (str "Path", String path); (str "SessionID", String session_id)].
Definition file_write_metadata (command : string) (session_id path : bytes) (o : FileWriteOptions) : dict :=
  [(str "Cmd", text command); (str "FileCreationTime", Int64 (creation_time o)); (str "FileLastModificationTime", Int64 (last_modification_time o));
   (str "FilePermissions", Int64 (permissions o)); (str "FileOwnerUserID", Int64 (uid o)); (str "FileOwnerGroupID", Int64 (gid o));
   (str "Path", String path); (str "SessionID", String session_id)].
Definition build_propose_empty_file_request (session_id path : bytes) (o : FileWriteOptions) : XpcValue :=
  Dictionary (file_write_metadata "ProposeEmptyFile" session_id path o).
Definition build_propose_file_request (session_id path : bytes) (file_size : Z) (file_data : option bytes) (o : FileWriteOptions) : XpcValue :=
  let d := imap_insert (str "FileSize") (Uint64 file_size) (file_write_metadata "ProposeFile" session_id path o) in
  Dictionary (match file_data with Some data => imap_insert (str "FileData") (Data data) d | None => d end).
Definition build_remove_item_request (session_id path : bytes) (recursive : bool) : XpcValue :=
  Dictionary [(str "Cmd", text "RemoveItem"); (str "Path", String path); (str "Recursive", Bool recursive); (str "SessionID", String session_id)].
Definition build_create_directory_request (session_id path : bytes) (o : FileWriteOptions) : XpcValue :=
  Dictionary (file_write_metadata "CreateDirectory" session_id path o).
Definition build_rename_item_request (session_id from to : bytes) : XpcValue :=
  Dictionary [(str "Cmd", text "RenameItem"); (str "SourcePath", String from); (str "DestinationPath", String to); (str "SessionID", String session_id)].

(** *** Replies *)

Definition as_u64 (v : XpcValue) : option Z :=
  match v with Uint64 n => Some n | Int64 n => if 0 <=? n then Some n else None | _ => None end.
Definition MESSAGE_KEYS : list string := ["LocalizedDescription"; "localizedDescription"; "NSLocalizedDescription"; "message"; "description"]%string.
Fixpoint first_text (keys : list string) (d : dict) : option bytes :=
  match keys with
  | [] => None
  | key :: keys => match get key d with Some (String message) => Some message | _ => first_text keys d end
  end.
Definition nested_error_message (v : XpcValue) : option bytes :=
  match v with String message => Some message | Dictionary d => first_text MESSAGE_KEYS d | _ => None end.
Definition error_message (v : XpcValue) : option report :=
  d ← as_dict v;
  encoded_error ← get "EncodedError" d;
  match encoded_error with
  | Null => None
  | _ =>
      match nested_error_message encoded_error with
      | Some message => Some (Device message)
      | None =>
          match (get "LocalizedDescription" d : option XpcValue) ≫= as_str with
          | Some message => Some (Device message)
          | None => Some (Client (Msg "{encoded_error:?}" []))
          end
      end
  end.
Definition ensure_no_error (v : XpcValue) : outcome FileServiceError unit :=
  match error_message v with Some message => Err (Protocol message) | None => Ok tt end.
Definition response_body (m : XpcMessage) : outcome FileServiceError XpcValue :=
  match body m with Some b => Ok b | None => protocol "missing response body" [] end.
Definition body_dict (v : XpcValue) : outcome FileServiceError dict :=
  match as_dict v with Some d => Ok d | None => protocol "response body is not a dict: {value:?}" [] end.
(** The body of a reply that reports no error. *)
Definition accepted (m : XpcMessage) : outcome FileServiceError XpcValue := b ← response_body m; ensure_no_error b ;; Ok b.

Definition parse_create_session_response (m : XpcMessage) : outcome FileServiceError bytes :=
  b ← accepted m;
  d ← body_dict b;
  match (get "NewSessionID" d : option XpcValue) ≫= as_str with
  | Some id => Ok id
  | None => protocol "CreateSession response missing NewSessionID: {body:?}" []
  end.
Definition parse_directory_list_response (m : XpcMessage) : outcome FileServiceError (list bytes) :=
  b ← accepted m;
  d ← body_dict b;
  match get "FileList" d with
  | None => protocol "RetrieveDirectoryList response missing FileList: {body:?}" []
  | Some (Array items) => Ok (omap as_str items)
  | Some _ => protocol "FileList is not an array: {file_list:?}" []
  end.
Definition token (text key : string) (d : dict) : outcome FileServiceError Z :=
  match (get key d : option XpcValue) ≫= as_u64 with Some n => Ok n | None => protocol text [] end.
Definition parse_retrieve_file_response (m : XpcMessage) : outcome FileServiceError FileTransferTicket :=
  b ← accepted m;
  d ← body_dict b;
  response_token ← token "RetrieveFile response missing Response token: {body:?}" "Response" d;
  file_id ← token "RetrieveFile response missing NewFileID: {body:?}" "NewFileID" d;
  Ok (mkTicket response_token file_id).
Definition parse_propose_file_response (m : XpcMessage) : outcome FileServiceError (option FileTransferTicket) :=
  b ← accepted m;
  d ← body_dict b;
  match (get "Response" d : option XpcValue) ≫= as_u64, (get "NewFileID" d : option XpcValue) ≫= as_u64 with
  | Some response_token, Some file_id => Ok (Some (mkTicket response_token file_id))
  | None, None => Ok None
  | _, _ => protocol "ProposeFile response has incomplete upload ticket: {body:?}" []
  end.

(** *** The data stream *)

Definition ensure_file_wire_magic (context : string) (bs : bytes) : outcome FileServiceError unit :=
  if bool_decide (FILE_WIRE_MAGIC `prefix_of` bs) then Ok tt else protocol ("invalid " +:+ context +:+ " magic: {:?}") [].
Definition validate_file_size (file_size : Z) : outcome FileServiceError unit :=
  if MAX_FILE_SIZE <? file_size then protocol "file size {file_size} exceeds maximum allowed size {MAX_FILE_SIZE}" [file_size] else Ok tt.
(** The fields at offsets 0, 8, 24 and 32; the eight bytes at 16 are zero. *)
Definition build_file_wire_header (response_token file_id file_size : Z) : bytes :=
  FILE_WIRE_MAGIC ++ be_bytes 8 response_token ++ replicate 8 x00 ++ be_bytes 8 file_id ++ be_bytes 8 file_size.
Definition build_download_wire_request (t : FileTransferTicket) : bytes := build_file_wire_header (response_token t) (file_id t) 0.
Definition build_upload_wire_header (t : FileTransferTicket) (file_size : Z) : bytes := build_file_wire_header 0 (file_id t) file_size.

Abbreviation io := (st Socket FileServiceError).
Definition send_download_wire_request (t : FileTransferTicket) : io unit := write_all (build_download_wire_request t) ;; flush.
Definition read_file_data_header : io Z :=
  header ← read_exact FILE_WIRE_HEADER_LEN;
  st_lift (ensure_file_wire_magic "file data" header) ;;
  let file_size := be_Z (take 4 (drop 36 header)) in
  st_lift (validate_file_size file_size) ;;
  mret file_size.
(** The size of the next piece of what remains. *)
Definition piece (remaining : Z) : Z := Z.min remaining FILE_TRANSFER_CHUNK_SIZE.
Definition pieces (remaining : Z) : nat := S (Z.to_nat (remaining / FILE_TRANSFER_CHUNK_SIZE)).
Fixpoint receive_loop (fuel : nat) (remaining : Z) (data : bytes) : io bytes :=
  if 0 <? remaining then
    match fuel with
    | O => st_lift OutOfFuel
    | S fuel =>
        buffer ← read_exact (piece remaining);
        receive_loop fuel (remaining - piece remaining) (data ++ buffer)
    end
  else mret data.
Definition receive_file_data : io bytes := file_size ← read_file_data_header; receive_loop (pieces file_size) file_size [].

(** A stream and a writer. *)
Abbreviation copying := (st (Socket * Socket) FileServiceError).
Definition on_stream {A} (m : io A) : copying A := fun s => let '(x, o) := m s.1 in ((x, s.2), o).
Definition on_writer {A} (m : io A) : copying A := fun s => let '(x, o) := m s.2 in ((s.1, x), o).
Fixpoint copy_loop (fuel : nat) (remaining : Z) : copying unit :=
  if 0 <? remaining then
    match fuel with
    | O => st_lift OutOfFuel
    | S fuel =>
        buffer ← on_stream (read_exact (piece remaining));
        on_writer (write_all buffer) ;;
        copy_loop fuel (remaining - piece remaining)
    end
  else mret tt.
Definition receive_file_data_to_writer : copying Z :=
  file_size ← on_stream read_file_data_header;
  copy_loop (pieces file_size) file_size ;;
  on_writer flush ;;
  mret file_size.

(** A stream and a reader. *)
Abbreviation sending := (st (Socket * list rx_event) FileServiceError).
Definition to_stream {A} (m : io A) : sending A := fun s => let '(x, o) := m s.1 in ((x, s.2), o).
Definition from_reader (k : nat) : sending bytes := fun s => let '(l, o) := rx_read Io k s.2 in ((s.1, l), o).
Fixpoint send_loop (fuel : nat) (remaining : Z) : sending unit :=
  if 0 <? remaining then
    match fuel with
    | O => st_lift OutOfFuel
    | S fuel =>
        buffer ← from_reader (Z.to_nat (piece remaining));
        match buffer with
        | [] => st_fail Io
        | _ => to_stream (write_all buffer) ;; send_loop fuel (remaining - len buffer)
        end
    end
  else mret tt.
Definition CONFIRMATION_LEN : Z := 32.
Definition upload_file_data (t : FileTransferTicket) (file_size : Z) : sending unit :=
  st_lift (validate_file_size file_size) ;;
  to_stream (write_all (build_upload_wire_header t file_size)) ;;
  s ← st_get;
  send_loop (S (length (data s.2))) file_size ;;
  to_stream flush ;;
  confirmation ← to_stream (read_exact CONFIRMATION_LEN);
  st_lift (ensure_file_wire_magic "upload confirmation" confirmation).

(** *** The client *)

Record FileServiceClient := mkClient { control : XpcConnection; session_id : bytes }.
Definition with_session (control : XpcConnection) (session_id : bytes) : FileServiceClient := mkClient control session_id.
Abbreviation fsc := (st FileServiceClient FileServiceError).
Definition lift_xpc {A} (o : outcome XpcError A) : outcome FileServiceError A := map_err XpcFailed o.
Section calls.
Context `{!Allocation}.
Definition on_control {A} (m : xc A) : fsc A := fun s => let '(c, o) := m (control s) in (mkClient c (session_id s), lift_xpc o).
Definition on_connection {A} (m : xc A) : st XpcConnection FileServiceError A := fun c => let '(c, o) := m c in (c, lift_xpc o).
Definition connect (d : Domain) (identifier : bytes) : st XpcConnection FileServiceError FileServiceClient :=
  response ← on_connection (call (build_create_session_request d identifier));
  session_id ← st_lift (parse_create_session_response response);
  control ← st_get;
  mret (mkClient control session_id).
(** A call with the request for the session, and what is made of the reply. *)
Definition ask {A} (request : bytes -> XpcValue) (parse : XpcMessage -> outcome FileServiceError A) : fsc A :=
  s ← st_get;
  response ← on_control (call (request (session_id s)));
  st_lift (parse response).
Definition nothing (m : XpcMessage) : outcome FileServiceError unit := accepted m ;; Ok tt.
Definition list_directory (uuid path : bytes) : fsc (list bytes) :=
  s ← st_get;
  response ← on_control (call_recv_client_server (build_retrieve_directory_list_request uuid (session_id s) path));
  st_lift (parse_directory_list_response response).
Definition retrieve_file_ticket (path : bytes) : fsc FileTransferTicket := ask (fun id => build_retrieve_file_request id path) parse_retrieve_file_response.
Definition propose_empty_file (path : bytes) (o : FileWriteOptions) : fsc unit := ask (fun id => build_propose_empty_file_request id path o) nothing.
Definition remove_item (path : bytes) (recursive : bool) : fsc unit := ask (fun id => build_remove_item_request id path recursive) nothing.
Definition create_directory (path : bytes) (o : FileWriteOptions) : fsc unit := ask (fun id => build_create_directory_request id path o) nothing.
Definition rename_item (from to : bytes) : fsc unit := ask (fun id => build_rename_item_request id from to) nothing.
Definition upload_inline_file (path data : bytes) (o : FileWriteOptions) : fsc unit :=
  if bool_decide (data = []) then propose_empty_file path o else
  if MAX_INLINE_DATA_SIZE <? len data
  then st_lift (protocol "inline file size {} exceeds maximum inline size {MAX_INLINE_DATA_SIZE}" [len data]) else
  ask (fun id => build_propose_file_request id path (len data) (Some data) o) parse_propose_file_response ;; mret tt.
Definition propose_file_upload (path : bytes) (file_size : Z) (o : FileWriteOptions) : fsc FileTransferTicket :=
  st_lift (validate_file_size file_size) ;;
  if file_size <=? MAX_INLINE_DATA_SIZE then st_lift (protocol "file size {file_size} fits inline; use upload_inline_file" [file_size]) else
  ticket ← ask (fun id => build_propose_file_request id path file_size None o) parse_propose_file_response;
  st_lift (match ticket with Some t => Ok t | None => protocol "ProposeFile response missing upload ticket" [] end).

(** The client beside a state of its own for the transfer. *)
Definition on_client {X A} (m : fsc A) : st (FileServiceClient * X) FileServiceError A := fun s => let '(c, o) := m s.1 in ((c, s.2), o).
Definition on_data {X A} (m : st X FileServiceError A) : st (FileServiceClient * X) FileServiceError A := fun s => let '(x, o) := m s.2 in ((s.1, x), o).
Definition download_file (path : bytes) : st (FileServiceClient * Socket) FileServiceError bytes :=
  ticket ← on_client (retrieve_file_ticket path);
  on_data (send_download_wire_request ticket) ;;
  on_data receive_file_data.
Definition download_file_to_writer (path : bytes) : st (FileServiceClient * (Socket * Socket)) FileServiceError Z :=
  ticket ← on_client (retrieve_file_ticket path);
  on_data (on_stream (send_download_wire_request ticket)) ;;
  on_data receive_file_data_to_writer.
End calls.
End FileService.

Module FileServiceSpec.
Import Net Socket Text Xpc Pending XpcConn XpcConnSpec FileService.

(** ** The data stream *)

(** The header of a file of [n] bytes, as it is read: of the size, only the low half. *)
Definition heads (header : bytes) (n : Z) : Prop :=
  len header = FILE_WIRE_HEADER_LEN /\ FILE_WIRE_MAGIC `prefix_of` header /\ n = be_Z (take 4 (drop 36 header)) /\ 0 <= n <= MAX_FILE_SIZE.

Lemma read_after i s s1 s' : traffic i [] s s1 -> read_part s1 s' -> read_part s s'.
Proof. intros H (i' & H'). exists (i ++ i'). exact (traffic_trans _ _ _ _ _ _ _ H H'). Qed.
Lemma magic_ok context bs u : ensure_file_wire_magic context bs = Ok u -> FILE_WIRE_MAGIC `prefix_of` bs.
Proof. unfold ensure_file_wire_magic. by destruct (bool_decide_reflect (FILE_WIRE_MAGIC `prefix_of` bs)). Qed.
Lemma magic_returns context bs : returns (ensure_file_wire_magic context bs).
Proof. unfold ensure_file_wire_magic. by destruct (bool_decide _). Qed.
Lemma size_ok n u : validate_file_size n = Ok u -> n <= MAX_FILE_SIZE.
Proof. unfold validate_file_size. destruct (Z.ltb_spec MAX_FILE_SIZE n); [done|lia]. Qed.
Lemma size_returns n : returns (validate_file_size n).
Proof. unfold validate_file_size. by split_ifs. Qed.

Lemma read_header_spec s :
  wpx read_file_data_header (fun n s' => exists h, heads h n /\ traffic h [] s s') (read_part s) (read_part s) s.
Proof.
  unfold read_file_data_header. wpx_step. eapply wpx_mono; [by apply read_exact_traffic| |done|done]. cbv beta. intros h s1 [Hl Ht].
  wpx_step. apply wpx_lift; [apply magic_returns| |by exists h]. intros u Hm%magic_ok. cbv zeta. wpx_step.
  apply wpx_lift; [apply size_returns| |by exists h]. intros u' Hs%size_ok. apply wpx_ret. exists h. split; [|done].
  split_and!; try done. apply be_Z_bound.
Qed.

Lemma piece_spec n : 0 < n -> 0 < piece n <= n /\ (FILE_TRANSFER_CHUNK_SIZE < n -> piece n = FILE_TRANSFER_CHUNK_SIZE) /\ (n <= FILE_TRANSFER_CHUNK_SIZE -> piece n = n).
Proof. unfold piece, FILE_TRANSFER_CHUNK_SIZE. lia. Qed.
Lemma pieces_suffice n : 0 <= n -> n <= Z.of_nat (pieces n) * FILE_TRANSFER_CHUNK_SIZE.
Proof.
  intros Hn. unfold pieces. pose proof (Z.div_mod n FILE_TRANSFER_CHUNK_SIZE ltac:(done)). pose proof (Z.mod_pos_bound n FILE_TRANSFER_CHUNK_SIZE ltac:(done)).
  pose proof (Z.div_pos n FILE_TRANSFER_CHUNK_SIZE Hn ltac:(done)). unfold FILE_TRANSFER_CHUNK_SIZE in *. lia.
Qed.
Lemma fuel_piece fuel n : 0 < n -> n <= Z.of_nat (S fuel) * FILE_TRANSFER_CHUNK_SIZE -> 0 <= n - piece n <= Z.of_nat fuel * FILE_TRANSFER_CHUNK_SIZE.
Proof. intros Hn Hf. destruct (piece_spec n Hn) as ([H1 H2] & H3 & H4). unfold FILE_TRANSFER_CHUNK_SIZE in *. lia. Qed.

Lemma receive_loop_spec fuel n acc s :
  0 <= n <= Z.of_nat fuel * FILE_TRANSFER_CHUNK_SIZE ->
  wpx (receive_loop fuel n acc) (fun r s' => exists bs, r = acc ++ bs /\ len bs = n /\ traffic bs [] s s') (read_part s) (read_part s) s.
Proof.
  revert n acc s. induction fuel as [|fuel IH]; intros n acc s Hn; cbn [receive_loop]; destruct (Z.ltb_spec 0 n) as [Hp|Hz]; try lia;
    try (apply wpx_ret; exists []; rewrite app_nil_r; split_and!; [done|unfold len; cbn; lia|apply traffic_refl]).
  destruct (piece_spec n Hp) as (Hpc & _). wpx_step. eapply wpx_mono; [apply read_exact_traffic; lia| |done|done]. cbv beta. intros b s1 [Hl Ht].
  eapply wpx_mono; [apply IH, fuel_piece; [done|apply Hn]| |intros s'; by apply (read_after b)..]. cbv beta. intros r s' (bs & -> & Hl' & Ht').
  exists (b ++ bs). rewrite <- app_assoc, len_app. split; [done|]. split; [lia|exact (traffic_trans _ _ _ _ _ _ _ Ht Ht')].
Qed.
Lemma receive_spec s :
  wpx receive_file_data (fun d s' => exists h, heads h (len d) /\ traffic (h ++ d) [] s s') (read_part s) (read_part s) s.
Proof.
  unfold receive_file_data. wpx_step. eapply wpx_mono; [apply read_header_spec| |done|done]. cbv beta. intros n s1 (h & Hh & Ht).
  eapply wpx_mono; [apply receive_loop_spec; split; [apply Hh|apply pieces_suffice, Hh]| |intros s'; by apply (read_after h)..].
  cbv beta. intros r s' (bs & -> & Hl & Ht'). exists h. cbn [app]. split; [by rewrite Hl|exact (traffic_trans _ _ _ _ _ _ _ Ht Ht')].
Qed.

Lemma wpx_on_source {A} (m : io A) (Q : A -> Socket * Socket -> Prop) R T s :
  wpx m (fun a x => Q a (x, s.2)) (fun x => R (x, s.2)) (fun x => T (x, s.2)) s.1 -> wpx (on_stream m) Q R T s.
Proof. unfold wpx, on_stream. by destruct (m s.1) as [x []]. Qed.
Lemma wpx_on_writer {A} (m : io A) (Q : A -> Socket * Socket -> Prop) R T s :
  wpx m (fun a x => Q a (s.1, x)) (fun x => R (s.1, x)) (fun x => T (s.1, x)) s.2 -> wpx (on_writer m) Q R T s.
Proof. unfold wpx, on_writer. by destruct (m s.2) as [x []]. Qed.
(** [i] was read from the stream and [o] written to the writer. *)
Definition copied (i o : bytes) (s s' : Socket * Socket) : Prop := traffic i [] s.1 s'.1 /\ traffic [] o s.2 s'.2.
Lemma copied_trans i1 o1 i2 o2 s1 s2 s3 : copied i1 o1 s1 s2 -> copied i2 o2 s2 s3 -> copied (i1 ++ i2) (o1 ++ o2) s1 s3.
Proof. intros [A1 B1] [A2 B2]. split; [exact (traffic_trans _ _ _ _ _ _ _ A1 A2)|exact (traffic_trans _ _ _ _ _ _ _ B1 B2)]. Qed.
(** A copy that stopped: of at most [n] bytes read, a part was written, from the first on. *)
Definition copied_part (n : Z) (s s' : Socket * Socket) : Prop := exists i o, len i <= n /\ o `prefix_of` i /\ copied i o s s'.
Lemma copied_part_after n b s s1 s' : copied b b s s1 -> copied_part (n - len b) s1 s' -> copied_part n s s'.
Proof. intros H (i & o & Hi & Ho & H'). exists (b ++ i), (b ++ o). rewrite len_app. split_and!; [lia|by apply prefix_app|by eapply copied_trans]. Qed.
Lemma copied_part_read n s x' : read_upto n s.1 x' -> copied_part n s (x', s.2).
Proof. intros (i & Hi & H). exists i, []. split_and!; [done|apply prefix_nil|]. split; [done|apply traffic_refl]. Qed.
Lemma read_upto_le n n' s s' : n <= n' -> read_upto n s s' -> read_upto n' s s'.
Proof. intros ? (i & ? & ?). exists i. split; [lia|done]. Qed.

Lemma copy_loop_spec fuel n s :
  0 <= n <= Z.of_nat fuel * FILE_TRANSFER_CHUNK_SIZE ->
  wpx (copy_loop fuel n) (fun _ s' => exists bs, len bs = n /\ copied bs bs s s') (copied_part n s) (copied_part n s) s.
Proof.
  revert n s. induction fuel as [|fuel IH]; intros n s Hn; cbn [copy_loop]; destruct (Z.ltb_spec 0 n) as [Hp|Hz]; try lia;
    try (apply wpx_ret; exists []; split_and!; [unfold len; cbn; lia|split; apply traffic_refl]).
  destruct (piece_spec n Hp) as (Hpc & _). wpx_step.
  apply wpx_on_source. eapply wpx_mono; [apply read_exact_upto; lia| |intros x Hx; apply copied_part_read, (read_upto_le (piece n)); [lia|done]..].
  cbv beta. intros b x1 [Hl Ht].
  wpx_step. apply wpx_on_writer. cbn [fst snd].
  eapply wpx_mono; [apply write_all_traffic| |intros x (o & Ho & Hw); exists b, o; split_and!; [lia|done|by split]..]. cbv beta. intros _ w1 Hw.
  assert (copied b b s (x1, w1)) as Hc by (by split). rewrite <- Hl.
  eapply wpx_mono; [apply IH; rewrite Hl; by apply fuel_piece; [|apply Hn]| |intros s'; by apply (copied_part_after n b)..]. cbv beta. intros _ s' (bs & Hl' & Hc').
  exists (b ++ bs). rewrite len_app. split; [lia|by eapply copied_trans].
Qed.
(** A download that stopped. Either it was still reading the header, and nothing was written; or of at most as
    many bytes behind the header as it says, the writer has a part from the first on. *)
Definition received_part (s s' : Socket * Socket) : Prop :=
  (exists i, copied i [] s s') \/
  (exists h n i o, heads h n /\ len i <= n /\ o `prefix_of` i /\ copied (h ++ i) o s s').
Lemma receive_to_writer_spec s :
  wpx receive_file_data_to_writer (fun n s' => exists h d, n = len d /\ heads h n /\ copied (h ++ d) d s s') (received_part s) (received_part s) s.
Proof.
  unfold receive_file_data_to_writer. wpx_step. apply wpx_on_source.
  eapply wpx_mono; [apply read_header_spec| |intros x [i H]; left; exists i; split; [done|apply traffic_refl]..]. cbv beta. intros n x1 (h & Hh & Ht).
  assert (copied h [] s (x1, s.2)) as Hc by (split; [done|apply traffic_refl]).
  assert (forall s', copied_part n (x1, s.2) s' -> received_part s s') as Hpart.
  { intros s' (i & o & Hi & Ho & H). right. exists h, n, i, o. split_and!; [done|done|done|exact (copied_trans _ _ _ _ _ _ _ Hc H)]. }
  wpx_step. eapply wpx_mono; [apply copy_loop_spec; split; [apply Hh|apply pieces_suffice, Hh]| |exact Hpart..].
  cbv beta. intros _ s2 (d & Hl & Hd). pose proof (copied_trans _ _ _ _ _ _ _ Hc Hd) as Hcd. wpx_step. apply wpx_on_writer.
  assert (forall x, traffic [] [] s2.2 x -> copied (h ++ d) d s (s2.1, x)) as Hfl.
  { intros x Hx. destruct Hcd as [H1 H2]. split; [done|]. pose proof (traffic_trans _ _ _ _ _ _ _ H2 Hx) as H. cbn [app] in H. by rewrite app_nil_r in H. }
  eapply wpx_mono; [apply flush_traffic| |intros x Hx; right; exists h, n, d, d; split_and!; [done|lia|done|by apply Hfl]..].
  cbv beta. intros _ x Hx. apply wpx_ret. exists h, d. split; [done|]. split; [done|by apply Hfl].
Qed.

(** *** Uploads *)

Lemma wpx_to_stream {A} (m : io A) (Q : A -> Socket * list rx_event -> Prop) R T s :
  wpx m (fun a x => Q a (x, s.2)) (fun x => R (x, s.2)) (fun x => T (x, s.2)) s.1 -> wpx (to_stream m) Q R T s.
Proof. unfold wpx, to_stream. by destruct (m s.1) as [x []]. Qed.
(** [content] was taken from the reader; [i] was read from the stream and [o] written to it. *)
Definition uploaded (content i o : bytes) (s s' : Socket * list rx_event) : Prop :=
  data s.2 = content ++ data s'.2 /\ traffic i o s.1 s'.1.
Lemma uploaded_trans c1 i1 o1 c2 i2 o2 s1 s2 s3 :
  uploaded c1 i1 o1 s1 s2 -> uploaded c2 i2 o2 s2 s3 -> uploaded (c1 ++ c2) (i1 ++ i2) (o1 ++ o2) s1 s3.
Proof. intros [A1 B1] [A2 B2]. split; [by rewrite A1, A2, app_assoc|by eapply traffic_trans]. Qed.
(** An upload that stopped: what was written is part of [before] and what was taken. *)
Definition uploaded_part (before : bytes) (s s' : Socket * list rx_event) : Prop :=
  exists content i o, o `prefix_of` before ++ content /\ uploaded content i o s s'.
Lemma uploaded_part_after before b c s s1 s' :
  uploaded c [] b s s1 -> uploaded_part [] s1 s' -> b = before ++ c -> uploaded_part before s s'.
Proof.
  intros H (content & i & o & Ho & H') ->. exists (c ++ content), i, ((before ++ c) ++ o). split.
  - rewrite app_assoc. by apply prefix_app.
  - exact (uploaded_trans _ _ _ _ _ _ _ _ _ H H').
Qed.
Lemma uploaded_stream s x' i o : traffic i o s.1 x' -> uploaded [] i o s (x', s.2).
Proof. by intros H. Qed.

Lemma send_loop_spec fuel n s :
  0 <= n -> (length (data s.2) < fuel)%nat ->
  wpx (send_loop fuel n) (fun _ s' => exists bs, len bs = n /\ uploaded bs [] bs s s') (uploaded_part [] s) (uploaded_part [] s) s.
Proof.
  revert n s. induction fuel as [|fuel IH]; intros n [x l] Hn Hf; [lia|]. cbn [send_loop fst snd] in *. destruct (Z.ltb_spec 0 n) as [Hp|Hz].
  2: { apply wpx_ret. exists []. split; [unfold len; cbn; lia|]. split; [done|apply traffic_refl]. }
  destruct (piece_spec n Hp) as (Hpc & _). pose proof (rx_read_spec Io (Z.to_nat (piece n)) l ltac:(lia)) as Hr.
  wpx_step. unfold wpx at 1, from_reader. cbn [fst snd].
  assert (forall l', data l' = data l -> uploaded_part [] (x, l) (x, l')) as Hidle.
  { intros l' Hd. exists [], [], []. split; [done|]. split; [by symmetry|apply traffic_refl]. }
  destruct (rx_read Io _ l) as [l' [[|b bs]|e| | |]]; try done; [| |by apply Hidle..].
  { apply wpx_fail, Hidle. by destruct Hr as [_ Hd]. }
  destruct Hr as [Hl Hd]. set (c := b :: bs) in *. wpx_step. apply wpx_to_stream. cbn [fst snd].
  eapply wpx_mono; [apply write_all_traffic| |intros x' (o & Ho & Ht); exists c, [], o; by split..]. cbv beta. intros _ x' Ht.
  assert (uploaded c [] c (x, l) (x', l')) as Hc by (by split).
  assert (0 < len c <= piece n) by (unfold len, c in *; cbn [length] in *; lia).
  eapply wpx_mono; [apply IH; [lia|]| |intros s' Hs'; by apply (uploaded_part_after [] c c _ _ _ Hc Hs')..].
  - cbn [snd]. rewrite Hd, length_app in Hf. unfold len in *. lia.
  - cbv beta. intros _ s' (bs' & Hl' & Hc'). exists (c ++ bs'). rewrite len_app. split; [lia|by eapply (uploaded_trans c [] c)].
Qed.
(** What makes an upload good. *)
Definition upload_done (t : FileTransferTicket) (n : Z) (s s' : Socket * list rx_event) : Prop :=
  exists content confirmation, len content = n /\ n <= MAX_FILE_SIZE /\ len confirmation = CONFIRMATION_LEN /\ FILE_WIRE_MAGIC `prefix_of` confirmation /\
    uploaded content confirmation (build_upload_wire_header t n ++ content) s s'.
Lemma upload_spec t n s :
  0 <= n ->
  wpx (upload_file_data t n) (fun _ => upload_done t n s)
    (uploaded_part (build_upload_wire_header t n) s) (uploaded_part (build_upload_wire_header t n) s) s.
Proof.
  intros Hn. unfold upload_file_data. set (h := build_upload_wire_header t n). wpx_step.
  apply wpx_lift; [apply size_returns| |exists [], [], []; split; [apply prefix_nil|split; [done|apply traffic_refl]]]. intros u Hs%size_ok.
  wpx_step. apply wpx_to_stream.
  eapply wpx_mono; [apply write_all_traffic| |intros x (o & Ho & Ht); exists [], [], o; rewrite app_nil_r; by split..]. cbv beta. intros _ x1 Ht1.
  pose proof (uploaded_stream s x1 [] h Ht1) as H1. wpx_step. apply wpx_get. wpx_step. cbn [snd].
  eapply wpx_mono; [apply send_loop_spec; [done|cbn [snd]; lia]| |intros s' Hs'; apply (uploaded_part_after h h [] _ _ _ H1 Hs'); by rewrite app_nil_r..].
  cbv beta. intros _ s2 (content & Hl & H2). pose proof (uploaded_trans _ _ _ _ _ _ _ _ _ H1 H2) as H12. cbn [app] in H12.
  assert (forall i x, traffic i [] s2.1 x -> uploaded content i (h ++ content) s (x, s2.2)) as Hend.
  { intros i x Hx. pose proof (uploaded_trans _ _ _ _ _ _ _ _ _ H12 (uploaded_stream s2 x i [] Hx)) as H. cbn [app] in H. by rewrite !app_nil_r in H. }
  assert (forall x, read_part s2.1 x -> uploaded_part h s (x, s2.2)) as Hpart by (intros x [i Hi]; exists content, i, (h ++ content); split; [done|by apply Hend]).
  wpx_step. apply wpx_to_stream. eapply wpx_mono; [apply flush_traffic| |intros x Hx; apply Hpart; by exists []..]. cbv beta. intros _ x3 Hx3.
  wpx_step. apply wpx_to_stream. cbn [fst snd].
  assert (forall x, read_part x3 x -> read_part s2.1 x) as Hread by (intros x; by apply (read_after [])).
  eapply wpx_mono; [by apply read_exact_traffic| |intros x Hx; by apply Hpart, Hread..]. cbv beta. intros conf x4 [Hlc Hx4].
  pose proof (traffic_trans _ _ _ _ _ _ _ Hx3 Hx4) as Hx34. cbn [app] in Hx34.
  apply wpx_lift; [apply magic_returns| |apply Hpart; by exists conf]. intros u' Hm%magic_ok. exists content, conf. split_and!; try done. by apply Hend.
Qed.

(** ** Calls *)

Section calls.
Context `{A0 : !Allocation} `{L0 : !AllocationLaws A0}.

(** The request went out whole, and [m] is the message of the reply stream with its id. *)
Definition asked (b : XpcValue) (m : XpcMessage) (c c' : XpcConnection) : Prop :=
  exists k c1, sent_message b WANTING_REPLY k c c1 /\ parked c1 = parked c /\
    answered (limit_of c) (total_limit_of c) H2.STREAM_SERVER_CLIENT k m c1 c'.
Lemma call_spec b c :
  xreachable c -> wpx (call b) (fun m c' => asked b m c c') (fun _ => True) (fun _ => True) c.
Proof.
  intros [Hl Hc]%xreachable_CInv. unfold call, call_on. wpx_step. eapply wpx_mono; [by apply send_spec| |done|done]. cbv beta.
  intros k c1 (Hc1 & _ & _ & Hp & Hs). eapply wpx_mono; [by apply recv_reply_spec| |done|done]. cbv beta. intros m c' (_ & _ & _ & Ha).
  by exists k, c1.
Qed.
Lemma accepted_returns m : returns (accepted m).
Proof.
  unfold accepted, response_body, ensure_no_error. destruct (body m) as [b|]; [|done]. cbn. by destruct (error_message b).
Qed.
Lemma token_returns text key d : returns (token text key d).
Proof. unfold token. by destruct (_ ≫= as_u64). Qed.
Lemma retrieve_parse_returns m : returns (parse_retrieve_file_response m).
Proof.
  unfold parse_retrieve_file_response. apply returns_bind; [apply accepted_returns|]. intros b _.
  apply returns_bind; [unfold body_dict; by destruct (as_dict b)|]. intros d _.
  apply returns_bind; [apply token_returns|]. intros ? _. by apply returns_bind; [apply token_returns|].
Qed.
Lemma ticket_spec path s :
  xreachable (control s) ->
  wpx (retrieve_file_ticket path)
    (fun t s' => session_id s' = session_id s /\
      exists m, asked (build_retrieve_file_request (session_id s) path) m (control s) (control s') /\ parse_retrieve_file_response m = Ok t)
    (fun _ => True) (fun _ => True) s.
Proof.
  intros Hx. unfold retrieve_file_ticket, ask. wpx_step. apply wpx_get. wpx_step.
  pose proof (call_spec (build_retrieve_file_request (session_id s) path) (control s) Hx) as H. unfold wpx in H. unfold wpx at 1, on_control.
  destruct (call _ (control s)) as [c' [m|e| | |]]; try done. cbn [lift_xpc map_err].
  apply wpx_lift; [apply retrieve_parse_returns| |done]. intros t Ht. split; [done|]. by exists m.
Qed.

(** What the data stream of a download has seen: at most the request went out. *)
Definition requested (t : FileTransferTicket) (s s' : Socket) : Prop := exists i o, o `prefix_of` build_download_wire_request t /\ traffic i o s s'.
Lemma send_request_spec t s :
  wpx (send_download_wire_request t) (fun _ s' => traffic [] (build_download_wire_request t) s s') (requested t s) (requested t s) s.
Proof.
  unfold send_download_wire_request. wpx_step.
  eapply wpx_mono; [apply write_all_traffic| |intros s' (o & Ho & H); by exists [], o..]. cbv beta. intros _ s1 H1.
  assert (forall s', traffic [] [] s1 s' -> traffic [] (build_download_wire_request t) s s') as H.
  { intros s' H2. pose proof (traffic_trans _ _ _ _ _ _ _ H1 H2) as H. by rewrite app_nil_r in H. }
  eapply wpx_mono; [apply flush_traffic|intros ? ?; apply H|intros s' Hs'; exists [], (build_download_wire_request t); split; [done|by apply H]..].
Qed.

(** C33. A download puts into the writer the bytes that the device sends behind the header, and no others.
    When [download_file_to_writer] returns, the ticket came in the reply to a request for the path; the
    stream was sent the 40 bytes of the request for that ticket; what came back is a header and as many
    bytes as the low 32 bits of the size in it say, at most 1 GiB; and exactly those bytes were
    written, in order. A download that fails or is dropped has written a part, from the first
    on, of the bytes it read behind such a header, or nothing. It never hangs or panics of its own. *)
Theorem fileservice_download_exact path c x w :
  xreachable (control c) ->
  match download_file_to_writer path (c, (x, w)) with
  | ((c', (x', w')), Ok n) =>
      exists m t header file, asked (build_retrieve_file_request (session_id c) path) m (control c) (control c') /\
        parse_retrieve_file_response m = Ok t /\ heads header n /\ n = len file /\
        traffic (header ++ file) (build_download_wire_request t) x x' /\ traffic [] file w w'
  | ((_, (x', w')), Err _) | ((_, (x', w')), Pending) =>
      (exists i o, traffic i o x x' /\ traffic [] [] w w' /\ (o = [] \/ exists t, o `prefix_of` build_download_wire_request t)) \/
      (exists t header n read written, heads header n /\ len read <= n /\ written `prefix_of` read /\
         traffic (header ++ read) (build_download_wire_request t) x x' /\ traffic [] written w w')
  | _ => False
  end.
Proof.
  intros Hx. unfold download_file_to_writer, mbind, st_bind, on_client. cbn [fst snd].
  pose proof (ticket_spec path c Hx) as H. unfold wpx in H.
  destruct (retrieve_file_ticket path c) as [c1 [t|e| | |]]; try done; try by (left; exists [], []; split_and!; [apply traffic_refl..|by left]).
  destruct H as (_ & m & Ha & Ht). unfold on_data at 1, on_stream at 1. cbn [fst snd].
  pose proof (send_request_spec t x) as H. unfold wpx in H.
  destruct (send_download_wire_request t x) as [x1 [[]|e| | |]]; try done;
    try by (destruct H as (i & o & Ho & H); left; exists i, o; split_and!; [done|apply traffic_refl|right; by exists t]).
  unfold on_data. cbn [fst snd]. pose proof (receive_to_writer_spec (x1, w)) as H'. unfold wpx in H'.
  assert (forall i o s', copied i o (x1, w) s' -> traffic i (build_download_wire_request t) x s'.1 /\ traffic [] o w s'.2) as Hc.
  { intros i o s' [H1 H2]. split; [|done]. pose proof (traffic_trans _ _ _ _ _ _ _ H H1) as H3. by rewrite app_nil_r in H3. }
  destruct (receive_file_data_to_writer (x1, w)) as [[x2 w2] [n|e| | |]]; try done.
  - destruct H' as (h & d & -> & Hh & [H1 H2]%Hc). by exists m, t, h, d.
  - destruct H' as [(i & [H1 H2]%Hc)|(h & n & i & o & Hh & Hi & Ho & [H1 H2]%Hc)]; [left; exists i, (build_download_wire_request t); split_and!; [done..|right; by exists t]|right; by exists t, h, n, i, o].
  - destruct H' as [(i & [H1 H2]%Hc)|(h & n & i & o & Hh & Hi & Ho & [H1 H2]%Hc)]; [left; exists i, (build_download_wire_request t); split_and!; [done..|right; by exists t]|right; by exists t, h, n, i, o].
Qed.

(** The same into memory. *)
Lemma download_file_exact path c x :
  xreachable (control c) ->
  match download_file path (c, x) with
  | ((c', x'), Ok file) =>
      exists m t header, asked (build_retrieve_file_request (session_id c) path) m (control c) (control c') /\
        parse_retrieve_file_response m = Ok t /\ heads header (len file) /\ traffic (header ++ file) (build_download_wire_request t) x x'
  | (_, Err _) | (_, Pending) => True
  | _ => False
  end.
Proof.
  intros Hx. unfold download_file, mbind, st_bind, on_client. cbn [fst snd]. pose proof (ticket_spec path c Hx) as H. unfold wpx in H.
  destruct (retrieve_file_ticket path c) as [c1 [t|e| | |]]; try done. destruct H as (_ & m & Ha & Ht). unfold on_data at 1. cbn [fst snd].
  pose proof (send_request_spec t x) as H. unfold wpx in H. destruct (send_download_wire_request t x) as [x1 [[]|e| | |]]; try done.
  unfold on_data. cbn [fst snd]. pose proof (receive_spec x1) as H'. unfold wpx in H'.
  destruct (receive_file_data x1) as [x2 [d|e| | |]]; try done. destruct H' as (h & Hh & H1). exists m, t, h. split_and!; try done.
  pose proof (traffic_trans _ _ _ _ _ _ _ H H1) as H3. by rewrite app_nil_r in H3.
Qed.
End calls.

(** An upload sends the declared number of the reader's bytes and nothing else. When
    [upload_file_data] returns, the stream was sent the header for the ticket and that size,
    then exactly the next bytes of the reader, that many of them, and answered with 32 bytes
    that begin with the magic; the rest of the reader is untouched. One that fails or is
    dropped has sent a part of the header and of what it took; a reader that ends early is
    an error. The loop ends whatever the reader does. *)
Theorem fileservice_upload_exact t n x reader :
  0 <= n ->
  match upload_file_data t n (x, reader) with
  | ((x', reader'), Ok _) =>
      exists file confirmation, len file = n /\ n <= MAX_FILE_SIZE /\ data reader = file ++ data reader' /\
        len confirmation = CONFIRMATION_LEN /\ FILE_WIRE_MAGIC `prefix_of` confirmation /\
        traffic confirmation (build_upload_wire_header t n ++ file) x x'
  | ((x', reader'), Err _) | ((x', reader'), Pending) =>
      exists taken i o, data reader = taken ++ data reader' /\ o `prefix_of` build_upload_wire_header t n ++ taken /\ traffic i o x x'
  | _ => False
  end.
Proof.
  intros Hn. pose proof (upload_spec t n (x, reader) Hn) as H. unfold wpx in H.
  destruct (upload_file_data t n (x, reader)) as [[x' reader'] [[]|e| | |]]; try done.
  - destruct H as (file & conf & H1 & H2 & H3 & H4 & H5 & H6). by exists file, conf.
  - destruct H as (taken & i & o & Ho & H1 & H2). by exists taken, i, o.
  - destruct H as (taken & i & o & Ho & H1 & H2). by exists taken, i, o.
Qed.

(** *** Both ends *)

Lemma header_length token id n : len (build_file_wire_header token id n) = 40.
Proof. unfold build_file_wire_header, be_bytes, len. rewrite !length_app, length_replicate, !length_rev, !length_le_bytes. done. Qed.
Lemma le_bytes_plus a b z : le_bytes (a + b) z = le_bytes a z ++ le_bytes b (z / 256 ^ Z.of_nat a).
Proof.
  revert z. induction a as [|a IH]; intros z; [by rewrite Z.div_1_r|]. change (le_bytes (S a + b) z) with (bZ z :: le_bytes (a + b) (z / 256)).
  change (le_bytes (S a) z) with (bZ z :: le_bytes a (z / 256)). cbn [app]. f_equal. rewrite IH. f_equal. f_equal.
  rewrite Z.div_div by lia. f_equal. rewrite Nat2Z.inj_succ, Z.pow_succ_r by lia. done.
Qed.
Lemma be_bytes_low n : 0 <= n < 2 ^ 32 -> be_bytes 8 n = be_bytes 4 0 ++ be_bytes 4 n.
Proof.
  intros Hn. unfold be_bytes. rewrite <- rev_app_distr. f_equal. rewrite (le_bytes_plus 4 4 n : le_bytes 8 n = _).
  change (256 ^ Z.of_nat 4) with (2 ^ 32). by rewrite Z.div_small.
Qed.
Lemma header_size token id n : 0 <= n <= MAX_FILE_SIZE -> heads (build_file_wire_header token id n) n.
Proof.
  intros Hn. unfold heads. split; [apply header_length|]. split; [by exists (be_bytes 8 token ++ replicate 8 x00 ++ be_bytes 8 id ++ be_bytes 8 n)|].
  split; [|done]. unfold build_file_wire_header. rewrite (be_bytes_low n) by (unfold MAX_FILE_SIZE in Hn; lia).
  set (a := FILE_WIRE_MAGIC ++ be_bytes 8 token ++ replicate 8 x00 ++ be_bytes 8 id ++ be_bytes 4 0).
  assert (FILE_WIRE_MAGIC ++ be_bytes 8 token ++ replicate 8 x00 ++ be_bytes 8 id ++ be_bytes 4 0 ++ be_bytes 4 n = a ++ be_bytes 4 n) as ->.
  { unfold a. by rewrite <- !app_assoc. }
  assert (length a = 36%nat) as Hl by (unfold a, be_bytes; rewrite !length_app, length_replicate, !length_rev, !length_le_bytes; done).
  rewrite <- Hl, drop_app_length. rewrite take_ge by (by rewrite length_be_bytes).
  symmetry. apply (be_Z_be_bytes_u 4 32); [done|]. unfold in_u, MAX_FILE_SIZE in *. lia.
Qed.
Lemma receive_loop_flows fuel n acc s bs rest :
  flowing s -> data (rx s) = bs ++ rest -> len bs = n -> n <= Z.of_nat fuel * FILE_TRANSFER_CHUNK_SIZE ->
  exists s', receive_loop fuel n acc s = (s', Ok (acc ++ bs)) /\ data (rx s') = rest.
Proof.
  revert n acc s bs. induction fuel as [|fuel IH]; intros n acc s bs Hfl Hd Hl Hn; cbn [receive_loop]; destruct (Z.ltb_spec 0 n) as [Hp|Hz].
  1: lia.
  1, 3: assert (bs = []) as -> by (destruct bs; [done|unfold len in *; simpl in *; lia]); exists s; by rewrite app_nil_r.
  destruct (piece_spec n Hp) as (Hpc & _). pose proof (take_drop (Z.to_nat (piece n)) bs) as Htd.
  set (b := take (Z.to_nat (piece n)) bs) in *. set (bs' := drop (Z.to_nat (piece n)) bs) in *.
  assert (len b = piece n) as Hb by (unfold b, len in *; rewrite length_take; lia). rewrite <- Htd, <- app_assoc in Hd.
  destruct (read_exact_flows (E := FileServiceError) s b (bs' ++ rest) Hfl Hd) as (s1 & Hr & Hfl1 & Hd1 & _).
  unfold mbind, st_bind. rewrite Hb in Hr. rewrite Hr. rewrite <- Htd, app_assoc. apply IH; [done|done| |].
  - rewrite <- Htd, len_app in Hl. lia.
  - by apply fuel_piece.
Qed.

(** C34. What an upload sends, a download reads. Where the bytes that [upload_file_data] put on
    its stream arrive at another, in whatever portions, [receive_file_data] hands out exactly
    the bytes that were taken from the reader, and leaves what follows them. *)
Theorem fileservice_link t n a reader a' reader' b rest :
  0 <= n ->
  upload_file_data t n (a, reader) = ((a', reader'), Ok tt) ->
  flowing b -> data (rx b) = drop (length (tx a)) (tx a') ++ rest ->
  exists file b', receive_file_data b = (b', Ok file) /\ data reader = file ++ data reader' /\ len file = n /\ data (rx b') = rest.
Proof.
  intros Hn Hu Hfl Hd. pose proof (upload_spec t n (a, reader) Hn) as H. unfold wpx in H. rewrite Hu in H.
  destruct H as (file & conf & Hl & Hs & _ & _ & Hr & [_ Ht]). cbn [fst snd] in *. rewrite Ht, drop_app_length, <- app_assoc in Hd.
  set (h := build_upload_wire_header t n) in *. assert (heads h n) as (Hh1 & Hh2 & Hh3 & _) by by apply header_size.
  destruct (read_exact_flows (E := FileServiceError) b h (file ++ rest) Hfl Hd) as (b1 & Hr1 & Hfl1 & Hd1 & _). rewrite Hh1 in Hr1.
  destruct (receive_loop_flows (pieces n) n [] b1 file rest Hfl1 Hd1 Hl (pieces_suffice n Hn)) as (b2 & Hr2 & Hd2).
  exists file, b2. split; [|done]. unfold receive_file_data, read_file_data_header, mbind, st_bind. rewrite Hr1. unfold st_lift at 1, ensure_file_wire_magic.
  rewrite bool_decide_true by done. cbv zeta. rewrite <- Hh3. unfold st_lift at 1, validate_file_size. rewrite (proj2 (Z.ltb_ge _ _) Hs). exact Hr2.
Qed.

(** ** Witnesses *)

#[local] Existing Instance tight.
#[local] Existing Instance tight_laws.

Definition ticket : FileTransferTicket := mkTicket 7 9.
Definition confirmation : bytes := FILE_WIRE_MAGIC ++ replicate 24 x00.
Definition uploading : Socket * list rx_event := (mkSocket [Chunk (take 5 confirmation); Chunk (drop 5 confirmation)] [Accept 20; Accept 22] [], [Chunk (str "hel"); Chunk (str "lo!")]).
Lemma fileservice_upload_exact_witness :
  (upload_file_data ticket 5 uploading).2 = Ok tt /\
  match upload_file_data ticket 5 uploading with
  | ((x', reader'), Ok _) =>
      exists file confirmation, len file = 5 /\ 5 <= MAX_FILE_SIZE /\ data uploading.2 = file ++ data reader' /\
        len confirmation = CONFIRMATION_LEN /\ FILE_WIRE_MAGIC `prefix_of` confirmation /\
        traffic confirmation (build_upload_wire_header ticket 5 ++ file) uploading.1 x'
  | _ => True
  end.
Proof.
  split; [vm_compute; reflexivity|]. pose proof (fileservice_upload_exact ticket 5 uploading.1 uploading.2 ltac:(lia)) as H.
  change (uploading.1, uploading.2) with uploading in H. destruct (upload_file_data ticket 5 uploading) as [[x' reader'] [[]| | | |]]; try exact I. exact H.
Defined.

Definition arrived : Socket :=
  let sent := tx (upload_file_data ticket 5 uploading).1.1 in mkSocket [Chunk (take 30 sent); Chunk (drop 30 sent); Chunk (str "next")] [] [].
Lemma fileservice_link_witness :
  (receive_file_data arrived).2 = Ok (str "hello") /\
  exists file b', receive_file_data arrived = (b', Ok file) /\ data uploading.2 = file ++ data (upload_file_data ticket 5 uploading).1.2 /\ len file = 5 /\
    data (rx b') = str "next".
Proof.
  split; [vm_compute; reflexivity|].
  apply (fileservice_link ticket 5 uploading.1 uploading.2 (upload_file_data ticket 5 uploading).1.1 (upload_file_data ticket 5 uploading).1.2 arrived (str "next")).
  - lia.
  - vm_compute. reflexivity.
  - split; [reflexivity|]. repeat constructor; eexists; (split; [reflexivity|vm_compute; congruence]).
  - vm_compute. reflexivity.
Defined.

(** A device that answers the request for a ticket and sends the file. *)
Definition ticket_reply : XpcMessage := mkMessage (ALWAYS_SET + DATA) 1 (Some (Dictionary [(str "Response", Uint64 7); (str "NewFileID", Int64 9)])).
Definition downloading : FileServiceClient := mkClient (deliver [Chunk (H2.build_data_frame 3 (wire ticket_reply))] idle) (str "session").
Lemma fileservice_download_exact_witness :
  let run := download_file_to_writer (str "/f") (downloading, (arrived, mkSocket [] [] [])) in
  run.2 = Ok 5 /\ tx run.1.2.2 = str "hello" /\
  match run with
  | ((c', (x', w')), Ok n) =>
      exists m t header file, asked (build_retrieve_file_request (session_id downloading) (str "/f")) m (control downloading) (control c') /\
        parse_retrieve_file_response m = Ok t /\ heads header n /\ n = len file /\
        traffic (header ++ file) (build_download_wire_request t) arrived x' /\ traffic [] file (mkSocket [] [] []) w'
  | _ => True
  end.
Proof.
  cbv zeta. split; [vm_compute; reflexivity|]. split; [vm_compute; reflexivity|].
  pose proof (fileservice_download_exact (str "/f") downloading arrived (mkSocket [] [] []) (deliver_reachable _ idle idle_reachable eq_refl)) as H.
  destruct (download_file_to_writer _ _) as [[c' [x' w']] [n| | | |]]; try exact I. exact H.
Defined.

(** Of the size, a download reads the low half: a file of 4 GiB and two bytes that the device
    announces is taken for one of two bytes. *)
Example size_cut_to_32_bits :
  receive_file_data (mkSocket [Chunk (build_file_wire_header 0 9 (2 ^ 32 + 2) ++ str "abcdef")] [] []) =
  (mkSocket [Chunk (str "cdef")] [] [], Ok (str "ab")).
Proof. vm_compute. reflexivity. Qed.
End FileServiceSpec.
