(* ===== verification/TestResults.v ===== *)
(** The results of a test run ([crates/ios-core/src/services/testmanager/results.rs]).

    [TestResults] has the events that DTX messages report, the recorder that sums them up, and
    the rendering of a summary as JUnit XML. A duration is a double, a [spec_float] of 53 bits.
    The theorems are in [TestResultsSpec]. The atomic replacement of a file that holds the
    report is left out. *)

From Stdlib Require Import SpecFloat.
From S2P Require Import Prelude Utf8 Text DtxTypes.

Module TestResults.
Import Text Dtx.

Definition MAX_CAPTURED_LOG_MESSAGES : Z := 16384.
Definition MAX_CAPTURED_LOG_BYTES : Z := 8 * 1024 * 1024.
Definition MAX_JUNIT_DIAGNOSTIC_BYTES : nat := 64 * 1024.

Definition DID_BEGIN_EXECUTING_TEST_PLAN_SELECTOR : bytes := str "_XCT_didBeginExecutingTestPlan".
Definition DID_FINISH_EXECUTING_TEST_PLAN_SELECTOR : bytes := str "_XCT_didFinishExecutingTestPlan".
Definition LOG_MESSAGE_SELECTOR : bytes := str "_XCT_logMessage:".
Definition LOG_DEBUG_MESSAGE_SELECTOR : bytes := str "_XCT_logDebugMessage:".
Definition TEST_SUITE_STARTED_SELECTOR : bytes := str "_XCT_testSuite:didStartAt:".
Definition TEST_SUITE_FINISHED_SELECTOR : bytes := str "_XCT_testSuite:didFinishAt:runCount:withFailures:unexpected:testDuration:totalDuration:".
Definition TEST_SUITE_FINISHED_WITH_SKIP_SELECTOR : bytes :=
  str "_XCT_testSuiteWithIdentifier:didFinishAt:runCount:skipCount:failureCount:expectedFailureCount:uncaughtExceptionCount:testDuration:totalDuration:".
Definition TEST_CASE_STARTED_SELECTOR : bytes := str "_XCT_testCaseDidStartForTestClass:method:".
Definition TEST_CASE_FINISHED_SELECTOR : bytes := str "_XCT_testCaseDidFinishForTestClass:method:withStatus:duration:".
Definition TEST_CASE_FAILED_SELECTOR : bytes := str "_XCT_testCaseDidFailForTestClass:method:withMessage:file:line:".

(** *** Doubles *)

Definition f64 : Type := spec_float.
Definition zero : f64 := S754_zero false.
(** [n as f64]; [f64::from_bits]; addition and comparison, rounded to even. *)
Definition f64_of_Z (n : Z) : f64 := binary_normalize 53 1024 n 0 false.
Definition f64_of_bits (bits : Z) : f64 :=
  let sign := 2 ^ 63 <=? bits in
  let exponent := Z.shiftr bits 52 mod 2 ^ 11 in
  let mantissa := bits mod 2 ^ 52 in
  if exponent =? 2047 then if mantissa =? 0 then S754_infinity sign else S754_nan
  else if exponent =? 0 then match mantissa with Zpos m => S754_finite sign m (-1074) | _ => S754_zero sign end
  else match mantissa + 2 ^ 52 with Zpos m => S754_finite sign m (exponent - 1075) | _ => S754_nan end.
Definition f64_add (x y : f64) : f64 := SFadd 53 1024 x y.
Definition is_finite (x : f64) : bool := match x with S754_zero _ | S754_finite _ _ _ => true | _ => false end.
Definition finite_duration (x : f64) : f64 := if is_finite x && SFleb zero x then x else zero.
(** [{:.3}] of a double: its thousandths, rounded to even, of which the last three digits
    come after the point. *)
Definition divide_to_even (n d : Z) : Z :=
  let q := n / d in
  let twice := 2 * (n mod d) in
  if (d <? twice) || ((twice =? d) && Z.odd q) then q + 1 else q.
Definition thousandths (m e : Z) : Z := if 0 <=? e then m * 1000 * 2 ^ e else divide_to_even (m * 1000) (2 ^ (- e)).
Definition print_nat (n : Z) : bytes := print_digits (S (Z.to_nat (Z.log2 n))) n.
Definition point3 (n : Z) : bytes :=
  print_nat (n / 1000) ++ str "." ++ map (fun k => bZ (48 + n / k mod 10)) [100; 10; 1].
Definition print_sign (negative : bool) : bytes := if negative then str "-" else [].
Definition fixed3 (x : f64) : bytes :=
  match x with
  | S754_zero s => print_sign s ++ point3 0
  | S754_finite s m e => print_sign s ++ point3 (thousandths (Zpos m) e)
  | S754_infinity s => print_sign s ++ str "inf"
  | S754_nan => str "NaN"
  end.

(** *** Events *)

Inductive TestCaseStatus := Passed | Failed | ExpectedFailure | Stalled | Skipped | Other (status : bytes).
#[export] Instance TestCaseStatus_eq_dec : EqDecision TestCaseStatus.
Proof. solve_decision. Defined.
Definition from_wda_status (status : bytes) : TestCaseStatus :=
  if bool_decide (status = str "passed") then Passed
  else if bool_decide (status = str "failed") then Failed
  else if bool_decide (status = str "expected failure") then ExpectedFailure
  else if bool_decide (status = str "stalled") then Stalled
  else if bool_decide (status = str "skipped") then Skipped
  else Other status.
(** What a suite reports when it finishes. *)
Record SuiteResult := mkResult {
  r_finished_at : option bytes; r_test_count : Z; r_skipped : Z; r_failures : Z; r_expected_failures : Z; r_unexpected_failures : Z;
  r_uncaught_exceptions : Z; r_test_duration : f64; r_total_duration : f64
}.
Record TestFailure := mkFailure { message : bytes; file : option bytes; line : option Z }.
Inductive TestExecutionEvent :=
| BeganPlan
| FinishedPlan
| Log (message : bytes) (debug : bool)
| SuiteStarted (name : bytes) (started_at : option bytes)
| SuiteFinished (name : bytes) (r : SuiteResult)
| CaseStarted (class_name method_name : bytes)
| CaseFailed (class_name method_name : bytes) (f : TestFailure)
| CaseFinished (class_name method_name : bytes) (status : TestCaseStatus) (duration_seconds : f64).
Definition is_finished_plan (e : TestExecutionEvent) : bool := match e with FinishedPlan => true | _ => false end.

Definition as_str (o : NSObject) : option bytes := match o with String s => Some s | _ => None end.
Definition string_arg (args : list NSObject) (i : nat) : option bytes := args !! i ≫= as_str.
Definition optional_string_arg (args : list NSObject) (i : nat) : option bytes :=
  match string_arg args i with Some [] => None | o => o end.
Definition uint_arg (args : list NSObject) (i : nat) : option Z :=
  match args !! i with Some (Uint n) => Some n | Some (Int n) => if 0 <=? n then Some n else None | _ => None end.
Definition double_arg (args : list NSObject) (i : nat) : option f64 :=
  match args !! i with Some (Double bits) => Some (f64_of_bits bits) | Some (Int n) | Some (Uint n) => Some (f64_of_Z n) | _ => None end.
Definition uint_or_0 (args : list NSObject) (i : nat) : Z := default 0 (uint_arg args i).
Definition double_or_0 (args : list NSObject) (i : nat) : f64 := default zero (double_arg args i).
Definition identifier_suite_name (o : option NSObject) : option bytes :=
  match o with
  | Some (String s) => Some s
  | Some (Array values) => match values with String name :: _ => Some name | _ => None end
  | Some (Dict m) =>
      o ← match imap_lookup (str "container") m with
          | Some o => Some o
          | None => match imap_lookup (str "suite") m with Some o => Some o | None => imap_lookup (str "testClass") m end
          end;
      as_str o
  | _ => None
  end.
Definition from_dtx_message (m : DtxMessage) : option TestExecutionEvent :=
  match payload m with
  | MethodInvocation selector args =>
      if bool_decide (selector = DID_BEGIN_EXECUTING_TEST_PLAN_SELECTOR) then Some BeganPlan
      else if bool_decide (selector = DID_FINISH_EXECUTING_TEST_PLAN_SELECTOR) then Some FinishedPlan
      else if bool_decide (selector = LOG_MESSAGE_SELECTOR) then message ← string_arg args 0; Some (Log message false)
      else if bool_decide (selector = LOG_DEBUG_MESSAGE_SELECTOR) then message ← string_arg args 0; Some (Log message true)
      else if bool_decide (selector = TEST_SUITE_STARTED_SELECTOR) then
        name ← string_arg args 0; Some (SuiteStarted name (optional_string_arg args 1))
      else if bool_decide (selector = TEST_SUITE_FINISHED_SELECTOR) then
        name ← string_arg args 0;
        Some (SuiteFinished name (mkResult (optional_string_arg args 1) (uint_or_0 args 2) 0 (uint_or_0 args 3) 0 (uint_or_0 args 4) 0
                                           (double_or_0 args 5) (double_or_0 args 6)))
      else if bool_decide (selector = TEST_SUITE_FINISHED_WITH_SKIP_SELECTOR) then
        name ← identifier_suite_name (head args);
        Some (SuiteFinished name (mkResult (optional_string_arg args 1) (uint_or_0 args 2) (uint_or_0 args 3) (uint_or_0 args 4) (uint_or_0 args 5) 0
                                           (uint_or_0 args 6) (double_or_0 args 7) (double_or_0 args 8)))
      else if bool_decide (selector = TEST_CASE_STARTED_SELECTOR) then
        class_name ← string_arg args 0; method_name ← string_arg args 1; Some (CaseStarted class_name method_name)
      else if bool_decide (selector = TEST_CASE_FAILED_SELECTOR) then
        class_name ← string_arg args 0; method_name ← string_arg args 1;
        Some (CaseFailed class_name method_name (mkFailure (default [] (string_arg args 2)) (optional_string_arg args 3) (uint_arg args 4)))
      else if bool_decide (selector = TEST_CASE_FINISHED_SELECTOR) then
        class_name ← string_arg args 0; method_name ← string_arg args 1; status ← string_arg args 2;
        Some (CaseFinished class_name method_name (from_wda_status status) (double_or_0 args 3))
      else None
  | _ => None
  end.

(** *** The recorder *)

Record TestCaseSummary := mkCase {
  class_name : bytes; method_name : bytes; status : option TestCaseStatus; duration_seconds : option f64; failure : option TestFailure
}.
Record TestSuiteSummary := mkSuite {
  name : bytes; started_at : option bytes; finished_at : option bytes; test_count : option Z; suite_skipped : option Z; suite_failures : option Z;
  expected_failures : option Z; unexpected_failures : option Z; uncaught_exceptions : option Z;
  test_duration_seconds : option f64; total_duration_seconds : option f64; cases : list TestCaseSummary
}.
(** A suite of which nothing but the start is known. *)
Definition new_suite (name : bytes) (started_at : option bytes) : TestSuiteSummary :=
  mkSuite name started_at None None None None None None None None None [].
Record TestRunRecorder := mkRecorder {
  began : bool; finished : bool; logs : list bytes; debug_logs : list bytes; log_bytes : Z; debug_log_bytes : Z; suites : list TestSuiteSummary
}.
Definition recorder_default : TestRunRecorder := mkRecorder false false [] [] 0 0 [].
Record TestRunSummary := mkSummary {
  s_began : bool; s_finished : bool; total_tests : Z; failed_tests : Z; skipped_tests : Z; s_logs : list bytes; s_debug_logs : list bytes;
  s_suites : list TestSuiteSummary
}.

Definition set_suites v (r : TestRunRecorder) : TestRunRecorder := mkRecorder (began r) (finished r) (logs r) (debug_logs r) (log_bytes r) (debug_log_bytes r) v.
Definition set_cases v (s : TestSuiteSummary) : TestSuiteSummary :=
  mkSuite (name s) (started_at s) (finished_at s) (test_count s) (suite_skipped s) (suite_failures s) (expected_failures s) (unexpected_failures s)
    (uncaught_exceptions s) (test_duration_seconds s) (total_duration_seconds s) v.

(** What [push_log] makes of one of the two logs and its size. *)
Definition push_log_into (logs : list bytes) (used : Z) (message : bytes) : list bytes * Z :=
  if (MAX_CAPTURED_LOG_MESSAGES <=? len logs) || (MAX_CAPTURED_LOG_BYTES <=? used) then (logs, used) else
  let remaining := MAX_CAPTURED_LOG_BYTES - used in
  let message := if remaining <? len message then take (boundary_below message (Z.to_nat remaining)) message else message in
  if bool_decide (message = []) then (logs, used) else (logs ++ [message], Z.min usize_max (used + len message)).
Definition push_log (message : bytes) (debug : bool) (r : TestRunRecorder) : TestRunRecorder :=
  if debug
  then let '(l, n) := push_log_into (debug_logs r) (debug_log_bytes r) message in
       mkRecorder (began r) (finished r) (logs r) l (log_bytes r) n (suites r)
  else let '(l, n) := push_log_into (logs r) (log_bytes r) message in
       mkRecorder (began r) (finished r) l (debug_logs r) n (debug_log_bytes r) (suites r).

(** [iter().rposition(f)] *)
Fixpoint rposition {A} (f : A -> bool) (l : list A) : option nat :=
  match l with
  | [] => None
  | a :: l => match rposition f l with Some i => Some (S i) | None => if f a then Some O else None end
  end.
(** The place of a suite, after it was added where there was none. *)
Definition find_or_create_suite (suite : bytes) (suites : list TestSuiteSummary) : nat * list TestSuiteSummary :=
  match rposition (fun s => bool_decide (name s = suite)) suites with
  | Some i => (i, suites)
  | None => (length suites, suites ++ [new_suite suite None])
  end.
Definition find_or_create_active_suite (class : bytes) (suites : list TestSuiteSummary) : nat * list TestSuiteSummary :=
  match rposition (fun s => match test_count s with None => true | Some _ => false end) suites with
  | Some i => (i, suites)
  | None => find_or_create_suite class suites
  end.
Definition find_or_create_case (class method : bytes) (cases : list TestCaseSummary) : nat * list TestCaseSummary :=
  match rposition (fun c => bool_decide (class_name c = class) && bool_decide (method_name c = method)) cases with
  | Some i => (i, cases)
  | None => (length cases, cases ++ [mkCase class method None None None])
  end.
(** A change of the case, in the suite that is active. *)
Definition on_case (class method : bytes) (f : TestCaseSummary -> TestCaseSummary) (suites : list TestSuiteSummary) : list TestSuiteSummary :=
  let '(i, suites) := find_or_create_active_suite class suites in
  alter (fun s => let '(j, cases) := find_or_create_case class method (cases s) in set_cases (alter f j cases) s) i suites.
Definition fail_case (f : TestFailure) (c : TestCaseSummary) : TestCaseSummary :=
  mkCase (class_name c) (method_name c) (Some Failed) (duration_seconds c) (Some f).
Definition finish_case (new_status : TestCaseStatus) (duration : f64) (c : TestCaseSummary) : TestCaseSummary :=
  mkCase (class_name c) (method_name c) (if bool_decide (status c = Some Stalled) then status c else Some new_status) (Some duration) (failure c).
Definition finish_suite (r : SuiteResult) (s : TestSuiteSummary) : TestSuiteSummary :=
  mkSuite (name s) (started_at s) (r_finished_at r) (Some (r_test_count r)) (Some (r_skipped r)) (Some (r_failures r)) (Some (r_expected_failures r))
    (Some (r_unexpected_failures r)) (Some (r_uncaught_exceptions r)) (Some (r_test_duration r)) (Some (r_total_duration r)) (cases s).
Definition apply (e : TestExecutionEvent) (r : TestRunRecorder) : TestRunRecorder :=
  match e with
  | BeganPlan => mkRecorder true (finished r) (logs r) (debug_logs r) (log_bytes r) (debug_log_bytes r) (suites r)
  | FinishedPlan => mkRecorder (began r) true (logs r) (debug_logs r) (log_bytes r) (debug_log_bytes r) (suites r)
  | Log message debug => push_log message debug r
  | SuiteStarted name started_at => set_suites (suites r ++ [new_suite name started_at]) r
  | SuiteFinished name res =>
      let '(i, suites) := find_or_create_suite name (suites r) in set_suites (alter (finish_suite res) i suites) r
  | CaseStarted class method =>
      let '(i, suites) := find_or_create_active_suite class (suites r) in
      set_suites (alter (fun s => set_cases (cases s ++ [mkCase class method None None None]) s) i suites) r
  | CaseFailed class method f => set_suites (on_case class method (fail_case f) (suites r)) r
  | CaseFinished class method status duration => set_suites (on_case class method (finish_case status duration) (suites r)) r
  end.

Definition count {A} (f : A -> bool) (l : list A) : Z := len (List.filter f l).
Definition is_failed (c : TestCaseSummary) : bool := bool_decide (status c = Some Failed).
Definition is_skipped (c : TestCaseSummary) : bool := match status c with Some Skipped | Some ExpectedFailure => true | _ => false end.
Definition is_error (c : TestCaseSummary) : bool := match status c with None | Some Stalled | Some (Other _) => true | _ => false end.
(** [sum()] of [u64], which overflows. *)
Definition sum_u64 (l : list Z) : outcome unit Z := foldM (fun n total => if 2 ^ 64 <=? total + n then Panic else Ok (total + n)) l 0.
Definition summary (r : TestRunRecorder) : outcome unit TestRunSummary :=
  total ← sum_u64 (map (fun s => default (len (cases s)) (test_count s)) (suites r));
  failed ← sum_u64 (map (fun s => default (count is_failed (cases s)) (suite_failures s)) (suites r));
  skipped ← sum_u64 (map (fun s => default (count is_skipped (cases s)) (suite_skipped s)) (suites r));
  Ok (mkSummary (began r) (finished r) total failed skipped (logs r) (debug_logs r) (suites r)).

(** *** JUnit XML *)

(** The scalar value of a well-formed encoding. *)
Definition code_point (c : bytes) : Z :=
  match map Zb c with
  | [a] => a
  | [a; b] => Z.land a 0x1F * 2 ^ 6 + Z.land b 0x3F
  | [a; b; c] => Z.land a 0x0F * 2 ^ 12 + Z.land b 0x3F * 2 ^ 6 + Z.land c 0x3F
  | [a; b; c; d] => Z.land a 0x07 * 2 ^ 18 + Z.land b 0x3F * 2 ^ 12 + Z.land c 0x3F * 2 ^ 6 + Z.land d 0x3F
  | _ => 0
  end.
Definition is_xml_10_character (c : Z) : bool :=
  (c =? 9) || (c =? 10) || (c =? 13) || in_range 0x20 0xD7FF c || in_range 0xE000 0xFFFD c || in_range 0x10000 0x10FFFF c.
Definition quote : bytes := [x22].
Definition escape (c : bytes) : bytes :=
  if bool_decide (c = str "&") then str "&amp;"
  else if bool_decide (c = str "<") then str "&lt;"
  else if bool_decide (c = str ">") then str "&gt;"
  else if bool_decide (c = quote) then str "&quot;"
  else if bool_decide (c = str "'") then str "&apos;"
  else c.
(** [value.chars()]: the encodings of the characters, one after the other. *)
Fixpoint chars_n (fuel : nat) (l : bytes) : list bytes :=
  match fuel, l with
  | S fuel, _ :: _ => let n := (utf8_step l).2 in take n l :: chars_n fuel (drop n l)
  | _, _ => []
  end.
Definition chars (l : bytes) : list bytes := chars_n (length l) l.
(** What the functions below append to the output. *)
Definition xml_char (c : bytes) : bytes := if is_xml_10_character (code_point c) then escape c else replacement.
Definition xml_text (value : bytes) : bytes := concat (map xml_char (chars value)).
Definition xml_attr (name : string) (value : bytes) : bytes := str " " ++ str name ++ str "=" ++ quote ++ xml_text value ++ quote.
Definition truncate_utf8 (value : bytes) (limit : nat) : bytes :=
  if (length value <=? limit)%nat then value else take (boundary_below value limit) value.

Record JUnitSuiteReport := mkReport { tests : Z; failures : Z; errors : Z; skipped : Z; time : f64 }.
Definition u64_saturating_add (a b : Z) : Z := Z.min (2 ^ 64 - 1) (a + b).
Section render.
(** The sum of no doubles: 0.0 in the releases of Rust before 1.83, -0.0 since. *)
Context (no_sum : f64).
Definition from_suite (s : TestSuiteSummary) : JUnitSuiteReport :=
  let test_duration := default zero (test_duration_seconds s) in
  let time := if is_finite test_duration && SFltb zero test_duration then test_duration
              else foldl f64_add no_sum (omap duration_seconds (cases s)) in
  mkReport (len (cases s)) (count is_failed (cases s))
    (u64_saturating_add (default 0 (uncaught_exceptions s)) (count is_error (cases s)))
    (count is_skipped (cases s)) (finite_duration time).
Definition render_failure (f : TestFailure) : bytes :=
  str "<failure" ++ xml_attr "type" (str "XCTestFailure") ++ xml_attr "message" (message f) ++ str ">" ++
  match file f with
  | Some file => xml_text file ++ match line f with Some n => str ":" ++ print_int n | None => [] end ++ str ": "
  | None => []
  end ++
  xml_text (message f) ++ str "</failure>".
Definition render_error (error_type : string) (message : bytes) : bytes :=
  str "<error" ++ xml_attr "type" (str error_type) ++ xml_attr "message" message ++ str "/>".
Definition render_status_property (status : bytes) : bytes :=
  str "<properties><property" ++ xml_attr "name" (str "status") ++ xml_attr "value" status ++ str "/></properties>".
Definition render_status (c : TestCaseSummary) : bytes :=
  match status c with
  | Some Failed =>
      match failure c with
      | Some f => render_failure f
      | None => str "<failure type=" ++ quote ++ str "XCTestFailure" ++ quote ++ str " message=" ++ quote ++ str "failed" ++ quote ++ str "/>"
      end
  | Some Skipped => str "<skipped/>"
  | Some ExpectedFailure => str "<skipped" ++ xml_attr "message" (str "expected failure") ++ str "/>" ++ render_status_property (str "expected_failure")
  | Some Stalled => render_error "stalled" (str "XCTest case stalled")
  | Some (Other status) => render_status_property status ++ render_error "unknown_status" status
  | None => render_status_property (str "unknown") ++ render_error "incomplete" (str "XCTest case did not report a final status")
  | Some Passed => []
  end.
Definition render_case (c : TestCaseSummary) : bytes :=
  str "<testcase" ++ xml_attr "classname" (class_name c) ++ xml_attr "name" (method_name c) ++
  xml_attr "time" (fixed3 (finite_duration (default zero (duration_seconds c)))) ++ str ">" ++ render_status c ++ str "</testcase>".
Definition suite_attrs (name : bytes) (r : JUnitSuiteReport) : bytes :=
  xml_attr "name" name ++ xml_attr "tests" (print_int (tests r)) ++ xml_attr "failures" (print_int (failures r)) ++
  xml_attr "errors" (print_int (errors r)) ++ xml_attr "skipped" (print_int (skipped r)) ++ xml_attr "time" (fixed3 (time r)).
Definition render_junit_suite (s : TestSuiteSummary) (r : JUnitSuiteReport) : bytes :=
  str "<testsuite" ++ suite_attrs (name s) r ++ str ">" ++
  match expected_failures s with
  | Some n => str "<properties><property" ++ xml_attr "name" (str "expected_failures") ++ xml_attr "value" (print_int n) ++ str "/></properties>"
  | None => []
  end ++
  concat (map render_case (cases s)) ++ str "</testsuite>".
Definition render_diagnostic (diagnostic : bytes) : bytes :=
  str "<testsuite" ++ suite_attrs (str "xctest-diagnostic") (mkReport 0 0 1 0 zero) ++ str ">" ++
  str "<error" ++ xml_attr "type" (str "xctest_diagnostic") ++ xml_attr "message" diagnostic ++ str ">" ++ xml_text diagnostic ++ str "</error></testsuite>".
(** [join("\n")] *)
Fixpoint join_lines (l : list bytes) : bytes :=
  match l with [] => [] | [a] => a | a :: l => a ++ [x0a] ++ join_lines l end.
Definition render_output (s : TestRunSummary) : bytes :=
  match s_logs s, s_debug_logs s with
  | [], [] => []
  | logs, debug_logs =>
      str "<testsuite" ++ suite_attrs (str "xctest-output") (mkReport 0 0 0 0 zero) ++ str ">" ++
      match logs with [] => [] | _ => str "<system-out>" ++ xml_text (join_lines logs) ++ str "</system-out>" end ++
      match debug_logs with [] => [] | _ => str "<system-err>" ++ xml_text (join_lines debug_logs) ++ str "</system-err>" end ++
      str "</testsuite>"
  end.
Definition diagnostic_of (s : TestRunSummary) (diagnostic : option bytes) : option bytes :=
  match diagnostic with
  | Some value => Some (truncate_utf8 value MAX_JUNIT_DIAGNOSTIC_BYTES)
  | None => if s_finished s then None else Some (str "XCTest run did not finish")
  end.
(** The totals, over the suites in order. *)
Definition add_report (t r : JUnitSuiteReport) : JUnitSuiteReport :=
  mkReport (u64_saturating_add (tests t) (tests r)) (u64_saturating_add (failures t) (failures r)) (u64_saturating_add (errors t) (errors r))
    (u64_saturating_add (skipped t) (skipped r)) (f64_add (time t) (time r)).
Definition totals (s : TestRunSummary) : JUnitSuiteReport := foldl add_report (mkReport 0 0 0 0 zero) (map from_suite (s_suites s)).
Definition to_junit_xml_with_diagnostic (s : TestRunSummary) (diagnostic : option bytes) : bytes :=
  let suites := concat (map (fun suite => render_junit_suite suite (from_suite suite)) (s_suites s)) in
  let t := totals s in
  let diagnostic := diagnostic_of s diagnostic in
  let total_errors := match diagnostic with Some _ => u64_saturating_add (errors t) 1 | None => errors t end in
  str "<?xml version=" ++ quote ++ str "1.0" ++ quote ++ str " encoding=" ++ quote ++ str "UTF-8" ++ quote ++ str "?>" ++ [x0a] ++
  str "<testsuites name=" ++ quote ++ str "XCTest" ++ quote ++ str " tests=" ++ quote ++ print_int (tests t) ++ quote ++
  str " failures=" ++ quote ++ print_int (failures t) ++ quote ++ str " errors=" ++ quote ++ print_int total_errors ++ quote ++
  str " skipped=" ++ quote ++ print_int (skipped t) ++ quote ++ str " time=" ++ quote ++ fixed3 (finite_duration (time t)) ++ quote ++ str ">" ++
  suites ++ match diagnostic with Some d => render_diagnostic d | None => [] end ++ render_output s ++ str "</testsuites>" ++ [x0a].
Definition to_junit_xml (s : TestRunSummary) : bytes := to_junit_xml_with_diagnostic s None.
End render.
End TestResults.
