(* ===== verification/TestResultsSpec.v ===== *)
(** What the recorder and the report promise ([TestResults]).

    - The report is a well-formed XML 1.0 document, and a reader gets the results back from it; the
      counts it gives are those of its elements.
    - The recorder's logs are bounded; after the events of a run it holds each suite with its
      cases, however the suites are nested. *)

From Stdlib Require Import SpecFloat.
From S2P Require Import Prelude Utf8 Text DtxTypes TestResults.

Module TestResultsSpec.
Import Text Dtx TestResults.

(** ** A reader of XML 1.0

    It knows what the report uses: elements, attributes in double quotes, text and the five predefined
    entities. It refuses a document that is not UTF-8, has a character outside the production [Char], gives an
    element an attribute twice or has no single root; and it does the normalisation the recommendation asks
    for: a carriage return, with a line feed behind it or without, is a line feed (2.11), and a line feed
    or a tab in the value of an attribute a space (3.3.3). *)

Inductive xml := Element (name : bytes) (attrs : list (bytes * bytes)) (children : list xml) | Content (text : bytes).

Definition Char (c : Z) : bool :=
  (c =? 0x9) || (c =? 0xA) || (c =? 0xD) || in_range 0x20 0xD7FF c || in_range 0xE000 0xFFFD c || in_range 0x10000 0x10FFFF c.
Definition well_encoded (l : bytes) : bool := from_utf8 l && forallb (fun c => Char (code_point c)) (chars l).

Definition eat (p l : bytes) : option bytes := if starts_with p l then Some (drop (length p) l) else None.
Definition ENTITIES : list (bytes * byte) := [(str "&amp;", x26); (str "&lt;", x3c); (str "&gt;", x3e); (str "&quot;", x22); (str "&apos;", x27)].
(** Text up to a [<] or a quote, and what follows. *)
Fixpoint read_text (fuel : nat) (l : bytes) : option (bytes * bytes) :=
  match fuel, l with
  | S fuel, b :: r =>
      if bool_decide (b = x3c) || bool_decide (b = x22) then Some ([], l)
      else if bool_decide (b = x26) then
        '(e, c) ← List.find (fun e => starts_with e.1 l) ENTITIES;
        '(t, rest) ← read_text fuel (drop (length e) l); Some (c :: t, rest)
      else if bool_decide (b = x0d) then
        '(t, rest) ← read_text fuel (if starts_with [x0a] r then drop 1 r else r); Some (x0a :: t, rest)
      else '(t, rest) ← read_text fuel r; Some (b :: t, rest)
  | _, _ => Some ([], l)
  end.
Definition blank (b : byte) : byte := if bool_decide (b = x09) || bool_decide (b = x0a) then x20 else b.
Definition name_char (b : byte) : bool := in_range 97 122 (Zb b) || bool_decide (b = x2d).
Fixpoint read_name (l : bytes) : bytes * bytes :=
  match l with
  | b :: r => if name_char b then let '(n, rest) := read_name r in (b :: n, rest) else ([], l)
  | [] => ([], [])
  end.
Fixpoint read_attrs (fuel : nat) (l : bytes) : option (list (bytes * bytes) * bytes) :=
  match fuel with
  | O => None
  | S fuel =>
      match eat (str " ") l with
      | None => Some ([], l)
      | Some l =>
          let '(name, l) := read_name l in
          l ← eat (str "=" ++ quote) l;
          '(value, l) ← read_text (length l) l;
          l ← eat quote l;
          '(attrs, l) ← read_attrs fuel l;
          if bool_decide (name = []) || bool_decide (name ∈ attrs.*1) then None else Some ((name, map blank value) :: attrs, l)
      end
  end.
(** The nodes up to a closing tag or the end. *)
Fixpoint read_nodes (fuel : nat) (l : bytes) : option (list xml * bytes) :=
  match fuel with
  | O => None
  | S fuel =>
      if bool_decide (l = []) || starts_with (str "</") l then Some ([], l) else
      match eat (str "<") l with
      | None =>
          '(t, l) ← read_text (length l) l;
          '(nodes, l) ← read_nodes fuel l;
          Some (Content t :: nodes, l)
      | Some l =>
          let '(name, l) := read_name l in
          if bool_decide (name = []) then None else
          '(attrs, l) ← read_attrs (S (length l)) l;
          match eat (str "/>") l with
          | Some l => '(nodes, l) ← read_nodes fuel l; Some (Element name attrs [] :: nodes, l)
          | None =>
              l ← eat (str ">") l;
              '(children, l) ← read_nodes fuel l;
              l ← eat (str "</" ++ name ++ str ">") l;
              '(nodes, l) ← read_nodes fuel l;
              Some (Element name attrs children :: nodes, l)
          end
      end
  end.
Definition PROLOG : bytes :=
  str "<?xml version=" ++ quote ++ str "1.0" ++ quote ++ str " encoding=" ++ quote ++ str "UTF-8" ++ quote ++ str "?>" ++ [x0a].
(** A document: the prolog and one element, up to a line end. *)
Definition read_document (l : bytes) : option xml :=
  if negb (well_encoded l) then None else
  l ← eat PROLOG l;
  '(nodes, rest) ← read_nodes (S (length l)) l;
  match nodes, rest with
  | [Element name attrs children; Content [x0a]], [] => Some (Element name attrs children)
  | _, _ => None
  end.

(** ** Text *)

(** A text as a reader sees it: what XML cannot hold is replaced, line ends are line feeds, and in an attribute
    they and tabs are spaces. *)
Definition clean_char (c : bytes) : bytes := if Char (code_point c) then c else replacement.
Definition clean (value : bytes) : bytes := concat (map clean_char (chars value)).
Fixpoint eol (l : bytes) : bytes :=
  match l with
  | [] => []
  | b :: r => if bool_decide (b = x0d) then x0a :: (match r with c :: r' => if bool_decide (c = x0a) then eol r' else eol r | [] => [] end) else b :: eol r
  end.
Definition in_text (value : bytes) : bytes := eol (clean value).
Definition in_attr (value : bytes) : bytes := map blank (eol (clean value)).

(** *** Characters *)

(** The encoding of a character. *)
Definition char_ok (c : bytes) : Prop := c <> [] /\ utf8_step c = (true, length c).

Lemma step_size l : (1 <= (utf8_step l).2 <= 4)%nat.
Proof. unfold utf8_step. cbv zeta. repeat match goal with |- context [if ?c then _ else _] => destruct c end; cbn [snd]; lia. Qed.
Lemma step_ascii l : byte_at l 0 < 0x80 -> (utf8_step l).2 = 1%nat.
Proof. intros H. unfold utf8_step. cbv zeta. by rewrite (proj2 (Z.ltb_lt _ _) H). Qed.
(** One ASCII byte, or bytes that are not ASCII. *)
Lemma char_cases c : char_ok c -> (exists b, c = [b] /\ Zb b < 0x80) \/ (c <> [] /\ Forall (fun b => 0x80 <= Zb b) c).
Proof.
  intros [Hne Hs]. destruct c as [|b r]; [done|]. destruct (Z.ltb_spec (Zb b) 0x80) as [Hb|Hb].
  - left. exists b. split; [|done]. assert ((utf8_step (b :: r)).2 = 1%nat) as Hsz by (by apply step_ascii). rewrite Hs in Hsz.
    destruct r; [done|simpl in Hsz; lia].
  - right. split; [done|]. apply Forall_lookup. intros i x Hi. destruct i as [|i]; [injection Hi as <-; exact Hb|].
    pose proof (lookup_lt_Some _ _ _ Hi). pose proof (utf8_step_tail _ _ (S i) Hs ltac:(lia)) as H1. unfold byte_at in H1. by rewrite Hi in H1.
Qed.
Lemma step_char l n : l <> [] -> utf8_step l = (true, n) -> (n <= length l)%nat /\ char_ok (take n l).
Proof.
  intros Hne Hs. pose proof (utf8_step_pos _ _ Hs) as Hn. assert (n <= length l)%nat as Hl.
  { destruct (decide (n <= length l)%nat) as [|Hgt]; [done|]. exfalso. assert (0 < length l)%nat by (destruct l; [done|simpl; lia]).
    pose proof (utf8_step_tail _ _ (length l) Hs ltac:(lia)) as Hb. unfold byte_at in Hb. by rewrite lookup_ge_None_2 in Hb by lia. }
  split; [done|]. split; [destruct l; [done|destruct n; [lia|done]]|]. rewrite length_take, Nat.min_l by done.
  apply (utf8_step_local l); [done|]. intros i Hi. unfold byte_at. by rewrite lookup_take_lt.
Qed.
Lemma chars_n_ok fuel l : utf8_valid_n fuel l = true -> Forall char_ok (chars_n fuel l).
Proof.
  revert l. induction fuel as [|fuel IH]; intros l Hv; [constructor|]. destruct l as [|b l]; [constructor|]. cbn [chars_n utf8_valid_n] in *.
  destruct (utf8_step (b :: l)) as [ok n] eqn:E. apply andb_prop in Hv as [-> Hv]. constructor; [by apply step_char|by apply IH].
Qed.
Lemma chars_n_concat fuel l : (length l <= fuel)%nat -> concat (chars_n fuel l) = l.
Proof.
  revert l. induction fuel as [|fuel IH]; intros [|b l] Hl; try done; [simpl in Hl; lia|]. cbn [chars_n concat].
  rewrite IH; [apply take_drop|]. rewrite length_drop. pose proof (step_size (b :: l)). simpl in *. lia.
Qed.
(** Encodings, one after the other, are text whose characters they are. *)
Lemma step_app c l : char_ok c -> utf8_step (c ++ l) = (true, length c).
Proof. intros [_ Hs]. apply (utf8_step_local c); [done|]. intros i Hi. unfold byte_at. by rewrite lookup_app_l. Qed.
Lemma concat_chars cs fuel : Forall char_ok cs -> (length (concat cs) <= fuel)%nat -> chars_n fuel (concat cs) = cs /\ utf8_valid_n fuel (concat cs) = true.
Proof.
  intros Hcs. revert fuel. induction Hcs as [|c cs Hc _ IH]; intros fuel Hf; [by destruct fuel|]. cbn [concat] in *. rewrite length_app in Hf.
  destruct fuel as [|fuel]; [destruct Hc as [Hne _]; destruct c; [done|simpl in Hf; lia]|].
  destruct (c ++ concat cs) as [|b r] eqn:E; [destruct Hc as [Hne _]; by destruct c|]. cbn [chars_n utf8_valid_n]. rewrite <- E, step_app by done. cbn [snd].
  rewrite take_app_length, drop_app_length. destruct (IH fuel) as [-> ->]; [|done].
  destruct Hc as [Hne _]. destruct c; [done|simpl in Hf; lia].
Qed.
(** Text of which every character is allowed. *)
Definition good (l : bytes) : Prop := exists cs, Forall (fun c => char_ok c /\ Char (code_point c) = true) cs /\ l = concat cs.
Lemma good_app a b : good a -> good b -> good (a ++ b).
Proof. intros (c1 & H1 & ->) (c2 & H2 & ->). exists (c1 ++ c2). rewrite concat_app. split; [by apply Forall_app|done]. Qed.
Lemma good_concat l : Forall good l -> good (concat l).
Proof. induction 1 as [|a l Ha _ IH]; [by exists []|]. by apply good_app. Qed.
Lemma good_encoded l : good l -> well_encoded l = true.
Proof.
  intros (cs & Hcs & ->). destruct (concat_chars cs (length (concat cs))) as [Hc Hv]; [eapply Forall_impl; [exact Hcs|by intros ? []]|done|].
  unfold well_encoded, from_utf8, chars. rewrite Hc, Hv. apply forallb_forall. intros c Hin. rewrite Forall_forall in Hcs. by apply Hcs, list_elem_of_In.
Qed.
Definition ascii (b : byte) : bool := in_range 0x20 0x7E (Zb b) || bool_decide (b = x0a).
Lemma good_ascii l : forallb ascii l = true -> good l.
Proof.
  intros H. exists (map (fun b => [b]) l). split; [|induction l as [|b l IH]; [done|cbn in *; apply andb_prop in H as [_ H]; by rewrite <- IH]].
  apply Forall_map, Forall_forall. intros b Hb. apply List.forallb_forall with (x := b) in H; [|by apply list_elem_of_In].
  clear Hb. destruct b; vm_compute in H; first [discriminate H|split; [split; [done|reflexivity]|reflexivity]].
Qed.
(** A text that XML can hold is kept. *)
Lemma clean_same value : Forall (fun c => Char (code_point c) = true) (chars value) -> clean value = value.
Proof.
  intros H. unfold clean. transitivity (concat (chars value)); [|by apply chars_n_concat]. f_equal. rewrite <- (map_id (chars value)) at 2.
  apply map_ext_Forall. eapply Forall_impl; [exact H|]. intros c Hc. unfold clean_char. by rewrite Hc.
Qed.

(** [out] spells [t]: the characters of one are the escaped characters of the other. *)
Definition spells (out t : bytes) : Prop := exists cs, Forall char_ok cs /\ out = concat (map xml_char cs) /\ t = concat (map clean_char cs).
Definition text (l : bytes) : Prop := from_utf8 l = true.
Lemma spells_text value : text value -> spells (xml_text value) (clean value).
Proof. intros H. exists (chars value). split; [by apply chars_n_ok|done]. Qed.
Lemma spells_app o1 t1 o2 t2 : spells o1 t1 -> spells o2 t2 -> spells (o1 ++ o2) (t1 ++ t2).
Proof.
  intros (c1 & H1 & -> & ->) (c2 & H2 & -> & ->). exists (c1 ++ c2). rewrite !map_app, !concat_app. split; [by apply Forall_app|done].
Qed.
Lemma text_app a b : text a -> text b -> text (a ++ b).
Proof.
  intros Ha Hb. rewrite <- (chars_n_concat (length a) a), <- (chars_n_concat (length b) b), <- concat_app by done.
  apply concat_chars; [apply Forall_app; split; by apply chars_n_ok|done].
Qed.
Lemma good_char c : char_ok c -> good (xml_char c).
Proof.
  intros Hc. unfold xml_char. destruct (is_xml_10_character (code_point c)) eqn:E.
  2: { exists [replacement]. split; [|done]. constructor; [|done]. split; [split; [done|reflexivity]|reflexivity]. }
  change (is_xml_10_character (code_point c)) with (Char (code_point c)) in E.
  unfold escape. repeat (case_bool_decide; [by apply good_ascii|]). exists [c]. split; [constructor; [by split|constructor]|cbn; by rewrite app_nil_r].
Qed.
Lemma good_spells out t : spells out t -> good out.
Proof. intros (cs & Hcs & -> & _). apply good_concat, Forall_map. eapply Forall_impl; [exact Hcs|]. intros c. apply good_char. Qed.
(** ASCII that needs no escape. *)
Definition literal (b : byte) : bool := in_range 0x20 0x7E (Zb b) && negb (bool_decide (b ∈ [x26; x3c; x3e; x22; x27])).
Lemma literal_char b : literal b = true -> char_ok [b] /\ xml_char [b] = [b] /\ clean_char [b] = [b] /\ blank b = b /\ b <> x0d.
Proof. destruct b; intros H; vm_compute in H; first [discriminate H|split_and!; first [split; [done|reflexivity]|reflexivity|discriminate]]. Qed.
Lemma literal_chars l : forallb literal l = true -> Forall char_ok (map (fun b => [b]) l) /\ concat (map (fun b => [b]) l) = l.
Proof.
  induction l as [|b l IH]; intros H; [done|]. cbn [forallb map concat] in *. apply andb_prop in H as [Hb Hl]. destruct (IH Hl) as [H1 H2].
  destruct (literal_char b Hb) as (Hc & _). split; [by constructor|by rewrite H2].
Qed.
Lemma text_literal l : forallb literal l = true -> text l.
Proof. intros H. destruct (literal_chars l H) as [H1 H2]. rewrite <- H2. by apply concat_chars. Qed.
Lemma spells_literal l : forallb literal l = true -> spells l l.
Proof.
  intros H. exists (map (fun b => [b]) l). split; [by apply literal_chars|]. rewrite !map_map. induction l as [|b l IH]; [done|]. cbn [forallb map concat] in *.
  apply andb_prop in H as [Hb Hl]. destruct (IH Hl) as [H1 H2]. destruct (literal_char b Hb) as (_ & -> & -> & _). cbn [app]. by split; f_equal.
Qed.
Lemma clean_literal l : forallb literal l = true -> clean l = l.
Proof.
  intros H. destruct (literal_chars l H) as [H1 H2]. unfold clean, chars. rewrite <- H2 at 1 2. destruct (concat_chars _ (length (concat (map (fun b => [b]) l))) H1) as [-> _]; [done|].
  destruct (spells_literal l H) as (cs & Hcs & E1 & E2). clear -H. induction l as [|b l IH]; [done|]. cbn [forallb map concat] in *.
  apply andb_prop in H as [Hb Hl]. destruct (literal_char b Hb) as (_ & _ & -> & _). by rewrite IH.
Qed.
Lemma eol_literal l : forallb literal l = true -> map blank (eol l) = l.
Proof.
  induction l as [|b l IH]; intros H; [done|]. cbn [forallb eol] in *. apply andb_prop in H as [Hb Hl]. destruct (literal_char b Hb) as (_ & _ & _ & E & Hne).
  rewrite bool_decide_false by done. cbn [map]. by rewrite E, IH.
Qed.
Lemma in_attr_literal l : forallb literal l = true -> in_attr l = l.
Proof. intros H. unfold in_attr. by rewrite clean_literal, eol_literal. Qed.

(** *** Reading it back *)

(** Where a text ends. *)
Definition stops (l : bytes) : Prop := match l with [] => True | b :: _ => b = x3c \/ b = x22 end.
Lemma read_text_stops fuel l : stops l -> read_text fuel l = Some ([], l).
Proof. destruct fuel, l as [|b l]; try done. cbn [read_text stops]. by intros [-> | ->]. Qed.
(** Bytes that stand for themselves. *)
Definition plain (b : byte) : Prop := b <> x3c /\ b <> x22 /\ b <> x26 /\ b <> x0d.
Lemma read_plain c fuel l : Forall plain c -> (length (c ++ l) <= fuel)%nat ->
  read_text fuel (c ++ l) = ('(t, rest) ← read_text (fuel - length c) l; Some (c ++ t, rest)).
Proof.
  intros Hc. revert fuel. induction Hc as [|b c (H1 & H2 & H3 & H4) _ IH]; intros fuel Hf.
  - cbn [app length]. rewrite Nat.sub_0_r. by destruct (read_text fuel l) as [[t rest]|].
  - destruct fuel as [|fuel]; [simpl in Hf; lia|]. cbn [app read_text length]. rewrite !bool_decide_false by done. cbn [orb].
    rewrite IH by (simpl in Hf; lia). cbn [Nat.sub]. by destruct (read_text (fuel - length c) l) as [[t rest]|].
Qed.
Lemma eol_plain c l : Forall plain c -> eol (c ++ l) = c ++ eol l.
Proof. induction 1 as [|b c (_ & _ & _ & H) _ IH]; [done|]. cbn [app eol]. rewrite bool_decide_false by done. by rewrite IH. Qed.
Lemma plain_multibyte c : Forall (fun b => 0x80 <= Zb b) c -> Forall plain c.
Proof. intros H. eapply Forall_impl; [exact H|]. intros b Hb. split_and!; intros ->; vm_compute in Hb; congruence. Qed.

(** An escape is read as its character. *)
Lemma read_escape b fuel l : b ∈ [x26; x3c; x3e; x22; x27] ->
  (length (escape [b] ++ l) <= fuel)%nat ->
  exists fuel', (length l <= fuel')%nat /\ read_text fuel (escape [b] ++ l) = ('(t, rest) ← read_text fuel' l; Some (b :: t, rest)).
Proof.
  intros Hb Hf. destruct fuel as [|fuel].
  { exfalso. revert Hf. rewrite length_app. repeat (apply elem_of_cons in Hb as [->|Hb]; [vm_compute (length (escape _)); lia|]). by apply elem_of_nil in Hb. }
  exists fuel. rewrite length_app in Hf.
  repeat (apply elem_of_cons in Hb as [->|Hb]; [split; [revert Hf; vm_compute (length (escape _)); lia|reflexivity]|]). by apply elem_of_nil in Hb.
Qed.
(** A character but the carriage return. *)
Lemma read_char c fuel l : char_ok c -> c <> [x0d] -> (length (xml_char c ++ l) <= fuel)%nat ->
  (exists fuel', (length l <= fuel')%nat /\ read_text fuel (xml_char c ++ l) = ('(t, rest) ← read_text fuel' l; Some (clean_char c ++ t, rest))) /\
  (forall t, eol (clean_char c ++ t) = clean_char c ++ eol t).
Proof.
  intros Hc%char_cases Hcr Hf. assert (forall p, xml_char c = p -> clean_char c = p -> Forall plain p -> (exists fuel', (length l <= fuel')%nat /\
    read_text fuel (xml_char c ++ l) = ('(t, rest) ← read_text fuel' l; Some (clean_char c ++ t, rest))) /\ (forall t, eol (clean_char c ++ t) = clean_char c ++ eol t)) as Hplain.
  { intros p E1 E2 Hp. rewrite E1, E2 in *. split; [|intros t; by apply eol_plain]. exists (fuel - length p)%nat. split; [rewrite length_app in Hf; lia|by apply read_plain]. }
  unfold xml_char, clean_char in *. change (is_xml_10_character (code_point c)) with (Char (code_point c)) in *. destruct (Char (code_point c)).
  2: { apply (Hplain replacement); [done..|]. apply plain_multibyte. repeat constructor; vm_compute; congruence. }
  destruct Hc as [(b & -> & Hb)|[Hne Hc]].
  - assert (b <> x0d) as Hb' by (by intros ->). destruct (decide (b ∈ [x26; x3c; x3e; x22; x27])) as [Hin|Hout].
    { split; [by apply read_escape|]. intros t. cbn [app eol]. by rewrite bool_decide_false. }
    rewrite !elem_of_cons, elem_of_nil in Hout.
    assert (escape [b] = [b]) as He by (unfold escape; rewrite !bool_decide_false by (vm_compute; intros [= ->]; tauto); done).
    apply (Hplain [b]); [done..|]. constructor; [|done]. split_and!; intros ->; tauto.
  - assert (forall s, 0x80 > Zb s -> c <> [s]) as Hnot.
    { intros s Hs ->. inversion Hc; subst. lia. }
    assert (escape c = c) as He by (unfold escape; rewrite !bool_decide_false by (vm_compute; apply Hnot; vm_compute; reflexivity); done).
    apply (Hplain c); [done..|]. by apply plain_multibyte.
Qed.
(** Only a line feed begins with one. *)
Lemma first_byte c : char_ok c -> c <> [x0a] -> (exists b r, xml_char c = b :: r /\ b <> x0a) /\ (exists b r, clean_char c = b :: r /\ b <> x0a).
Proof.
  intros Hc Hne. assert (forall p, p = c \/ p = replacement \/ (exists b r, p = b :: r /\ b = x26) -> exists b r, p = b :: r /\ b <> x0a) as H.
  { intros p [-> | [-> | (b & r & -> & ->)]]; [|by eexists _, _|by eexists _, _]. apply char_cases in Hc as [(b & -> & _)|[Hn Hc]].
    - exists b, []. split; [done|by intros ->].
    - destruct Hc as [|b r Hb _]; [done|]. exists b, r. split; [done|]. intros ->. vm_compute in Hb. congruence. }
  split; apply H; unfold xml_char, clean_char; change (is_xml_10_character (code_point c)) with (Char (code_point c)); destruct (Char (code_point c)); auto.
  unfold escape. repeat (case_bool_decide; [right; right; by eexists _, _|]). by left.
Qed.
Lemma read_chars n cs l : (length cs <= n)%nat -> Forall char_ok cs -> stops l -> forall fuel, (length (concat (map xml_char cs) ++ l) <= fuel)%nat ->
  read_text fuel (concat (map xml_char cs) ++ l) = Some (eol (concat (map clean_char cs)), l).
Proof.
  intros Hn Hcs Hl. revert cs Hn Hcs. induction n as [|n IH]; intros [|c cs] Hn Hcs fuel Hf; cbn [map concat app] in *; try (by apply read_text_stops); [simpl in Hn; lia|].
  apply Forall_cons in Hcs as [Hc Hcs]. cbn [length] in Hn. rewrite <- app_assoc in *.
  destruct (decide (c = [x0d])) as [->|Hcr].
  - change (xml_char [x0d]) with [x0d] in *. change (clean_char [x0d]) with [x0d]. destruct fuel as [|fuel]; [simpl in Hf; lia|].
    cbn [app length] in Hf. cbn [app read_text eol]. change (bool_decide (x0d = x3c) || bool_decide (x0d = x22)) with false. change (bool_decide (x0d = x26)) with false.
    change (bool_decide (x0d = x0d)) with true. cbv iota. destruct cs as [|c cs].
    { cbn [map concat app] in *. assert (starts_with [x0a] l = false) as -> by (destruct l as [|b l]; [done|destruct Hl as [-> | ->]; reflexivity]). by rewrite read_text_stops. }
    apply Forall_cons in Hcs as [Hc' Hcs]. cbn [map concat] in *. rewrite <- app_assoc in *. destruct (decide (c = [x0a])) as [->|Hlf].
    + change (xml_char [x0a]) with [x0a] in *. change (clean_char [x0a]) with [x0a]. cbn [app] in *. change (starts_with [x0a] (x0a :: ?r)) with true. cbv iota. cbn [drop].
      rewrite (IH cs); [|simpl in Hn; lia|done|simpl in Hf; lia]. cbn [mbind option_bind]. by rewrite bool_decide_true.
    + destruct (first_byte c Hc' Hlf) as [(b & r & E & Hb) (b' & r' & E' & Hb')].
      assert (starts_with [x0a] (xml_char c ++ concat (map xml_char cs) ++ l) = false) as -> by (rewrite E; cbn; by destruct b).
      specialize (IH (c :: cs)). cbn [map concat] in IH. rewrite <- app_assoc in IH.
      rewrite IH; [|simpl in *; lia|by constructor|lia]. cbn [mbind option_bind]. rewrite E'. cbn [app]. by rewrite (bool_decide_false (b' = x0a)).
  - destruct (read_char c fuel _ Hc Hcr Hf) as [(fuel' & Hf' & ->) Heol]. rewrite (IH cs) by (done || lia). cbn [mbind option_bind]. by rewrite Heol.
Qed.
Lemma read_spells out t fuel l : spells out t -> stops l -> (length (out ++ l) <= fuel)%nat -> read_text fuel (out ++ l) = Some (eol t, l).
Proof. intros (cs & Hcs & -> & ->) Hl Hf. by apply (read_chars (length cs)). Qed.
(** *** Elements *)

Lemma eat_app p l : eat p (p ++ l) = Some l.
Proof. unfold eat. rewrite (proj2 (starts_with_prefix p (p ++ l))) by (by exists l). by rewrite drop_app_length. Qed.
Definition name_ok (n : bytes) : Prop := n <> [] /\ forallb name_char n = true.
Lemma read_name_app n b l : forallb name_char n = true -> name_char b = false -> read_name (n ++ b :: l) = (n, b :: l).
Proof.
  intros Hn Hb. induction n as [|a n IH]; cbn [app read_name forallb] in *; [by rewrite Hb|].
  apply andb_prop in Hn as [-> Hn]. by rewrite (IH Hn).
Qed.

Inductive attrs_of : bytes -> list (bytes * bytes) -> Prop :=
  | attrs_none : attrs_of [] []
  | attrs_more n v t out attrs : name_ok n -> spells v t -> attrs_of out attrs -> bool_decide (n ∈ attrs.*1) = false ->
      attrs_of (str " " ++ n ++ str "=" ++ quote ++ v ++ quote ++ out) ((n, map blank (eol t)) :: attrs).
Inductive renders : bytes -> list xml -> Prop :=
  | renders_nil : renders [] []
  | renders_element n out attrs body children tail nodes :
      name_ok n -> attrs_of out attrs -> renders body children -> renders tail nodes ->
      renders (str "<" ++ n ++ out ++ str ">" ++ body ++ str "</" ++ n ++ str ">" ++ tail) (Element n attrs children :: nodes)
  | renders_empty n out attrs tail nodes :
      name_ok n -> attrs_of out attrs -> renders tail nodes ->
      renders (str "<" ++ n ++ out ++ str "/>" ++ tail) (Element n attrs [] :: nodes)
  | renders_content out t tail nodes :
      spells out t -> out <> [] -> stops tail -> renders tail nodes -> renders (out ++ tail) (Content (eol t) :: nodes).

(** What comes after the attributes of a tag. *)
Definition closes (l : bytes) : Prop := exists r, l = str ">" ++ r \/ l = str "/>" ++ r.
Lemma attrs_next out attrs l : attrs_of out attrs -> closes l -> exists b r, out ++ l = b :: r /\ name_char b = false.
Proof.
  intros [|n v t out' attrs' Hn _ _ _] (r & [-> | ->]); try (by eexists _, _; split; [reflexivity|vm_compute; reflexivity]).
Qed.
Lemma read_attrs_spec out attrs l fuel : attrs_of out attrs -> closes l -> (length (out ++ l) < fuel)%nat -> read_attrs fuel (out ++ l) = Some (attrs, l).
Proof.
  intros Ha Hl. revert fuel. induction Ha as [|n v t out attrs [Hne Hn] Hv Ha IH Hnew]; intros [|fuel] Hf; try lia.
  { destruct Hl as (r & [-> | ->]); reflexivity. }
  rewrite <- !app_assoc in *. cbn [read_attrs]. rewrite eat_app. cbn [mbind option_bind].
  change (str "=" ++ quote ++ v ++ quote ++ out ++ l) with (x3d :: quote ++ v ++ quote ++ out ++ l).
  rewrite read_name_app by done. change (x3d :: quote ++ v ++ quote ++ out ++ l) with ((str "=" ++ quote) ++ v ++ quote ++ out ++ l).
  rewrite eat_app. cbn [mbind option_bind]. rewrite (read_spells v t _ (quote ++ out ++ l) Hv); [|by right|done]. cbn [mbind option_bind]. rewrite eat_app. cbn [mbind option_bind].
  rewrite IH; [|rewrite !length_app in *; cbn in Hf; lia]. cbn [mbind option_bind]. by rewrite bool_decide_false, Hnew.
Qed.

Lemma spells_first out t l : spells out t -> out <> [] -> exists b r, out ++ l = b :: r /\ b <> x3c.
Proof.
  intros (cs & Hcs & -> & _) Hne. destruct Hcs as [|c cs Hc _]; [done|]. cbn [map concat] in *.
  assert (exists b r, xml_char c = b :: r /\ b <> x3c) as (b & r & E & Hb).
  { apply char_cases in Hc. unfold xml_char. destruct (is_xml_10_character (code_point c)); [|by eexists _, _].
    unfold escape. repeat (case_bool_decide; [by eexists _, _|]). destruct Hc as [(b & -> & _)|[Hc1 Hc2]].
    - exists b, []. split; [done|]. intros ->. apply H0. reflexivity.
    - destruct Hc2 as [|b c Hb _]; [done|]. exists b, c. split; [done|]. intros ->. vm_compute in Hb. congruence. }
  exists b, (r ++ concat (map xml_char cs) ++ l). rewrite E. by rewrite <- app_assoc.
Qed.
(** The end of a list of nodes. *)
Definition ends (l : bytes) : Prop := l = [] \/ exists r, l = str "</" ++ r.
Lemma ends_stops l : ends l -> stops l.
Proof. intros [->|[r ->]]; [done|by left]. Qed.
Lemma renders_stops out nodes l : renders out nodes -> ends l -> stops out -> stops (out ++ l).
Proof. intros Hr Hl Hs. destruct out as [|b out]; [by apply ends_stops|done]. Qed.
Lemma tag_first n out attrs l : name_ok n -> attrs_of out attrs -> starts_with (str "</") (str "<" ++ n ++ out ++ l) = false.
Proof.
  intros [Hne Hn] _. destruct n as [|b n]; [done|]. cbn [forallb] in Hn. apply andb_prop in Hn as [Hb _].
  change (str "<" ++ (b :: n) ++ out ++ l) with (x3c :: b :: n ++ out ++ l).
  clear -Hb. destruct b; vm_compute in Hb; first [discriminate Hb|reflexivity].
Qed.
Lemma renders_reads out nodes l fuel :
  renders out nodes -> ends l -> (length (out ++ l) < fuel)%nat -> read_nodes fuel (out ++ l) = Some (nodes, l).
Proof.
  intros Hr. revert l fuel. induction Hr as [|n out attrs body children tail nodes Hn Ha Hb IHb Ht IHt|n out attrs tail nodes Hn Ha Ht IHt|out t tail nodes Hs Hne Hst Ht IHt];
    intros l [|fuel] Hl Hf; try lia; cbn [read_nodes].
  - cbn [app]. destruct Hl as [->|[r ->]]; reflexivity.
  - rewrite <- !app_assoc in *. rewrite bool_decide_false by done. rewrite (tag_first n out attrs) by done. cbn [orb]. rewrite eat_app.
    set (rest := str ">" ++ body ++ str "</" ++ n ++ str ">" ++ tail ++ l) in *.
    destruct (attrs_next out attrs rest Ha) as (b & r & E & Hnc); [by eexists; left|]. rewrite E, read_name_app by (apply Hn || done). rewrite <- E, bool_decide_false by apply Hn.
    rewrite (read_attrs_spec out attrs rest) by (done || lia || by eexists; left). cbn [mbind option_bind].
    assert (eat (str "/>") rest = None) as -> by reflexivity. unfold rest at 1. rewrite eat_app. cbn [mbind option_bind].
    unfold rest in *. rewrite !length_app in *. rewrite IHb; [|by right; eexists|rewrite !length_app; cbn in *; lia]. cbn [mbind option_bind].
    assert (str "</" ++ n ++ str ">" ++ tail ++ l = (str "</" ++ n ++ str ">") ++ tail ++ l) as -> by (by rewrite <- !app_assoc).
    rewrite eat_app. cbn [mbind option_bind]. rewrite IHt; [done|done|rewrite !length_app; cbn in *; lia].
  - rewrite <- !app_assoc in *. rewrite bool_decide_false by done. rewrite (tag_first n out attrs) by done. cbn [orb]. rewrite eat_app.
    set (rest := str "/>" ++ tail ++ l) in *.
    destruct (attrs_next out attrs rest Ha) as (b & r & E & Hnc); [by eexists; right|]. rewrite E, read_name_app by (apply Hn || done). rewrite <- E, bool_decide_false by apply Hn.
    rewrite (read_attrs_spec out attrs rest) by (done || lia || by eexists; right). cbn [mbind option_bind]. unfold rest at 1. rewrite eat_app.
    unfold rest in *. rewrite !length_app in *. rewrite IHt; [done|done|rewrite !length_app; cbn in *; lia].
  - rewrite <- app_assoc in *. destruct (spells_first out t (tail ++ l) Hs Hne) as (b & r & E & Hb).
    rewrite bool_decide_false by (rewrite E; done).
    assert (starts_with (str "</") (out ++ tail ++ l) = false) as -> by (rewrite E; destruct b; done).
    assert (eat (str "<") (out ++ tail ++ l) = None) as -> by (rewrite E; destruct b; done). cbn [orb].
    rewrite (read_spells out t _ (tail ++ l) Hs); [|by eapply renders_stops|done]. cbn [mbind option_bind].
    rewrite IHt; [done|done|]. rewrite !length_app in *. assert (0 < length out)%nat by (destruct out; [done|simpl; lia]). lia.
Qed.


(** What renders nodes is text of allowed characters. *)
Lemma good_name n : name_ok n -> good n.
Proof.
  intros [_ Hn]. apply good_ascii. induction n as [|b n IH]; [done|]. cbn [forallb] in *. apply andb_prop in Hn as [Hb Hn]. rewrite IH by done.
  clear -Hb. destruct b; vm_compute in Hb |- *; first [discriminate Hb|reflexivity].
Qed.
#[local] Hint Resolve good_app good_name good_spells : junit.
#[local] Hint Extern 1 (good (str _)) => (apply good_ascii; reflexivity) : junit.
#[local] Hint Extern 1 (good quote) => (apply good_ascii; reflexivity) : junit.
Lemma attrs_good out attrs : attrs_of out attrs -> good out.
Proof. induction 1; [by apply good_ascii|]. eauto 12 with junit. Qed.
Lemma renders_good out nodes : renders out nodes -> good out.
Proof. induction 1; [by apply good_ascii|..]; eauto 12 using attrs_good with junit. Qed.

(** ** The report *)

(** *** Literals *)

Lemma digit_literal d : 0 <= d < 10 -> literal (bZ (48 + d)) = true.
Proof.
  intros Hd. assert (forall k, (k < 10)%nat -> literal (bZ (48 + Z.of_nat k)) = true) as H.
  { intros k Hk. do 10 (destruct k as [|k]; [reflexivity|]). lia. }
  rewrite <- (Z2Nat.id d) by lia. apply H. lia.
Qed.
Lemma print_digits_literal fuel n : 0 <= n -> forallb literal (print_digits fuel n) = true.
Proof.
  revert n. induction fuel as [|fuel IH]; intros n Hn; cbn [print_digits]; [done|]. destruct (Z.ltb_spec n 10).
  - cbn [forallb]. by rewrite digit_literal by lia.
  - rewrite forallb_app, IH by (apply Z.div_pos; lia). cbn [forallb]. by rewrite digit_literal by (apply Z.mod_pos_bound; lia).
Qed.
Lemma print_int_literal n : forallb literal (print_int n) = true.
Proof. unfold print_int. destruct (Z.ltb_spec n 0); [rewrite forallb_app; change (forallb literal (str "-")) with true|]; apply print_digits_literal; lia. Qed.
Lemma thousandths_nonneg m e : 0 <= thousandths (Zpos m) e.
Proof.
  unfold thousandths. destruct (Z.leb_spec 0 e); [pose proof (Z.pow_nonneg 2 e); lia|]. unfold divide_to_even.
  pose proof (Z.pow_pos_nonneg 2 (- e)). assert (0 <= Z.pos m * 1000 / 2 ^ (- e)) by (apply Z.div_pos; lia). cbv zeta. destruct (_ || _); lia.
Qed.
Lemma point3_literal n : 0 <= n -> forallb literal (point3 n) = true.
Proof.
  intros Hn. unfold point3. rewrite !forallb_app. unfold print_nat. rewrite print_digits_literal by (apply Z.div_pos; lia).
  cbn [map forallb]. by rewrite !digit_literal by (apply Z.mod_pos_bound; lia).
Qed.
Lemma fixed3_literal x : forallb literal (fixed3 x) = true.
Proof.
  destruct x as [s|s| |s m e]; cbn [fixed3]; rewrite ?forallb_app; try done; try by destruct s.
  rewrite point3_literal by apply thousandths_nonneg. by destruct s.
Qed.

(** *** The tree of a report *)


(** The texts of a summary are UTF-8, as a [String] is. *)
Definition case_text (c : TestCaseSummary) : Prop :=
  text (class_name c) /\ text (method_name c) /\ match status c with Some (Other s) => text s | _ => True end /\
  match failure c with Some f => text (message f) /\ match file f with Some f => text f | None => True end | None => True end.
Definition suite_text (s : TestSuiteSummary) : Prop := text (name s) /\ Forall case_text (cases s).
Definition summary_text (s : TestRunSummary) : Prop := Forall suite_text (s_suites s) /\ Forall text (s_logs s) /\ Forall text (s_debug_logs s).

Definition attr (n : string) (v : bytes) : bytes * bytes := (str n, v).
Definition element (n : string) := Element (str n).
(** There is no empty text. *)
Definition content (t : bytes) : list xml := match t with [] => [] | _ => [Content t] end.
Definition failure_text (f : TestFailure) : bytes :=
  match file f with
  | Some file => clean file ++ match line f with Some n => str ":" ++ print_int n | None => [] end ++ str ": "
  | None => []
  end ++ clean (message f).
Definition property_tree (n value : bytes) : xml := element "properties" [] [element "property" [attr "name" n; attr "value" value] []].
Definition error_tree (error_type : string) (message : bytes) : xml := element "error" [attr "type" (str error_type); attr "message" message] [].
Definition status_tree (c : TestCaseSummary) : list xml :=
  match status c with
  | Some Passed => []
  | Some Failed =>
      match failure c with
      | Some f => [element "failure" [attr "type" (str "XCTestFailure"); attr "message" (in_attr (message f))] (content (eol (failure_text f)))]
      | None => [element "failure" [attr "type" (str "XCTestFailure"); attr "message" (str "failed")] []]
      end
  | Some Skipped => [element "skipped" [] []]
  | Some ExpectedFailure => [element "skipped" [attr "message" (str "expected failure")] []; property_tree (str "status") (str "expected_failure")]
  | Some Stalled => [error_tree "stalled" (str "XCTest case stalled")]
  | Some (Other s) => [property_tree (str "status") (in_attr s); error_tree "unknown_status" (in_attr s)]
  | None => [property_tree (str "status") (str "unknown"); error_tree "incomplete" (str "XCTest case did not report a final status")]
  end.
Definition case_tree (c : TestCaseSummary) : xml :=
  element "testcase" [attr "classname" (in_attr (class_name c)); attr "name" (in_attr (method_name c));
                      attr "time" (fixed3 (finite_duration (default zero (duration_seconds c))))] (status_tree c).
Definition suite_attr_list (name : bytes) (r : JUnitSuiteReport) : list (bytes * bytes) :=
  [attr "name" (in_attr name); attr "tests" (print_int (tests r)); attr "failures" (print_int (failures r)); attr "errors" (print_int (errors r));
   attr "skipped" (print_int (skipped r)); attr "time" (fixed3 (time r))].
Definition suite_tree (s : TestSuiteSummary) (r : JUnitSuiteReport) : xml :=
  element "testsuite" (suite_attr_list (name s) r)
    (match expected_failures s with Some n => [property_tree (str "expected_failures") (print_int n)] | None => [] end ++ map case_tree (cases s)).
Definition diagnostic_tree (d : bytes) : xml :=
  element "testsuite" (suite_attr_list (str "xctest-diagnostic") (mkReport 0 0 1 0 zero))
    [element "error" [attr "type" (str "xctest_diagnostic"); attr "message" (in_attr d)] (content (in_text d))].
Definition output_tree (n : string) (logs : list bytes) : list xml :=
  match logs with [] => [] | _ => [element n [] (content (in_text (join_lines logs)))] end.
Definition outputs_tree (s : TestRunSummary) : list xml :=
  match s_logs s, s_debug_logs s with
  | [], [] => []
  | logs, debug_logs =>
      [element "testsuite" (suite_attr_list (str "xctest-output") (mkReport 0 0 0 0 zero)) (output_tree "system-out" logs ++ output_tree "system-err" debug_logs)]
  end.

(** *** Rendering is right *)

(** [out] is the text of [nodes], whatever comes after it. *)
Definition emits (out : bytes) (nodes : list xml) : Prop := forall tail more, renders tail more -> renders (out ++ tail) (nodes ++ more).
Lemma emits_nil : emits [] [].
Proof. by intros tail more H. Qed.
Lemma emits_app o1 n1 o2 n2 : emits o1 n1 -> emits o2 n2 -> emits (o1 ++ o2) (n1 ++ n2).
Proof. intros H1 H2 tail more H. rewrite <- !app_assoc. by apply H1, H2. Qed.
Lemma emits_concat {A} (f : A -> bytes) (g : A -> xml) l : Forall (fun a => emits (f a) [g a]) l -> emits (concat (map f l)) (map g l).
Proof. induction 1 as [|a l H _ IH]; [apply emits_nil|]. exact (emits_app _ [g a] _ _ H IH). Qed.
Lemma emits_renders out nodes : emits out nodes -> renders out nodes.
Proof. intros H. specialize (H [] [] renders_nil). by rewrite !app_nil_r in H. Qed.
Lemma content_renders out t : spells out t -> renders out (content (eol t)).
Proof.
  intros Hs. pose proof Hs as (cs & Hcs & E1 & E2). assert (forall c, char_ok c -> xml_char c <> [] /\ clean_char c <> []) as Hne.
  { intros c [Hc _]. unfold xml_char, clean_char. destruct (is_xml_10_character _), (Char _); (split; [|done]); try done; unfold escape; by repeat case_bool_decide. }
  destruct Hcs as [|c cs Hc _]; cbn [map concat] in *; subst; [constructor|]. destruct (Hne c Hc) as [H1 H2].
  assert (forall l, l <> [] -> content (eol l) = [Content (eol l)]) as Hcon by (intros [|b l] Hl; [done|]; cbn [eol]; by destruct (bool_decide (b = x0d))).
  rewrite Hcon by (by destruct (clean_char c)). rewrite <- (app_nil_r (xml_char c ++ _)).
  constructor; [done| |done|constructor]. by destruct (xml_char c).
Qed.

Lemma attrs_xml n v t out attrs : name_ok (str n) -> text v -> in_attr v = t -> attrs_of out attrs -> bool_decide (str n ∈ attrs.*1) = false ->
  attrs_of (xml_attr n v ++ out) (attr n t :: attrs).
Proof. intros Hn Hv <- Ha Hnew. unfold xml_attr. rewrite <- !app_assoc. constructor; [done|by apply spells_text|done|done]. Qed.
Lemma attrs_last n v t : name_ok (str n) -> text v -> in_attr v = t -> attrs_of (xml_attr n v) [attr n t].
Proof. intros Hn Hv Ht. rewrite <- (app_nil_r (xml_attr n v)). apply attrs_xml; [done..|constructor|done]. Qed.
Lemma attrs_number n k out attrs : name_ok (str n) -> forallb literal k = true -> attrs_of out attrs -> bool_decide (str n ∈ attrs.*1) = false ->
  attrs_of (str " " ++ str n ++ str "=" ++ quote ++ k ++ quote ++ out) (attr n k :: attrs).
Proof.
  intros Hn Hk Ha Hnew. unfold attr. rewrite <- (eol_literal k Hk) at 2. constructor; [done|by apply spells_literal|done|done].
Qed.
Lemma emits_element n out attrs body children : name_ok (str n) -> attrs_of out attrs -> renders body children ->
  emits (str "<" ++ str n ++ out ++ str ">" ++ body ++ str "</" ++ str n ++ str ">") [element n attrs children].
Proof. intros Hn Ha Hb tail more Ht. rewrite <- !app_assoc. by constructor. Qed.
Lemma emits_empty n out attrs : name_ok (str n) -> attrs_of out attrs -> emits (str "<" ++ str n ++ out ++ str "/>") [element n attrs []].
Proof. intros Hn Ha tail more Ht. rewrite <- !app_assoc. by constructor. Qed.
#[local] Hint Resolve attrs_xml attrs_last print_int_literal fixed3_literal in_attr_literal text_literal emits_renders : junit.
#[local] Hint Extern 0 (name_ok _) => (split; [discriminate|reflexivity]) : junit.
#[local] Hint Extern 0 (forallb literal _ = true) => reflexivity : junit.
#[local] Hint Extern 0 (bool_decide (_ ∈ _) = false) => reflexivity : junit.

Lemma suite_attrs_of name r : text name -> attrs_of (suite_attrs name r) (suite_attr_list name r).
Proof. intros Hn. unfold suite_attrs, suite_attr_list. auto 20 with junit. Qed.
Lemma emits_property n v n' v' : text n -> text v -> in_attr n = n' -> in_attr v = v' ->
  emits (str "<properties><property" ++ (xml_attr "name" n ++ xml_attr "value" v) ++ str "/></properties>") [property_tree n' v'].
Proof.
  intros Tn Tv Hn Hv. pose proof (emits_element "properties" [] [] _ _ ltac:(auto with junit) attrs_none
    (emits_renders _ _ (emits_empty "property" (xml_attr "name" n ++ xml_attr "value" v) [attr "name" n'; attr "value" v'] ltac:(auto with junit) ltac:(auto with junit)))) as H.
  rewrite <- !app_assoc in *. exact H.
Qed.
Lemma emits_error t m m' : forallb literal (str t) = true -> text m -> in_attr m = m' -> emits (render_error t m) [error_tree t m'].
Proof.
  intros Ht Tm Hm. pose proof (emits_empty "error" (xml_attr "type" (str t) ++ xml_attr "message" m) [attr "type" (str t); attr "message" m']
    ltac:(auto with junit) ltac:(auto with junit)) as H. unfold render_error. rewrite <- !app_assoc in *. exact H.
Qed.
Lemma emits_failure f : text (message f) -> match file f with Some f => text f | None => True end ->
  emits (render_failure f) [element "failure" [attr "type" (str "XCTestFailure"); attr "message" (in_attr (message f))] (content (eol (failure_text f)))].
Proof.
  intros Tm Tf.
  set (body := match file f with
    | Some file => xml_text file ++ match line f with Some n => str ":" ++ print_int n | None => [] end ++ str ": " | None => [] end ++ xml_text (message f)).
  assert (spells body (failure_text f)) as Hb.
  { unfold body, failure_text. apply spells_app; [|by apply spells_text]. destruct (file f) as [fl|]; [|by apply spells_literal].
    apply spells_app; [by apply spells_text|]. apply spells_app; [|by apply spells_literal]. apply spells_literal.
    destruct (line f); [|done]. rewrite forallb_app, print_int_literal. done. }
  pose proof (emits_element "failure" (xml_attr "type" (str "XCTestFailure") ++ xml_attr "message" (message f)) _ _ _
    ltac:(auto with junit) ltac:(auto with junit) (content_renders _ _ Hb)) as H.
  unfold render_failure. unfold body in H. rewrite <- !app_assoc in *. exact H.
Qed.
Lemma emits_status c : case_text c -> emits (render_status c) (status_tree c).
Proof.
  intros (_ & _ & Tst & Tf).
  unfold render_status, status_tree. destruct (status c) as [[| | | | |st]|].
  - apply emits_nil.
  - destruct (failure c) as [f|]; [by apply emits_failure; apply Tf|].
    pose proof (emits_empty "failure" _ [attr "type" (str "XCTestFailure"); attr "message" (str "failed")] ltac:(auto with junit)
      (attrs_number "type" (str "XCTestFailure") _ _ ltac:(auto with junit) eq_refl (attrs_number "message" (str "failed") [] [] ltac:(auto with junit) eq_refl attrs_none eq_refl) eq_refl)) as H.
    rewrite <- !app_assoc in *. exact H.
  - pose proof (emits_empty "skipped" (xml_attr "message" (str "expected failure")) [attr "message" (str "expected failure")] ltac:(auto with junit) ltac:(auto with junit)) as H.
    pose proof (emits_app _ _ _ _ H (emits_property (str "status") (str "expected_failure") _ _ eq_refl eq_refl eq_refl eq_refl)) as H'.
    unfold render_status_property. rewrite <- !app_assoc in *. exact H'.
  - by apply emits_error; [| |apply in_attr_literal].
  - exact (emits_empty "skipped" [] [] ltac:(auto with junit) attrs_none).
  - pose proof (emits_app _ _ _ _ (emits_property (str "status") st _ _ eq_refl Tst eq_refl eq_refl) (emits_error "unknown_status" st _ eq_refl Tst eq_refl)) as H.
    unfold render_status_property. rewrite <- !app_assoc in *. exact H.
  - pose proof (emits_app _ _ _ _ (emits_property (str "status") (str "unknown") _ _ eq_refl eq_refl eq_refl eq_refl)
      (emits_error "incomplete" (str "XCTest case did not report a final status") _ eq_refl eq_refl eq_refl)) as H.
    unfold render_status_property. rewrite <- !app_assoc in *. exact H.
Qed.
Lemma emits_case c : case_text c -> emits (render_case c) [case_tree c].
Proof.
  intros Tc. pose proof Tc as (Tcl & Tme & _).
  pose proof (emits_element "testcase" (xml_attr "classname" (class_name c) ++ xml_attr "name" (method_name c) ++ xml_attr "time" (fixed3 (finite_duration (default zero (duration_seconds c)))))
    [attr "classname" (in_attr (class_name c)); attr "name" (in_attr (method_name c)); attr "time" (fixed3 (finite_duration (default zero (duration_seconds c))))] _ _ ltac:(auto with junit) ltac:(auto with junit) (emits_renders _ _ (emits_status c Tc))) as H.
  unfold render_case. rewrite <- !app_assoc in *. exact H.
Qed.
Lemma emits_suite s r : suite_text s -> emits (render_junit_suite s r) [suite_tree s r].
Proof.
  intros [Tn Tc]. unfold render_junit_suite, suite_tree. set (props := match expected_failures s with Some n => str "<properties><property" ++ _ | None => [] end).
  assert (emits props (match expected_failures s with Some n => [property_tree (str "expected_failures") (print_int n)] | None => [] end)) as Hp.
  { unfold props. destruct (expected_failures s) as [n|]; [|apply emits_nil].
    pose proof (emits_property (str "expected_failures") (print_int n) _ _ eq_refl (text_literal _ (print_int_literal _)) eq_refl (in_attr_literal _ (print_int_literal _))) as H.
    rewrite <- !app_assoc in *. exact H. }
  pose proof (emits_element "testsuite" _ _ _ _ ltac:(auto with junit) (suite_attrs_of (name s) r Tn)
    (emits_renders _ _ (emits_app _ _ _ _ Hp (emits_concat render_case case_tree (cases s) (Forall_impl _ _ _ Tc emits_case))))) as H.
  rewrite <- !app_assoc in *. exact H.
Qed.
Lemma emits_diagnostic d : text d -> emits (render_diagnostic d) [diagnostic_tree d].
Proof.
  intros Td.
  pose proof (emits_element "error" (xml_attr "type" (str "xctest_diagnostic") ++ xml_attr "message" d)
    [attr "type" (str "xctest_diagnostic"); attr "message" (in_attr d)] _ _ ltac:(auto with junit) ltac:(auto with junit)
    (content_renders _ _ (spells_text d Td))) as H.
  pose proof (emits_element "testsuite" _ _ _ _ ltac:(auto with junit) (suite_attrs_of (str "xctest-diagnostic") (mkReport 0 0 1 0 zero) eq_refl) (emits_renders _ _ H)) as H'.
  unfold render_diagnostic. rewrite <- !app_assoc in *. exact H'.
Qed.
Lemma text_lines logs : Forall text logs -> text (join_lines logs).
Proof.
  induction 1 as [|a l Ha Hl IH]; [done|]. destruct l as [|b l]; [done|]. cbn [join_lines] in *. apply text_app; [done|]. by apply (text_app [x0a]).
Qed.
Lemma emits_log n logs : name_ok (str n) -> Forall text logs ->
  emits (match logs with [] => [] | _ => str "<" ++ str n ++ str ">" ++ xml_text (join_lines logs) ++ str "</" ++ str n ++ str ">" end) (output_tree n logs).
Proof.
  intros Hn Tl. destruct logs as [|a logs]; [apply emits_nil|]. exact (emits_element n [] [] _ _ Hn attrs_none (content_renders _ _ (spells_text _ (text_lines _ Tl)))).
Qed.
Lemma emits_output s : summary_text s -> emits (render_output s) (outputs_tree s).
Proof.
  intros (_ & Tl & Td).
  pose proof (emits_app _ _ _ _ (emits_log "system-out" (s_logs s) ltac:(auto with junit) Tl) (emits_log "system-err" (s_debug_logs s) ltac:(auto with junit) Td)) as Hl.
  pose proof (emits_element "testsuite" _ _ _ _ ltac:(auto with junit) (suite_attrs_of (str "xctest-output") (mkReport 0 0 0 0 zero) eq_refl) (emits_renders _ _ Hl)) as H.
  unfold render_output, outputs_tree. destruct (s_logs s) as [|a l], (s_debug_logs s) as [|b l']; [apply emits_nil|..];
    rewrite <- ?app_assoc in *; exact H.
Qed.

(** The report of a suite and the totals, as trees. *)
Definition errors_total (no_sum : f64) (s : TestRunSummary) (diagnostic : option bytes) : Z :=
  match diagnostic_of s diagnostic with Some _ => u64_saturating_add (errors (totals no_sum s)) 1 | None => errors (totals no_sum s) end.
Definition report_tree (no_sum : f64) (s : TestRunSummary) (diagnostic : option bytes) : xml :=
  let t := totals no_sum s in
  element "testsuites" [attr "name" (str "XCTest"); attr "tests" (print_int (tests t)); attr "failures" (print_int (failures t));
                        attr "errors" (print_int (errors_total no_sum s diagnostic)); attr "skipped" (print_int (skipped t)); attr "time" (fixed3 (finite_duration (time t)))]
    (map (fun suite => suite_tree suite (from_suite no_sum suite)) (s_suites s) ++
     match diagnostic_of s diagnostic with Some d => [diagnostic_tree d] | None => [] end ++ outputs_tree s).

(** *** Cutting a text *)

Lemma step_cont l n i : utf8_step l = (true, n) -> (1 <= i < n)%nat -> in_range 0x80 0xBF (byte_at l i) = true.
Proof.
  unfold utf8_step. cbv zeta. intros H Hi. utf8_cases H; injection H as <-;
    destruct i as [|[|[|[|i]]]]; try lia; unfold in_range in *;
    repeat match goal with H : context [if ?c then _ else _] |- _ => destruct c eqn:? end; lia.
Qed.
Lemma boundary_cont l k : (0 < k < length l)%nat -> in_range 0x80 0xBF (byte_at l k) = true -> is_char_boundary l k = false.
Proof.
  intros Hk Hc. unfold is_char_boundary. rewrite Hc. rewrite (proj2 (Nat.eqb_neq k 0)), (proj2 (Nat.eqb_neq k (length l))) by lia. by rewrite andb_false_r.
Qed.
Lemma boundary_drop l n k : (n < k)%nat -> is_char_boundary l k = true -> is_char_boundary (drop n l) (k - n) = true.
Proof.
  intros Hn. unfold is_char_boundary, byte_at. rewrite lookup_drop, length_drop. replace (n + (k - n))%nat with k by lia.
  destruct (Nat.eqb_spec k 0), (Nat.eqb_spec k (length l)), (Nat.ltb_spec k (length l)), (Nat.eqb_spec (k - n) 0), (Nat.eqb_spec (k - n) (length l - n)),
    (Nat.ltb_spec (k - n) (length l - n)); try lia; done.
Qed.
(** A prefix that ends at a boundary is text. *)
Lemma valid_prefix fuel l k : utf8_valid_n fuel l = true -> (k <= length l)%nat -> is_char_boundary l k = true -> from_utf8 (take k l) = true.
Proof.
  revert l k. induction fuel as [|fuel IH]; intros l k Hv Hk Hb; [by destruct l; [rewrite take_nil|]|]. destruct (decide (k = 0)%nat) as [->|Hk0]; [by rewrite take_0|].
  destruct (utf8_step l) as [ok n] eqn:E. assert (ok = true /\ utf8_valid_n fuel (drop n l) = true) as [-> Hv'].
  { destruct l as [|b l]; [simpl in Hk; lia|]. cbn [utf8_valid_n] in Hv. rewrite E in Hv. by apply andb_prop in Hv. }
  pose proof (utf8_step_pos _ _ E) as Hn.
  assert (n <= k)%nat as Hnk.
  { destruct (decide (n <= k)%nat) as [|Hgt]; [done|]. exfalso. pose proof (step_cont l n k E ltac:(lia)) as Hc. destruct (decide (k = length l)) as [->|Hne].
    - unfold byte_at in Hc. by rewrite lookup_ge_None_2 in Hc by lia.
    - rewrite boundary_cont in Hb by (done || lia). done. }
  assert (from_utf8 (take (k - n) (drop n l)) = true) as Hrest.
  { destruct (decide (k = n)) as [->|Hne]; [by rewrite Nat.sub_diag, take_0|]. apply IH; [done|rewrite length_drop; lia|by apply boundary_drop; [lia|]]. }
  assert (utf8_step (take k l) = (true, n)) as E'.
  { apply (utf8_step_local l); [done|]. intros i Hi. unfold byte_at. by rewrite lookup_take_lt by lia. }
  unfold from_utf8. destruct (take k l) as [|b r] eqn:Et; [done|]. cbn [length utf8_valid_n]. rewrite E'. cbn [andb].
  rewrite <- Et, skipn_firstn_comm. eapply utf8_valid_fuel; [exact Hrest|]. rewrite length_take, length_drop. apply (f_equal length) in Et. rewrite length_take in Et. simpl in Et. lia.
Qed.
Lemma boundary_below_ok l n : (boundary_below l n <= n)%nat /\ is_char_boundary l (boundary_below l n) = true.
Proof.
  induction n as [|n [IH1 IH2]]; cbn [boundary_below]; [done|]. destruct (is_char_boundary l (S n)) eqn:E; [by split|]. split; [lia|done].
Qed.

Lemma text_diagnostic s diagnostic d : match diagnostic with Some d => text d | None => True end -> diagnostic_of s diagnostic = Some d -> text d.
Proof.
  intros Td. unfold diagnostic_of. destruct diagnostic as [v|]; [intros [= <-]|destruct (s_finished s); [done|by intros [= <-]]].
  unfold truncate_utf8. destruct (Nat.leb_spec (length v) MAX_JUNIT_DIAGNOSTIC_BYTES); [done|].
  destruct (boundary_below_ok v MAX_JUNIT_DIAGNOSTIC_BYTES) as [H1 H2]. eapply valid_prefix; [exact Td|lia|done].
Qed.

Lemma report_read no_sum s diagnostic :
  summary_text s -> match diagnostic with Some d => text d | None => True end ->
  read_document (to_junit_xml_with_diagnostic no_sum s diagnostic) = Some (report_tree no_sum s diagnostic).
Proof.
  intros Ts Td. pose proof (text_diagnostic s diagnostic) as Td'.
  set (t := totals no_sum s). set (e := errors_total no_sum s diagnostic).
  assert (emits (match diagnostic_of s diagnostic with Some d => render_diagnostic d | None => [] end)
    (match diagnostic_of s diagnostic with Some d => [diagnostic_tree d] | None => [] end)) as Hd
    by (destruct (diagnostic_of s diagnostic) as [d|]; [by apply emits_diagnostic, Td'|apply emits_nil]).
  pose proof (emits_app _ _ _ _ (emits_concat (fun suite => render_junit_suite suite (from_suite no_sum suite))
    (fun suite => suite_tree suite (from_suite no_sum suite)) (s_suites s) (Forall_impl _ _ _ (proj1 Ts) (fun suite => emits_suite suite _))) (emits_app _ _ _ _ Hd (emits_output s Ts))) as Hb.
  assert (name_ok (str "name") /\ name_ok (str "tests") /\ name_ok (str "failures") /\ name_ok (str "errors") /\ name_ok (str "skipped") /\ name_ok (str "time"))
    as (N1 & N2 & N3 & N4 & N5 & N6) by (split_and!; auto with junit).
  pose proof (emits_element "testsuites" _ _ _ _ ltac:(auto with junit)
    (attrs_number "name" (str "XCTest") _ _ N1 eq_refl (attrs_number "tests" (print_int (tests t)) _ _ N2 (print_int_literal _)
    (attrs_number "failures" (print_int (failures t)) _ _ N3 (print_int_literal _) (attrs_number "errors" (print_int e) _ _ N4 (print_int_literal _)
    (attrs_number "skipped" (print_int (skipped t)) _ _ N5 (print_int_literal _) (attrs_number "time" (fixed3 (finite_duration (time t))) [] [] N6 (fixed3_literal _) attrs_none eq_refl) eq_refl) eq_refl) eq_refl) eq_refl) eq_refl)
    (emits_renders _ _ Hb)) as H.
  assert (renders [x0a] [Content [x0a]]) as Hn by exact (content_renders [x0a] [x0a] ltac:(by apply (spells_text [x0a]))).
  apply H in Hn. unfold read_document.
  set (doc := to_junit_xml_with_diagnostic no_sum s diagnostic).
  match type of Hn with renders ?o ?n => assert (doc = PROLOG ++ o) as Ed; [|pose proof (renders_reads o n [] (S (length o)) Hn (or_introl eq_refl)) as Hr; set (out := o) in *] end.
  { unfold doc, to_junit_xml_with_diagnostic, PROLOG. fold t. change (match diagnostic_of s diagnostic with Some _ => u64_saturating_add (errors t) 1 | None => errors t end) with e.
    rewrite <- !app_assoc. reflexivity. }
  assert (well_encoded doc = true) as -> by (rewrite Ed; apply good_encoded, good_app; [by apply good_ascii|by eapply renders_good]).
  cbn [negb]. rewrite Ed, eat_app. cbn [mbind option_bind]. rewrite app_nil_r in Hr. rewrite Hr by lia. reflexivity.
Qed.

(** C35. The report is well-formed XML 1.0, and a reader gets the results back. For every summary and
    diagnostic of UTF-8 texts, whatever the names and messages that the device sent, the document that
    [to_junit_xml_with_diagnostic] renders has only characters that XML allows, and reading it gives one element
    with the totals, and in it each suite with its cases, in order, with the status, the failure and the output
    of each. The texts are as a reader sees them: a character that XML cannot hold is replaced, a line
    end is a line feed, and in the value of an attribute a space, as is a tab. *)
Theorem junit_reads_back no_sum s diagnostic :
  summary_text s -> match diagnostic with Some d => text d | None => True end ->
  read_document (to_junit_xml_with_diagnostic no_sum s diagnostic) = Some (report_tree no_sum s diagnostic).
Proof. exact (report_read no_sum s diagnostic). Qed.

(** *** The counts of a report *)

Definition named (n : string) (t : xml) : bool := match t with Element m _ _ => bool_decide (m = str n) | Content _ => false end.
Definition children (t : xml) : list xml := match t with Element _ _ l => l | Content _ => [] end.
Definition attribute (n : string) (t : xml) : option bytes := match t with Element _ attrs _ => imap_lookup (str n) attrs | Content _ => None end.
Definition has_child (n : string) (t : xml) : bool := existsb (named n) (children t).
Definition testcases (t : xml) : list xml := List.filter (named "testcase") (children t).

Lemma testcases_suite s r : testcases (suite_tree s r) = map case_tree (cases s).
Proof.
  unfold testcases, suite_tree. cbn [children element]. rewrite List.filter_app.
  assert (List.filter (named "testcase") (match expected_failures s with Some n => [property_tree (str "expected_failures") (print_int n)] | None => [] end) = []) as ->
    by (by destruct (expected_failures s)).
  cbn [app]. induction (cases s) as [|c l IH]; [done|]. cbn [map List.filter]. change (named "testcase" (case_tree c)) with true. cbv iota. by rewrite IH.
Qed.
Lemma count_map {A B} (f : B -> bool) (g : A -> B) (h : A -> bool) l : (forall a, f (g a) = h a) -> count f (map g l) = count h l.
Proof.
  intros H. unfold count. induction l as [|a l IH]; [done|]. cbn [map List.filter]. rewrite H. destruct (h a); [|done]. unfold len in *. cbn [length]. lia.
Qed.
Lemma case_failed c : has_child "failure" (case_tree c) = is_failed c.
Proof. destruct c as [? ? st ? f]. unfold is_failed, has_child, case_tree, status_tree. cbn. by destruct st as [[| | | | |]|], f. Qed.
Lemma case_skipped c : has_child "skipped" (case_tree c) = is_skipped c.
Proof. destruct c as [? ? st ? f]. unfold is_skipped, has_child, case_tree, status_tree. cbn. by destruct st as [[| | | | |]|], f. Qed.
Lemma case_error c : has_child "error" (case_tree c) = is_error c.
Proof. destruct c as [? ? st ? f]. unfold is_error, has_child, case_tree, status_tree. cbn. by destruct st as [[| | | | |]|], f. Qed.

Lemma totals_sum no_sum (f : JUnitSuiteReport -> Z) l t :
  (forall a b, f (add_report a b) = u64_saturating_add (f a) (f b)) -> 0 <= f t < 2 ^ 64 -> Forall (fun s => 0 <= f (from_suite no_sum s)) l ->
  f (foldl add_report t (map (from_suite no_sum) l)) = Z.min (2 ^ 64 - 1) (f t + lsum (fun s => f (from_suite no_sum s)) l).
Proof.
  intros Hf. revert t. induction l as [|s l IH]; intros t Ht Hl; cbn [map foldl].
  { unfold lsum. cbn. lia. }
  inversion Hl as [|? ? Hs Hl']; subst. rewrite IH; [|rewrite Hf; unfold u64_saturating_add; lia|done]. rewrite Hf. unfold u64_saturating_add, lsum. cbn [foldr].
  fold (lsum (fun s => f (from_suite no_sum s)) l). pose proof (lsum_nonneg (fun s => f (from_suite no_sum s)) l Hl'). lia.
Qed.
Lemma count_nonneg {A} (f : A -> bool) l : 0 <= count f l.
Proof. apply len_nonneg. Qed.

(** What a [testsuite] of the report says of itself: its counts are those of its test cases; its errors are the
    cases with an error and the exceptions that the suite reported, [uncaught]. *)
Definition counts_agree (uncaught : Z) (t : xml) : Prop :=
  named "testsuite" t = true /\
  attribute "tests" t = Some (print_int (len (testcases t))) /\
  attribute "failures" t = Some (print_int (count (has_child "failure") (testcases t))) /\
  attribute "skipped" t = Some (print_int (count (has_child "skipped") (testcases t))) /\
  attribute "errors" t = Some (print_int (u64_saturating_add uncaught (count (has_child "error") (testcases t)))).
Definition uncaught (s : TestSuiteSummary) : Z := default 0 (uncaught_exceptions s).
Lemma suite_counts no_sum suite : counts_agree (uncaught suite) (suite_tree suite (from_suite no_sum suite)).
Proof.
  unfold counts_agree. rewrite testcases_suite, (count_map _ _ is_failed), (count_map _ _ is_skipped), (count_map _ _ is_error)
    by (apply case_failed || apply case_skipped || apply case_error).
  split; [reflexivity|]. split; [|by split_and!]. unfold len. by rewrite length_map.
Qed.
(** A total over the suites of the report, [g] of their summaries. *)
Definition total (l : list Z) : Z := Z.min (2 ^ 64 - 1) (lsum id l).
Lemma totals_total no_sum s g :
  (forall a b, g (add_report a b) = u64_saturating_add (g a) (g b)) -> (forall suite, 0 <= g (from_suite no_sum suite)) -> g (mkReport 0 0 0 0 zero) = 0 ->
  g (totals no_sum s) = total (map (fun suite => g (from_suite no_sum suite)) (s_suites s)).
Proof.
  intros Hadd Hpos H0. unfold totals, total. rewrite (totals_sum no_sum g), H0 by (done || (rewrite H0; lia) || (apply Forall_true; intros; apply Hpos)). rewrite Z.add_0_l.
  f_equal. unfold lsum, id. generalize (s_suites s). intros l. induction l as [|a l IH]; [done|]. cbn [map foldr]. by rewrite <- IH.
Qed.

Lemma lsum_id {A} (f : A -> Z) l : lsum id (map f l) = lsum f l.
Proof. unfold lsum, id. induction l as [|a l IH]; [done|]. cbn [map foldr]. by rewrite IH. Qed.
(** Stopping at the largest number in between makes no difference. *)
Lemma sum_capped {A} (f g h : A -> Z) l :
  Forall (fun a => 0 <= g a /\ 0 <= h a /\ f a = u64_saturating_add (g a) (h a)) l -> 0 <= lsum f l /\ Z.min (2 ^ 64 - 1) (lsum f l) = Z.min (2 ^ 64 - 1) (lsum h l + lsum g l).
Proof.
  unfold lsum. induction 1 as [|a l (Hg & Hh & E) _ [IH1 IH2]]; cbn [foldr]; [done|]. rewrite E. unfold u64_saturating_add. lia.
Qed.

(** C37. The counts in the report are those of what is in it. The document that
    [to_junit_xml_with_diagnostic] renders from UTF-8 texts reads back as a [testsuites] element whose first
    children are one [testsuite] for each suite of the summary. Of each, [tests] is the number of its
    [testcase] children, [failures] and [skipped] the number of those with such a child, and [errors] the
    number of those with an [error] child plus the uncaught exceptions that the suite reported. The
    counts of [testsuites] are the sums over the suites, and its [errors] one more if there is a
    diagnostic, which is then the next child and holds one [error]. All sums stop at the largest
    64-bit number. *)
Theorem junit_counts_agree no_sum s diagnostic :
  summary_text s -> match diagnostic with Some d => text d | None => True end -> Forall (fun suite => 0 <= uncaught suite) (s_suites s) ->
  exists root suites others,
    read_document (to_junit_xml_with_diagnostic no_sum s diagnostic) = Some root /\ named "testsuites" root = true /\ children root = suites ++ others /\
    Forall2 (fun suite t => counts_agree (uncaught suite) t) (s_suites s) suites /\
    attribute "tests" root = Some (print_int (total (map (fun t => len (testcases t)) suites))) /\
    attribute "failures" root = Some (print_int (total (map (fun t => count (has_child "failure") (testcases t)) suites))) /\
    attribute "skipped" root = Some (print_int (total (map (fun t => count (has_child "skipped") (testcases t)) suites))) /\
    attribute "errors" root = Some (print_int (total (map (fun t => count (has_child "error") (testcases t)) suites ++ map uncaught (s_suites s) ++
       match diagnostic_of s diagnostic with Some _ => [1] | None => [] end))) /\
    match diagnostic_of s diagnostic with Some _ => exists d rest, others = d :: rest /\ has_child "error" d = true /\ testcases d = [] | None => True end.
Proof.
  intros Ts Td Hu. set (tree := fun suite => suite_tree suite (from_suite no_sum suite)).
  exists (report_tree no_sum s diagnostic), (map tree (s_suites s)), (match diagnostic_of s diagnostic with Some d => [diagnostic_tree d] | None => [] end ++ outputs_tree s).
  assert (forall (g : JUnitSuiteReport -> Z) (f : xml -> Z), (forall suite, f (tree suite) = g (from_suite no_sum suite)) -> map f (map tree (s_suites s)) = map (fun suite => g (from_suite no_sum suite)) (s_suites s)) as Hmap.
  { intros g f H. rewrite map_map. by apply map_ext. }
  assert (forall suite, len (testcases (tree suite)) = tests (from_suite no_sum suite)) as H1 by (intros; unfold tree; rewrite testcases_suite; unfold len; by rewrite length_map).
  assert (forall suite, count (has_child "failure") (testcases (tree suite)) = failures (from_suite no_sum suite)) as H2 by (intros; unfold tree; rewrite testcases_suite; apply count_map, case_failed).
  assert (forall suite, count (has_child "skipped") (testcases (tree suite)) = skipped (from_suite no_sum suite)) as H3 by (intros; unfold tree; rewrite testcases_suite; apply count_map, case_skipped).
  assert (forall suite, count (has_child "error") (testcases (tree suite)) = count is_error (cases suite)) as H4 by (intros; unfold tree; rewrite testcases_suite; apply count_map, case_error).
  split_and!.
  - by apply report_read.
  - reflexivity.
  - reflexivity.
  - clear. induction (s_suites s) as [|suite l IH]; constructor; [apply suite_counts|done].
  - rewrite (Hmap tests) by done. rewrite <- totals_total by (done || (intros; apply len_nonneg)). reflexivity.
  - rewrite (Hmap failures) by done. rewrite <- totals_total by (done || (intros; apply count_nonneg)). reflexivity.
  - rewrite (Hmap skipped) by done. rewrite <- totals_total by (done || (intros; apply count_nonneg)). reflexivity.
  - assert (Forall (fun suite => 0 <= uncaught suite /\ 0 <= count is_error (cases suite) /\
      errors (from_suite no_sum suite) = u64_saturating_add (uncaught suite) (count is_error (cases suite))) (s_suites s)) as Hf.
    { eapply Forall_impl; [exact Hu|]. intros x Hx. split_and!; [done|apply count_nonneg|done]. }
    destruct (sum_capped _ _ _ _ Hf) as [Hpos Hsum].
    assert (errors (totals no_sum s) = Z.min (2 ^ 64 - 1) (lsum (fun t => count (has_child "error") (testcases t)) (map tree (s_suites s)) + lsum uncaught (s_suites s))) as He.
    { unfold totals. rewrite (totals_sum no_sum errors); [|done|cbn; lia|].
      - rewrite Z.add_0_l, Hsum. do 2 f_equal. unfold lsum. clear -H4. induction (s_suites s) as [|x l IH]; [done|]. cbn [map foldr]. by rewrite H4, IH.
      - eapply Forall_impl; [exact Hf|]. cbv beta. intros x (? & ? & ->). unfold u64_saturating_add. lia. }
    transitivity (Some (print_int (errors_total no_sum s diagnostic))); [reflexivity|]. do 2 f_equal. unfold errors_total, total.
    rewrite !lsum_app, !lsum_id. destruct (diagnostic_of s diagnostic); rewrite He; [unfold u64_saturating_add|]; unfold lsum at 5, id; cbn [foldr]; lia.
  - destruct (diagnostic_of s diagnostic) as [d|]; [|done]. by eexists _, _.
Qed.

(** ** The recorder *)

(** *** Logs *)

(** A log with its size. *)
Definition log_ok (l : list bytes) (n : Z) : Prop :=
  n = lsum len l /\ n <= MAX_CAPTURED_LOG_BYTES /\ len l <= MAX_CAPTURED_LOG_MESSAGES /\ Forall (fun m => m <> [] /\ from_utf8 m = true) l.
Lemma push_log_ok l n m : log_ok l n -> from_utf8 m = true -> let '(l', n') := push_log_into l n m in log_ok l' n' /\ l `prefix_of` l'.
Proof.
  intros Hok Hm. pose proof Hok as (Hn & Hb & Hc & Hl). unfold push_log_into. destruct (_ || _) eqn:Efull; [by split|]. apply orb_false_iff in Efull as [E1 E2].
  apply Z.leb_gt in E1, E2. cbv zeta. set (m' := if _ <? len m then _ else m).
  assert (from_utf8 m' = true /\ len m' <= MAX_CAPTURED_LOG_BYTES - n) as [Hv Hlen].
  { unfold m'. destruct (Z.ltb_spec (MAX_CAPTURED_LOG_BYTES - n) (len m)); [|by split; [|lia]].
    destruct (boundary_below_ok m (Z.to_nat (MAX_CAPTURED_LOG_BYTES - n))) as [H1 H2]. unfold len in *. rewrite length_take. split; [|lia].
    eapply valid_prefix; [exact Hm|lia|done]. }
  destruct (bool_decide_reflect (m' = [])) as [|Hne]; [by split|]. split; [|by exists [m']]. unfold log_ok. rewrite lsum_app, len_app.
  unfold lsum at 2. cbn [foldr]. pose proof (len_nonneg m'). assert (0 <= lsum len l) by (apply lsum_nonneg, Forall_true; intros; apply len_nonneg).
  unfold MAX_CAPTURED_LOG_BYTES, usize_max in *. split_and!; [lia|lia|unfold len at 2; cbn; lia|]. apply Forall_app. split; [done|]. by constructor.
Qed.
(** What is text in an event that logs. *)
Definition says_text (e : TestExecutionEvent) : Prop := match e with Log m _ => from_utf8 m = true | _ => True end.
Definition logs_ok (r : TestRunRecorder) : Prop := log_ok (logs r) (log_bytes r) /\ log_ok (debug_logs r) (debug_log_bytes r).
Lemma apply_logs e r : logs_ok r -> says_text e -> logs_ok (apply e r).
Proof.
  intros [H1 H2] Ht. destruct e as [| |m d|n sa|n res|c m|c m f|c m st dur]; cbn [apply]; try done.
  - unfold push_log. destruct d.
    + pose proof (push_log_ok _ _ m H2 Ht) as H. destruct (push_log_into _ _ m) as [l n]. by split; [|apply H].
    + pose proof (push_log_ok _ _ m H1 Ht) as H. destruct (push_log_into _ _ m) as [l n]. by split; [apply H|].
  - by destruct (find_or_create_suite n (suites r)).
  - by destruct (find_or_create_active_suite c (suites r)).
Qed.

(** *** A run *)

(** What a suite does: cases, suites of its own, and lines of a log, in any order. The events of a case come one after
    the other, and it fails at most once. *)
Inductive item :=
| ACase (class method : bytes) (fail : option TestFailure) (st : TestCaseStatus) (duration : f64)
| ASuite (name : bytes) (started_at : option bytes) (items : list item) (r : SuiteResult)
| ALine (message : bytes) (debug : bool).
(** The events it sends. *)
Fixpoint events (i : item) : list TestExecutionEvent :=
  match i with
  | ACase class method fail st duration =>
      CaseStarted class method :: match fail with Some f => [CaseFailed class method f] | None => [] end ++ [CaseFinished class method st duration]
  | ASuite name started_at items r => SuiteStarted name started_at :: concat (map events items) ++ [SuiteFinished name r]
  | ALine message debug => [Log message debug]
  end.
(** What a summary should hold of it: the suites, each before those inside it, with the cases
    that are its own. *)
Definition case_of (i : item) : list TestCaseSummary :=
  match i with ACase class method fail st duration => [mkCase class method (Some st) (Some duration) fail] | _ => [] end.
Fixpoint suites_of (i : item) : list TestSuiteSummary :=
  match i with
  | ASuite name started_at items r => finish_suite r (set_cases (concat (map case_of items)) (new_suite name started_at)) :: concat (map suites_of items)
  | _ => []
  end.
(** No suite has the name of one around it. *)
Fixpoint names_apart (i : item) : Prop :=
  match i with
  | ASuite n _ items _ => Forall (fun s => name s <> n) (concat (map suites_of items)) /\ fold_right (fun i P => names_apart i /\ P) True items
  | _ => True
  end.
Definition apply_all (es : list TestExecutionEvent) (r : TestRunRecorder) : TestRunRecorder := foldl (fun r e => apply e r) r es.

Lemma item_induction (P : item -> Prop) :
  (forall c m f st d, P (ACase c m f st d)) -> (forall n sa items r, Forall P items -> P (ASuite n sa items r)) -> (forall m d, P (ALine m d)) -> forall i, P i.
Proof.
  intros Hc Hs Hl. fix IH 1. intros [c m f st d|n sa items r|m d]; [apply Hc| |apply Hl]. apply Hs. induction items as [|i items IHl]; constructor; [apply IH|apply IHl].
Qed.
Lemma apply_all_app es1 es2 r : apply_all (es1 ++ es2) r = apply_all es2 (apply_all es1 r).
Proof. apply foldl_app. Qed.

Lemma rposition_last {A} (f : A -> bool) l1 a l2 : f a = true -> Forall (fun x => f x = false) l2 -> rposition f (l1 ++ a :: l2) = Some (length l1).
Proof.
  intros Ha Hl. assert (rposition f l2 = None) as Hn. { induction Hl as [|x l Hx _ IH]; [done|]. cbn [rposition]. by rewrite IH, Hx. }
  induction l1 as [|x l1 IH]; cbn [app rposition length]; [by rewrite Hn, Ha|by rewrite IH].
Qed.
Lemma alter_middle {A} (f : A -> A) l1 a l2 : alter f (length l1) (l1 ++ a :: l2) = l1 ++ f a :: l2.
Proof. induction l1 as [|x l1 IH]; [done|]. cbn [app length]. unfold alter in *. cbn. by f_equal. Qed.

(** The suite [a] is running, after [before]; those after it have finished. *)
Definition running (before : list TestSuiteSummary) (a : TestSuiteSummary) (after : list TestSuiteSummary) (r : TestRunRecorder) : Prop :=
  suites r = before ++ a :: after /\ test_count a = None /\ Forall (fun s => test_count s <> None) after.
Lemma running_active before a after r class : running before a after r -> find_or_create_active_suite class (suites r) = (length before, suites r).
Proof.
  intros (-> & Ha & Hf). unfold find_or_create_active_suite. rewrite rposition_last; [done|by rewrite Ha|].
  eapply Forall_impl; [exact Hf|]. cbv beta. intros s Hs. destruct (test_count s) eqn:E; [done|by destruct Hs].
Qed.
Lemma on_case_running before a after r class method f cs c :
  running before a after r -> cases a = cs ++ [c] -> class_name c = class -> method_name c = method ->
  on_case class method f (suites r) = before ++ set_cases (cs ++ [f c]) a :: after.
Proof.
  intros Hr Hc <- <-. unfold on_case. rewrite (running_active before a after r) by done. destruct Hr as (-> & _). rewrite alter_middle. do 2 f_equal.
  unfold find_or_create_case. rewrite Hc, (rposition_last _ cs c []) by (by rewrite ?bool_decide_true || done). f_equal.
  apply (alter_middle f cs c []).
Qed.
Lemma case_running before a after r class method fail st dur :
  running before a after r ->
  running before (set_cases (cases a ++ case_of (ACase class method fail st dur)) a) after (apply_all (events (ACase class method fail st dur)) r).
Proof.
  intros Hr. cbn [events]. change (apply_all (?e :: ?es) r) with (apply_all es (apply e r)). rewrite apply_all_app.
  set (a1 := set_cases (cases a ++ [mkCase class method None None None]) a).
  assert (running before a1 after (apply (CaseStarted class method) r)) as Hr1.
  { cbn [apply]. rewrite (running_active before a after r) by done. destruct Hr as (Hs & Ha & Hf). split; [|done]. cbn [suites set_suites]. by rewrite Hs, alter_middle. }
  set (r1 := apply (CaseStarted class method) r) in *.
  assert (exists st2, st2 <> Some Stalled /\
    running before (set_cases (cases a ++ [mkCase class method st2 None fail]) a) after (apply_all match fail with Some f => [CaseFailed class method f] | None => [] end r1)) as (st2 & Hst & Hr2).
  { destruct fail as [f|]; [|by exists None]. exists (Some Failed). split; [done|]. cbn [apply_all foldl apply]. split; [|by destruct Hr].
    cbn [suites set_suites]. by rewrite (on_case_running before a1 after r1 class method _ (cases a) _ Hr1 eq_refl). }
  set (r2 := apply_all _ _) in *. cbn [apply_all foldl apply case_of]. split; [|by destruct Hr].
  cbn [suites set_suites]. rewrite (on_case_running before _ after r2 class method _ (cases a) (mkCase class method st2 None fail) Hr2) by done.
  unfold finish_case. cbn. by rewrite bool_decide_false.
Qed.
Lemma line_suites r m d : suites (apply (Log m d) r) = suites r.
Proof. cbn [apply]. unfold push_log. destruct d; by destruct (push_log_into _ _ m). Qed.
Lemma suites_of_finished i : Forall (fun s => test_count s <> None) (suites_of i).
Proof.
  induction i as [| n sa items r IH|] using item_induction; cbn [suites_of]; try constructor; [done|].
  induction IH as [|i items Hi _ IHl]; [constructor|]. cbn [map concat]. by apply Forall_app.
Qed.
(** A suite adds its suites to whatever is there. *)
Definition adds_suites (i : item) : Prop :=
  forall r, match i with ASuite _ _ _ _ => suites (apply_all (events i) r) = suites r ++ suites_of i | _ => True end.
Lemma items_running items before a after r :
  Forall adds_suites items -> running before a after r ->
  running before (set_cases (cases a ++ concat (map case_of items)) a) (after ++ concat (map suites_of items)) (apply_all (concat (map events items)) r).
Proof.
  intros Hi. revert a after r. induction Hi as [|i items Hi _ IH]; intros a after r Hr; cbn [map concat].
  { rewrite !app_nil_r. by destruct a. }
  rewrite apply_all_app. assert (running before (set_cases (cases a ++ case_of i) a) (after ++ suites_of i) (apply_all (events i) r)) as Hr1.
  { destruct i as [c m f st d|n sa sub res|m d].
    - cbn [suites_of]. rewrite app_nil_r. by apply case_running.
    - cbn [case_of]. rewrite app_nil_r. specialize (Hi r). cbv beta iota in Hi. destruct Hr as (Hs & Ha & Hf). split; [|split].
      + rewrite Hi, Hs. rewrite <- app_assoc. by destruct a.
      + exact Ha.
      + apply Forall_app. split; [done|apply suites_of_finished].
    - cbn [case_of suites_of]. rewrite !app_nil_r. destruct Hr as (Hs & Ha & Hf). split; [|by destruct a].
      change (suites (apply (Log m d) r) = before ++ set_cases (cases a) a :: after). rewrite line_suites, Hs. by destruct a. }
  specialize (IH _ _ _ Hr1). rewrite <- !app_assoc in IH. cbn [cases set_cases] in IH. rewrite <- app_assoc in IH. exact IH.
Qed.
Lemma suite_adds i : names_apart i -> adds_suites i.
Proof.
  induction i as [| n sa items res IH|] using item_induction; try done. intros [Hn Ha] r. cbn [events suites_of].
  change (apply_all (?e :: ?es) r) with (apply_all es (apply e r)). rewrite apply_all_app.
  assert (Forall adds_suites items) as Hi.
  { clear Hn. induction IH as [|i items Hi _ IHl]; [constructor|]. destruct Ha as [H1 H2]. constructor; [by apply Hi|by apply IHl]. }
  assert (running (suites r) (new_suite n sa) [] (apply (SuiteStarted n sa) r)) as Hr by done.
  pose proof (items_running items _ _ _ _ Hi Hr) as (Hs & _ & _). set (r1 := apply_all _ _) in *. cbn [apply_all foldl apply app] in *.
  unfold find_or_create_suite. rewrite Hs, rposition_last; [|by apply bool_decide_true|].
  - cbn [suites set_suites]. by rewrite alter_middle.
  - eapply Forall_impl; [exact Hn|]. cbv beta. intros s Hne. by apply bool_decide_false.
Qed.

(** C36. The recorder holds what the run did. Take a run of suites nested in any way, with cases before, between
    and after the suites inside and log lines anywhere, in which every case lies in a suite, its events come in one
    block and it fails at most once, and no suite is named like one around it ([names_apart]). After its events the
    recorder has each suite once, in the order they started, with the counts and times it reported and exactly
    its own cases, in order, each with its status, its duration and its failure; the plan has begun and finished. *)
Theorem recorder_faithful run :
  Forall (fun i => match i with ASuite _ _ _ _ => names_apart i | _ => False end) run ->
  let r := apply_all (BeganPlan :: concat (map events run) ++ [FinishedPlan]) recorder_default in
  suites r = concat (map suites_of run) /\ began r = true /\ finished r = true.
Proof.
  intros Hrun. cbv zeta. change (apply_all (BeganPlan :: ?es) recorder_default) with (apply_all es (apply BeganPlan recorder_default)). rewrite apply_all_app.
  assert (forall e r, began r = true -> began (apply e r) = true) as Hb.
  { intros e r Hr. destruct e as [| |m d|n sa|n res|c m|c m f|c m st d]; cbn [apply]; try done.
    - unfold push_log. destruct d; by destruct (push_log_into _ _ m).
    - by destruct (find_or_create_suite n (suites r)).
    - by destruct (find_or_create_active_suite c (suites r)). }
  assert (forall es r, began r = true -> began (apply_all es r) = true) as Hbs.
  { intros es. induction es as [|e es IH]; intros r Hr; [done|]. apply IH, Hb, Hr. }
  split; [|split; [|done]].
  2: { apply (Hbs [FinishedPlan]). by apply Hbs. }
  change (suites (apply_all (concat (map events run)) (apply BeganPlan recorder_default)) = concat (map suites_of run)).
  cut (forall r, suites (apply_all (concat (map events run)) r) = suites r ++ concat (map suites_of run)); [intros H; apply H|].
  induction Hrun as [|i run Hi _ IH]; intros r; cbn [map concat]; [by rewrite app_nil_r|]. rewrite apply_all_app, IH.
  destruct i as [|n sa items res|]; try done. pose proof (suite_adds _ Hi r) as H. cbv beta iota in H. by rewrite H, app_assoc.
Qed.

(** What the recorder keeps of the logs is bounded, and text. In every state that events can
    reach, each of the two logs has at most 16384 entries and 8 MiB, its recorded size is
    exact, and every entry is non-empty, well-formed text. *)
Theorem recorder_logs_bounded es :
  Forall says_text es ->
  let r := apply_all es recorder_default in
  log_ok (logs r) (log_bytes r) /\ log_ok (debug_logs r) (debug_log_bytes r).
Proof.
  intros Hes. cbv zeta. change (logs_ok (apply_all es recorder_default)).
  assert (logs_ok recorder_default) as H0 by (repeat split; vm_compute; congruence || constructor).
  revert H0. generalize recorder_default. induction Hes as [|e es He _ IH]; intros r Hr; [done|]. by apply IH, apply_logs.
Qed.

(** ** Witnesses *)

Definition second : f64 := f64_of_Z 1.
Definition half : f64 := SFdiv 53 1024 second (f64_of_Z 2).
Definition outcome_of (tests failures : Z) : SuiteResult := mkResult None tests 0 failures 0 0 0 second second.
(** A case, a suite with a failing case and a line, and another case. *)
Definition demo_run : list item :=
  [ASuite (str "All") None
     [ACase (str "A") (str "first") None Passed half;
      ASuite (str "Inner") (Some (str "now")) [ALine (str "a<b") false; ACase (str "B") (str "bad") (Some (mkFailure (str "x > y") (Some (str "f.m")) (Some 7))) Failed second] (outcome_of 1 1);
      ACase (str "A") (str "last") None Skipped half] (outcome_of 3 1)].
Definition demo_recorder : TestRunRecorder := apply_all (BeganPlan :: concat (map events demo_run) ++ [FinishedPlan]) recorder_default.
Lemma recorder_faithful_witness :
  map name (suites demo_recorder) = [str "All"; str "Inner"] /\
  suites demo_recorder = concat (map suites_of demo_run) /\ began demo_recorder = true /\ finished demo_recorder = true.
Proof.
  split; [vm_compute; reflexivity|]. apply (recorder_faithful demo_run). constructor; [|constructor]. split.
  - constructor; [vm_compute; congruence|constructor].
  - split; [exact I|]. split; [|split; exact I]. split; [constructor|]. split; [exact I|]. split; exact I.
Defined.
Lemma recorder_logs_bounded_witness :
  log_bytes (apply_all [Log (str "a<b") false; Log (str "c") true] recorder_default) = 3 /\
  log_ok (logs (apply_all [Log (str "a<b") false; Log (str "c") true] recorder_default)) (log_bytes (apply_all [Log (str "a<b") false; Log (str "c") true] recorder_default)).
Proof.
  split; [vm_compute; reflexivity|]. apply (recorder_logs_bounded [Log (str "a<b") false; Log (str "c") true]).
  constructor; [vm_compute; reflexivity|]. constructor; [vm_compute; reflexivity|constructor].
Defined.
(** The report of this run, with a diagnostic. *)
Definition demo_summary : TestRunSummary := mkSummary true true 4 2 0 (logs demo_recorder) (debug_logs demo_recorder) (suites demo_recorder).
Lemma demo_text : summary_text demo_summary.
Proof. split_and!; [|repeat constructor|constructor]. repeat (constructor; [split; [reflexivity|]|]); repeat constructor. Qed.
Lemma junit_reads_back_witness :
  read_document (to_junit_xml_with_diagnostic zero demo_summary (Some (str "a" ++ [x01; x0d; x0a] ++ str "b"))) =
  Some (report_tree zero demo_summary (Some (str "a" ++ [x01; x0d; x0a] ++ str "b"))).
Proof. apply (junit_reads_back zero demo_summary (Some (str "a" ++ [x01; x0d; x0a] ++ str "b"))); [exact demo_text|reflexivity]. Defined.
Lemma junit_counts_agree_witness : exists root suites others,
  read_document (to_junit_xml_with_diagnostic zero demo_summary None) = Some root /\ children root = suites ++ others /\
  attribute "failures" root = Some (str "1") /\ attribute "tests" root = Some (str "3").
Proof.
  destruct (junit_counts_agree zero demo_summary None demo_text I) as (root & suites & others & Hr & _ & Hc & _ & Ht & Hf & _).
  - repeat constructor; vm_compute; discriminate.
  - exists root, suites, others. split; [exact Hr|]. split; [exact Hc|]. rewrite report_read in Hr by (exact demo_text || exact I). injection Hr as <-.
    split; vm_compute; reflexivity.
Defined.
(** The line end in a name is not escaped: a reader sees a space. *)
Example line_end_in_name :
  read_document (to_junit_xml zero (mkSummary true true 0 0 0 [] [] [new_suite (str "a" ++ [x0a] ++ str "b") None]))
  = read_document (to_junit_xml zero (mkSummary true true 0 0 0 [] [] [new_suite (str "a b") None])).
Proof. vm_compute. reflexivity. Qed.
Example demo_time : fixed3 half = str "0.500" /\ fixed3 (f64_of_Z 12) = str "12.000" /\ fixed3 (f64_of_bits 4591870180066957722) = str "0.100".
Proof. vm_compute. split_and!; reflexivity. Qed.
(** Counts that the device reports can make the sum of a summary overflow. *)
Example summary_overflows :
  summary (apply_all [SuiteFinished (str "a") (outcome_of (2 ^ 64 - 1) 0); SuiteFinished (str "b") (outcome_of 1 0)] recorder_default) = Panic.
Proof. vm_compute. reflexivity. Qed.
(** Of two failures of a case the last is kept. *)
Example failure_kept_is_last :
  let fail m := CaseFailed (str "A") (str "test") (mkFailure (str m) None None) in
  map (fun s => map failure (cases s)) (suites (apply (fail "second") (apply (fail "first") recorder_default)))
  = [[Some (mkFailure (str "second") None None)]].
Proof. vm_compute. reflexivity. Qed.
End TestResultsSpec.
